(* ===== verification/_CoqProject ===== *)
-Q . S2P
Prelude.v
CLib.v
Exceptions.v
UriParser.v
EventLoop.v
Transport.v
Protocol.v
Driver.v
Resolver.v
ResolverExec.v
ResolverSpec.v
ResolverMetrics.v
CFloat.v
CFloatSpec.v
CJson.v
CJsonTree.v
CJsonPrint.v
CJsonPrintSpec.v
CJsonSafety.v
CJsonRoundtrip.v
CJsonMinify.v
CJsonCompare.v
JsonHelpers.v
CsvClient.v
UrlTemplate.v
DriverConfig.v
Thread.v
SipClient.v
SipSession.v
SipExit.v
BlockingHttp.v
Drivers.v
DriversSpec.v
HeapLogic.v
CJsonMemory.v
CJsonMemorySpec.v
CJsonObjectMemory.v
CJsonOwned.v
CJsonObjectMemorySpec.v
CJsonParseMemory.v
CJsonParseMemorySpec.v
AsyncHttp.v
AsyncHttpSpec.v
CurlExample.v
Config.v
ConfuseScanner.v
ConfuseRules.v
ConfuseLexer.v
ConfuseLexerSpec.v
ConfuseFiles.v
ConfuseData.v
ConfuseTree.v
Confuse.v
ConfuseGrammar.v
ConfuseLookup.v
ConfuseParse.v
ConfuseTurns.v
ConfuseParseSpec.v
ConfuseTyped.v
ConfuseEdit.v
ConfusePrint.v
ConfuseTokens.v
ConfusePrintSpec.v
Metrics.v
ConfuseLoad.v
Cache.v
CacheSpec.v
Outputs.v
Process.v
ProcessSpec.v
System.v
Scenario.v
OutputsExample.v
ProcessExample.v
