(* ===== verification/Prelude.v ===== *)
(** * Verification of yeti-lnp-resolver

    The program answers local-number-portability requests.  A client sends a
    UDP datagram; the resolver parses it, acknowledges it and hands it to the
    driver of its database; the driver answers from a file (CSV), from a SIP
    redirect, or through an HTTP request, whose response it parses later; the
    client gets a reply or an error, results of one kind go to a cache table,
    and counters are exported.

    ** Parts

    - [Prelude], [CLib], [Exceptions]: outcomes with exceptions and undefined
      behaviour, a state monad, machine integers; the C and C++ library
      functions the program uses; the exception classes (libs/fmterror.h).
    - [UriParser] (libs/uri_parser.c), [EventLoop] (dispatcher/), [Transport]
      (transport/): addresses, epoll handlers and the loop, UDP sockets.
    - [Protocol] (resolver/Resolver.cpp, the packed headers): requests and
      replies as bytes.
    - [Driver] (drivers/Driver.h and the handler classes): the interfaces
      [CDriver], [HttpClient], [ResolverHandler], [DriverFactory], with laws.
    - [Resolver] (resolver/Resolver.cpp) against those interfaces;
      [ResolverExec] its execution case by case; [ResolverSpec] its contract;
      [ResolverMetrics] the metrics and [configure].
    - [CFloat], [CFloatSpec]: strtod and printf %g on binary64.
    - [CJson], [CJsonTree], [CJsonPrint] (libs/cJSON.c): parser, items,
      printer; [CJsonSafety] and [CJsonPrintSpec] their proofs;
      [CJsonRoundtrip] printing and parsing together; [CJsonMinify] and
      [CJsonCompare] the functions of their names.
    - The same items as linked blocks of a heap (libs/cJSON.c): [HeapLogic]
      the memory and a linear separation logic for it (in the proof mode of
      Iris); [CJsonMemory] allocation, which an [Allocator] may
      refuse, links, references and deletion,
      [CJsonObjectMemory] look-up by name, creation and duplication,
      [CJsonParseMemory] the parser and the reply of the CNAM driver;
      [CJsonMemorySpec], [CJsonOwned], [CJsonObjectMemorySpec] and
      [CJsonParseMemorySpec] what holds of them there.
    - [JsonHelpers] (libs/jsonxx.h, libs/jsonxx.cpp and
      drivers/JsonHelpers.cpp).
    - [CsvClient], [UrlTemplate], [DriverConfig], [SipClient], [Drivers]
      (drivers/): the seven drivers and what they use; [DriversSpec]
      discharges the interface [CDriver] for them; [SipSession] a SIP request
      as the dispatcher's thread and the thread of libre run it together;
      [SipExit] the destructor of the client beside that thread.
    - [AsyncHttp] (drivers/modules/AsyncHttpClient.cpp) over libcurl as an
      interface of resumable runs; [AsyncHttpSpec] discharges [HttpClient];
      [CurlExample] an instance of the interface.  [BlockingHttp]
      (drivers/modules/HttpClient.cpp) the client that no driver uses now.
    - [Thread] (thread.h, thread.cpp), [Cache], [CacheSpec] (cache.cpp): the
      cache thread, step by step, with the dispatcher's thread and the signal
      handler interleaved.
    - [Config] (cfg.cpp, cfg_reader.cpp), [Metrics] (statistics/prometheus/),
      [System] (yeti_lnp_resolver.cpp, sig.cpp).
    - libconfuse (third/confuse/src), which reads the configuration file:
      [ConfuseScanner] the tables and the automaton of lexer.c,
      [ConfuseRules] the patterns of lexer.l they were generated from,
      [ConfuseLexer] the actions of cfg_yylex, [ConfuseFiles] names of files
      and inclusion, [ConfuseData] the tree of options and its reading,
      [Confuse] cfg_setopt, the defaults and the state machine of the parser,
      [ConfuseEdit] the functions that set, add and remove, [ConfusePrint]
      those that print.  Their proofs: [ConfuseLexerSpec], [ConfuseTree] and
      [ConfuseLookup] (a tree seen through its paths), [ConfuseGrammar] the
      grammar, [ConfuseParse], [ConfuseTurns] and [ConfuseParseSpec] the parser
      against it, [ConfuseTyped] the types of values, [ConfuseTokens] and
      [ConfusePrintSpec] printing and reading together.  [ConfuseLoad]
      (cfg_reader.cpp) puts the option tables and the load on top of it.
    - [Outputs]: the resolver composed with the exporter and with the cache,
      whose inputs are what the resolver sends out.
    - [Scenario]: the resolver with real drivers on concrete events;
      [OutputsExample] a run of the compositions.
    - [Process]: the resolver, its HTTP client, the transport and the
      dispatcher over one kernel, from the start-up of main to the end of the
      loop; [ProcessSpec] its theorems; [ProcessExample] a run of it.

    ** How the code is modelled

    A method of an object is a function on the record of its members, in the
    monad [stM]: the state it leaves is there also when it throws.  Code that
    cannot throw is a plain function.  An access outside a buffer, a null or
    freed pointer, an overflowing signed conversion is [Undef], never an
    arbitrary value.  Bytes are [ascii], C strings are cut at their NUL
    ([c_str]), integers are [Z] with the wrap written out ([u8], [u32],
    [s32]).  Heap objects whose life matters (the blocks, the easy handles and
    the header lists of the HTTP client, the connection of the cache) are addresses or pointers with a state.
    What is not in the repository or is vendored (the kernel, libcurl,
    libpqxx, libre, the Prometheus client, the allocator) is a
    type class of operations with its documented behaviour as laws, and an
    instance shows that the laws can hold.

    ** What the theorems show

    - End to end: a run of the started process ends in undefined behaviour
      when a datagram fills the buffer of the transport (its terminating NUL
      is then written beyond it); otherwise nothing is thrown out of the loop
      and nothing undefined happens.  When moreover the HTTP client refuses
      nothing, a request whose number is used once is answered once or still
      waits for a transfer that is in flight, and all are answered when no
      transfer is left.  Both for responses below 8 MiB and reloads whose rows
      make their drivers ([ProcessSpec]).
    - What a scrape of the exporter shows balances with the requests that
      settled or wait, in a run without a reload, a refused request or a
      number used twice; and the statements the cache has the database
      execute are, one for each, the results of settled requests, in their
      order.  What the function [cache_lnp_data] of the database does with
      them is not in the repository, and nothing is said of it ([Outputs]).
    - The resolver refines a contract over the requests that are owed an
      answer; every request is answered exactly once when the HTTP client
      refuses nothing and numbers are not reused; no exception or undefined
      behaviour reaches the dispatcher; the metrics balance; a reload is all
      or nothing; what goes wrong with a refused request, in every state and
      for as long as it waits, and with a number in use ([ResolverSpec],
      [ResolverMetrics]; [Scenario] applies them).
    - The HTTP client delivers one response for each request it took, over
      any session, and uses no freed block; a request it does not take leaves
      no transfer and no block, but loses its easy handle, and on two paths
      its header list too ([AsyncHttpSpec]); the blocking
      client gives back every handle and header list once ([BlockingHttp]).
    - The drivers keep their interface, and fill and read URLs and replies as
      they mean to ([DriversSpec], [UrlTemplate], [CsvClient],
      [DriverConfig]).
    - The JSON parser is memory safe and terminates on every text; the
      printer writes exactly a reference rendering, inside its block; the two
      are inverse where they can be; minifying the formatted text gives the
      unformatted one; comparison decides equality up to the order of members
      ([CJsonSafety], [CJsonPrintSpec], [CJsonRoundtrip], [CJsonMinify],
      [CJsonCompare]).
    - On blocks and pointers, adding, detaching, inserting and replacing items,
      by position or by name, refine the same operations on values, and
      deletion frees each block once and spares what is borrowed; copies share
      nothing with their original, and what cannot be used is freed
      ([CJsonMemorySpec], [CJsonObjectMemorySpec]).  The parser gives an item
      of the value the parser on values gives, and when it fails it has freed
      all it allocated ([CJsonParseMemorySpec]).  All this whichever calls of
      [malloc] fail: then a null pointer is returned and nothing is left.
      While [malloc] does not fail, the CNAM driver leaves the memory as it
      found it on every reply; it does not where it fails.
    - Requests and replies are read back from their bytes, with the exact
      bounds of the one-byte sizes ([Protocol]); reception, binding, address
      parsing and event routing on every branch, and the loop that takes
      every descriptor of a handler from the kernel, one call for each
      ([Transport], [UriParser], [EventLoop]).
    - The cache loses no wake-up and keeps its order in every interleaving,
      with a live connection and until a stop, which drops what is queued;
      and it stops without touching a dead connection ([CacheSpec]); the
      destructor of the SIP client always ends, and gives each object of
      libre back once, but does not wait for its thread ([SipExit]); the
      exporter's counters are the calls made once it has started, and it does
      not start, by an exception, with a static label whose name is not valid
      ([Metrics]); [main] starts its
      parts in order and exits with success only after the loop ([System]).
    - The configuration: the tables of the scanner find on every text the
      match the rules of lexer.l prescribe ([ConfuseRules]); the parser
      always returns and reads what a grammar of statements reads, with a
      message for what it refuses ([ConfuseParseSpec]); what is printed is
      read back ([ConfusePrintSpec]); a load from the text of a file gives the
      members their last value in the file or their default, and is undefined
      exactly when a string of the database is missing ([ConfuseLoad]; against
      an interface for the library alone, [Config]).

    ** Bounds and fuel

    Loops over a text run on fuel derived from its length, and the theorems
    that the functions return show it suffices: [getlines] the length of the
    text, the skipping of white space and the string scans the rest of the
    buffer, the descent of the JSON parser one more than the nesting limit of
    the code (1000), [digits] the number of bits, [unlink_all_events] the size of the
    map, [check_multi_info] the messages libcurl has left, plus one,
    [cJSON_Compare] the heights of its two items, [cJSON_Minify] the length of
    the text; [mem_Delete] and the functions that walk a chain take their fuel
    as an argument, and more than the number of items is enough; at the entry
    points it is the number of live blocks ([sized]).  The
    parser of the configuration takes two turns for each byte of its text and
    four more; a chain of default states of the scanner has at most four.  A
    response is taken to have less than 8 MiB, so that a printed copy of it
    stays below 2^29 bytes, where the printer's [int] sizes are exact; so are
    the two of [write_cb], which the model does not wrap.  The
    sums of the exporter are exact up to 2^53.  The loop of the dispatcher
    and the thread of the cache do not end by themselves: they are functions
    of the waits or steps that happen.

    ** What is not modelled

    Of libconfuse: raw sections, floating point options, failing allocation,
    the refills of the buffer of flex, and the examples and tests beside it;
    logging and the
    singleton template, whose [dispose] nothing calls; the pthread calls
    behind mutex, shared_var and condition, which are the granularity of the
    steps of [Cache] and [SipExit]; signals that come elsewhere than
    between two waits of the loop (their handlers are modelled); the
    hooks of the allocator of cJSON.c, which the program does not set;
    failures of the allocator in the printer, whose memory is one growing
    block of its own model, and in C++; showInfo and the text of log messages.
    Only the SIP client, a static object, is destroyed before the process
    ends.  The kernel and the network appear only through the interfaces. *)

From Stdlib Require Export Ascii ZArith Lia.
From stdpp Require Export base tactics list strings gmap.

(** ** Strings

    [std::string] and the C strings of the program are byte strings: lists
    of [ascii], whose 256 inhabitants are the values of an [unsigned char]. *)

Abbreviation str := (list ascii).

Declare Scope lnp_scope.
Delimit Scope lnp_scope with lnp.

Notation "# s" := (String.list_ascii_of_string s%string)
  (at level 1, s at level 0, format "# s") : lnp_scope.
Open Scope lnp_scope.

(** A string literal in which every apostrophe stands for a double quote. *)
Definition quoted (s : str) : str :=
  map (fun c => if Ascii.eqb c "'" then "034"%char else c) s.

(** The value of a byte and the byte of a value (truncated to 8 bits). *)
Definition ord (c : ascii) : Z := Z.of_N (N_of_ascii c).
Definition chr (z : Z) : ascii := ascii_of_N (Z.to_N (z mod 256)).

Definition NUL : ascii := "000"%char.

(** ** Outcomes

    A C++ computation returns, throws, or has undefined behaviour.  [Undef]
    stands for what the language leaves undefined: an access out of bounds,
    a dereferenced end iterator, an integer conversion that does not fit. *)

Inductive outcome (E A : Type) : Type :=
  | Ret (a : A)
  | Throw (e : E)
  | Undef.
Arguments Ret {E A} a.
Arguments Throw {E A} e.
Arguments Undef {E A}.

Definition outcome_bind {E A B} (f : A → outcome E B) (m : outcome E A) : outcome E B :=
  match m with
  | Ret a => f a
  | Throw e => Throw e
  | Undef => Undef
  end.

#[export] Instance outcome_mret {E} : MRet (outcome E) := fun _ => Ret.
#[export] Instance outcome_mbind {E} : MBind (outcome E) := fun _ _ => outcome_bind.
#[export] Instance outcome_fmap {E} : FMap (outcome E) :=
  fun _ _ f m => outcome_bind (fun a => Ret (f a)) m.
#[export] Instance outcome_mthrow {E} : MThrow E (outcome E) := fun _ => Throw.

(** [try { m } catch (...)]: the handler sees the exception. *)
Definition try_catch {E E' A} (m : outcome E A) (h : E → outcome E' A) : outcome E' A :=
  match m with
  | Ret a => Ret a
  | Throw e => h e
  | Undef => Undef
  end.

Definition is_Ret {E A} (m : outcome E A) : bool :=
  match m with Ret _ => true | _ => false end.

(** The absence of undefined behaviour. *)
Definition defined {E A} (m : outcome E A) : Prop := m ≠ Undef.

(** An option the code dereferences without a test. *)
Definition deref {E A} (o : option A) : outcome E A :=
  match o with Some a => Ret a | None => Undef end.

(** ** State

    A method that mutates its object and may throw keeps the mutations it
    made before the exception: the final state is there in every case. *)

Definition stM (E S A : Type) : Type := S → S * outcome E A.

Definition stM_bind {E S A B} (f : A → stM E S B) (m : stM E S A) : stM E S B :=
  fun s => match m s with
           | (s', Ret a) => f a s'
           | (s', Throw e) => (s', Throw e)
           | (s', Undef) => (s', Undef)
           end.

#[export] Instance stM_mret {E S} : MRet (stM E S) := fun _ a s => (s, Ret a).
#[export] Instance stM_mbind {E S} : MBind (stM E S) := fun _ _ => stM_bind.
#[export] Instance stM_mthrow {E S} : MThrow E (stM E S) := fun _ e s => (s, Throw e).

Definition lift {E S A} (m : outcome E A) : stM E S A := fun s => (s, m).
Definition get {E S} : stM E S S := fun s => (s, Ret s).
Definition modify {E S} (f : S → S) : stM E S unit := fun s => (f s, Ret tt).

(** [if (b) m;] *)
Definition when {E S} (b : bool) (m : stM E S unit) : stM E S unit :=
  if b then m else mret tt.

(** [try { m } catch (...) { h }] with the state as the block left it. *)
Definition stM_catch {E S A} (m : stM E S A) (h : E → stM E S A) : stM E S A :=
  fun s => match m s with
           | (s', Throw e) => h e s'
           | r => r
           end.

(** ** Machine integers *)

Definition u8 (z : Z) : Z := z mod 2 ^ 8.
Definition u16 (z : Z) : Z := z mod 2 ^ 16.
Definition u32 (z : Z) : Z := z mod 2 ^ 32.
Definition u64 (z : Z) : Z := z mod 2 ^ 64.

(** Conversion to a signed 32-bit integer (two's complement). *)
Definition s32 (z : Z) : Z := (z + 2 ^ 31) mod 2 ^ 32 - 2 ^ 31.

Definition INT_MAX : Z := 2147483647.
Definition INT_MIN : Z := -2147483648.

(** ** Lemmas on outcomes *)

Create Rewrite HintDb lnp.
Create HintDb lnp_defined.

Lemma bind_Ret {E A B} (f : A → outcome E B) a : (Ret a ≫= f) = f a.
Proof. reflexivity. Qed.

Lemma bind_Throw {E A B} (f : A → outcome E B) e : (Throw e ≫= f) = Throw e.
Proof. reflexivity. Qed.

Lemma bind_Ret_inv {E A B} (m : outcome E A) (f : A → outcome E B) b :
  m ≫= f = Ret b → ∃ a, m = Ret a ∧ f a = Ret b.
Proof. destruct m; cbn; try discriminate; eauto. Qed.

Lemma bind_Throw_inv {E A B} (m : outcome E A) (f : A → outcome E B) e :
  m ≫= f = Throw e → m = Throw e ∨ ∃ a, m = Ret a ∧ f a = Throw e.
Proof. destruct m; cbn; try discriminate; eauto. intros [= ->]; eauto. Qed.

Lemma defined_Ret {E A} (a : A) : defined (Ret a : outcome E A).
Proof. discriminate. Qed.

Lemma defined_Throw {E A} (e : E) : defined (Throw e : outcome E A).
Proof. discriminate. Qed.

Lemma defined_bind {E A B} (m : outcome E A) (f : A → outcome E B) :
  defined m → (∀ a, m = Ret a → defined (f a)) → defined (m ≫= f).
Proof. unfold defined; destruct m; cbn; eauto. Qed.

Lemma defined_try {E E' A} (m : outcome E A) (h : E → outcome E' A) :
  defined m → (∀ e, m = Throw e → defined (h e)) → defined (try_catch m h).
Proof. unfold defined; destruct m; cbn; eauto; discriminate. Qed.

Lemma defined_if {E A} (b : bool) (m n : outcome E A) :
  (b = true → defined m) → (b = false → defined n) → defined (if b then m else n).
Proof. destruct b; eauto. Qed.

#[export] Hint Resolve defined_Ret defined_Throw : lnp_defined.
#[export] Hint Extern 3 (defined (_ ≫= _)) =>
  apply defined_bind; [| intros ? ?] : lnp_defined.
#[export] Hint Extern 3 (defined (try_catch _ _)) =>
  apply defined_try; [| intros ? ?] : lnp_defined.
#[export] Hint Extern 3 (defined (if _ then _ else _)) =>
  apply defined_if; intros ? : lnp_defined.

(** ** Lemmas on state computations *)

Lemma stM_bind_eq {E S A B} (m : stM E S A) (f : A → stM E S B) s :
  (m ≫= f) s = match m s with
               | (s', Ret a) => f a s'
               | (s', Throw e) => (s', Throw e)
               | (s', Undef) => (s', Undef)
               end.
Proof. reflexivity. Qed.

Lemma stM_bind_Ret {E S A B} (m : stM E S A) (f : A → stM E S B) s s' a :
  m s = (s', Ret a) → (m ≫= f) s = f a s'.
Proof. intros H. by rewrite stM_bind_eq, H. Qed.

Lemma stM_bind_Throw {E S A B} (m : stM E S A) (f : A → stM E S B) s s' e :
  m s = (s', Throw e) → (m ≫= f) s = (s', Throw e).
Proof. intros H. by rewrite stM_bind_eq, H. Qed.

Lemma lift_bind {E S A B} (m : outcome E A) (f : A → stM E S B) s :
  (lift m ≫= f) s = match m with
                    | Ret a => f a s
                    | Throw e => (s, Throw e)
                    | Undef => (s, Undef)
                    end.
Proof. by destruct m. Qed.

(** [m] has no undefined behaviour from [s]; what it returns satisfies [P],
    what it throws satisfies [X]. *)
Definition wp {E S A} (m : stM E S A) (s : S) (P : A → S → Prop) (X : E → S → Prop) : Prop :=
  match m s with
  | (s', Ret a) => P a s'
  | (s', Throw e) => X e s'
  | (_, Undef) => False
  end.

Lemma wp_ret {E S A} (a : A) (s : S) P (X : E → S → Prop) : P a s → wp (mret a) s P X.
Proof. done. Qed.

Lemma wp_bind {E S A B} (m : stM E S A) (f : A → stM E S B) s P X :
  wp m s (fun a s' => wp (f a) s' P X) X → wp (m ≫= f) s P X.
Proof. unfold wp. rewrite stM_bind_eq. by destruct (m s) as [s' [a|e|]]. Qed.

Lemma wp_assoc {E S A B C} (m : stM E S A) (f : A → stM E S B) (g : B → stM E S C) s P X :
  wp ((m ≫= f) ≫= g) s P X → wp (m ≫= fun a => f a ≫= g) s P X.
Proof. unfold wp. rewrite !stM_bind_eq. by destruct (m s) as [s' [a|e|]]. Qed.

Lemma wp_mono {E S A} (m : stM E S A) s (P P' : A → S → Prop) (X X' : E → S → Prop) :
  wp m s P X → (∀ a s', P a s' → P' a s') → (∀ e s', X e s' → X' e s') → wp m s P' X'.
Proof. unfold wp. destruct (m s) as [s' [a|e|]]; auto. Qed.

Lemma wp_when {E S} (b : bool) (m : stM E S unit) s P X :
  (b = true → wp m s P X) → (b = false → P tt s) → wp (when b m) s P X.
Proof. destruct b; cbn; auto. Qed.

(** ** Lemmas on bytes *)

Lemma ord_range c : (0 ≤ ord c < 256)%Z.
Proof. unfold ord. pose proof (N_ascii_bounded c). lia. Qed.

Lemma chr_ord c : chr (ord c) = c.
Proof.
  unfold chr. pose proof (ord_range c). rewrite Z.mod_small by lia.
  unfold ord. rewrite N2Z.id. apply ascii_N_embedding.
Qed.

Lemma ord_chr z : ord (chr z) = (z mod 256)%Z.
Proof.
  unfold ord, chr. pose proof (Z.mod_pos_bound z 256).
  rewrite N_ascii_embedding by lia. rewrite Z2N.id; lia.
Qed.

Lemma ord_inj c d : ord c = ord d → c = d.
Proof. intros H. rewrite <- (chr_ord c), H. apply chr_ord. Qed.

Lemma chr_eqb_ord c d : Ascii.eqb c d = (ord c =? ord d)%Z.
Proof.
  destruct (Ascii.eqb_spec c d) as [->|Hn]; symmetry.
  - apply Z.eqb_refl.
  - apply Z.eqb_neq. intros H. by apply Hn, ord_inj.
Qed.

#[export] Hint Rewrite chr_ord ord_chr : lnp.

(** ** Lemmas on machine integers *)

Lemma u8_range z : (0 ≤ u8 z < 256)%Z.
Proof. apply Z.mod_pos_bound. lia. Qed.

Lemma u32_range z : (0 ≤ u32 z < 2 ^ 32)%Z.
Proof. apply Z.mod_pos_bound. lia. Qed.

Lemma u8_small z : (0 ≤ z < 256)%Z → u8 z = z.
Proof. intros. apply Z.mod_small. lia. Qed.

Lemma u32_small z : (0 ≤ z < 2 ^ 32)%Z → u32 z = z.
Proof. intros. by apply Z.mod_small. Qed.

Lemma s32_range z : (INT_MIN ≤ s32 z ≤ INT_MAX)%Z.
Proof.
  unfold s32, INT_MIN, INT_MAX. pose proof (Z.mod_pos_bound (z + 2 ^ 31) (2 ^ 32)). lia.
Qed.

Lemma s32_small z : (INT_MIN ≤ z ≤ INT_MAX)%Z → s32 z = z.
Proof. unfold s32, INT_MIN, INT_MAX. intros. rewrite Z.mod_small; lia. Qed.

(** ** Lemmas on lists *)

Lemma lookup_cons_drop {A} (l : list A) i x :
  l !! i = Some x → drop i l = x :: drop (S i) l.
Proof. intros. by apply drop_S. Qed.

Lemma drop_nil_inv {A} (l : list A) i : drop i l = [] → length l ≤ i.
Proof. intros H. apply (f_equal length) in H. rewrite length_drop in H. cbn in H. lia. Qed.

Lemma drop_cons_lookup {A} (l : list A) i x r :
  drop i l = x :: r → l !! i = Some x ∧ drop (S i) l = r.
Proof.
  intros H. split.
  - rewrite <- (Nat.add_0_r i), <- lookup_drop, H. done.
  - replace (S i) with (i + 1) by lia. by rewrite <- drop_drop, H.
Qed.

Lemma lookup_app_drop {A} (l1 l2 : list A) : (l1 ++ l2) !! length l1 = head l2.
Proof. rewrite lookup_app_r, Nat.sub_diag by lia. by destruct l2. Qed.

(** ** Tactics *)

(** Split a monadic equation [m ≫= f = Ret b] into its steps. *)
Ltac inv_bind :=
  repeat match goal with
  | H : _ ≫= _ = Ret _ |- _ =>
      let a := fresh "a" in let Ha := fresh "Hret" in
      apply bind_Ret_inv in H as (a & Ha & H)
  | H : Ret _ = Ret _ |- _ => injection H as ?; subst
  | H : Throw _ = Ret _ |- _ => discriminate H
  | H : Undef = Ret _ |- _ => discriminate H
  end.

(** Destruct the tests of the goal or of a hypothesis, keeping equations. *)
Ltac case_bool :=
  match goal with
  | |- context [if ?b then _ else _] => destruct b eqn:?
  | H : context [if ?b then _ else _] |- _ => destruct b eqn:?
  end.

(** Reflect boolean comparisons of the context into propositions. *)
Ltac reflect_bool :=
  repeat match goal with
  | H : (_ && _) = true |- _ => apply andb_true_iff in H as [? ?]
  | H : (_ || _) = false |- _ => apply orb_false_iff in H as [? ?]
  | H : (_ && _) = false |- _ => apply andb_false_iff in H
  | H : (_ || _) = true |- _ => apply orb_true_iff in H
  | H : negb _ = true |- _ => apply negb_true_iff in H
  | H : negb _ = false |- _ => apply negb_false_iff in H
  | H : (_ <? _)%Z = true |- _ => apply Z.ltb_lt in H
  | H : (_ <? _)%Z = false |- _ => apply Z.ltb_ge in H
  | H : (_ <=? _)%Z = true |- _ => apply Z.leb_le in H
  | H : (_ <=? _)%Z = false |- _ => apply Z.leb_gt in H
  | H : (_ =? _)%Z = true |- _ => apply Z.eqb_eq in H
  | H : (_ =? _)%Z = false |- _ => apply Z.eqb_neq in H
  | H : (_ <? _)%nat = true |- _ => apply Nat.ltb_lt in H
  | H : (_ <? _)%nat = false |- _ => apply Nat.ltb_ge in H
  | H : (_ <=? _)%nat = true |- _ => apply Nat.leb_le in H
  | H : (_ <=? _)%nat = false |- _ => apply Nat.leb_gt in H
  | H : (_ =? _)%nat = true |- _ => apply Nat.eqb_eq in H
  | H : (_ =? _)%nat = false |- _ => apply Nat.eqb_neq in H
  | H : Ascii.eqb _ _ = true |- _ => apply Ascii.eqb_eq in H
  | H : Ascii.eqb _ _ = false |- _ => apply Ascii.eqb_neq in H
  end.

Ltac solve_defined := eauto 12 with lnp_defined.
