(* ===== verification/CLib.v ===== *)
(** * The part of the C and C++ standard library the program uses

    C strings ([strlen], [strstr], [strchr], [atoi], [tolower]), streams
    ([std::getline]), decimal output ([std::to_string]), the conversions of
    [asprintf] that occur in the program's messages, and the little-endian
    byte layout of packed structures. *)
From S2P Require Import Prelude.

(** ** C strings *)

(** The bytes a [const char *] made from a [std::string] denotes: everything
    before the first NUL. *)
Fixpoint c_str (s : str) : str :=
  match s with
  | [] => []
  | c :: r => if Ascii.eqb c NUL then [] else c :: c_str r
  end.

Definition strlen (s : str) : nat := length (c_str s).

Definition no_nul (s : str) : Prop := NUL ∉ s.

Definition str_eqb (s t : str) : bool := bool_decide (s = t).

(** [strcmp(s, t) == 0] *)
Definition strcmp_eq (s t : str) : bool := str_eqb (c_str s) (c_str t).

(** [tolower] in the C locale, on the value of an [unsigned char]. *)
Definition tolower (c : ascii) : ascii :=
  if ((65 <=? ord c) && (ord c <=? 90))%Z then chr (ord c + 32) else c.

Definition is_digit (c : ascii) : bool := ((48 <=? ord c) && (ord c <=? 57))%Z.

(** [isspace] in the C locale. *)
Definition is_space (c : ascii) : bool :=
  ((ord c =? 32) || ((9 <=? ord c) && (ord c <=? 13)))%Z.

(** The index of the first occurrence of a character ([strchr],
    [find_first_of]) and of a string ([strstr]). *)
Fixpoint find_char (d : ascii) (s : str) : option nat :=
  match s with
  | [] => None
  | c :: r => if Ascii.eqb c d then Some 0 else S <$> find_char d r
  end.

Fixpoint is_prefix (p s : str) : bool :=
  match p, s with
  | [], _ => true
  | a :: p', b :: s' => Ascii.eqb a b && is_prefix p' s'
  | _ :: _, [] => false
  end.

Fixpoint find_sub (p s : str) : option nat :=
  if is_prefix p s then Some 0
  else match s with [] => None | _ :: r => S <$> find_sub p r end.

(** ** Streams *)

(** [std::getline(stream, token, delim)] on the characters left in the
    stream: the token and the characters left after it; [None] when it sets
    [failbit], that is when it extracts nothing. *)
Fixpoint getline_aux (d : ascii) (s : str) (acc : str) : str * str :=
  match s with
  | [] => (reverse acc, [])
  | c :: r => if Ascii.eqb c d then (reverse acc, r) else getline_aux d r (c :: acc)
  end.

Definition getline (d : ascii) (s : str) : option (str * str) :=
  match s with [] => None | _ => Some (getline_aux d s []) end.

(** [while (std::getline(stream, token, delim))]: all the tokens; each takes
    at least one character. *)
Fixpoint getlines_loop (fuel : nat) (d : ascii) (s : str) : list str :=
  match fuel with
  | O => []
  | S f => match getline d s with
           | None => []
           | Some (token, rest) => token :: getlines_loop f d rest
           end
  end.

Definition getlines (d : ascii) (s : str) : list str := getlines_loop (length s) d s.

(** ** Decimal numbers *)

Fixpoint digits_aux (fuel : nat) (n : Z) (acc : str) : str :=
  match fuel with
  | O => acc
  | S f =>
      let acc' := chr (48 + n mod 10) :: acc in
      if (n / 10 =? 0)%Z then acc' else digits_aux f (n / 10) acc'
  end.

(** The decimal digits of a non-negative number; a number of [k] bits has at
    most [k] decimal digits. *)
Definition digits (n : Z) : str := digits_aux (S (Z.to_nat (Z.log2 n))) n [].

(** [std::to_string], [std::dec <<], [%d], [%u], [%zu] *)
Definition to_string (n : Z) : str :=
  if (n <? 0)%Z then "-"%char :: digits (- n) else digits n.

(** The value of a run of digits, and what follows it. *)
Fixpoint read_digits (acc : Z) (s : str) : Z * str :=
  match s with
  | c :: r => if is_digit c then read_digits (acc * 10 + (ord c - 48)) r else (acc, s)
  | [] => (acc, [])
  end.

Fixpoint skip_spaces (s : str) : str :=
  match s with c :: r => if is_space c then skip_spaces r else s | [] => [] end.

(** [atoi]: undefined when the value does not fit an [int]. *)
Definition atoi {E} (s : str) : outcome E Z :=
  let s := skip_spaces (c_str s) in
  let n := match s with
           | c :: r => if Ascii.eqb c "-" then - fst (read_digits 0 r)
                       else if Ascii.eqb c "+" then fst (read_digits 0 r)
                       else fst (read_digits 0 s)
           | [] => 0
           end%Z in
  if ((INT_MIN <=? n) && (n <=? INT_MAX))%Z then Ret n else Undef.

(** ** [asprintf] *)

Inductive fmt_arg : Type :=
  | AStr (s : str)    (* const char * *)
  | AInt (n : Z).     (* an integer of the conversion's type *)

(** The conversions [%s], [%d], [%u], [%zu] and [%%].  A conversion with no
    argument left, or an argument of another kind, is undefined. *)
Fixpoint vformat {E} (fmt : str) (args : list fmt_arg) : outcome E str :=
  match fmt with
  | [] => Ret []
  | c :: r =>
    if Ascii.eqb c "%" then
      match r with
      | d :: r' =>
        if Ascii.eqb d "%" then (fun t => "%"%char :: t) <$> vformat r' args
        else if Ascii.eqb d "s" then
          match args with
          | AStr s :: args' => (fun t => c_str s ++ t) <$> vformat r' args'
          | _ => Undef
          end
        else if Ascii.eqb d "d" || Ascii.eqb d "u" then
          match args with
          | AInt n :: args' => (fun t => to_string n ++ t) <$> vformat r' args'
          | _ => Undef
          end
        else if Ascii.eqb d "z" then
          match r', args with
          | u :: r'', AInt n :: args' =>
              if Ascii.eqb u "u" then (fun t => to_string n ++ t) <$> vformat r'' args'
              else Undef
          | _, _ => Undef
          end
        else Undef
      | [] => Undef
      end
    else (fun t => c :: t) <$> vformat r args
  end.

(** ** Byte layout *)

Definition le16 (z : Z) : str := [chr z; chr (z / 2 ^ 8)].
Definition le32 (z : Z) : str :=
  [chr z; chr (z / 2 ^ 8); chr (z / 2 ^ 16); chr (z / 2 ^ 24)].

Definition of_le32 (a b c d : ascii) : Z :=
  (ord a + 2 ^ 8 * ord b + 2 ^ 16 * ord c + 2 ^ 24 * ord d)%Z.

(** The [n] bytes at offset [i] of an object; undefined outside it. *)
Definition read_bytes {E} (mem : str) (i n : nat) : outcome E str :=
  if (i + n <=? length mem)%nat then Ret (take n (drop i mem)) else Undef.

Definition read_u8 {E} (mem : str) (i : nat) : outcome E Z :=
  match mem !! i with Some c => Ret (ord c) | None => Undef end.

Definition read_u32 {E} (mem : str) (i : nat) : outcome E Z :=
  match take 4 (drop i mem) with
  | [a; b; c; d] => Ret (of_le32 a b c d)
  | _ => Undef
  end.

(** ** Lemmas *)

Lemma c_str_idemp s : c_str (c_str s) = c_str s.
Proof. induction s as [|c s IH]; cbn; [done|]. destruct (Ascii.eqb c NUL) eqn:E; cbn; [done|]. by rewrite E, IH. Qed.

Lemma c_str_no_nul s : no_nul s → c_str s = s.
Proof.
  unfold no_nul. induction s as [|c s IH]; cbn; [done|].
  rewrite not_elem_of_cons. intros [Hc Hs].
  destruct (Ascii.eqb_spec c NUL) as [->|]; [done|]. by rewrite IH.
Qed.

Lemma no_nul_c_str s : no_nul (c_str s).
Proof.
  unfold no_nul. induction s as [|c s IH]; cbn; [set_solver|].
  destruct (Ascii.eqb_spec c NUL) as [->|]; set_solver.
Qed.

Lemma no_nul_app s t : no_nul (s ++ t) ↔ no_nul s ∧ no_nul t.
Proof. unfold no_nul. set_solver. Qed.

Lemma no_nul_cons c s : no_nul (c :: s) ↔ c ≠ NUL ∧ no_nul s.
Proof. unfold no_nul. set_solver. Qed.

Lemma str_eqb_eq s t : str_eqb s t = true ↔ s = t.
Proof. apply bool_decide_eq_true. Qed.

Lemma str_eqb_refl s : str_eqb s s = true.
Proof. by apply str_eqb_eq. Qed.

Lemma find_char_Some d s i :
  find_char d s = Some i ↔ ∃ p r, s = p ++ d :: r ∧ length p = i ∧ d ∉ p.
Proof.
  revert i. induction s as [|c s IH]; intros i; cbn.
  - split; [done|]. intros ([|] & ? & [=] & ?).
  - destruct (Ascii.eqb_spec c d) as [->|Hne].
    + split; [intros [= <-]; exists [], s; set_solver|].
      intros ([|x p] & r & H & <- & Hd); [done|]. injection H as -> ->. set_solver.
    + rewrite fmap_Some. split.
      * intros (j & (p & r & -> & <- & Hd)%IH & ->). exists (c :: p), r. set_solver.
      * intros ([|x p] & r & H & <- & Hd); [cbn in H; congruence|].
        injection H as -> ->. exists (length p). split; [|done]. apply IH. set_solver.
Qed.

Lemma find_char_None d s : find_char d s = None ↔ d ∉ s.
Proof.
  induction s as [|c s IH]; cbn; [set_solver|].
  destruct (Ascii.eqb_spec c d) as [->|Hne]; [set_solver|].
  rewrite fmap_None, IH. set_solver.
Qed.

Lemma is_prefix_spec p s : is_prefix p s = true ↔ ∃ r, s = p ++ r.
Proof.
  revert s. induction p as [|a p IH]; intros s; cbn.
  - split; [eauto|done].
  - destruct s as [|b s]; [split; [done|by intros (? & [=])]|].
    rewrite andb_true_iff, Ascii.eqb_eq, IH. split.
    + intros [-> [r ->]]. eauto.
    + intros [r [= -> ->]]. eauto.
Qed.

Lemma getline_aux_delim d p r acc :
  d ∉ p → getline_aux d (p ++ d :: r) acc = (reverse acc ++ p, r).
Proof.
  revert acc. induction p as [|c p IH]; intros acc Hd; cbn.
  - by rewrite Ascii.eqb_refl, app_nil_r.
  - destruct (Ascii.eqb_spec c d) as [->|]; [set_solver|].
    rewrite IH by set_solver. rewrite reverse_cons, <- app_assoc. done.
Qed.

Lemma getline_aux_end d p acc : d ∉ p → getline_aux d p acc = (reverse acc ++ p, []).
Proof.
  revert acc. induction p as [|c p IH]; intros acc Hd; cbn.
  - by rewrite app_nil_r.
  - destruct (Ascii.eqb_spec c d) as [->|]; [set_solver|].
    rewrite IH by set_solver. rewrite reverse_cons, <- app_assoc. done.
Qed.

Lemma getline_delim d p r : d ∉ p → getline d (p ++ d :: r) = Some (p, r).
Proof.
  intros. unfold getline. destruct p as [|c p]; cbn [app].
  - cbn. by rewrite Ascii.eqb_refl.
  - by rewrite app_comm_cons, getline_aux_delim.
Qed.

Lemma getline_end d p : p ≠ [] → d ∉ p → getline d p = Some (p, []).
Proof. intros. unfold getline. destruct p; [done|]. by rewrite getline_aux_end. Qed.

Lemma getline_aux_shorter d s acc t r :
  getline_aux d s acc = (t, r) → length r ≤ length s.
Proof.
  revert acc. induction s as [|c s IH]; intros acc; cbn; [intros [= <- <-]; done|].
  destruct (Ascii.eqb c d); [intros [= <- <-]|intros ?%IH]; lia.
Qed.

Lemma getline_shorter d s t r : getline d s = Some (t, r) → length r < length s.
Proof.
  unfold getline. destruct s as [|c s]; [done|]. intros [= H]. cbn in *.
  destruct (Ascii.eqb c d); [injection H as <- <-|apply getline_aux_shorter in H]; lia.
Qed.

Lemma getlines_loop_fuel n m d s :
  length s ≤ n → length s ≤ m → getlines_loop n d s = getlines_loop m d s.
Proof.
  revert m s. induction n as [|n IH]; intros m s Hn Hm.
  - destruct s; [|cbn in Hn; lia]. by destruct m.
  - destruct m as [|m]; [destruct s; [done|cbn in Hm; lia]|]. cbn [getlines_loop].
    destruct (getline d s) as [[t r]|] eqn:E; [|done]. apply getline_shorter in E.
    f_equal. apply IH; lia.
Qed.

Lemma getlines_eq d s :
  getlines d s = match getline d s with
                 | None => []
                 | Some (token, rest) => token :: getlines d rest
                 end.
Proof.
  unfold getlines. destruct s as [|c s]; [done|]. cbn [length getlines_loop].
  destruct (getline d (c :: s)) as [[t r]|] eqn:E; [|done]. apply getline_shorter in E.
  cbn [length] in E. f_equal. apply getlines_loop_fuel; lia.
Qed.

Lemma getlines_delim d p r : d ∉ p → getlines d (p ++ d :: r) = p :: getlines d r.
Proof. intros H. by rewrite getlines_eq, getline_delim. Qed.

Lemma getlines_end d p : p ≠ [] → d ∉ p → getlines d p = [p].
Proof. intros Hne H. by rewrite getlines_eq, getline_end. Qed.

Lemma le32_length z : length (le32 z) = 4.
Proof. done. Qed.

(** ** Decimal numbers are read back *)

Lemma is_digit_chr d : (0 ≤ d < 10)%Z → is_digit (chr (48 + d)) = true.
Proof.
  intros. unfold is_digit. rewrite ord_chr, Z.mod_small by lia.
  apply andb_true_iff; split; apply Z.leb_le; lia.
Qed.

Lemma digits_aux_spec fuel n acc :
  (0 ≤ n < 2 ^ Z.of_nat fuel)%Z → (0 < fuel)%nat →
  ∃ D, digits_aux fuel n acc = D ++ acc ∧ D ≠ [] ∧ Forall (λ c, is_digit c = true) D ∧
    ∀ a r, read_digits a (D ++ r) = read_digits (a * 10 ^ Z.of_nat (length D) + n) r.
Proof.
  revert n acc. induction fuel as [|f IH]; intros n acc Hn Hf; [lia|].
  assert (Hd : (0 ≤ n mod 10 < 10)%Z) by (apply Z.mod_pos_bound; lia).
  assert (Hv : ord (chr (48 + n mod 10)) = (48 + n mod 10)%Z)
    by (rewrite ord_chr, Z.mod_small; lia).
  cbn [digits_aux]. destruct (Z.eqb_spec (n / 10) 0) as [H0|H0].
  - exists [chr (48 + n mod 10)]. split; [done|]. split; [done|]. split.
    + constructor; [by apply is_digit_chr|constructor].
    + intros a r. cbn [read_digits app length]. rewrite is_digit_chr, Hv by done.
      f_equal. change (Z.of_nat 1) with 1%Z. pose proof (Z.div_mod n 10). lia.
  - assert (Hf' : (0 < f)%nat).
    { destruct f; [|lia]. exfalso. apply H0, Z.div_small. cbn in Hn. lia. }
    assert (Hn' : (0 ≤ n / 10 < 2 ^ Z.of_nat f)%Z).
    { rewrite Nat2Z.inj_succ, Z.pow_succ_r in Hn by lia.
      split; [apply Z.div_pos; lia|]. apply Z.div_lt_upper_bound; lia. }
    destruct (IH (n / 10)%Z (chr (48 + n mod 10) :: acc) Hn' Hf')
      as (D & -> & HD & HF & HR).
    exists (D ++ [chr (48 + n mod 10)]). rewrite <- app_assoc. split; [done|].
    split; [by destruct D|]. split.
    + apply Forall_app; split; [done|]. constructor; [by apply is_digit_chr|constructor].
    + intros a r. rewrite <- app_assoc, HR. cbn [read_digits app].
      rewrite is_digit_chr, Hv by done. f_equal.
      rewrite length_app. cbn [length]. rewrite Nat2Z.inj_add, Z.pow_add_r by lia.
      change (10 ^ Z.of_nat 1)%Z with 10%Z. pose proof (Z.div_mod n 10). nia.
Qed.

Lemma digits_spec n : (0 ≤ n)%Z →
  digits n ≠ [] ∧ Forall (λ c, is_digit c = true) (digits n) ∧
  ∀ a r, read_digits a (digits n ++ r)
         = read_digits (a * 10 ^ Z.of_nat (length (digits n)) + n) r.
Proof.
  intros Hn. unfold digits.
  destruct (digits_aux_spec (S (Z.to_nat (Z.log2 n))) n [])
    as (D & -> & ? & ? & ?); [|lia|].
  - split; [done|]. rewrite Nat2Z.inj_succ, Z2Nat.id by apply Z.log2_nonneg.
    destruct (Z.eq_dec n 0%Z) as [->|]; [done|]. apply Z.log2_spec. lia.
  - rewrite app_nil_r. done.
Qed.

Lemma is_digit_not c d : is_digit c = true → is_digit d = false → c ≠ d.
Proof. intros H1 H2 ->. congruence. Qed.

Lemma digits_not_in n d : (0 ≤ n)%Z → is_digit d = false → d ∉ digits n.
Proof.
  intros Hn Hd Hin. destruct (digits_spec n Hn) as (_ & HF & _).
  rewrite Forall_forall in HF. apply HF in Hin. congruence.
Qed.

Lemma read_digits_digits n r : (0 ≤ n)%Z →
  read_digits 0 (digits n ++ r) = read_digits n r.
Proof. intros Hn. destruct (digits_spec n Hn) as (_ & _ & ->). f_equal. Qed.

(** A character that a literal does not have. *)
Lemma absent_bool c (s : str) : existsb (Ascii.eqb c) s = false → c ∉ s.
Proof.
  intros H Hin. apply list_elem_of_In in Hin.
  assert (existsb (Ascii.eqb c) s = true) as E; [|congruence].
  apply existsb_exists. exists c. split; [done|]. by apply Ascii.eqb_refl.
Qed.

Lemma not_percent (s : str) : existsb (Ascii.eqb "%") s = false → "%"%char ∉ s.
Proof. apply absent_bool. Qed.

Lemma no_nul_bool s : existsb (Ascii.eqb NUL) s = false → no_nul s.
Proof. apply absent_bool. Qed.

Lemma no_nul_digits n : (0 ≤ n)%Z → no_nul (digits n).
Proof. intros. by apply digits_not_in. Qed.

Lemma digit_facts c : is_digit c = true →
  is_space c = false ∧ Ascii.eqb c "-" = false ∧ Ascii.eqb c "+" = false.
Proof.
  intros H. unfold is_digit, is_space in *. apply andb_true_iff in H as [H1 H2].
  apply Z.leb_le in H1, H2. split; [|split; rewrite chr_eqb_ord; apply Z.eqb_neq].
  - apply orb_false_iff. split; [apply Z.eqb_neq; lia|].
    apply andb_false_iff. right. apply Z.leb_gt. lia.
  - change (ord "-") with 45%Z. lia.
  - change (ord "+") with 43%Z. lia.
Qed.

(** [atoi] reads back what [std::to_string] writes. *)
Lemma atoi_digits {E} n : (0 ≤ n ≤ INT_MAX)%Z → atoi (digits n) = (Ret n : outcome E Z).
Proof.
  intros Hn. unfold atoi. rewrite c_str_no_nul by (apply no_nul_digits; lia).
  destruct (digits_spec n) as (Hne & HF & _); [lia|].
  pose proof (read_digits_digits n []) as HR. rewrite app_nil_r in HR.
  destruct (digits n) as [|c D] eqn:HD; [done|].
  apply Forall_cons in HF as [Hc _]. destruct (digit_facts c Hc) as (Hs & Hm & Hp).
  cbn [skip_spaces]. rewrite Hs, Hm, Hp, HR by lia. cbn [fst read_digits].
  unfold INT_MIN in *. destruct (Z.leb_spec (-2147483648) n); [|lia].
  destruct (Z.leb_spec n INT_MAX); [done|lia].
Qed.
