(* ===== verification/Exceptions.v ===== *)
(** * Exceptions

    The exception classes of the program and [fmterror], the printf-like
    constructor helper most of them use (src/libs/fmterror.h,
    src/resolver/ResolverException.h, and the [error] classes of the
    drivers and clients). *)
From S2P Require Import Prelude.
From S2P Require Import CLib.

(** ** Definitions *)

(** [enum class ECErrorId : uint8_t] *)
Inductive ECErrorId : Type :=
  | NO_ERROR
  | GENERAL_ERROR
  | PSQL_INVALID_REQUEST
  | GENERAL_RESOLVING_ERROR
  | DRIVER_RESOLVING_ERROR.

#[export] Instance ECErrorId_eq_dec : EqDecision ECErrorId.
Proof. solve_decision. Defined.

(** The underlying value of each code. *)
Definition error_code (c : ECErrorId) : Z :=
  match c with
  | NO_ERROR => 0
  | GENERAL_ERROR => 1
  | PSQL_INVALID_REQUEST => 11
  | GENERAL_RESOLVING_ERROR => 21
  | DRIVER_RESOLVING_ERROR => 22
  end.

(** Everything the program throws. *)
Inductive exn : Type :=
  | StringExn (s : str)                      (* throw std::string *)
  | RuntimeError (what : str)                (* std::runtime_error *)
  | ResolverError (code : ECErrorId) (what : str)    (* CResolverError *)
  | DriverError (what : str)                 (* CDriver::error *)
  | CfgError (ident what : str)              (* CDriverCfg::error *)
  | HttpError (what : str)                   (* AsyncHttpClient::error *)
  | CsvError (what : str)                    (* CCsvClient::error *)
  | SipError (what : str)                    (* CSipClient::error *)
  | OutOfRange (what : str)                  (* std::out_of_range *)
  | PqxxError (what : str).                  (* pqxx::pqxx_exception *)

Abbreviation M := (outcome exn).

(** The classes derived from [std::exception], with their [what()]; a
    [std::string] is not one of them.  The exceptions libpqxx throws derive
    from both [pqxx_exception] and [std::exception]. *)
Definition std_what (e : exn) : option str :=
  match e with
  | RuntimeError w | ResolverError _ w | DriverError w | CfgError _ w
  | HttpError w | CsvError w | SipError w | OutOfRange w | PqxxError w => Some (c_str w)
  | StringExn _ => None
  end.

(** [class fmterror]: the buffer [asprintf] fills and its length; a null
    format is replaced. *)
Record fmterror : Type := { mBuf : str; mBufLen : nat }.

Definition mk_fmterror (fmt : option str) (args : list fmt_arg) : M fmterror :=
  let fmt := match fmt with Some f => f | None => #"unknown error" end in
  b ← vformat (c_str fmt) args;
  mret {| mBuf := b; mBufLen := length b |}.

(** [fmterror::get]: the string of the buffer. *)
Definition fmterror_get (e : fmterror) : str := take (mBufLen e) (mBuf e).

(** The text an [error(fmt, args ...)] constructor passes to
    [runtime_error]. *)
Definition fmt_what (fmt : str) (args : list fmt_arg) : M str :=
  fmterror_get <$> mk_fmterror (Some fmt) args.

(** [throw CDriver::error(fmt, args ...)], and the same for the other
    classes. *)
Definition throw_driver {A} (fmt : str) (args : list fmt_arg) : M A :=
  w ← fmt_what fmt args; mthrow (DriverError w).

(** The constructor of [CDriverCfg::error] with an identifier. *)
Definition throw_cfg {A} (ident fmt : str) (args : list fmt_arg) : M A :=
  w ← fmt_what fmt args; mthrow (CfgError (c_str ident) w).

(** The constructor of [CDriverCfg::error] without one. *)
Definition throw_cfg_unknown {A} (fmt : str) (args : list fmt_arg) : M A :=
  w ← fmt_what fmt args; mthrow (CfgError #"Unknown" w).

Definition throw_csv {A} (fmt : str) (args : list fmt_arg) : M A :=
  w ← fmt_what fmt args; mthrow (CsvError w).

Definition throw_sip {A} (fmt : str) (args : list fmt_arg) : M A :=
  w ← fmt_what fmt args; mthrow (SipError w).

Definition throw_http {A} (fmt : str) (args : list fmt_arg) : M A :=
  w ← fmt_what fmt args; mthrow (HttpError w).

Definition throw_runtime {A} (what : str) : M A := mthrow (RuntimeError what).

(** [std::string::compare(pos, n, s)] with [pos] after the end; the message
    of libstdc++. *)
Definition throw_out_of_range {A} (pos size : Z) : M A :=
  mthrow (OutOfRange (#"basic_string::compare: __pos (which is " ++ to_string (u64 pos)
                      ++ #") > this->size() (which is " ++ to_string size ++ #")")).

Definition throw_resolver {A} (code : ECErrorId) (cause : str) : M A :=
  mthrow (ResolverError code cause).

(** ** Lemmas *)

(** A format without a percent sign is its own expansion. *)
Lemma vformat_plain {E} (s : str) args :
  "%"%char ∉ s → vformat s args = (Ret s : outcome E str).
Proof.
  induction s as [|c s IH]; intros Hs; cbn; [done|].
  destruct (Ascii.eqb_spec c "%") as [->|]; [set_solver|].
  rewrite IH by set_solver. done.
Qed.

Lemma fmt_what_plain s args :
  no_nul s → "%"%char ∉ s → fmt_what s args = Ret s.
Proof.
  intros Hn Hs. unfold fmt_what, mk_fmterror.
  rewrite c_str_no_nul, vformat_plain by done. cbn.
  unfold fmterror_get. cbn. by rewrite firstn_all.
Qed.

(** The same, decided by evaluation. *)
Lemma fmt_what_literal s args :
  existsb (fun c => Ascii.eqb NUL c || Ascii.eqb "%" c) s = false → fmt_what s args = Ret s.
Proof.
  intros Hs. apply not_true_iff_false in Hs. rewrite existsb_exists in Hs.
  apply fmt_what_plain; intros Hin%list_elem_of_In; apply Hs; eexists; (split; [exact Hin|done]).
Qed.

Lemma error_code_u8 c : u8 (error_code c) = error_code c.
Proof. by destruct c. Qed.

Lemma error_code_inj c d : error_code c = error_code d → c = d.
Proof. by destruct c, d. Qed.
