(* ===== verification/UriParser.v ===== *)
(** * Address parser (src/libs/uri_parser.c, src/libs/uri_parser.h)

    [parseAddr] splits [proto://host:port] into fixed-size buffers.  The
    buffers are modelled as byte arrays, so that a [strncpy] that leaves its
    destination is undefined. *)
From S2P Require Import Prelude.
From S2P Require Import CLib.
From S2P Require Import Exceptions.

(** ** Definitions *)

Definition SOCKADDR_SIZE : nat := 128.
Definition PROTOCOL_SIZE : nat := 16.
Definition HOST_SIZE : nat := 64.

(** [UriComponents]: [char proto[17]], [char host[65]], [int port]. *)
Record UriComponents : Type := {
  proto : str;
  host : str;
  port : Z
}.

(** The state [memset(out, 0, sizeof(UriComponents))] leaves. *)
Definition zero_components : UriComponents := {|
  proto := replicate (PROTOCOL_SIZE + 1) NUL;
  host := replicate (HOST_SIZE + 1) NUL;
  port := 0
|}.

(** [strncpy(dst, src, n)] into an array: exactly [n] bytes are written, the
    characters of [src] and then NULs; undefined when they do not fit. *)
Definition strncpy (dst src : str) (n : nat) : M str :=
  if n <=? length dst
  then Ret (take n (c_str src ++ replicate n NUL) ++ drop n dst)
  else Undef.

(** Copy of a component when it fits, as the parser does it. *)
Definition copy_if_fits (dst src : str) (comp_sz max : nat) : M str :=
  if (0 <? comp_sz) && (comp_sz <=? max) then strncpy dst src comp_sz else Ret dst.

(** [parseAddr]: the returned code and the components ([out] is only
    written when the address is accepted). *)
Definition parseAddr (addr : option str) (out : option UriComponents)
  : M (Z * option UriComponents) :=
  match addr, out with
  | None, _ => Ret (-1, out)%Z
  | Some addr, _ =>
    let addr := c_str addr in
    if (length addr =? 0) || (SOCKADDR_SIZE <=? length addr) then Ret (-1, out)%Z else
    match out with
    | None => Ret (-1, None)%Z
    | Some _ =>
      let o := zero_components in
      (* parse protocol *)
      '(o, addr) ← match find_sub #"://" addr with
                   | Some comp_sz =>
                       p ← copy_if_fits (proto o) addr comp_sz PROTOCOL_SIZE;
                       mret ({| proto := p; host := host o; port := port o |},
                             drop (comp_sz + 3) addr)
                   | None => mret (o, addr)
                   end;
      (* parse host *)
      match find_char ":" addr with
      | Some comp_sz =>
          h ← copy_if_fits (host o) addr comp_sz HOST_SIZE;
          p ← atoi (drop (comp_sz + 1) addr);
          mret (0%Z, Some {| proto := proto o; host := h; port := p |})
      | None =>
          h ← copy_if_fits (host o) addr (length addr) HOST_SIZE;
          h ← strncpy h addr (length addr);
          mret (0%Z, Some {| proto := proto o; host := h; port := port o |})
      end
    end
  end.

(** ** Lemmas *)

Lemma find_sub_None_prefix p s : find_sub p s = None → is_prefix p s = false.
Proof. destruct s; cbn; by destruct (is_prefix p _). Qed.

Lemma find_sub_le p s i : find_sub p s = Some i → i + length p ≤ length s.
Proof.
  revert i. induction s as [|c s IH]; intros i; cbn [find_sub].
  - destruct (is_prefix p []) eqn:E; [|done]. intros [= <-].
    apply is_prefix_spec in E as [r H]. apply (f_equal length) in H.
    rewrite length_app in H. cbn in *. lia.
  - destruct (is_prefix p (c :: s)) eqn:E.
    + intros [= <-]. apply is_prefix_spec in E as [r H]. rewrite H, length_app. lia.
    + intros (j & Hj%IH & ->)%fmap_Some. cbn. lia.
Qed.

Lemma strncpy_defined dst src n : defined (strncpy dst src n) ↔ n ≤ length dst.
Proof.
  unfold strncpy, defined. destruct (Nat.leb_spec n (length dst)).
  - split; [done|discriminate].
  - split; [congruence|lia].
Qed.

Lemma strncpy_zeroes k src n :
  no_nul src → length src = n → n ≤ k →
  strncpy (replicate k NUL) src n = Ret (src ++ replicate (k - n) NUL).
Proof.
  intros Hn <- Hk. unfold strncpy. rewrite length_replicate.
  destruct (Nat.leb_spec (length src) k); [|lia].
  rewrite c_str_no_nul, take_app_length, drop_replicate by done. done.
Qed.

Lemma strncpy_length dst src n d : strncpy dst src n = Ret d → length d = length dst.
Proof.
  unfold strncpy. destruct (Nat.leb_spec n (length dst)); [|done]. intros [= <-].
  rewrite length_app, length_take, length_app, length_replicate, length_drop. lia.
Qed.

Lemma copy_if_fits_Ret dst src n max :
  max < length dst →
  ∃ d, copy_if_fits dst src n max = Ret d ∧ length d = length dst.
Proof.
  intros Hmax. unfold copy_if_fits. case_bool; [|eauto]. reflect_bool.
  destruct (strncpy dst src n) as [d| |] eqn:E.
  - eauto using strncpy_length.
  - unfold strncpy in E. by case_bool.
  - by apply strncpy_defined in E; [|lia].
Qed.

Lemma find_sub_slash s : "/"%char ∉ s → find_sub #"://" s = None.
Proof.
  induction s as [|c s IH]; intros Hs; [done|].
  change (find_sub #"://" (c :: s))
    with (if is_prefix #"://" (c :: s) then Some 0 else S <$> find_sub #"://" s).
  destruct (is_prefix #"://" (c :: s)) eqn:E.
  - apply is_prefix_spec in E as [r Hr]. rewrite Hr in Hs. set_solver.
  - rewrite IH by set_solver. done.
Qed.

(** ** Properties *)

(** An accepted address: shorter than the limit and not empty. *)
Definition accepted (a : str) : Prop := 0 < length a < SOCKADDR_SIZE.

(** What remains of the address after its protocol part. *)
Definition after_proto (a : str) : str :=
  match find_sub #"://" a with Some i => drop (i + 3) a | None => a end.

(** An address [host:port] with a host of 1 to 64 characters and a port
    that fits an [int] is accepted: the host is copied and terminated by
    NULs, the port is the number written, the protocol stays empty. *)
Theorem parseAddr_host_port (h : str) (n : Z) (u : UriComponents) :
  0 < length h ≤ HOST_SIZE → no_nul h → ":"%char ∉ h → "/"%char ∉ h →
  (0 ≤ n ≤ INT_MAX)%Z → length (h ++ ":"%char :: digits n) < SOCKADDR_SIZE →
  parseAddr (Some (h ++ ":"%char :: digits n)) (Some u)
  = Ret (0%Z, Some {| proto := proto zero_components;
                      host := h ++ replicate (HOST_SIZE + 1 - length h) NUL;
                      port := n |}).
Proof.
  intros Hh Hnul Hcol Hsl Hn Hlen. unfold parseAddr.
  assert (Hnn : no_nul (h ++ ":"%char :: digits n)).
  { apply no_nul_app. split; [done|]. apply no_nul_cons. split; [done|].
    apply no_nul_digits. lia. }
  rewrite (c_str_no_nul _ Hnn).
  destruct (Nat.eqb_spec (length (h ++ ":"%char :: digits n)) 0) as [H0|_].
  { rewrite length_app in H0. lia. }
  destruct (Nat.leb_spec SOCKADDR_SIZE (length (h ++ ":"%char :: digits n))); [lia|].
  rewrite find_sub_slash.
  2:{ rewrite not_elem_of_app, not_elem_of_cons. split; [done|]. split; [done|].
      apply digits_not_in; [lia|done]. }
  cbn [orb mbind outcome_mbind outcome_bind mret outcome_mret].
  assert (find_char ":" (h ++ ":"%char :: digits n) = Some (length h)) as ->.
  { apply find_char_Some. eauto. }
  replace (drop (length h + 1) (h ++ ":"%char :: digits n)) with (digits n)
    by (by rewrite Nat.add_1_r, drop_app_ge, Nat.sub_succ_l, Nat.sub_diag by lia).
  rewrite atoi_digits by done.
  unfold copy_if_fits. destruct (Nat.ltb_spec 0 (length h)); [|lia].
  destruct (Nat.leb_spec (length h) HOST_SIZE); [|lia]. cbn [andb host zero_components].
  unfold strncpy. rewrite length_replicate.
  destruct (Nat.leb_spec (length h) (HOST_SIZE + 1)); [|lia].
  rewrite c_str_no_nul by done.
  rewrite <- app_assoc, take_app_length, drop_replicate. done.
Qed.

(** C40. [parseAddr] writes inside its buffers exactly when the address is
    rejected, or has a port that fits an [int], or has no port and at most 65
    characters after the protocol: a longer address without a colon (the
    length limit is 128) overflows [host]. *)
Theorem parseAddr_defined_iff (a : str) (u : UriComponents) :
  no_nul a →
  defined (parseAddr (Some a) (Some u)) ↔
  ¬ accepted a ∨
  match find_char ":" (after_proto a) with
  | Some i => defined (atoi (drop (S i) (after_proto a)) : M Z)
  | None => length (after_proto a) ≤ HOST_SIZE + 1
  end.
Proof.
  intros Hn. unfold parseAddr, accepted. rewrite c_str_no_nul by done.
  destruct (Nat.eqb_spec (length a) 0) as [H0|H0]; cbn [orb].
  { split; [left; lia|discriminate]. }
  destruct (Nat.leb_spec SOCKADDR_SIZE (length a)) as [H1|H1].
  { split; [left; lia|discriminate]. }
  assert (∃ p, match find_sub #"://" a with
               | Some comp_sz =>
                   p ← copy_if_fits (proto zero_components) a comp_sz PROTOCOL_SIZE;
                   mret ({| proto := p; host := host zero_components;
                            port := port zero_components |}, drop (comp_sz + 3) a)
               | None => mret (zero_components, a)
               end = (Ret ({| proto := p; host := host zero_components; port := 0 |},
                           after_proto a) : M _)) as [p ->].
  { unfold after_proto. destruct (find_sub #"://" a) as [i|]; [|by eexists].
    destruct (copy_if_fits_Ret (proto zero_components) a i PROTOCOL_SIZE)
      as (p & -> & _); [cbn; unfold PROTOCOL_SIZE; lia|]. by exists p. }
  rewrite bind_Ret. cbn [host proto port].
  destruct (find_char ":" (after_proto a)) as [i|].
  - destruct (copy_if_fits_Ret (host zero_components) (after_proto a) i HOST_SIZE)
      as (d & -> & _); [cbn; unfold HOST_SIZE; lia|].
    rewrite bind_Ret, Nat.add_1_r. unfold defined.
    destruct (atoi (drop (S i) (after_proto a)) : M Z); cbn; split; intros H; try done;
      try (right; done); destruct H; try done; lia.
  - destruct (copy_if_fits_Ret (host zero_components) (after_proto a)
                (length (after_proto a)) HOST_SIZE) as (d & -> & Hd);
      [cbn; unfold HOST_SIZE; lia|].
    rewrite bind_Ret. unfold strncpy. rewrite Hd. cbn [host zero_components].
    rewrite length_replicate.
    destruct (Nat.leb_spec (length (after_proto a)) (HOST_SIZE + 1)).
    + split; [right; lia|discriminate].
    + split; [intros []; done|]. intros [?|?]; lia.
Qed.

(** ** Witnesses *)

Lemma parseAddr_host_port_witness :
  parseAddr (Some (#"127.0.0.1" ++ ":"%char :: digits 4444)) (Some zero_components)
  = Ret (0%Z, Some {| proto := proto zero_components;
                      host := #"127.0.0.1" ++ replicate 56 NUL; port := 4444 |}).
Proof.
  apply (parseAddr_host_port #"127.0.0.1" 4444 zero_components);
    try (by vm_compute; lia); try by apply (bool_decide_unpack _); vm_compute.
Defined.

Lemma parseAddr_defined_iff_witness :
  let a := replicate 100 "a"%char in
  no_nul a ∧ accepted a ∧ ¬ defined (parseAddr (Some a) (Some zero_components)).
Proof.
  intros a. assert (Hn : no_nul a) by (by apply (bool_decide_unpack _); vm_compute).
  split; [done|]. split; [vm_compute; lia|].
  rewrite (parseAddr_defined_iff a zero_components Hn).
  intros [H|H]; [apply H|]; vm_compute in *; lia.
Defined.
