(* ===== verification/EventLoop.v ===== *)
(** * Event loop (src/dispatcher/)

    [EventHandler] keeps, per object, the descriptors it registered with the
    process-wide epoll instance; [Dispatcher] runs the loop and routes every
    ready descriptor to the first handler that claims it; [LoopTerminator]
    ends the loop.  The kernel's epoll is an interface, [Epoll], with its
    documented behaviour as the laws [EpollLaws]. *)
From stdpp Require Import sorting.
From S2P Require Import Prelude.
From S2P Require Import CLib.
From S2P Require Import Exceptions.

(** ** Definitions *)

(** *** The kernel interface *)

Inductive ctl_op : Type := CTL_ADD | CTL_MOD | CTL_DEL.

Class Epoll (K : Type) : Type := {
  (** [epoll_ctl(epfd, op, fd, events)]: the new kernel state and the code *)
  epoll_ctl : Z → ctl_op → Z → Z → K → K * Z;
  (** the interest list of an epoll instance *)
  interest : K → Z → gmap Z Z
}.

(** epoll_ctl(2): it returns 0 or -1; ADD fails when the descriptor is
    registered, MOD when it is not; a failed call changes nothing, and a call
    on one instance leaves the others alone. *)
Class EpollLaws (K : Type) `{Epoll K} : Prop := {
  ctl_add_ok ep fd ev k k' :
    epoll_ctl ep CTL_ADD fd ev k = (k', 0%Z) →
    interest k ep !! fd = None ∧ interest k' ep = <[fd := ev]> (interest k ep);
  ctl_mod_ok ep fd ev k k' :
    epoll_ctl ep CTL_MOD fd ev k = (k', 0%Z) →
    is_Some (interest k ep !! fd) ∧ interest k' ep = <[fd := ev]> (interest k ep);
  ctl_del_ok ep fd ev k k' :
    epoll_ctl ep CTL_DEL fd ev k = (k', 0%Z) → interest k' ep = delete fd (interest k ep);
  ctl_fail ep op fd ev k k' r :
    epoll_ctl ep op fd ev k = (k', r) → r ≠ 0%Z → (r < 0)%Z ∧ interest k' ep = interest k ep
}.

(** *** [EventHandler] *)

Record EventHandler : Type := {
  epoll_fd : Z;
  events_map : gmap Z Z
}.

(** A handler before [register_handler] sets its epoll descriptor. *)
Definition new_EventHandler : EventHandler := {| epoll_fd := -1; events_map := ∅ |}.

Definition set_epoll (fd : Z) (h : EventHandler) : EventHandler :=
  {| epoll_fd := fd; events_map := events_map h |}.

Definition add_events (fd events : Z) (h : EventHandler) : EventHandler :=
  {| epoll_fd := epoll_fd h; events_map := <[fd := events]> (events_map h) |}.

Definition find_events (fd : Z) (h : EventHandler) : Z :=
  match events_map h !! fd with Some ev => ev | None => 0 end.

Definition remove_events (fd : Z) (h : EventHandler) : EventHandler :=
  {| epoll_fd := epoll_fd h; events_map := delete fd (events_map h) |}.

Definition is_can_handle (fd events : Z) (h : EventHandler) : bool :=
  negb (Z.land (find_events fd h) events =? 0)%Z.

(** The keys of a [std::map], in its iteration order. *)
Definition sorted_keys (m : gmap Z Z) : list Z := merge_sort Z.le (elements (dom m)).

Section EventHandler.
Context {K : Type} `{Epoll K}.

Definition link (fd events : Z) (h : EventHandler) (k : K) : EventHandler * K * Z :=
  if (epoll_fd h <? 0)%Z then (h, k, -1)%Z else
  let '(k', res) := epoll_ctl (epoll_fd h) CTL_ADD fd events k in
  if (res =? 0)%Z then (add_events fd events h, k', res) else (h, k', res).

Definition modify_link (fd events : Z) (h : EventHandler) (k : K)
  : EventHandler * K * Z :=
  match events_map h !! fd with
  | None => link fd events h k
  | Some _ =>
    if (epoll_fd h <? 0)%Z then (h, k, -1)%Z else
    let '(k', res) := epoll_ctl (epoll_fd h) CTL_MOD fd events k in
    if (res =? 0)%Z then (add_events fd events h, k', res) else (h, k', res)
  end.

Definition unlink (fd : Z) (h : EventHandler) (k : K) : EventHandler * K * Z :=
  if (epoll_fd h <? 0)%Z then (h, k, -1)%Z else
  let '(k', res) := epoll_ctl (epoll_fd h) CTL_DEL fd 0 k in
  (remove_events fd h, k', res).

(** The [while] loop of [unlink_all_events]: the first entry is deleted
    until none is left. *)
Fixpoint unlink_all_loop (fuel : nat) (h : EventHandler) (k : K) : EventHandler * K :=
  match sorted_keys (events_map h), fuel with
  | fd :: _, S fuel' =>
      let '(k', _) := epoll_ctl (epoll_fd h) CTL_DEL fd 0 k in
      unlink_all_loop fuel' (remove_events fd h) k'
  | _, _ => (h, k)
  end.

Definition unlink_all_events (h : EventHandler) (k : K) : EventHandler * K * Z :=
  if (epoll_fd h <? 0)%Z then (h, k, -1)%Z else
  let '(h', k') := unlink_all_loop (size (events_map h)) h k in (h', k', 0)%Z.
End EventHandler.

(** [iterate_events_map]: the callback over the entries, in key order. *)
Definition iterate_events_map {S} (callback : Z → Z → S → S) (h : EventHandler) (s : S) : S :=
  foldl (fun s fd => callback fd (find_events fd h) s) s (sorted_keys (events_map h)).

(** *** [Dispatcher] *)

(** The handlers are objects of a store; the vector holds their identities,
    in registration order. *)
Record Dispatcher : Type := {
  d_epoll_fd : Z;
  handlers : list nat
}.

Abbreviation store := (gmap nat EventHandler).

Definition register_handler (handler : option nat) (d : Dispatcher) (st : store)
  : Dispatcher * store * Z :=
  if (d_epoll_fd d <? 0)%Z then (d, st, -1)%Z else
  match handler with
  | None => (d, st, -1)%Z
  | Some h => ({| d_epoll_fd := d_epoll_fd d; handlers := handlers d ++ [h] |},
               alter (set_epoll (d_epoll_fd d)) h st, 0%Z)
  end.

(** [handlers.erase] of the first occurrence. *)
Fixpoint erase_first (h : nat) (hs : list nat) : list nat :=
  match hs with
  | [] => []
  | x :: r => if (x =? h)%nat then r else x :: erase_first h r
  end.

Definition unregister_handler (handler : option nat) (d : Dispatcher) (st : store)
  : Dispatcher * store * Z :=
  match handler with
  | None => (d, st, -1)%Z
  | Some h => ({| d_epoll_fd := d_epoll_fd d; handlers := erase_first h (handlers d) |},
               alter (set_epoll (-1)) h st, 0%Z)
  end.

(** [EventHandler::~EventHandler], for the handler [n]. *)
Definition destroy_EventHandler {K} `{Epoll K} (n : nat) (d : Dispatcher) (st : store) (k : K)
  : Dispatcher * store * K :=
  match st !! n with
  | None => (d, st, k)
  | Some h =>
      let '(h', k', _) := unlink_all_events h k in
      let '(d', st', _) := unregister_handler (Some n) d (<[n := h']> st) in
      (d', st', k')
  end.

(** What one [epoll_wait] gives: an error, or the ready descriptors. *)
Inductive wait_result : Type :=
  | WaitError
  | WaitEvents (events : list (Z * Z)).

Section Dispatcher.
(** The handlers' virtual methods: whether a handler claims an event, and
    its [handle_event], with the flag [stop] it may set. *)
Context {W : Type}.
Variable can_handle : nat → Z → Z → W → bool.
Variable handle_event : nat → Z → Z → W → W * bool.

(** The inner [for] over the handlers, left at the first that claims the
    event. *)
Fixpoint route (hs : list nat) (fd events : Z) (w : W) : W * bool :=
  match hs with
  | [] => (w, false)
  | h :: r => if can_handle h fd events w then handle_event h fd events w
              else route r fd events w
  end.

(** The [for] over one batch of events. *)
Fixpoint run_batch (hs : list nat) (evs : list (Z * Z)) (w : W) : W * bool :=
  match evs with
  | [] => (w, false)
  | (fd, events) :: r =>
      let '(w', stop) := route hs fd events w in
      if stop then (w', true) else run_batch hs r w'
  end.

(** [Dispatcher::loop] over the results of the successive [epoll_wait]
    calls: the world when it returns or the calls run out, whether it
    returned, and the calls it did not make. *)
Fixpoint loop (hs : list nat) (waits : list wait_result) (w : W)
  : W * bool * list wait_result :=
  match waits with
  | [] => (w, false, [])
  | WaitError :: r => loop hs r w
  | WaitEvents evs :: r =>
      let '(w', stop) := run_batch hs evs w in
      if stop then (w', true, r) else loop hs r w'
  end.
End Dispatcher.

(** *** [LoopTerminator] *)

Record LoopTerminator : Type := { lt_handler : EventHandler; event_fd : Z }.

Definition EPOLLIN : Z := 1.
Definition EPOLLOUT : Z := 4.
Definition EPOLLERR : Z := 8.

Section LoopTerminator.
Context {K : Type} `{Epoll K}.
(** eventfd(2) and its read and write wrappers. *)
Variable eventfd : K → K * Z.
Variable eventfd_write : Z → Z → K → K * Z.
Variable eventfd_read : Z → K → K * Z.

Definition init_event (t : LoopTerminator) (k : K) : LoopTerminator * K * Z :=
  let '(k, fd) := eventfd k in
  if (0 <=? fd)%Z then
    let '(h, k, _) := link fd EPOLLIN (lt_handler t) k in
    ({| lt_handler := h; event_fd := fd |}, k, fd)
  else ({| lt_handler := lt_handler t; event_fd := fd |}, k, fd).

Definition fire (t : LoopTerminator) (k : K) : K * Z :=
  if (event_fd t <? 0)%Z then (k, -1)%Z else eventfd_write (event_fd t) 1 k.

(** [LoopTerminator::handle_event]: the counter is read and the loop is told
    to stop, whatever the read returned. *)
Definition terminator_handle_event (t : LoopTerminator) (k : K) : K * Z * bool :=
  let '(k, res) := eventfd_read (event_fd t) k in (k, res, true).
End LoopTerminator.

(** ** Lemmas *)

Lemma sorted_keys_elem m fd : fd ∈ sorted_keys m ↔ is_Some (m !! fd).
Proof.
  unfold sorted_keys. rewrite merge_sort_Permutation, elem_of_elements. apply elem_of_dom.
Qed.

Lemma sorted_keys_nil m : sorted_keys m = [] → m = ∅.
Proof.
  intros Hm. apply map_empty. intros fd. destruct (m !! fd) eqn:E; [|done].
  assert (fd ∈ sorted_keys m) as Hin by (apply sorted_keys_elem; eauto).
  rewrite Hm in Hin. set_solver.
Qed.

Lemma route_first {W} (can : nat → Z → Z → W → bool) he hs1 h hs2 fd ev w :
  Forall (λ x, can x fd ev w = false) hs1 → can h fd ev w = true →
  route can he (hs1 ++ h :: hs2) fd ev w = he h fd ev w.
Proof. induction 1 as [|x l Hx _ IH]; intros Hh; cbn; [by rewrite Hh|rewrite Hx; auto]. Qed.

Lemma route_none {W} (can : nat → Z → Z → W → bool) he hs fd ev w :
  Forall (λ x, can x fd ev w = false) hs → route can he hs fd ev w = (w, false).
Proof. induction 1 as [|x l Hx _ IH]; cbn; [done|by rewrite Hx]. Qed.

(** What every handler keeps while it does not stop the loop holds in the
    loop, and what it leaves when it stops the loop holds then. *)
Section Loop_invariant.
Context {W : Type} (can : nat → Z → Z → W → bool) (he : nat → Z → Z → W → W * bool).
Context (I F : W → Prop).

(** What holds of the states a part of the loop gives. *)
Definition kept (x : W * bool) : Prop := if snd x then F (fst x) else I (fst x).

Hypothesis handler_keeps : ∀ h fd ev w, I w → kept (he h fd ev w).

Lemma route_keeps hs fd ev w : I w → kept (route can he hs fd ev w).
Proof. intros Hw. induction hs as [|h hs IH]; cbn; [done|]. destruct (can h fd ev w); [by apply handler_keeps|done]. Qed.

Lemma run_batch_keeps hs evs w : I w → kept (run_batch can he hs evs w).
Proof.
  revert w. induction evs as [|[fd ev] evs IH]; intros w Hw; cbn; [done|].
  pose proof (route_keeps hs fd ev w Hw) as Hr. destruct (route can he hs fd ev w) as [w' [|]]; [done|by apply IH].
Qed.

Lemma loop_keeps hs waits w : I w → kept (fst (loop can he hs waits w)).
Proof.
  revert w. induction waits as [|[|evs] waits IH]; intros w Hw; cbn; [done|by apply IH|].
  pose proof (run_batch_keeps hs evs w Hw) as Hr. destruct (run_batch can he hs evs w) as [w' [|]]; [done|by apply IH].
Qed.
End Loop_invariant.

(** What a handler registered is in the kernel's interest list, with the
    same events. *)
Definition synced {K} `{Epoll K} (h : EventHandler) (k : K) : Prop :=
  (0 ≤ epoll_fd h)%Z ∧ events_map h ⊆ interest k (epoll_fd h).

(** Two handlers of one epoll instance share no descriptor. *)
Definition separate (h1 h2 : EventHandler) : Prop :=
  epoll_fd h1 = epoll_fd h2 ∧ events_map h1 ##ₘ events_map h2.

Section Synced.
Context {K : Type} `{EpollLaws K}.

(** The effect of one [epoll_ctl] on a handler [h1] that makes the call and
    on another one, [h2], of the same instance. *)
Lemma ctl_synced op fd ev h1 h2 k k' r :
  synced h1 k → synced h2 k → separate h1 h2 →
  (op = CTL_MOD → is_Some (events_map h1 !! fd)) → op ≠ CTL_DEL →
  epoll_ctl (epoll_fd h1) op fd ev k = (k', r) →
  let h1' := if (r =? 0)%Z then add_events fd ev h1 else h1 in
  synced h1' k' ∧ synced h2 k' ∧ separate h1' h2.
Proof.
  intros [Hp1 Hs1] [Hp2 Hs2] [Hep Hd] Hmod Hdel Hctl.
  destruct (Z.eqb_spec r 0) as [->|Hr]; cbn.
  2:{ apply ctl_fail in Hctl as [_ Hi]; [|done]. unfold synced, separate.
      rewrite <- Hep in Hs2 |- *. by rewrite Hi. }
  assert (events_map h2 !! fd = None ∧
          interest k' (epoll_fd h1) = <[fd := ev]> (interest k (epoll_fd h1)))
    as [Hfd Hi].
  { destruct op; [| |done].
    - apply ctl_add_ok in Hctl as [Hn Hi]. split; [|done].
      rewrite <- Hep in Hs2. eapply lookup_weaken_None; eauto.
    - apply ctl_mod_ok in Hctl as [_ Hi]. split; [|done].
      destruct (Hmod eq_refl) as [x Hx]. eapply map_disjoint_Some_l; eauto. }
  unfold synced, separate. cbn. rewrite <- Hep, Hi. repeat split; try done.
  - by apply insert_mono.
  - apply insert_subseteq_r; [done|]. by rewrite Hep.
  - by apply map_disjoint_insert_l_2.
Qed.
End Synced.

Definition ctl_of (h : EventHandler) (fd : Z) : ctl_op :=
  match events_map h !! fd with Some _ => CTL_MOD | None => CTL_ADD end.

Lemma ctl_of_MOD h fd : ctl_of h fd = CTL_MOD → is_Some (events_map h !! fd).
Proof. unfold ctl_of. by destruct (events_map h !! fd). Qed.

Lemma ctl_of_not_DEL h fd : ctl_of h fd ≠ CTL_DEL.
Proof. unfold ctl_of. by destruct (events_map h !! fd). Qed.

Section Links.
Context {K : Type} `{Epoll K}.

(** Both ways through [modify_link] make one system call. *)
Lemma modify_link_ctl fd ev h (k : K) : (0 ≤ epoll_fd h)%Z →
  modify_link fd ev h k =
  let '(k', res) := epoll_ctl (epoll_fd h) (ctl_of h fd) fd ev k in
  (if (res =? 0)%Z then add_events fd ev h else h, k', res).
Proof.
  intros Hp%Z.ltb_ge. unfold modify_link, link, ctl_of. rewrite Hp.
  destruct (events_map h !! fd); destruct (epoll_ctl _ _ _ _ _) as [k' r];
    by destruct (r =? 0)%Z.
Qed.

Lemma unlink_all_loop_empty n h (k : K) h' k' :
  n = size (events_map h) → unlink_all_loop n h k = (h', k') →
  events_map h' = ∅ ∧ epoll_fd h' = epoll_fd h.
Proof.
  revert h k. induction n as [|n IH]; intros h k Hn; cbn.
  - symmetry in Hn. apply map_size_empty_inv in Hn. rewrite Hn. by intros [= <- <-].
  - destruct (sorted_keys (events_map h)) as [|fd l] eqn:Hk.
    + intros [= <- <-]. by apply sorted_keys_nil in Hk.
    + destruct (epoll_ctl _ _ _ _ _) as [k1 r1]. apply (IH (remove_events fd h)).
      assert (is_Some (events_map h !! fd)) as [x Hx]
        by (apply sorted_keys_elem; rewrite Hk; set_solver).
      cbn. rewrite map_size_delete_Some by eauto. lia.
Qed.
End Links.

(** A run of [EPOLL_CTL_DEL] calls on one instance: the descriptors with the
    codes they got, and the kernel before and after. *)
Inductive deletes {K} `{Epoll K} (ep : Z) : list (Z * Z) → K → K → Prop :=
  | deletes_nil k : deletes ep [] k k
  | deletes_cons fd r l k k1 k' :
      epoll_ctl ep CTL_DEL fd 0 k = (k1, r) → deletes ep l k1 k' →
      deletes ep ((fd, r) :: l) k k'.

Section Drops.
Context {K : Type} `{EpollLaws K}.

(** What becomes of the descriptors when those of [h] are dropped: the kernel
    went from [k] to [k'] by one [EPOLL_CTL_DEL] for each of them, in key
    order; those that were accepted are not watched any more, and the others,
    with everything that was not recorded, are watched as before. *)
Definition dropped (h : EventHandler) (k k' : K) : Prop :=
  ∃ l, l.*1 = sorted_keys (events_map h) ∧ deletes (epoll_fd h) l k k' ∧
    ∀ fd, interest k' (epoll_fd h) !! fd
      = if decide ((fd, 0%Z) ∈ l) then None else interest k (epoll_fd h) !! fd.

(** [EPOLL_CTL_DEL] of a descriptor takes it out or is refused. *)
Lemma ctl_del_lookup ep fd (k k' : K) r :
  epoll_ctl ep CTL_DEL fd 0 k = (k', r) →
  ∀ fd', interest k' ep !! fd' = if decide (fd' = fd ∧ r = 0%Z) then None else interest k ep !! fd'.
Proof.
  intros E fd'. destruct (decide (r = 0)%Z) as [->|Hr].
  - rewrite (ctl_del_ok _ _ _ _ _ E). case_decide as Hd.
    + destruct Hd as [-> _]. apply lookup_delete_eq.
    + apply lookup_delete_ne. intros <-. by apply Hd.
  - rewrite decide_False by tauto. by destruct (ctl_fail _ _ _ _ _ _ _ E Hr) as [_ ->].
Qed.

Lemma deletes_lookup ep l (k k' : K) :
  deletes ep l k k' →
  ∀ fd, interest k' ep !! fd = if decide ((fd, 0%Z) ∈ l) then None else interest k ep !! fd.
Proof.
  induction 1 as [k|fd r l k k1 k' E _ IH]; intros fd'; [done|].
  rewrite IH, (ctl_del_lookup _ _ _ _ _ E).
  repeat case_decide; set_solver.
Qed.

(** The first entry taken off, the others are the next keys. *)
Lemma sorted_keys_delete m fd l : sorted_keys m = fd :: l → sorted_keys (delete fd m) = l.
Proof.
  intros Hk. unfold sorted_keys in *.
  assert (Hs : StronglySorted Z.le (fd :: l)).
  { rewrite <- Hk. apply (StronglySorted_merge_sort _). }
  apply (StronglySorted_unique Z.le); [apply (StronglySorted_merge_sort _)|by inversion Hs|].
  rewrite merge_sort_Permutation. apply (Permutation_cons_inv (a := fd)). rewrite <- Hk.
  rewrite merge_sort_Permutation, dom_delete_L.
  assert (Hin : fd ∈ dom m).
  { apply elem_of_elements. rewrite <- (merge_sort_Permutation Z.le), Hk. apply list_elem_of_here. }
  rewrite <- elements_union_singleton by set_solver. f_equiv. by rewrite <- union_difference_singleton_L.
Qed.

Lemma unlink_all_loop_deletes n h (k : K) h' k' :
  n = size (events_map h) → unlink_all_loop n h k = (h', k') →
  ∃ l, l.*1 = sorted_keys (events_map h) ∧ deletes (epoll_fd h) l k k'.
Proof.
  revert h k. induction n as [|n IH]; intros h k Hn; cbn.
  - symmetry in Hn. apply map_size_empty_inv in Hn.
    assert (sorted_keys (events_map h) = []) as -> by (by rewrite Hn).
    intros [= <- <-]. exists []. by split; [|constructor].
  - destruct (sorted_keys (events_map h)) as [|fd l] eqn:Hk.
    { apply sorted_keys_nil in Hk. by rewrite Hk, map_size_empty in Hn. }
    destruct (epoll_ctl (epoll_fd h) CTL_DEL fd 0 k) as [k1 r1] eqn:E. intros Hl.
    assert (is_Some (events_map h !! fd)) as [x Hx] by (apply sorted_keys_elem; rewrite Hk; set_solver).
    apply IH in Hl as (l' & Hl' & Hd); [|cbn; rewrite map_size_delete_Some by eauto; lia].
    exists ((fd, r1) :: l'). cbn. rewrite Hl'. split; [|by econstructor].
    f_equal. by apply sorted_keys_delete.
Qed.

Lemma unlink_all_events_drops h (k : K) h' k' r :
  (0 ≤ epoll_fd h)%Z → unlink_all_events h k = (h', k', r) →
  r = 0%Z ∧ events_map h' = ∅ ∧ epoll_fd h' = epoll_fd h ∧ dropped h k k'.
Proof.
  intros Hp Hu. unfold unlink_all_events in Hu. rewrite (proj2 (Z.ltb_ge _ _) Hp) in Hu.
  destruct (unlink_all_loop _ h k) as [h0 k0] eqn:Hl. injection Hu as <- <- <-.
  split; [done|]. destruct (unlink_all_loop_empty _ _ _ _ _ eq_refl Hl) as [He Hf].
  split; [done|]. split; [done|].
  destruct (unlink_all_loop_deletes _ _ _ _ _ eq_refl Hl) as (l & Hl1 & Hd).
  exists l. split; [done|]. split; [done|]. by apply deletes_lookup.
Qed.

Lemma erase_first_filter n hs : NoDup hs → erase_first n hs = filter (.≠ n) hs.
Proof.
  induction hs as [|x hs IH]; cbn [erase_first]; [done|]. intros [Hx Hnd]%NoDup_cons. rewrite filter_cons.
  destruct (Nat.eqb_spec x n) as [->|Hne].
  - rewrite decide_False by tauto. clear IH. induction hs as [|y hs IH]; [done|].
    apply not_elem_of_cons in Hx as [Hy Hx]. apply NoDup_cons in Hnd as [_ Hnd].
    rewrite filter_cons, decide_True by congruence. by rewrite <- IH.
  - rewrite decide_True by done. by rewrite IH.
Qed.
End Drops.

(** ** Properties *)

Section Properties.
Context {K : Type} `{EpollLaws K}.

(** Registering or re-registering a descriptor keeps every handler in
    step with the kernel: what each of two handlers of the epoll instance
    recorded is still what the kernel watches, with the same event mask,
    and they still share no descriptor, whether or not the system call
    succeeds. *)
Theorem modify_link_synced fd ev h1 h2 k h1' k' r :
  synced h1 k → synced h2 k → separate h1 h2 →
  modify_link fd ev h1 k = (h1', k', r) →
  synced h1' k' ∧ synced h2 k' ∧ separate h1' h2 ∧
  (r = 0%Z → find_events fd h1' = ev).
Proof.
  intros Hs1 Hs2 Hsep Hm.
  rewrite (modify_link_ctl fd ev h1 k (proj1 Hs1)) in Hm.
  destruct (epoll_ctl _ _ _ _ _) as [k0 r0] eqn:Hctl. injection Hm as <- <- <-.
  destruct (ctl_synced _ _ _ _ _ _ _ _ Hs1 Hs2 Hsep (ctl_of_MOD h1 fd)
              (ctl_of_not_DEL h1 fd) Hctl) as (? & ? & ?).
  split; [done|]. split; [done|]. split; [done|]. intros ->.
  unfold find_events. cbn. by rewrite lookup_insert_eq.
Qed.

(** [unlink] forgets the descriptor even when the kernel refuses to,
    so the record never claims more than the kernel watches. *)
Theorem unlink_synced fd h k h' k' r :
  synced h k → unlink fd h k = (h', k', r) →
  synced h' k' ∧ find_events fd h' = 0%Z ∧
  (∀ fd', fd' ≠ fd → find_events fd' h' = find_events fd' h).
Proof.
  intros [Hp Hs] Hu. unfold unlink in Hu.
  rewrite (proj2 (Z.ltb_ge _ _) Hp) in Hu.
  destruct (epoll_ctl _ _ _ _ _) as [k0 r0] eqn:Hctl. injection Hu as <- <- <-.
  unfold synced, find_events. cbn. rewrite lookup_delete_eq.
  split; [split; [done|]|split; [done|]].
  - destruct (decide (r0 = 0%Z)) as [->|Hr].
    + rewrite (ctl_del_ok _ _ _ _ _ Hctl). by apply delete_mono.
    + apply ctl_fail in Hctl as [_ Hi]; [|done]. rewrite Hi.
      etrans; [apply delete_subseteq|done].
  - intros fd' Hne. by rewrite lookup_delete_ne.
Qed.

(** C39. The loop of [unlink_all_events] terminates with an empty record, after
    exactly one [EPOLL_CTL_DEL] for each recorded descriptor, in key order,
    from the kernel as it was to the kernel that is left.  The descriptors
    whose call was accepted are not watched any more; whatever else the epoll
    instance watched it watches as before. *)
Theorem unlink_all_events_empty h k h' k' r :
  (0 ≤ epoll_fd h)%Z → unlink_all_events h k = (h', k', r) →
  r = 0%Z ∧ events_map h' = ∅ ∧ epoll_fd h' = epoll_fd h ∧ dropped h k k'.
Proof.
  intros Hp Hu. by apply unlink_all_events_drops.
Qed.

(** A destroyed handler is not called any more and what it recorded is not
    watched; the other handlers are as they were, in their order. *)
Theorem handler_destroyed n h d st k d' st' k' :
  st !! n = Some h → (0 ≤ epoll_fd h)%Z → NoDup (handlers d) →
  destroy_EventHandler n d st k = (d', st', k') →
  handlers d' = filter (.≠ n) (handlers d) ∧ st' = <[n := new_EventHandler]> st ∧ dropped h k k'.
Proof.
  intros Hn Hp Hnd. unfold destroy_EventHandler. rewrite Hn.
  destruct (unlink_all_events h k) as [[h1 k1] r] eqn:Hu. cbn. intros [= <- <- <-].
  destruct (unlink_all_events_drops _ _ _ _ _ Hp Hu) as (_ & He & _ & Hd).
  split; [by apply erase_first_filter|]. split; [|done].
  unfold new_EventHandler, set_epoll in *. rewrite alter_insert_eq. destruct h1; cbn in *; by subst.
Qed.
End Properties.

Section DispatcherProperties.
Context {W : Type}.
Variable can_handle : nat → Z → Z → W → bool.
Variable handle_event : nat → Z → Z → W → W * bool.

(** One handled event: the handler, the event, and the flag it left. *)
Definition handled : Type := nat * Z * Z * bool.
Definition handled_stop (e : handled) : bool := snd e.

(** The handlers with a log of their calls. *)
Definition logged_can (h : nat) (fd ev : Z) (w : W * list handled) : bool :=
  can_handle h fd ev w.1.
Definition logged_event (h : nat) (fd ev : Z) (w : W * list handled)
  : (W * list handled) * bool :=
  let '(w', s) := handle_event h fd ev w.1 in ((w', w.2 ++ [(h, fd, ev, s)]), s).

(** The calls made between two states: handlers of the vector, none of
    which but the last asked to stop. *)
Definition calls (hs : list nat) (l l' : list handled) (stop : bool) : Prop :=
  ∃ L, l' = l ++ L ∧ Forall (λ e, e.1.1.1 ∈ hs) L ∧
       if stop then ∃ L' e, L = L' ++ [e] ∧ handled_stop e = true ∧
                            Forall (λ e, handled_stop e = false) L'
       else Forall (λ e, handled_stop e = false) L.

Lemma calls_nil hs l : calls hs l l false.
Proof. exists []. rewrite app_nil_r. auto. Qed.

Lemma calls_trans hs l1 l2 l3 b :
  calls hs l1 l2 false → calls hs l2 l3 b → calls hs l1 l3 b.
Proof.
  intros (L & -> & Hin & HL) (L' & -> & Hin' & HL').
  exists (L ++ L'). rewrite app_assoc. split; [done|]. split; [by apply Forall_app|].
  destruct b; [|by apply Forall_app].
  destruct HL' as (L0 & e & -> & He & H0). exists (L ++ L0), e.
  rewrite app_assoc. split; [done|]. split; [done|]. by apply Forall_app.
Qed.

Lemma calls_mono h hs l l' b : calls hs l l' b → calls (h :: hs) l l' b.
Proof.
  intros (L & -> & Hin & HL). exists L. split; [done|]. split; [|done].
  eapply Forall_impl; [done|]. intros x Hx. cbn in *. set_solver.
Qed.

Lemma route_calls hs fd ev w l w' l' s :
  route logged_can logged_event hs fd ev (w, l) = ((w', l'), s) → calls hs l l' s.
Proof.
  induction hs as [|h hs IH]; cbn [route].
  - intros [= <- <- <-]. apply calls_nil.
  - destruct (logged_can h fd ev (w, l)).
    + unfold logged_event. cbn. destruct (handle_event h fd ev w) as [w1 s1].
      intros [= <- <- <-]. exists [(h, fd, ev, s1)]. split; [done|]. split.
      * constructor; [set_solver|done].
      * destruct s1; [exists [], (h, fd, ev, true); done|by constructor].
    + intros ?%IH. by apply calls_mono.
Qed.

Lemma run_batch_calls hs evs w l w' l' s :
  run_batch logged_can logged_event hs evs (w, l) = ((w', l'), s) → calls hs l l' s.
Proof.
  revert w l. induction evs as [|[fd ev] evs IH]; intros w l; cbn [run_batch].
  - intros [= <- <- <-]. apply calls_nil.
  - destruct (route _ _ _ _ _ _) as [[w1 l1] s1] eqn:Hr. apply route_calls in Hr.
    destruct s1; [by intros [= <- <- <-]|]. intros ?%IH. by eapply calls_trans.
Qed.

(** The dispatcher loop calls only registered handlers, returns as
    soon as one of them asks to stop, and only then: in the log of the
    calls it made, the last call asked to stop when the loop returned, and
    no other call did, so no event is handled after a stop request. *)
Theorem loop_stops hs waits w l w' l' ret rest :
  loop logged_can logged_event hs waits (w, l) = ((w', l'), ret, rest) →
  calls hs l l' ret.
Proof.
  revert w l. induction waits as [|[|evs] waits IH]; intros w l; cbn [loop].
  - intros [= <- <- <- <-]. apply calls_nil.
  - apply IH.
  - destruct (run_batch _ _ _ _ _) as [[w1 l1] s1] eqn:Hr. apply run_batch_calls in Hr.
    destruct s1; [by intros [= <- <- <- <-]|]. intros ?%IH. by eapply calls_trans.
Qed.
End DispatcherProperties.

(** An event goes to one handler: the first one, in the order of
    registration, whose recorded mask for that descriptor shares a bit with
    the event; the handlers before it share none.  When no handler matches
    the event is dropped and nothing changes. *)
Theorem route_first_matching {W} (st : W → store) he hs fd ev w :
  let can h fd ev w := match st w !! h with
                       | Some eh => is_can_handle fd ev eh | None => false end in
  (∃ hs1 h hs2 eh, hs = hs1 ++ h :: hs2 ∧ st w !! h = Some eh ∧
     Z.land (find_events fd eh) ev ≠ 0%Z ∧
     Forall (λ x, ∀ eh', st w !! x = Some eh' → Z.land (find_events fd eh') ev = 0%Z) hs1 ∧
     route can he hs fd ev w = he h fd ev w)
  ∨ (Forall (λ x, ∀ eh', st w !! x = Some eh' → Z.land (find_events fd eh') ev = 0%Z) hs ∧
     route can he hs fd ev w = (w, false)).
Proof.
  intros can.
  assert (Hcan : ∀ x, can x fd ev w = false →
            ∀ eh', st w !! x = Some eh' → Z.land (find_events fd eh') ev = 0%Z).
  { unfold can, is_can_handle. intros x Hx eh' He. rewrite He in Hx.
    apply negb_false_iff, Z.eqb_eq in Hx. done. }
  induction hs as [|h hs IH]; [right; split; [constructor|done]|].
  destruct (can h fd ev w) eqn:Hh.
  - left. exists [], h, hs. pose proof Hh as Hm. unfold can, is_can_handle in Hm.
    destruct (st w !! h) as [eh|]; [|done]. exists eh.
    apply negb_true_iff, Z.eqb_neq in Hm. cbn [app route]. rewrite Hh. done.
  - destruct IH as [(hs1 & h' & hs2 & eh & -> & He & Hm & HF & Hr)|[HF Hr]].
    + left. exists (h :: hs1), h', hs2, eh. cbn [app route]. rewrite Hh.
      repeat split; try done. constructor; [by apply Hcan|done].
    + right. cbn [route]. rewrite Hh. split; [|done]. constructor; [by apply Hcan|done].
Qed.

(** ** Witnesses

    A kernel that keeps one interest list per epoll instance. *)

Record kernel : Type := { k_sets : gmap Z (gmap Z Z) }.

Definition k_interest (k : kernel) (ep : Z) : gmap Z Z :=
  default ∅ (k_sets k !! ep).
Definition k_update (k : kernel) (ep : Z) (m : gmap Z Z) : kernel :=
  {| k_sets := <[ep := m]> (k_sets k) |}.

Definition k_ctl (ep : Z) (op : ctl_op) (fd ev : Z) (k : kernel) : kernel * Z :=
  let m := k_interest k ep in
  match op, m !! fd with
  | CTL_ADD, None | CTL_MOD, Some _ => (k_update k ep (<[fd := ev]> m), 0%Z)
  | CTL_DEL, Some _ => (k_update k ep (delete fd m), 0%Z)
  | _, _ => (k, -1)%Z
  end.

#[export] Instance kernel_epoll : Epoll kernel := {
  epoll_ctl := k_ctl;
  interest := k_interest
}.

#[export] Instance kernel_epoll_laws : EpollLaws kernel.
Proof.
  assert (Hup : ∀ k ep m, k_interest (k_update k ep m) ep = m).
  { intros. unfold k_interest, k_update. cbn. by rewrite lookup_insert_eq. }
  split; cbn; unfold k_ctl; intros.
  all: repeat case_match; simplify_eq; rewrite ?Hup; eauto; split; done.
Qed.

Definition kernel0 : kernel := {| k_sets := {[3%Z := {[7%Z := EPOLLIN]}]} |}.
Definition handler7 : EventHandler := {| epoll_fd := 3; events_map := {[7%Z := EPOLLIN]} |}.
Definition handler_new : EventHandler := {| epoll_fd := 3; events_map := ∅ |}.

Lemma handler_new_synced : synced handler_new kernel0.
Proof. split; [done|apply map_empty_subseteq]. Qed.
Lemma handler7_synced : synced handler7 kernel0.
Proof. split; [done|]. apply reflexive_eq. vm_compute. reflexivity. Qed.

Lemma modify_link_synced_witness :
  ∃ h' k' r, modify_link 9 EPOLLOUT handler_new kernel0 = (h', k', r) ∧
  synced h' k' ∧ synced handler7 k' ∧ separate h' handler7 ∧
  (r = 0%Z → find_events 9 h' = EPOLLOUT).
Proof.
  destruct (modify_link 9 EPOLLOUT handler_new kernel0) as [[h' k'] r] eqn:E.
  exists h', k', r. split; [done|].
  apply (modify_link_synced 9 EPOLLOUT handler_new handler7 kernel0 h' k' r);
    [apply handler_new_synced|apply handler7_synced| |done].
  split; [done|apply map_disjoint_empty_l].
Defined.

Lemma unlink_synced_witness :
  ∃ h' k' r, unlink 7 handler7 kernel0 = (h', k', r) ∧
  synced h' k' ∧ find_events 7 h' = 0%Z ∧
  (∀ fd', fd' ≠ 7%Z → find_events fd' h' = find_events fd' handler7).
Proof.
  destruct (unlink 7 handler7 kernel0) as [[h' k'] r] eqn:E.
  exists h', k', r. split; [done|].
  apply (unlink_synced 7 handler7 kernel0 h' k' r); [apply handler7_synced|done].
Defined.

Lemma unlink_all_events_empty_witness :
  ∃ h' k' r, unlink_all_events handler7 kernel0 = (h', k', r) ∧
  r = 0%Z ∧ events_map h' = ∅ ∧ epoll_fd h' = epoll_fd handler7 ∧ dropped handler7 kernel0 k'.
Proof.
  destruct (unlink_all_events handler7 kernel0) as [[h' k'] r] eqn:E.
  exists h', k', r. split; [done|].
  apply (unlink_all_events_empty handler7 kernel0 h' k' r); done.
Defined.

Lemma loop_stops_witness :
  let can (h : nat) (fd ev : Z) (w : nat) := Z.eqb fd (Z.of_nat h) in
  let he (h : nat) (fd ev : Z) (w : nat) := (S w, Nat.eqb h 2) in
  ∃ w l, loop (logged_can can) (logged_event he) [1; 2]
           [WaitEvents [(1, 1); (5, 1); (2, 1); (1, 1)]%Z; WaitError] (0, [])
         = ((w, l), true, [WaitError]) ∧ calls [1; 2] [] l true ∧ w = 2.
Proof.
  intros can he.
  exists 2, [(1, 1%Z, 1%Z, false); (2, 2%Z, 1%Z, true)].
  assert (E : loop (logged_can can) (logged_event he) [1; 2]
           [WaitEvents [(1, 1); (5, 1); (2, 1); (1, 1)]%Z; WaitError] (0, [])
         = ((2, [(1, 1%Z, 1%Z, false); (2, 2%Z, 1%Z, true)]), true, [WaitError]))
    by reflexivity.
  split; [exact E|]. split; [|done]. exact (loop_stops can he _ _ _ _ _ _ _ _ E).
Defined.
