(* ===== verification/Transport.v ===== *)
(** * UDP transport (src/transport/)

    The datagram buffers, reception ([recv_data], [handle_event]),
    transmission ([send_data]) and the binding of the configured addresses
    ([bind_endpoints]).  The socket calls are the interface [Sockets]. *)
From S2P Require Import Prelude.
From S2P Require Import CLib.
From S2P Require Import Exceptions.
From S2P Require Import UriParser.
From S2P Require Import EventLoop.

(** ** Definitions *)

(** [#define MSG_SZ 1024 * 2] *)
Definition MSG_SZ : nat := 2048.

(** The fields of [struct sockaddr_in] the program sets or passes on. *)
Record sockaddr_in : Type := { sin_addr : Z; sin_port : Z }.

Definition zero_sockaddr : sockaddr_in := {| sin_addr := 0; sin_port := 0 |}.

Record ClientInfo : Type := {
  addr : sockaddr_in;
  addr_size : Z;
  recv_fd : Z
}.

#[export] Instance sockaddr_in_eq_dec : EqDecision sockaddr_in.
Proof. solve_decision. Defined.
#[export] Instance ClientInfo_eq_dec : EqDecision ClientInfo.
Proof. solve_decision. Defined.

(** [RecvData]: [data] is the array [char data[MSG_SZ]]. *)
Record RecvData : Type := {
  client_info : ClientInfo;
  data : str;
  length_ : Z
}.

(** A datagram handed to [sendto]: the socket, the peer, the bytes. *)
Record Datagram : Type := { dg_fd : Z; dg_addr : sockaddr_in; dg_data : str }.

#[export] Instance Datagram_eq_dec : EqDecision Datagram.
Proof. solve_decision. Defined.

(** [Transport::send_data]: nothing for a negative descriptor, else one
    [sendto] of the whole buffer. *)
Definition send_data (buf : str) (ci : ClientInfo) : list Datagram :=
  if (recv_fd ci <? 0)%Z then []
  else [{| dg_fd := recv_fd ci; dg_addr := addr ci; dg_data := buf |}].

(** The receiver of the datagrams. *)
Class TransportHandler (S : Type) : Type := {
  on_data_received : RecvData → stM exn S unit
}.

(** socket(2), bind(2), close(2), recvfrom(2), errno(3), inet_addr(3).
    [recvfrom] gives the returned value and what it stored: the received
    bytes, at most the size asked for, and the peer's address. *)
Class Sockets (K : Type) : Type := {
  sys_socket : K → K * Z;
  sys_bind : Z → sockaddr_in → K → K * Z;
  sys_close : Z → K → K;
  sys_recvfrom : Z → nat → K → K * (Z * str * sockaddr_in * Z);
  sys_errno : K → Z;
  inet_addr : str → Z
}.

(** recvfrom(2): the value returned on success is the number of bytes
    stored, and it does not exceed the size of the buffer. *)
Class SocketsLaws (K : Type) `{Sockets K} : Prop := {
  recvfrom_bound fd n k k' ret bytes peer sz :
    sys_recvfrom fd n k = (k', (ret, bytes, peer, sz)) → (0 ≤ ret)%Z →
    ret = Z.of_nat (length bytes) ∧ length bytes ≤ n
}.

Definition EINTR : Z := 4.
Definition EBADF : Z := 9.

(** [htons] of a port, as the number it puts on the wire. *)
Definition htons (port : Z) : Z := u16 port.

Section Transport.
Context {K : Type} `{Epoll K} `{Sockets K}.

Definition init_sock (h : EventHandler) (k : K) : EventHandler * K * Z :=
  let '(k, fd) := sys_socket k in
  if (fd <? 0)%Z then (h, k, fd) else
  let '(h, k, res) := link fd EPOLLIN h k in
  if negb (0 =? res)%Z then (h, sys_close fd k, -1)%Z else (h, k, fd).

(** [bind_sock_to]; [inet_addr] reads a C string, which the array must
    hold. *)
Definition bind_sock_to (fd : Z) (host : str) (port : Z) (k : K) : M (K * Z) :=
  if (fd <? 0)%Z then Ret (k, -1)%Z else
  if bool_decide (NUL ∈ host) then
    Ret (sys_bind fd {| sin_addr := inet_addr (c_str host); sin_port := htons port |} k)
  else Undef.

(** One iteration of the loop over [cfg.bind_urls]; the flag is [binded]. *)
Definition bind_url (url : str) (uri_c : UriComponents) (h : EventHandler) (k : K)
  (binded : bool) : M (UriComponents * EventHandler * K * bool) :=
  '(rc, out) ← parseAddr (Some url) (Some uri_c);
  let uri_c := default uri_c out in
  if (rc =? -1)%Z then mret (uri_c, h, k, binded) else
  if (strlen (proto uri_c) =? 0)%nat then
    let '(h, k, fd) := init_sock h k in
    if (fd <? 0)%Z then mret (uri_c, h, k, binded) else
    '(k, ret) ← bind_sock_to fd (host uri_c) (port uri_c) k;
    if (ret <? 0)%Z then mret (uri_c, h, k, binded)
    else mret (uri_c, h, k, true)
  else mret (uri_c, h, k, binded).

Fixpoint bind_urls_loop (urls : list str) (uri_c : UriComponents) (h : EventHandler)
  (k : K) (binded : bool) : M (EventHandler * K * bool) :=
  match urls with
  | [] => mret (h, k, binded)
  | url :: r =>
      '(uri_c, h, k, binded) ← bind_url url uri_c h k binded;
      bind_urls_loop r uri_c h k binded
  end.

(** [Transport::bind_endpoints]; [uri_c] starts with whatever the stack
    holds. *)
Definition bind_endpoints (bind_urls : list str) (uri_c : UriComponents)
  (h : EventHandler) (k : K) : M (EventHandler * K * Z) :=
  if (length bind_urls =? 0)%nat
  then mthrow (StringExn #"no listen endpoints specified. check your config") else
  '(h, k, binded) ← bind_urls_loop bind_urls uri_c h k false;
  if negb binded then mthrow (StringExn #"can't bind to any url")
  else mret (h, k, 0%Z).

(** [shutdown_endpoints]: every registered descriptor is closed. *)
Definition shutdown_endpoints (h : EventHandler) (k : K) : K * Z :=
  (iterate_events_map (fun fd _ k => sys_close fd k) h k, 0%Z).

(** [Transport::recv_data]: the terminating NUL is written at [data[ret]],
    which must be a byte of the array. *)
Definition recv_data (fd : Z) (out : RecvData) (k : K) : K * M (Z * RecvData) :=
  if (fd <? 0)%Z then (k, Ret (-1, out)%Z) else
  let '(k, (ret, bytes, peer, sz)) := sys_recvfrom fd MSG_SZ k in
  let ci := {| addr := peer; addr_size := sz; recv_fd := fd |} in
  let buf := bytes ++ replicate (MSG_SZ - length bytes) NUL in
  if (0 <? ret)%Z then
    if (ret <? Z.of_nat MSG_SZ)%Z then
      (k, Ret (ret, {| client_info := ci; data := <[Z.to_nat ret := NUL]> buf;
                       length_ := ret |}))
    else (k, Undef)
  else (k, Ret (ret, {| client_info := ci; data := buf; length_ := 0 |})).

End Transport.

(** A state that has the kernel in it. *)
Class HasKernel (W K : Type) : Type := {
  kernel_of : W → K;
  set_kernel : K → W → W
}.

(** The [RecvData] on the stack of [handle_event]. *)
Definition new_RecvData : RecvData :=
  {| client_info := {| addr := zero_sockaddr; addr_size := 0; recv_fd := 0 |};
     data := replicate MSG_SZ NUL; length_ := 0 |}.

(** [Transport::handle_event]: the returned code and the flag [stop]; the
    handler gets the state with the kernel after the reception. *)
Definition handle_event {W K} `{Sockets K} `{!HasKernel W K} `{TransportHandler W}
  (registered : bool) (fd : Z) : stM exn W (Z * bool) := fun w =>
  let '(k, received) := recv_data fd new_RecvData (kernel_of w) in
  let w := set_kernel k w in
  match received with
  | Undef => (w, Undef)
  | Throw e => (w, Throw e)
  | Ret (ret, rd) =>
    if (ret <? 0)%Z then
      if (sys_errno k =? EINTR)%Z then (w, Ret (-1, false)%Z)
      else if (sys_errno k =? EBADF)%Z then (w, Ret (-1, true)%Z)
      else (w, Ret (-1, false)%Z)
    else if registered then (on_data_received rd;; mret (0, false)%Z) w
    else (w, Ret (0, false)%Z)
  end.

(** A received record: a full array whose valid bytes are a proper part of
    it, followed by NULs. *)
Definition wf_RecvData (rd : RecvData) : Prop :=
  length (data rd) = MSG_SZ ∧ (0 ≤ length_ rd < Z.of_nat MSG_SZ)%Z ∧
  data rd !! Z.to_nat (length_ rd) = Some NUL.

(** An address the transport does not bind: rejected by the parser, or with
    a protocol. *)
Definition unsupported (url : str) : Prop :=
  ∀ u, ∃ rc o, parseAddr (Some url) (Some u) = Ret (rc, Some o) ∧
               (rc = (-1)%Z ∨ strlen (proto o) ≠ 0).

(** ** Properties *)

Section Properties.
Context {K : Type} `{Epoll K} `{Sockets K}.

Lemma recv_data_received fd out k k' bytes peer sz :
  (0 ≤ fd)%Z → length bytes ≤ MSG_SZ →
  sys_recvfrom fd MSG_SZ k = (k', (Z.of_nat (length bytes), bytes, peer, sz)) →
  (length bytes < MSG_SZ ∧
   ∃ rd, recv_data fd out k = (k', Ret (Z.of_nat (length bytes), rd)) ∧
     wf_RecvData rd ∧ length_ rd = Z.of_nat (length bytes) ∧
     data rd = bytes ++ replicate (MSG_SZ - length bytes) NUL ∧
     client_info rd = {| addr := peer; addr_size := sz; recv_fd := fd |})
  ∨ (length bytes = MSG_SZ ∧ recv_data fd out k = (k', Undef)).
Proof.
  intros Hfd Hlen Hrecv. unfold recv_data.
  rewrite (proj2 (Z.ltb_ge _ _) Hfd), Hrecv.
  assert (Hget : length bytes < MSG_SZ →
            (bytes ++ replicate (MSG_SZ - length bytes) NUL) !! length bytes = Some NUL).
  { intros. rewrite lookup_app_drop. by destruct (MSG_SZ - length bytes) eqn:E; [lia|]. }
  assert (Hbuf : length (bytes ++ replicate (MSG_SZ - length bytes) NUL) = MSG_SZ).
  { rewrite length_app, length_replicate. lia. }
  destruct (Z.ltb_spec 0 (Z.of_nat (length bytes))) as [Hpos|Hpos].
  - destruct (Z.ltb_spec (Z.of_nat (length bytes)) (Z.of_nat MSG_SZ)) as [Hlt|Hge];
      [left|right; split; [lia|done]].
    assert (length bytes < MSG_SZ) as Hl by lia.
    split; [done|]. eexists. split; [done|]. unfold wf_RecvData. cbn [data length_ client_info].
    rewrite Nat2Z.id, list_insert_id by auto. repeat split; auto; lia.
  - destruct bytes; [|cbn in Hpos; lia]. left. split; [cbn; unfold MSG_SZ; lia|].
    eexists. split; [done|]. unfold wf_RecvData. cbn [data length_ client_info].
    repeat split; auto; cbn; unfold MSG_SZ; lia.
Qed.

(** C37. Reception of a datagram on a valid descriptor.  Fewer than
    [MSG_SZ] bytes: the record is well formed, holds exactly the received
    bytes followed by NULs, and carries the socket and the peer's address.
    A datagram that fills the buffer makes [recv_data] write the
    terminating NUL one byte past the array. *)
Theorem recv_data_spec fd out k k' bytes peer sz :
  (0 ≤ fd)%Z → length bytes ≤ MSG_SZ →
  sys_recvfrom fd MSG_SZ k = (k', (Z.of_nat (length bytes), bytes, peer, sz)) →
  (length bytes < MSG_SZ ∧
   ∃ rd, recv_data fd out k = (k', Ret (Z.of_nat (length bytes), rd)) ∧
     wf_RecvData rd ∧ length_ rd = Z.of_nat (length bytes) ∧
     data rd = bytes ++ replicate (MSG_SZ - length bytes) NUL ∧
     client_info rd = {| addr := peer; addr_size := sz; recv_fd := fd |})
  ∨ (length bytes = MSG_SZ ∧ recv_data fd out k = (k', Undef)).
Proof. apply recv_data_received. Qed.

(** The event loop hands every received datagram to the registered
    handler exactly once and unchanged, hands it nothing when reception
    fails, and is told to stop only when the socket is no longer valid
    ([EBADF]). *)
Theorem handle_event_dispatch {W} `{!HasKernel W K} `{TransportHandler W} reg fd (w w' : W) k' r res stop :
  handle_event reg fd w = (w', Ret (res, stop)) →
  recv_data fd new_RecvData (kernel_of w) = (k', r) →
  (∃ ret rd, r = Ret (ret, rd) ∧ (0 ≤ ret)%Z ∧ stop = false ∧ res = 0%Z ∧
     (if reg then on_data_received rd (set_kernel k' w) = (w', Ret tt) else w' = set_kernel k' w))
  ∨ (∃ ret rd, r = Ret (ret, rd) ∧ (ret < 0)%Z ∧ w' = set_kernel k' w ∧ res = (-1)%Z ∧
     (stop = true ↔ sys_errno k' = EBADF)).
Proof.
  unfold handle_event. intros He Hr. rewrite Hr in He.
  destruct r as [[ret rd]| |]; [|done..].
  destruct (Z.ltb_spec ret 0) as [Hneg|Hpos]; [right|left]; exists ret, rd.
  - destruct (Z.eqb_spec (sys_errno k') EINTR) as [E1|E1].
    + injection He as <- <- <-. rewrite E1. done.
    + destruct (Z.eqb_spec (sys_errno k') EBADF) as [E2|E2];
        injection He as <- <- <-; done.
  - destruct reg; [rewrite stM_bind_eq in He; destruct (on_data_received rd _) as [s1 [[]| |]]|];
      by inversion He.
Qed.

Lemma bind_urls_loop_unsupported urls u h (k : K) :
  Forall unsupported urls → ∃ k', bind_urls_loop urls u h k false = Ret (h, k', false) ∧ k' = k.
Proof.
  intros HF. revert u. induction HF as [|url urls Hu _ IH]; intros u; cbn [bind_urls_loop]; [eauto|].
  destruct (Hu u) as (rc & o & Hp & Hor).
  assert (bind_url url u h k false = Ret (o, h, k, false)) as ->.
  { unfold bind_url. rewrite Hp, bind_Ret. cbn [default from_option id].
    destruct (Z.eqb_spec rc (-1)) as [->|]; [done|].
    destruct Hor as [->|Hne%Nat.eqb_neq]; [done|]. by rewrite Hne. }
  rewrite bind_Ret. apply IH.
Qed.

(** When every configured address is rejected by the parser or names a
    protocol, nothing is bound, no socket is opened, and start-up fails
    with the message the configuration error has. *)
Theorem bind_endpoints_unsupported urls u h (k : K) :
  urls ≠ [] → Forall unsupported urls →
  bind_endpoints urls u h k = Throw (StringExn #"can't bind to any url").
Proof.
  intros Hne HF. unfold bind_endpoints.
  destruct (Nat.eqb_spec (length urls) 0) as [E|_]; [by destruct urls|].
  destruct (bind_urls_loop_unsupported urls u h k HF) as (k' & -> & ->). done.
Qed.
End Properties.

(** ** Witnesses *)

(** A kernel for one socket: the datagrams that wait on it. *)
Record net : Type := { net_epoll : kernel; net_queue : list str; net_errno : Z }.

#[export] Instance net_epoll_inst : Epoll net := {
  epoll_ctl ep op fd ev n :=
    let '(k, r) := k_ctl ep op fd ev (net_epoll n) in
    ({| net_epoll := k; net_queue := net_queue n; net_errno := net_errno n |}, r);
  interest n := k_interest (net_epoll n)
}.

Definition peer0 : sockaddr_in := {| sin_addr := 2130706433; sin_port := 5000 |}.

#[export] Instance net_sockets : Sockets net := {
  sys_socket n := (n, 5%Z);
  sys_bind _ _ n := (n, 0%Z);
  sys_close _ n := n;
  sys_recvfrom _ max n :=
    match net_queue n with
    | [] => ({| net_epoll := net_epoll n; net_queue := []; net_errno := EBADF |},
             (-1, [], zero_sockaddr, 0)%Z)
    | d :: q => ({| net_epoll := net_epoll n; net_queue := q; net_errno := 0 |},
                 (Z.of_nat (length (take max d)), take max d, peer0, 16%Z))
    end;
  sys_errno n := net_errno n;
  inet_addr _ := 0%Z
}.

#[export] Instance net_sockets_laws : SocketsLaws net.
Proof.
  split. cbn. intros fd n k k' ret bytes peer sz.
  destruct (net_queue k) as [|d q]; intros [= <- <- <- <- <-]; [lia|].
  intros _. split; [done|]. rewrite length_take. lia.
Qed.

Definition net0 (q : list str) : net :=
  {| net_epoll := kernel0; net_queue := q; net_errno := 0 |}.

Definition rd0 : RecvData :=
  {| client_info := {| addr := zero_sockaddr; addr_size := 0; recv_fd := 0 |};
     data := replicate MSG_SZ NUL; length_ := 0 |}.

Lemma recv_data_spec_witness :
  let big := replicate 2048 "x"%char in
  (length big = MSG_SZ ∧ ∃ k', recv_data 5 rd0 (net0 [big]) = (k', Undef)) ∧
  ∃ rd k', recv_data 5 rd0 (net0 [ #"abc"]) = (k', Ret (3%Z, rd)) ∧ wf_RecvData rd ∧
           take 3 (data rd) = #"abc".
Proof.
  intros big. split.
  - split; [reflexivity|]. exists (net0 []).
    destruct (recv_data_spec 5 rd0 (net0 [big]) (net0 []) big peer0 16) as [[Hlt _]|[_ E]];
      [lia|by vm_compute|by vm_compute| |exact E].
    exfalso. revert Hlt. unfold big. rewrite length_replicate. unfold MSG_SZ. lia.
  - destruct (recv_data_spec 5 rd0 (net0 [ #"abc"]) (net0 []) #"abc" peer0 16)
      as [[_ (rd & E & Hwf & _ & Hd & _)]|[E _]];
      [lia|by vm_compute; lia|by vm_compute| |discriminate E].
    exists rd, (net0 []). split; [exact E|]. split; [exact Hwf|]. by rewrite Hd.
Defined.

(** The kernel and the number of bytes handed over. *)
#[export] Instance counted_kernel : HasKernel (net * nat) net := {
  kernel_of := fst;
  set_kernel k w := (k, snd w)
}.

#[export] Instance count_handler : TransportHandler (net * nat) := {
  on_data_received rd w := ((fst w, snd w + Z.to_nat (length_ rd)), Ret tt)
}.

Lemma handle_event_dispatch_witness :
  let r := recv_data 5 new_RecvData (net0 [ #"abc"]) in
  let w' := (r.1, 3) in
  (∃ ret rd, r.2 = Ret (ret, rd) ∧ (0 ≤ ret)%Z ∧ false = false ∧ 0%Z = 0%Z ∧
     on_data_received rd (set_kernel r.1 (net0 [ #"abc"], 0)) = (w', Ret tt))
  ∨ (∃ ret rd, r.2 = Ret (ret, rd) ∧ (ret < 0)%Z ∧ w' = set_kernel r.1 (net0 [ #"abc"], 0) ∧ 0%Z = (-1)%Z ∧
     (false = true ↔ sys_errno r.1 = EBADF)).
Proof.
  intros r w'.
  apply (handle_event_dispatch true 5 (net0 [ #"abc"], 0) w' r.1 r.2 0 false); vm_compute; reflexivity.
Defined.

Lemma bind_endpoints_unsupported_witness :
  bind_endpoints [ #"tcp://127.0.0.1:4444"] zero_components handler_new (net0 [])
  = Throw (StringExn #"can't bind to any url").
Proof.
  apply (bind_endpoints_unsupported [ #"tcp://127.0.0.1:4444"] zero_components handler_new);
    [discriminate|].
  repeat constructor. intros u. eexists _, _. split; [reflexivity|]. right. discriminate.
Defined.
