(* ===== verification/Protocol.v ===== *)
(** * Wire protocol (src/resolver/Resolver.cpp, src/resolver/Resolver.h)

    The packed request and reply headers, [ResolverRequest::parse] and the
    [send_*] functions.  The program reads and writes the headers through
    [reinterpret_cast] on a little-endian host; here the fields are read at
    their offsets from the received array. *)
From S2P Require Import Prelude.
From S2P Require Import CLib.
From S2P Require Import Exceptions.
From S2P Require Import Transport.

(** ** Definitions *)

(** *** Data *)

(** [CDriver::SResult_t] *)
Record SResult_t : Type := {
  localRoutingNumber : str;
  localRoutingTag : str;
  rawData : str
}.

Definition empty_result : SResult_t :=
  {| localRoutingNumber := []; localRoutingTag := []; rawData := [] |}.

Record ResolverRequest : Type := {
  req_id : Z;                  (* uint32_t *)
  req_type : Z;                (* int *)
  db_id : Z;               (* int32_t *)
  req_client_info : ClientInfo;
  req_data : str;
  req_start : Z;           (* milliseconds *)
  is_done : bool;
  req_result : SResult_t
}.

(** [ResolverRequest()] at time [now]; the members initialised with -1 are
    an unsigned and two signed integers. *)
Definition new_ResolverRequest (now : Z) : ResolverRequest := {|
  req_id := u32 (-1); req_type := -1; db_id := -1;
  req_client_info := {| addr := zero_sockaddr; addr_size := 0; recv_fd := 0 |};
  req_data := []; req_start := now; is_done := false; req_result := empty_result
|}.

Definition set_client_info (ci : ClientInfo) (r : ResolverRequest) : ResolverRequest :=
  {| req_id := req_id r; req_type := req_type r; db_id := db_id r; req_client_info := ci;
     req_data := req_data r; req_start := req_start r; is_done := is_done r;
     req_result := req_result r |}.
Definition set_header (i d t : Z) (r : ResolverRequest) : ResolverRequest :=
  {| req_id := i; req_type := t; db_id := d; req_client_info := req_client_info r;
     req_data := req_data r; req_start := req_start r; is_done := is_done r;
     req_result := req_result r |}.
Definition set_type (t : Z) (r : ResolverRequest) : ResolverRequest :=
  set_header (req_id r) (db_id r) t r.
Definition set_data (d : str) (r : ResolverRequest) : ResolverRequest :=
  {| req_id := req_id r; req_type := req_type r; db_id := db_id r; req_client_info := req_client_info r;
     req_data := d; req_start := req_start r; is_done := is_done r; req_result := req_result r |}.
Definition set_done (r : ResolverRequest) : ResolverRequest :=
  {| req_id := req_id r; req_type := req_type r; db_id := db_id r; req_client_info := req_client_info r;
     req_data := req_data r; req_start := req_start r; is_done := true;
     req_result := req_result r |}.
Definition set_result (x : SResult_t) (r : ResolverRequest) : ResolverRequest :=
  {| req_id := req_id r; req_type := req_type r; db_id := db_id r; req_client_info := req_client_info r;
     req_data := req_data r; req_start := req_start r; is_done := is_done r; req_result := x |}.

Definition TAGGED_REQ_VERSION : Z := 0.
Definition CNAM_REQ_VERSION : Z := 1.

(** *** Layout of the packed headers *)

(** [hdr_common] is one [uint32_t]; [req_hdr_common] adds two bytes. *)
Definition sizeof_req_hdr_common : Z := 4 + 1 + 1.
Definition sizeof_req_hdr_tagged : Z := 1.
Definition sizeof_req_hdr_cnam : Z := 4.
Definition TAGGED_PDU_HDR_SIZE : Z := sizeof_req_hdr_common + sizeof_req_hdr_tagged.
Definition CNAM_HDR_SIZE : Z := sizeof_req_hdr_common + sizeof_req_hdr_cnam.

(** [reply_hdr_tagged], [reply_hdr_tagged_err], [reply_hdr_cnam]: each member
    is truncated to its width. *)
Definition reply_hdr_tagged (i code data_size lrn_size : Z) : str :=
  le32 i ++ [chr code; chr data_size; chr lrn_size].
Definition reply_hdr_tagged_err (i code desc_size : Z) : str :=
  le32 i ++ [chr code; chr desc_size].
Definition reply_hdr_cnam (i json_size : Z) : str := le32 i ++ le32 json_size.

(** *** [ResolverRequest::parse] *)

Definition invalid_request {A} (what : str) : stM exn ResolverRequest A :=
  mthrow (ResolverError PSQL_INVALID_REQUEST what).

Definition parse (recv_data : RecvData) : stM exn ResolverRequest unit :=
  modify (set_client_info (client_info recv_data));;
  let len := length_ recv_data in
  let mem := data recv_data in
  if (len <? sizeof_req_hdr_common)%Z then invalid_request #"request is too small" else
  i ← lift (read_u32 mem 0);
  d ← lift (read_u8 mem 4);
  t ← lift (read_u8 mem 5);
  modify (set_header i d t);;
  '(data_offset, data_len) ←
    (if (t =? TAGGED_REQ_VERSION)%Z then
       if (len <? TAGGED_PDU_HDR_SIZE)%Z then invalid_request #"request is too small" else
       n ← lift (read_u8 mem 6); mret (TAGGED_PDU_HDR_SIZE, n)
     else if (t =? CNAM_REQ_VERSION)%Z then
       if (len <? CNAM_HDR_SIZE)%Z then invalid_request #"request is too small" else
       n ← lift (read_u32 mem 6); mret (CNAM_HDR_SIZE, n)
     else
       modify (set_type TAGGED_REQ_VERSION);;
       invalid_request #"unknown request type");
  if (len <? u64 (data_offset + data_len))%Z then invalid_request #"malformed request" else
  s ← lift (read_bytes mem (Z.to_nat data_offset) (Z.to_nat data_len));
  modify (set_data s).

(** *** Replies *)

Definition send_provisional_reply (r : ResolverRequest) : list Datagram :=
  send_data (le32 (req_id r)) (req_client_info r).

Definition tagged_reply (r : ResolverRequest) : str :=
  let lrn := localRoutingNumber (req_result r) in
  let tag := localRoutingTag (req_result r) in
  reply_hdr_tagged (req_id r) (error_code NO_ERROR)
    (Z.of_nat (length lrn + length tag)) (Z.of_nat (length lrn)) ++ lrn ++ tag.

Definition send_tagged_reply (r : ResolverRequest) : list Datagram :=
  send_data (tagged_reply r) (req_client_info r).

Definition json_reply (r : ResolverRequest) : str :=
  reply_hdr_cnam (req_id r) (Z.of_nat (length (rawData (req_result r)))) ++ rawData (req_result r).

Definition send_json_reply (r : ResolverRequest) : list Datagram :=
  send_data (json_reply r) (req_client_info r).

Definition send_reply (r : ResolverRequest) : list Datagram :=
  if (req_type r =? TAGGED_REQ_VERSION)%Z then send_tagged_reply r
  else if (req_type r =? CNAM_REQ_VERSION)%Z then send_json_reply r
  else [].

Definition tagged_error_reply (r : ResolverRequest) (code : ECErrorId) (description : str)
  : str :=
  reply_hdr_tagged_err (req_id r) (error_code code) (Z.of_nat (length description))
  ++ description.

Definition send_tagged_error_reply (r : ResolverRequest) (code : ECErrorId)
  (description : str) : list Datagram :=
  send_data (tagged_error_reply r code description) (req_client_info r).

Definition json_error (code : ECErrorId) (status : str) : str :=
  quoted #"{'error':{'code':" ++ to_string (error_code code)
  ++ quoted #",'reason':'" ++ status ++ quoted #"'}}".

Definition json_error_reply (r : ResolverRequest) (code : ECErrorId) (status : str) : str :=
  let json := json_error code status in
  reply_hdr_cnam (req_id r) (Z.of_nat (length json)) ++ json.

Definition send_json_error_reply (r : ResolverRequest) (code : ECErrorId) (status : str)
  : list Datagram :=
  send_data (json_error_reply r code status) (req_client_info r).

Definition send_error_reply (r : ResolverRequest) (code : ECErrorId) (description : str)
  : list Datagram :=
  if (req_type r =? TAGGED_REQ_VERSION)%Z then send_tagged_error_reply r code description
  else if (req_type r =? CNAM_REQ_VERSION)%Z then send_json_error_reply r code description
  else [].

(** ** Specification

    The layouts of the comment above [req_hdr_cominbed], as encoders, and a
    reader of the valid bytes by pattern matching. *)

Definition encode_tagged (i d : Z) (number : str) : str :=
  le32 i ++ [chr d; chr TAGGED_REQ_VERSION; chr (Z.of_nat (length number))] ++ number.

Definition encode_cnam (i d : Z) (json : str) : str :=
  le32 i ++ [chr d; chr CNAM_REQ_VERSION] ++ le32 (Z.of_nat (length json)) ++ json.

Inductive decoded : Type :=
  | DTooShort                        (* not even a common header *)
  | DBadType (i d : Z)               (* a type other than 0 and 1 *)
  | DShortHeader (i d t : Z)         (* the type's header is cut *)
  | DMalformed (i d t : Z)           (* the payload is cut *)
  | DRequest (i d t : Z) (payload : str).

Definition decode_payload (i d t n : Z) (p : str) : decoded :=
  if (n <=? Z.of_nat (length p))%Z then DRequest i d t (take (Z.to_nat n) p)
  else DMalformed i d t.

Definition decode (b : str) : decoded :=
  match b with
  | b0 :: b1 :: b2 :: b3 :: d :: t :: rest =>
      let i := of_le32 b0 b1 b2 b3 in
      if (ord t =? 0)%Z then
        match rest with
        | n :: p => decode_payload i (ord d) (ord t) (ord n) p
        | _ => DShortHeader i (ord d) (ord t)
        end
      else if (ord t =? 1)%Z then
        match rest with
        | n0 :: n1 :: n2 :: n3 :: p =>
            decode_payload i (ord d) (ord t) (of_le32 n0 n1 n2 n3) p
        | _ => DShortHeader i (ord d) (ord t)
        end
      else DBadType i (ord d)
  | _ => DTooShort
  end.

(** What the handler sees of each case: the request and the outcome. *)
Definition parsed (ci : ClientInfo) (r : ResolverRequest) (x : decoded)
  : ResolverRequest * M unit :=
  let r := set_client_info ci r in
  let invalid what := Throw (ResolverError PSQL_INVALID_REQUEST what) in
  match x with
  | DTooShort => (r, invalid #"request is too small")
  | DBadType i d => (set_header i d 0 r, invalid #"unknown request type")
  | DShortHeader i d t => (set_header i d t r, invalid #"request is too small")
  | DMalformed i d t => (set_header i d t r, invalid #"malformed request")
  | DRequest i d t p => (set_data p (set_header i d t r), Ret tt)
  end.

(** A client's reader of a successful tagged reply: the header announces the
    size of the payload, and of the routing number in it. *)
Definition decode_tagged_reply (b : str) : option (Z * Z * str * str) :=
  match b with
  | b0 :: b1 :: b2 :: b3 :: code :: data_size :: lrn_size :: p =>
      if ((ord data_size =? Z.of_nat (length p)) && (ord lrn_size <=? ord data_size))%Z then
        let n := Z.to_nat (ord lrn_size) in
        Some (of_le32 b0 b1 b2 b3, ord code, take n p, drop n p)
      else None
  | _ => None
  end.

(** A client's reader of a tagged error reply. *)
Definition decode_tagged_err (b : str) : option (Z * Z * str) :=
  match b with
  | b0 :: b1 :: b2 :: b3 :: code :: desc_size :: p =>
      if (ord desc_size =? Z.of_nat (length p))%Z
      then Some (of_le32 b0 b1 b2 b3, ord code, p) else None
  | _ => None
  end.

(** A client's reader of a CNAM reply. *)
Definition decode_json_reply (b : str) : option (Z * str) :=
  match b with
  | b0 :: b1 :: b2 :: b3 :: n0 :: n1 :: n2 :: n3 :: p =>
      if (of_le32 n0 n1 n2 n3 =? Z.of_nat (length p))%Z
      then Some (of_le32 b0 b1 b2 b3, p) else None
  | _ => None
  end.

(** ** Lemmas *)

Lemma of_le32_le32 z :
  of_le32 (chr z) (chr (z / 2 ^ 8)) (chr (z / 2 ^ 16)) (chr (z / 2 ^ 24)) = u32 z.
Proof.
  unfold of_le32, u32. rewrite !ord_chr.
  change (2 ^ 8)%Z with 256%Z. change (2 ^ 16)%Z with (256 * 256)%Z.
  change (2 ^ 24)%Z with (256 * 256 * 256)%Z.
  change (2 ^ 32)%Z with (256 * (256 * (256 * 256)))%Z.
  rewrite <- !Z.div_div by lia.
  rewrite (Z.rem_mul_r z 256), (Z.rem_mul_r (z / 256) 256),
    (Z.rem_mul_r (z / 256 / 256) 256) by lia.
  lia.
Qed.

Lemma of_le32_range a b c d : (0 ≤ of_le32 a b c d < 2 ^ 32)%Z.
Proof.
  unfold of_le32. pose proof (ord_range a); pose proof (ord_range b);
    pose proof (ord_range c); pose proof (ord_range d). lia.
Qed.

(** Reads inside the valid prefix of the array see the prefix. *)
Lemma read_u8_prefix {E} v m i c : v !! i = Some c → read_u8 (v ++ m) i = (Ret (ord c) : outcome E Z).
Proof. intros H. unfold read_u8. by rewrite lookup_app_l_Some with (x := c). Qed.

Lemma read_u32_app4 {E} b0 b1 b2 b3 m :
  read_u32 (b0 :: b1 :: b2 :: b3 :: m) 0 = (Ret (of_le32 b0 b1 b2 b3) : outcome E Z).
Proof. unfold read_u32. cbn. by rewrite take_0. Qed.

Lemma u64_sum o n : (0 ≤ o ≤ 10)%Z → (0 ≤ n < 2 ^ 32)%Z → u64 (o + n) = (o + n)%Z.
Proof. intros. unfold u64. apply Z.mod_small. lia. Qed.

Lemma read_payload {E} pre p m n o :
  (0 ≤ n)%Z → o = length pre → (n ≤ Z.of_nat (length p))%Z →
  read_bytes ((pre ++ p) ++ m) o (Z.to_nat n) = (Ret (take (Z.to_nat n) p) : outcome E str).
Proof.
  intros Hn -> Hle. unfold read_bytes. rewrite !length_app.
  destruct (Nat.leb_spec (length pre + Z.to_nat n) (length pre + length p + length m));
    [|lia].
  by rewrite <- app_assoc, drop_app_length, take_app_le by lia.
Qed.

(** The tail of [parse] once the header of the type is known. *)
Definition parse_payload (rd : RecvData) (o n : Z) : stM exn ResolverRequest unit :=
  if (length_ rd <? u64 (o + n))%Z then invalid_request #"malformed request" else
  s ← lift (read_bytes (data rd) (Z.to_nat o) (Z.to_nat n));
  modify (set_data s).

Lemma parse_payload_spec rd pre p m o n i d t r ci :
  data rd = (pre ++ p) ++ m → length_ rd = Z.of_nat (length (pre ++ p)) →
  o = Z.of_nat (length pre) → (o ≤ 10)%Z → (0 ≤ n < 2 ^ 32)%Z →
  parse_payload rd o n (set_header i d t (set_client_info ci r))
  = parsed ci r (decode_payload i d t n p).
Proof.
  intros Hd Hl -> Ho Hn. unfold parse_payload, decode_payload.
  rewrite u64_sum, Hl, length_app by lia.
  destruct (Z.leb_spec n (Z.of_nat (length p))) as [Hle|Hgt].
  - destruct (Z.ltb_spec (Z.of_nat (length pre + length p))
                (Z.of_nat (length pre) + n)) as [|_]; [lia|].
    rewrite lift_bind, Hd, (read_payload pre p m) by lia. done.
  - destruct (Z.ltb_spec (Z.of_nat (length pre + length p))
                (Z.of_nat (length pre) + n)) as [_|]; [done|lia].
Qed.

Lemma parse_decode rd v m r :
  data rd = v ++ m → length_ rd = Z.of_nat (length v) →
  parse rd r = parsed (client_info rd) r (decode v).
Proof.
  intros Hd Hl. unfold parse. rewrite stM_bind_eq. cbn [modify]. cbv zeta.
  destruct v as [|b0 [|b1 [|b2 [|b3 [|d [|t rest]]]]]];
    try (rewrite Hl; reflexivity).
  assert (H0 : read_u32 (data rd) 0 = Ret (of_le32 b0 b1 b2 b3) :> M Z)
    by (rewrite Hd; apply read_u32_app4).
  assert (H4 : read_u8 (data rd) 4 = Ret (ord d) :> M Z) by (by rewrite Hd).
  assert (H5 : read_u8 (data rd) 5 = Ret (ord t) :> M Z) by (by rewrite Hd).
  destruct (Z.ltb_spec (length_ rd) sizeof_req_hdr_common) as [Hs|_].
  { rewrite Hl in Hs. cbn [length] in Hs. unfold sizeof_req_hdr_common in Hs. lia. }
  rewrite lift_bind, H0, lift_bind, H4, lift_bind, H5, stM_bind_eq. cbn [modify decode].
  change TAGGED_REQ_VERSION with 0%Z. change CNAM_REQ_VERSION with 1%Z.
  destruct (ord t =? 0)%Z; [|destruct (ord t =? 1)%Z; [|done]].
  - destruct rest as [|n p]; [by rewrite Hl|].
    assert (H6 : read_u8 (data rd) 6 = Ret (ord n) :> M Z) by (by rewrite Hd).
    destruct (Z.ltb_spec (length_ rd) TAGGED_PDU_HDR_SIZE) as [Hs|_].
    { rewrite Hl in Hs. cbn [length] in Hs. change TAGGED_PDU_HDR_SIZE with 7%Z in Hs. lia. }
    rewrite stM_bind_eq, lift_bind, H6. cbn [mret stM_mret].
    apply (parse_payload_spec rd [b0; b1; b2; b3; d; t; n] p m); try done.
    pose proof (ord_range n). lia.
  - destruct rest as [|n0 [|n1 [|n2 [|n3 p]]]]; try (by rewrite Hl).
    assert (H6 : read_u32 (data rd) 6 = Ret (of_le32 n0 n1 n2 n3) :> M Z)
      by (rewrite Hd; exact (read_u32_app4 n0 n1 n2 n3 (p ++ m))).
    destruct (Z.ltb_spec (length_ rd) CNAM_HDR_SIZE) as [Hs|_].
    { rewrite Hl in Hs. cbn [length] in Hs. change CNAM_HDR_SIZE with 10%Z in Hs. lia. }
    rewrite stM_bind_eq, lift_bind, H6. cbn [mret stM_mret].
    apply (parse_payload_spec rd [b0; b1; b2; b3; d; t; n0; n1; n2; n3] p m); try done.
    apply of_le32_range.
Qed.

(** The received record of a datagram, as [recv_data] builds it. *)
Definition recv_of (ci : ClientInfo) (bytes : str) : RecvData :=
  {| client_info := ci; data := bytes ++ replicate (MSG_SZ - length bytes) NUL;
     length_ := Z.of_nat (length bytes) |}.

Lemma parse_recv_of ci v r : parse (recv_of ci v) r = parsed ci r (decode v).
Proof. by apply (parse_decode (recv_of ci v) v (replicate (MSG_SZ - length v) NUL)). Qed.

(** ** Properties *)

(** C34. On every well-formed record, [parse] behaves as the reader of the
    valid bytes alone: it never reads outside the array, what it stores and
    throws depends on the received bytes only, and every case (short header,
    unknown type, cut payload, complete request) ends in the state and with
    the exception the specification gives. *)
Theorem parse_refines_decode (rd : RecvData) (r : ResolverRequest) :
  wf_RecvData rd →
  parse rd r = parsed (client_info rd) r (decode (take (Z.to_nat (length_ rd)) (data rd))).
Proof.
  intros (Hlen & [Hl0 Hl1] & _). apply (parse_decode rd _ (drop (Z.to_nat (length_ rd)) (data rd))).
  - by rewrite take_drop.
  - rewrite length_take, Hlen. lia.
Qed.

(** C36. A tagged request laid out as documented, with a number of at most
    255 bytes and possibly followed by other bytes, is parsed back: its
    identifier, database, type and number are the ones sent. *)
Theorem parse_encode_tagged ci i d number rest r :
  (0 ≤ i < 2 ^ 32)%Z → (0 ≤ d < 256)%Z → length number < 256 →
  length (encode_tagged i d number ++ rest) < MSG_SZ →
  parse (recv_of ci (encode_tagged i d number ++ rest)) r
  = (set_data number (set_header i d TAGGED_REQ_VERSION (set_client_info ci r)), Ret tt).
Proof.
  intros Hi Hd Hn Hlen. rewrite parse_recv_of.
  unfold encode_tagged. cbn [le32 app decode].
  rewrite of_le32_le32, !ord_chr, u32_small by done.
  change (TAGGED_REQ_VERSION mod 256 =? 0)%Z with true. cbn [andb].
  unfold decode_payload. rewrite !Z.mod_small, length_app by lia.
  destruct (Z.leb_spec (Z.of_nat (length number)) (Z.of_nat (length number + length rest)));
    [|lia].
  by rewrite Nat2Z.id, take_app_length.
Qed.

(** The same for a CNAM request, whose JSON may have any length that
    fits the datagram. *)
Theorem parse_encode_cnam ci i d json rest r :
  (0 ≤ i < 2 ^ 32)%Z → (0 ≤ d < 256)%Z →
  length (encode_cnam i d json ++ rest) < MSG_SZ →
  parse (recv_of ci (encode_cnam i d json ++ rest)) r
  = (set_data json (set_header i d CNAM_REQ_VERSION (set_client_info ci r)), Ret tt).
Proof.
  intros Hi Hd Hlen. rewrite parse_recv_of.
  assert (Z.of_nat (length json) < 2 ^ 32)%Z.
  { unfold encode_cnam in Hlen. rewrite !length_app in Hlen. unfold MSG_SZ in Hlen. lia. }
  unfold encode_cnam. cbn [le32 app decode].
  rewrite !of_le32_le32, !ord_chr, !u32_small by lia.
  change (CNAM_REQ_VERSION mod 256 =? 0)%Z with false.
  change (CNAM_REQ_VERSION mod 256 =? 1)%Z with true.
  unfold decode_payload. rewrite !Z.mod_small, length_app by lia.
  destruct (Z.leb_spec (Z.of_nat (length json)) (Z.of_nat (length json + length rest)));
    [|lia].
  by rewrite Nat2Z.id, take_app_length.
Qed.

(** C35. A client reads the routing number and tag back from a tagged reply
    exactly when together they have at most 255 bytes: the two sizes are
    sent in one byte each, and a longer result is announced modulo 256. *)
Theorem tagged_reply_decodes (r : ResolverRequest) :
  (0 ≤ req_id r < 2 ^ 32)%Z →
  let lrn := localRoutingNumber (req_result r) in
  let tag := localRoutingTag (req_result r) in
  decode_tagged_reply (tagged_reply r) = Some (req_id r, 0%Z, lrn, tag)
  ↔ length lrn + length tag < 256.
Proof.
  intros Hi lrn tag. unfold tagged_reply, reply_hdr_tagged. fold lrn tag.
  cbn [le32 app decode_tagged_reply error_code].
  rewrite of_le32_le32, u32_small, !ord_chr, length_app by done.
  pose proof (Z.mod_pos_bound (Z.of_nat (length lrn + length tag)) 256).
  destruct (Z.eqb_spec (Z.of_nat (length lrn + length tag) mod 256)
              (Z.of_nat (length lrn + length tag))) as [E|E]; cbn [andb].
  - rewrite E, (Z.mod_small (Z.of_nat (length lrn))) by lia.
    destruct (Z.leb_spec (Z.of_nat (length lrn)) (Z.of_nat (length lrn + length tag))); [|lia].
    rewrite Nat2Z.id, take_app_length, drop_app_length. split; [lia|done].
  - split; [done|]. intros Hlt. exfalso. apply E, Z.mod_small. lia.
Qed.

(** A client reads the code and the description of a tagged error
    reply back exactly when the description has at most 255 bytes. *)
Theorem tagged_error_reply_decodes (r : ResolverRequest) code (desc : str) :
  (0 ≤ req_id r < 2 ^ 32)%Z →
  decode_tagged_err (tagged_error_reply r code desc)
  = Some (req_id r, error_code code, desc) ↔ length desc < 256.
Proof.
  intros Hi. unfold tagged_error_reply, reply_hdr_tagged_err.
  cbn [le32 app decode_tagged_err].
  rewrite of_le32_le32, u32_small, !ord_chr by done.
  change (error_code code mod 256)%Z with (u8 (error_code code)). rewrite error_code_u8.
  pose proof (Z.mod_pos_bound (Z.of_nat (length desc)) 256).
  destruct (Z.eqb_spec (Z.of_nat (length desc) mod 256) (Z.of_nat (length desc))) as [E|E].
  - split; [lia|done].
  - split; [done|]. intros Hlt. exfalso. apply E, Z.mod_small. lia.
Qed.

(** A client reads the JSON of a CNAM reply back, successful or not, as
    long as its size fits the 32-bit field. *)
Theorem json_replies_decode (r : ResolverRequest) code (status : str) :
  (0 ≤ req_id r < 2 ^ 32)%Z →
  (Z.of_nat (length (rawData (req_result r))) < 2 ^ 32)%Z →
  (Z.of_nat (length (json_error code status)) < 2 ^ 32)%Z →
  decode_json_reply (json_reply r) = Some (req_id r, rawData (req_result r)) ∧
  decode_json_reply (json_error_reply r code status) = Some (req_id r, json_error code status).
Proof.
  intros Hi H1 H2. unfold json_reply, json_error_reply, reply_hdr_cnam.
  cbn [le32 app decode_json_reply].
  by rewrite !of_le32_le32, !u32_small, !Z.eqb_refl by lia.
Qed.

(** ** Witnesses *)

Definition client0 : ClientInfo := {| addr := peer0; addr_size := 16; recv_fd := 5 |}.
Definition request0 : ResolverRequest := new_ResolverRequest 0.

Lemma wf_recv_of ci v : length v < MSG_SZ → wf_RecvData (recv_of ci v).
Proof.
  intros Hl. unfold wf_RecvData, recv_of. cbn [data length_].
  rewrite length_app, length_replicate, Nat2Z.id, lookup_app_drop.
  split; [lia|]. split; [lia|]. by destruct (MSG_SZ - length v) eqn:E; [lia|].
Qed.

Lemma parse_refines_decode_witness :
  let rd := recv_of client0 (encode_tagged 7 3 #"14846642959") in
  parse rd request0
  = (set_data #"14846642959" (set_header 7 3 0 (set_client_info client0 request0)), Ret tt).
Proof.
  intros rd. rewrite (parse_refines_decode rd request0); [reflexivity|].
  apply wf_recv_of. vm_compute. lia.
Defined.

Lemma parse_encode_tagged_witness :
  parse (recv_of client0 (encode_tagged 4294967295 255 #"123" ++ #"xyz")) request0
  = (set_data #"123" (set_header 4294967295 255 0 (set_client_info client0 request0)), Ret tt).
Proof. apply parse_encode_tagged; vm_compute; intuition (congruence || lia). Defined.

Lemma parse_encode_cnam_witness :
  parse (recv_of client0 (encode_cnam 9 1 #"{}" ++ [])) request0
  = (set_data #"{}" (set_header 9 1 1 (set_client_info client0 request0)), Ret tt).
Proof. apply parse_encode_cnam; vm_compute; intuition (congruence || lia). Defined.

Definition long_result : ResolverRequest :=
  set_result {| localRoutingNumber := replicate 200 "1"%char;
                localRoutingTag := replicate 100 "t"%char; rawData := [] |}
    (set_header 7 3 0 request0).

Lemma tagged_reply_decodes_witness :
  decode_tagged_reply (tagged_reply long_result)
  ≠ Some (7%Z, 0%Z, replicate 200 "1"%char, replicate 100 "t"%char).
Proof.
  intros H. apply (tagged_reply_decodes long_result) in H.
  - vm_compute in H. lia.
  - vm_compute. intuition congruence.
Defined.

Lemma tagged_error_reply_decodes_witness :
  decode_tagged_err (tagged_error_reply long_result GENERAL_ERROR #"no") = Some (7%Z, 1%Z, #"no").
Proof.
  apply (tagged_error_reply_decodes long_result GENERAL_ERROR #"no").
  - vm_compute. intuition congruence.
  - vm_compute. lia.
Defined.

Lemma json_replies_decode_witness :
  let r := set_result {| localRoutingNumber := []; localRoutingTag := [];
                         rawData := quoted #"{'response':{}}" |} (set_header 7 3 1 request0) in
  decode_json_reply (json_reply r) = Some (7%Z, quoted #"{'response':{}}") ∧
  decode_json_reply (json_error_reply r DRIVER_RESOLVING_ERROR #"boom")
  = Some (7%Z, quoted #"{'error':{'code':22,'reason':'boom'}}").
Proof.
  intros r. apply (json_replies_decode r DRIVER_RESOLVING_ERROR #"boom");
    vm_compute; intuition congruence.
Defined.
