(* ===== verification/Driver.v ===== *)
(** * Driver interface (src/drivers/Driver.h, src/resolver/Resolver.h,
    src/drivers/modules/AsyncHttpClient.h)

    What the resolver and the drivers promise to each other: the virtual
    methods of [CDriver], the [ResolverHandler] a driver calls back, the
    factory [CDriver::instantiate], and the HTTP client behind the handler.
    The resolver is proved against these interfaces; the drivers and the HTTP
    client discharge them. *)
From S2P Require Import Prelude.
From S2P Require Import CLib.
From S2P Require Import Exceptions.
From S2P Require Import Transport.
From S2P Require Import Protocol.

(** ** Definitions *)

(** *** HTTP messages *)

(** [enum class ECAuth]: the values of CURLAUTH_NONE and CURLAUTH_BASIC. *)
Inductive ECAuth : Type := AUTH_NONE | AUTH_BASIC.

#[export] Instance ECAuth_eq_dec : EqDecision ECAuth.
Proof. solve_decision. Defined.

(** [struct HttpRequest]; the pointers are C strings or null. *)
Record HttpRequest : Type := {
  hr_id : Z;
  hr_url : option str;
  hr_auth_type : ECAuth;
  hr_login : option str;
  hr_pass : option str;
  hr_verify_ssl : bool;
  hr_timeout_ms : Z;
  hr_headers : list str
}.

#[export] Instance HttpRequest_eq_dec : EqDecision HttpRequest.
Proof. solve_decision. Defined.

Record HttpResponse : Type := {
  resp_id : Z;
  is_success : bool;
  resp_data : str
}.

#[export] Instance HttpResponse_eq_dec : EqDecision HttpResponse.
Proof. solve_decision. Defined.

(** *** Callbacks and virtual methods *)

(** [ResolverHandler::make_http_request]. *)
Class ResolverHandler (S : Type) : Type :=
  make_http_request : ResolverRequest → HttpRequest → stM exn S unit.

(** The public methods of [CDriver] that the resolver calls.  [resolve] works
    on the request it is given and on whatever its handler keeps. *)
Class CDriver (D : Type) : Type := {
  getName : D → str;
  getUniqueId : D → Z;
  getDriverType : D → Z;
  resolve : ∀ {S : Type} `{ResolverHandler S}, D → stM exn (ResolverRequest * S) unit;
  driver_parse : D → str → stM exn ResolverRequest unit
}.

(** [DriverTypeTagged], [DriverTypeCnam] *)
Definition DriverTypeTagged : Z := 0.
Definition DriverTypeCnam : Z := 1.

(** [AsyncHttpClient::make_request] *)
Class HttpClient (H : Type) : Type :=
  make_request : HttpRequest → stM exn H Z.

(** [CDriver::instantiate]: a driver for a database row, a null pointer, or
    an exception; [C] is the static state of the driver classes. *)
Class DriverFactory (D Row C : Type) : Type :=
  instantiate : Row → stM exn C (option D).

(** *** Working on one part of a pair *)

Definition on_fst {E A B X} (m : stM E A X) : stM E (A * B) X :=
  fun ab => let '(a, r) := m (fst ab) in ((a, snd ab), r).
Definition on_snd {E A B X} (m : stM E B X) : stM E (A * B) X :=
  fun ab => let '(b, r) := m (snd ab) in ((fst ab, b), r).

(** [if (handler != nullptr) handler->make_http_request(resolver, request,
    http_request)]: the resolver passes itself, so the pointer is not null. *)
Definition call_handler {S} `{ResolverHandler S} (hr : HttpRequest)
  : stM exn (ResolverRequest * S) unit :=
  fun rs => let '(s, o) := make_http_request (fst rs) hr (snd rs) in ((fst rs, s), o).

(** *** What a driver promises *)

(** The two ways a driver's [resolve] goes: it settles the request by itself,
    without its handler, or its last action is one call of the handler with
    the request still open.  The request keeps its identity. *)
Inductive resolve_shape {S} `{ResolverHandler S} (r : ResolverRequest) (s : S)
  : (ResolverRequest * S) * M unit → Prop :=
  | shape_done r' : is_done r' = true →
      resolve_shape r s ((r', s), Ret tt)
  | shape_failed r' e : resolve_shape r s ((r', s), Throw e)
  | shape_called hr : hr_id hr = req_id r →
      resolve_shape r s (call_handler hr (r, s)).

(** The request seen by the client: who asked, under which number, about
    what. *)
Definition same_request (r r' : ResolverRequest) : Prop :=
  req_id r' = req_id r ∧ req_type r' = req_type r ∧ db_id r' = db_id r ∧
  req_client_info r' = req_client_info r ∧ req_data r' = req_data r ∧
  req_start r' = req_start r.

(** The bodies the laws cover; a printed copy of one stays below the limits
    of the JSON printer. *)
Definition MAX_RESPONSE : Z := 2 ^ 23.

Definition response_fits (data : str) : Prop := (Z.of_nat (length data) < MAX_RESPONSE)%Z.

Class CDriverLaws (D : Type) `{CDriver D} : Prop := {
  driver_type_known d : getDriverType d = DriverTypeTagged ∨ getDriverType d = DriverTypeCnam;
  resolve_shaped {S : Type} `{ResolverHandler S} d r s :
    is_done r = false → resolve_shape r s (resolve d (r, s));
  resolve_same {S : Type} `{ResolverHandler S} d r s :
    same_request r (fst (fst (resolve d (r, s))));
  parse_defined d data r : response_fits data → defined (snd (driver_parse d data r));
  parse_same d data r : response_fits data → same_request r (fst (driver_parse d data r))
}.

(** An HTTP client throws nothing but its own error. *)
Class HttpClientLaws (H : Type) `{HttpClient H} : Prop := {
  make_request_defined hr h : defined (snd (make_request hr h));
  make_request_throws hr h e : snd (make_request hr h) = Throw e → ∃ w, e = HttpError w
}.

(** ** Lemmas *)

Lemma same_request_refl r : same_request r r.
Proof. unfold same_request. repeat split; done. Qed.

Lemma same_request_trans r1 r2 r3 :
  same_request r1 r2 → same_request r2 r3 → same_request r1 r3.
Proof. unfold same_request. intuition congruence. Qed.

#[export] Instance same_request_preorder : PreOrder same_request.
Proof. split; [exact same_request_refl | exact same_request_trans]. Qed.

#[export] Hint Resolve same_request_refl : core.

Lemma same_request_set_done r : same_request r (set_done r).
Proof. by destruct r. Qed.

Lemma same_request_set_result x r : same_request r (set_result x r).
Proof. by destruct r. Qed.

Lemma on_fst_eq {E A B X} (m : stM E A X) (a : A) (b : B) :
  on_fst m (a, b) = ((fst (m a), b), snd (m a)).
Proof. unfold on_fst. cbn. by destruct (m a). Qed.

Lemma on_snd_eq {E A B X} (m : stM E B X) (a : A) (b : B) :
  on_snd m (a, b) = ((a, fst (m b)), snd (m b)).
Proof. unfold on_snd. cbn. by destruct (m b). Qed.

Lemma call_handler_eq {S} `{ResolverHandler S} hr r s :
  call_handler hr (r, s) = ((r, fst (make_http_request r hr s)), snd (make_http_request r hr s)).
Proof. unfold call_handler. cbn. by destruct (make_http_request r hr s). Qed.
