(* ===== verification/Resolver.v ===== *)
(** * Resolver (src/resolver/Resolver.cpp)

    The request lifecycle: a datagram is parsed, acknowledged and handed to a
    driver; a driver settles it at once or leaves it waiting for an HTTP
    response; the response is parsed by the driver and the client is
    answered.  Whatever the process makes visible (datagrams, metrics, cache
    entries) is appended to one trace, in the order of the calls. *)
From S2P Require Import Prelude.
From S2P Require Import CLib.
From S2P Require Import Exceptions.
From S2P Require Import EventLoop.
From S2P Require Import Transport.
From S2P Require Import Protocol.
From S2P Require Import Driver.

(** ** Definitions *)

(** [struct cache_entry] *)
Record cache_entry : Type := {
  database_id : Z;
  dst : str;
  lrn : str;
  ce_data : str;
  tag : str
}.

Definition new_cache_entry (database_id : Z) (dst : str) (r : SResult_t) : cache_entry := {|
  database_id := database_id; dst := dst; lrn := localRoutingNumber r;
  ce_data := rawData r; tag := localRoutingTag r
|}.

(** The calls of [PrometheusExporter] the resolver makes, through the
    methods [CDriver::init_metrics] and [CDriver::requests_*_increment]. *)
Inductive metric_call : Type :=
  | init_metrics (type : str) (i : Z)
  | requests_count_increment (type : str) (i : Z)
  | requests_failed_increment (type : str) (i : Z)
  | requests_finished_increment (type : str) (i time_consumed : Z).

Inductive effect : Type :=
  | Metric (m : metric_call)
  | Send (d : Datagram)
  | CacheSync (e : cache_entry).

Section Resolver.
Context {D H Row C : Type}.
Context `{CDriver D} `{HttpClient H} `{DriverFactory D Row C}.

(** What [make_http_request] works on. *)
Record Waiting : Type := {
  waiting_requests : gmap Z ResolverRequest;
  http_client : H
}.

Record Resolver : Type := {
  mDriversMap : gmap Z D;
  waiting : Waiting;
  statics : C;            (* the static state of the driver classes *)
  trace : list effect
}.

Definition set_drivers (m : gmap Z D) (s : Resolver) : Resolver :=
  {| mDriversMap := m; waiting := waiting s; statics := statics s; trace := trace s |}.
Definition set_waiting (w : Waiting) (s : Resolver) : Resolver :=
  {| mDriversMap := mDriversMap s; waiting := w; statics := statics s; trace := trace s |}.
Definition set_statics (c : C) (s : Resolver) : Resolver :=
  {| mDriversMap := mDriversMap s; waiting := waiting s; statics := c; trace := trace s |}.
Definition add_trace (l : list effect) (s : Resolver) : Resolver :=
  {| mDriversMap := mDriversMap s; waiting := waiting s; statics := statics s;
     trace := trace s ++ l |}.

Abbreviation R := (stM exn (ResolverRequest * Resolver)).

(** Effects of a method called on the request and the resolver. *)
Definition emit (l : list effect) : R unit := on_snd (modify (add_trace l)).
Definition metric (m : metric_call) : R unit := emit [Metric m].

(** [map::emplace]: an entry that is there is kept. *)
Definition emplace {V} (k : Z) (v : V) (m : gmap Z V) : gmap Z V :=
  match m !! k with Some _ => m | None => <[k := v]> m end.

(** [http_client.make_request(http_request);] the value is not used. *)
Definition client_request (http_request : HttpRequest) : stM exn Waiting unit :=
  fun w => let '(h, r) := make_request http_request (http_client w) in
           ({| waiting_requests := waiting_requests w; http_client := h |},
            r ≫= fun _ => Ret tt).

(** [Resolver::make_http_request] *)
Definition resolver_make_http_request (request : ResolverRequest) (http_request : HttpRequest)
  : stM exn Waiting unit :=
  modify (fun w => {| waiting_requests := emplace (req_id request) request (waiting_requests w);
                      http_client := http_client w |});;
  client_request http_request.

#[export] Instance resolver_handler : ResolverHandler Waiting := resolver_make_http_request.

(** A method of the driver runs on the request and the part of the resolver
    its handler reaches. *)
Definition with_waiting {A} (m : stM exn (ResolverRequest * Waiting) A) : R A :=
  fun '(r, s) => let '((r', w), o) := m (r, waiting s) in ((r', set_waiting w s), o).

(** [mDriversMap.find(request.db_id)] and the check of the type. *)
Definition find_driver : R D :=
  '(request, s) ← get;
  match mDriversMap s !! db_id request with
  | None => lift (throw_resolver GENERAL_RESOLVING_ERROR #"unknown database id")
  | Some driver =>
      if negb (getDriverType driver =? req_type request)%Z
      then lift (throw_resolver GENERAL_RESOLVING_ERROR #"request type is unsupported")
      else mret driver
  end.

(** [Resolver::handle_request_is_done]; both callers pass a driver.  The
    duration is of the system clock, in milliseconds. *)
Definition handle_request_is_done (now : Z) (driver : D) : R unit :=
  '(request, _) ← get;
  metric (requests_finished_increment (getName driver) (getUniqueId driver)
            (now - req_start request));;
  when (getDriverType driver =? DriverTypeTagged)%Z
    (emit [CacheSync (new_cache_entry (getUniqueId driver) (req_data request)
                        (req_result request))]);;
  emit (Send <$> send_reply request).

(** The handlers of [Resolver::resolve]. *)
Definition resolve_failed (driver : D) (e : exn) : R unit :=
  metric (requests_failed_increment (getName driver) (getUniqueId driver));;
  lift match e with
       | DriverError what => throw_resolver DRIVER_RESOLVING_ERROR (c_str what)
       | HttpError what => throw_resolver GENERAL_RESOLVING_ERROR (c_str what)
       | _ => throw_resolver GENERAL_RESOLVING_ERROR #"unknown resovling exception"
       end.

(** [Resolver::resolve] *)
Definition resolver_resolve (now : Z) : R unit :=
  driver ← find_driver;
  stM_catch
    (metric (requests_count_increment (getName driver) (getUniqueId driver));;
     with_waiting (resolve driver))
    (resolve_failed driver);;
  '(request, _) ← get;
  if is_done request then handle_request_is_done now driver else mret tt.

(** The handlers of [Resolver::parse_response]. *)
Definition parse_failed (driver : D) (e : exn) : R unit :=
  metric (requests_failed_increment (getName driver) (getUniqueId driver));;
  lift match e with
       | DriverError what => throw_resolver DRIVER_RESOLVING_ERROR (c_str what)
       | _ => throw_resolver GENERAL_RESOLVING_ERROR #"unknown resovling exception"
       end.

(** [Resolver::parse_response] *)
Definition parse_response (now : Z) (response : HttpResponse) : R unit :=
  driver ← find_driver;
  if negb (is_success response) then
    metric (requests_failed_increment (getName driver) (getUniqueId driver));;
    lift (throw_resolver GENERAL_RESOLVING_ERROR (c_str (resp_data response)))
  else
  stM_catch
    (on_fst (driver_parse driver (resp_data response));;
     on_fst (modify set_done))
    (parse_failed driver);;
  '(request, _) ← get;
  if is_done request then handle_request_is_done now driver else mret tt.

(** The handlers of the two entry points: an error reply for a string and
    for a [CResolverError]; any other class goes on. *)
Definition reply_error (e : exn) : R unit :=
  '(request, _) ← get;
  match e with
  | StringExn s => emit (Send <$> send_error_reply request GENERAL_ERROR s)
  | ResolverError code what => emit (Send <$> send_error_reply request code (c_str what))
  | _ => mthrow e
  end.

(** The local [ResolverRequest] of an entry point. *)
Definition with_request (request : ResolverRequest) (m : R unit) : stM exn Resolver unit :=
  fun s => let '((_, s'), o) := m (request, s) in (s', o).

(** [Resolver::on_data_received]; [start] is the clock when the request is
    made, [now] when it is done. *)
Definition resolver_on_data_received (start now : Z) (recv_data : RecvData)
  : stM exn Resolver unit :=
  with_request (new_ResolverRequest start)
    (stM_catch
       (on_fst (parse recv_data);;
        '(request, _) ← get;
        emit (Send <$> send_provisional_reply request);;
        resolver_resolve now)
       reply_error).

(** [Resolver::on_http_response_received] *)
Definition on_http_response_received (now : Z) (response : HttpResponse)
  : stM exn Resolver unit :=
  s ← get;
  match waiting_requests (waiting s) !! resp_id response with
  | None => mret tt
  | Some request =>
      modify (fun s => set_waiting
        {| waiting_requests := delete (resp_id response) (waiting_requests (waiting s));
           http_client := http_client (waiting s) |} s);;
      with_request request (stM_catch (parse_response now response) reply_error)
  end.

(** [CDriver::instantiate], with the metrics of the driver it made. *)
Definition instantiate_driver (row : Row) : stM exn (C * list effect) (option D) :=
  drv ← on_fst (instantiate row);
  match drv with
  | Some d => on_snd (modify (fun l => l ++ [Metric (init_metrics (getName d) (getUniqueId d))]))
  | None => mret tt
  end;;
  mret drv.

(** The loop of [loadResolveDrivers] over the rows of the result; a driver
    whose number is taken is dropped. *)
Fixpoint load_rows (rows : list Row) (dbMap : gmap Z D) : stM exn (C * list effect) (gmap Z D) :=
  match rows with
  | [] => mret dbMap
  | row :: rest =>
      drv ← instantiate_driver row;
      load_rows rest
        match drv with
        | Some drv => emplace (getUniqueId drv) drv dbMap
        | None => dbMap
        end
  end.

(** [Resolver::loadResolveDrivers]: [db] is the connection and the query.
    All exceptions end here; the map is discarded when the result is
    [false]. *)
Definition loadResolveDrivers (db : M (list Row)) : stM exn (C * list effect) (option (gmap Z D)) :=
  stM_catch
    (rows ← lift db;
     dbMap ← load_rows rows ∅;
     mret (Some dbMap))
    (fun _ => mret None).

(** [Resolver::configure] *)
Definition configure (db : M (list Row)) : stM exn Resolver bool :=
  fun s =>
    let '((c, l), o) := loadResolveDrivers db (statics s, []) in
    let s := add_trace l (set_statics c s) in
    match o with
    | Ret (Some dbMap) => (set_drivers dbMap s, Ret true)
    | Ret None => (s, Ret false)
    | Throw e => (s, Throw e)
    | Undef => (s, Undef)
    end.

(** ** The running process

    The dispatcher calls one entry point at a time; SIGHUP swaps the drivers
    under their mutex.  An HTTP response may carry any number.  Between the
    calls the HTTP client works on its own and may come to any state. *)

Inductive event : Type :=
  | Received (start now : Z) (d : RecvData)
  | Responded (now : Z) (r : HttpResponse)
  | Reconfigured (db : M (list Row))
  | Progressed (h : H).

(** The HTTP client is an object of its own; the resolver finds it as it is. *)
Definition set_client (h : H) (s : Resolver) : Resolver :=
  set_waiting {| waiting_requests := waiting_requests (waiting s); http_client := h |} s.

Definition run_event (e : event) : stM exn Resolver unit :=
  match e with
  | Received start now d => resolver_on_data_received start now d
  | Responded now r => on_http_response_received now r
  | Reconfigured db => configure db;; mret tt
  | Progressed h => modify (set_client h)
  end.

(** What the transport delivers: a record [recv_data] filled, from an open
    descriptor.  What the HTTP client delivers: a body of less than 8 MiB. *)
Definition wf_event (e : event) : Prop :=
  match e with
  | Received _ _ d => wf_RecvData d ∧ (0 ≤ recv_fd (client_info d))%Z
  | Responded _ r => response_fits (resp_data r)
  | Reconfigured _ | Progressed _ => True
  end.

Inductive step : Resolver → event → Resolver → Prop :=
  | step_event s e s' : wf_event e → run_event e s = (s', Ret tt) → step s e s'.

(** The states after a sequence of events. *)
Inductive run (s0 : Resolver) : list event → Resolver → Prop :=
  | run_nil : run s0 [] s0
  | run_snoc es e s s' : run s0 es s → step s e s' → run s0 (es ++ [e]) s'.

(** The state after [Resolver()]. *)
Definition new_Resolver (h : H) (c : C) : Resolver := {|
  mDriversMap := ∅; waiting := {| waiting_requests := ∅; http_client := h |};
  statics := c; trace := []
|}.

End Resolver.
