(* ===== verification/ResolverExec.v ===== *)
(** * Execution of the resolver

    How each entry point of Resolver.v runs on an arbitrary state, case by
    case.  Every later property is read off these lemmas. *)
From S2P Require Import Prelude.
From S2P Require Import CLib.
From S2P Require Import Exceptions.
From S2P Require Import EventLoop.
From S2P Require Import Transport.
From S2P Require Import Protocol.
From S2P Require Import Driver.
From S2P Require Import Resolver.

(** ** Definitions *)

(** What handling a settled request makes visible. *)
Definition done_effects {D} `{CDriver D} (now : Z) (d : D) (r : ResolverRequest) : list effect :=
  Metric (requests_finished_increment (getName d) (getUniqueId d) (now - req_start r))
  :: (if (getDriverType d =? DriverTypeTagged)%Z
      then [CacheSync (new_cache_entry (getUniqueId d) (req_data r) (req_result r))] else [])
  ++ (Send <$> send_reply r).

Definition count_metric {D} `{CDriver D} (d : D) : effect :=
  Metric (requests_count_increment (getName d) (getUniqueId d)).
Definition count_metric_call {D} `{CDriver D} (d : D) : metric_call :=
  requests_count_increment (getName d) (getUniqueId d).
Definition failed_metric {D} `{CDriver D} (d : D) : effect :=
  Metric (requests_failed_increment (getName d) (getUniqueId d)).

Section Exec.
Context {D H Row C : Type}.
Context `{!CDriver D, !CDriverLaws D, !HttpClient H, !HttpClientLaws H, !DriverFactory D Row C}.
Abbreviation St := (@Resolver D H C).

(** The state with one more request waiting, and the HTTP client as the
    request left it. *)
Definition put_waiting (r : ResolverRequest) (h : H) (s : St) : St :=
  set_waiting {| waiting_requests := emplace (req_id r) r (waiting_requests (waiting s));
                 http_client := h |} s.

(** No driver takes the request, and what the client is told. *)
Definition no_driver (drivers : gmap Z D) (r : ResolverRequest) (what : str) : Prop :=
  what = #"unknown database id" ∧ drivers !! db_id r = None ∨
  what = #"request type is unsupported" ∧
    ∃ d, drivers !! db_id r = Some d ∧ getDriverType d ≠ req_type r.

(** The outcomes of [resolver_resolve] for an open request. *)
Inductive resolved (now : Z) (r : ResolverRequest) (s : St)
  : (ResolverRequest * St) * M unit → Prop :=
  | resolved_no_driver what :
      no_driver (mDriversMap s) r what →
      resolved now r s ((r, s), Throw (ResolverError GENERAL_RESOLVING_ERROR what))
  | resolved_done d r' :
      mDriversMap s !! db_id r = Some d → getDriverType d = req_type r →
      is_done r' = true → same_request r r' →
      resolved now r s ((r', add_trace (count_metric d :: done_effects now d r') s), Ret tt)
  | resolved_failed d r' code what :
      mDriversMap s !! db_id r = Some d → getDriverType d = req_type r →
      same_request r r' →
      resolved now r s ((r', add_trace [count_metric d; failed_metric d] s),
                        Throw (ResolverError code what))
  | resolved_waiting d hr h ret :
      mDriversMap s !! db_id r = Some d → getDriverType d = req_type r →
      make_request hr (http_client (waiting s)) = (h, Ret ret) → hr_id hr = req_id r →
      resolved now r s ((r, add_trace [count_metric d] (put_waiting r h s)), Ret tt)
  | resolved_refused d hr h what :
      mDriversMap s !! db_id r = Some d → getDriverType d = req_type r →
      make_request hr (http_client (waiting s)) = (h, Throw (HttpError what)) →
      hr_id hr = req_id r →
      resolved now r s ((r, add_trace [count_metric d; failed_metric d] (put_waiting r h s)),
                        Throw (ResolverError GENERAL_RESOLVING_ERROR (c_str what))).

(** The outcomes of [parse_response]. *)
Inductive responded (now : Z) (r : ResolverRequest) (s : St)
  : (ResolverRequest * St) * M unit → Prop :=
  | responded_no_driver what :
      no_driver (mDriversMap s) r what →
      responded now r s ((r, s), Throw (ResolverError GENERAL_RESOLVING_ERROR what))
  | responded_done d r' :
      mDriversMap s !! db_id r = Some d → getDriverType d = req_type r →
      same_request r r' →
      responded now r s ((r', add_trace (done_effects now d r') s), Ret tt)
  | responded_failed d r' code what :
      mDriversMap s !! db_id r = Some d → getDriverType d = req_type r →
      same_request r r' →
      responded now r s ((r', add_trace [failed_metric d] s), Throw (ResolverError code what)).

(** The effects of an accepted request and the requests that wait after it;
    the error replies are included. *)
Inductive served (now : Z) (r : ResolverRequest) (s : St)
  : list effect → gmap Z ResolverRequest → Prop :=
  | served_no_driver what :
      no_driver (mDriversMap s) r what →
      served now r s (Send <$> send_error_reply r GENERAL_RESOLVING_ERROR (c_str what))
        (waiting_requests (waiting s))
  | served_done d r' :
      mDriversMap s !! db_id r = Some d → getDriverType d = req_type r →
      same_request r r' →
      served now r s (count_metric d :: done_effects now d r') (waiting_requests (waiting s))
  | served_failed d r' code what :
      mDriversMap s !! db_id r = Some d → getDriverType d = req_type r →
      same_request r r' →
      served now r s
        (count_metric d :: failed_metric d :: (Send <$> send_error_reply r' code (c_str what)))
        (waiting_requests (waiting s))
  | served_waiting d :
      mDriversMap s !! db_id r = Some d → getDriverType d = req_type r →
      served now r s [count_metric d] (emplace (req_id r) r (waiting_requests (waiting s)))
  | served_refused d hr h code what :
      mDriversMap s !! db_id r = Some d → getDriverType d = req_type r →
      make_request hr (http_client (waiting s)) = (h, Throw (HttpError what)) →
      served now r s
        (count_metric d :: failed_metric d ::
           (Send <$> send_error_reply r code (c_str (c_str what))))
        (emplace (req_id r) r (waiting_requests (waiting s))).

(** The effects of the response a waiting request was waiting for. *)
Inductive finished (now : Z) (r : ResolverRequest) (s : St) : list effect → Prop :=
  | finished_no_driver what :
      no_driver (mDriversMap s) r what →
      finished now r s (Send <$> send_error_reply r GENERAL_RESOLVING_ERROR (c_str what))
  | finished_done d r' :
      mDriversMap s !! db_id r = Some d → getDriverType d = req_type r →
      same_request r r' →
      finished now r s (done_effects now d r')
  | finished_failed d r' code what :
      mDriversMap s !! db_id r = Some d → getDriverType d = req_type r →
      same_request r r' →
      finished now r s (failed_metric d :: (Send <$> send_error_reply r' code (c_str what))).

(** The states an entry point reaches: the drivers and the static state are
    untouched, the trace grows. *)
Definition continues (s : St) (l : list effect) (P : gmap Z ResolverRequest) (s' : St) : Prop :=
  mDriversMap s' = mDriversMap s ∧ statics s' = statics s ∧
  trace s' = trace s ++ l ∧ waiting_requests (waiting s') = P.

(** The HTTP client refuses the request of a driver that asks it. *)
Definition refuses (r : ResolverRequest) (s : St) (d : D) (hr : HttpRequest) (h : H) (what : str) : Prop :=
  mDriversMap s !! db_id r = Some d ∧ getDriverType d = req_type r ∧
  resolve d (r, waiting s) = call_handler hr (r, waiting s) ∧
  make_request hr (http_client (waiting s)) = (h, Throw (HttpError what)).

(** ** Lemmas *)

Lemma add_trace_add l1 l2 (s : St) : add_trace l2 (add_trace l1 s) = add_trace (l1 ++ l2) s.
Proof. destruct s. unfold add_trace. cbn. by rewrite <- app_assoc. Qed.

Lemma add_trace_nil (s : St) : add_trace [] s = s.
Proof. destruct s. unfold add_trace. cbn. by rewrite app_nil_r. Qed.

Lemma set_waiting_add_trace w l (s : St) :
  set_waiting w (add_trace l s) = add_trace l (set_waiting w s).
Proof. by destruct s. Qed.

Lemma set_waiting_self (s : St) : set_waiting (waiting s) s = s.
Proof. by destruct s. Qed.

Lemma emit_eq l r (s : St) :
  emit (H:=H) (C:=C) l (r, s) = ((r, add_trace l s), Ret tt).
Proof. reflexivity. Qed.

Lemma handle_request_is_done_eq now d r (s : St) :
  handle_request_is_done now d (r, s) = ((r, add_trace (done_effects now d r) s), Ret tt).
Proof.
  unfold handle_request_is_done, done_effects, metric, when.
  rewrite stM_bind_eq. cbn [get fst snd]. rewrite stM_bind_eq, emit_eq, stM_bind_eq.
  destruct (getDriverType d =? DriverTypeTagged)%Z.
  - by rewrite !emit_eq, !add_trace_add.
  - cbn [mret stM_mret]. by rewrite emit_eq, add_trace_add.
Qed.

Lemma find_driver_cases r (s : St) :
  (∃ d, mDriversMap s !! db_id r = Some d ∧ getDriverType d = req_type r ∧
     find_driver (r, s) = ((r, s), Ret d))
  ∨ (∃ what, find_driver (r, s) = ((r, s), Throw (ResolverError GENERAL_RESOLVING_ERROR what)) ∧
      no_driver (mDriversMap s) r what).
Proof.
  unfold find_driver. rewrite stM_bind_eq. cbn [get].
  destruct (mDriversMap s !! db_id r) as [d|] eqn:E.
  - destruct (Z.eqb_spec (getDriverType d) (req_type r)) as [Ht|Ht]; cbn [negb].
    + left. exists d. done.
    + right. eexists. split; [reflexivity|]. right. eauto.
  - right. eexists. split; [reflexivity|]. by left.
Qed.

Lemma resolve_failed_eq d e r (s : St) :
  ∃ code what, resolve_failed d e (r, s)
    = ((r, add_trace [failed_metric d] s), Throw (ResolverError code what)) ∧
  (∀ w, e = HttpError w → code = GENERAL_RESOLVING_ERROR ∧ what = c_str w).
Proof.
  unfold resolve_failed, metric. rewrite stM_bind_eq, emit_eq.
  destruct e; eexists _, _; (split; [reflexivity|]); intros ? [=]; subst; done.
Qed.

Lemma parse_failed_eq d e r (s : St) :
  ∃ code what, parse_failed d e (r, s)
    = ((r, add_trace [failed_metric d] s), Throw (ResolverError code what)).
Proof.
  unfold parse_failed, metric. rewrite stM_bind_eq, emit_eq.
  destruct e; eexists _, _; reflexivity.
Qed.

Lemma reply_error_eq code what r (s : St) :
  reply_error (ResolverError code what) (r, s)
  = ((r, add_trace (Send <$> send_error_reply r code (c_str what)) s), Ret tt).
Proof. reflexivity. Qed.

(** The handler, as the driver calls it. *)
Lemma make_http_request_eq r hr (w : @Waiting H) :
  make_http_request r hr w
  = ({| waiting_requests := emplace (req_id r) r (waiting_requests w);
        http_client := fst (make_request hr (http_client w)) |},
     snd (make_request hr (http_client w)) ≫= fun _ => Ret tt).
Proof.
  unfold make_http_request, resolver_handler, resolver_make_http_request, client_request.
  rewrite stM_bind_eq. cbn. by destruct (make_request hr (http_client w)).
Qed.

Lemma with_waiting_eq {A} (m : stM exn (ResolverRequest * @Waiting H) A) r (s : St) :
  with_waiting m (r, s)
  = ((fst (fst (m (r, waiting s))), set_waiting (snd (fst (m (r, waiting s)))) s),
     snd (m (r, waiting s))).
Proof. unfold with_waiting. by destruct (m (r, waiting s)) as [[r' w] o]. Qed.

(** The guarded part of [resolver_resolve]. *)
Lemma guarded_resolve_cases now d r (s : St) :
  mDriversMap s !! db_id r = Some d → getDriverType d = req_type r → is_done r = false →
  let x := stM_catch (metric (count_metric_call d);; with_waiting (resolve d))
             (resolve_failed d) (r, s) in
  (∃ r', is_done r' = true ∧ same_request r r' ∧
     x = ((r', add_trace [count_metric d] s), Ret tt))
  ∨ (snd x = Ret tt ∧ fst (fst x) = r ∧ resolved now r s x)
  ∨ (∃ e, snd x = Throw e ∧ resolved now r s x).
Proof.
  intros Hd Ht Hopen. cbv zeta. unfold stM_catch, metric.
  rewrite stM_bind_eq, emit_eq, with_waiting_eq. change (Metric (count_metric_call d)) with (count_metric d).
  change (waiting (add_trace [count_metric d] s)) with (waiting s).
  pose proof (resolve_shaped d r (waiting s) Hopen) as Hsh.
  pose proof (resolve_same d r (waiting s)) as Hsame.
  inversion Hsh as [r' Hr' Hx | r' e Hx | hr Hhr Hx].
  - left. exists r'. rewrite <- Hx in Hsame. cbn [fst snd] in *.
    by rewrite set_waiting_add_trace, set_waiting_self.
  - right; right. rewrite <- Hx in Hsame. cbn [fst snd] in *.
    rewrite set_waiting_add_trace, set_waiting_self.
    destruct (resolve_failed_eq d e r' (add_trace [count_metric d] s)) as (code & what & -> & _).
    rewrite add_trace_add. eexists; split; [reflexivity|]. by apply resolved_failed.
  - right. rewrite <- Hx in Hsame. rewrite call_handler_eq, make_http_request_eq in *.
    cbn [fst snd http_client waiting_requests] in *.
    rewrite set_waiting_add_trace. fold (put_waiting r (fst (make_request hr (http_client (waiting s)))) s).
    destruct (make_request hr (http_client (waiting s))) as [h [ret|e|]] eqn:E.
    + left. repeat split. cbn. by apply (resolved_waiting now r s d hr h ret).
    + right. cbn [fst snd outcome_bind mbind outcome_mbind].
      destruct (make_request_throws hr (http_client (waiting s)) e) as [w ->]; [by rewrite E|].
      destruct (resolve_failed_eq d (HttpError w) r (add_trace [count_metric d] (put_waiting r h s)))
        as (code & what & -> & Hc).
      destruct (Hc w eq_refl) as [-> ->]. rewrite add_trace_add.
      eexists; split; [reflexivity|]. by apply (resolved_refused now r s d hr h w).
    + exfalso. apply (make_request_defined hr (http_client (waiting s))). by rewrite E.
Qed.

Lemma resolver_resolve_cases now r (s : St) :
  is_done r = false → resolved now r s (resolver_resolve now (r, s)).
Proof.
  intros Hopen. unfold resolver_resolve. rewrite stM_bind_eq.
  destruct (find_driver_cases r s) as [(d & Hd & Ht & ->)|(what & -> & Hno)]; [|by apply resolved_no_driver].
  rewrite stM_bind_eq.
  pose proof (guarded_resolve_cases now d r s Hd Ht Hopen) as G. cbv zeta in G.
  destruct (stM_catch _ _ _) as [[r' s'] o].
  destruct G as [(r1 & Hdone & Hs & [= -> -> ->])|[(Ho & Hr & Hx)|(e & Ho & Hx)]]; cbn in *.
  - rewrite stM_bind_eq. cbn [get fst snd]. rewrite Hdone, handle_request_is_done_eq, add_trace_add.
    by apply resolved_done.
  - subst. rewrite stM_bind_eq. cbn [get fst snd]. by rewrite Hopen.
  - by subst.
Qed.

Lemma parse_response_cases now resp r (s : St) :
  response_fits (resp_data resp) → responded now r s (parse_response now resp (r, s)).
Proof.
  intros Hfits.
  unfold parse_response. rewrite stM_bind_eq.
  destruct (find_driver_cases r s) as [(d & Hd & Ht & ->)|(what & -> & Hno)];
    [|by apply responded_no_driver].
  destruct (is_success resp); cbn [negb].
  - rewrite stM_bind_eq. unfold stM_catch. rewrite stM_bind_eq, on_fst_eq.
    pose proof (parse_same d (resp_data resp) r Hfits) as Hs.
    pose proof (parse_defined d (resp_data resp) r Hfits) as Hdef.
    destruct (driver_parse d (resp_data resp) r) as [r' [[]|e|]]; cbn [fst snd] in *; [| |done].
    + rewrite on_fst_eq. cbn [modify fst snd]. rewrite stM_bind_eq. cbn [get fst snd is_done set_done].
      rewrite handle_request_is_done_eq. apply responded_done; [done..|].
      etrans; [exact Hs|apply same_request_set_done].
    + destruct (parse_failed_eq d e r' s) as (code & what & ->). by apply responded_failed.
  - unfold metric. rewrite stM_bind_eq, emit_eq.
    apply (responded_failed now r s d r); done.
Qed.

Lemma continues_add_trace l (s : St) : continues s l (waiting_requests (waiting s)) (add_trace l s).
Proof. done. Qed.

Lemma continues_set_waiting l w (s : St) :
  continues s l (waiting_requests w) (add_trace l (set_waiting w s)).
Proof. done. Qed.

Lemma continues_put l r h (s : St) :
  continues s l (emplace (req_id r) r (waiting_requests (waiting s)))
    (add_trace l (put_waiting r h s)).
Proof. done. Qed.

Lemma continues_prepend l1 l2 P (s s' : St) :
  continues (add_trace l1 s) l2 P s' → continues s (l1 ++ l2) P s'.
Proof. intros (H1 & H2 & H3 & H4). repeat split; try done. by rewrite H3, app_assoc. Qed.

(** A request resolved, with the handlers of the entry point around it. *)
Lemma guarded_request_cases now r (s : St) :
  is_done r = false →
  ∃ r' s' l P, stM_catch (resolver_resolve now) reply_error (r, s) = ((r', s'), Ret tt) ∧
    continues s l P s' ∧ served now r s l P.
Proof.
  intros Hopen. unfold stM_catch.
  pose proof (resolver_resolve_cases now r s Hopen) as Hx.
  inversion Hx as [what Hno Hw|d r' Hd Ht Hdone Hs Hw|d r' code what Hd Ht Hs Hw
                  |d hr h ret Hd Ht Hm Hi Hw|d hr h what Hd Ht Hm Hi Hw];
    rewrite ?reply_error_eq, ?add_trace_add; eexists _, _, _, _;
    (split; [reflexivity|split; [first [apply continues_add_trace|apply continues_put]|]]).
  - by apply served_no_driver.
  - by apply served_done.
  - by apply (served_failed now r s d r' code what).
  - by apply served_waiting.
  - by apply (served_refused now r s d hr h).
Qed.

Lemma with_request_eq r m (s : St) :
  with_request r m s = (snd (fst (m (r, s))), snd (m (r, s))).
Proof. unfold with_request. by destruct (m (r, s)) as [[r' s'] o]. Qed.

Lemma stM_catch_bind {E S A B} (m : stM E S A) (f : A → stM E S B) h s s' a :
  m s = (s', Ret a) → stM_catch (m ≫= f) h s = stM_catch (f a) h s'.
Proof. intros Hm. unfold stM_catch. by rewrite (stM_bind_Ret m f s s' a). Qed.

(** [on_data_received] on a datagram whose valid bytes are [v]. *)
Lemma on_data_received_cases start now rd v m (s : St) :
  data rd = v ++ m → length_ rd = Z.of_nat (length v) →
  let p := parsed (client_info rd) (new_ResolverRequest start) (decode v) in
  ∃ s' l P, resolver_on_data_received start now rd s = (s', Ret tt) ∧ continues s l P s' ∧
    ((∃ what, snd p = Throw (ResolverError PSQL_INVALID_REQUEST what) ∧
        l = (Send <$> send_error_reply (fst p) PSQL_INVALID_REQUEST (c_str what)) ∧
        P = waiting_requests (waiting s))
     ∨ (snd p = Ret tt ∧
        ∃ l', l = (Send <$> send_provisional_reply (fst p)) ++ l' ∧
          served now (fst p) (add_trace (Send <$> send_provisional_reply (fst p)) s) l' P)).
Proof.
  intros Hd Hl p. unfold resolver_on_data_received. rewrite with_request_eq.
  assert (Hp : on_fst (parse rd) (new_ResolverRequest start, s) = ((fst p, s), snd p)).
  { rewrite on_fst_eq, (parse_decode rd v m) by done. reflexivity. }
  assert (Hopen : is_done (fst p) = false) by (unfold p; by destruct (decode v)).
  assert (Hr : snd p = Ret tt ∨ ∃ what, snd p = Throw (ResolverError PSQL_INVALID_REQUEST what)).
  { unfold p. destruct (decode v); cbn; eauto. }
  destruct p as [r o]. cbn [fst snd] in *. destruct Hr as [->|[what ->]].
  - rewrite (stM_catch_bind _ _ _ _ _ _ Hp).
    rewrite (stM_catch_bind _ _ _ (r, s) (r, s) (r, s) eq_refl). cbn [fst].
    rewrite (stM_catch_bind _ _ _ _ _ _ (emit_eq _ _ _)).
    destruct (guarded_request_cases now r (add_trace (Send <$> send_provisional_reply r) s) Hopen)
      as (r' & s' & l & P & -> & Hc & Hs).
    exists s', ((Send <$> send_provisional_reply r) ++ l), P. split; [done|].
    split; [by apply continues_prepend|]. right. eauto.
  - unfold stM_catch. rewrite (stM_bind_Throw _ _ _ _ _ Hp), reply_error_eq.
    eexists _, _, _. split; [reflexivity|]. split; [apply continues_add_trace|]. eauto.
Qed.

Lemma refused_resolve now r d hr h what (s : St) :
  refuses r s d hr h what →
  resolver_resolve now (r, s)
  = ((r, add_trace [count_metric d; failed_metric d] (put_waiting r h s)),
     Throw (ResolverError GENERAL_RESOLVING_ERROR (c_str what))).
Proof.
  intros (Hd & Ht & Hc & Hm). unfold resolver_resolve.
  assert (Hf : find_driver (r, s) = ((r, s), Ret d)).
  { destruct (find_driver_cases r s) as [(d' & Hd' & _ & E)|(what' & _ & [[_ Hn]|[_ (d' & Hd' & Hn)]])]; congruence. }
  rewrite (stM_bind_Ret _ _ _ _ _ Hf), stM_bind_eq. unfold stM_catch, metric.
  rewrite stM_bind_eq, emit_eq, with_waiting_eq. change (Metric _) with (count_metric d).
  change (waiting (add_trace [count_metric d] s)) with (waiting s).
  rewrite Hc, call_handler_eq, make_http_request_eq, Hm. cbn [fst snd outcome_bind mbind outcome_mbind].
  rewrite set_waiting_add_trace. change (set_waiting _ s) with (put_waiting r h s).
  destruct (resolve_failed_eq d (HttpError what) r (add_trace [count_metric d] (put_waiting r h s)))
    as (code & what' & -> & Hw).
  destruct (Hw what eq_refl) as [-> ->]. by rewrite add_trace_add.
Qed.

(** [on_data_received] then files the request and tells its client of the
    error. *)
Lemma refused_request start now rd v m r d hr h what (s : St) :
  data rd = v ++ m → length_ rd = Z.of_nat (length v) →
  parsed (client_info rd) (new_ResolverRequest start) (decode v) = (r, Ret tt) →
  refuses r s d hr h what →
  resolver_on_data_received start now rd s
  = (add_trace ((Send <$> send_provisional_reply r) ++
       count_metric d :: failed_metric d ::
         (Send <$> send_error_reply r GENERAL_RESOLVING_ERROR (c_str (c_str what))))
       (put_waiting r h s), Ret tt).
Proof.
  intros Hd Hl Hp Hr. unfold resolver_on_data_received. rewrite with_request_eq.
  assert (Hps : on_fst (parse rd) (new_ResolverRequest start, s) = ((r, s), Ret tt))
    by (by rewrite on_fst_eq, (parse_decode rd v m), Hp by done).
  rewrite (stM_catch_bind _ _ _ _ _ _ Hps), (stM_catch_bind _ _ _ (r, s) (r, s) (r, s) eq_refl). cbn [fst].
  rewrite (stM_catch_bind _ _ _ _ _ _ (emit_eq _ _ _)). unfold stM_catch.
  rewrite (refused_resolve now r d hr h what) by exact Hr.
  rewrite reply_error_eq. cbn [fst snd].
  change (put_waiting r h (add_trace (Send <$> send_provisional_reply r) s))
    with (add_trace (Send <$> send_provisional_reply r) (put_waiting r h s)).
  by rewrite !add_trace_add.
Qed.

(** [on_http_response_received] *)
Lemma on_http_response_cases now resp (s : St) :
  response_fits (resp_data resp) →
  ∃ s' l P, on_http_response_received now resp s = (s', Ret tt) ∧ continues s l P s' ∧
    match waiting_requests (waiting s) !! resp_id resp with
    | None => s' = s ∧ l = [] ∧ P = waiting_requests (waiting s)
    | Some r => P = delete (resp_id resp) (waiting_requests (waiting s)) ∧ finished now r s l
    end.
Proof.
  intros Hfits. unfold on_http_response_received. rewrite stM_bind_eq. cbn [get].
  destruct (waiting_requests (waiting s) !! resp_id resp) as [r|].
  2: { exists s, [], (waiting_requests (waiting s)). repeat split; by rewrite app_nil_r. }
  rewrite stM_bind_eq. cbn [modify]. rewrite with_request_eq. unfold stM_catch.
  set (s1 := set_waiting _ s).
  pose proof (parse_response_cases now resp r s1 Hfits) as Hx.
  inversion Hx as [what Hn Hw|d r' Hd Ht Hs Hw|d r' code what Hd Ht Hs Hw];
    rewrite ?reply_error_eq, ?add_trace_add; cbn [fst snd]; eexists _, _, _;
    (split; [reflexivity|split; [apply continues_set_waiting|split; [reflexivity|]]]).
  - by apply finished_no_driver.
  - by apply finished_done.
  - by apply (finished_failed now r s d r').
Qed.

(** *** The requests that wait and the HTTP client *)

(** What handling a datagram does to them: nothing, or one request is filed
    and the client is asked, once, under the number it is filed by. *)
Inductive handled (w : @Waiting H) : @Waiting H → Prop :=
  | handled_alone : handled w w
  | handled_asked r hr h o :
      make_request hr (http_client w) = (h, o) → hr_id hr = req_id r →
      handled w {| waiting_requests := emplace (req_id r) r (waiting_requests w); http_client := h |}.

Lemma guarded_request_handled now r (s : St) :
  is_done r = false →
  handled (waiting s) (waiting (snd (fst (stM_catch (resolver_resolve now) reply_error (r, s))))).
Proof.
  intros Hopen. unfold stM_catch.
  pose proof (resolver_resolve_cases now r s Hopen) as Hx.
  inversion Hx as [what Hno Hw|d r' Hd Ht Hdone Hs Hw|d r' code what Hd Ht Hs Hw
                  |d hr h ret Hd Ht Hm Hi Hw|d hr h what Hd Ht Hm Hi Hw];
    rewrite ?reply_error_eq, ?add_trace_add; cbn [fst snd waiting add_trace put_waiting set_waiting];
    first [apply handled_alone|by eapply handled_asked].
Qed.

Lemma received_handled start now rd v m (s : St) :
  data rd = v ++ m → length_ rd = Z.of_nat (length v) →
  handled (waiting s) (waiting (fst (resolver_on_data_received start now rd s))).
Proof.
  intros Hd Hl. unfold resolver_on_data_received. rewrite with_request_eq. cbn [fst].
  set (p := parsed (client_info rd) (new_ResolverRequest start) (decode v)).
  assert (Hp : on_fst (parse rd) (new_ResolverRequest start, s) = ((fst p, s), snd p)).
  { rewrite on_fst_eq, (parse_decode rd v m) by done. reflexivity. }
  assert (Hopen : is_done (fst p) = false) by (unfold p; by destruct (decode v)).
  assert (Hr : snd p = Ret tt ∨ ∃ what, snd p = Throw (ResolverError PSQL_INVALID_REQUEST what)).
  { unfold p. destruct (decode v); cbn; eauto. }
  destruct p as [r o]. cbn [fst snd] in *. destruct Hr as [->|[what ->]].
  - rewrite (stM_catch_bind _ _ _ _ _ _ Hp).
    rewrite (stM_catch_bind _ _ _ (r, s) (r, s) (r, s) eq_refl). cbn [fst].
    rewrite (stM_catch_bind _ _ _ _ _ _ (emit_eq _ _ _)).
    exact (guarded_request_handled now r (add_trace (Send <$> send_provisional_reply r) s) Hopen).
  - unfold stM_catch. rewrite (stM_bind_Throw _ _ _ _ _ Hp), reply_error_eq. apply handled_alone.
Qed.

(** A reload leaves them alone. *)
(** The metrics of the drivers a reload made. *)
Definition inits (l : list effect) : Prop := Forall (fun e => ∃ t i, e = Metric (init_metrics t i)) l.

Lemma load_rows_inits (rows : list Row) : ∀ (m : gmap Z D) (c : C) l,
  ∃ l', snd (fst (load_rows rows m (c, l))) = l ++ l' ∧ inits l'.
Proof.
  induction rows as [|row rows IH]; intros m c l; [exists []; rewrite app_nil_r; by split; [|constructor]|].
  cbn [load_rows]. unfold instantiate_driver. rewrite !stM_bind_eq, on_fst_eq.
  destruct (instantiate row c) as [c1 [[d|]|e|]]; [| |exists []; rewrite app_nil_r; by split; [|constructor]..].
  - destruct (IH (emplace (getUniqueId d) d m) c1 (l ++ [Metric (init_metrics (getName d) (getUniqueId d))])) as (l' & E & Hl').
    exists (Metric (init_metrics (getName d) (getUniqueId d)) :: l'). split; [|constructor; eauto].
    rewrite <- app_assoc in E. exact E.
  - destruct (IH m c1 l) as (l' & E & Hl'). by exists l'.
Qed.

Lemma loadResolveDrivers_inits (db : M (list Row)) (c : C) :
  inits (snd (fst (loadResolveDrivers (D:=D) db (c, [])))).
Proof.
  unfold loadResolveDrivers, stM_catch. rewrite lift_bind. destruct db as [rows|e|]; [|by constructor..].
  rewrite stM_bind_eq. destruct (load_rows_inits rows ∅ c []) as (l & E & Hl). cbn in E.
  destruct (load_rows rows ∅ (c, [])) as [[c1 l1] [m|e|]]; cbn in *; by subst.
Qed.

Lemma configure_effects (db : M (list Row)) (s : St) :
  waiting (fst (configure db s)) = waiting s ∧ ∃ l, inits l ∧ trace (fst (configure db s)) = trace s ++ l.
Proof.
  unfold configure. pose proof (loadResolveDrivers_inits db (statics s)) as Hl.
  destruct (loadResolveDrivers db (statics s, [])) as [[c l] [[m|]|e|]]; (split; [done|by exists l]).
Qed.

Lemma configure_waiting (db : M (list Row)) (s : St) : waiting (fst (configure db s)) = waiting s.
Proof. apply configure_effects. Qed.

(** A response only takes its request off. *)
Lemma response_waiting now resp (s : St) :
  response_fits (resp_data resp) →
  waiting (fst (on_http_response_received now resp s))
  = {| waiting_requests := delete (resp_id resp) (waiting_requests (waiting s));
       http_client := http_client (waiting s) |}.
Proof.
  intros Hfits. unfold on_http_response_received. rewrite stM_bind_eq. cbn [get].
  destruct (waiting_requests (waiting s) !! resp_id resp) as [r|] eqn:E.
  2: { cbn. rewrite delete_id by done. by destruct (waiting s). }
  rewrite stM_bind_eq. cbn [modify]. rewrite with_request_eq. unfold stM_catch.
  set (s1 := set_waiting _ s).
  pose proof (parse_response_cases now resp r s1 Hfits) as Hx.
  inversion Hx; rewrite ?reply_error_eq; done.
Qed.

End Exec.
