(* ===== verification/ResolverSpec.v ===== *)
(** * Specification of the resolver

    What a client of the resolver relies on, as a transition system over the
    requests that are owed an answer, and the theorems that Resolver.v
    implements it: every handler ends normally, each step is a step of the
    contract, each request is answered exactly once when its number is
    unique and the HTTP client refuses nothing, what becomes of a request it
    refuses, and the metrics balance. *)
From S2P Require Import Prelude.
From S2P Require Import CLib.
From S2P Require Import Exceptions.
From S2P Require Import EventLoop.
From S2P Require Import Transport.
From S2P Require Import Protocol.
From S2P Require Import Driver.
From S2P Require Import Resolver.
From S2P Require Import ResolverExec.

(** ** Definitions *)

(** The datagrams of a trace, in the order they are sent. *)
Definition sent (l : list effect) : list Datagram :=
  omap (fun e => match e with Send d => Some d | _ => None end) l.

(** The bytes of a received record and the request number they carry. *)
Definition valid_bytes (d : RecvData) : str := take (Z.to_nat (length_ d)) (data d).

Definition request_id (x : decoded) : option Z :=
  match x with
  | DTooShort => None
  | DBadType i _ | DShortHeader i _ _ | DMalformed i _ _ | DRequest i _ _ _ => Some i
  end.

Definition accepted (x : decoded) : bool :=
  match x with DRequest _ _ _ _ => true | _ => false end.

(** The acknowledgement is the request number alone; an answer has the
    number first and more bytes after it. *)
Definition acknowledgement (i : Z) (ci : ClientInfo) : list Datagram := send_data (le32 i) ci.

Inductive answer (i : Z) (ci : ClientInfo) : list Datagram → Prop :=
  | answer_intro payload : payload ≠ [] → answer i ci (send_data (le32 i ++ payload) ci).

(** The contract: the state is the clients that are owed an answer, by
    request number.  [may_refuse] says whether the HTTP client can refuse a
    request. *)
Inductive contract {H Row} (may_refuse : Prop)
  : gmap Z ClientInfo → @event H Row → list Datagram → gmap Z ClientInfo → Prop :=
  | c_too_short P start now d :
      request_id (decode (valid_bytes d)) = None →
      contract may_refuse P (Received start now d) [] P
  | c_rejected P start now d i out :
      request_id (decode (valid_bytes d)) = Some i →
      accepted (decode (valid_bytes d)) = false →
      answer i (client_info d) out →
      contract may_refuse P (Received start now d) out P
  | c_answered P start now d i out :
      request_id (decode (valid_bytes d)) = Some i →
      accepted (decode (valid_bytes d)) = true →
      answer i (client_info d) out →
      contract may_refuse P (Received start now d) (acknowledgement i (client_info d) ++ out) P
  | c_waiting P start now d i :
      request_id (decode (valid_bytes d)) = Some i →
      accepted (decode (valid_bytes d)) = true →
      contract may_refuse P (Received start now d) (acknowledgement i (client_info d))
        (emplace i (client_info d) P)
  | c_refused P start now d i out :
      may_refuse →
      request_id (decode (valid_bytes d)) = Some i →
      accepted (decode (valid_bytes d)) = true →
      answer i (client_info d) out →
      contract may_refuse P (Received start now d) (acknowledgement i (client_info d) ++ out)
        (emplace i (client_info d) P)
  | c_unexpected P now r :
      P !! resp_id r = None →
      contract may_refuse P (Responded now r) [] P
  | c_responded P now r ci out :
      P !! resp_id r = Some ci →
      answer (resp_id r) ci out →
      contract may_refuse P (Responded now r) out (delete (resp_id r) P)
  | c_reconfigured P db :
      contract may_refuse P (Reconfigured db) [] P
  | c_progressed P h :
      contract may_refuse P (Progressed h) [] P.

(** A waiting request is filed under its own number, which is a [uint32_t],
    is open, has a known type, and came through an open descriptor. *)
Definition known_type (t : Z) : Prop := t = TAGGED_REQ_VERSION ∨ t = CNAM_REQ_VERSION.

Definition waits_well (i : Z) (r : ResolverRequest) : Prop :=
  req_id r = i ∧ (0 ≤ i < 2 ^ 32)%Z ∧ is_done r = false ∧ known_type (req_type r) ∧
  (0 ≤ recv_fd (req_client_info r))%Z.

(** *** Counting *)

Definition count {A} (p : A → bool) (l : list A) : nat :=
  length (List.filter p l).

(** An answer to request [i], as its client recognises it. *)
Definition answers_to (i : Z) (d : Datagram) : bool :=
  bool_decide (take 4 (dg_data d) = le32 i) && (4 <? length (dg_data d))%nat.

Definition answers (i : Z) (l : list effect) : nat := count (answers_to i) (sent l).

(** The requests numbered [i] that were received. *)
Definition requests_to {H Row} (i : Z) (e : @event H Row) : bool :=
  match e with
  | Received _ _ d => bool_decide (request_id (decode (valid_bytes d)) = Some i)
  | _ => false
  end.

Definition requests {H Row} (i : Z) (es : list (@event H Row)) : nat := count (requests_to i) es.

(** A response under the number [i]. *)
Definition responds_to {H Row} (i : Z) (e : @event H Row) : bool :=
  match e with Responded _ r => (resp_id r =? i)%Z | _ => false end.

Definition is_reconfigured {H Row} (e : @event H Row) : bool :=
  match e with Reconfigured _ => true | _ => false end.

(** The metrics of the driver number [u]. *)
Definition counts (u : Z) (e : effect) : bool :=
  match e with Metric (requests_count_increment _ i) => (i =? u)%Z | _ => false end.
Definition fails (u : Z) (e : effect) : bool :=
  match e with Metric (requests_failed_increment _ i) => (i =? u)%Z | _ => false end.
Definition finishes (u : Z) (e : effect) : bool :=
  match e with Metric (requests_finished_increment _ i _) => (i =? u)%Z | _ => false end.

Definition pending (i : Z) (m : gmap Z ResolverRequest) : nat :=
  match m !! i with Some _ => 1 | None => 0 end.
Definition pending_for (u : Z) (m : gmap Z ResolverRequest) : nat :=
  size (filter (fun ir => db_id (snd ir) = u) m).

Section Spec.
Context {D H Row C : Type}.
Context `{!CDriver D, !CDriverLaws D, !HttpClient H, !HttpClientLaws H, !DriverFactory D Row C}.
Abbreviation St := (@Resolver D H C).

(** The HTTP client can throw. *)
Definition may_refuse : Prop :=
  ∃ hr (h h' : H) w, make_request hr h = (h', Throw (HttpError w)).

(** The clients owed an answer. *)
Definition owed (s : St) : gmap Z ClientInfo := req_client_info <$> waiting_requests (waiting s).

Definition waiting_ok (s : St) : Prop := map_Forall waits_well (waiting_requests (waiting s)).

(** Every driver is filed under its own number. *)
Definition drivers_ok (m : gmap Z D) : Prop := map_Forall (fun u d => getUniqueId d = u) m.

(** Every waiting request has the driver it waits for. *)
Definition drivers_serve (s : St) : Prop :=
  map_Forall (fun _ r => ∃ d, mDriversMap s !! db_id r = Some d ∧
                              getDriverType d = req_type r)
    (waiting_requests (waiting s)).

(** The metrics of driver [u] add up. *)
Definition balanced (u : Z) (s : St) : Prop :=
  count (counts u) (trace s)
  = count (fails u) (trace s) + count (finishes u) (trace s)
    + pending_for u (waiting_requests (waiting s)).

End Spec.

(** ** Lemmas on datagrams and traces *)

Lemma sent_app l1 l2 : sent (l1 ++ l2) = sent l1 ++ sent l2.
Proof. apply omap_app. Qed.

Lemma sent_sends l : sent (Send <$> l) = l.
Proof. induction l as [|d l IH]; [done|]. cbn. by rewrite <- IH at 2. Qed.

Lemma sent_done_effects {D} `{CDriver D} now (d : D) r :
  sent (done_effects now d r) = send_reply r.
Proof.
  unfold done_effects. destruct (getDriverType d =? DriverTypeTagged)%Z; cbn; apply sent_sends.
Qed.

Lemma send_error_reply_same r r' code what :
  same_request r r' → send_error_reply r' code what = send_error_reply r code what.
Proof.
  intros (Hi & Ht & _ & Hc & _). unfold send_error_reply, send_tagged_error_reply,
    send_json_error_reply, tagged_error_reply, json_error_reply.
  by rewrite Hi, Ht, Hc.
Qed.

Lemma answer_reply r :
  known_type (req_type r) → answer (req_id r) (req_client_info r) (send_reply r).
Proof.
  intros [Ht|Ht]; unfold send_reply; rewrite Ht.
  - change (TAGGED_REQ_VERSION =? TAGGED_REQ_VERSION)%Z with true. cbv iota.
    unfold send_tagged_reply, tagged_reply, reply_hdr_tagged. rewrite <- app_assoc. by constructor.
  - change (CNAM_REQ_VERSION =? TAGGED_REQ_VERSION)%Z with false.
    change (CNAM_REQ_VERSION =? CNAM_REQ_VERSION)%Z with true. cbv iota.
    unfold send_json_reply, json_reply, reply_hdr_cnam. rewrite <- app_assoc. by constructor.
Qed.

Lemma answer_error r code what :
  known_type (req_type r) →
  answer (req_id r) (req_client_info r) (send_error_reply r code what).
Proof.
  intros [Ht|Ht]; unfold send_error_reply; rewrite Ht.
  - change (TAGGED_REQ_VERSION =? TAGGED_REQ_VERSION)%Z with true. cbv iota.
    unfold send_tagged_error_reply, tagged_error_reply, reply_hdr_tagged_err.
    rewrite <- app_assoc. by constructor.
  - change (CNAM_REQ_VERSION =? TAGGED_REQ_VERSION)%Z with false.
    change (CNAM_REQ_VERSION =? CNAM_REQ_VERSION)%Z with true. cbv iota.
    unfold send_json_error_reply, json_error_reply, reply_hdr_cnam.
    rewrite <- app_assoc. by constructor.
Qed.

Lemma answer_reply_same r r' :
  known_type (req_type r) → same_request r r' →
  answer (req_id r) (req_client_info r) (send_reply r').
Proof.
  intros Ht (Hi & Ht' & _ & Hc & _). rewrite <- Hi, <- Hc. apply answer_reply. by rewrite Ht'.
Qed.

Lemma answer_error_same r r' code what :
  known_type (req_type r) → same_request r r' →
  answer (req_id r) (req_client_info r) (send_error_reply r' code what).
Proof. intros Ht Hs. rewrite (send_error_reply_same r r') by done. by apply answer_error. Qed.

(** The number and the type of a decoded datagram. *)
Lemma decode_known v :
  match decode v with
  | DTooShort => True
  | DBadType i _ => (0 ≤ i < 2 ^ 32)%Z
  | DShortHeader i _ t | DMalformed i _ t | DRequest i _ t _ => (0 ≤ i < 2 ^ 32)%Z ∧ known_type t
  end.
Proof.
  destruct v as [|b0 [|b1 [|b2 [|b3 [|d [|t rest]]]]]]; cbn [decode]; try exact I.
  pose proof (of_le32_range b0 b1 b2 b3) as Hr.
  destruct (Z.eqb_spec (ord t) 0) as [E|_]; [|destruct (Z.eqb_spec (ord t) 1) as [E|_]; [|done]].
  - rewrite E. destruct rest as [|n p]; [by split; [|left]|].
    unfold decode_payload. destruct (_ <=? _)%Z; (split; [done|by left]).
  - rewrite E. destruct rest as [|n0 [|n1 [|n2 [|n3 p]]]]; try (by split; [|right]).
    unfold decode_payload. destruct (_ <=? _)%Z; (split; [done|by right]).
Qed.

(** The request of an accepted datagram, with what the resolver relies
    on. *)
Lemma parsed_accepted ci r v i :
  request_id (decode v) = Some i → accepted (decode v) = true →
  let r' := fst (parsed ci r (decode v)) in
  snd (parsed ci r (decode v)) = Ret tt ∧
  req_id r' = i ∧ (0 ≤ i < 2 ^ 32)%Z ∧ known_type (req_type r') ∧
  req_client_info r' = ci ∧ is_done r' = is_done r.
Proof.
  intros Hi Ha. pose proof (decode_known v) as Hk.
  destruct (decode v) as [|? ?|? ? ?|? ? ?|i' d t p]; try done.
  injection Hi as [= ->]. destruct Hk. by destruct r.
Qed.

Lemma parsed_rejected ci r v i :
  request_id (decode v) = Some i → accepted (decode v) = false →
  let r' := fst (parsed ci r (decode v)) in
  req_id r' = i ∧ known_type (req_type r') ∧ req_client_info r' = ci ∧
  snd (parsed ci r (decode v)) ≠ Ret tt.
Proof.
  intros Hi Ha. pose proof (decode_known v) as Hk.
  destruct (decode v); try done; injection Hi as [= ->]; destruct r; repeat split; try done.
  - by left.
  - apply Hk.
  - apply Hk.
Qed.

(** ** The steps of the resolver *)

Section Steps.
Context {D H Row C : Type}.
Context `{!CDriver D, !CDriverLaws D, !HttpClient H, !HttpClientLaws H, !DriverFactory D Row C}.
Abbreviation St := (@Resolver D H C).

Lemma fmap_emplace {A B} (f : A → B) i x (m : gmap Z A) :
  f <$> emplace i x m = emplace i (f x) (f <$> m).
Proof.
  unfold emplace. rewrite lookup_fmap. destruct (m !! i); cbn; [done|]. apply fmap_insert.
Qed.

Lemma map_Forall_emplace {A} (Q : Z → A → Prop) i x m :
  map_Forall Q m → Q i x → map_Forall Q (emplace i x m).
Proof. intros Hm Hx. unfold emplace. destruct (m !! i); [done|]. by apply map_Forall_insert_2. Qed.

Lemma known_driver_type (d : D) : known_type (getDriverType d).
Proof. destruct (driver_type_known d) as [->| ->]; [by left|by right]. Qed.

(** What an accepted request sends after its acknowledgement, and who waits
    then. *)
Lemma served_sent now r (s : St) l P :
  known_type (req_type r) → served now r s l P →
  (answer (req_id r) (req_client_info r) (sent l) ∧ P = waiting_requests (waiting s))
  ∨ (sent l = [] ∧ P = emplace (req_id r) r (waiting_requests (waiting s)))
  ∨ (may_refuse (H:=H) ∧ answer (req_id r) (req_client_info r) (sent l) ∧
     P = emplace (req_id r) r (waiting_requests (waiting s))).
Proof.
  intros Ht Hs.
  inversion Hs as [what Hn|d r' Hd Hdt Hsame|d r' code what Hd Hdt Hsame|d Hd Hdt
                  |d hr h code what Hd Hdt Hm]; subst; cbn [sent omap list_omap count_metric failed_metric].
  - left. fold (sent (Send <$> send_error_reply r GENERAL_RESOLVING_ERROR (c_str what))).
    rewrite sent_sends. split; [by apply answer_error|done].
  - left. fold (sent (done_effects now d r')). rewrite sent_done_effects.
    split; [by apply answer_reply_same|done].
  - left. fold (sent (Send <$> send_error_reply r' code (c_str what))). rewrite sent_sends.
    split; [by apply answer_error_same|done].
  - right; left. done.
  - right; right. fold (sent (Send <$> send_error_reply r code (c_str (c_str what)))).
    rewrite sent_sends. repeat split; [|by apply answer_error].
    exists hr, (http_client (waiting s)), h, what. done.
Qed.

Lemma finished_sent now r (s : St) l :
  known_type (req_type r) → finished now r s l →
  answer (req_id r) (req_client_info r) (sent l).
Proof.
  intros Ht Hf.
  inversion Hf as [what Hn|d r' Hd Hdt Hsame|d r' code what Hd Hdt Hsame]; subst.
  - rewrite sent_sends. by apply answer_error.
  - rewrite sent_done_effects. by apply answer_reply_same.
  - cbn [sent omap list_omap failed_metric].
    fold (sent (Send <$> send_error_reply r' code (c_str what))). rewrite sent_sends.
    by apply answer_error_same.
Qed.

(** A well-formed record, cut after its valid bytes. *)
Lemma wf_valid_bytes d : wf_RecvData d →
  data d = valid_bytes d ++ drop (Z.to_nat (length_ d)) (data d) ∧
  length_ d = Z.of_nat (length (valid_bytes d)).
Proof.
  intros (Hlen & [Hl0 Hl1] & _). unfold valid_bytes. split; [by rewrite take_drop|].
  rewrite length_take, Hlen. lia.
Qed.

(** Every entry point ends normally, whatever the state and the event. *)
Lemma received_runs start now d (s : St) :
  wf_RecvData d → ∃ s', resolver_on_data_received start now d s = (s', Ret tt).
Proof.
  intros Hw. destruct (wf_valid_bytes d Hw) as [Hd Hl].
  destruct (on_data_received_cases start now d _ _ s Hd Hl) as (s' & _ & _ & -> & _). eauto.
Qed.

(** The steps, in the form the later inductions use. *)
Inductive stepped (s : St) : @event H Row → list effect → gmap Z ResolverRequest → Prop :=
  | st_too_short start now d :
      request_id (decode (valid_bytes d)) = None →
      stepped s (Received start now d) [] (waiting_requests (waiting s))
  | st_rejected start now d i l :
      request_id (decode (valid_bytes d)) = Some i →
      accepted (decode (valid_bytes d)) = false →
      answer i (client_info d) (sent l) → Forall (fun e => ∃ x, e = Send x) l →
      stepped s (Received start now d) l (waiting_requests (waiting s))
  | st_accepted start now d i r l P :
      request_id (decode (valid_bytes d)) = Some i →
      accepted (decode (valid_bytes d)) = true →
      waits_well i r → req_client_info r = client_info d →
      served now r (add_trace (Send <$> acknowledgement i (client_info d)) s) l P →
      stepped s (Received start now d) ((Send <$> acknowledgement i (client_info d)) ++ l) P
  | st_unexpected now r :
      waiting_requests (waiting s) !! resp_id r = None →
      stepped s (Responded now r) [] (waiting_requests (waiting s))
  | st_responded now resp r (s1 : St) l :
      waiting_requests (waiting s) !! resp_id resp = Some r →
      mDriversMap s1 = mDriversMap s → finished now r s1 l →
      stepped s (Responded now resp) l (delete (resp_id resp) (waiting_requests (waiting s)))
  | st_reconfigured db l :
      inits l → stepped s (Reconfigured db) l (waiting_requests (waiting s))
  | st_progressed h :
      stepped s (Progressed h) [] (waiting_requests (waiting s)).

Lemma send_error_sends r code what :
  Forall (fun e => ∃ x, e = Send x) (Send <$> send_error_reply r code what).
Proof. apply Forall_fmap, Forall_forall. intros x _. by exists x. Qed.

Lemma received_stepped start now d (s s' : St) :
  wf_RecvData d → (0 ≤ recv_fd (client_info d))%Z →
  resolver_on_data_received start now d s = (s', Ret tt) →
  ∃ l P, continues s l P s' ∧ stepped s (Received start now d) l P.
Proof.
  intros Hw Hfd Hr. destruct (wf_valid_bytes d Hw) as [Hd Hl].
  destruct (on_data_received_cases start now d _ _ s Hd Hl) as (s1 & l & P & E & Hc & Hcase).
  rewrite E in Hr. injection Hr as ->. exists l, P. split; [done|].
  destruct (request_id (decode (valid_bytes d))) as [i|] eqn:Hi.
  2: { destruct (decode (valid_bytes d)) eqn:Ed; try done.
       destruct Hcase as [(what & _ & -> & ->)|[Ho _]]; [|discriminate Ho].
       apply st_too_short. by rewrite Ed. }
  destruct (accepted (decode (valid_bytes d))) eqn:Ha.
  - destruct (parsed_accepted (client_info d) (new_ResolverRequest start) _ _ Hi Ha)
      as (Ho & Hri & Hrange & Hrt & Hrc & Hrd).
    destruct Hcase as [(what & Ho' & _)|(_ & l' & -> & Hs)]; [congruence|].
    unfold send_provisional_reply in *. rewrite Hri, Hrc in *.
    eapply (st_accepted s start now d i); [done..| |exact Hrc|exact Hs].
    split; [exact Hri|]. split; [exact Hrange|]. split; [exact Hrd|].
    split; [exact Hrt|]. by rewrite Hrc.
  - destruct (parsed_rejected (client_info d) (new_ResolverRequest start) _ _ Hi Ha)
      as (Hri & Hrt & Hrc & Ho).
    destruct Hcase as [(what & _ & -> & ->)|[Ho' _]]; [|by rewrite Ho' in Ho].
    apply (st_rejected s start now d i); try done; [|apply send_error_sends].
    rewrite sent_sends. clear Hc E Ho. revert Hri Hrt Hrc.
    generalize (fst (parsed (client_info d) (new_ResolverRequest start)
                       (decode (valid_bytes d)))).
    intros r <- Ht <-. by apply answer_error.
Qed.

Lemma step_stepped (s s' : St) e :
  step s e s' → ∃ l P, trace s' = trace s ++ l ∧ waiting_requests (waiting s') = P ∧
    (is_reconfigured e = false → mDriversMap s' = mDriversMap s) ∧ stepped s e l P.
Proof.
  intros [s1 e1 s2 Hw Hr]. destruct e1 as [start now d|now resp|db|h]; cbn [run_event wf_event] in *.
  - destruct Hw as [Hw Hfd].
    destruct (received_stepped start now d s1 s2 Hw Hfd Hr) as (l & P & (Hm & _ & Ht & HP) & Hs).
    eauto 10.
  - destruct (on_http_response_cases now resp s1 Hw) as (s3 & l & P & E & (Hm & _ & Ht & HP) & Hcase).
    rewrite E in Hr. injection Hr as ->. exists l, P. do 3 (split; [done|]).
    destruct (waiting_requests (waiting s1) !! resp_id resp) as [r|] eqn:Er.
    + destruct Hcase as [-> Hf]. by apply (st_responded s1 now resp r s1).
    + destruct Hcase as (_ & -> & ->). by apply st_unexpected.
  - destruct (configure_effects db s1) as (Hw' & l & Hl & Ht). rewrite stM_bind_eq in Hr.
    destruct (configure db s1) as [s3 [b|x|]]; try discriminate. injection Hr as ->. cbn [fst] in *.
    exists l, (waiting_requests (waiting s1)). rewrite Hw'. do 3 (split; [done|]). by apply st_reconfigured.
  - injection Hr as <-. exists [], (waiting_requests (waiting s1)). rewrite app_nil_r.
    do 3 (split; [done|]). apply st_progressed.
Qed.

Lemma inits_sent l : inits l → sent l = [].
Proof. induction 1 as [|e l (t & i & ->) _ IH]; [done|exact IH]. Qed.

(** The invariant on waiting requests is kept. *)
Lemma served_waiting_ok now i r (s : St) l P :
  waits_well i r → map_Forall waits_well (waiting_requests (waiting s)) →
  served now r s l P → map_Forall waits_well P.
Proof.
  intros Hr Hs Hx. assert (Hi : req_id r = i) by apply Hr.
  inversion Hx; subst; try done; by apply map_Forall_emplace.
Qed.

Lemma stepped_waiting_ok (s : St) e l P :
  waiting_ok s → stepped s e l P → map_Forall waits_well P.
Proof.
  intros Hok Hs. destruct Hs as [| |start now d i r l P Hi Ha Hr Hc Hs| |now resp r s1 l Er Hm Hf| |];
    try exact Hok.
  - exact (served_waiting_ok now i r (add_trace _ s) l P Hr Hok Hs).
  - by apply map_Forall_delete.
Qed.

Lemma step_waiting_ok (s s' : St) e : waiting_ok s → step s e s' → waiting_ok s'.
Proof.
  intros Hok Hst. destruct (step_stepped s s' e Hst) as (l & P & _ & HP & _ & Hs).
  unfold waiting_ok. rewrite HP. by apply (stepped_waiting_ok s e l).
Qed.

Lemma run_waiting_ok (s s' : St) es : waiting_ok s → run s es s' → waiting_ok s'.
Proof. intros Hok. induction 1; [done|]. by eapply step_waiting_ok. Qed.

Lemma new_waiting_ok (h : H) (c : C) : waiting_ok (new_Resolver (D:=D) h c).
Proof. apply map_Forall_empty. Qed.

(** Each step is a step of the contract. *)
Lemma stepped_contract (s : St) e l P :
  waiting_ok s → stepped s e l P →
  contract (may_refuse (H:=H)) (owed s) e (sent l) (req_client_info <$> P).
Proof.
  intros Hok Hs.
  destruct Hs as [| |start now d i r l P Hi Ha Hr Hc Hs| |now resp r s1 l Er Hm Hf| |].
  - by apply c_too_short.
  - by apply (c_rejected _ _ _ _ _ i).
  - destruct Hr as (Hri & Hrange & _ & Ht & _).
    rewrite sent_app, sent_sends. apply served_sent in Hs; [|done].
    rewrite Hri, Hc in Hs. cbn [waiting add_trace] in Hs.
    destruct Hs as [[Han ->]|[[-> ->]|(Hm & Han & ->)]].
    + by apply c_answered.
    + rewrite app_nil_r, fmap_emplace, Hc. by apply c_waiting.
    + rewrite fmap_emplace, Hc. by apply c_refused.
  - apply c_unexpected. unfold owed. rewrite lookup_fmap. cbn. by simplify_option_eq.
  - rewrite fmap_delete. destruct (Hok _ _ Er) as (Hri & _ & _ & Ht & _).
    apply (c_responded _ _ now resp (req_client_info r)).
    + unfold owed. by rewrite lookup_fmap, Er.
    + rewrite <- Hri. by apply (finished_sent now r s1 l).
  - rewrite inits_sent by done. apply c_reconfigured.
  - apply c_progressed.
Qed.

End Steps.

(** ** Counting answers *)

Lemma count_app {A} (p : A → bool) l1 l2 : count p (l1 ++ l2) = count p l1 + count p l2.
Proof. unfold count. by rewrite List.filter_app, length_app. Qed.

Lemma count_cons {A} (p : A → bool) x l :
  count p (x :: l) = (if p x then 1 else 0) + count p l.
Proof. unfold count. cbn. by destruct (p x). Qed.

Lemma count_none {A} (p : A → bool) l : Forall (fun x => p x = false) l → count p l = 0.
Proof. induction 1 as [|x l Hx _ IH]; [done|]. by rewrite count_cons, Hx. Qed.

(** The metrics of new drivers count nothing else. *)
Lemma inits_count (p : effect → bool) l : (∀ t i, p (Metric (init_metrics t i)) = false) → inits l → count p l = 0.
Proof. intros Hp Hl. apply count_none. eapply Forall_impl; [exact Hl|]. by intros ? (t & i & ->). Qed.

Lemma answers_app i l1 l2 : answers i (l1 ++ l2) = answers i l1 + answers i l2.
Proof. unfold answers. by rewrite sent_app, count_app. Qed.

Lemma requests_snoc {H Row} i es (e : @event H Row) :
  requests i (es ++ [e]) = requests i es + if requests_to i e then 1 else 0.
Proof. unfold requests. rewrite count_app. unfold count at 2. cbn. by destruct (requests_to i e). Qed.

Lemma le32_inj i j : (0 ≤ i < 2 ^ 32)%Z → (0 ≤ j < 2 ^ 32)%Z → le32 i = le32 j → i = j.
Proof.
  intros Hi Hj E. rewrite <- (u32_small i), <- (u32_small j), <- !of_le32_le32 by done.
  by injection E as -> -> -> ->.
Qed.

Lemma answer_count i j ci l :
  (0 ≤ recv_fd ci)%Z → (0 ≤ i < 2 ^ 32)%Z → (0 ≤ j < 2 ^ 32)%Z → answer i ci l →
  count (answers_to j) l = if (i =? j)%Z then 1 else 0.
Proof.
  intros Hfd Hi Hj [payload Hp]. unfold send_data.
  destruct (Z.ltb_spec (recv_fd ci) 0) as [|_]; [lia|].
  rewrite count_cons. cbn [count length List.filter]. rewrite Nat.add_0_r.
  unfold answers_to. cbn [dg_data].
  assert (4 < length (le32 i ++ payload)) as Hlen.
  { rewrite length_app. destruct payload; [done|]. cbn. lia. }
  apply Nat.ltb_lt in Hlen as ->. rewrite andb_true_r.
  change (take 4 (le32 i ++ payload)) with (le32 i).
  destruct (Z.eqb_spec i j) as [->|Hne]; [by rewrite bool_decide_true|].
  rewrite bool_decide_false; [done|]. intros E. by apply Hne, le32_inj.
Qed.

Lemma acknowledgement_count i j ci : count (answers_to j) (acknowledgement i ci) = 0.
Proof.
  apply count_none. unfold acknowledgement, send_data. destruct (_ <? _)%Z; [done|].
  repeat constructor. unfold answers_to. cbn [dg_data]. apply andb_false_intro2.
  apply Nat.ltb_ge. cbn. lia.
Qed.

Lemma pending_emplace_ne {i j r} {m : gmap Z ResolverRequest} :
  i ≠ j → pending i (emplace j r m) = pending i m.
Proof.
  intros Hne. unfold pending, emplace. destruct (m !! j); [done|].
  by rewrite lookup_insert_ne.
Qed.

Lemma pending_emplace_fresh i r (m : gmap Z ResolverRequest) :
  pending i m = 0 → pending i (emplace i r m) = 1 ∧ m !! i = None.
Proof.
  unfold pending, emplace. destruct (m !! i); [done|]. by rewrite lookup_insert_eq.
Qed.

Lemma pending_emplace_le i j r (m : gmap Z ResolverRequest) :
  pending i (emplace j r m) ≤ pending i m + if (i =? j)%Z then 1 else 0.
Proof.
  destruct (Z.eqb_spec i j) as [->|Hne]; [|rewrite pending_emplace_ne by done; lia].
  unfold pending. destruct (emplace j r m !! j), (m !! j); lia.
Qed.

Lemma pending_delete i j (m : gmap Z ResolverRequest) :
  pending i (delete j m) = if (i =? j)%Z then 0 else pending i m.
Proof.
  unfold pending. destruct (Z.eqb_spec i j) as [->|Hne]; [by rewrite lookup_delete_eq|].
  by rewrite lookup_delete_ne.
Qed.

Lemma requests_to_received {H Row} i j start now d :
  request_id (decode (valid_bytes d)) = Some j →
  requests_to i (@Received H Row start now d) = (i =? j)%Z.
Proof.
  intros Hj. cbn. rewrite Hj. destruct (Z.eqb_spec i j) as [->|Hne];
    [by rewrite bool_decide_true|]. apply bool_decide_false. congruence.
Qed.

Section Counting.
Context {D H Row C : Type}.
Context `{!CDriver D, !CDriverLaws D, !HttpClient H, !HttpClientLaws H, !DriverFactory D Row C}.
Abbreviation St := (@Resolver D H C).

(** A request waits only if it was received. *)
Lemma stepped_pending_le i (s : St) (e : @event H Row) l P :
  stepped s e l P →
  pending i P ≤ pending i (waiting_requests (waiting s)) + if requests_to i e then 1 else 0.
Proof.
  intros Hs.
  destruct Hs as [| |start now d j r l P Hj Ha Hr Hc Hs| |now resp r s1 l Er Hm Hf| |]; try lia.
  - rewrite (requests_to_received i j) by done. assert (Hri : req_id r = j) by apply Hr.
    inversion Hs; subst; cbn [waiting add_trace]; try lia; apply pending_emplace_le.
  - rewrite pending_delete. destruct (i =? _)%Z; lia.
Qed.

Lemma run_pending_le i (s0 s : St) es :
  waiting_requests (waiting s0) = ∅ → run s0 es s →
  pending i (waiting_requests (waiting s)) ≤ requests i es.
Proof.
  intros H0. induction 1 as [|es e s s' Hr IH Hst].
  - rewrite H0. unfold pending. by rewrite lookup_empty.
  - destruct (step_stepped s s' e Hst) as (l & P & _ & -> & _ & Hs).
    apply (stepped_pending_le i) in Hs. rewrite requests_snoc. lia.
Qed.

(** The balance of answers over one step, when the number is fresh. *)
Lemma stepped_answers i (s : St) (e : @event H Row) l P :
  (0 ≤ i < 2 ^ 32)%Z → ¬ may_refuse (H:=H) → waiting_ok s → wf_event e → stepped s e l P →
  (requests_to i e = true → pending i (waiting_requests (waiting s)) = 0) →
  answers i l + pending i P
  = pending i (waiting_requests (waiting s)) + if requests_to i e then 1 else 0.
Proof.
  intros Hi Hno Hok Hw Hs Hfresh.
  destruct Hs as [start now d Hn|start now d j l Hj Ha Han _|start now d j r l P Hj Ha Hr Hc Hs
                 | |now resp r s1 l Er Hm Hf| |]; cbn [wf_event] in Hw.
  - cbn [requests_to]. rewrite bool_decide_false by congruence. cbn. lia.
  - rewrite (requests_to_received i j) by done. unfold answers.
    assert (0 ≤ j < 2 ^ 32)%Z.
    { pose proof (decode_known (valid_bytes d)) as Hk.
      cbn [request_id] in Hj. destruct (decode (valid_bytes d)); cbn in Hj; simplify_eq; tauto. }
    rewrite (answer_count j i (client_info d)) by tauto. rewrite Z.eqb_sym. lia.
  - rewrite (requests_to_received i j) in Hfresh |- * by done.
    destruct Hr as (Hri & Hrange & _ & Ht & Hfd).
    unfold answers. rewrite sent_app, sent_sends, count_app, acknowledgement_count.
    apply served_sent in Hs; [|done]. cbn [waiting add_trace] in Hs. rewrite Hri in Hs.
    destruct Hs as [[Han ->]|[[-> ->]|(Hm & _)]]; [| |done].
    + rewrite (answer_count j i _ _ Hfd) by done. rewrite Z.eqb_sym. lia.
    + destruct (Z.eqb_spec i j) as [->|Hne].
      * destruct (pending_emplace_fresh j r _ (Hfresh eq_refl)) as [-> _].
        rewrite Hfresh by done. done.
      * rewrite pending_emplace_ne by done. cbn. lia.
  - cbn. lia.
  - destruct (Hok _ _ Er) as (Hri & Hrange & _ & Ht & Hfd).
    apply finished_sent in Hf; [|done]. rewrite Hri in Hf.
    unfold answers. rewrite (answer_count _ i _ _ Hfd Hrange Hi Hf), pending_delete, Z.eqb_sym.
    cbn [requests_to]. destruct (Z.eqb_spec i (resp_id resp)) as [->|Hne]; [|lia].
    unfold pending. rewrite Er. lia.
  - unfold answers. rewrite inits_sent by done. cbn. lia.
  - cbn. lia.
Qed.

Lemma run_answers i (s0 s : St) es :
  (0 ≤ i < 2 ^ 32)%Z → ¬ may_refuse (H:=H) →
  waiting_requests (waiting s0) = ∅ → trace s0 = [] → run s0 es s → requests i es ≤ 1 →
  answers i (trace s) + pending i (waiting_requests (waiting s)) = requests i es.
Proof.
  intros Hi Hno H0 Ht0. induction 1 as [|es e s s' Hr IH Hst]; intros Hle.
  - rewrite Ht0, H0. unfold pending. by rewrite lookup_empty.
  - rewrite requests_snoc in Hle |- *.
    assert (Hok0 : waiting_ok s0) by (unfold waiting_ok; rewrite H0; apply map_Forall_empty).
    pose proof (run_waiting_ok s0 s es Hok0 Hr) as Hok.
    assert (Hw : wf_event e) by (by destruct Hst).
    destruct (step_stepped s s' e Hst) as (l & P & -> & -> & _ & Hs).
    rewrite answers_app.
    pose proof (run_pending_le i s0 s es H0 Hr) as Hp.
    pose proof (stepped_answers i s e l P Hi Hno Hok Hw Hs) as Ha.
    assert (Hfresh : requests_to i e = true → pending i (waiting_requests (waiting s)) = 0).
    { intros E. rewrite E in Hle. lia. }
    specialize (Ha Hfresh). specialize (IH ltac:(lia)). lia.
Qed.

(** Every entry point but a reload returns. *)
Lemma entry_point_returns (s : St) (e : @event H Row) :
  wf_event e → is_reconfigured e = false →
  ∃ s', run_event e s = (s', Ret tt) ∧ mDriversMap s' = mDriversMap s ∧
        statics s' = statics s ∧ trace s `prefix_of` trace s'.
Proof.
  intros Hw He. destruct e as [start now d|now resp|db|hc]; [| |done|by eexists]; cbn [run_event wf_event] in *.
  - destruct (wf_valid_bytes d) as [Hd Hl]; [tauto|].
    destruct (on_data_received_cases start now d _ _ s Hd Hl) as (s' & l & P & -> & (Hm & Hc & Ht & _) & _).
    exists s'. repeat split; try done. rewrite Ht. by eexists.
  - destruct (on_http_response_cases now resp s Hw) as (s' & l & P & -> & (Hm & Hc & Ht & _) & _).
    exists s'. repeat split; try done. rewrite Ht. by eexists.
Qed.

End Counting.

(** ** Properties *)

Section Properties.
Context {D H Row C : Type}.
Context `{!CDriver D, !CDriverLaws D, !HttpClient H, !HttpClientLaws H, !DriverFactory D Row C}.
Abbreviation St := (@Resolver D H C).

(** A request that waits keeps waiting until a response under its number. *)
Lemma step_keeps_waiting (s s' : St) (e : @event H Row) i r :
  step s e s' → responds_to i e = false →
  waiting_requests (waiting s) !! i = Some r → waiting_requests (waiting s') !! i = Some r.
Proof.
  intros Hst He Hi. destruct (step_stepped s s' e Hst) as (l & P & _ & -> & _ & Hs).
  assert (Hem : ∀ j x, emplace j x (waiting_requests (waiting s)) !! i = Some r).
  { intros j x. unfold emplace. destruct (waiting_requests (waiting s) !! j) eqn:E; [done|].
    rewrite lookup_insert_ne; [done|congruence]. }
  inversion Hs as [| |? ? ? j x l' P' Hj Ha Hr Hc Hsv| |? resp ? ? ? Er| |]; subst; try done.
  - inversion Hsv; subst; cbn [waiting add_trace]; done.
  - rewrite lookup_delete_ne; [done|]. cbn in He. by apply Z.eqb_neq in He.
Qed.

Lemma run_keeps_waiting (s s' : St) (es : list (@event H Row)) i r :
  run s es s' → Forall (fun e => responds_to i e = false) es →
  waiting_requests (waiting s) !! i = Some r → waiting_requests (waiting s') !! i = Some r.
Proof.
  intros Hr Hes Hi. induction Hr as [|es e s1 s2 Hr IH Hst]; [done|].
  apply Forall_app in Hes as [Hes He]. apply Forall_inv in He.
  apply (step_keeps_waiting s1 s2 e); [done|exact He|by apply IH].
Qed.

(** A response answers the client whose request waits under its number, and
    takes the request off. *)
Lemma step_answers_waiting (s s' : St) now resp r :
  waiting_ok s → step (Row:=Row) s (Responded now resp) s' →
  waiting_requests (waiting s) !! resp_id resp = Some r →
  waiting_requests (waiting s') !! resp_id resp = None ∧
  ∃ l, trace s' = trace s ++ l ∧ answer (resp_id resp) (req_client_info r) (sent l).
Proof.
  intros Hok Hst Hi. destruct (step_stepped s s' _ Hst) as (l & P & Ht & HP & _ & Hs). rewrite HP.
  inversion Hs as [| | |? ? Hn|? ? x s3 l' Er Hm Hf| |]; subst; [congruence|].
  split; [by rewrite lookup_delete_eq|]. exists l. split; [done|].
  rewrite Hi in Er. injection Er as <-.
  destruct (Hok _ _ Hi) as (Hri & _ & _ & Hty & _). rewrite <- Hri at 1. by apply (finished_sent now r s3).
Qed.

(** C3. Refinement: from any state the resolver reaches, handling an event is
    a step of the contract.  A datagram too short for a header is dropped in
    silence; one with a bad type, a cut header or a cut payload is answered
    at once; an accepted one is acknowledged first, and then answered or left
    waiting; a response answers the client whose request waits under its
    number and settles it; nothing else is sent to anybody. *)
Theorem resolver_refines_contract (h : H) (c : C) es (s s' : St) (e : @event H Row) :
  run (new_Resolver h c) es s → step s e s' →
  ∃ l, trace s' = trace s ++ l ∧
    contract (may_refuse (H:=H)) (owed s) e (sent l) (owed s').
Proof.
  intros Hrun Hst. destruct (step_stepped s s' e Hst) as (l & P & Ht & HP & _ & Hs).
  exists l. split; [done|]. unfold owed. rewrite HP. apply stepped_contract; [|done].
  by apply (run_waiting_ok (new_Resolver h c) s es); [apply new_waiting_ok|].
Qed.

(** C4. Exactly once: over a whole run, when the HTTP client takes every
    request and a number is received at most once, the answers sent under
    that number and the requests still waiting under it are together as many
    as the requests received: no request is dropped, none is answered
    twice. *)
Theorem answered_exactly_once (h : H) (c : C) i es (s : St) :
  (0 ≤ i < 2 ^ 32)%Z → ¬ may_refuse (H:=H) →
  run (Row:=Row) (new_Resolver h c) es s → requests i es ≤ 1 →
  answers i (trace s) + pending i (waiting_requests (waiting s)) = requests i es.
Proof. intros Hi Hno. by apply run_answers. Qed.

(** C5. No exception and no undefined behaviour leaves the handlers: on every
    well-formed record and on every HTTP response below 8 MiB, in every state,
    the entry points return to the dispatcher, without touching the drivers. *)
Theorem handlers_return (s : St) (e : @event H Row) :
  wf_event e → is_reconfigured e = false →
  ∃ s', run_event e s = (s', Ret tt) ∧ mDriversMap s' = mDriversMap s ∧
        statics s' = statics s ∧ trace s `prefix_of` trace s'.
Proof. apply entry_point_returns. Qed.

(** C6. Invariant: in every reachable state a waiting request is filed under
    its own 32-bit number, is not done, is of a known type, and came through
    an open descriptor. *)
Theorem waiting_invariant (h : H) (c : C) es (s : St) :
  run (Row:=Row) (new_Resolver h c) es s → waiting_ok s.
Proof. intros Hr. by apply (run_waiting_ok (new_Resolver h c) s es); [apply new_waiting_ok|]. Qed.

(** A number in use is not replaced: while a request waits under a
    number, another request with the same number (from any client) leaves
    the first one waiting, and the response is answered to the first client
    alone; after it nobody waits under that number, so a second client that
    was only acknowledged is never answered. *)
Theorem number_in_use_keeps_first (s s1 s2 : St) i r1 start now d now' resp :
  waiting_ok s → waiting_requests (waiting s) !! i = Some r1 →
  step (Row:=Row) s (Received start now d) s1 →
  resp_id resp = i → step (Row:=Row) s1 (Responded now' resp) s2 →
  waiting_requests (waiting s1) !! i = Some r1 ∧
  waiting_requests (waiting s2) !! i = None ∧
  ∃ l, trace s2 = trace s1 ++ l ∧ answer i (req_client_info r1) (sent l).
Proof.
  intros Hok Hi H1 <- H2.
  assert (Hkeep : waiting_requests (waiting s1) !! resp_id resp = Some r1)
    by (by eapply (step_keeps_waiting s s1)).
  split; [done|]. apply (step_answers_waiting s1 s2 now'); [|done|done].
  by eapply step_waiting_ok.
Qed.

(** C9. A refused request poisons its number.  When the driver of an accepted
    request asks the HTTP client and the client refuses by an exception, the
    client of the resolver is told of the error, but the request is filed in
    the waiting map all the same; it stays there over any run in which no
    response comes under its number, so that no request received meanwhile
    under that number, by whomever, is filed; and the first response that
    comes under the number is sent as an answer to the refused client, who
    had his answer, and to nobody else, and takes the number off the map. *)
Theorem refused_request_misdelivers (s : St) start now rd i r d hr h what :
  waiting_ok s → waiting_requests (waiting s) !! i = None →
  wf_event (H:=H) (Row:=Row) (Received start now rd) →
  parsed (client_info rd) (new_ResolverRequest start) (decode (valid_bytes rd)) = (r, Ret tt) →
  req_id r = i → refuses r s d hr h what →
  ∃ s1, step (Row:=Row) s (Received start now rd) s1 ∧
    (∃ l out, trace s1 = trace s ++ l ∧ sent l = acknowledgement i (client_info rd) ++ out ∧
       answer i (client_info rd) out) ∧
    waiting_requests (waiting s1) !! i = Some r ∧
    ∀ es s2, run (Row:=Row) s1 es s2 → Forall (fun e => responds_to i e = false) es →
      waiting_requests (waiting s2) !! i = Some r ∧
      ∀ now' resp s3, resp_id resp = i → step (Row:=Row) s2 (Responded now' resp) s3 →
        waiting_requests (waiting s3) !! i = None ∧
        ∃ l, trace s3 = trace s2 ++ l ∧ answer i (client_info rd) (sent l).
Proof.
  intros Hok Hn [Hwf Hfd] Hp Hi Href. destruct (wf_valid_bytes rd Hwf) as [Hd Hl].
  pose proof (refused_request start now rd _ _ r d hr h what s Hd Hl Hp Href) as E.
  eexists. assert (Hst : step (Row:=Row) s (Received start now rd) _) by (apply step_event; [by split|exact E]).
  split; [exact Hst|].
  assert (Hr : req_client_info r = client_info rd ∧ known_type (req_type r)).
  { pose proof (decode_known (valid_bytes rd)) as Hk.
    destruct (decode (valid_bytes rd)); cbn in Hp; try discriminate Hp. injection Hp as <-. by destruct Hk. }
  destruct Hr as [Hci Hty].
  assert (Hw1 : ∀ l, waiting_requests (waiting (add_trace l (put_waiting r h s))) !! i = Some r).
  { intros l. cbn. unfold emplace. rewrite Hi, Hn. apply lookup_insert_eq. }
  split; [|split; [apply Hw1|]].
  - eexists _, _. split; [reflexivity|]. rewrite sent_app, sent_sends, <- Hi, <- Hci.
    split; [reflexivity|]. cbn [sent omap list_omap count_metric failed_metric].
    fold (sent (Send <$> send_error_reply r GENERAL_RESOLVING_ERROR (c_str (c_str what)))).
    rewrite sent_sends. by apply answer_error.
  - intros es s2 Hrun Hes. assert (Hkeep : waiting_requests (waiting s2) !! i = Some r)
      by (by eapply run_keeps_waiting).
    split; [done|]. intros now' resp s3 <- H3. rewrite <- Hci.
    apply (step_answers_waiting s2 s3 now'); [|done|done].
    eapply run_waiting_ok; [|exact Hrun]. by eapply step_waiting_ok.
Qed.

End Properties.
