(* ===== verification/ResolverMetrics.v ===== *)
(** * Metrics and configuration of the resolver

    The counters of each driver balance over a run, and [configure] either
    installs exactly the drivers of the rows or changes nothing. *)
From S2P Require Import Prelude.
From S2P Require Import CLib.
From S2P Require Import Exceptions.
From S2P Require Import EventLoop.
From S2P Require Import Transport.
From S2P Require Import Protocol.
From S2P Require Import Driver.
From S2P Require Import Resolver.
From S2P Require Import ResolverExec.
From S2P Require Import ResolverSpec.

(** ** Definitions *)

(** The first driver of each number, as the rows come. *)
Fixpoint first_drivers {D} `{CDriver D} (l : list (option D)) (m : gmap Z D) : gmap Z D :=
  match l with
  | [] => m
  | Some d :: r => first_drivers r (emplace (getUniqueId d) d m)
  | None :: r => first_drivers r m
  end.

(** Every row is instantiated, in order, threading the static state. *)
Inductive instantiated {D Row C} `{DriverFactory D Row C}
  : list Row → C → list (option D) → C → Prop :=
  | inst_nil c : instantiated [] c [] c
  | inst_cons row rows c c1 c2 o l :
      instantiate row c = (c1, Ret o) → instantiated rows c1 l c2 →
      instantiated (row :: rows) c (o :: l) c2.

(** ** Lemmas *)

Lemma pending_for_emplace u i r (m : gmap Z ResolverRequest) :
  m !! i = None →
  pending_for u (emplace i r m) = pending_for u m + if (db_id r =? u)%Z then 1 else 0.
Proof.
  intros Hn. unfold pending_for, emplace. rewrite Hn, map_filter_insert.
  cbn [snd]. destruct (Z.eqb_spec (db_id r) u) as [E|E].
  - rewrite decide_True by done. rewrite map_size_insert_None; [lia|].
    by apply map_lookup_filter_None_2; left.
  - rewrite decide_False by done. rewrite delete_id by done. lia.
Qed.

Lemma pending_for_delete u i r (m : gmap Z ResolverRequest) :
  m !! i = Some r →
  pending_for u m = pending_for u (delete i m) + if (db_id r =? u)%Z then 1 else 0.
Proof.
  intros Hs. unfold pending_for. rewrite map_filter_delete.
  destruct (Z.eqb_spec (db_id r) u) as [E|E].
  - assert (Hf : filter (fun ir => db_id ir.2 = u) m !! i = Some r)
      by (by apply map_lookup_filter_Some_2).
    rewrite map_size_delete_Some by (by eexists).
    assert (size (filter (fun ir => db_id ir.2 = u) m) ≠ 0).
    { apply (map_size_ne_0_lookup_2 _ i). by eexists. }
    lia.
  - rewrite delete_id; [lia|]. apply map_lookup_filter_None_2. right. intros x Hx.
    rewrite Hs in Hx. injection Hx as <-. done.
Qed.

Lemma count_sends (p : effect → bool) l :
  (∀ d, p (Send d) = false) → count p (Send <$> l) = 0.
Proof. intros Hp. apply count_none, Forall_fmap, Forall_forall. intros d _. apply Hp. Qed.

Section Metrics.
Context {D H Row C : Type}.
Context `{!CDriver D, !CDriverLaws D, !HttpClient H, !HttpClientLaws H, !DriverFactory D Row C}.
Abbreviation St := (@Resolver D H C).

(** The three counts of a list of effects. *)
Definition tally (u : Z) (l : list effect) : nat * nat * nat :=
  (count (counts u) l, count (fails u) l, count (finishes u) l).

Definition plus3 (a b : nat * nat * nat) : nat * nat * nat :=
  (fst (fst a) + fst (fst b), snd (fst a) + snd (fst b), snd a + snd b).

Lemma tally_app u l1 l2 : tally u (l1 ++ l2) = plus3 (tally u l1) (tally u l2).
Proof. unfold tally, plus3. cbn. by rewrite !count_app. Qed.

Lemma tally_sends u l : tally u (Send <$> l) = (0, 0, 0).
Proof. unfold tally. by rewrite !count_sends. Qed.

Lemma tally_done u now (d : D) r :
  tally u (done_effects now d r) = (0, 0, if (getUniqueId d =? u)%Z then 1 else 0).
Proof.
  unfold done_effects. change (?x :: ?l) with ([x] ++ l). rewrite !tally_app, tally_sends.
  unfold tally, count. cbn. destruct (getUniqueId d =? u)%Z, (_ =? _)%Z; done.
Qed.

Lemma tally_count u (d : D) :
  tally u [count_metric d] = (if (getUniqueId d =? u)%Z then 1 else 0, 0, 0).
Proof. unfold tally, count. cbn. by destruct (_ =? u)%Z. Qed.

Lemma tally_failed u (d : D) :
  tally u [failed_metric d] = (0, if (getUniqueId d =? u)%Z then 1 else 0, 0).
Proof. unfold tally, count. cbn. by destruct (_ =? u)%Z. Qed.

(** [n] requests counted, [k] of them settled. *)
Definition settles (x : nat * nat * nat) (n k : nat) : Prop :=
  fst (fst x) = n ∧ snd (fst x) + snd x = k.

Lemma served_tally u now r (s : St) l P i :
  drivers_ok (mDriversMap s) → ¬ may_refuse (H:=H) → waits_well i r →
  pending i (waiting_requests (waiting s)) = 0 → served now r s l P →
  count (counts u) l + pending_for u (waiting_requests (waiting s))
  = count (fails u) l + count (finishes u) l + pending_for u P.
Proof.
  intros Hd Hno Hr Hp Hs. assert (Hri : req_id r = i) by apply Hr.
  enough (∃ n k, settles (tally u l) n k ∧
            n + pending_for u (waiting_requests (waiting s)) = k + pending_for u P) as G.
  { destruct G as (n & k & [<- <-] & G). cbn in G. lia. }
  unfold settles.
  inversion Hs as [what Hn|d r' Hl Hdt Hsame|d r' code what Hl Hdt Hsame|d Hl Hdt
                  |d hr h code what Hl Hdt Hm]; subst.
  - rewrite tally_sends. by exists 0, 0.
  - change (count_metric d :: ?l) with ([count_metric d] ++ l).
    rewrite tally_app, tally_count, tally_done. cbn. eexists _, _. split; [done|]. lia.
  - change (count_metric d :: failed_metric d :: ?l) with ([count_metric d] ++ [failed_metric d] ++ l).
    rewrite !tally_app, tally_count, tally_failed, tally_sends. cbn.
    eexists _, _. split; [done|]. lia.
  - rewrite tally_count. cbn. eexists _, _. split; [done|].
    destruct (pending_emplace_fresh (req_id r) r _ Hp) as [_ Hnone].
    rewrite pending_for_emplace by done. rewrite (Hd _ _ Hl). lia.
  - exfalso. apply Hno. by exists hr, (http_client (waiting s)), h, what.
Qed.

Lemma finished_tally u now r (s : St) l :
  drivers_ok (mDriversMap s) →
  (∃ d, mDriversMap s !! db_id r = Some d ∧ getDriverType d = req_type r) →
  finished now r s l →
  count (counts u) l = 0 ∧
  count (fails u) l + count (finishes u) l = if (db_id r =? u)%Z then 1 else 0.
Proof.
  intros Hok (d0 & Hd0 & Ht0) Hf.
  enough (settles (tally u l) 0 (if (db_id r =? u)%Z then 1 else 0)) as [G1 G2] by done.
  unfold settles.
  inversion Hf as [what Hn|d r' Hl Hdt Hsame|d r' code what Hl Hdt Hsame]; subst.
  - destruct Hn as [[_ Hn]|(_ & d & Hd & Hne)]; congruence.
  - rewrite tally_done, (Hok _ _ Hl). done.
  - change (failed_metric d :: ?l) with ([failed_metric d] ++ l).
    rewrite tally_app, tally_failed, tally_sends, (Hok _ _ Hl). cbn. lia.
Qed.

(** A request waits only for a driver that is there. *)
Lemma served_drivers_serve now r (s : St) l P :
  served now r s l P → drivers_serve s →
  map_Forall (fun _ r => ∃ d, mDriversMap s !! db_id r = Some d ∧ getDriverType d = req_type r) P.
Proof. intros Hs Hok. inversion Hs; subst; try done; apply map_Forall_emplace; eauto. Qed.

Lemma stepped_balanced u (s s' : St) (e : @event H Row) l P :
  ¬ may_refuse (H:=H) → drivers_ok (mDriversMap s) → drivers_serve s → waiting_ok s →
  stepped s e l P → is_reconfigured e = false →
  (∀ i, requests_to i e = true → pending i (waiting_requests (waiting s)) = 0) →
  trace s' = trace s ++ l → waiting_requests (waiting s') = P →
  mDriversMap s' = mDriversMap s →
  balanced u s → balanced u s' ∧ drivers_serve s'.
Proof.
  intros Hno Hd Hserve Hok Hs He Hfresh Ht HP Hm Hb.
  unfold balanced, drivers_serve in *. rewrite Ht, HP, Hm, !count_app.
  destruct Hs as [|start now d j l Hj Ha Han Hsends|start now d j r l P Hj Ha Hr Hc Hs
                 | |now resp r s1 l Er Hm1 Hf| |]; cbn [count length List.filter].
  - split; [unfold count in *; cbn; lia|done].
  - assert (∀ p : effect → bool, (∀ d, p (Send d) = false) → count p l = 0) as Hz.
    { intros p Hp. apply count_none. eapply Forall_impl; [exact Hsends|]. intros ? [x ->]. done. }
    rewrite !Hz by done. split; [lia|done].
  - assert (Hp : pending j (waiting_requests (waiting s)) = 0).
    { apply Hfresh. rewrite (requests_to_received j j) by done. apply Z.eqb_refl. }
    rewrite !count_app, !count_sends by done.
    pose proof (served_tally u now r (add_trace _ s) l P j Hd Hno Hr Hp Hs) as Htal.
    cbn [waiting add_trace] in Htal. split; [lia|].
    exact (served_drivers_serve now r (add_trace _ s) l P Hs Hserve).
  - split; [unfold count in *; cbn; lia|done].
  - destruct (finished_tally u now r s1 l) as [H1 H2]; [by rewrite Hm1| |done|].
    { rewrite Hm1. apply (Hserve _ _ Er). }
    rewrite (pending_for_delete u _ r) in Hb by done. split; [lia|]. by apply map_Forall_delete.
  - done.
  - split; [unfold count in *; cbn; lia|done].
Qed.

Lemma run_balanced u (s0 s : St) (es : list (@event H Row)) :
  ¬ may_refuse (H:=H) → drivers_ok (mDriversMap s0) →
  waiting_requests (waiting s0) = ∅ → inits (trace s0) → run s0 es s →
  Forall (fun e => is_reconfigured e = false) es → (∀ i, requests i es ≤ 1) →
  balanced u s ∧ drivers_serve s ∧ mDriversMap s = mDriversMap s0.
Proof.
  intros Hno Hd H0 Ht0. induction 1 as [|es e s s' Hr IH Hst]; intros Hre Hle.
  - unfold balanced, drivers_serve. rewrite !inits_count, H0 by done. split; [done|].
    split; [apply map_Forall_empty|done].
  - apply Forall_app in Hre as [Hre He]. apply Forall_inv in He.
    assert (Hle' : ∀ i, requests i es ≤ 1).
    { intros i. specialize (Hle i). rewrite requests_snoc in Hle. lia. }
    destruct (IH Hre Hle') as (Hb & Hserve & Hm).
    assert (Hok : waiting_ok s).
    { apply (run_waiting_ok s0 s es); [|done]. unfold waiting_ok. rewrite H0. apply map_Forall_empty. }
    destruct (step_stepped s s' e Hst) as (l & P & Ht & HP & Hm' & Hs). specialize (Hm' He).
    enough (balanced u s' ∧ drivers_serve s') as [? ?] by (split; [done|split; [done|congruence]]).
    apply (stepped_balanced u s s' e l P); try done; [by rewrite Hm|].
    intros i Hi. specialize (Hle i). rewrite requests_snoc, Hi in Hle.
    pose proof (run_pending_le i s0 s es H0 Hr). lia.
Qed.

(** The metrics of every driver balance: in a run that starts when drivers
    are configured and is not reconfigured, in which the HTTP client takes
    every request and no number is received twice, the requests counted for a
    driver are the failed ones, the finished ones and the waiting ones. *)
Lemma metrics_balance (s0 s : St) (es : list (@event H Row)) u :
  ¬ may_refuse (H:=H) → drivers_ok (mDriversMap s0) →
  waiting_requests (waiting s0) = ∅ → inits (trace s0) → run s0 es s →
  Forall (fun e => is_reconfigured e = false) es → (∀ i, requests i es ≤ 1) →
  count (counts u) (trace s)
  = count (fails u) (trace s) + count (finishes u) (trace s)
    + pending_for u (waiting_requests (waiting s)).
Proof. intros Hno Hd H0 Ht Hr He Hi. by apply (run_balanced u s0 s es). Qed.

(** Every increment is that of a driver in use, under its name. *)
Definition named (m : gmap Z D) (e : effect) : Prop :=
  match e with
  | Metric (requests_count_increment t i) | Metric (requests_failed_increment t i)
  | Metric (requests_finished_increment t i _) => ∃ d, m !! i = Some d ∧ t = getName d
  | _ => True
  end.

Lemma named_sends m l : Forall (named m) (Send <$> l).
Proof. apply Forall_fmap, Forall_forall. by intros x _. Qed.

Lemma named_done m now (d : D) r : m !! getUniqueId d = Some d → Forall (named m) (done_effects now d r).
Proof.
  intros Hm. unfold done_effects. constructor; [by exists d|]. apply Forall_app. split; [|apply named_sends].
  destruct (_ =? _)%Z; by repeat constructor.
Qed.

Lemma named_driver m (d : D) u : drivers_ok m → m !! u = Some d →
  named m (count_metric d) ∧ named m (failed_metric d) ∧ ∀ now r, Forall (named m) (done_effects now d r).
Proof.
  intros Hok Hd. assert (Hu : m !! getUniqueId d = Some d) by (by rewrite (Hok u d Hd)).
  split; [by exists d|]. split; [by exists d|]. intros now r. by apply named_done.
Qed.

Lemma served_named now r (s : St) l P :
  drivers_ok (mDriversMap s) → served now r s l P → Forall (named (mDriversMap s)) l.
Proof.
  intros Hok Hs.
  inversion Hs as [what Hn|d r' Hl _ _|d r' code what Hl _ _|d Hl _|d hr h code what Hl _ _]; subst; [apply named_sends|..];
    destruct (named_driver _ d _ Hok Hl) as (Hc & Hf & Hd); (constructor; [exact Hc|]).
  - apply Hd.
  - constructor; [exact Hf|apply named_sends].
  - constructor.
  - constructor; [exact Hf|apply named_sends].
Qed.

Lemma finished_named now r (s : St) l :
  drivers_ok (mDriversMap s) → finished now r s l → Forall (named (mDriversMap s)) l.
Proof.
  intros Hok Hf. inversion Hf as [what Hn|d r' Hl _ _|d r' code what Hl _ _]; subst; [apply named_sends|..];
    destruct (named_driver _ d _ Hok Hl) as (Hc & Hx & Hd).
  - apply Hd.
  - constructor; [exact Hx|apply named_sends].
Qed.

Lemma stepped_named (s : St) (e : @event H Row) l P :
  drivers_ok (mDriversMap s) → stepped s e l P → Forall (named (mDriversMap s)) l.
Proof.
  intros Hok Hs. destruct Hs as [|start now d j l Hj Ha Han Hsends|start now d j r l P Hj Ha Hr Hc Hs
                 | |now resp r s1 l Er Hm1 Hf|db l Hl|]; try constructor.
  - eapply Forall_impl; [exact Hsends|]. by intros ? [x ->].
  - apply Forall_app. split; [apply named_sends|]. exact (served_named now r (add_trace _ s) l P Hok Hs).
  - rewrite <- Hm1 in Hok |- *. by apply (finished_named now r).
  - eapply Forall_impl; [exact Hl|]. by intros ? (t & i & ->).
Qed.

Lemma run_named (s0 s : St) (es : list (@event H Row)) :
  drivers_ok (mDriversMap s0) → run s0 es s → Forall (fun e => is_reconfigured e = false) es →
  ∃ l, trace s = trace s0 ++ l ∧ Forall (named (mDriversMap s0)) l ∧ mDriversMap s = mDriversMap s0.
Proof.
  intros Hok. induction 1 as [|es e s s' Hr IH Hst]; intros Hre; [exists []; by rewrite app_nil_r|].
  apply Forall_app in Hre as [Hre He]. apply Forall_inv in He. destruct (IH Hre) as (l & Ht & Hl & Hm).
  destruct (step_stepped s s' e Hst) as (l' & P & Ht' & _ & Hm' & Hs). specialize (Hm' He).
  exists (l ++ l'). rewrite Ht', Ht, <- app_assoc. split; [done|]. split; [|congruence]. apply Forall_app. split; [done|].
  rewrite <- Hm. apply (stepped_named s e l' P); [by rewrite Hm|done].
Qed.

(** *** Loading the drivers *)

Definition init_metric (d : D) : effect := Metric (init_metrics (getName d) (getUniqueId d)).

Lemma instantiate_driver_eq (row : Row) (c : C) (t : list effect) :
  instantiate_driver row (c, t)
  = match instantiate row c with
    | (c1, Ret o) => ((c1, t ++ (init_metric <$> omap id [o])), Ret o)
    | (c1, Throw e) => ((c1, t), Throw e)
    | (c1, Undef) => ((c1, t), Undef)
    end.
Proof.
  unfold instantiate_driver. rewrite stM_bind_eq, on_fst_eq.
  destruct (instantiate row c) as [c1 [[d|]|e|]]; [done| |done|done]. cbn. by rewrite app_nil_r.
Qed.

Lemma load_rows_spec (rows : list Row) (m : gmap Z D) (c c' : C) t t' m' :
  load_rows rows m (c, t) = ((c', t'), Ret m') ↔
  ∃ l, instantiated rows c l c' ∧ t' = t ++ (init_metric <$> omap id l) ∧ m' = first_drivers l m.
Proof.
  revert m c t. induction rows as [|row rows IH]; intros m c t; cbn [load_rows].
  - split.
    + intros [= <- <- <-]. exists []. split; [constructor|]. by rewrite app_nil_r.
    + intros (l & Hl & -> & ->). inversion Hl; subst. cbn. by rewrite app_nil_r.
  - rewrite stM_bind_eq, instantiate_driver_eq. destruct (instantiate row c) as [c1 [o|e|]] eqn:E.
    + rewrite IH. split.
      * intros (l & Hl & -> & ->). exists (o :: l). split; [by econstructor|].
        destruct o; cbn; by rewrite <- app_assoc.
      * intros (l & Hl & -> & ->). inversion Hl as [|? ? ? c1' ? o' l' E' Hl']; subst.
        rewrite E in E'. injection E' as <- <-. exists l'. split; [done|].
        destruct o; cbn; by rewrite <- app_assoc.
    + split; [done|]. intros (l & Hl & _). inversion Hl as [|? ? ? ? ? ? ? E']; subst.
      by rewrite E in E'.
    + split; [done|]. intros (l & Hl & _). inversion Hl as [|? ? ? ? ? ? ? E']; subst.
      by rewrite E in E'.
Qed.

Lemma drivers_ok_emplace (d : D) m : drivers_ok m → drivers_ok (emplace (getUniqueId d) d m).
Proof. intros Hm. by apply map_Forall_emplace. Qed.

Lemma first_drivers_ok (l : list (option D)) m : drivers_ok m → drivers_ok (first_drivers l m).
Proof.
  revert m. induction l as [|[d|] l IH]; intros m Hm; cbn; [done| |by apply IH].
  by apply IH, drivers_ok_emplace.
Qed.

(** The driver of a number is the first of the rows that has it. *)
Lemma first_drivers_lookup (l : list (option D)) m u :
  first_drivers l m !! u
  = match m !! u with
    | Some d => Some d
    | None => List.find (fun d => (getUniqueId d =? u)%Z) (omap id l)
    end.
Proof.
  revert m. induction l as [|[d|] l IH]; intros m; cbn [first_drivers].
  - cbn. by destruct (m !! u).
  - rewrite IH. unfold emplace. cbn. destruct (Z.eqb_spec (getUniqueId d) u) as [<-|Hne].
    + destruct (m !! getUniqueId d) eqn:E; [by rewrite E|]. by rewrite lookup_insert_eq.
    + destruct (m !! getUniqueId d); [done|]. by rewrite lookup_insert_ne.
  - rewrite IH. done.
Qed.

Lemma configure_cases (db : M (list Row)) (s s' : St) b :
  configure db s = (s', Ret b) →
  waiting s' = waiting s ∧ (∃ l, inits l ∧ trace s' = trace s ++ l) ∧
  (b = true → ∃ rows l, db = Ret rows ∧ instantiated rows (statics s) l (statics s') ∧
     drivers_ok (mDriversMap s') ∧ trace s' = trace s ++ (init_metric <$> omap id l) ∧
     ∀ u, mDriversMap s' !! u = List.find (fun d => (getUniqueId d =? u)%Z) (omap id l)) ∧
  (b = false → mDriversMap s' = mDriversMap s ∧
     ∀ rows l c, db = Ret rows → ¬ instantiated rows (statics s) l c).
Proof.
  intros Hc. destruct (configure_effects db s) as [Hw Hl]. rewrite Hc in Hw, Hl. split; [done|]. split; [done|].
  revert Hc. unfold configure, loadResolveDrivers, stM_catch. rewrite lift_bind.
  destruct db as [rows|e|]; [|intros [= <- <-]; by repeat split|done].
  rewrite stM_bind_eq. destruct (load_rows rows ∅ (statics s, [])) as [[c t] [m|e|]] eqn:E;
    cbn; intros [= <- <-]; repeat split; try done.
  - intros _. apply load_rows_spec in E as (l & Hi & -> & ->). exists rows, l.
    repeat split; try done; [apply first_drivers_ok, map_Forall_empty|].
    intros u. cbn. by rewrite first_drivers_lookup, lookup_empty.
  - intros rows' l c' [= <-] Hi.
    assert (load_rows rows ∅ (statics s, []) = ((c', [] ++ (init_metric <$> omap id l)), Ret (first_drivers l ∅))) as E'
      by (apply load_rows_spec; eauto).
    by rewrite E in E'.
Qed.

(** ** Properties *)

(** C8. [configure] is all or nothing: when the query and every row succeed,
    the driver of a number is the one of the first row that has it, the
    metrics of every driver made are initialised, and [configure] says so;
    otherwise the drivers in use are kept, and at most metrics were
    initialised.  The waiting requests are untouched in both cases. *)
Theorem configure_spec (db : M (list Row)) (s s' : St) b :
  configure db s = (s', Ret b) →
  waiting s' = waiting s ∧ (∃ l, inits l ∧ trace s' = trace s ++ l) ∧
  (b = true → ∃ rows l, db = Ret rows ∧ instantiated rows (statics s) l (statics s') ∧
     drivers_ok (mDriversMap s') ∧ trace s' = trace s ++ (init_metric <$> omap id l) ∧
     ∀ u, mDriversMap s' !! u = List.find (fun d => (getUniqueId d =? u)%Z) (omap id l)) ∧
  (b = false → mDriversMap s' = mDriversMap s ∧
     ∀ rows l c, db = Ret rows → ¬ instantiated rows (statics s) l c).
Proof. apply configure_cases. Qed.

End Metrics.
