(* ===== verification/CFloat.v ===== *)
(** * IEEE double precision in the C library

    [strtod], the conversion of a double to [int], and [sprintf] with
    [%1.15g] and [%1.17g], on [spec_float], the Standard Library's
    executable model of binary64 (53 bits of precision, [emax] 1024), with
    rounding to nearest even.  Decimal texts denote exact rationals, which
    are rounded once, as glibc does. *)
From Stdlib Require Import SpecFloat.
From S2P Require Import Prelude.
From S2P Require Import CLib.

Abbreviation double := spec_float.

Definition prec : Z := 53.
Definition emax : Z := 1024.

(** An integer as a double. *)
Definition double_of_Z (n : Z) : double := binary_normalize prec emax n 0 false.

(** [m * 10 ^ e], correctly rounded.  A text of 63 characters has [m] below
    10^63, so exponents beyond 1000 already give infinity and zero. *)
Definition double_of_decimal (neg : bool) (m e : Z) : double :=
  let e := Z.max (-1000) (Z.min 1000 e) in
  match m with
  | Zpos p =>
      if (0 <=? e)%Z then
        match (m * 10 ^ e)%Z with
        | Zpos q => binary_round prec emax neg q 0
        | _ => S754_zero neg
        end
      else
        let '(q, e', l) := SFdiv_core_binary prec emax m 0 (10 ^ (- e)) 0 in
        binary_round_aux prec emax neg q e' l
  | _ => S754_zero neg
  end.

Fixpoint span_digits (s : str) : str * str :=
  match s with
  | c :: r => if is_digit c then let '(d, t) := span_digits r in (c :: d, t) else ([], s)
  | [] => ([], [])
  end.

(** A sign, and what follows it. *)
Definition read_sign (s : str) : bool * str :=
  match s with
  | c :: r => if Ascii.eqb c "-" then (true, r)
              else if Ascii.eqb c "+" then (false, r) else (false, s)
  | [] => (false, [])
  end.

(** The exponent part of a decimal number: its value, and what follows it;
    without a digit after the [e] there is none. *)
Definition read_exponent (s : str) : Z * str :=
  match s with
  | c :: r =>
      if Ascii.eqb c "e" || Ascii.eqb c "E" then
        let '(neg, r) := read_sign r in
        match span_digits r with
        | ([], _) => (0%Z, s)
        | (d, t) => let n := fst (read_digits 0 d) in ((if neg then - n else n)%Z, t)
        end
      else (0%Z, s)
  | [] => (0%Z, [])
  end.

(** The digits of the integer part, those of the fraction, and what follows
    them. *)
Definition read_mantissa (s : str) : str * str * str :=
  let '(ip, r) := span_digits s in
  match r with
  | c :: r' => if Ascii.eqb c "." then let '(fp, t) := span_digits r' in (ip, fp, t)
               else (ip, [], r)
  | [] => (ip, [], [])
  end.

(** [strtod] on a text of digits, signs, points and [e]s: the value and the
    number of characters it read; none when there is no digit. *)
Definition strtod (s : str) : double * nat :=
  let '(neg, r) := read_sign s in
  let '(ip, fp, r) := read_mantissa r in
  match ip ++ fp with
  | [] => (S754_zero false, 0)
  | d =>
      let '(e, r) := read_exponent r in
      (double_of_decimal neg (fst (read_digits 0 d)) (e - Z.of_nat (length fp)),
       length s - length r)
  end.

(** The conversion to [int]: truncation; undefined for what is not finite or
    does not fit. *)
Definition int_of_double {E} (d : double) : outcome E Z :=
  match d with
  | S754_zero _ => Ret 0%Z
  | S754_finite s m e =>
      let n := if (0 <=? e)%Z then (Zpos m * 2 ^ e)%Z else (Zpos m / 2 ^ (- e))%Z in
      let n := (if s then - n else n)%Z in
      if ((INT_MIN <=? n) && (n <=? INT_MAX))%Z then Ret n else Undef
  | _ => Undef
  end.

(** [d >= n] and [d <= n] for an [int n], which a double holds exactly; false
    for a NaN. *)
Definition scaled (s : bool) (m : positive) : Z := if s then Zneg m else Zpos m.

Definition double_ge (d : double) (n : Z) : bool :=
  match d with
  | S754_zero _ => (n <=? 0)%Z
  | S754_finite s m e =>
      if (0 <=? e)%Z then (n <=? scaled s m * 2 ^ e)%Z else (n * 2 ^ (- e) <=? scaled s m)%Z
  | S754_infinity s => negb s
  | S754_nan => false
  end.

Definition double_le (d : double) (n : Z) : bool :=
  match d with
  | S754_zero _ => (0 <=? n)%Z
  | S754_finite s m e =>
      if (0 <=? e)%Z then (scaled s m * 2 ^ e <=? n)%Z else (scaled s m <=? n * 2 ^ (- e))%Z
  | S754_infinity s => s
  | S754_nan => false
  end.

Definition is_nan (d : double) : bool :=
  match d with S754_nan => true | _ => false end.

Definition is_finite (d : double) : bool :=
  match d with S754_zero _ | S754_finite _ _ _ => true | _ => false end.

(** ** [%g] *)

Definition round_half_even (n d : Z) : Z :=
  let q := (n / d)%Z in
  match Z.compare (2 * (n mod d)) d with
  | Lt => q
  | Gt => (q + 1)%Z
  | Eq => if Z.even q then q else (q + 1)%Z
  end.

(** The least [j] (from [j0] on) with [10 ^ j * n >= d], for [n > 0]; a double
    is never below 10^-330. *)
Fixpoint neg_exponent (fuel : nat) (j : Z) (n d : Z) : Z :=
  match fuel with
  | O => j
  | S f => if (d <=? n * 10 ^ j)%Z then j else neg_exponent f (j + 1) n d
  end.

(** The [p] significant decimal digits of [n / d > 0] and its decimal
    exponent. *)
Definition significant (p n d : Z) : Z * Z :=
  let k := if (d <=? n)%Z then (Z.of_nat (length (digits (n / d))) - 1)%Z
           else (- neg_exponent 340 1 n d)%Z in
  let t := (p - 1 - k)%Z in
  let m := round_half_even (n * 10 ^ Z.max t 0) (d * 10 ^ Z.max (- t) 0) in
  if (m =? 10 ^ p)%Z then (10 ^ (p - 1), k + 1)%Z else (m, k).

Fixpoint strip_zeros_front (s : str) : str :=
  match s with
  | c :: r => if Ascii.eqb c "0" then strip_zeros_front r else s
  | [] => []
  end.
Definition strip_zeros (s : str) : str := reverse (strip_zeros_front (reverse s)).

Definition with_fraction (i f : str) : str :=
  match strip_zeros f with [] => i | f => i ++ "."%char :: f end.

Definition format_exponent (x : Z) : str :=
  let d := digits (Z.abs x) in
  "e"%char :: (if (x <? 0)%Z then "-"%char else "+"%char)
  :: (if (Z.abs x <? 10)%Z then "0"%char :: d else d).

(** The text of [m * 10 ^ (x - p + 1)], [m] of [p] digits. *)
Definition format_digits (p m x : Z) : str :=
  let ds := digits m in
  if ((-4 <=? x) && (x <? p))%Z then
    if (0 <=? x)%Z then with_fraction (take (Z.to_nat (x + 1)) ds) (drop (Z.to_nat (x + 1)) ds)
    else with_fraction #"0" (replicate (Z.to_nat (- x - 1)) "0"%char ++ ds)
  else with_fraction (take 1 ds) (drop 1 ds) ++ format_exponent x.

(** [sprintf("%1.<p>g")] *)
Definition format_g (p : Z) (d : double) : str :=
  match d with
  | S754_zero s => (if s then #"-" else []) ++ #"0"
  | S754_infinity s => (if s then #"-" else []) ++ #"inf"
  | S754_nan => #"nan"
  | S754_finite s m e =>
      let '(n, q) := if (0 <=? e)%Z then (Zpos m * 2 ^ e, 1)%Z else (Zpos m, 2 ^ (- e))%Z in
      let '(ds, x) := significant p n q in
      (if s then #"-" else []) ++ format_digits p ds x
  end.

(** ** Lemmas *)

Lemma int_of_double_defined {E} (d : double) :
  is_nan d = false → double_ge d INT_MAX = false → double_le d INT_MIN = false →
  ∃ n, (int_of_double d : outcome E Z) = Ret n ∧ (INT_MIN ≤ n ≤ INT_MAX)%Z.
Proof.
  unfold double_ge, double_le, int_of_double.
  destruct d as [s|s| |s m e]; cbn [is_nan negb]; [|by destruct s|done|].
  { intros _ _ _. exists 0%Z. split; [done|]. unfold INT_MIN, INT_MAX. lia. }
  intros _ Hge Hle. destruct (Z.leb_spec 0 e) as [He|He].
  - apply Z.leb_gt in Hge, Hle. set (v := (scaled s m * 2 ^ e)%Z) in *.
    assert ((if s then - (Zpos m * 2 ^ e) else Zpos m * 2 ^ e) = v)%Z as ->
      by (unfold v; destruct s; cbn [scaled]; lia).
    destruct (Z.leb_spec INT_MIN v), (Z.leb_spec v INT_MAX); cbn; try lia. eexists; split; [done|lia].
  - apply Z.leb_gt in Hge, Hle. assert (0 < 2 ^ (- e))%Z by (apply Z.pow_pos_nonneg; lia).
    set (k := (2 ^ (- e))%Z) in *.
    pose proof (Z.div_mod (Zpos m) k). pose proof (Z.mod_pos_bound (Zpos m) k).
    set (q := (Zpos m / k)%Z) in *. unfold INT_MIN, INT_MAX in *.
    assert (0 ≤ q)%Z by (unfold q; apply Z.div_pos; lia).
    destruct s; cbn [scaled] in *.
    + assert (q < 2147483648)%Z by nia.
      destruct (Z.leb_spec (-2147483648) (- q)), (Z.leb_spec (- q) 2147483647); cbn; try lia.
      eexists; split; [done|lia].
    + assert (q < 2147483647)%Z by nia.
      destruct (Z.leb_spec (-2147483648) q), (Z.leb_spec q 2147483647); cbn; try lia.
      eexists; split; [done|lia].
Qed.

(** Rounding a non-negative mantissa never gives a NaN. *)
Lemma shr_1_nonneg r : (0 ≤ shr_m r)%Z → (0 ≤ shr_m (shr_1 r))%Z.
Proof. destruct r as [m r s]. destruct m as [|[p|p|]|p]; cbn; lia. Qed.

Lemma shr_nonneg r e n : (0 ≤ shr_m r)%Z → (0 ≤ shr_m (fst (shr r e n)))%Z.
Proof.
  intros Hr. destruct n as [|p|p]; cbn; [done| |done].
  revert r Hr. induction p as [p IH|p IH|]; intros r Hr; cbn.
  - by apply IH, IH, shr_1_nonneg.
  - by apply IH, IH.
  - by apply shr_1_nonneg.
Qed.

Lemma shr_fexp_nonneg m e l : (0 ≤ m)%Z → (0 ≤ shr_m (fst (shr_fexp prec emax m e l)))%Z.
Proof.
  intros Hm. unfold shr_fexp. apply shr_nonneg. by destruct l as [|[]].
Qed.

Lemma round_nearest_even_nonneg m l : (0 ≤ m)%Z → (0 ≤ round_nearest_even m l)%Z.
Proof. intros Hm. destruct l as [|[]]; cbn; try destruct (Z.even m); lia. Qed.

Lemma binary_round_aux_not_nan sx m e l :
  (0 ≤ m)%Z → is_nan (binary_round_aux prec emax sx m e l) = false.
Proof.
  intros Hm. unfold binary_round_aux.
  pose proof (shr_fexp_nonneg m e l Hm) as H1.
  destruct (shr_fexp prec emax m e l) as [r1 e1]. cbn [fst] in H1.
  pose proof (shr_fexp_nonneg _ e1 loc_Exact
                (round_nearest_even_nonneg (shr_m r1) (loc_of_shr_record r1) H1)) as H2.
  destruct (shr_fexp prec emax _ e1 loc_Exact) as [r2 e2]. cbn [fst] in H2.
  destruct (shr_m r2); [done| |lia]. by destruct (_ <=? _)%Z.
Qed.

Lemma binary_round_not_nan sx m e : is_nan (binary_round prec emax sx m e) = false.
Proof.
  unfold binary_round. destruct (shl_align _ _ _). by apply binary_round_aux_not_nan.
Qed.

Lemma double_of_decimal_not_nan neg m e : is_nan (double_of_decimal neg m e) = false.
Proof.
  unfold double_of_decimal. destruct m as [|p|p]; try done.
  set (e' := Z.max _ _). destruct (Z.leb_spec 0 e').
  - destruct (_ * _)%Z; try done. apply binary_round_not_nan.
  - unfold SFdiv_core_binary. destruct (Z.div_eucl _ _) as [q r] eqn:E.
    apply binary_round_aux_not_nan.
    match type of E with Z.div_eucl ?n _ = _ => set (num := n) in E end.
    assert (0 ≤ num)%Z.
    { unfold num. destruct (_ - _)%Z; try lia. apply Z.shiftl_nonneg. lia. }
    assert (q = num / 10 ^ (- e'))%Z as -> by (unfold Z.div; by rewrite E).
    apply Z.div_pos; [done|]. apply Z.pow_pos_nonneg; lia.
Qed.

Lemma strtod_not_nan s : is_nan (fst (strtod s)) = false.
Proof.
  unfold strtod. destruct (read_sign s) as [neg r]. destruct (read_mantissa r) as [[ip fp] t].
  destruct (ip ++ fp); [done|]. destruct (read_exponent t). apply double_of_decimal_not_nan.
Qed.

Lemma strtod_length s : snd (strtod s) ≤ length s.
Proof.
  unfold strtod. destruct (read_sign s) as [neg r]. destruct (read_mantissa r) as [[ip fp] t].
  destruct (ip ++ fp); [cbn; lia|]. destruct (read_exponent t). cbn. lia.
Qed.
