(* ===== verification/CFloatSpec.v ===== *)
(** * Bounds of double precision numbers and of their texts

    A number read by [strtod] is a binary64 number, and [sprintf] with
    [%1.15g] or [%1.17g] writes at most 24 characters for one: the array of
    [print_number] is large enough. *)
From Stdlib Require Import SpecFloat.
From S2P Require Import Prelude.
From S2P Require Import CLib.
From S2P Require Import CFloat.

(** ** Definitions *)

(** The finite values of binary64. *)
Definition binary64 (d : double) : Prop :=
  match d with
  | S754_finite _ m e => (Zpos m < 2 ^ 53 ∧ -1074 ≤ e ≤ 971)%Z
  | _ => True
  end.

(** ** Lemmas: rounding *)

Lemma shr_1_div2 r : (0 ≤ shr_m r)%Z → shr_m (shr_1 r) = (shr_m r / 2)%Z.
Proof.
  intros Hr. assert (H : shr_m (shr_1 r) = Z.div2 (shr_m r)).
  { destruct r as [m x s]. destruct m as [|[p|p|]|p]; cbn in *; lia. }
  rewrite H. apply Z.div2_div.
Qed.

Lemma shr_iter_div (p : positive) (r : shr_record) :
  (0 ≤ shr_m r)%Z → shr_m (SpecFloat.iter_pos shr_1 p r) = (shr_m r / 2 ^ Zpos p)%Z.
Proof.
  assert (Hpow : ∀ q, (0 < 2 ^ Zpos q)%Z) by (intros; apply Z.pow_pos_nonneg; lia).
  revert r. induction p as [p IH|p IH|]; intros r Hr; cbn [SpecFloat.iter_pos].
  - assert (H1 : (0 ≤ shr_m (shr_1 r))%Z) by (by apply shr_1_nonneg).
    rewrite IH; [|rewrite IH by done; apply Z.div_pos; [done|apply Hpow]].
    rewrite IH, shr_1_div2, !Z.div_div by (done || specialize (Hpow p); lia).
    f_equal. rewrite (Pos2Z.inj_xI p), Z.pow_add_r, Z.pow_mul_r by lia.
    change (2 ^ 2)%Z with (2 * 2)%Z. rewrite Z.pow_mul_l. lia.
  - rewrite IH; [|rewrite IH by done; apply Z.div_pos; [done|apply Hpow]].
    rewrite IH, !Z.div_div by (done || specialize (Hpow p); lia).
    f_equal. rewrite (Pos2Z.inj_xO p), Z.pow_mul_r by lia.
    change (2 ^ 2)%Z with (2 * 2)%Z. rewrite Z.pow_mul_l. lia.
  - by rewrite shr_1_div2.
Qed.

Lemma digits2_bound p : (Zpos p < 2 ^ Zpos (digits2_pos p))%Z.
Proof.
  induction p as [p IH|p IH|]; cbn [digits2_pos]; [| |done];
    rewrite Pos2Z.inj_succ, Z.pow_succ_r by lia; lia.
Qed.

Lemma Zdigits2_bound m : (0 ≤ m)%Z → (m < 2 ^ Zdigits2 m)%Z ∧ (0 ≤ Zdigits2 m)%Z.
Proof. destruct m as [|p|p]; intros Hm; cbn; [lia| |lia]. split; [apply digits2_bound|lia]. Qed.

Lemma shr_fexp_bound m e l :
  (0 ≤ m)%Z →
  let r := shr_fexp prec emax m e l in
  (0 ≤ shr_m (fst r) < 2 ^ 53)%Z ∧ (-1074 ≤ snd r)%Z.
Proof.
  intros Hm r. split; [split; [by apply shr_fexp_nonneg|]|]; unfold r, shr_fexp, fexp.
  - destruct (Zdigits2_bound m Hm) as [Hd Hd0]. set (D := Zdigits2 m) in *.
    assert (Hrm : shr_m (shr_record_of_loc m l) = m) by (by destruct l as [|[]]).
    change (emin prec emax) with (-1074)%Z. change prec with 53%Z.
    set (n := (Z.max (D + e - 53) (-1074) - e)%Z).
    assert (Hn : (D - 53 ≤ n)%Z) by (unfold n; lia).
    destruct n as [|p|p] eqn:En; cbn [shr fst].
    + rewrite Hrm. eapply Z.lt_le_trans; [exact Hd|]. apply Z.pow_le_mono_r; lia.
    + rewrite shr_iter_div, Hrm by (by rewrite Hrm).
      apply Z.div_lt_upper_bound; [apply Z.pow_pos_nonneg; lia|].
      rewrite <- Z.pow_add_r by lia. eapply Z.lt_le_trans; [exact Hd|].
      apply Z.pow_le_mono_r; lia.
    + rewrite Hrm. eapply Z.lt_le_trans; [exact Hd|]. apply Z.pow_le_mono_r; lia.
  - change (emin prec emax) with (-1074)%Z.
    set (n := (Z.max (Zdigits2 m + e - prec) (-1074) - e)%Z).
    assert (Hn : (-1074 ≤ e + n)%Z) by (unfold n; lia).
    destruct n as [|p|p]; cbn [shr snd]; lia.
Qed.

Lemma binary_round_aux_bound sx m e l :
  (0 ≤ m)%Z → binary64 (binary_round_aux prec emax sx m e l).
Proof.
  intros Hm. unfold binary_round_aux.
  pose proof (shr_fexp_bound m e l Hm) as [[H1 _] _].
  destruct (shr_fexp prec emax m e l) as [r1 e1]. cbn [fst snd] in H1.
  pose proof (shr_fexp_bound _ e1 loc_Exact
                (round_nearest_even_nonneg (shr_m r1) (loc_of_shr_record r1) H1)) as [[_ H2] H3].
  destruct (shr_fexp prec emax _ e1 loc_Exact) as [r2 e2]. cbn [fst snd] in H2, H3.
  destruct (shr_m r2) as [|p|p]; [done| |done].
  destruct (Z.leb_spec e2 (emax - prec)) as [Hle|]; [|done].
  cbn. unfold emax, prec in Hle. lia.
Qed.

Lemma double_of_decimal_bound neg m e : binary64 (double_of_decimal neg m e).
Proof.
  unfold double_of_decimal. destruct m as [|p|p]; try done.
  set (e' := Z.max _ _). destruct (Z.leb_spec 0 e').
  - destruct (_ * _)%Z; try done. unfold binary_round. destruct (shl_align _ _ _).
    by apply binary_round_aux_bound.
  - unfold SFdiv_core_binary. destruct (Z.div_eucl _ _) as [q r] eqn:E.
    apply binary_round_aux_bound.
    match type of E with Z.div_eucl ?n _ = _ => set (num := n) in E end.
    assert (0 ≤ num)%Z.
    { unfold num. destruct (_ - _)%Z; try lia. apply Z.shiftl_nonneg. lia. }
    assert (q = num / 10 ^ (- e'))%Z as -> by (unfold Z.div; by rewrite E).
    apply Z.div_pos; [done|]. apply Z.pow_pos_nonneg; lia.
Qed.

Lemma strtod_binary64 s : binary64 (fst (strtod s)).
Proof.
  unfold strtod. destruct (read_sign s) as [neg r]. destruct (read_mantissa r) as [[ip fp] t].
  destruct (ip ++ fp); [done|]. destruct (read_exponent t). apply double_of_decimal_bound.
Qed.

(** ** Lemmas: decimal texts *)

Lemma digits_aux_length fuel n acc :
  (0 ≤ n < 2 ^ Z.of_nat fuel)%Z → (0 < fuel)%nat →
  ∃ L, length (digits_aux fuel n acc) = S L + length acc ∧ (n < 10 ^ Z.of_nat (S L))%Z ∧
       ((0 < n)%Z → (10 ^ Z.of_nat L ≤ n)%Z) ∧ (n = 0%Z → L = 0).
Proof.
  revert n acc. induction fuel as [|f IH]; intros n acc Hn Hf; [lia|]. cbn [digits_aux].
  pose proof (Z.div_mod n 10) as Hdm. pose proof (Z.mod_pos_bound n 10) as Hmb.
  destruct (Z.eqb_spec (n / 10) 0) as [Hz|Hz].
  - exists 0. split; [done|]. change (10 ^ Z.of_nat 1)%Z with 10%Z. cbn. lia.
  - assert (Hf' : (0 < f)%nat).
    { destruct f; [|lia]. exfalso. apply Hz, Z.div_small. cbn in Hn. lia. }
    assert (Hn' : (0 ≤ n / 10 < 2 ^ Z.of_nat f)%Z).
    { rewrite Nat2Z.inj_succ, Z.pow_succ_r in Hn by lia.
      split; [apply Z.div_pos; lia|]. apply Z.div_lt_upper_bound; lia. }
    destruct (IH (n / 10)%Z (chr (48 + n mod 10) :: acc) Hn' Hf') as (L & E & H1 & H2 & _).
    exists (S L). rewrite E. split; [cbn; lia|].
    rewrite (Nat2Z.inj_succ (S L)), (Nat2Z.inj_succ L), !Z.pow_succ_r in * by lia.
    assert (0 < n / 10)%Z by lia. specialize (H2 ltac:(lia)). split; [lia|]. split; [lia|].
    intros ->. done.
Qed.

Lemma digits_length n : (0 ≤ n)%Z →
  1 ≤ length (digits n) ∧ (n < 10 ^ Z.of_nat (length (digits n)))%Z ∧
  ∀ k, 1 ≤ k → (n < 10 ^ Z.of_nat k)%Z → length (digits n) ≤ k.
Proof.
  intros Hn. unfold digits.
  destruct (digits_aux_length (S (Z.to_nat (Z.log2 n))) n []) as (L & -> & H1 & H2 & H3); [|lia|].
  { split; [done|]. rewrite Nat2Z.inj_succ, Z2Nat.id by apply Z.log2_nonneg.
    destruct (Z.eq_dec n 0%Z) as [->|]; [done|]. apply Z.log2_spec. lia. }
  rewrite Nat.add_0_r. split; [lia|]. split; [done|]. intros k Hk Hlt.
  destruct (Z.eq_dec n 0%Z) as [->|Hne]; [rewrite H3 by done; lia|].
  specialize (H2 ltac:(lia)). destruct (Nat.le_gt_cases (S L) k) as [|Hgt]; [done|].
  exfalso. assert (10 ^ Z.of_nat k ≤ 10 ^ Z.of_nat L)%Z by (apply Z.pow_le_mono_r; lia). lia.
Qed.

Lemma neg_exponent_spec fuel j n d J :
  (j ≤ J < j + Z.of_nat fuel)%Z → (0 < n)%Z → (0 ≤ j)%Z → (d ≤ n * 10 ^ J)%Z →
  (n * 10 ^ (j - 1) < d ∨ j = 0)%Z →
  let r := neg_exponent fuel j n d in
  (j ≤ r ≤ J)%Z ∧ (n * 10 ^ (r - 1) < d ∨ r = 0)%Z.
Proof.
  revert j. induction fuel as [|f IH]; intros j HJ Hn Hj Hd Hlow; [lia|].
  cbn [neg_exponent]. destruct (Z.leb_spec d (n * 10 ^ j)); [lia|].
  assert (j ≠ J) by (intros ->; lia).
  destruct (IH (j + 1)%Z) as [H1 H2]; [lia|lia|lia|done| |lia].
  left. by replace (j + 1 - 1)%Z with j by lia.
Qed.

Lemma round_half_even_bound n d b :
  (0 ≤ n)%Z → (0 < d)%Z → (n < d * b)%Z → (0 ≤ round_half_even n d ≤ b)%Z.
Proof.
  intros Hn Hd Hb. unfold round_half_even.
  assert (0 ≤ n / d < b)%Z by (split; [apply Z.div_pos; lia|apply Z.div_lt_upper_bound; lia]).
  destruct (Z.compare _ _); [destruct (Z.even _)| |]; lia.
Qed.

(** The digits and the exponent of [n / d], between 10^-324 and 10^309. *)
Lemma significant_bound p n d :
  (1 ≤ p)%Z → (0 < n)%Z → (0 < d)%Z → (d ≤ n * 10 ^ 324)%Z → (n < d * 10 ^ 309)%Z →
  let '(m, x) := significant p n d in (0 ≤ m < 10 ^ p)%Z ∧ (-324 ≤ x ≤ 309)%Z.
Proof.
  intros Hp Hn Hd Hlo Hhi. unfold significant.
  set (k := if (d <=? n)%Z then _ else _).
  assert (Hk : (-324 ≤ k ≤ 308)%Z ∧ (0 ≤ k + 1 → n < d * 10 ^ (k + 1))%Z ∧
               (k + 1 ≤ 0 → n * 10 ^ (- (k + 1)) < d)%Z).
  { unfold k. clear k. destruct (Z.leb_spec d n) as [Hle|Hlt].
    - assert (Hq : (0 ≤ n / d)%Z) by (apply Z.div_pos; lia).
      destruct (digits_length (n / d) Hq) as (H1 & H2 & H3).
      specialize (H3 309 ltac:(lia)). change (Z.of_nat 309) with 309%Z in H3.
      assert (length (digits (n / d)) ≤ 309) by (apply H3, Z.div_lt_upper_bound; lia).
      set (L := length (digits (n / d))) in *.
      replace (Z.of_nat L - 1 + 1)%Z with (Z.of_nat L) by lia. split; [lia|]. split; [|lia].
      intros _. pose proof (Z.div_mod n d). pose proof (Z.mod_pos_bound n d). nia.
    - destruct (neg_exponent_spec 340 1 n d 324) as [H1 H2]; [lia|lia|lia|done| |].
      { left. change (10 ^ (1 - 1))%Z with 1%Z. lia. }
      set (j := neg_exponent 340 1 n d) in *. split; [lia|]. split; [|].
      + intros Hj. assert (j = 1)%Z as -> by lia. change (10 ^ (-1 + 1))%Z with 1%Z. lia.
      + intros _. replace (- (- j + 1))%Z with (j - 1)%Z by lia. lia. }
  clearbody k. destruct Hk as (Hk & Hk1 & Hk2).
  set (t := (p - 1 - k)%Z). set (m := round_half_even _ _).
  assert (Hm : (0 ≤ m ≤ 10 ^ p)%Z).
  { assert (Hpow : ∀ a, (0 ≤ a → 0 < 10 ^ a)%Z) by (intros; apply Z.pow_pos_nonneg; lia).
    pose proof (Hpow (Z.max t 0) ltac:(lia)). pose proof (Hpow (Z.max (- t) 0) ltac:(lia)).
    apply round_half_even_bound; [nia|nia|].
    destruct (Z.le_gt_cases 0 t) as [Ht|Ht].
    - rewrite (Z.max_l t 0), (Z.max_r (- t) 0), Z.mul_1_r by lia.
      destruct (Z.le_gt_cases 0 (k + 1)) as [Hk'|Hk'].
      + specialize (Hk1 Hk'). replace p with (k + 1 + t)%Z by (unfold t; lia).
        rewrite Z.pow_add_r by lia. pose proof (Hpow t Ht). nia.
      + specialize (Hk2 ltac:(lia)). replace t with (- (k + 1) + p)%Z by (unfold t; lia).
        rewrite Z.pow_add_r by lia. pose proof (Hpow p ltac:(lia)). nia.
    - rewrite (Z.max_r t 0), (Z.max_l (- t) 0), Z.mul_1_r by lia.
      specialize (Hk1 ltac:(lia)). rewrite <- Z.mul_assoc, <- Z.pow_add_r by lia.
      by replace (- t + p)%Z with (k + 1)%Z by (unfold t; lia). }
  destruct (Z.eqb_spec m (10 ^ p)) as [E|E]; [|lia].
  split; [|lia]. split; [apply Z.pow_nonneg; lia|]. apply Z.pow_lt_mono_r; lia.
Qed.

Lemma strip_zeros_length s : length (strip_zeros s) ≤ length s.
Proof.
  unfold strip_zeros. rewrite length_reverse, <- (length_reverse s).
  induction (reverse s) as [|c r IH]; cbn; [lia|]. destruct (Ascii.eqb c "0"); cbn; lia.
Qed.

Lemma with_fraction_length i f : length (with_fraction i f) ≤ S (length i + length f).
Proof.
  unfold with_fraction. pose proof (strip_zeros_length f).
  destruct (strip_zeros f) as [|c r]; [lia|]. rewrite length_app. cbn in *. lia.
Qed.

Lemma format_digits_length p m x :
  (1 ≤ p)%Z → (0 ≤ m < 10 ^ p)%Z → (-324 ≤ x ≤ 309)%Z →
  (Z.of_nat (length (format_digits p m x)) ≤ p + 6)%Z.
Proof.
  intros Hp Hm Hx. unfold format_digits.
  destruct (digits_length m) as (_ & _ & Hd); [lia|].
  specialize (Hd (Z.to_nat p) ltac:(lia)). rewrite Z2Nat.id in Hd by lia. specialize (Hd ltac:(lia)).
  set (ds := digits m) in *.
  destruct ((-4 <=? x) && (x <? p))%Z eqn:E; reflect_bool.
  - destruct (Z.leb_spec 0 x).
    + pose proof (with_fraction_length (take (Z.to_nat (x + 1)) ds) (drop (Z.to_nat (x + 1)) ds)) as Hw.
      rewrite <- length_app, take_drop in Hw. lia.
    + pose proof (with_fraction_length #"0" (replicate (Z.to_nat (- x - 1)) "0"%char ++ ds)) as Hw.
      rewrite length_app, length_replicate in Hw. change (length #"0") with 1 in Hw. lia.
  - rewrite length_app. pose proof (with_fraction_length (take 1 ds) (drop 1 ds)) as Hw.
    rewrite <- length_app, take_drop in Hw.
    destruct (digits_length (Z.abs x)) as (_ & _ & Ha); [lia|].
    specialize (Ha 3 ltac:(lia)). change (10 ^ Z.of_nat 3)%Z with 1000%Z in Ha.
    specialize (Ha ltac:(lia)). unfold format_exponent. cbn [length].
    assert (length (if (Z.abs x <? 10)%Z then "0"%char :: digits (Z.abs x) else digits (Z.abs x)) ≤ 3).
    { destruct (Z.ltb_spec (Z.abs x) 10); [|lia].
      destruct (digits_length (Z.abs x)) as (_ & _ & Ha1); [lia|].
      specialize (Ha1 1 ltac:(lia)). change (10 ^ Z.of_nat 1)%Z with 10%Z in Ha1.
      specialize (Ha1 ltac:(lia)). cbn [length]. lia. }
    lia.
Qed.

(** 24 characters: a sign, a digit, a point, 16 digits, and an exponent of
    5. *)
Lemma format_g_length p d :
  (1 ≤ p ≤ 17)%Z → binary64 d → length (format_g p d) ≤ 24.
Proof.
  intros Hp Hd. destruct d as [s|s| |s m e]; cbn [format_g];
    [destruct s; cbn; lia|destruct s; cbn; lia|cbn; lia|].
  destruct Hd as [Hm He].
  destruct (if (0 <=? e)%Z then _ else _) as [n q] eqn:Enq.
  assert (Hnq : (0 < n)%Z ∧ (0 < q)%Z ∧ (q ≤ n * 10 ^ 324)%Z ∧ (n < q * 10 ^ 309)%Z).
  { destruct (Z.leb_spec 0 e) as [Hle|Hle]; injection Enq as <- <-.
    - assert (Hp0 : (0 < 2 ^ e)%Z) by (apply Z.pow_pos_nonneg; lia).
      assert (Hp1 : (2 ^ e ≤ 2 ^ 971)%Z) by (apply Z.pow_le_mono_r; lia).
      assert (H1 : (2 ^ 53 * 2 ^ 971 < 10 ^ 309)%Z) by (vm_compute; done).
      assert (H2 : (1 ≤ 10 ^ 324)%Z) by (vm_compute; done).
      set (A := (10 ^ 324)%Z) in *. set (B := (10 ^ 309)%Z) in *. set (X := (2 ^ 971)%Z) in *.
      set (Y := (2 ^ 53)%Z) in *. nia.
    - assert (Hp0 : (0 < 2 ^ (- e))%Z) by (apply Z.pow_pos_nonneg; lia).
      assert (Hp1 : (2 ^ (- e) ≤ 2 ^ 1074)%Z) by (apply Z.pow_le_mono_r; lia).
      assert (H1 : (2 ^ 1074 ≤ 10 ^ 324)%Z) by (vm_compute; done).
      assert (H2 : (2 ^ 53 ≤ 10 ^ 309)%Z) by (vm_compute; done).
      set (A := (10 ^ 324)%Z) in *. set (B := (10 ^ 309)%Z) in *. set (X := (2 ^ 1074)%Z) in *.
      set (Y := (2 ^ 53)%Z) in *. nia. }
  destruct Hnq as (H1 & H2 & H3 & H4).
  pose proof (significant_bound p n q ltac:(lia) H1 H2 H3 H4) as Hs.
  destruct (significant p n q) as [ds x]. destruct Hs as [Hds Hx].
  pose proof (format_digits_length p ds x ltac:(lia) Hds Hx) as Hf.
  rewrite length_app. destruct s; cbn [length String.list_ascii_of_string]; lia.
Qed.
