(* ===== verification/CJson.v ===== *)
(** * JSON parser (src/libs/cJSON.c, src/libs/cJSON.h)

    The item structure and the parser, function by function.  The buffer is
    an array of bytes read by index: a read outside it, a write outside a
    heap block, a pointer moved below the buffer, or a loop that runs out of
    its bound is [Undef].  A C function that returns [false] is a [Throw],
    with the buffer as it left it.  The allocator is assumed to succeed. *)
From Stdlib Require Import SpecFloat.
From S2P Require Import Prelude.
From S2P Require Import CLib.
From S2P Require Import CFloat.

(** ** Items *)

Definition cJSON_Invalid : Z := 0.
Definition cJSON_False : Z := 1.
Definition cJSON_True : Z := 2.
Definition cJSON_NULL : Z := 4.
Definition cJSON_Number : Z := 8.
Definition cJSON_String : Z := 16.
Definition cJSON_Array : Z := 32.
Definition cJSON_Object : Z := 64.
Definition cJSON_Raw : Z := 128.
Definition cJSON_IsReference : Z := 256.
Definition cJSON_StringIsConst : Z := 512.

Definition CJSON_NESTING_LIMIT : nat := 1000.

#[local] Set Warnings "-register-all".

(** [struct cJSON]: [child] is the list its [next] pointers chain; [name] is
    the member [string]. *)
Inductive cJSON : Type := mk_cJSON {
  jtype : Z;
  valuestring : option str;
  valueint : Z;
  valuedouble : double;
  name : option str;
  child : list cJSON
}.

(** [cJSON_New_Item]: a block of zeros. *)
Definition cJSON_New_Item : cJSON := mk_cJSON cJSON_Invalid None 0 (S754_zero false) None [].

Definition set_jtype (t : Z) (i : cJSON) : cJSON :=
  mk_cJSON t (valuestring i) (valueint i) (valuedouble i) (name i) (child i).
Definition set_valuestring (s : option str) (i : cJSON) : cJSON :=
  mk_cJSON (jtype i) s (valueint i) (valuedouble i) (name i) (child i).
Definition set_valueint (n : Z) (i : cJSON) : cJSON :=
  mk_cJSON (jtype i) (valuestring i) n (valuedouble i) (name i) (child i).
Definition set_valuedouble (d : double) (i : cJSON) : cJSON :=
  mk_cJSON (jtype i) (valuestring i) (valueint i) d (name i) (child i).
Definition set_name (s : option str) (i : cJSON) : cJSON :=
  mk_cJSON (jtype i) (valuestring i) (valueint i) (valuedouble i) s (child i).
Definition set_child (c : list cJSON) (i : cJSON) : cJSON :=
  mk_cJSON (jtype i) (valuestring i) (valueint i) (valuedouble i) (name i) c.

(** ** The parse buffer *)

Record parse_buffer : Type := {
  content : str;
  blength : nat;
  offset : nat;
  depth : nat
}.

Abbreviation P := (stM () parse_buffer).

Definition fail {A} : P A := mthrow tt.
Definition undef {A} : P A := fun b => (b, Undef).

Definition set_offset (o : nat) : P unit :=
  modify (fun b => {| content := content b; blength := blength b; offset := o;
                      depth := depth b |}).
Definition set_depth (d : nat) : P unit :=
  modify (fun b => {| content := content b; blength := blength b; offset := offset b;
                      depth := d |}).

Definition advance (n : nat) : P unit := b ← get; set_offset (offset b + n).
(** [offset--] on a [size_t]. *)
Definition retreat : P unit :=
  b ← get; match offset b with O => undef | S o => set_offset o end.

(** The macros [can_read], [can_access_at_index], [buffer_at_offset]. *)
Definition can_read (size : nat) : P bool :=
  b ← get; mret (offset b + size <=? blength b)%nat.
Definition can_access_at_index (index : nat) : P bool :=
  b ← get; mret (offset b + index <? blength b)%nat.

(** [content[i]] and [buffer_at_offset(buffer)[i]] *)
Definition read_abs (i : nat) : P ascii :=
  b ← get; match content b !! i with Some c => mret c | None => undef end.
Definition read_at (i : nat) : P ascii := b ← get; read_abs (offset b + i).

(** [can_access_at_index(buffer, 0) && buffer_at_offset(buffer)[0] == c] *)
Definition at_char (test : ascii → bool) : P bool :=
  ok ← can_access_at_index 0;
  if (ok : bool) then c ← read_at 0; mret (test c) else mret false.
Definition looking_at (c : ascii) : P bool := at_char (fun d => Ascii.eqb d c).

(** [strncmp(buffer_at_offset(buffer), lit, strlen(lit)) == 0] *)
Fixpoint strncmp_at (i : nat) (lit : str) : P bool :=
  match lit with
  | [] => mret true
  | c :: r => d ← read_at i; if Ascii.eqb d c then strncmp_at (S i) r else mret false
  end.

Fixpoint skip_whitespace_loop (fuel : nat) : P unit :=
  match fuel with
  | O => undef
  | S f =>
      ws ← at_char (fun c => (ord c <=? 32)%Z);
      if (ws : bool) then advance 1;; skip_whitespace_loop f else mret tt
  end.

Definition buffer_skip_whitespace : P unit :=
  b ← get;
  skip_whitespace_loop (S (blength b - offset b));;
  b ← get;
  if (offset b =? blength b)%nat then retreat else mret tt.

(** A buffer whose offset is not 0 makes [skip_utf8_bom] return NULL, on
    which the parser fails. *)
Definition skip_utf8_bom : P unit :=
  b ← get;
  if negb (offset b =? 0)%nat then fail else
  ok ← can_access_at_index 4;
  if (ok : bool) then
    bom ← strncmp_at 0 [chr 239; chr 187; chr 191];
    if (bom : bool) then advance 3 else mret tt
  else mret tt.

(** ** Numbers *)

Definition is_number_char (c : ascii) : bool :=
  is_digit c || Ascii.eqb c "+" || Ascii.eqb c "-" || Ascii.eqb c "e" || Ascii.eqb c "E"
  || Ascii.eqb c ".".

(** The copy loop of [parse_number]: at most 63 characters; the decimal
    point of the C locale is the point itself. *)
Fixpoint number_chars (n i : nat) : P str :=
  match n with
  | O => mret []
  | S n' =>
      ok ← can_access_at_index i;
      if (ok : bool) then
        c ← read_at i;
        if is_number_char c then s ← number_chars n' (S i); mret (c :: s) else mret []
      else mret []
  end.

(** The saturating conversion of a double to [valueint]. *)
Definition saturate {E} (d : double) : outcome E Z :=
  if double_ge d INT_MAX then Ret INT_MAX
  else if double_le d INT_MIN then Ret INT_MIN
  else int_of_double d.

Definition parse_number (item : cJSON) : P cJSON :=
  number_c_string ← number_chars 63 0;
  let '(number, n) := strtod number_c_string in
  if (n =? 0)%nat then fail else
  v ← lift (saturate number);
  advance n;;
  mret (set_jtype cJSON_Number (set_valueint v (set_valuedouble number item))).

(** ** Strings *)

Definition hex_digit (c : ascii) : option Z :=
  let x := ord c in
  if ((48 <=? x) && (x <=? 57))%Z then Some (x - 48)%Z
  else if ((65 <=? x) && (x <=? 70))%Z then Some (10 + x - 65)%Z
  else if ((97 <=? x) && (x <=? 102))%Z then Some (10 + x - 97)%Z
  else None.

(** The loop of [parse_hex4] from index [i], with [n] digits left; an invalid
    digit makes the result 0. *)
Fixpoint parse_hex4_loop (n i : nat) (h : Z) : P Z :=
  match n with
  | O => mret h
  | S n' =>
      c ← read_abs i;
      match hex_digit c with
      | None => mret 0%Z
      | Some d =>
          let h := (h + d)%Z in
          let h := if (0 <? n')%nat then Z.shiftl h 4 else h in
          parse_hex4_loop n' (S i) h
      end
  end.
Definition parse_hex4 (i : nat) : P Z := parse_hex4_loop 4 i 0.

(** The bytes written for a code point, by the loop that fills the
    continuation bytes from the last one. *)
Fixpoint utf8_continuation (n : nat) (codepoint : Z) (acc : str) : Z * str :=
  match n with
  | O => (codepoint, acc)
  | S n' => utf8_continuation n' (Z.shiftr codepoint 6)
              (chr (Z.land (Z.lor codepoint 128) 191) :: acc)
  end.

Definition utf8_encode (codepoint : Z) : option str :=
  let encode utf8_length first_byte_mark :=
    let '(cp, rest) := utf8_continuation (utf8_length - 1) codepoint [] in
    if (1 <? utf8_length)%nat then chr (Z.land (Z.lor cp first_byte_mark) 255) :: rest
    else chr (Z.land cp 127) :: rest in
  if (codepoint <? 128)%Z then Some (encode 1 0%Z)
  else if (codepoint <? 2048)%Z then Some (encode 2 192%Z)
  else if (codepoint <? 65536)%Z then Some (encode 3 224%Z)
  else if (codepoint <=? 1114111)%Z then Some (encode 4 240%Z)
  else None.

(** [utf16_literal_to_utf8]: the bytes and the length of the sequence, or
    [None] for a returned 0. *)
Definition utf16_literal_to_utf8 (input_pointer input_end : nat) : P (option (str * nat)) :=
  let finish codepoint len :=
    match utf8_encode codepoint with Some u => Some (u, len) | None => None end in
  if (input_end - input_pointer <? 6)%nat then mret None else
  first_code ← parse_hex4 (input_pointer + 2);
  if ((56320 <=? first_code) && (first_code <=? 57343))%Z then mret None else
  if ((55296 <=? first_code) && (first_code <=? 56319))%Z then
    let second_sequence := (input_pointer + 6)%nat in
    if (input_end - second_sequence <? 6)%nat then mret None else
    c0 ← read_abs second_sequence;
    if negb (Ascii.eqb c0 "\") then mret None else
    c1 ← read_abs (second_sequence + 1);
    if negb (Ascii.eqb c1 "u") then mret None else
    second_code ← parse_hex4 (second_sequence + 2);
    if ((second_code <? 56320) || (57343 <? second_code))%Z then mret None else
    mret (finish (65536 + Z.lor (Z.shiftl (Z.land first_code 1023) 10)
                                (Z.land second_code 1023))%Z 12)
  else mret (finish first_code 6).

(** The first pass over a string literal: the index of the closing quote (or
    of the end of the buffer) and the number of escapes.  [None]: the buffer
    ends in a backslash. *)
Fixpoint scan_string (fuel input_end skipped_bytes : nat) : P (option (nat * nat)) :=
  match fuel with
  | O => undef
  | S f =>
      b ← get;
      if (input_end <? blength b)%nat then
        c ← read_abs input_end;
        if Ascii.eqb c "034" then mret (Some (input_end, skipped_bytes))
        else if Ascii.eqb c "\" then
          if (blength b <=? input_end + 1)%nat then mret None
          else scan_string f (input_end + 2) (S skipped_bytes)
        else scan_string f (input_end + 1) skipped_bytes
      else mret (Some (input_end, skipped_bytes))
  end.

(** Bytes written at the end of the output, a heap block of [size] bytes. *)
Definition push (size : nat) (out bytes : str) : P str :=
  if (length out + length bytes <=? size)%nat then mret (out ++ bytes) else undef.

Definition simple_escape (c : ascii) : option ascii :=
  if Ascii.eqb c "b" then Some (chr 8)
  else if Ascii.eqb c "f" then Some (chr 12)
  else if Ascii.eqb c "n" then Some (chr 10)
  else if Ascii.eqb c "r" then Some (chr 13)
  else if Ascii.eqb c "t" then Some (chr 9)
  else if Ascii.eqb c "034" || Ascii.eqb c "\" || Ascii.eqb c "/" then Some c
  else None.

(** The exit [fail] of [parse_string]. *)
Definition string_fail {A} (input_pointer : nat) : P A := set_offset input_pointer;; fail.

(** The second pass: the literal is unescaped into the output. *)
Fixpoint unescape (fuel size input_end input_pointer : nat) (out : str) : P str :=
  match fuel with
  | O => undef
  | S f =>
      if (input_pointer <? input_end)%nat then
        c ← read_abs input_pointer;
        if negb (Ascii.eqb c "\") then
          out ← push size out [c];
          unescape f size input_end (input_pointer + 1) out
        else if (input_end - input_pointer <? 1)%nat then string_fail input_pointer
        else
          e ← read_abs (input_pointer + 1);
          match simple_escape e with
          | Some x =>
              out ← push size out [x];
              unescape f size input_end (input_pointer + 2) out
          | None =>
              if Ascii.eqb e "u" then
                r ← utf16_literal_to_utf8 input_pointer input_end;
                match r with
                | Some (u, sequence_length) =>
                    out ← push size out u;
                    unescape f size input_end (input_pointer + sequence_length) out
                | None => string_fail input_pointer
                end
              else string_fail input_pointer
          end
      else mret out
  end.

Definition parse_string (item : cJSON) : P cJSON :=
  b ← get;
  let start := offset b in
  let input_pointer := (start + 1)%nat in
  q ← read_at 0;
  if negb (Ascii.eqb q "034") then string_fail input_pointer else
  r ← scan_string (S (blength b)) input_pointer 0;
  match r with
  | None => string_fail input_pointer
  | Some (input_end, skipped_bytes) =>
      if (blength b <=? input_end)%nat then string_fail input_pointer else
      close ← read_abs input_end;
      if negb (Ascii.eqb close "034") then string_fail input_pointer else
      let allocation_length := (input_end - start - skipped_bytes)%nat in
      let size := (allocation_length + 1)%nat in
      out ← unescape (S (blength b)) size input_end input_pointer [];
      push size out [NUL];;
      set_offset (input_end + 1);;
      mret (set_jtype cJSON_String (set_valuestring (Some out) item))
  end.

(** ** Values *)

Section Containers.

(** [parse_value], one nesting level down. *)
Variable parse_value : cJSON → P cJSON.

(** The [do ... while] loop of [parse_array]: the items from the next one
    on. *)
Fixpoint array_loop (fuel : nat) : P (list cJSON) :=
  match fuel with
  | O => undef
  | S f =>
      advance 1;;
      buffer_skip_whitespace;;
      current_item ← parse_value cJSON_New_Item;
      buffer_skip_whitespace;;
      comma ← looking_at ",";
      if (comma : bool) then rest ← array_loop f; mret (current_item :: rest)
      else mret [current_item]
  end.

Definition object_entry : P cJSON :=
  advance 1;;
  buffer_skip_whitespace;;
  key ← parse_string cJSON_New_Item;
  buffer_skip_whitespace;;
  (* swap valuestring and string: the name was parsed *)
  let current_item := set_valuestring None (set_name (valuestring key) key) in
  colon ← looking_at ":";
  if negb colon then fail else
  advance 1;;
  buffer_skip_whitespace;;
  current_item ← parse_value current_item;
  buffer_skip_whitespace;;
  mret current_item.

Fixpoint object_loop (fuel : nat) : P (list cJSON) :=
  match fuel with
  | O => undef
  | S f =>
      current_item ← object_entry;
      comma ← looking_at ",";
      if (comma : bool) then rest ← object_loop f; mret (current_item :: rest)
      else mret [current_item]
  end.

(** The common shape of [parse_array] and [parse_object] after the depth
    test: opening bracket, items, closing bracket. *)
Definition container (opening closing : ascii) (jt : Z) (items : nat → P (list cJSON))
  (item : cJSON) : P cJSON :=
  advance 1;;
  buffer_skip_whitespace;;
  empty ← looking_at closing;
  head ←
    (if (empty : bool) then mret []
     else
       ok ← can_access_at_index 0;
       if negb ok then retreat;; fail else
       retreat;;
       b ← get;
       items ← items (S (blength b - offset b));
       fin ← looking_at closing;
       if negb fin then fail else mret items);
  b ← get;
  (match depth b with O => undef | S d => set_depth d end);;
  advance 1;;
  mret (set_jtype jt (set_child head item)).

Definition parse_array (item : cJSON) : P cJSON :=
  b ← get;
  if (CJSON_NESTING_LIMIT <=? depth b)%nat then fail else
  set_depth (S (depth b));;
  c ← read_at 0;
  if negb (Ascii.eqb c "[") then fail else
  container "[" "]" cJSON_Array array_loop item.

Definition parse_object (item : cJSON) : P cJSON :=
  b ← get;
  if (CJSON_NESTING_LIMIT <=? depth b)%nat then fail else
  set_depth (S (depth b));;
  ok ← looking_at "{";
  if negb ok then fail else
  container "{" "}" cJSON_Object object_loop item.

End Containers.

(** [can_read(n) && strncmp(...) == 0] *)
Definition literal (lit : str) : P bool :=
  ok ← can_read (length lit);
  if (ok : bool) then strncmp_at 0 lit else mret false.

Fixpoint parse_value (fuel : nat) (item : cJSON) : P cJSON :=
  match fuel with
  | O => undef
  | S f =>
      null ← literal #"null";
      if (null : bool) then advance 4;; mret (set_jtype cJSON_NULL item) else
      false_ ← literal #"false";
      if (false_ : bool) then advance 5;; mret (set_jtype cJSON_False item) else
      true_ ← literal #"true";
      if (true_ : bool) then
        advance 4;; mret (set_valueint 1 (set_jtype cJSON_True item))
      else
      str_ ← looking_at "034";
      if (str_ : bool) then parse_string item else
      num ← at_char (fun c => Ascii.eqb c "-" || is_digit c);
      if (num : bool) then parse_number item else
      arr ← looking_at "[";
      if (arr : bool) then parse_array (parse_value f) item else
      obj ← looking_at "{";
      if (obj : bool) then parse_object (parse_value f) item else
      fail
  end.

(** Deep enough for every nesting the limit admits. *)
Definition parse_fuel : nat := S CJSON_NESTING_LIMIT.

(** ** Entry points *)

(** What [cJSON_ParseWithOpts] gives back: the item, [*return_parse_end] and
    [global_error.position], as offsets in the text. *)
Record parse_result : Type := {
  pr_item : option cJSON;
  pr_end : nat;
  pr_error : nat
}.

(** The exit [fail]: the position is kept inside the buffer. *)
Definition parse_failed (b : parse_buffer) : parse_result :=
  let position := if (offset b <? blength b)%nat then offset b
                  else if (0 <? blength b)%nat then (blength b - 1)%nat else 0 in
  {| pr_item := None; pr_end := position; pr_error := position |}.

Definition parse_document (require_null_terminated : bool) : P cJSON :=
  skip_utf8_bom;;
  buffer_skip_whitespace;;
  item ← parse_value parse_fuel cJSON_New_Item;
  if require_null_terminated then
    buffer_skip_whitespace;;
    b ← get;
    if (blength b <=? offset b)%nat then fail else
    c ← read_at 0;
    if Ascii.eqb c NUL then mret item else fail
  else mret item.

Definition cJSON_ParseWithOpts {E} (value : option str) (require_null_terminated : bool)
  : outcome E parse_result :=
  match value with
  | None => Ret {| pr_item := None; pr_end := 0; pr_error := 0 |}
  | Some v =>
      let text := c_str v ++ [NUL] in
      let buffer := {| content := text; blength := length text; offset := 0; depth := 0 |} in
      match parse_document require_null_terminated buffer with
      | (b, Ret item) => Ret {| pr_item := Some item; pr_end := offset b; pr_error := 0 |}
      | (b, Throw _) => Ret (parse_failed b)
      | (_, Undef) => Undef
      end
  end.

Definition cJSON_Parse {E} (value : str) : outcome E (option cJSON) :=
  pr_item <$> cJSON_ParseWithOpts (Some value) false.
