(* ===== verification/CJsonTree.v ===== *)
(** * JSON items: access, construction, change (src/libs/cJSON.c)

    The functions of cJSON.c that look items up, create them, add, detach,
    insert, replace and duplicate them.  An item is the value its pointer
    leads to; a function that changes a container returns the container it
    leaves.  Pointers that may be null are options. *)
From Stdlib Require Import SpecFloat.
From S2P Require Import Prelude.
From S2P Require Import CLib.
From S2P Require Import CFloat.
From S2P Require Import CJson.

(** ** Definitions *)

(** *** Kinds *)

(** [item->type & 0xFF] *)
Definition kind (i : cJSON) : Z := Z.land (jtype i) 255.

Definition is_kind (k : Z) (item : option cJSON) : bool :=
  match item with None => false | Some i => (kind i =? k)%Z end.

Definition cJSON_IsInvalid := is_kind cJSON_Invalid.
Definition cJSON_IsFalse := is_kind cJSON_False.
Definition cJSON_IsTrue := is_kind cJSON_True.
Definition cJSON_IsNull := is_kind cJSON_NULL.
Definition cJSON_IsNumber := is_kind cJSON_Number.
Definition cJSON_IsString := is_kind cJSON_String.
Definition cJSON_IsArray := is_kind cJSON_Array.
Definition cJSON_IsObject := is_kind cJSON_Object.
Definition cJSON_IsRaw := is_kind cJSON_Raw.
Definition cJSON_IsBool (item : option cJSON) : bool :=
  match item with
  | None => false
  | Some i => negb (Z.land (jtype i) (Z.lor cJSON_True cJSON_False) =? 0)%Z
  end.

Definition cJSON_GetStringValue (item : option cJSON) : option str :=
  if negb (cJSON_IsString item) then None else item ≫= valuestring.

(** *** Look-up *)

(** [case_insensitive_strcmp]: the loop over two NUL-terminated strings. *)
Fixpoint strcasecmp_loop (s1 s2 : str) : Z :=
  let c1 := head s1 in
  let c2 := head s2 in
  let v c := ord (tolower (default NUL c)) in
  if (v c1 =? v c2)%Z then
    match s1, s2 with
    | c1 :: r1, _ :: r2 => if Ascii.eqb c1 NUL then 0%Z else strcasecmp_loop r1 r2
    | _, _ => 0%Z
    end
  else (v c1 - v c2)%Z.

Definition case_insensitive_strcmp (string1 string2 : option str) : Z :=
  match string1, string2 with
  | Some s1, Some s2 => strcasecmp_loop (c_str s1) (c_str s2)
  | _, _ => 1%Z
  end.

(** [size] is cast from [size_t] to [int]. *)
Definition cJSON_GetArraySize (array : option cJSON) : Z :=
  match array with None => 0%Z | Some a => s32 (Z.of_nat (length (child a))) end.

Fixpoint nth_child (l : list cJSON) (index : nat) : option cJSON :=
  match l, index with
  | [], _ => None
  | c :: _, O => Some c
  | _ :: r, S i => nth_child r i
  end.

Definition get_array_item (array : option cJSON) (index : nat) : option cJSON :=
  match array with None => None | Some a => nth_child (child a) index end.

Definition cJSON_GetArrayItem (array : option cJSON) (index : Z) : option cJSON :=
  if (index <? 0)%Z then None else get_array_item array (Z.to_nat index).

(** The position of the item the two loops of [get_object_item] stop at. *)
Fixpoint object_index (l : list cJSON) (nm : str) (case_sensitive : bool) : option nat :=
  match l with
  | [] => None
  | c :: r =>
      let goes_on :=
        if case_sensitive then
          match name c with Some s => negb (strcmp_eq nm s) | None => false end
        else negb (case_insensitive_strcmp (Some nm) (name c) =? 0)%Z in
      if goes_on then S <$> object_index r nm case_sensitive else Some 0
  end.

Definition get_object_item (object : option cJSON) (nm : option str) (case_sensitive : bool)
  : option cJSON :=
  match object, nm with
  | Some o, Some n =>
      match object_index (child o) n case_sensitive ≫= nth_child (child o) with
      | Some e => match name e with None => None | Some _ => Some e end
      | None => None
      end
  | _, _ => None
  end.

Definition cJSON_GetObjectItem (object : option cJSON) (nm : option str) :=
  get_object_item object nm false.
Definition cJSON_GetObjectItemCaseSensitive (object : option cJSON) (nm : option str) :=
  get_object_item object nm true.
Definition cJSON_HasObjectItem (object : option cJSON) (nm : option str) : bool :=
  match cJSON_GetObjectItem object nm with Some _ => true | None => false end.

(** *** Creation *)

Definition cJSON_CreateNull : cJSON := set_jtype cJSON_NULL cJSON_New_Item.
Definition cJSON_CreateTrue : cJSON := set_jtype cJSON_True cJSON_New_Item.
Definition cJSON_CreateFalse : cJSON := set_jtype cJSON_False cJSON_New_Item.
Definition cJSON_CreateBool (b : bool) : cJSON :=
  set_jtype (if b then cJSON_True else cJSON_False) cJSON_New_Item.

Definition cJSON_CreateNumber {E} (num : double) : outcome E cJSON :=
  v ← saturate num;
  Ret (set_valueint v (set_valuedouble num (set_jtype cJSON_Number cJSON_New_Item))).

(** [cJSON_SetNumberHelper] *)
Definition cJSON_SetNumberHelper {E} (object : cJSON) (number : double)
  : outcome E (cJSON * double) :=
  v ← saturate number;
  Ret (set_valuedouble number (set_valueint v object), number).

Definition cJSON_strdup (s : option str) : option str := c_str <$> s.

Definition cJSON_CreateString (s : option str) : option cJSON :=
  match cJSON_strdup s with
  | None => None
  | Some v => Some (set_valuestring (Some v) (set_jtype cJSON_String cJSON_New_Item))
  end.
Definition cJSON_CreateRaw (raw : option str) : option cJSON :=
  match cJSON_strdup raw with
  | None => None
  | Some v => Some (set_valuestring (Some v) (set_jtype cJSON_Raw cJSON_New_Item))
  end.
Definition cJSON_CreateStringReference (s : option str) : cJSON :=
  set_valuestring s (set_jtype (Z.lor cJSON_String cJSON_IsReference) cJSON_New_Item).
Definition cJSON_CreateObjectReference (c : list cJSON) : cJSON :=
  set_child c (set_jtype (Z.lor cJSON_Object cJSON_IsReference) cJSON_New_Item).
Definition cJSON_CreateArrayReference (c : list cJSON) : cJSON :=
  set_child c (set_jtype (Z.lor cJSON_Array cJSON_IsReference) cJSON_New_Item).
Definition cJSON_CreateArray : cJSON := set_jtype cJSON_Array cJSON_New_Item.
Definition cJSON_CreateObject : cJSON := set_jtype cJSON_Object cJSON_New_Item.

(** The loop the four [cJSON_Create*Array] functions share: [None] when an
    element cannot be created. *)
Fixpoint create_items {A E} (create : A → outcome E (option cJSON)) (l : list A) : outcome E (option (list cJSON)) :=
  match l with
  | [] => Ret (Some [])
  | x :: r =>
      n ← create x;
      match n with
      | None => Ret None
      | Some n => c ← create_items create r; Ret (fmap (M := option) (cons n) c)
      end
  end.

(** [numbers] must hold [count] elements. *)
Definition create_array {A E} (create : A → outcome E (option cJSON)) (numbers : option (list A)) (count : Z)
  : outcome E (option cJSON) :=
  match numbers with
  | None => Ret None
  | Some l =>
      if (count <? 0)%Z then Ret None
      else if (Z.of_nat (length l) <? count)%Z then Undef
      else c ← create_items create (take (Z.to_nat count) l);
           Ret (fmap (M := option) (fun c => set_child c cJSON_CreateArray) c)
  end.

Definition cJSON_CreateDoubleArray {E} (numbers : option (list double)) (count : Z) : outcome E (option cJSON) :=
  create_array (fun d => Some <$> cJSON_CreateNumber d) numbers count.
Definition cJSON_CreateIntArray {E} (numbers : option (list Z)) (count : Z) : outcome E (option cJSON) :=
  create_array (fun n => Some <$> cJSON_CreateNumber (double_of_Z n)) numbers count.
(** A float is passed as the double of its value, which is exact. *)
Definition cJSON_CreateFloatArray {E} (numbers : option (list double)) (count : Z) : outcome E (option cJSON) :=
  create_array (fun d => Some <$> cJSON_CreateNumber d) numbers count.
Definition cJSON_CreateStringArray {E} (strings : option (list (option str))) (count : Z) : outcome E (option cJSON) :=
  create_array (fun s => Ret (cJSON_CreateString s)) strings count.

(** *** Adding *)

(** [reference->next] and [prev] are outside the item. *)
Definition create_reference (item : option cJSON) : option cJSON :=
  match item with
  | None => None
  | Some i => Some (set_jtype (Z.lor (jtype i) cJSON_IsReference) (set_name None i))
  end.

(** The container left and the returned flag. *)
Definition add_item_to_array (array item : option cJSON) : option cJSON * bool :=
  match item, array with
  | Some i, Some a => (Some (set_child (child a ++ [i]) a), true)
  | _, _ => (array, false)
  end.

Definition cJSON_AddItemToArray (array item : option cJSON) : option cJSON :=
  fst (add_item_to_array array item).

Definition add_item_to_object (object : option cJSON) (s : option str) (item : option cJSON)
  (constant_key : bool) : option cJSON * bool :=
  match object, s, item with
  | Some _, Some k, Some i =>
      let '(new_key, new_type) :=
        if constant_key then (k, Z.lor (jtype i) cJSON_StringIsConst)
        else (c_str k, Z.land (jtype i) (Z.lnot cJSON_StringIsConst)) in
      add_item_to_array object (Some (set_jtype new_type (set_name (Some new_key) i)))
  | _, _, _ => (object, false)
  end.

Definition cJSON_AddItemToObject (object : option cJSON) (s : option str) (item : option cJSON)
  : option cJSON := fst (add_item_to_object object s item false).
Definition cJSON_AddItemToObjectCS (object : option cJSON) (s : option str) (item : option cJSON)
  : option cJSON := fst (add_item_to_object object s item true).
Definition cJSON_AddItemReferenceToArray (array item : option cJSON) : option cJSON :=
  match array with
  | None => None
  | Some _ => fst (add_item_to_array array (create_reference item))
  end.
Definition cJSON_AddItemReferenceToObject (object : option cJSON) (s : option str)
  (item : option cJSON) : option cJSON :=
  match object, s with
  | Some _, Some _ => fst (add_item_to_object object s (create_reference item) false)
  | _, _ => object
  end.

(** The shape of [cJSON_AddNullToObject] and its siblings: the container
    left, and whether the created item was added (else it is deleted and a
    null pointer is returned). *)
Definition add_created (object : option cJSON) (nm : option str) (item : option cJSON)
  : option cJSON * bool := add_item_to_object object nm item false.

Definition cJSON_AddNullToObject o nm := add_created o nm (Some cJSON_CreateNull).
Definition cJSON_AddTrueToObject o nm := add_created o nm (Some cJSON_CreateTrue).
Definition cJSON_AddFalseToObject o nm := add_created o nm (Some cJSON_CreateFalse).
Definition cJSON_AddBoolToObject o nm b := add_created o nm (Some (cJSON_CreateBool b)).
Definition cJSON_AddNumberToObject {E} o nm d : outcome E (option cJSON * bool) :=
  i ← cJSON_CreateNumber d; Ret (add_created o nm (Some i)).
Definition cJSON_AddStringToObject o nm s := add_created o nm (cJSON_CreateString s).
Definition cJSON_AddRawToObject o nm s := add_created o nm (cJSON_CreateRaw s).
Definition cJSON_AddObjectToObject o nm := add_created o nm (Some cJSON_CreateObject).
Definition cJSON_AddArrayToObject o nm := add_created o nm (Some cJSON_CreateArray).

(** *** Detaching, inserting, replacing *)

(** [cJSON_DetachItemViaPointer] for a pointer to the child at a position
    of the parent, or null. *)
Definition cJSON_DetachItemViaPointer (parent : option cJSON) (item : option nat)
  : option cJSON * option cJSON :=
  match parent, item with
  | Some p, Some i =>
      match nth_child (child p) i with
      | Some c => (Some (set_child (take i (child p) ++ drop (S i) (child p)) p), Some c)
      | None => (parent, None)
      end
  | _, _ => (parent, None)
  end.

Definition cJSON_DetachItemFromArray (array : option cJSON) (which : Z)
  : option cJSON * option cJSON :=
  if (which <? 0)%Z then (array, None)
  else cJSON_DetachItemViaPointer array (Some (Z.to_nat which)).
Definition cJSON_DeleteItemFromArray (array : option cJSON) (which : Z) : option cJSON :=
  fst (cJSON_DetachItemFromArray array which).

(** The position of what [get_object_item] returns. *)
Definition object_item_index (object : option cJSON) (nm : option str) (case_sensitive : bool)
  : option nat :=
  match get_object_item object nm case_sensitive, object, nm with
  | Some _, Some o, Some n => object_index (child o) n case_sensitive
  | _, _, _ => None
  end.

Definition cJSON_DetachItemFromObject (object : option cJSON) (nm : option str) :=
  cJSON_DetachItemViaPointer object (object_item_index object nm false).
Definition cJSON_DetachItemFromObjectCaseSensitive (object : option cJSON) (nm : option str) :=
  cJSON_DetachItemViaPointer object (object_item_index object nm true).
Definition cJSON_DeleteItemFromObject (object : option cJSON) (nm : option str) :=
  fst (cJSON_DetachItemFromObject object nm).
Definition cJSON_DeleteItemFromObjectCaseSensitive (object : option cJSON) (nm : option str) :=
  fst (cJSON_DetachItemFromObjectCaseSensitive object nm).

(** A null [newitem] is dereferenced when it goes before an element. *)
Definition cJSON_InsertItemInArray {E} (array : option cJSON) (which : Z) (newitem : option cJSON)
  : outcome E (option cJSON) :=
  if (which <? 0)%Z then Ret array else
  let i := Z.to_nat which in
  match get_array_item array i, array with
  | Some _, Some a =>
      match newitem with
      | None => Undef
      | Some n => Ret (Some (set_child (take i (child a) ++ n :: drop i (child a)) a))
      end
  | _, _ => Ret (fst (add_item_to_array array newitem))
  end.

(** [cJSON_ReplaceItemViaPointer] for a pointer to a child, and a
    replacement that is not that child. *)
Definition cJSON_ReplaceItemViaPointer (parent : option cJSON) (item : option nat)
  (replacement : option cJSON) : option cJSON * bool :=
  match parent, replacement, item with
  | Some p, Some r, Some i =>
      match nth_child (child p) i with
      | Some _ => (Some (set_child (take i (child p) ++ r :: drop (S i) (child p)) p), true)
      | None => (parent, false)
      end
  | _, _, _ => (parent, false)
  end.

Definition cJSON_ReplaceItemInArray (array : option cJSON) (which : Z) (newitem : option cJSON)
  : option cJSON :=
  if (which <? 0)%Z then array
  else fst (cJSON_ReplaceItemViaPointer array (Some (Z.to_nat which)) newitem).

(** The result is [true] even when there is nothing to replace. *)
Definition replace_item_in_object (object : option cJSON) (s : option str)
  (replacement : option cJSON) (case_sensitive : bool) : option cJSON * bool :=
  match replacement, s with
  | Some r, Some k =>
      let r := set_jtype (Z.land (jtype r) (Z.lnot cJSON_StringIsConst))
                 (set_name (cJSON_strdup (Some k)) r) in
      (fst (cJSON_ReplaceItemViaPointer object (object_item_index object s case_sensitive)
              (Some r)), true)
  | _, _ => (object, false)
  end.

Definition cJSON_ReplaceItemInObject (object : option cJSON) (s : option str)
  (newitem : option cJSON) := fst (replace_item_in_object object s newitem false).
Definition cJSON_ReplaceItemInObjectCaseSensitive (object : option cJSON) (s : option str)
  (newitem : option cJSON) := fst (replace_item_in_object object s newitem true).

(** *** Duplication *)

Fixpoint cJSON_Duplicate (item : cJSON) (recurse : bool) : cJSON :=
  mk_cJSON (Z.land (jtype item) (Z.lnot cJSON_IsReference))
    (cJSON_strdup (valuestring item)) (valueint item) (valuedouble item)
    (match name item with
     | None => None
     | Some s => if negb (Z.land (jtype item) cJSON_StringIsConst =? 0)%Z then Some s
                 else Some (c_str s)
     end)
    (if negb recurse then [] else map (fun c => cJSON_Duplicate c true) (child item)).

(** *** The library *)

Definition CJSON_VERSION_MAJOR : Z := 1.
Definition CJSON_VERSION_MINOR : Z := 7.
Definition CJSON_VERSION_PATCH : Z := 12.

(** [sprintf] into [char version[15]]. *)
Definition cJSON_Version {E} : outcome E str :=
  let version := to_string CJSON_VERSION_MAJOR ++ #"." ++ to_string CJSON_VERSION_MINOR ++ #"." ++ to_string CJSON_VERSION_PATCH in
  if (length version <? 15)%nat then Ret version else Undef.

(** A function pointer: those of the C library, or one of the caller's. *)
Inductive hook : Type := malloc | free | realloc | caller (id : positive).

#[export] Instance hook_eq_dec : EqDecision hook.
Proof. solve_decision. Defined.

Record cJSON_Hooks : Type := { malloc_fn : option hook; free_fn : option hook }.
Record internal_hooks : Type := { hooks_allocate : hook; hooks_deallocate : hook; hooks_reallocate : option hook }.

(** The [global_hooks] it leaves. *)
Definition cJSON_InitHooks (hooks : option cJSON_Hooks) : internal_hooks :=
  match hooks with
  | None => {| hooks_allocate := malloc; hooks_deallocate := free; hooks_reallocate := Some realloc |}
  | Some h =>
      let allocate := default malloc (malloc_fn h) in
      let deallocate := default free (free_fn h) in
      {| hooks_allocate := allocate; hooks_deallocate := deallocate;
         hooks_reallocate := if bool_decide (allocate = malloc) && bool_decide (deallocate = free) then Some realloc else None |}
  end.

(** ** Lemmas *)

(** [realloc] is used only on blocks that [malloc] made and [free] frees. *)
Lemma cJSON_InitHooks_realloc hooks :
  let g := cJSON_InitHooks hooks in
  hooks_reallocate g = Some realloc ∧ hooks_allocate g = malloc ∧ hooks_deallocate g = free ∨ hooks_reallocate g = None.
Proof.
  destruct hooks as [[m f]|]; cbn; [|by left]. destruct (bool_decide_reflect (default malloc m = malloc)), (bool_decide_reflect (default free f = free)); cbn; auto.
Qed.

Example version : (cJSON_Version : outcome unit str) = Ret #"1.7.12".
Proof. reflexivity. Qed.

Lemma nth_child_lookup l i : nth_child l i = l !! i.
Proof. revert i. induction l as [|c l IH]; intros [|i]; cbn; auto. Qed.

Lemma tolower_eqb_loop s1 s2 :
  no_nul s1 → no_nul s2 →
  (strcasecmp_loop s1 s2 = 0)%Z ↔ map tolower s1 = map tolower s2.
Proof.
  assert (Hv : ∀ c, c ≠ NUL → ord (tolower c) ≠ ord (tolower NUL)).
  { intros c Hc E. change (ord (tolower NUL)) with 0%Z in E. unfold tolower in E.
    pose proof (ord_range c). destruct ((65 <=? ord c) && (ord c <=? 90))%Z eqn:R.
    - rewrite ord_chr in E. reflect_bool. rewrite Z.mod_small in E; lia.
    - apply Hc, ord_inj. by rewrite E. }
  revert s2. induction s1 as [|c1 s1 IH]; intros [|c2 s2] H1 H2.
  - done.
  - apply no_nul_cons in H2 as [Hc2 _]. split; [|done]. cbn [strcasecmp_loop head default from_option id].
    specialize (Hv c2 Hc2). destruct (Z.eqb_spec (ord (tolower NUL)) (ord (tolower c2))); [congruence|].
    intros E. exfalso. lia.
  - apply no_nul_cons in H1 as [Hc1 _]. split; [|done]. cbn [strcasecmp_loop head default from_option id].
    specialize (Hv c1 Hc1). destruct (Z.eqb_spec (ord (tolower c1)) (ord (tolower NUL))); [congruence|].
    intros E. exfalso. lia.
  - apply no_nul_cons in H1 as [Hc1 H1]. apply no_nul_cons in H2 as [Hc2 H2].
    cbn [strcasecmp_loop head default from_option id map].
    apply Ascii.eqb_neq in Hc1 as ->.
    destruct (Z.eqb_spec (ord (tolower c1)) (ord (tolower c2))) as [E|E].
    + apply ord_inj in E. rewrite E, (IH s2 H1 H2). split; [by intros ->|by intros [=]].
    + split; [intros E'; exfalso; lia|]. intros E'. injection E' as E' _. by rewrite E' in E.
Qed.

(** Two names match in [cJSON_GetObjectItem] when they are equal up to the
    case of letters. *)
Definition same_name (nm : str) (n : option str) : Prop :=
  match n with Some s => map tolower (c_str nm) = map tolower (c_str s) | None => False end.

#[export] Instance same_name_dec nm n : Decision (same_name nm n).
Proof. destruct n; cbn; apply _. Defined.

Lemma case_insensitive_strcmp_spec nm n :
  (case_insensitive_strcmp (Some nm) n =? 0)%Z = bool_decide (same_name nm n).
Proof.
  destruct n as [s|]; cbn [case_insensitive_strcmp same_name]; [|done].
  apply eq_true_iff_eq. rewrite Z.eqb_eq, bool_decide_eq_true.
  apply tolower_eqb_loop; apply no_nul_c_str.
Qed.

(** [cJSON_GetObjectItem] gives the first child of that name. *)
Lemma cJSON_GetObjectItem_spec o nm :
  cJSON_GetObjectItem (Some o) (Some nm)
  = List.find (fun c => bool_decide (same_name nm (name c))) (child o).
Proof.
  unfold cJSON_GetObjectItem, get_object_item. induction (child o) as [|c l IH]; [done|].
  cbn [object_index List.find]. rewrite case_insensitive_strcmp_spec.
  destruct (bool_decide (same_name nm (name c))) eqn:E; cbn [negb].
  - cbn. apply bool_decide_eq_true in E. by destruct (name c).
  - rewrite <- IH. by destruct (object_index l nm false).
Qed.
