(* ===== verification/CJsonPrint.v ===== *)
(** * JSON printing (src/libs/cJSON.c)

    The print buffer and the functions that render an item into it.  The
    buffer is a heap block of bytes, [None] where nothing was written yet: a
    write outside the block, a [strlen] that reads an unwritten byte or runs
    past the end, and a [sprintf] that overflows its array are [Undef].  A
    function that returns [false] or a null pointer is a [Throw].  The
    allocator is assumed to succeed. *)
From Stdlib Require Import SpecFloat.
From S2P Require Import Prelude.
From S2P Require Import CLib.
From S2P Require Import CFloat.
From S2P Require Import CJson.
From S2P Require Import CJsonTree.

(** ** Definitions *)

Record printbuffer : Type := {
  pmem : list (option ascii);
  poffset : nat;
  pdepth : nat;
  noalloc : bool;
  format : bool
}.

Abbreviation PB := (stM () printbuffer).

Definition pfail {A} : PB A := mthrow tt.
Definition pundef {A} : PB A := fun p => (p, Undef).

Definition with_mem (m : list (option ascii)) (p : printbuffer) : printbuffer :=
  {| pmem := m; poffset := poffset p; pdepth := pdepth p; noalloc := noalloc p;
     format := format p |}.
Definition with_offset (o : nat) (p : printbuffer) : printbuffer :=
  {| pmem := pmem p; poffset := o; pdepth := pdepth p; noalloc := noalloc p;
     format := format p |}.
Definition with_depth (d : nat) (p : printbuffer) : printbuffer :=
  {| pmem := pmem p; poffset := poffset p; pdepth := d; noalloc := noalloc p;
     format := format p |}.

(** The size of the block [ensure] reallocates for [needed] bytes in all, or
    [None] when it refuses. *)
Definition new_size (needed : Z) : option Z :=
  if (INT_MAX / 2 <? needed)%Z then
    if (needed <=? INT_MAX)%Z then Some INT_MAX else None
  else Some (needed * 2)%Z.

(** [ensure]: at least [needed] bytes and one more at the offset. *)
Definition ensure (needed : nat) : PB unit :=
  p ← get;
  let len := length (pmem p) in
  if ((0 <? len) && (len <=? poffset p))%nat then pfail else
  if (INT_MAX <? Z.of_nat needed)%Z then pfail else
  let needed := (needed + (poffset p + 1))%nat in
  if (needed <=? len)%nat then mret tt else
  if noalloc p then pfail else
  match new_size (Z.of_nat needed) with
  | None => pfail
  | Some newsize => modify (with_mem (pmem p ++ replicate (Z.to_nat newsize - len) None))
  end.

(** Bytes stored from [output_pointer + i] on. *)
Definition write (i : nat) (s : str) : PB unit :=
  p ← get;
  let at_ := (poffset p + i)%nat in
  if (at_ + length s <=? length (pmem p))%nat
  then modify (with_mem (take at_ (pmem p) ++ (Some <$> s)
                           ++ drop (at_ + length s) (pmem p)))
  else pundef.

Fixpoint strlen_mem (m : list (option ascii)) : option nat :=
  match m with
  | Some c :: r => if Ascii.eqb c NUL then Some 0 else S <$> strlen_mem r
  | _ => None
  end.

Definition update_offset : PB unit :=
  p ← get;
  match strlen_mem (drop (poffset p) (pmem p)) with
  | Some n => modify (with_offset (poffset p + n))
  | None => pundef
  end.

Definition add_offset (n : nat) : PB unit := p ← get; modify (with_offset (poffset p + n)).

(** *** Scalars *)

(** The array [number_buffer]. *)
Definition sizeof_number_buffer : nat := 26.

(** [sprintf] into it: the text and its NUL must fit. *)
Definition sprintf_number (s : str) : PB str :=
  if (length s + 1 <=? sizeof_number_buffer)%nat then mret s else pundef.

Definition same_double (a b : double) : bool :=
  match SFcompare a b with Some Eq => true | _ => false end.

Definition number_text (d : double) : PB str :=
  if negb (is_finite d) then sprintf_number #"null" else
  s ← sprintf_number (format_g 15 d);
  if negb (same_double (fst (strtod s)) d) then sprintf_number (format_g 17 d) else mret s.

Definition print_number (item : cJSON) : PB unit :=
  s ← number_text (valuedouble item);
  let len := length s in
  if (sizeof_number_buffer - 1 <? len)%nat then pfail else
  ensure (len + 1);;
  write 0 s;;
  write len [NUL];;
  add_offset len.

(** The character after the backslash of a one-character escape. *)
Definition short_escape (c : ascii) : option ascii :=
  if Ascii.eqb c "034" || Ascii.eqb c "\" then Some c
  else if Ascii.eqb c (chr 8) then Some "b"%char
  else if Ascii.eqb c (chr 12) then Some "f"%char
  else if Ascii.eqb c (chr 10) then Some "n"%char
  else if Ascii.eqb c (chr 13) then Some "r"%char
  else if Ascii.eqb c (chr 9) then Some "t"%char
  else None.

Definition escape_extra (c : ascii) : nat :=
  match short_escape c with
  | Some _ => 1
  | None => if (ord c <? 32)%Z then 5 else 0
  end.

Fixpoint escape_characters (s : str) : nat :=
  match s with [] => 0 | c :: r => escape_extra c + escape_characters r end.

Definition hex_char (n : Z) : ascii :=
  if (n <? 10)%Z then chr (48 + n) else chr (87 + n).

(** [sprintf("u%04x")] of a value below 256. *)
Definition u04x (c : ascii) : str :=
  #"u00" ++ [hex_char (ord c / 16); hex_char (ord c mod 16)].

(** The copying loop of [print_string_ptr] from [output_pointer + ptr] on. *)
Fixpoint copy_escaped (s : str) (ptr : nat) : PB unit :=
  match s with
  | [] => mret tt
  | c :: r =>
      if (31 <? ord c)%Z && negb (Ascii.eqb c "034") && negb (Ascii.eqb c "\") then
        write ptr [c];; copy_escaped r (ptr + 1)
      else
        write ptr [ "\"%char];;
        match short_escape c with
        | Some x => write (ptr + 1) [x];; copy_escaped r (ptr + 2)
        | None => write (ptr + 1) (u04x c ++ [NUL]);; copy_escaped r (ptr + 6)
        end
  end.

Definition quote : str := [ "034"%char].

Definition print_string_ptr (input : option str) : PB unit :=
  match input with
  | None => ensure 3;; write 0 (quote ++ quote ++ [NUL])
  | Some s =>
      let s := c_str s in
      let escapes := escape_characters s in
      let output_length := (length s + escapes)%nat in
      ensure (output_length + 3);;
      (if (escapes =? 0)%nat then write 0 quote;; write 1 s
       else write 0 quote;; copy_escaped s 1);;
      write (output_length + 1) quote;;
      write (output_length + 2) [NUL]
  end.

Definition print_string (item : cJSON) : PB unit := print_string_ptr (valuestring item).

(** [ensure] and [strcpy] of a literal. *)
Definition print_literal (s : str) : PB unit := ensure (length s + 1);; write 0 (s ++ [NUL]).

Definition print_raw (item : cJSON) : PB unit :=
  match valuestring item with
  | None => pfail
  | Some s => print_literal (c_str s)
  end.

(** *** Containers *)

Section PrintContainers.
Variable print_value : cJSON → PB unit.

Definition tab : ascii := chr 9.
Definition newline : ascii := chr 10.

(** The separator after an element: [", "] or [","], and a NUL. *)
Definition array_comma : PB unit :=
  p ← get;
  let sep := if format p then #", " else #"," in
  ensure (length sep + 1);;
  write 0 (sep ++ [NUL]);;
  add_offset (length sep).

Fixpoint array_elements (l : list cJSON) : PB unit :=
  match l with
  | [] => mret tt
  | e :: r =>
      print_value e;;
      update_offset;;
      (match r with [] => mret tt | _ => array_comma end);;
      array_elements r
  end.

Definition print_array (elements : PB unit) : PB unit :=
  ensure 1;;
  write 0 #"[";;
  add_offset 1;;
  modify (fun p => with_depth (S (pdepth p)) p);;
  elements;;
  ensure 2;;
  write 0 (#"]" ++ [NUL]);;
  modify (fun p => with_depth (pdepth p - 1) p).

Definition object_indent : PB unit :=
  p ← get;
  if format p then
    ensure (pdepth p);;
    write 0 (replicate (pdepth p) tab);;
    add_offset (pdepth p)
  else mret tt.

Definition object_colon : PB unit :=
  p ← get;
  let sep := if format p then [ ":"%char; tab] else #":" in
  ensure (length sep);;
  write 0 sep;;
  add_offset (length sep).

Definition object_comma (last : bool) : PB unit :=
  p ← get;
  let sep := (if last then [] else #",") ++ (if format p then [newline] else []) in
  ensure (length sep + 1);;
  write 0 (sep ++ [NUL]);;
  add_offset (length sep).

Fixpoint object_members (l : list cJSON) : PB unit :=
  match l with
  | [] => mret tt
  | e :: r =>
      object_indent;;
      print_string_ptr (name e);;
      update_offset;;
      object_colon;;
      print_value e;;
      update_offset;;
      object_comma (match r with [] => true | _ => false end);;
      object_members r
  end.

Definition print_object (members : PB unit) : PB unit :=
  p ← get;
  let opening := if format p then [ "{"%char; newline] else #"{" in
  ensure (length opening + 1);;
  write 0 opening;;
  modify (fun p => with_depth (S (pdepth p)) p);;
  add_offset (length opening);;
  members;;
  p ← get;
  ensure (if format p then pdepth p + 1 else 2);;
  write 0 ((if format p then replicate (pdepth p - 1) tab else []) ++ #"}" ++ [NUL]);;
  modify (fun p => with_depth (pdepth p - 1) p).

End PrintContainers.

Fixpoint print_value (item : cJSON) : PB unit :=
  let k := kind item in
  if (k =? cJSON_NULL)%Z then print_literal #"null"
  else if (k =? cJSON_False)%Z then print_literal #"false"
  else if (k =? cJSON_True)%Z then print_literal #"true"
  else if (k =? cJSON_Number)%Z then print_number item
  else if (k =? cJSON_Raw)%Z then print_raw item
  else if (k =? cJSON_String)%Z then print_string item
  else if (k =? cJSON_Array)%Z then print_array (array_elements print_value (child item))
  else if (k =? cJSON_Object)%Z then print_object (object_members print_value (child item))
  else pfail.

(** *** Entry points *)

(** The C string at the start of a block. *)
Definition read_string {E} (m : list (option ascii)) : outcome E str :=
  match strlen_mem m with
  | Some n => Ret (omap id (take n m))
  | None => Undef
  end.

(** [print]: the block is cut at [offset + 1] bytes, or copied; [None] for a
    null pointer. *)
Definition default_buffer_size : nat := 256.

Definition print {E} (item : cJSON) (fmt : bool) : outcome E (option str) :=
  let p := {| pmem := replicate default_buffer_size None; poffset := 0; pdepth := 0;
              noalloc := false; format := fmt |} in
  match (print_value item;; update_offset) p with
  | (p, Ret _) => Some <$> read_string (take (poffset p + 1) (pmem p))
  | (_, Throw _) => Ret None
  | (_, Undef) => Undef
  end.

Definition cJSON_Print {E} (item : cJSON) : outcome E (option str) := print item true.
Definition cJSON_PrintUnformatted {E} (item : cJSON) : outcome E (option str) := print item false.

Definition cJSON_PrintBuffered {E} (item : cJSON) (prebuffer : Z) (fmt : bool)
  : outcome E (option str) :=
  if (prebuffer <? 0)%Z then Ret None else
  let p := {| pmem := replicate (Z.to_nat prebuffer) None; poffset := 0; pdepth := 0;
              noalloc := false; format := fmt |} in
  match print_value item p with
  | (p, Ret _) => Some <$> read_string (pmem p)
  | (_, Throw _) => Ret None
  | (_, Undef) => Undef
  end.

(** The buffer of the caller, and what is in it after a success. *)
Definition cJSON_PrintPreallocated {E} (item : cJSON) (buf : option (list (option ascii))) (len : Z)
  (fmt : bool) : outcome E (option (list (option ascii))) :=
  match buf with
  | None => Ret None
  | Some m =>
      if (len <? 0)%Z then Ret None else
      let p := {| pmem := take (Z.to_nat len) m; poffset := 0; pdepth := 0;
                  noalloc := true; format := fmt |} in
      match print_value item p with
      | (p, Ret _) => Ret (Some (pmem p ++ drop (Z.to_nat len) m))
      | (_, Throw _) => Ret None
      | (_, Undef) => Undef
      end
  end.
