(* ===== verification/CJsonPrintSpec.v ===== *)
(** * Specification of the JSON printer

    [render] is the text of an item as a pure function; the printer of
    CJsonPrint.v, with its growing block, its offsets and its C strings,
    writes exactly that text and nothing outside the block. *)
From Stdlib Require Import SpecFloat.
From S2P Require Import Prelude.
From S2P Require Import CLib.
From S2P Require Import CFloat.
From S2P Require Import CJson.
From S2P Require Import CJsonTree.
From S2P Require Import CJsonPrint.

(** ** Definitions *)

Definition number_str (d : double) : str :=
  if negb (is_finite d) then #"null"
  else if negb (same_double (fst (strtod (format_g 15 d))) d) then format_g 17 d
  else format_g 15 d.

Definition escape1 (c : ascii) : str :=
  match short_escape c with
  | Some x => [ "\"%char; x]
  | None => if (ord c <? 32)%Z then "\"%char :: u04x c else [c]
  end.

Definition render_string (s : option str) : str :=
  quote ++ concat (map escape1 (c_str (default [] s))) ++ quote.

Section Render.
Variable fmt : bool.
Variable render : nat → cJSON → str.

Fixpoint render_elements (d : nat) (l : list cJSON) : str :=
  match l with
  | [] => []
  | e :: r =>
      render d e
      ++ (match r with [] => [] | _ => if fmt then #", " else #"," end)
      ++ render_elements d r
  end.

Fixpoint render_members (d : nat) (l : list cJSON) : str :=
  match l with
  | [] => []
  | e :: r =>
      (if fmt then replicate d tab else [])
      ++ render_string (name e)
      ++ (if fmt then [ ":"%char; tab] else #":")
      ++ render d e
      ++ ((match r with [] => [] | _ => #"," end) ++ (if fmt then [newline] else []))
      ++ render_members d r
  end.

End Render.

(** The text of an item at depth [d]. *)
Fixpoint render (fmt : bool) (d : nat) (item : cJSON) : str :=
  let k := kind item in
  if (k =? cJSON_NULL)%Z then #"null"
  else if (k =? cJSON_False)%Z then #"false"
  else if (k =? cJSON_True)%Z then #"true"
  else if (k =? cJSON_Number)%Z then number_str (valuedouble item)
  else if (k =? cJSON_Raw)%Z then c_str (default [] (valuestring item))
  else if (k =? cJSON_String)%Z then render_string (valuestring item)
  else if (k =? cJSON_Array)%Z then
    #"[" ++ render_elements fmt (render fmt) (S d) (child item) ++ #"]"
  else
    (if fmt then [ "{"%char; newline] else #"{")
    ++ render_members fmt (render fmt) (S d) (child item)
    ++ (if fmt then replicate d tab else []) ++ #"}".

(** The items the printer accepts: known kinds, raw text that is there, and
    numbers that fit [number_buffer]. *)
Fixpoint printable (item : cJSON) : bool :=
  let k := kind item in
  if ((k =? cJSON_NULL) || (k =? cJSON_False) || (k =? cJSON_True) || (k =? cJSON_String))%Z
  then true
  else if (k =? cJSON_Number)%Z then
    (length (format_g 15 (valuedouble item)) <=? 25)%nat &&
    (length (format_g 17 (valuedouble item)) <=? 25)%nat
  else if (k =? cJSON_Raw)%Z then match valuestring item with Some _ => true | None => false end
  else if ((k =? cJSON_Array) || (k =? cJSON_Object))%Z then forallb printable (child item)
  else false.

(** The longest text the proofs cover: [ensure] doubles the block and never
    refuses below it. *)
Definition print_limit : Z := 2 ^ 29.

(** The bytes [t] are written, the offset is after them, and the block goes
    on. *)
Definition at_text (p : printbuffer) (t : str) : Prop :=
  poffset p = length t ∧ (∃ junk, pmem p = (Some <$> t) ++ junk) ∧
  length t < length (pmem p) ∧ noalloc p = false.

(** More bytes [u] are written after the offset. *)
Definition ahead (p : printbuffer) (t u : str) : Prop :=
  poffset p = length t ∧ (∃ junk, pmem p = (Some <$> (t ++ u)) ++ junk) ∧
  length t < length (pmem p) ∧ noalloc p = false.

Definition frame (p p' : printbuffer) : Prop :=
  pdepth p' = pdepth p ∧ format p' = format p.

(** [m] appends [out] and moves the offset after it. *)
Definition emits (m : PB unit) (p : printbuffer) (t out : str) : Prop :=
  ∃ p', m p = (p', Ret tt) ∧ at_text p' (t ++ out) ∧ frame p p'.

(** [m] appends [out] and a NUL; the offset is somewhere in [out]. *)
Definition prints (m : PB unit) (p : printbuffer) (t out : str) : Prop :=
  ∃ p' a b, m p = (p', Ret tt) ∧ out = a ++ b ∧ no_nul b ∧
    ahead p' (t ++ a) (b ++ [NUL]) ∧ frame p p'.

Definition fits (t out : str) : Prop :=
  (Z.of_nat (length t + length out) ≤ print_limit)%Z.

(** ** Lemmas: the block *)

Lemma frame_refl p : frame p p. Proof. done. Qed.

#[export] Instance frame_preorder : PreOrder frame.
Proof. unfold frame. split; [done|]. intros x y z [] []. split; congruence. Qed.

Lemma at_text_ahead p t : at_text p t ↔ ahead p t [].
Proof. unfold at_text, ahead. by rewrite app_nil_r. Qed.

Lemma ensure_ok n p t :
  at_text p t → (Z.of_nat (n + length t + 1) ≤ INT_MAX / 2)%Z →
  ∃ p', ensure n p = (p', Ret tt) ∧ at_text p' t ∧ frame p p' ∧
        length t + n + 1 ≤ length (pmem p').
Proof.
  intros (Ho & (junk & Hm) & Hl & Hn) Hb. unfold ensure. rewrite stM_bind_eq. cbn [get].
  rewrite Ho. change (INT_MAX / 2)%Z with 1073741823%Z in Hb.
  destruct (Nat.leb_spec (length (pmem p)) (length t)) as [|_]; [lia|]. rewrite andb_false_r.
  destruct (Z.ltb_spec INT_MAX (Z.of_nat n)) as [Hbad|_]; [unfold INT_MAX in Hbad; lia|].
  destruct (Nat.leb_spec (n + (length t + 1)) (length (pmem p))) as [Hle|Hgt].
  { exists p. split; [done|]. split; [by repeat split; [|exists junk|..]|]. split; [done|lia]. }
  rewrite Hn. unfold new_size. change (INT_MAX / 2)%Z with 1073741823%Z.
  destruct (Z.ltb_spec 1073741823 (Z.of_nat (n + (length t + 1)))) as [|_]; [lia|].
  eexists. split; [reflexivity|]. unfold at_text. cbn [poffset pmem noalloc with_mem].
  rewrite !length_app, length_replicate. split; [|split; [done|lia]].
  split; [done|]. split; [|split; [lia|done]].
  rewrite Hm, <- app_assoc. by eexists.
Qed.

Lemma write_ok i s p t u :
  ahead p t u → i ≤ length u ≤ i + length s → length t + i + length s ≤ length (pmem p) →
  ∃ p', write i s p = (p', Ret tt) ∧ ahead p' t (take i u ++ s) ∧ frame p p' ∧
        length (pmem p') = length (pmem p).
Proof.
  intros (Ho & (junk & Hm) & Hl & Hn) Hi Hle. unfold write. rewrite stM_bind_eq. cbn [get].
  rewrite Ho. destruct (Nat.leb_spec (length t + i + length s) (length (pmem p))); [|lia].
  eexists. split; [reflexivity|]. unfold ahead. cbn [poffset pmem noalloc with_mem].
  assert (Hlen : length (pmem p) = length t + length u + length junk).
  { rewrite Hm, !length_app, length_fmap, length_app. done. }
  assert (Hlen' : length (take (length t + i) (pmem p) ++ (Some <$> s) ++
      drop (length t + i + length s) (pmem p)) = length (pmem p)).
  { rewrite !length_app, length_take, length_drop, length_fmap. lia. }
  split; [|split; [done|exact Hlen']].
  split; [done|]. split; [|by rewrite Hlen'].
  exists (drop (length t + i + length s) (pmem p)).
  rewrite !fmap_app, fmap_take, <- !app_assoc. rewrite Hm at 1.
  rewrite fmap_app, <- app_assoc, take_app_add' by (by rewrite length_fmap).
  rewrite take_app_le by (rewrite length_fmap; lia). by rewrite <- app_assoc.
Qed.

Lemma add_offset_ok p t s u :
  ahead p t (s ++ u) → length t + length s < length (pmem p) →
  ∃ p', add_offset (length s) p = (p', Ret tt) ∧ ahead p' (t ++ s) u ∧ frame p p'.
Proof.
  intros (Ho & (junk & Hm) & Hl & Hn) Hlt. eexists. split; [reflexivity|].
  unfold ahead. cbn [poffset pmem noalloc with_offset]. rewrite length_app, Ho.
  repeat split; try done. exists junk. by rewrite <- app_assoc.
Qed.

Lemma ahead_at_text p t u : ahead p t u → at_text p t.
Proof.
  intros (Ho & (junk & Hm) & Hl & Hn). repeat split; try done.
  rewrite fmap_app, <- app_assoc in Hm. by eexists.
Qed.

(** Reserve, store, move on. *)
Lemma emit_block n s z p t :
  at_text p t → fits t s → n ≤ length s + 3 → length s + length z ≤ n + 1 → length s ≤ n →
  ∃ p', (ensure n;; write 0 (s ++ z);; add_offset (length s)) p = (p', Ret tt) ∧
        at_text p' (t ++ s) ∧ frame p p'.
Proof.
  intros Hp Hf Hn Hz Hs. unfold fits, print_limit in Hf.
  destruct (ensure_ok n p t Hp) as (p1 & E1 & A1 & F1 & L1).
  { change (INT_MAX / 2)%Z with 1073741823%Z. lia. }
  rewrite (stM_bind_Ret _ _ _ _ _ E1).
  apply at_text_ahead in A1.
  destruct (write_ok 0 (s ++ z) p1 t [] A1) as (p2 & E2 & A2 & F2 & L2);
    [cbn; lia|rewrite length_app; lia|].
  rewrite (stM_bind_Ret _ _ _ _ _ E2). cbn [take app] in A2.
  destruct (add_offset_ok p2 t s z A2) as (p3 & E3 & A3 & F3); [lia|].
  exists p3. split; [done|]. split; [by apply ahead_at_text in A3|].
  etrans; [exact F1|]. by etrans.
Qed.

Lemma strlen_mem_text s junk :
  no_nul s → strlen_mem ((Some <$> s) ++ Some NUL :: junk) = Some (length s).
Proof.
  induction s as [|c s IH]; intros Hs; [done|]. apply no_nul_cons in Hs as [Hc Hs].
  cbn. apply Ascii.eqb_neq in Hc as ->. fold (Some <$> s). by rewrite IH.
Qed.

Lemma prints_update m p t out :
  prints m p t out → emits (m;; update_offset) p t out.
Proof.
  intros (p1 & a & b & E & -> & Hb & (Ho & (junk & Hm) & Hl & Hn) & F). unfold emits.
  rewrite (stM_bind_Ret _ _ _ _ _ E). unfold update_offset. rewrite stM_bind_eq. cbn [get].
  rewrite Hm, Ho, fmap_app, <- app_assoc.
  rewrite drop_app_length' by (by rewrite length_fmap).
  rewrite fmap_app, <- app_assoc. cbn [fmap list_fmap app]. rewrite strlen_mem_text by done.
  eexists. split; [reflexivity|]. split; [|done].
  unfold at_text. cbn [poffset pmem noalloc with_offset].
  rewrite !length_app. rewrite length_app in *. split; [lia|].
  split; [|split; [|done]].
  - rewrite Hm, app_assoc, fmap_app, <- (app_assoc t), app_assoc, fmap_app, <- app_assoc. by eexists.
  - rewrite Hm, length_app, length_fmap, !length_app. cbn. lia.
Qed.

Lemma emits_seq m k p t o1 o2 :
  emits m p t o1 → (∀ p', at_text p' (t ++ o1) → frame p p' → emits k p' (t ++ o1) o2) →
  emits (m;; k) p t (o1 ++ o2).
Proof.
  intros (p1 & E1 & A1 & F1) Hk. destruct (Hk p1 A1 F1) as (p2 & E2 & A2 & F2).
  exists p2. rewrite (stM_bind_Ret _ _ _ _ _ E1). split; [done|].
  split; [by rewrite app_assoc|]. by etrans.
Qed.

Lemma emits_nil p t : at_text p t → emits (mret tt) p t [].
Proof. intros. exists p. by rewrite app_nil_r. Qed.

Lemma fits_prefix t a b : fits t (a ++ b) → fits t a ∧ fits (t ++ a) b.
Proof. unfold fits. rewrite !length_app. lia. Qed.

(** ** Lemmas: scalars *)

Lemma bind_get {A} (f : printbuffer → PB A) p : (get ≫= f) p = f p p.
Proof. reflexivity. Qed.

Lemma array_comma_emits p t :
  at_text p t → fits t (if format p then #", " else #",") →
  emits array_comma p t (if format p then #", " else #",").
Proof.
  intros Hp Hf. unfold emits, array_comma. rewrite bind_get.
  apply (emit_block _ _ [NUL]); try done; destruct (format p); cbn; lia.
Qed.

Lemma print_literal_prints s p t :
  at_text p t → fits t s → no_nul s → prints (print_literal s) p t s.
Proof.
  intros Hp Hf Hs. unfold fits, print_limit in Hf. unfold print_literal.
  destruct (ensure_ok (length s + 1) p t Hp) as (p1 & E1 & A1 & F1 & L1).
  { change (INT_MAX / 2)%Z with 1073741823%Z. lia. }
  apply at_text_ahead in A1.
  destruct (write_ok 0 (s ++ [NUL]) p1 t [] A1) as (p2 & E2 & A2 & F2 & L2);
    [cbn; lia|rewrite length_app; cbn; lia|].
  exists p2, [], s. rewrite (stM_bind_Ret _ _ _ _ _ E1). split; [done|]. split; [done|].
  split; [done|]. split; [by rewrite app_nil_r|]. by etrans.
Qed.

Lemma number_text_eq d p :
  length (format_g 15 d) ≤ 25 → length (format_g 17 d) ≤ 25 →
  number_text d p = (p, Ret (number_str d)) ∧ length (number_str d) ≤ 25.
Proof.
  intros H15 H17. unfold number_text, number_str, sprintf_number, sizeof_number_buffer.
  destruct (negb (is_finite d)); [split; [done|cbn; lia]|].
  destruct (Nat.leb_spec (length (format_g 15 d) + 1) 26); [|lia].
  destruct (Nat.leb_spec (length (format_g 17 d) + 1) 26); [|lia].
  rewrite stM_bind_eq. cbn [mret stM_mret].
  by destruct (negb (same_double _ d)).
Qed.

Lemma print_number_prints item p t :
  at_text p t → length (format_g 15 (valuedouble item)) ≤ 25 →
  length (format_g 17 (valuedouble item)) ≤ 25 → fits t (number_str (valuedouble item)) →
  prints (print_number item) p t (number_str (valuedouble item)).
Proof.
  intros Hp H15 H17 Hf. unfold fits, print_limit in Hf. unfold prints, print_number.
  destruct (number_text_eq _ p H15 H17) as [E Hs]. rewrite (stM_bind_Ret _ _ _ _ _ E).
  set (s := number_str (valuedouble item)) in *. unfold sizeof_number_buffer.
  destruct (Nat.ltb_spec (26 - 1) (length s)); [lia|].
  destruct (ensure_ok (length s + 1) p t Hp) as (p1 & E1 & A1 & F1 & L1).
  { change (INT_MAX / 2)%Z with 1073741823%Z. lia. }
  apply at_text_ahead in A1.
  destruct (write_ok 0 s p1 t [] A1) as (p2 & E2 & A2 & F2 & L2); [cbn; lia|lia|].
  cbn [take app] in A2.
  destruct (write_ok (length s) [NUL] p2 t s A2) as (p3 & E3 & A3 & F3 & L3);
    [cbn; lia|cbn; lia|]. rewrite firstn_all in A3.
  destruct (add_offset_ok p3 t s [NUL] A3) as (p4 & E4 & A4 & F4); [lia|].
  exists p4, s, []. rewrite (stM_bind_Ret _ _ _ _ _ E1), (stM_bind_Ret _ _ _ _ _ E2),
    (stM_bind_Ret _ _ _ _ _ E3). split; [done|]. split; [by rewrite app_nil_r|].
  split; [apply not_elem_of_nil|]. split; [done|].
  etrans; [exact F1|]. etrans; [exact F2|]. by etrans.
Qed.

(** ** Lemmas: strings *)

Lemma short_escape_plain c :
  (31 <? ord c)%Z && negb (Ascii.eqb c "034") && negb (Ascii.eqb c "\") = true →
  short_escape c = None ∧ (ord c <? 32)%Z = false.
Proof.
  intros Hc. reflect_bool. split; [|apply Z.ltb_ge; lia]. unfold short_escape.
  assert (Hne : ∀ n, (0 ≤ n < 32)%Z → Ascii.eqb c (chr n) = false).
  { intros n Hn. rewrite chr_eqb_ord, ord_chr, Z.mod_small by lia. apply Z.eqb_neq. lia. }
  rewrite !Hne by lia. destruct (Ascii.eqb_spec c "034"), (Ascii.eqb_spec c "\"); done.
Qed.

Lemma short_escape_special c :
  (31 <? ord c)%Z && negb (Ascii.eqb c "034") && negb (Ascii.eqb c "\") = false →
  short_escape c = None → (ord c <? 32)%Z = true.
Proof.
  unfold short_escape. intros Hc Hs. destruct (Ascii.eqb c "034"), (Ascii.eqb c "\"); try done.
  cbn in Hc. rewrite !andb_true_r in Hc. apply Z.ltb_ge in Hc. apply Z.ltb_lt. lia.
Qed.

Lemma escape1_length c : length (escape1 c) = 1 + escape_extra c.
Proof. unfold escape1, escape_extra. destruct (short_escape c), (ord c <? 32)%Z; done. Qed.

Lemma escaped_length s :
  length (concat (map escape1 s)) = length s + escape_characters s.
Proof.
  induction s as [|c s IH]; [done|]. cbn. rewrite length_app, escape1_length, IH. lia.
Qed.

Lemma escape1_no_nul c : c ≠ NUL → no_nul (escape1 c).
Proof.
  intros Hc. unfold escape1, short_escape, no_nul, u04x.
  repeat case_bool; try (rewrite !not_elem_of_cons; repeat split; try done; apply not_elem_of_nil).
  assert (Hh : ∀ n, (0 ≤ n < 16)%Z → hex_char n ≠ NUL).
  { intros n Hn E. apply (f_equal ord) in E. unfold hex_char in E. change (ord NUL) with 0%Z in E.
    destruct (n <? 10)%Z; rewrite ord_chr, Z.mod_small in E; lia. }
  pose proof (ord_range c). cbn [app String.list_ascii_of_string]. rewrite !not_elem_of_cons.
  repeat split; try done; try apply not_elem_of_nil; apply not_eq_sym, Hh.
  - split; [apply Z.div_pos; lia|]. apply Z.div_lt_upper_bound; lia.
  - apply Z.mod_pos_bound. lia.
Qed.

Lemma escaped_no_nul s : no_nul s → no_nul (concat (map escape1 s)).
Proof.
  induction s as [|c s IH]; intros Hs; [done|]. apply no_nul_cons in Hs as [Hc Hs].
  cbn. apply no_nul_app. split; [by apply escape1_no_nul|by apply IH].
Qed.

Lemma escape_characters_0 s : escape_characters s = 0 → concat (map escape1 s) = s.
Proof.
  induction s as [|c s IH]; [done|]. cbn. intros H. rewrite IH by lia.
  unfold escape_extra in H. unfold escape1.
  destruct (short_escape c); [lia|]. destruct (ord c <? 32)%Z; [lia|done].
Qed.

(** One store over at most one byte of garbage. *)
Lemma write_over s p t u z :
  ahead p t (u ++ z) → length z ≤ 1 → 0 < length s →
  length t + length u + length s ≤ length (pmem p) →
  ∃ p', write (length u) s p = (p', Ret tt) ∧ ahead p' t (u ++ s) ∧ frame p p' ∧
        length (pmem p') = length (pmem p).
Proof.
  intros Ha Hz Hs Hl. destruct (write_ok (length u) s p t (u ++ z) Ha) as (p' & E & A & F & L).
  - rewrite length_app. lia.
  - lia.
  - exists p'. by rewrite take_app_length in A.
Qed.

Lemma copy_escaped_ok s p t u z :
  ahead p t (u ++ z) → length z ≤ 1 →
  length t + length u + length (concat (map escape1 s)) + 1 ≤ length (pmem p) →
  ∃ p' z', copy_escaped s (length u) p = (p', Ret tt) ∧
    ahead p' t ((u ++ concat (map escape1 s)) ++ z') ∧ length z' ≤ 1 ∧ frame p p' ∧
    length (pmem p') = length (pmem p).
Proof.
  revert p u z. induction s as [|c s IH]; intros p u z Ha Hz Hl.
  { exists p, z. rewrite app_nil_r. done. }
  cbn [map concat] in Hl |- *. rewrite length_app, escape1_length in Hl. cbn [copy_escaped].
  (* one more store, then the rest of the loop *)
  assert (Hnext : ∀ p1 w z1, ahead p1 t ((u ++ w) ++ z1) → length z1 ≤ 1 → frame p p1 →
    length (pmem p1) = length (pmem p) → w = escape1 c →
    ∃ p' z', copy_escaped s (length u + length w) p1 = (p', Ret tt) ∧
      ahead p' t ((u ++ escape1 c ++ concat (map escape1 s)) ++ z') ∧ length z' ≤ 1 ∧
      frame p p' ∧ length (pmem p') = length (pmem p)).
  { intros p1 w z1 A1 Hz1 F1 L1 ->. rewrite <- length_app.
    destruct (IH p1 (u ++ escape1 c) z1 A1 Hz1) as (p' & z' & E & A & Hz' & F & L).
    { rewrite length_app, escape1_length. lia. }
    exists p', z'. rewrite app_assoc. split; [done|]. split; [done|]. split; [done|].
    split; [by etrans|lia]. }
  destruct ((31 <? ord c)%Z && negb (Ascii.eqb c "034") && negb (Ascii.eqb c "\")) eqn:Ec.
  - destruct (short_escape_plain c Ec) as [Es El].
    destruct (write_over [c] p t u z Ha Hz) as (p1 & E1 & A1 & F1 & L1); [cbn; lia|cbn; lia|].
    rewrite (stM_bind_Ret _ _ _ _ _ E1).
    apply (Hnext p1 [c] []); [by rewrite app_nil_r|cbn; lia|done|done|].
    unfold escape1. by rewrite Es, El.
  - destruct (write_over [ "\"%char] p t u z Ha Hz) as (p1 & E1 & A1 & F1 & L1); [cbn; lia|cbn; lia|].
    rewrite (stM_bind_Ret _ _ _ _ _ E1).
    destruct (short_escape c) as [x|] eqn:Es.
    + unfold escape_extra in Hl. rewrite Es in Hl.
      destruct (write_ok (length u + 1) [x] p1 t (u ++ [ "\"%char]) A1) as (p2 & E2 & A2 & F2 & L2);
        [rewrite length_app; cbn; lia|cbn; lia|].
      rewrite (stM_bind_Ret _ _ _ _ _ E2).
      rewrite firstn_all2 in A2 by (rewrite length_app; cbn; lia). rewrite <- app_assoc in A2.
      apply (Hnext p2 [ "\"%char; x] []);
        [by rewrite app_nil_r|cbn; lia|by etrans|lia|]. unfold escape1. by rewrite Es.
    + pose proof (short_escape_special c Ec Es) as El.
      unfold escape_extra in Hl. rewrite Es, El in Hl.
      destruct (write_ok (length u + 1) (u04x c ++ [NUL]) p1 t (u ++ [ "\"%char]) A1)
        as (p2 & E2 & A2 & F2 & L2); [rewrite length_app; cbn; lia|cbn; lia|].
      rewrite (stM_bind_Ret _ _ _ _ _ E2).
      rewrite firstn_all2 in A2 by (rewrite length_app; cbn; lia). rewrite <- app_assoc in A2.
      apply (Hnext p2 ("\"%char :: u04x c) [NUL]);
        [by rewrite <- app_assoc|cbn; lia|by etrans|lia|]. unfold escape1. by rewrite Es, El.
Qed.

Lemma print_string_ptr_prints s p t :
  at_text p t → fits t (render_string s) → prints (print_string_ptr s) p t (render_string s).
Proof.
  intros Hp Hf. destruct s as [s|].
  2: { apply (print_literal_prints (quote ++ quote) p t Hp Hf). by unfold no_nul, quote; set_solver. }
  unfold prints, print_string_ptr, render_string. cbn [default from_option id].
  set (e := concat (map escape1 (c_str s))).
  assert (Hlen : length (c_str s) + escape_characters (c_str s) = length e)
    by (unfold e; by rewrite escaped_length).
  unfold fits, print_limit, render_string in Hf. cbn [default from_option id] in Hf.
  fold e in Hf. rewrite !length_app in Hf. change (length quote) with 1 in Hf.
  rewrite Hlen. destruct (ensure_ok (length e + 3) p t Hp) as (p1 & E1 & A1 & F1 & L1).
  { change (INT_MAX / 2)%Z with 1073741823%Z. lia. }
  rewrite (stM_bind_Ret _ _ _ _ _ E1). apply at_text_ahead in A1.
  destruct (write_ok 0 quote p1 t [] A1) as (p2 & E2 & A2 & F2 & L2); [cbn; lia|cbn; lia|].
  cbn [take app] in A2.
  assert (Hbody : ∃ p3 z, (if (escape_characters (c_str s) =? 0)%nat then write 0 quote;; write 1 (c_str s)
       else write 0 quote;; copy_escaped (c_str s) 1) p1 = (p3, Ret tt) ∧
     ahead p3 t ((quote ++ e) ++ z) ∧ length z ≤ 1 ∧ frame p2 p3 ∧
     length (pmem p3) = length (pmem p2)).
  { destruct (Nat.eqb_spec (escape_characters (c_str s)) 0) as [E0|_].
    - rewrite (stM_bind_Ret _ _ _ _ _ E2).
      assert (He : e = c_str s) by (by apply escape_characters_0).
      destruct (write_ok 1 (c_str s) p2 t quote A2) as (p3 & E3 & A3 & F3 & L3);
        [cbn; lia|rewrite He in *; cbn; lia|].
      exists p3, []. rewrite E3, app_nil_r, He. split; [done|]. split; [done|].
      split; [cbn; lia|]. done.
    - rewrite (stM_bind_Ret _ _ _ _ _ E2).
      destruct (copy_escaped_ok (c_str s) p2 t quote []) as (p3 & z & E3 & A3 & Hz & F3 & L3);
        [by rewrite app_nil_r|cbn; lia|fold e; cbn; lia|].
      exists p3, z. done. }
  destruct Hbody as (p3 & z & E3 & A3 & Hz & F3 & L3). rewrite (stM_bind_Ret _ _ _ _ _ E3).
  replace (length e + 1) with (length (quote ++ e)) by (rewrite length_app; cbn; lia).
  destruct (write_over quote p3 t (quote ++ e) z A3 Hz) as (p4 & E4 & A4 & F4 & L4);
    [cbn; lia|rewrite length_app; cbn; lia|].
  rewrite (stM_bind_Ret _ _ _ _ _ E4).
  destruct (write_ok (length e + 2) [NUL] p4 t ((quote ++ e) ++ quote) A4) as (p5 & E5 & A5 & F5 & L5);
    [rewrite !length_app; cbn; lia|cbn; lia|].
  rewrite firstn_all2 in A5 by (rewrite !length_app; cbn; lia).
  exists p5, [], (quote ++ e ++ quote). rewrite E5, app_nil_r. split; [done|]. split; [done|].
  split.
  { apply no_nul_app. split; [by unfold no_nul, quote; set_solver|]. apply no_nul_app.
    split; [by apply escaped_no_nul, no_nul_c_str|by unfold no_nul, quote; set_solver]. }
  split; [by rewrite <- !app_assoc in A5 |- *|].
  etrans; [exact F1|]. etrans; [exact F2|]. etrans; [exact F3|]. by etrans.
Qed.

(** ** Lemmas: containers *)

Lemma cJSON_nested_ind (Q : cJSON → Prop) :
  (∀ i, Forall Q (child i) → Q i) → ∀ i, Q i.
Proof.
  intros HQ. fix IH 1. intros i. apply HQ.
  destruct i as [t vs vi vd nm c]. cbn [child]. induction c as [|x c IHc]; constructor.
  - apply IH.
  - exact IHc.
Qed.

Lemma emit_store n s p t :
  at_text p t → fits t s → length s ≤ n ≤ length s + 3 →
  ∃ p', (ensure n;; write 0 s;; add_offset (length s)) p = (p', Ret tt) ∧
        at_text p' (t ++ s) ∧ frame p p'.
Proof.
  intros Hp Hf Hn. pose proof (emit_block n s [] p t Hp Hf) as E.
  rewrite app_nil_r in E. apply E; cbn; lia.
Qed.

Lemma object_indent_emits p t :
  at_text p t → fits t (if format p then replicate (pdepth p) tab else []) →
  emits object_indent p t (if format p then replicate (pdepth p) tab else []).
Proof.
  intros Hp Hf. unfold emits, object_indent. rewrite bind_get.
  destruct (format p) eqn:Ef; [|by apply emits_nil].
  destruct (emit_store (pdepth p) (replicate (pdepth p) tab) p t Hp Hf) as (p' & E & A & F);
    [rewrite length_replicate; lia|].
  rewrite length_replicate in E. exists p'. done.
Qed.

Lemma object_colon_emits p t :
  at_text p t → fits t (if format p then [ ":"%char; tab] else #":") →
  emits object_colon p t (if format p then [ ":"%char; tab] else #":").
Proof.
  intros Hp Hf. unfold emits, object_colon. rewrite bind_get. apply emit_store; try done. lia.
Qed.

Lemma object_comma_emits p t last :
  let sep := (if last : bool then [] else #",") ++ (if format p then [newline] else []) in
  at_text p t → fits t sep → emits (object_comma last) p t sep.
Proof.
  intros sep Hp Hf. unfold emits, object_comma. rewrite bind_get. fold sep.
  apply (emit_block _ _ [NUL]); try done; cbn [length]; lia.
Qed.

(** An item whose text the printer writes. *)
Definition value_ok (i : cJSON) : Prop :=
  ∀ p t, printable i = true → at_text p t → fits t (render (format p) (pdepth p) i) →
    prints (print_value i) p t (render (format p) (pdepth p) i).

Lemma value_emits i p t :
  value_ok i → printable i = true → at_text p t → fits t (render (format p) (pdepth p) i) →
  emits (print_value i;; update_offset) p t (render (format p) (pdepth p) i).
Proof. intros Hv Hpr Hp Hf. by apply prints_update, Hv. Qed.

Lemma emits_update_seq (m k : PB unit) p t o1 o2 :
  emits (m;; update_offset) p t o1 →
  (∀ p', at_text p' (t ++ o1) → frame p p' → emits k p' (t ++ o1) o2) →
  emits (m;; update_offset;; k) p t (o1 ++ o2).
Proof.
  intros Hm Hk. pose proof (emits_seq _ _ _ _ _ _ Hm Hk) as (p' & E & A & F).
  exists p'. split; [|done]. rewrite <- E. rewrite !stM_bind_eq.
  destruct (m p) as [p1 [[]|e|]]; try done.
Qed.

Lemma array_elements_emits l p t :
  Forall value_ok l → forallb printable l = true → at_text p t →
  fits t (render_elements (format p) (render (format p)) (pdepth p) l) →
  emits (array_elements print_value l) p t
    (render_elements (format p) (render (format p)) (pdepth p) l).
Proof.
  intros Hl. revert p t. induction Hl as [|e l He Hl IH]; intros p t Hpr Hp Hf;
    [by apply emits_nil|].
  cbn [forallb] in Hpr. apply andb_true_iff in Hpr as [Hpe Hpl].
  cbn [render_elements array_elements] in *.
  apply fits_prefix in Hf as [Hf1 Hf]. apply fits_prefix in Hf as [Hf2 Hf3].
  apply emits_update_seq; [by apply value_emits|]. intros p1 A1 [Fd1 Ff1].
  apply emits_seq.
  - destruct l as [|e2 l]; [by apply emits_nil|]. rewrite <- Ff1 in *. by apply array_comma_emits.
  - intros p2 A2 [Fd2 Ff2]. rewrite <- Fd1, <- Ff1, <- Fd2, <- Ff2 in *. by apply IH.
Qed.

Lemma object_members_emits l p t :
  Forall value_ok l → forallb printable l = true → at_text p t →
  fits t (render_members (format p) (render (format p)) (pdepth p) l) →
  emits (object_members print_value l) p t
    (render_members (format p) (render (format p)) (pdepth p) l).
Proof.
  intros Hl. revert p t. induction Hl as [|e l He Hl IH]; intros p t Hpr Hp Hf;
    [by apply emits_nil|].
  cbn [forallb] in Hpr. apply andb_true_iff in Hpr as [Hpe Hpl].
  cbn [render_members object_members] in *.
  apply fits_prefix in Hf as [Hf1 Hf]. apply fits_prefix in Hf as [Hf2 Hf].
  apply fits_prefix in Hf as [Hf3 Hf]. apply fits_prefix in Hf as [Hf4 Hf].
  apply fits_prefix in Hf as [Hf5 Hf6].
  apply emits_seq; [by apply object_indent_emits|]. intros p1 A1 [Fd1 Ff1].
  apply emits_update_seq; [by apply prints_update, print_string_ptr_prints|].
  intros p2 A2 [Fd2 Ff2].
  assert (Ff2' : format p2 = format p) by congruence.
  assert (Fd2' : pdepth p2 = pdepth p) by congruence. clear Fd2 Ff2 Fd1 Ff1.
  apply emits_seq; [rewrite <- Ff2' in *; by apply object_colon_emits|]. intros p3 A3 [Fd3 Ff3].
  rewrite Fd2' in Fd3. rewrite Ff2' in Ff3.
  apply emits_update_seq; [rewrite <- Ff3, <- Fd3 in *; by apply value_emits|].
  intros p4 A4 [Fd4 Ff4]. rewrite Fd3 in Fd4. rewrite Ff3 in Ff4.
  apply emits_seq.
  - rewrite <- Ff4 in *.
    replace (match l with [] => [] | _ => #"," end)
      with (if match l with [] => true | _ => false end then [] else #",") in *
      by (by destruct l).
    by apply object_comma_emits.
  - intros p5 A5 [Fd5 Ff5]. rewrite Fd4 in Fd5. rewrite Ff4 in Ff5.
    rewrite <- Fd5, <- Ff5 in *. by apply IH.
Qed.

(** A closing bracket: reserve, store, restore the depth. *)

Lemma closing_prints s p t :
  at_text p t → fits t s → no_nul s →
  ∃ p', (ensure (length s + 1);; write 0 (s ++ [NUL]);;
         modify (fun p => with_depth (pdepth p - 1) p)) p = (p', Ret tt) ∧
        ahead p' t (s ++ [NUL]) ∧ pdepth p' = pdepth p - 1 ∧ format p' = format p.
Proof.
  intros Hp Hf Hs. unfold fits, print_limit in Hf.
  destruct (ensure_ok (length s + 1) p t Hp) as (p1 & E1 & A1 & [Fd1 Ff1] & L1).
  { change (INT_MAX / 2)%Z with 1073741823%Z. lia. }
  apply at_text_ahead in A1.
  destruct (write_ok 0 (s ++ [NUL]) p1 t [] A1) as (p2 & E2 & A2 & [Fd2 Ff2] & L2);
    [cbn; lia|rewrite length_app; cbn; lia|].
  eexists. rewrite (stM_bind_Ret _ _ _ _ _ E1), (stM_bind_Ret _ _ _ _ _ E2).
  split; [reflexivity|]. cbn [pdepth format with_depth]. rewrite Fd2, Fd1, Ff2, Ff1. done.
Qed.

Lemma at_text_with_depth p t d : at_text p t → at_text (with_depth d p) t.
Proof. done. Qed.

Lemma print_array_prints item p t :
  Forall value_ok (child item) → forallb printable (child item) = true → at_text p t →
  let out := #"[" ++ render_elements (format p) (render (format p)) (S (pdepth p)) (child item)
             ++ #"]" in
  fits t out → prints (print_array (array_elements print_value (child item))) p t out.
Proof.
  intros Hl Hpr Hp out Hf. unfold prints, print_array.
  apply fits_prefix in Hf as [Hf1 Hf]. apply fits_prefix in Hf as [Hf2 Hf3].
  destruct (emit_store 1 #"[" p t Hp Hf1) as (p1 & E1 & A1 & [Fd1 Ff1]); [cbn; lia|].
  set (p2 := with_depth (S (pdepth p1)) p1).
  assert (A2 : at_text p2 (t ++ #"[")) by done.
  destruct (array_elements_emits (child item) p2 _ Hl Hpr A2) as (p3 & E3 & A3 & [Fd3 Ff3]).
  { cbn [p2 format pdepth with_depth]. by rewrite Ff1, Fd1. }
  cbn [p2 format pdepth with_depth] in A3, Fd3, Ff3. rewrite Ff1, Fd1 in *.
  destruct (closing_prints #"]" p3 _ A3 Hf3) as (p4 & E4 & A4 & Fd4 & Ff4);
    [by unfold no_nul; set_solver|].
  exists p4, (#"[" ++ render_elements (format p) (render (format p)) (S (pdepth p)) (child item)), #"]".
  split.
  - rewrite !stM_bind_eq in E1 |- *. destruct (ensure 1 p) as [q1 [[]|e|]]; try done.
    rewrite !stM_bind_eq in E1 |- *. destruct (write 0 #"[" q1) as [q2 [[]|e|]]; try done.
    rewrite !stM_bind_eq. change (length #"[") with 1 in E1. rewrite E1.
    rewrite stM_bind_eq. cbn [modify]. fold p2. rewrite (stM_bind_Ret _ _ _ _ _ E3). exact E4.
  - split; [reflexivity|]. split; [by unfold no_nul; set_solver|].
    split; [by rewrite <- app_assoc in A4|]. split; [|congruence]. rewrite Fd4, Fd3. lia.
Qed.

Lemma print_object_prints item p t :
  Forall value_ok (child item) → forallb printable (child item) = true → at_text p t →
  let opening := if format p then [ "{"%char; newline] else #"{" in
  let members := render_members (format p) (render (format p)) (S (pdepth p)) (child item) in
  let closing := (if format p then replicate (pdepth p) tab else []) ++ #"}" in
  fits t (opening ++ members ++ closing) →
  prints (print_object (object_members print_value (child item))) p t
    (opening ++ members ++ closing).
Proof.
  intros Hl Hpr Hp opening members closing Hf. unfold prints, print_object.
  apply fits_prefix in Hf as [Hf1 Hf]. apply fits_prefix in Hf as [Hf2 Hf3].
  destruct (emit_store (length opening + 1) opening p t Hp Hf1) as (p1 & E1 & A1 & [Fd1 Ff1]); [lia|].
  set (p2 := with_depth (S (pdepth p1)) p1).
  assert (A2 : at_text p2 (t ++ opening)) by done.
  destruct (object_members_emits (child item) p2 _ Hl Hpr A2) as (p3 & E3 & A3 & [Fd3 Ff3]).
  { cbn [p2 format pdepth with_depth]. by rewrite Ff1, Fd1. }
  cbn [p2 format pdepth with_depth] in A3, Fd3, Ff3. rewrite Ff1, Fd1 in *.
  assert (Hn : no_nul closing).
  { unfold closing. apply no_nul_app. split; [|by unfold no_nul; set_solver].
    destruct (format p); [|apply not_elem_of_nil].
    intros Hin. apply elem_of_replicate in Hin as [Hin _]. done. }
  destruct (closing_prints closing p3 _ A3 Hf3 Hn) as (p4 & E4 & A4 & Fd4 & Ff4).
  exists p4, (opening ++ members), closing. split.
  - rewrite bind_get. fold opening. rewrite !stM_bind_eq in E1 |- *.
    destruct (ensure (length opening + 1) p) as [q1 [[]|e|]]; try done.
    rewrite !stM_bind_eq in E1 |- *. destruct (write 0 opening q1) as [q2 [[]|e|]]; try done.
    rewrite stM_bind_eq. cbn [modify].
    assert (E1' : add_offset (length opening) (with_depth (S (pdepth q2)) q2) = (p2, Ret tt)).
    { unfold add_offset in E1 |- *. rewrite bind_get in E1 |- *. cbn [modify] in E1 |- *.
      injection E1 as <-. done. }
    rewrite stM_bind_eq, E1', (stM_bind_Ret _ _ _ _ _ E3), bind_get.
    replace (if format p3 then (pdepth p3 + 1)%nat else 2) with (length closing + 1)
      by (unfold closing; rewrite Ff3, Fd3; destruct (format p);
          rewrite ?length_app, ?length_replicate; cbn; lia).
    replace ((if format p3 then replicate (pdepth p3 - 1) tab else []) ++ #"}" ++ [NUL])
      with (closing ++ [NUL])
      by (unfold closing; rewrite Ff3, Fd3; cbn [Nat.sub]; rewrite Nat.sub_0_r, <- app_assoc; done).
    exact E4.
  - split; [by rewrite <- app_assoc|]. split; [done|].
    split; [by rewrite <- app_assoc in A4|]. split; [|congruence]. rewrite Fd4, Fd3. lia.
Qed.

Lemma print_value_prints i : value_ok i.
Proof.
  induction i as [i IH] using cJSON_nested_ind. unfold value_ok. intros p t Hpr Hp Hf.
  destruct i as [jt vs vi vd nm c]. cbn [child] in IH.
  cbn [print_value printable render child valuestring valuedouble] in *.
  set (k := kind _) in *.
  destruct (Z.eqb_spec k cJSON_NULL); [by apply print_literal_prints; [..|unfold no_nul; set_solver]|].
  destruct (Z.eqb_spec k cJSON_False); [by apply print_literal_prints; [..|unfold no_nul; set_solver]|].
  destruct (Z.eqb_spec k cJSON_True); [by apply print_literal_prints; [..|unfold no_nul; set_solver]|].
  cbn [orb] in Hpr.
  destruct (Z.eqb_spec k cJSON_Number) as [Hk|_].
  { rewrite Hk in Hpr. cbn in Hpr. apply andb_true_iff in Hpr as [H1 H2].
    apply Nat.leb_le in H1, H2. by apply (print_number_prints (mk_cJSON jt vs vi vd nm c)). }
  destruct (Z.eqb_spec k cJSON_Raw) as [Hk|_].
  { rewrite Hk in Hpr. unfold print_raw. cbn [valuestring].
    destruct vs as [s|]; [|done]. cbn [default from_option id] in *.
    apply print_literal_prints; [done|done|apply no_nul_c_str]. }
  destruct (Z.eqb_spec k cJSON_String) as [Hk|_]; [by apply print_string_ptr_prints|].
  cbn [orb] in Hpr.
  destruct (Z.eqb_spec k cJSON_Array) as [Hk|_].
  { by apply (print_array_prints (mk_cJSON jt vs vi vd nm c)). }
  destruct (Z.eqb_spec k cJSON_Object) as [Hk|_]; [|done].
  by apply (print_object_prints (mk_cJSON jt vs vi vd nm c)).
Qed.

Lemma strlen_mem_c_str s junk :
  strlen_mem ((Some <$> s) ++ Some NUL :: junk) = Some (length (c_str s)).
Proof.
  induction s as [|c s IH]; [done|]. cbn. destruct (Ascii.eqb c NUL); [done|].
  fold (Some <$> s). by rewrite IH.
Qed.

Lemma omap_Some (s : str) : omap id (Some <$> s) = s.
Proof. induction s as [|c s IH]; [done|]. cbn. by rewrite IH. Qed.

Lemma c_str_prefix s : take (length (c_str s)) s = c_str s.
Proof. induction s as [|c s IH]; [done|]. cbn. destruct (Ascii.eqb c NUL); cbn; [done|by rewrite IH]. Qed.

Lemma print_eq {E} i fmt :
  printable i = true → (Z.of_nat (length (render fmt 0 i)) ≤ print_limit)%Z →
  (print i fmt : outcome E (option str)) = Ret (Some (c_str (render fmt 0 i))).
Proof.
  intros Hpr Hf. unfold print.
  set (p := {| pmem := _; poffset := _; pdepth := _; noalloc := _; format := _ |}).
  destruct (print_value_prints i p [] Hpr) as (p1 & a & b & E1 & Eab & Hb & A1 & F1).
  { repeat split; [by eexists|]. cbn. lia. }
  { unfold fits. cbn [length p format pdepth]. lia. }
  change (format p) with fmt in *. change (pdepth p) with 0 in *.
  destruct (prints_update (print_value i) p [] (render fmt 0 i)) as (p2 & E2 & (Ho & _) & _).
  { exists p1, a, b. done. }
  rewrite E2. cbn [app] in *. rewrite Ho. destruct A1 as (Ho1 & (junk & Hm1) & _).
  assert (Hm : pmem p2 = pmem p1).
  { rewrite (stM_bind_Ret _ _ _ _ _ E1) in E2. unfold update_offset in E2.
    rewrite stM_bind_eq in E2. cbn [get] in E2.
    destruct (strlen_mem (drop (poffset p1) (pmem p1))); [|done].
    cbn [modify] in E2. injection E2 as <-. done. }
  rewrite Hm, Hm1, Eab, app_assoc, fmap_app, <- app_assoc. cbn [fmap list_fmap app].
  rewrite take_app_ge by (rewrite length_fmap; lia). rewrite length_fmap.
  replace (length (a ++ b) + 1 - length (a ++ b)) with 1 by lia. cbn [take].
  unfold read_string. rewrite strlen_mem_c_str. cbn.
  rewrite take_app_le, <- fmap_take, omap_Some, c_str_prefix; [done|].
  rewrite length_fmap. clear. induction (a ++ b) as [|c s IH]; cbn; [lia|].
  destruct (Ascii.eqb c NUL); cbn; lia.
Qed.

(** ** Properties *)

(** C22. The printer is safe and exact: for every item of known kinds whose
    text has at most 2^29 bytes, formatted or not, [cJSON_Print] and
    [cJSON_PrintUnformatted] never write outside the block [ensure] gives
    them, never read an unwritten byte, do not fail, and return the text
    [render] specifies, as a C string. *)
Theorem print_renders (item : cJSON) (fmt : bool) :
  printable item = true → (Z.of_nat (length (render fmt 0 item)) ≤ print_limit)%Z →
  (print item fmt : outcome unit (option str)) = Ret (Some (c_str (render fmt 0 item))).
Proof. apply print_eq. Qed.

Definition sample_item : cJSON :=
  mk_cJSON cJSON_Object None 0 (S754_zero false) None
    [ mk_cJSON cJSON_Array None 0 (S754_zero false) (Some #"a")
        [ mk_cJSON cJSON_True None 1 (S754_zero false) None [];
          mk_cJSON cJSON_String (Some [chr 10; chr 1; "034"%char]) 0 (S754_zero false) None [] ];
      mk_cJSON cJSON_Number None 3 (double_of_Z 3) (Some #"n") [] ].

Lemma print_renders_witness :
  (cJSON_PrintUnformatted sample_item : outcome unit (option str))
  = Ret (Some (quoted #"{'a':[true,'\n\u0001\" ++ quote ++ quoted #"'],'n':3}")).
Proof.
  unfold cJSON_PrintUnformatted. rewrite (print_renders sample_item false).
  - vm_compute. reflexivity.
  - vm_compute. reflexivity.
  - vm_compute. discriminate.
Defined.
