(* ===== verification/CJsonSafety.v ===== *)
(** * Memory safety and termination of the JSON parser

    On every text the parser of CJson.v returns: no read leaves the buffer,
    no write leaves the block [parse_string] allocates, no pointer moves
    below the buffer, no number conversion is undefined, and no loop runs out
    of its bound.  The proof is a small program logic for the parse
    buffer. *)
From Stdlib Require Import SpecFloat.
From S2P Require Import Prelude.
From S2P Require Import CLib.
From S2P Require Import CFloat.
From S2P Require Import CFloatSpec.
From S2P Require Import CJson.
From S2P Require Import CJsonTree.
From S2P Require Import CJsonPrint.
From S2P Require Import CJsonPrintSpec.

(** ** Definitions *)

#[local] Set Warnings "-register-all".

(** The items the parser builds: a kind without flags, a string that is
    there, a binary64 number with its saturated integer, named members. *)
Inductive parsed_ok : cJSON → Prop :=
  | ok_literal i : jtype i = cJSON_NULL ∨ jtype i = cJSON_False ∨ jtype i = cJSON_True →
      parsed_ok i
  | ok_number i : jtype i = cJSON_Number → binary64 (valuedouble i) →
      (INT_MIN ≤ valueint i ≤ INT_MAX)%Z → parsed_ok i
  | ok_string i s : jtype i = cJSON_String → valuestring i = Some s → parsed_ok i
  | ok_array i : jtype i = cJSON_Array → Forall parsed_ok (child i) → parsed_ok i
  | ok_object i : jtype i = cJSON_Object → Forall parsed_ok (child i) →
      Forall (fun c => is_Some (name c)) (child i) → parsed_ok i.

(** An item built from [n] characters: printed without formatting, it has at
    most 32 characters for each. *)
Definition item_fits (i : cJSON) (n : nat) : Prop :=
  parsed_ok i ∧ ∀ d, length (render false d i) ≤ 32 * n.

(** The text ends in its NUL, which is inside the buffer. *)
Definition buffer_ok (b : parse_buffer) : Prop :=
  0 < blength b ∧ blength b = length (content b) ∧
  content b !! (blength b - 1) = Some NUL.

Definition same_text (b b' : parse_buffer) : Prop :=
  content b' = content b ∧ blength b' = blength b.

(** [m] does not go wrong from [b], keeps the text, and what it returns
    satisfies [Q]. *)
Definition runs {A} (m : P A) (b : parse_buffer) (Q : A → parse_buffer → Prop) : Prop :=
  match m b with
  | (b', Ret a) => same_text b b' ∧ Q a b'
  | (b', Throw _) => same_text b b'
  | (_, Undef) => False
  end.

(** A value was read into [item]: the offset grew, within the text, at the
    same depth. *)
Definition value_read (item i : cJSON) (b b' : parse_buffer) : Prop :=
  offset b < offset b' < blength b ∧ depth b' = depth b ∧
  name i = name item ∧ item_fits i (offset b' - offset b).

(** White space was skipped. *)
Definition skipped (b b' : parse_buffer) : Prop :=
  Nat.min (offset b) (blength b - 1) ≤ offset b' < blength b ∧ depth b' = depth b.

(** The escapes of a text, as the first pass of [parse_string] counts them;
    [mid]: the first character is the second of an escape. *)
Fixpoint escapes (mid : bool) (l : str) : nat :=
  match l with
  | [] => 0
  | c :: r => if mid then escapes false r
              else if Ascii.eqb c "\" then S (escapes true r) else escapes false r
  end.

(** The characters from [i] up to [j]. *)
Definition slice (t : str) (i j : nat) : str := take (j - i) (drop i t).

(** What [utf16_literal_to_utf8] gives: 6 characters for at most 3 bytes, or
    12 for at most 4. *)
Definition utf16_result (ip ie : nat) (r : option (str * nat)) : Prop :=
  match r with
  | None => True
  | Some (u, n) => (n = 6 ∧ length u ≤ 3 ∨ n = 12 ∧ length u ≤ 4) ∧ ip + n ≤ ie
  end.

(** The room that is left: what is written and what was skipped never exceed
    what was read and the escapes still to come. *)
Definition room (t : str) (p0 ie p : nat) (out : str) : Prop :=
  p0 ≤ p ≤ S ie ∧
  ∃ mid, length out + escapes false (slice t p0 ie) ≤ (p - p0) + escapes mid (slice t p ie).

(** [m] reads a value after one character; [n] of the characters it reads
    are accounted for. *)
Definition reads {A} (F : A → nat → Prop) (k : nat) (m : P A) (b : parse_buffer) : Prop :=
  ∀ Q : A → parse_buffer → Prop,
    (∀ x n b', same_text b b' → offset b + k + n ≤ offset b' < blength b →
       depth b' = depth b → F x n → Q x b') →
    runs m b Q.

Definition member_fits (i : cJSON) (n : nat) : Prop :=
  parsed_ok i ∧ is_Some (name i) ∧
  ∀ d, length (render_string (name i)) + length (render false d i) + 1 ≤ 32 * n.

Definition elements_fit (l : list cJSON) (n : nat) : Prop :=
  Forall parsed_ok l ∧ ∀ d, length (render_elements false (render false) d l) ≤ 32 * n.

Definition members_fit (l : list cJSON) (n : nat) : Prop :=
  Forall parsed_ok l ∧ Forall (fun c => is_Some (name c)) l ∧
  ∀ d, length (render_members false (render false) d l) ≤ 32 * n.

(** One round of the loop of [parse_array]. *)
Definition array_entry (parse_value : cJSON → P cJSON) : P cJSON :=
  advance 1;; buffer_skip_whitespace;; i ← parse_value cJSON_New_Item;
  buffer_skip_whitespace;; mret i.

(** ** Lemmas: the program logic *)

Create HintDb runs.

#[export] Instance same_text_preorder : PreOrder same_text.
Proof.
  unfold same_text. split; [done|]. intros x y z [E1 E2] [E3 E4]. by rewrite E3, E4.
Qed.

Lemma buffer_ok_same b b' : same_text b b' → buffer_ok b → buffer_ok b'.
Proof. intros [Hc Hl]. unfold buffer_ok. by rewrite Hc, Hl. Qed.

Lemma runs_ret {A} (a : A) b Q : Q a b → runs (mret a) b Q.
Proof. by split. Qed.

Lemma runs_fail {A} b (Q : A → _) : runs fail b Q.
Proof. done. Qed.

Lemma runs_bind {A B} (m : P A) (f : A → P B) b Q :
  runs m b (fun a b' => runs (f a) b' Q) → runs (m ≫= f) b Q.
Proof.
  unfold runs. rewrite stM_bind_eq. destruct (m b) as [b1 [a|e|]]; try done.
  intros [H1 H2]. destruct (f a b1) as [b2 [x|e|]]; try done.
  - destruct H2. split; [by etrans|done].
  - by etrans.
Qed.

Lemma runs_weaken {A} (m : P A) b (Q R : A → parse_buffer → Prop) :
  runs m b Q → (∀ a b', same_text b b' → Q a b' → R a b') → runs m b R.
Proof.
  unfold runs. destruct (m b) as [b1 [a|e|]]; try done. intros [H1 H2] HR. eauto.
Qed.

Lemma runs_get b (Q : parse_buffer → _) : Q b b → runs get b Q.
Proof. by split. Qed.

(** Sequencing after a step whose result is used through its
    postcondition. *)
Lemma runs_seq {A B} (m : P A) (f : A → P B) b Q R :
  runs m b Q → (∀ a b', same_text b b' → Q a b' → runs (f a) b' R) → runs (m ≫= f) b R.
Proof. intros Hm Hf. apply runs_bind. by eapply runs_weaken. Qed.

Lemma runs_set_offset o b (Q : unit → _) :
  Q tt {| content := content b; blength := blength b; offset := o; depth := depth b |} →
  runs (set_offset o) b Q.
Proof. by split. Qed.

Lemma runs_set_depth d b (Q : unit → _) :
  Q tt {| content := content b; blength := blength b; offset := offset b; depth := d |} →
  runs (set_depth d) b Q.
Proof. by split. Qed.

Lemma runs_advance n b (Q : unit → _) :
  Q tt {| content := content b; blength := blength b; offset := offset b + n; depth := depth b |} →
  runs (advance n) b Q.
Proof. by split. Qed.

Lemma runs_retreat b (Q : unit → _) :
  0 < offset b →
  Q tt {| content := content b; blength := blength b; offset := offset b - 1; depth := depth b |} →
  runs retreat b Q.
Proof.
  intros Hp HQ. unfold retreat. apply runs_bind, runs_get.
  destruct (offset b) as [|o]; [lia|]. apply runs_set_offset.
  by replace o with (S o - 1) by lia.
Qed.

Lemma runs_can_access i b (Q : bool → _) :
  Q (offset b + i <? blength b)%nat b → runs (can_access_at_index i) b Q.
Proof. by split. Qed.

Lemma runs_can_read n b (Q : bool → _) :
  Q (offset b + n <=? blength b)%nat b → runs (can_read n) b Q.
Proof. by split. Qed.

Lemma buffer_lookup b i : buffer_ok b → i < blength b → is_Some (content b !! i).
Proof. intros (_ & Hl & _) Hi. apply lookup_lt_is_Some. lia. Qed.

Lemma runs_read_abs i b (Q : ascii → _) :
  buffer_ok b → i < blength b → (∀ c, content b !! i = Some c → Q c b) → runs (read_abs i) b Q.
Proof.
  intros Hok Hi HQ. unfold read_abs. apply runs_bind, runs_get.
  destruct (buffer_lookup b i Hok Hi) as [c Hc]. rewrite Hc. apply runs_ret. auto.
Qed.

Lemma runs_read_at i b (Q : ascii → _) :
  buffer_ok b → offset b + i < blength b →
  (∀ c, content b !! (offset b + i) = Some c → Q c b) → runs (read_at i) b Q.
Proof. intros. unfold read_at. apply runs_bind, runs_get. by apply runs_read_abs. Qed.

(** A test of the current character: true only inside the buffer. *)
Lemma runs_at_char test b (Q : bool → _) :
  buffer_ok b →
  (∀ c, content b !! offset b = Some c → offset b < blength b → test c = true → Q true b) →
  Q false b → runs (at_char test) b Q.
Proof.
  intros Hok Ht Hf. unfold at_char. apply runs_bind, runs_can_access. rewrite Nat.add_0_r.
  destruct (Nat.ltb_spec (offset b) (blength b)) as [Hlt|_]; [|by apply runs_ret].
  apply runs_bind, runs_read_at; [done|lia|]. intros c. rewrite Nat.add_0_r. intros Hc.
  apply runs_ret. destruct (test c) eqn:E; eauto.
Qed.

Lemma runs_looking_at x b (Q : bool → _) :
  buffer_ok b →
  (content b !! offset b = Some x → offset b < blength b → Q true b) →
  Q false b → runs (looking_at x) b Q.
Proof.
  intros Hok Ht Hf. apply runs_at_char; [done| |done].
  intros c Hc Hlt E. apply Ascii.eqb_eq in E as ->. auto.
Qed.

(** A character of the text other than its NUL is before it. *)
Lemma before_nul b i c :
  buffer_ok b → content b !! i = Some c → c ≠ NUL → S i < blength b.
Proof.
  intros (Hp & Hl & Hn) Hc Hne. apply lookup_lt_Some in Hc as Hlt. rewrite <- Hl in Hlt.
  destruct (Nat.eq_dec i (blength b - 1)) as [E|E]; [rewrite <- E in Hn; congruence|lia].
Qed.

Lemma runs_strncmp lit b i (Q : bool → _) :
  buffer_ok b → offset b + i + length lit ≤ blength b →
  (∀ r, (r = true → ∀ j c, lit !! j = Some c → content b !! (offset b + i + j) = Some c) → Q r b) →
  runs (strncmp_at i lit) b Q.
Proof.
  intros Hok. revert i. induction lit as [|c lit IH]; intros i Hl HQ; cbn [strncmp_at].
  - apply runs_ret, HQ. intros _ j c Hj. done.
  - cbn [length] in Hl. apply runs_bind, runs_read_at; [done|lia|]. intros d Hd.
    destruct (Ascii.eqb_spec d c) as [->|_].
    + apply IH; [lia|]. intros r Hr. apply HQ. intros Er [|j] x Hj.
      * injection Hj as <-. by rewrite Nat.add_0_r.
      * rewrite <- Nat.add_succ_comm, <- Nat.add_succ_r. by apply Hr.
    + apply runs_ret, HQ. done.
Qed.

Lemma runs_literal lit b c (Q : bool → _) :
  buffer_ok b → last lit = Some c → c ≠ NUL →
  (offset b + length lit < blength b → Q true b) → Q false b → runs (literal lit) b Q.
Proof.
  intros Hok Hlast Hc Ht Hf. unfold literal. apply runs_bind, runs_can_read.
  destruct (Nat.leb_spec (offset b + length lit) (blength b)) as [Hle|_]; [|by apply runs_ret].
  apply runs_strncmp; [done|lia|]. intros [] Hr; [|done]. apply Ht.
  rewrite last_lookup in Hlast. specialize (Hr eq_refl _ _ Hlast).
  apply before_nul in Hr; [|done|done].
  apply lookup_lt_Some in Hlast. lia.
Qed.

(** ** Lemmas: white space *)

Lemma runs_skip_loop fuel b (Q : unit → _) :
  buffer_ok b → blength b - offset b < fuel → offset b ≤ blength b →
  (∀ o, offset b ≤ o ≤ blength b →
     Q tt {| content := content b; blength := blength b; offset := o; depth := depth b |}) →
  runs (skip_whitespace_loop fuel) b Q.
Proof.
  revert b. induction fuel as [|f IH]; intros b Hok Hf Hle HQ; [lia|]. cbn [skip_whitespace_loop].
  apply runs_bind, runs_at_char; [done| |].
  - intros c _ Hlt _. apply runs_bind, runs_advance.
    apply IH; cbn; [done|lia|lia|]. intros o Ho. apply HQ. lia.
  - apply runs_ret. destruct b. apply HQ. cbn in *. lia.
Qed.

Lemma runs_skip_whitespace b (Q : unit → _) :
  buffer_ok b → offset b ≤ blength b → (∀ b', same_text b b' → skipped b b' → Q tt b') →
  runs buffer_skip_whitespace b Q.
Proof.
  intros Hok Hle HQ. unfold buffer_skip_whitespace. apply runs_bind, runs_get.
  apply runs_bind, runs_skip_loop; [done|lia|done|]. intros o Ho.
  apply runs_bind, runs_get. cbn [offset blength]. destruct Hok as (Hp & _).
  destruct (Nat.eqb_spec o (blength b)) as [->|Hne].
  - apply runs_retreat; cbn; [lia|]. apply HQ; [done|]. split; cbn; [lia|done].
  - apply runs_ret, HQ; [done|]. split; cbn; [lia|done].
Qed.

Lemma runs_skip_utf8_bom b (Q : unit → _) :
  buffer_ok b → (∀ b', same_text b b' → offset b' ≤ blength b → depth b' = depth b → Q tt b') →
  runs skip_utf8_bom b Q.
Proof.
  intros Hok HQ. unfold skip_utf8_bom. apply runs_bind, runs_get.
  destruct (Nat.eqb_spec (offset b) 0) as [Ho|_]; cbn [negb]; [|apply runs_fail].
  apply runs_bind, runs_can_access. destruct (Nat.ltb_spec (offset b + 4) (blength b)) as [Hlt|_].
  - apply runs_bind, runs_strncmp; [done|cbn; lia|]. intros [] _.
    + apply runs_advance, HQ; cbn; [done|lia|done].
    + apply runs_ret, HQ; [done|lia|done].
  - apply runs_ret, HQ; [done|lia|done].
Qed.

(** ** Lemmas: numbers *)

Lemma is_number_char_not_nul c : is_number_char c = true → c ≠ NUL.
Proof. by intros H ->. Qed.

Lemma runs_number_chars n i b (Q : str → _) :
  buffer_ok b → offset b + i ≤ blength b →
  (∀ s, (s ≠ [] → offset b + i + length s < blength b) → Q s b) → runs (number_chars n i) b Q.
Proof.
  intros Hok. revert i Q. induction n as [|n IH]; intros i Q Hle HQ; cbn [number_chars].
  - by apply runs_ret, HQ.
  - apply runs_bind, runs_can_access.
    destruct (Nat.ltb_spec (offset b + i) (blength b)) as [Hlt|_]; [|by apply runs_ret, HQ].
    apply runs_bind, runs_read_at; [done|lia|]. intros c Hc.
    destruct (is_number_char c) eqn:E; [|by apply runs_ret, HQ].
    apply is_number_char_not_nul in E. apply before_nul in Hc; [|done|done].
    apply runs_bind, IH; [lia|]. intros s Hs. apply runs_ret, HQ. intros _. cbn [length].
    destruct s as [|x s]; [cbn; lia|]. specialize (Hs ltac:(done)). lia.
Qed.

Lemma saturate_defined {E} d : is_nan d = false → ∃ n, (saturate d : outcome E Z) = Ret n ∧
  (INT_MIN ≤ n ≤ INT_MAX)%Z.
Proof.
  intros Hn. unfold saturate. destruct (double_ge d INT_MAX) eqn:E1.
  { eexists; split; [done|]. unfold INT_MIN, INT_MAX; lia. }
  destruct (double_le d INT_MIN) eqn:E2.
  { eexists; split; [done|]. unfold INT_MIN, INT_MAX; lia. }
  by apply int_of_double_defined.
Qed.

Lemma runs_lift_Ret {A} (a : A) b Q : Q a b → runs (lift (Ret a)) b Q.
Proof. by split. Qed.

Lemma number_str_length d : binary64 d → length (number_str d) ≤ 24.
Proof.
  intros Hd. unfold number_str. destruct (negb (is_finite d)); [cbn; lia|].
  destruct (negb _); apply format_g_length; done || lia.
Qed.

Lemma runs_parse_number item b (Q : cJSON → _) :
  buffer_ok b → offset b ≤ blength b →
  (∀ i b', same_text b b' → value_read item i b b' → Q i b') → runs (parse_number item) b Q.
Proof.
  intros Hok Hle HQ. unfold parse_number.
  apply runs_bind, runs_number_chars; [done|lia|]. intros s Hs.
  pose proof (strtod_length s) as Hlen. pose proof (strtod_not_nan s) as Hnan.
  pose proof (strtod_binary64 s) as H64.
  destruct (strtod s) as [d n]. cbn [fst snd] in *.
  destruct (Nat.eqb_spec n 0); [apply runs_fail|].
  assert (s ≠ []) as Hne by (intros ->; cbn in *; lia). specialize (Hs Hne).
  destruct (@saturate_defined () d Hnan) as (v & -> & Hv).
  apply runs_bind, runs_lift_Ret. apply runs_bind, runs_advance, runs_ret, HQ; [done|].
  split; [cbn [offset]; lia|]. split; [done|]. split; [done|]. split; [by apply ok_number|].
  intros dd. cbn [offset]. change (render false dd _) with (number_str d).
  pose proof (number_str_length d H64). lia.
Qed.

(** ** Lemmas: escapes *)

Lemma escapes_length mid l : escapes mid l ≤ length l.
Proof.
  revert mid. induction l as [|c l IH]; intros mid; cbn; [lia|].
  destruct mid; [specialize (IH false); lia|].
  destruct (Ascii.eqb c "\"); [specialize (IH true)|specialize (IH false)]; lia.
Qed.

(** Two characters hold the start of at most one escape. *)
Lemma escapes_drop2 mid l : ∃ mid', escapes mid l ≤ 1 + escapes mid' (drop 2 l).
Proof.
  destruct l as [|a [|b l]]; cbn; [by exists false; lia| |].
  - exists false. destruct mid, (Ascii.eqb a "\"); cbn; lia.
  - rewrite drop_0. destruct mid.
    + destruct (Ascii.eqb b "\"); [exists true|exists false]; lia.
    + destruct (Ascii.eqb a "\"); [exists false; lia|].
      destruct (Ascii.eqb b "\"); [exists true|exists false]; lia.
Qed.

Lemma escapes_drop n mid l : ∃ mid', escapes mid l ≤ n + escapes mid' (drop (2 * n) l).
Proof.
  revert mid l. induction n as [|n IH]; intros mid l; [exists mid; by rewrite drop_0|].
  destruct (escapes_drop2 mid l) as [m1 H1]. destruct (IH m1 (drop 2 l)) as [m2 H2].
  exists m2. rewrite drop_drop in H2. replace (2 * S n) with (2 + 2 * n) by lia. lia.
Qed.

Lemma slice_length t i j : j ≤ length t → length (slice t i j) = j - i.
Proof. intros. unfold slice. rewrite length_take, length_drop. lia. Qed.

Lemma slice_drop t i j k : drop k (slice t i j) = slice t (i + k) j.
Proof. unfold slice. rewrite skipn_firstn_comm, drop_drop. f_equal. lia. Qed.

Lemma slice_cons t i j c : t !! i = Some c → i < j → slice t i j = c :: slice t (S i) j.
Proof.
  intros Hc Hlt. unfold slice. rewrite (drop_S _ _ _ Hc).
  replace (j - i) with (S (j - S i)) by lia. done.
Qed.

Lemma slice_empty t i j : j ≤ i → slice t i j = [].
Proof. intros. unfold slice. by replace (j - i) with 0 by lia. Qed.

(** ** Lemmas: strings *)

Lemma runs_parse_hex4_loop n i h M b (Q : Z → _) :
  buffer_ok b → i + S n ≤ blength b → (0 ≤ h)%Z → (h + 16 ≤ M)%Z →
  (∀ r, (0 ≤ r < M * 16 ^ Z.of_nat n)%Z → Q r b) → runs (parse_hex4_loop (S n) i h) b Q.
Proof.
  intros Hok. revert i h M. induction n as [|n IH]; intros i h M Hi Hh HM HQ.
  - cbn [parse_hex4_loop]. apply runs_bind, runs_read_abs; [done|lia|]. intros c _.
    destruct (hex_digit c) as [d|] eqn:E; [|apply runs_ret, HQ; cbn; lia].
    apply runs_ret, HQ. change (0 <? 0)%nat with false. cbv iota.
    unfold hex_digit in E. pose proof (ord_range c).
    repeat case_bool; simplify_eq; reflect_bool; cbn; lia.
  - change (parse_hex4_loop (S (S n)) i h) with
      (c ← read_abs i;
       match hex_digit c with
       | None => mret 0%Z
       | Some d => parse_hex4_loop (S n) (S i) (Z.shiftl (h + d) 4)
       end).
    apply runs_bind, runs_read_abs; [done|lia|]. intros c _.
    destruct (hex_digit c) as [d|] eqn:E; [|apply runs_ret, HQ; nia].
    assert (0 ≤ d < 16)%Z.
    { unfold hex_digit in E. repeat case_bool; simplify_eq; reflect_bool; lia. }
    rewrite Z.shiftl_mul_pow2 by lia. change (2 ^ 4)%Z with 16%Z.
    apply (IH (S i) _ (16 * M)%Z); [lia|lia|lia|]. intros r Hr. apply HQ.
    rewrite Nat2Z.inj_succ, Z.pow_succ_r by lia. lia.
Qed.

Lemma runs_parse_hex4 i b (Q : Z → _) :
  buffer_ok b → i + 4 ≤ blength b → (∀ r, (0 ≤ r < 65536)%Z → Q r b) → runs (parse_hex4 i) b Q.
Proof. intros Hok Hi HQ. by apply (runs_parse_hex4_loop 3 i 0 16). Qed.

Lemma utf8_continuation_length n cp acc :
  length (snd (utf8_continuation n cp acc)) = n + length acc.
Proof.
  revert cp acc. induction n as [|n IH]; intros cp acc; cbn; [done|]. rewrite IH. cbn. lia.
Qed.

Lemma utf8_encode_length cp u :
  utf8_encode cp = Some u → length u ≤ 4 ∧ ((cp < 65536)%Z → length u ≤ 3).
Proof.
  unfold utf8_encode.
  assert (H : ∀ n cp, length (snd (utf8_continuation n cp [])) = n)
    by (intros; rewrite utf8_continuation_length; cbn; lia).
  destruct (cp <? 128)%Z; [|destruct (cp <? 2048)%Z; [|destruct (Z.ltb_spec cp 65536);
    [|destruct (cp <=? 1114111)%Z; [|done]]]]; cbn [Nat.sub Nat.ltb Nat.leb];
    match goal with |- context [utf8_continuation ?n ?c []] =>
      specialize (H n c); destruct (utf8_continuation n c []) as [? l] end;
    cbn in H; intros [= <-]; cbn; lia.
Qed.

Lemma runs_utf16 ip ie b (Q : option (str * nat) → _) :
  buffer_ok b → ie < blength b → (∀ r, utf16_result ip ie r → Q r b) →
  runs (utf16_literal_to_utf8 ip ie) b Q.
Proof.
  intros Hok Hie HQ. unfold utf16_literal_to_utf8.
  assert (Hnone : Q None b) by (by apply HQ).
  destruct (Nat.ltb_spec (ie - ip) 6) as [_|H6]; [by apply runs_ret|].
  apply runs_bind, runs_parse_hex4; [done|lia|]. intros fc Hfc.
  destruct ((56320 <=? fc) && (fc <=? 57343))%Z; [by apply runs_ret|].
  destruct ((55296 <=? fc) && (fc <=? 56319))%Z.
  - destruct (Nat.ltb_spec (ie - (ip + 6)) 6) as [_|H12]; [by apply runs_ret|].
    apply runs_bind, runs_read_abs; [done|lia|]. intros c0 _.
    destruct (negb _); [by apply runs_ret|].
    apply runs_bind, runs_read_abs; [done|lia|]. intros c1 _.
    destruct (negb _); [by apply runs_ret|].
    apply runs_bind, runs_parse_hex4; [done|lia|]. intros sc Hsc.
    destruct ((sc <? 56320) || (57343 <? sc))%Z; [by apply runs_ret|].
    apply runs_ret, HQ. cbn.
    destruct (utf8_encode _) as [u|] eqn:E; [|done]. apply utf8_encode_length in E as [? _].
    split; [right|]; lia.
  - apply runs_ret, HQ. cbn.
    destruct (utf8_encode _) as [u|] eqn:E; [|done]. apply utf8_encode_length in E as [_ ?].
    split; [left|]; lia.
Qed.

Lemma runs_scan_string fuel ie k b (Q : option (nat * nat) → _) :
  buffer_ok b → blength b - ie < fuel → ie ≤ blength b →
  Q None b →
  (∀ ie', ie ≤ ie' ≤ blength b → Q (Some (ie', k + escapes false (slice (content b) ie ie'))) b) →
  runs (scan_string fuel ie k) b Q.
Proof.
  intros Hok. revert ie k. induction fuel as [|f IH]; intros ie k Hf Hle Hn HQ; [lia|].
  cbn [scan_string].
  assert (Hstop : Q (Some (ie, k)) b).
  { specialize (HQ ie). rewrite slice_empty in HQ by lia. cbn in HQ.
    rewrite Nat.add_0_r in HQ. apply HQ. lia. }
  apply runs_bind, runs_get. destruct (Nat.ltb_spec ie (blength b)) as [Hlt|_]; [|by apply runs_ret].
  apply runs_bind, runs_read_abs; [done|lia|]. intros c Hc.
  destruct (Ascii.eqb c "034"); [by apply runs_ret|].
  destruct (Ascii.eqb c "\") eqn:Eb.
  - destruct (Nat.leb_spec (blength b) (ie + 1)); [by apply runs_ret|].
    apply IH; [lia|lia|done|]. intros ie' Hie'.
    destruct (buffer_lookup b (S ie) Hok ltac:(lia)) as [x Hx].
    specialize (HQ ie' ltac:(lia)). rewrite (slice_cons _ _ _ _ Hc) in HQ by lia.
    rewrite (slice_cons _ _ _ _ Hx) in HQ by lia. cbn [escapes] in HQ. rewrite Eb in HQ.
    replace (ie + 2) with (S (S ie)) by lia.
    by rewrite Nat.add_succ_comm.
  - apply IH; [lia|lia|done|]. intros ie' Hie'.
    specialize (HQ ie' ltac:(lia)). rewrite (slice_cons _ _ _ _ Hc) in HQ by lia.
    cbn [escapes] in HQ. rewrite Eb in HQ. by rewrite Nat.add_1_r.
Qed.

Lemma runs_push size out bytes b (Q : str → _) :
  length out + length bytes ≤ size → Q (out ++ bytes) b → runs (push size out bytes) b Q.
Proof.
  intros Hl HQ. unfold push. destruct (Nat.leb_spec (length out + length bytes) size); [|lia].
  by apply runs_ret.
Qed.

Lemma runs_string_fail {A} i b (Q : A → _) : runs (string_fail i) b Q.
Proof. done. Qed.

(** Reading [2 * n] characters for at most [n] bytes keeps the room, and so
    does reading one that starts no escape. *)
Lemma room_even t p0 ie p out bytes n :
  room t p0 ie p out → length bytes ≤ n → p + 2 * n ≤ S ie →
  room t p0 ie (p + 2 * n) (out ++ bytes).
Proof.
  intros [Hp (mid & Hm)] Hb Hle. split; [lia|].
  destruct (escapes_drop n mid (slice t p ie)) as [mid' Hd]. exists mid'.
  rewrite slice_drop in Hd. rewrite length_app. lia.
Qed.

Lemma room_plain t p0 ie p out c :
  room t p0 ie p out → t !! p = Some c → Ascii.eqb c "\" = false → p < ie →
  room t p0 ie (p + 1) (out ++ [c]).
Proof.
  intros [Hp (mid & Hm)] Hc Hn Hlt. split; [lia|]. exists false.
  rewrite (slice_cons _ _ _ _ Hc Hlt) in Hm. cbn [escapes] in Hm. rewrite Hn in Hm.
  rewrite length_app, (Nat.add_1_r p). cbn [length]. destruct mid; lia.
Qed.

Lemma room_fits t p0 ie p out size :
  room t p0 ie p out → ie ≤ length t → p0 ≤ ie →
  size = ie - (p0 - 1) - escapes false (slice t p0 ie) + 1 → 0 < p0 →
  length out + 1 ≤ size.
Proof.
  intros [Hp (mid & Hm)] Hie Hp0 -> H0.
  pose proof (escapes_length mid (slice t p ie)) as H1. rewrite slice_length in H1 by done.
  pose proof (escapes_length false (slice t p0 ie)) as H2. rewrite slice_length in H2 by done.
  lia.
Qed.

Lemma simple_escape_length (p0 ie p : nat) : p < ie → p + 2 * 1 ≤ S ie.
Proof. lia. Qed.

Lemma runs_unescape fuel size p0 ie p out b (Q : str → _) :
  buffer_ok b → ie < blength b → 0 < p0 ≤ ie →
  size = ie - (p0 - 1) - escapes false (slice (content b) p0 ie) + 1 →
  S ie - p < fuel → room (content b) p0 ie p out →
  (∀ out, length out + 1 ≤ size → Q out b) → runs (unescape fuel size ie p out) b Q.
Proof.
  intros Hok Hie Hp0 Hsize. assert (Hlen : blength b = length (content b)) by apply Hok.
  assert (Hfits : ∀ p out, room (content b) p0 ie p out → length out + 1 ≤ size)
    by (intros p' out' Hr; apply (room_fits (content b) p0 ie p' out'); done || lia).
  revert p out. induction fuel as [|f IH]; intros p out Hf Hroom HQ; [lia|]. cbn [unescape].
  assert (Hpush : ∀ bytes n, room (content b) p0 ie (p + n) (out ++ bytes) → 0 < n →
    runs (out ← push size out bytes; unescape f size ie (p + n) out) b Q).
  { intros bytes n Hr Hn. pose proof (Hfits _ _ Hr) as Hl. rewrite length_app in Hl.
    apply runs_bind, runs_push; [lia|]. apply IH; [destruct Hr; lia|done|done]. }
  destruct (Nat.ltb_spec p ie) as [Hlt|_]; [|apply runs_ret, HQ, (Hfits p), Hroom].
  apply runs_bind, runs_read_abs; [done|lia|]. intros c Hc.
  destruct (Ascii.eqb c "\") eqn:Eb; cbn [negb].
  2: { apply (Hpush [c] 1); [|lia]. by apply room_plain. }
  destruct (ie - p <? 1)%nat; [apply runs_string_fail|].
  apply runs_bind, runs_read_abs; [done|lia|]. intros e _.
  destruct (simple_escape e) as [x|].
  { apply (Hpush [x] 2); [|lia]. apply (room_even _ _ _ _ _ [x] 1 Hroom); cbn; lia. }
  destruct (Ascii.eqb e "u"); [|apply runs_string_fail].
  apply runs_bind, runs_utf16; [done|done|]. intros [[u n]|] Hr; [|apply runs_string_fail].
  destruct Hr as [Hn Hle]. apply Hpush; [|lia].
  destruct Hn as [[-> Hu]|[-> Hu]].
  - apply (room_even _ _ _ _ _ u 3 Hroom); lia.
  - apply (room_even _ _ _ _ _ u 6 Hroom); lia.
Qed.

Lemma escape_characters_le s : escape_characters s ≤ 5 * length s.
Proof.
  induction s as [|c s IH]; [cbn; lia|]. cbn [escape_characters length].
  unfold escape_extra. destruct (short_escape c), (ord c <? 32)%Z; lia.
Qed.

Lemma c_str_length s : length (c_str s) ≤ length s.
Proof. induction s as [|c s IH]; [done|]. cbn. destruct (Ascii.eqb c NUL); cbn; lia. Qed.

Lemma render_string_length s : length (render_string (Some s)) ≤ 2 + 6 * length s.
Proof.
  unfold render_string. cbn [default from_option id].
  rewrite !length_app, escaped_length. change (length quote) with 1.
  pose proof (escape_characters_le (c_str s)). pose proof (c_str_length s). lia.
Qed.

Lemma runs_parse_string item b (Q : cJSON → _) :
  buffer_ok b → offset b < blength b →
  (∀ i b' s, same_text b b' → value_read item i b b' → valuestring i = Some s →
     length (render_string (Some s)) ≤ 6 * (offset b' - offset b) → Q i b') →
  runs (parse_string item) b Q.
Proof.
  intros Hok Hlt HQ. unfold parse_string. apply runs_bind, runs_get. cbv zeta.
  apply runs_bind, runs_read_at; [done|lia|]. intros q _.
  destruct (negb _); [apply runs_string_fail|].
  apply runs_bind, runs_scan_string; [done|lia|lia|apply runs_string_fail|].
  intros ie Hie. cbn [Nat.add]. destruct (Nat.leb_spec (blength b) ie); [apply runs_string_fail|].
  apply runs_bind, runs_read_abs; [done|lia|]. intros close Hclose.
  destruct (Ascii.eqb_spec close "034") as [->|_]; [|apply runs_string_fail]. cbn [negb].
  pose proof (before_nul b ie _ Hok Hclose ltac:(done)) as Hend.
  apply runs_bind, (runs_unescape _ _ (offset b + 1)); try done; try lia.
  { split; [lia|]. exists false. cbn. lia. }
  intros out Hout. apply runs_bind, runs_push; [cbn; lia|].
  assert (Hr : length (render_string (Some out)) ≤ 6 * (ie + 1 - offset b))
    by (pose proof (render_string_length out); lia).
  apply runs_bind, runs_set_offset, runs_ret, (HQ _ _ out); [done| |done|exact Hr].
  split; [cbn [offset]; lia|]. split; [done|]. split; [done|].
  split; [by apply (ok_string _ out)|]. intros d. cbn [offset].
  change (render false d _) with (render_string (Some out)). lia.
Qed.

(** ** Lemmas: containers *)

Section Items.

Variable parse_value : cJSON → P cJSON.
Variable D : nat.

Hypothesis parse_value_runs : ∀ item b (Q : cJSON → parse_buffer → Prop),
  buffer_ok b → offset b < blength b → depth b = D →
  (∀ i b', same_text b b' → value_read item i b b' → Q i b') → runs (parse_value item) b Q.

(** [advance], white space, a value: as both containers read one. *)
Lemma runs_spaced_value item b (Q : cJSON → parse_buffer → Prop) :
  buffer_ok b → offset b < blength b → depth b = D →
  (∀ i b' n, same_text b b' → offset b + 1 + n ≤ offset b' < blength b → depth b' = depth b →
     name i = name item → item_fits i n → Q i b') →
  runs (advance 1;; buffer_skip_whitespace;; i ← parse_value item;
        buffer_skip_whitespace;; mret i) b Q.
Proof.
  intros Hok Hlt HD HQ. apply runs_bind, runs_advance.
  apply runs_bind, runs_skip_whitespace; [done|cbn [offset blength]; lia|].
  intros b1 E1 [Ho1 Hd1]. cbn [offset blength depth] in *. pose proof E1 as [_ Hl1].
  cbn [content blength] in Hl1.
  apply runs_bind, parse_value_runs; [by apply (buffer_ok_same b)|lia|congruence|].
  intros i b2 E2 (Ho2 & Hd2 & Hn & Hfit). pose proof E2 as [_ Hl2].
  assert (E : same_text b b2) by (etrans; [|exact E2]; etrans; [|exact E1]; done).
  apply runs_bind, runs_skip_whitespace; [by apply (buffer_ok_same b)|lia|].
  intros b3 E3 [Ho3 Hd3]. apply runs_ret.
  apply (HQ i b3 (offset b2 - offset b1)); [by etrans|lia|congruence|done|done].
Qed.

Lemma array_item_reads b :
  buffer_ok b → offset b < blength b → depth b = D →
  reads item_fits 1 (array_entry parse_value) b.
Proof.
  intros Hok Hlt HD Q HQ. apply runs_spaced_value; [done..|].
  intros i b' n E Ho Hd _ Hf. by apply (HQ i n).
Qed.

Lemma object_entry_reads b :
  buffer_ok b → offset b < blength b → depth b = D →
  reads member_fits 1 (object_entry parse_value) b.
Proof.
  intros Hok Hlt HD Q HQ. unfold object_entry.
  apply runs_bind, runs_advance.
  apply runs_bind, runs_skip_whitespace; [done|cbn [offset blength]; lia|].
  intros b1 E1 [Ho1 Hd1]. cbn [offset blength depth] in *. pose proof E1 as [_ Hl1].
  cbn [content blength] in Hl1.
  assert (E1' : same_text b b1) by (etrans; [|exact E1]; done).
  apply runs_bind, runs_parse_string; [by apply (buffer_ok_same b)|lia|].
  intros key b2 s E2 (Ho2 & Hd2 & _) Hs Hlen. pose proof E2 as [_ Hl2].
  assert (E2' : same_text b b2) by by etrans.
  apply runs_bind, runs_skip_whitespace; [by apply (buffer_ok_same b)|lia|].
  intros b3 E3 [Ho3 Hd3]. pose proof E3 as [_ Hl3].
  assert (E3' : same_text b b3) by by etrans.
  apply runs_bind, runs_looking_at; [by apply (buffer_ok_same b)|intros _ Hlt3|apply runs_fail].
  cbn [negb]. apply runs_spaced_value; [by apply (buffer_ok_same b)|done|congruence|].
  intros i b4 n E4 Ho4 Hd4 Hn [Hp Hr]. cbn [name set_valuestring set_name] in Hn.
  apply (HQ i (n + (offset b2 - offset b1))); [by etrans|lia|congruence|].
  split; [done|]. rewrite Hn, Hs. split; [done|]. intros d. specialize (Hr d). lia.
Qed.

(** Both loops: an item, then a comma and the rest, or the end. *)
Lemma runs_items (loop : nat → P (list cJSON)) (entry : P cJSON)
    (F : cJSON → nat → Prop) (G : list cJSON → nat → Prop) :
  (∀ f b Q,
     runs (current_item ← entry; comma ← looking_at ",";
           if (comma : bool) then rest ← loop f; mret (current_item :: rest)
           else mret [current_item]) b Q →
     runs (loop (S f)) b Q) →
  (∀ b, buffer_ok b → offset b < blength b → depth b = D → reads F 1 entry b) →
  (∀ v n, F v n → G [v] (S n)) →
  (∀ v n l m, F v n → G l m → l ≠ [] → G (v :: l) (S n + m)) →
  ∀ fuel b, blength b - offset b < fuel → buffer_ok b → offset b < blength b → depth b = D →
    reads (fun l n => G l n ∧ l ≠ []) 0 (loop fuel) b.
Proof.
  intros Hloop Hitem Hone Hcons. induction fuel as [|f IH]; intros b Hf Hok Hlt HD Q HQ; [lia|].
  apply Hloop, runs_bind, Hitem; [done..|].
  intros v n b1 E1 Ho1 Hd1 Hv. pose proof E1 as [_ Hl1].
  assert (Hok1 : buffer_ok b1) by by apply (buffer_ok_same b).
  apply runs_bind, runs_looking_at; [done| |].
  - intros _ Hlt1. apply runs_bind, IH; [lia|done|done|congruence|].
    intros l m b2 E2 Ho2 Hd2 [Hl Hne]. apply runs_ret.
    apply (HQ _ (S n + m)); [by etrans|lia|congruence|]. split; [by apply Hcons|done].
  - apply runs_ret, (HQ _ (S n)); [done|lia|done|]. split; [by apply Hone|done].
Qed.

Lemma array_loop_reads fuel b :
  blength b - offset b < fuel → buffer_ok b → offset b < blength b → depth b = D →
  reads (fun l n => elements_fit l n ∧ l ≠ []) 0 (array_loop parse_value fuel) b.
Proof.
  apply (runs_items _ (array_entry parse_value) item_fits elements_fit).
  - intros f b0 Q. cbn [array_loop]. unfold runs, array_entry. rewrite !stM_bind_eq.
    destruct (advance 1 b0) as [b1 [[]|e|]]; try done. rewrite !stM_bind_eq.
    destruct (buffer_skip_whitespace b1) as [b2 [[]|e|]]; try done. rewrite !stM_bind_eq.
    destruct (parse_value cJSON_New_Item b2) as [b3 [i|e|]]; try done. rewrite !stM_bind_eq.
    by destruct (buffer_skip_whitespace b3) as [b4 [[]|e|]].
  - apply array_item_reads.
  - intros v n [Hp Hr]. split; [by constructor|]. intros d. cbn. rewrite app_nil_r.
    specialize (Hr d). lia.
  - intros v n l m [Hp Hr] [Hl Hs] Hne. split; [by constructor|]. intros d.
    destruct l as [|w l]; [done|]. specialize (Hr d). specialize (Hs d).
    cbn [render_elements] in *. rewrite !length_app in *.
    change (length #",") with 1 in *. lia.
Qed.

Lemma object_loop_reads fuel b :
  blength b - offset b < fuel → buffer_ok b → offset b < blength b → depth b = D →
  reads (fun l n => members_fit l n ∧ l ≠ []) 0 (object_loop parse_value fuel) b.
Proof.
  apply (runs_items _ (object_entry parse_value) member_fits members_fit).
  - done.
  - apply object_entry_reads.
  - intros v n (Hp & Hn & Hr). split; [by constructor|]. split; [by constructor|].
    intros d. specialize (Hr d). cbn [render_members]. rewrite !length_app.
    change (length #":") with 1. cbn [length]. lia.
  - intros v n l m (Hp & Hn & Hr) (Hl & Hns & Hs) Hne. split; [by constructor|].
    split; [by constructor|]. intros d. specialize (Hr d). specialize (Hs d).
    cbn [render_members]. rewrite !length_app. change (length #":") with 1.
    destruct l; [done|]. change (length #",") with 1. cbn [length] in *. lia.
Qed.

End Items.

Lemma runs_container opening closing jt items item (G : list cJSON → nat → Prop) b
    (Q : cJSON → parse_buffer → Prop) :
  buffer_ok b → S (offset b) < blength b → 0 < depth b → closing ≠ NUL → G [] 1 →
  (∀ b', same_text b b' → offset b' < blength b' → depth b' = depth b →
     reads G 0 (items (S (blength b' - offset b'))) b') →
  (∀ l b' n, same_text b b' → offset b + n + 1 ≤ offset b' < blength b →
     depth b' = depth b - 1 → G l n → Q (set_jtype jt (set_child l item)) b') →
  runs (container opening closing jt items item) b Q.
Proof.
  intros Hok Hlt HD Hc HG Hitems HQ. unfold container. cbv zeta.
  apply runs_bind, runs_advance.
  apply runs_bind, runs_skip_whitespace; [done|cbn [offset blength]; lia|].
  intros b1 E1 [Ho1 Hd1]. cbn [offset blength depth] in *. pose proof E1 as [_ Hl1].
  cbn [content blength] in Hl1.
  assert (E1' : same_text b b1) by (etrans; [|exact E1]; done).
  assert (Hok1 : buffer_ok b1) by by apply (buffer_ok_same b).
  assert (Hend : ∀ l n b2, same_text b b2 → offset b + n ≤ offset b2 → depth b2 = depth b →
    content b2 !! offset b2 = Some closing → G l n →
    runs (b ← get; (match depth b with O => undef | S d => set_depth d end);;
          advance 1;; mret (set_jtype jt (set_child l item))) b2 Q).
  { intros l n b2 E2 Ho2 Hd2 Hcl Hl. pose proof E2 as [_ Hl2].
    assert (S (offset b2) < blength b2) by (eapply before_nul; [by apply (buffer_ok_same b)|done..]).
    apply runs_bind, runs_get. destruct (depth b2) as [|d] eqn:Ed; [lia|].
    apply runs_bind, runs_set_depth, runs_bind, runs_advance, runs_ret.
    apply (HQ l _ n); [done|cbn [offset]; lia|cbn [depth]; lia|done]. }
  apply runs_bind, runs_looking_at; [done|intros Hcl _|].
  { apply runs_bind, runs_ret, (Hend [] 1); [done|lia|done|done|done]. }
  apply runs_bind, runs_bind, runs_can_access. rewrite Nat.add_0_r.
  destruct (Nat.ltb_spec (offset b1) (blength b1)) as [_|]; [|lia]. cbn [negb].
  apply runs_bind, runs_retreat; [lia|]. apply runs_bind, runs_get.
  apply runs_bind, Hitems; [done|cbn [offset blength]; lia|done|].
  intros l n b2 E2 Ho2 Hd2 Hl. cbn [offset blength depth] in *.
  assert (E2' : same_text b b2) by (etrans; [|exact E2]; done).
  apply runs_bind, runs_looking_at; [by apply (buffer_ok_same b)|intros Hcl _|apply runs_fail].
  apply runs_ret. apply (Hend l n); [done|lia|congruence|done|done].
Qed.

(** ** Lemmas: values *)

(** Reading a container's items with [parse] is possible one level down. *)
Definition parses_at (parse : cJSON → P cJSON) (D : nat) : Prop :=
  ∀ item b (Q : cJSON → parse_buffer → Prop),
    buffer_ok b → offset b < blength b → depth b = D →
    (∀ i b', same_text b b' → value_read item i b b' → Q i b') → runs (parse item) b Q.

Lemma runs_parse_array parse item b (Q : cJSON → parse_buffer → Prop) :
  buffer_ok b → offset b < blength b →
  (depth b < CJSON_NESTING_LIMIT → parses_at parse (S (depth b))) →
  (∀ i b', same_text b b' → value_read item i b b' → Q i b') → runs (parse_array parse item) b Q.
Proof.
  intros Hok Hlt Hp HQ. unfold parse_array. apply runs_bind, runs_get.
  destruct (Nat.leb_spec CJSON_NESTING_LIMIT (depth b)) as [_|Hd]; [apply runs_fail|].
  apply runs_bind, runs_set_depth. apply runs_bind, runs_read_at; [done|cbn [offset blength]; lia|].
  cbn [content offset]. rewrite Nat.add_0_r. intros c Hc.
  destruct (Ascii.eqb_spec c "[") as [->|_]; [|apply runs_fail]. cbn [negb].
  apply (runs_container _ _ _ _ _ elements_fit); cbn [offset blength depth]; try done.
  - by eapply before_nul.
  - lia.
  - split; [done|]. intros d. cbn. lia.
  - intros b' E Hlt' Hd' R HR. pose proof E as [_ Hl]. cbn [blength] in Hl.
    eapply array_loop_reads; [by apply Hp|lia|by apply (buffer_ok_same b)|done|done|].
    intros l n b2 E2 Ho2 Hd2 [Hl2 _]. by apply (HR l n).
  - intros l b' n E Ho Hd' [Hl Hr]. apply HQ; [done|].
    split; [lia|]. split; [lia|]. split; [done|]. split; [by apply ok_array|].
    intros d. specialize (Hr (S d)).
    change (render false d (set_jtype cJSON_Array (set_child l item)))
      with (#"[" ++ render_elements false (render false) (S d) l ++ #"]").
    rewrite !length_app. change (length #"[") with 1. change (length #"]") with 1. lia.
Qed.

Lemma runs_parse_object parse item b (Q : cJSON → parse_buffer → Prop) :
  buffer_ok b → offset b < blength b →
  (depth b < CJSON_NESTING_LIMIT → parses_at parse (S (depth b))) →
  (∀ i b', same_text b b' → value_read item i b b' → Q i b') → runs (parse_object parse item) b Q.
Proof.
  intros Hok Hlt Hp HQ. unfold parse_object. apply runs_bind, runs_get.
  destruct (Nat.leb_spec CJSON_NESTING_LIMIT (depth b)) as [_|Hd]; [apply runs_fail|].
  apply runs_bind, runs_set_depth.
  apply runs_bind, runs_looking_at; [done| |apply runs_fail].
  cbn [content offset]. intros Hc _. cbn [negb].
  apply (runs_container _ _ _ _ _ members_fit); cbn [offset blength depth]; try done.
  - by eapply before_nul.
  - lia.
  - split; [done|]. split; [done|]. intros d. cbn. lia.
  - intros b' E Hlt' Hd' R HR. pose proof E as [_ Hl]. cbn [blength] in Hl.
    eapply object_loop_reads; [by apply Hp|lia|by apply (buffer_ok_same b)|done|done|].
    intros l n b2 E2 Ho2 Hd2 [Hl2 _]. by apply (HR l n).
  - intros l b' n E Ho Hd' (Hl & Hn & Hr). apply HQ; [done|].
    split; [lia|]. split; [lia|]. split; [done|]. split; [by apply ok_object|].
    intros d. specialize (Hr (S d)).
    change (render false d (set_jtype cJSON_Object (set_child l item)))
      with (#"{" ++ render_members false (render false) (S d) l ++ [] ++ #"}").
    rewrite !length_app. change (length #"{") with 1. change (length #"}") with 1.
    cbn [length]. lia.
Qed.

(** A literal: four characters at least, for a text of five at most. *)
Lemma runs_literal_value lit c n item i b (Q : cJSON → parse_buffer → Prop) (k : P cJSON) :
  buffer_ok b → last lit = Some c → c ≠ NUL → length lit = n → 4 ≤ n →
  name i = name item → jtype i = cJSON_NULL ∨ jtype i = cJSON_False ∨ jtype i = cJSON_True →
  (∀ i b', same_text b b' → value_read item i b b' → Q i b') →
  runs k b Q → runs (t ← literal lit; if (t : bool) then advance n;; mret i else k) b Q.
Proof.
  intros Hok Hl Hc Hn Hge Hname Hj HQ Hk. apply runs_bind, (runs_literal lit b c); [done..| |done].
  intros Hlt. apply runs_bind, runs_advance, runs_ret, HQ; [done|].
  split; [cbn [offset]; lia|]. split; [done|]. split; [done|]. split; [by apply ok_literal|].
  intros d. cbn [offset]. destruct i as [jt vs vi vd nm ch]. cbn [jtype] in Hj.
  assert (H5 : length (render false d (mk_cJSON jt vs vi vd nm ch)) ≤ 5)
    by (destruct Hj as [->|[->| ->]]; vm_compute; lia).
  lia.
Qed.

Lemma parse_value_parses fuel D :
  D ≤ CJSON_NESTING_LIMIT → S CJSON_NESTING_LIMIT ≤ fuel + D → parses_at (parse_value fuel) D.
Proof.
  revert D. induction fuel as [|f IH]; intros D HD Hf item b Q Hok Hlt Hd HQ; [lia|].
  cbn [parse_value].
  apply (runs_literal_value #"null" "l" 4 item); try done; try lia; [by left|].
  apply (runs_literal_value #"false" "e" 5 item); try done; try lia; [by right; left|].
  apply (runs_literal_value #"true" "e" 4 item); try done; try lia; [by right; right|].
  apply runs_bind, runs_looking_at; [done| |].
  { intros _ _. apply runs_parse_string; [done|done|]. intros i b' s E Hr _ _. by apply HQ. }
  apply runs_bind, runs_at_char; [done| |].
  { intros _ _ _ _. apply runs_parse_number; [done|lia|done]. }
  assert (Hp : depth b < CJSON_NESTING_LIMIT → parses_at (parse_value f) (S (depth b))).
  { intros Hlim. apply IH; lia. }
  apply runs_bind, runs_looking_at; [done| |].
  { intros _ _. by apply runs_parse_array. }
  apply runs_bind, runs_looking_at; [done| |apply runs_fail].
  intros _ _. by apply runs_parse_object.
Qed.

Lemma runs_parse_document rnt b (Q : cJSON → parse_buffer → Prop) :
  buffer_ok b → depth b = 0 →
  (∀ i b', same_text b b' → offset b' < blength b → item_fits i (blength b) → Q i b') →
  runs (parse_document rnt) b Q.
Proof.
  intros Hok Hd HQ. unfold parse_document.
  apply runs_bind, runs_skip_utf8_bom; [done|]. intros b1 E1 Ho1 Hd1. pose proof E1 as [_ Hl1].
  apply runs_bind, runs_skip_whitespace; [by apply (buffer_ok_same b)|lia|].
  intros b2 E2 [Ho2 Hd2]. pose proof E2 as [_ Hl2].
  assert (E2' : same_text b b2) by by etrans.
  apply runs_bind, (parse_value_parses parse_fuel 0);
    [lia|unfold parse_fuel; lia|by apply (buffer_ok_same b)|lia|congruence|].
  intros i b3 E3 (Ho3 & Hd3 & _ & Hp & Hr). pose proof E3 as [_ Hl3].
  assert (E3' : same_text b b3) by by etrans.
  assert (Hfit : item_fits i (blength b)).
  { split; [done|]. intros d. specialize (Hr d). lia. }
  destruct rnt; [|apply runs_ret, HQ; [done|lia|done]].
  apply runs_bind, runs_skip_whitespace; [by apply (buffer_ok_same b)|lia|].
  intros b4 E4 [Ho4 Hd4]. pose proof E4 as [_ Hl4].
  assert (E4' : same_text b b4) by by etrans.
  apply runs_bind, runs_get. destruct (Nat.leb_spec (blength b4) (offset b4)); [lia|].
  apply runs_bind, runs_read_at; [by apply (buffer_ok_same b)|lia|]. intros c _.
  destruct (Ascii.eqb c NUL); [|apply runs_fail]. apply runs_ret, HQ; [done|lia|done].
Qed.

Lemma text_buffer_ok v :
  buffer_ok {| content := c_str v ++ [NUL]; blength := length (c_str v ++ [NUL]);
               offset := 0; depth := 0 |}.
Proof.
  unfold buffer_ok. cbn [content blength]. rewrite length_app. cbn [length].
  split; [lia|]. split; [done|]. rewrite lookup_app_r by lia.
  by replace (length (c_str v) + 1 - 1 - length (c_str v)) with 0 by lia.
Qed.

(** What a parse result promises. *)
Definition result_ok (text : str) (r : parse_result) : Prop :=
  pr_end r ≤ length (c_str text) ∧ pr_error r ≤ length (c_str text) ∧
  match pr_item r with
  | Some i => item_fits i (S (length text))
  | None => pr_end r = pr_error r
  end.

Lemma cJSON_ParseWithOpts_runs {E} v rnt :
  ∃ r, (cJSON_ParseWithOpts (Some v) rnt : outcome E parse_result) = Ret r ∧ result_ok v r.
Proof.
  unfold cJSON_ParseWithOpts, result_ok. set (b := Build_parse_buffer _ _ _ _).
  assert (Hrun : runs (parse_document rnt) b
     (fun i b' => offset b' < blength b ∧ item_fits i (blength b))).
  { apply runs_parse_document; [apply text_buffer_ok|done|done]. }
  pose proof (c_str_length v) as Hlen.
  assert (Hbl : blength b = S (length (c_str v))) by (cbn; rewrite length_app; cbn; lia).
  unfold runs in Hrun. destruct (parse_document rnt b) as [b' [i|e|]]; [| |done].
  - destruct Hrun as [_ [Ho [Hp Hr]]]. eexists. split; [done|]. cbn [pr_end pr_error pr_item].
    split; [lia|]. split; [lia|]. split; [done|]. intros d. specialize (Hr d). lia.
  - destruct Hrun as [_ Hl]. rewrite Hbl in Hl. eexists. split; [done|]. unfold parse_failed.
    cbn [pr_end pr_error pr_item]. rewrite Hl.
    destruct (Nat.ltb_spec 0 (S (length (c_str v)))); [|lia].
    destruct (Nat.ltb_spec (offset b') (S (length (c_str v)))); lia.
Qed.

Lemma cJSON_Parse_runs {E} v :
  ∃ r, (cJSON_Parse v : outcome E (option cJSON)) = Ret r ∧
       ∀ i, r = Some i → item_fits i (S (length v)).
Proof.
  destruct (@cJSON_ParseWithOpts_runs E v false) as (r & Hr & _ & _ & Hi).
  exists (pr_item r). unfold cJSON_Parse. rewrite Hr. split; [done|].
  intros i Hs. by rewrite Hs in Hi.
Qed.

Lemma forallb_children c :
  Forall (fun i => parsed_ok i → printable i = true) c → Forall parsed_ok c →
  forallb printable c = true.
Proof.
  induction 1 as [|i c Hi _ IH]; inversion_clear 1; [done|]. cbn. rewrite Hi by done. auto.
Qed.

(** What the parser builds, the printer prints. *)
Lemma parsed_printable i : parsed_ok i → printable i = true.
Proof.
  induction i as [i IH] using cJSON_nested_ind. intros Hp.
  destruct i as [jt vs vi vd nm c]. cbn [child] in IH. cbn [printable kind jtype].
  inversion Hp as [? [H|[H|H]]|? H H64|? s H|? H Hc|? H Hc]; cbn in H; subst; cbn; try done.
  - cbn [valuedouble] in H64.
    pose proof (format_g_length 15 vd ltac:(lia) H64).
    pose proof (format_g_length 17 vd ltac:(lia) H64).
    apply andb_true_intro. split; apply Nat.leb_le; lia.
  - by apply forallb_children.
  - by apply forallb_children.
Qed.

(** ** Properties *)

(** The parser is memory safe and terminates: on every text,
    [cJSON_ParseWithOpts] returns (no read outside the text or its NUL, no
    write outside the block allocated for a string, no pointer below the
    buffer, no undefined number conversion, no endless loop); the positions
    it reports are inside the text; and the item is well formed, printed
    without formatting in at most 32 characters for each of the text. *)
Theorem cJSON_ParseWithOpts_safe (value : str) (require_null_terminated : bool) :
  ∃ r, (cJSON_ParseWithOpts (Some value) require_null_terminated : outcome unit parse_result) = Ret r
       ∧ result_ok value r.
Proof. apply cJSON_ParseWithOpts_runs. Qed.

(** C24. What was parsed can be printed: for every text of less than 2^24
    bytes that [cJSON_Parse] accepts, [cJSON_PrintUnformatted] of the item
    returns its text, never NULL. *)
Theorem parsed_item_prints (value : str) (item : cJSON) :
  (Z.of_nat (length value) < 2 ^ 24)%Z →
  (cJSON_Parse value : outcome unit (option cJSON)) = Ret (Some item) →
  (cJSON_PrintUnformatted item : outcome unit (option str)) = Ret (Some (c_str (render false 0 item))).
Proof.
  intros Hl Hp. destruct (@cJSON_Parse_runs () value) as (r & Hr & Hi).
  rewrite Hp in Hr. injection Hr as <-. destruct (Hi item eq_refl) as [Hok Hlen].
  apply print_eq; [by apply parsed_printable|]. specialize (Hlen 0). unfold print_limit. lia.
Qed.

Lemma parsed_item_prints_witness :
  ∃ item, (cJSON_Parse (quoted #" [1, {'a': null}]") : outcome unit _) = Ret (Some item) ∧
    (cJSON_PrintUnformatted item : outcome unit (option str)) = Ret (Some (quoted #"[1,{'a':null}]")).
Proof.
  eexists. split; [vm_compute; reflexivity|].
  rewrite (parsed_item_prints (quoted #" [1, {'a': null}]")); vm_compute; reflexivity.
Defined.
