(* ===== verification/CJsonRoundtrip.v ===== *)
(** * Printing and parsing JSON are inverse (src/libs/cJSON.c)

    [json] is a JSON value, [item_of] the item cJSON has for it: what the
    printer writes for such an item, formatted or not, the parser reads back
    to the same item.  A value has strings without a NUL, numbers whose text
    reads back, and no more nesting than the parser allows. *)
From Stdlib Require Import SpecFloat.
From S2P Require Import Prelude.
From S2P Require Import CLib.
From S2P Require Import CFloat.
From S2P Require Import CFloatSpec.
From S2P Require Import CJson.
From S2P Require Import CJsonTree.
From S2P Require Import CJsonPrint.
From S2P Require Import CJsonPrintSpec.
From S2P Require Import CJsonSafety.

(** ** Definitions *)

#[local] Set Warnings "-register-all".

Inductive json : Type :=
  | JNull
  | JFalse
  | JTrue
  | JNumber (d : double)
  | JString (s : str)
  | JArray (l : list json)
  | JObject (l : list (str * json)).

(** The saturated integer of a number. *)
Definition integer_of (d : double) : Z :=
  match saturate d : outcome unit Z with Ret n => n | _ => 0 end.

(** The item of a value, under a name if it is a member. *)
Fixpoint item_of (nm : option str) (j : json) : cJSON :=
  match j with
  | JNull => mk_cJSON cJSON_NULL None 0 (S754_zero false) nm []
  | JFalse => mk_cJSON cJSON_False None 0 (S754_zero false) nm []
  | JTrue => mk_cJSON cJSON_True None 1 (S754_zero false) nm []
  | JNumber d => mk_cJSON cJSON_Number None (integer_of d) d nm []
  | JString s => mk_cJSON cJSON_String (Some s) 0 (S754_zero false) nm []
  | JArray l => mk_cJSON cJSON_Array None 0 (S754_zero false) nm (map (item_of None) l)
  | JObject l => mk_cJSON cJSON_Object None 0 (S754_zero false) nm
                   (map (fun m => item_of (Some (fst m)) (snd m)) l)
  end.

#[export] Instance double_eq_dec : EqDecision double.
Proof. solve_decision. Defined.

(** The text printed for a number is short, made of the characters of
    numbers, starts like one, and is read back to the number. *)
Definition number_reads (d : double) : bool :=
  let t := number_str d in
  (length t <=? 63)%nat && forallb is_number_char t &&
  match t with c :: _ => Ascii.eqb c "-" || is_digit c | [] => false end &&
  bool_decide (strtod t = (d, length t)) && negb (is_nan d).

Definition without_nul (s : str) : bool := bool_decide (no_nul s).

Fixpoint json_ok (j : json) : bool :=
  match j with
  | JNull | JFalse | JTrue => true
  | JNumber d => number_reads d
  | JString s => without_nul s
  | JArray l => forallb json_ok l
  | JObject l => forallb (fun m => without_nul (fst m) && json_ok (snd m)) l
  end.

(** The nesting of arrays and objects. *)
Fixpoint nesting (j : json) : nat :=
  match j with
  | JArray l => S (foldr (fun j n => Nat.max (nesting j) n) 0 l)
  | JObject l => S (foldr (fun m n => Nat.max (nesting (snd m)) n) 0 l)
  | _ => 0
  end.

(** The parser before [rest], after [pre], at depth [d]. *)
Definition buf (pre rest : str) (d : nat) : parse_buffer :=
  {| content := pre ++ rest; blength := length (pre ++ rest); offset := length pre; depth := d |}.

(** [m] reads [tok] and returns [a], whatever was before. *)
Definition eats {A} (m : P A) (tok rest : str) (d : nat) (a : A) : Prop :=
  ∀ pre, m (buf pre (tok ++ rest) d) = (buf (pre ++ tok) rest d, Ret a).

Definition is_white (c : ascii) : Prop := (ord c ≤ 32)%Z.

(** A text that starts with a character of a token. *)
Definition starts (p : ascii → bool) (t : str) : Prop := ∃ c r, t = c :: r ∧ p c = true.

Definition dark (c : ascii) : bool := (32 <? ord c)%Z.

(** What may follow a number. *)
Definition ends_number (rest : str) : Prop :=
  match rest with [] => True | c :: _ => is_number_char c = false end.

(** ** Lemmas: the buffer *)

Lemma eats_ret {A} (a : A) rest d : eats (mret a) [] rest d a.
Proof. intros pre. by rewrite app_nil_r. Qed.

Lemma eats_bind {A B} (m : P A) (f : A → P B) t1 t2 rest d a b :
  eats m t1 (t2 ++ rest) d a → eats (f a) t2 rest d b → eats (m ≫= f) (t1 ++ t2) rest d b.
Proof.
  intros Hm Hf pre. rewrite <- app_assoc, (stM_bind_Ret _ _ _ _ _ (Hm pre)), Hf. by rewrite <- app_assoc.
Qed.

(** A test that reads nothing. *)
Lemma eats_look {A B} (m : P A) (f : A → P B) t rest d a b :
  eats m [] (t ++ rest) d a → eats (f a) t rest d b → eats (m ≫= f) t rest d b.
Proof. intros Hm Hf. exact (eats_bind m f [] t rest d a b Hm Hf). Qed.

Lemma eats_peek {A B} (m : P A) (f : A → P B) rest d a b :
  eats m [] rest d a → eats (f a) [] rest d b → eats (m ≫= f) [] rest d b.
Proof. exact (eats_look m f [] rest d a b). Qed.

Lemma eats_run {A} (m : P A) rest d a pre :
  eats m [] rest d a → m (buf pre rest d) = (buf pre rest d, Ret a).
Proof. intros Hm. specialize (Hm pre). by rewrite app_nil_r in Hm. Qed.

Lemma buf_get pre rest d : get (buf pre rest d) = (buf pre rest d, Ret (buf pre rest d) : outcome () _).
Proof. done. Qed.

Lemma buf_move pre t rest d :
  set_offset (length pre + length t) (buf pre (t ++ rest) d) = (buf (pre ++ t) rest d, Ret tt).
Proof. unfold set_offset, modify, buf. cbn. by rewrite <- app_assoc, (length_app pre t). Qed.

Lemma eats_advance t rest d : eats (advance (length t)) t rest d tt.
Proof. intros pre. unfold advance. rewrite stM_bind_eq, buf_get. apply buf_move. Qed.

Lemma advance_1 c rest d : eats (advance 1) [c] rest d tt.
Proof. apply (eats_advance [c]). Qed.

Lemma buf_retreat pre c rest d : retreat (buf (pre ++ [c]) rest d) = (buf pre (c :: rest) d, Ret tt).
Proof.
  unfold retreat. rewrite stM_bind_eq, buf_get. cbn [offset buf]. rewrite length_app. cbn [length].
  rewrite Nat.add_1_r. unfold set_offset, modify, buf. cbn. by rewrite <- app_assoc.
Qed.

Lemma eats_can_access i rest d : eats (can_access_at_index i) [] rest d (i <? length rest)%nat.
Proof.
  intros pre. unfold can_access_at_index. rewrite stM_bind_eq, buf_get.
  cbn [offset blength buf app mret stM_mret]. rewrite app_nil_r, length_app. unfold mret, stM_mret. do 2 f_equal.
  destruct (Nat.ltb_spec i (length rest)); [apply Nat.ltb_lt|apply Nat.ltb_ge]; lia.
Qed.

Lemma eats_read_at i rest d c : rest !! i = Some c → eats (read_at i) [] rest d c.
Proof.
  intros Hc pre. unfold read_at, read_abs. rewrite stM_bind_eq, buf_get. cbn [offset buf app].
  rewrite stM_bind_eq, buf_get. cbn [content buf]. rewrite lookup_app_r by lia.
  rewrite Nat.add_comm, Nat.add_sub, Hc. by rewrite app_nil_r.
Qed.

Lemma eats_at_char test c rest d : eats (at_char test) [] (c :: rest) d (test c).
Proof.
  unfold at_char. eapply eats_look; [apply eats_can_access|]. cbn.
  eapply eats_look; [by apply eats_read_at|]. apply eats_ret.
Qed.

Lemma eats_looking_at x c rest d : eats (looking_at x) [] (c :: rest) d (Ascii.eqb c x).
Proof. exact (eats_at_char (fun y => Ascii.eqb y x) c rest d). Qed.

Lemma eats_strncmp lit i rest d : i + length lit ≤ length rest →
  eats (strncmp_at i lit) [] rest d (is_prefix lit (drop i rest)).
Proof.
  revert i. induction lit as [|x lit IH]; intros i Hl; cbn [strncmp_at length] in *; [apply eats_ret|].
  destruct (rest !! i) as [c|] eqn:E; [|apply lookup_ge_None in E; lia].
  rewrite (drop_S _ _ _ E). eapply eats_look; [by apply eats_read_at|]. cbn.
  rewrite (Ascii.eqb_sym x c). destruct (Ascii.eqb c x); cbn; [apply IH; lia|apply eats_ret].
Qed.

Lemma is_prefix_length p s : is_prefix p s = true → length p ≤ length s.
Proof. intros [r ->]%is_prefix_spec. rewrite length_app. lia. Qed.

Lemma eats_literal lit rest d : eats (literal lit) [] rest d (is_prefix lit rest).
Proof.
  intros pre. unfold literal, can_read. rewrite stM_bind_eq, stM_bind_eq, buf_get.
  cbn [offset blength buf app mret stM_mret]. rewrite length_app.
  destruct (Nat.leb_spec (length pre + length lit) (length pre + length rest)) as [Hl|Hl].
  - apply (eats_strncmp lit 0); lia.
  - rewrite app_nil_r. destruct (is_prefix lit rest) eqn:E; [|done].
    apply is_prefix_length in E. lia.
Qed.

(** ** Lemmas: white space *)

Lemma eats_skip_loop ws rest d : Forall is_white ws → starts dark rest →
  ∀ fuel, length ws < fuel → eats (skip_whitespace_loop fuel) ws rest d tt.
Proof.
  intros Hw (c & r & -> & Hc). induction Hw as [|w ws Hwh _ IH]; intros [|fuel] Hf; cbn [length] in Hf; try lia;
    cbn [skip_whitespace_loop].
  - eapply eats_look; [apply eats_at_char|].
    assert (Hn : (ord c <=? 32)%Z = false) by (apply Z.leb_gt; by apply Z.ltb_lt in Hc). rewrite Hn.
    apply eats_ret.
  - eapply eats_look; [apply (eats_at_char _ w (ws ++ c :: r))|].
    unfold is_white in Hwh. apply Z.leb_le in Hwh. rewrite Hwh.
    eapply (eats_bind _ _ [w] ws); [apply advance_1|]. apply IH. lia.
Qed.

Lemma eats_skip ws rest d : Forall is_white ws → starts dark rest →
  eats buffer_skip_whitespace ws rest d tt.
Proof.
  intros Hw Hr pre. unfold buffer_skip_whitespace. rewrite stM_bind_eq, buf_get.
  cbn [offset blength buf].
  assert (Hf : length ws < S (length (pre ++ ws ++ rest) - length pre)) by (rewrite !length_app; lia).
  rewrite (stM_bind_Ret _ _ _ _ _ (eats_skip_loop ws rest d Hw Hr _ Hf pre)).
  rewrite stM_bind_eq, buf_get. destruct Hr as (c & r & -> & _). cbn [offset blength buf].
  rewrite (length_app _ (c :: r)). cbn [length].
  destruct (Nat.eqb_spec (length (pre ++ ws)) (length (pre ++ ws) + S (length r))); [lia|done].
Qed.

Lemma eats_no_skip rest d : starts dark rest → eats buffer_skip_whitespace [] rest d tt.
Proof. intros Hr. by apply eats_skip. Qed.

(** ** Lemmas: strings *)

(** The three ways a character is written in a string. *)
Inductive escape_form (c : ascii) : str → nat → Prop :=
  | form_plain : c ≠ "034"%char → c ≠ "\"%char → escape_form c [c] 0
  | form_short x : simple_escape x = Some c → escape_form c [ "\"%char; x] 1
  | form_unicode h1 h2 d1 d2 :
      hex_digit h1 = Some d1 → hex_digit h2 = Some d2 → (0 ≤ 16 * d1 + d2 < 128)%Z →
      utf8_encode (16 * d1 + d2) = Some [c] →
      escape_form c [ "\"%char; "u"%char; "0"%char; "0"%char; h1; h2] 1.

(** The escapes in what is written for a character. *)
Definition escape_cost (c : ascii) : nat := if (length (escape1 c) =? 1)%nat then 0 else 1.

Fixpoint string_cost (s : str) : nat :=
  match s with [] => 0 | c :: r => escape_cost c + string_cost r end.

Lemma escape1_form c : c ≠ NUL → escape_form c (escape1 c) (escape_cost c).
Proof.
  intros Hc. destruct c as [[] [] [] [] [] [] [] []];
    match goal with |- escape_form ?c _ _ =>
      let e := eval vm_compute in (escape1 c) in change (escape1 c) with e;
      let n := eval vm_compute in (escape_cost c) in change (escape_cost c) with n end;
    first [by elim Hc|by apply form_plain|by apply form_short|eapply form_unicode; try reflexivity; split; done].
Qed.

Lemma escape_form_length c e n : escape_form c e n → n < length e ∧ 1 + n ≤ length e.
Proof. intros []; cbn; lia. Qed.

Lemma escaped_cost s : no_nul s → length s + string_cost s ≤ length (concat (map escape1 s)).
Proof.
  induction s as [|c s IH]; intros Hs; cbn; [lia|]. apply no_nul_cons in Hs as [Hc Hs].
  rewrite length_app. pose proof (escape_form_length _ _ _ (escape1_form c Hc)). specialize (IH Hs). lia.
Qed.

Lemma hex_digit_plain h d : hex_digit h = Some d → h ≠ "034"%char ∧ h ≠ "\"%char.
Proof. intros Hh. split; intros ->; done. Qed.

(** A buffer of the bytes [A ++ X]. *)
Definition holds (b : parse_buffer) (A X : str) : Prop :=
  content b = A ++ X ∧ blength b = length (A ++ X).

Lemma holds_app b A e X : holds b A (e ++ X) → holds b (A ++ e) X.
Proof. unfold holds. by rewrite <- app_assoc. Qed.

Lemma read_holds b A X i c : holds b A X → X !! i = Some c → read_abs (length A + i) b = (b, Ret c).
Proof.
  intros [Hc _] Hi. unfold read_abs. rewrite stM_bind_eq. cbn. rewrite Hc, lookup_app_r by lia.
  by rewrite Nat.add_comm, Nat.add_sub, Hi.
Qed.

Lemma read_holds_0 b A c X : holds b A (c :: X) → read_abs (length A) b = (b, Ret c).
Proof. intros Hh. rewrite <- (Nat.add_0_r (length A)). by apply (read_holds b A (c :: X)). Qed.

Lemma holds_length b A X : holds b A X → blength b = length A + length X.
Proof. intros [_ ->]. apply length_app. Qed.

(** One round of the first pass over a character that is no escape. *)
Lemma scan_unescaped b A c X fuel k : holds b A (c :: X) → c ≠ "034"%char → c ≠ "\"%char →
  scan_string (S fuel) (length A) k b = scan_string fuel (length (A ++ [c])) k b.
Proof.
  intros Hh Hq Hb. cbn [scan_string]. rewrite stM_bind_eq. cbn [get].
  rewrite (holds_length _ _ _ Hh). cbn [length].
  destruct (Nat.ltb_spec (length A) (length A + S (length X))); [|lia].
  rewrite (stM_bind_Ret _ _ _ _ _ (read_holds_0 _ _ _ _ Hh)).
  destruct (Ascii.eqb_spec c "034"); [done|]. destruct (Ascii.eqb_spec c "\"); [done|].
  by rewrite length_app.
Qed.

(** One round over an escape. *)
Lemma scan_escape b A x X fuel k : holds b A ( "\"%char :: x :: X) →
  scan_string (S fuel) (length A) k b = scan_string fuel (length (A ++ [ "\"%char; x])) (S k) b.
Proof.
  intros Hh. cbn [scan_string]. rewrite stM_bind_eq. cbn [get].
  rewrite (holds_length _ _ _ Hh). cbn [length].
  destruct (Nat.ltb_spec (length A) (length A + S (S (length X)))); [|lia].
  rewrite (stM_bind_Ret _ _ _ _ _ (read_holds_0 _ _ _ _ Hh)). cbn [Ascii.eqb].
  change (Ascii.eqb "\" "034") with false. change (Ascii.eqb "\" "\") with true. cbv iota.
  destruct (Nat.leb_spec (length A + S (S (length X))) (length A + 1)); [lia|].
  by rewrite length_app.
Qed.

Lemma scan_form b A c e n X fuel k : escape_form c e n → holds b A (e ++ X) → length e ≤ fuel →
  ∃ fuel', fuel ≤ fuel' + length e ∧
    scan_string fuel (length A) k b = scan_string fuel' (length (A ++ e)) (k + n) b.
Proof.
  intros He Hh Hf. destruct He as [Hq Hb|x Hx|h1 h2 d1 d2 H1 H2 _ _]; cbn [length app] in *.
  - destruct fuel as [|fuel]; [lia|]. exists fuel. split; [lia|].
    rewrite Nat.add_0_r. by apply (scan_unescaped b A c X).
  - destruct fuel as [|fuel]; [lia|]. exists fuel. split; [lia|].
    rewrite Nat.add_1_r. by apply (scan_escape b A x X).
  - do 5 (destruct fuel as [|fuel]; [lia|]). exists fuel. split; [lia|].
    rewrite Nat.add_1_r, (scan_escape b A _ _ _ _ Hh).
    change (?a :: ?b :: ?r) with ([a; b] ++ r) in Hh. apply holds_app in Hh.
    destruct (hex_digit_plain _ _ H1), (hex_digit_plain _ _ H2).
    do 4 (erewrite scan_unescaped by first [exact Hh|done]; change (?a :: ?r) with ([a] ++ r) in Hh; apply holds_app in Hh).
    by rewrite <- !app_assoc.
Qed.

Lemma scan_escaped s : ∀ b A X fuel k, no_nul s →
  holds b A (concat (map escape1 s) ++ "034"%char :: X) → length (concat (map escape1 s)) < fuel →
  scan_string fuel (length A) k b
  = (b, Ret (Some (length (A ++ concat (map escape1 s)), k + string_cost s))).
Proof.
  induction s as [|c s IH]; intros b A X fuel k Hs Hh Hf; cbn [map concat] in *.
  - cbn [app length string_cost] in *. destruct fuel as [|fuel]; [lia|]. cbn [scan_string].
    rewrite stM_bind_eq. cbn [get]. rewrite (holds_length _ _ _ Hh). cbn [length].
    destruct (Nat.ltb_spec (length A) (length A + S (length X))); [|lia].
    rewrite (stM_bind_Ret _ _ _ _ _ (read_holds_0 _ _ _ _ Hh)).
    by rewrite app_nil_r, Nat.add_0_r.
  - apply no_nul_cons in Hs as [Hc Hs]. rewrite length_app in Hf. rewrite <- app_assoc in Hh.
    destruct (scan_form b A c _ _ _ fuel k (escape1_form c Hc) Hh) as (fuel' & Hf' & ->); [lia|].
    apply holds_app in Hh. rewrite (IH b _ X fuel' _ Hs Hh) by lia.
    rewrite app_assoc. cbn [string_cost]. by rewrite Nat.add_assoc.
Qed.

Lemma push_ok size out bytes b : length out + length bytes ≤ size →
  push size out bytes b = (b, Ret (out ++ bytes)).
Proof. intros Hl. unfold push. by rewrite (proj2 (Nat.leb_le _ _)). Qed.

Lemma bind_pure {A B} (m : P A) (f : A → P B) b a : m b = (b, Ret a) → (m ≫= f) b = f a b.
Proof. apply stM_bind_Ret. Qed.

(** The four digits of an escape of a control character. *)
Lemma parse_hex4_low b A h1 h2 d1 d2 X :
  holds b A ( "0"%char :: "0"%char :: h1 :: h2 :: X) →
  hex_digit h1 = Some d1 → hex_digit h2 = Some d2 →
  parse_hex4 (length A) b = (b, Ret (16 * d1 + d2)%Z).
Proof.
  intros Hh H1 H2. unfold parse_hex4. cbn [parse_hex4_loop].
  rewrite (bind_pure _ _ _ _ (read_holds_0 _ _ _ _ Hh)). change (hex_digit "0") with (Some 0%Z). cbv iota beta zeta.
  replace (S (length A)) with (length A + 1) by lia.
  rewrite (bind_pure _ _ _ _ (read_holds _ _ _ 1 "0"%char Hh eq_refl)). change (hex_digit "0") with (Some 0%Z). cbv iota beta zeta.
  replace (S (length A + 1)) with (length A + 2) by lia.
  rewrite (bind_pure _ _ _ _ (read_holds _ _ _ 2 h1 Hh eq_refl)), H1. cbv iota beta zeta.
  replace (S (length A + 2)) with (length A + 3) by lia.
  rewrite (bind_pure _ _ _ _ (read_holds _ _ _ 3 h2 Hh eq_refl)), H2. cbv iota beta zeta.
  change (0 <? 0)%nat with false. change (0 <? 1)%nat with true.
  change (0 <? 2)%nat with true. change (0 <? 3)%nat with true. cbv iota. unfold mret, stM_mret.
  rewrite !Z.shiftl_mul_pow2 by lia. do 2 f_equal. lia.
Qed.

(** One round of the second pass. *)
Lemma unescape_form b A c e n X fuel size ie out :
  escape_form c e n → holds b A (e ++ X) → length (A ++ e) ≤ ie → length out + 1 ≤ size →
  unescape (S fuel) size ie (length A) out b = unescape fuel size ie (length (A ++ e)) (out ++ [c]) b.
Proof.
  intros He Hh Hie Hs. rewrite length_app in Hie. cbn [unescape].
  assert (Hpos : length A < ie) by (pose proof (escape_form_length _ _ _ He); lia).
  rewrite (proj2 (Nat.ltb_lt _ _) Hpos).
  destruct He as [Hq Hb|x Hx|h1 h2 d1 d2 H1 H2 Hr Hu]; cbn [app length] in *.
  - rewrite (bind_pure _ _ _ _ (read_holds_0 _ _ _ _ Hh)).
    destruct (Ascii.eqb_spec c "\"); [done|]. cbn [negb].
    rewrite (bind_pure _ _ _ _ (push_ok size out [c] b Hs)). by rewrite length_app.
  - rewrite (bind_pure _ _ _ _ (read_holds_0 _ _ _ _ Hh)).
    change (negb (Ascii.eqb "\" "\")) with false. cbv iota.
    destruct (Nat.ltb_spec (ie - length A) 1); [lia|].
    rewrite (bind_pure _ _ _ _ (read_holds _ _ _ 1 x Hh eq_refl)), Hx.
    rewrite (bind_pure _ _ _ _ (push_ok size out [c] b Hs)). by rewrite length_app.
  - rewrite (bind_pure _ _ _ _ (read_holds_0 _ _ _ _ Hh)).
    change (negb (Ascii.eqb "\" "\")) with false. cbv iota.
    destruct (Nat.ltb_spec (ie - length A) 1); [lia|].
    rewrite (bind_pure _ _ _ _ (read_holds _ _ _ 1 "u"%char Hh eq_refl)).
    change (simple_escape "u") with (@None ascii). change (Ascii.eqb "u" "u") with true. cbv iota.
    assert (Hutf : utf16_literal_to_utf8 (length A) ie b = (b, Ret (Some ([c], 6)))).
    { unfold utf16_literal_to_utf8. destruct (Nat.ltb_spec (ie - length A) 6); [lia|].
      assert (Hh4 : holds b (A ++ [ "\"%char; "u"%char]) ( "0"%char :: "0"%char :: h1 :: h2 :: X))
        by (by apply holds_app).
      apply (parse_hex4_low _ _ _ _ d1 d2) in Hh4; [|done|done]. rewrite length_app in Hh4.
      rewrite (bind_pure _ _ _ _ Hh4).
      rewrite (proj2 (Z.leb_gt 56320 (16 * d1 + d2))) by lia.
      rewrite (proj2 (Z.leb_gt 55296 (16 * d1 + d2))) by lia. cbn [andb]. by rewrite Hu. }
    rewrite (bind_pure _ _ _ _ Hutf).
    rewrite (bind_pure _ _ _ _ (push_ok size out [c] b Hs)). by rewrite length_app.
Qed.

Lemma unescape_escaped s : ∀ b A X fuel size out, no_nul s →
  holds b A (concat (map escape1 s) ++ X) → length s < fuel → length out + length s ≤ size →
  unescape fuel size (length (A ++ concat (map escape1 s))) (length A) out b = (b, Ret (out ++ s)).
Proof.
  induction s as [|c s IH]; intros b A X fuel size out Hs Hh Hf Hsz; cbn [map concat length] in *;
    (destruct fuel as [|fuel]; [lia|]).
  - cbn [unescape]. rewrite !app_nil_r, Nat.ltb_irrefl. done.
  - apply no_nul_cons in Hs as [Hc Hs]. rewrite <- app_assoc in Hh.
    rewrite (unescape_form b A c _ _ _ fuel _ _ out (escape1_form c Hc) Hh);
      [|rewrite !length_app; lia|lia].
    apply holds_app in Hh. rewrite app_assoc, (IH b _ X fuel size (out ++ [c]) Hs Hh);
      [by rewrite <- app_assoc|lia|rewrite length_app; cbn; lia].
Qed.

(** A printed string is read back. *)
Lemma eats_string s item rest d : no_nul s →
  eats (parse_string item) (render_string (Some s)) rest d
    (set_jtype cJSON_String (set_valuestring (Some s) item)).
Proof.
  intros Hs pre. unfold render_string. cbn [default from_option]. rewrite c_str_no_nul by done.
  set (esc := concat (map escape1 s)).
  assert (Hh : holds (buf pre ((quote ++ esc ++ quote) ++ rest) d) (pre ++ quote) (esc ++ "034"%char :: rest)).
  { unfold holds, buf, quote. cbn [content blength]. rewrite <- !app_assoc. done. }
  assert (Hc : no_nul s ∧ length s + string_cost s ≤ length esc) by (split; [done|by apply escaped_cost]).
  destruct Hc as [_ Hc].
  unfold parse_string. rewrite stM_bind_eq, buf_get. cbv beta iota zeta.
  erewrite (stM_bind_Ret (read_at 0)) by (apply (eats_read_at 0); reflexivity).
  rewrite app_nil_r. change (negb (Ascii.eqb "034" "034")) with false. cbv iota.
  set (b := buf pre _ d) in *.
  assert (Hlen : offset b + 1 = length (pre ++ quote)) by (by rewrite length_app). rewrite Hlen.
  assert (Hb : blength b = length (pre ++ quote) + (length esc + S (length rest))).
  { by rewrite (holds_length _ _ _ Hh), (length_app esc). }
  rewrite (bind_pure _ _ _ _ (scan_escaped s b _ rest (S (blength b)) 0 Hs Hh ltac:(fold esc; lia))).
  fold esc. rewrite (length_app (pre ++ quote) esc).
  destruct (Nat.leb_spec (blength b) (length (pre ++ quote) + length esc)); [lia|].
  assert (Hclose : (esc ++ "034"%char :: rest) !! length esc = Some "034"%char)
    by (by rewrite lookup_app_r, Nat.sub_diag by lia).
  rewrite (bind_pure _ _ _ _ (read_holds b _ _ _ _ Hh Hclose)).
  change (negb (Ascii.eqb "034" "034")) with false. cbv iota. rewrite <- length_app.
  set (size := _ - _ - _ + 1).
  assert (Hsize : length s + 1 ≤ size).
  { unfold size. rewrite length_app. lia. }
  assert (Hfuel : length s < S (blength b)) by lia.
  assert (Hroom : length (@nil ascii) + length s ≤ size) by (cbn; lia).
  rewrite (bind_pure _ _ _ _ (unescape_escaped s b _ _ _ _ [] Hs Hh Hfuel Hroom)).
  rewrite (bind_pure _ _ _ _ (push_ok size ([] ++ s) [NUL] b Hsize)).
  cbn [app].
  replace (length ((pre ++ quote) ++ esc) + 1) with (length pre + length (quote ++ esc ++ quote))
    by (rewrite !length_app; cbn; lia).
  unfold b. by rewrite (stM_bind_Ret _ _ _ _ _ (buf_move pre (quote ++ esc ++ quote) rest d)).
Qed.

(** ** Lemmas: numbers and literals *)

Lemma eats_number_chars t rest d : forallb is_number_char t = true → ends_number rest →
  ∀ n i R, length t ≤ n → drop i R = t ++ rest → eats (number_chars n i) [] R d t.
Proof.
  intros Ht Hr. induction t as [|c t IH]; intros [|n] i R Hn HR; cbn [length] in Hn; try lia;
    cbn [number_chars]; try apply eats_ret.
  - eapply eats_peek; [apply eats_can_access|]. destruct (Nat.ltb_spec i (length R)); [|apply eats_ret].
    destruct rest as [|c rest]; [apply drop_nil_inv in HR; lia|]. apply drop_cons_lookup in HR as [HR _].
    eapply eats_peek; [by apply eats_read_at|]. cbn in Hr. rewrite Hr. apply eats_ret.
  - cbn in Ht. apply andb_true_iff in Ht as [Hc Ht]. apply drop_cons_lookup in HR as [HR HR'].
    eapply eats_peek; [apply eats_can_access|]. rewrite (proj2 (Nat.ltb_lt _ _)) by (by eapply lookup_lt_Some).
    eapply eats_peek; [by apply eats_read_at|]. rewrite Hc.
    eapply eats_peek; [by apply IH; [|lia|]|]. apply eats_ret.
Qed.

Lemma eats_lift {A} (o : outcome () A) a rest d : o = Ret a → eats (lift o) [] rest d a.
Proof. intros -> pre. by rewrite app_nil_r. Qed.

Lemma number_reads_spec d : number_reads d = true →
  length (number_str d) ≤ 63 ∧ forallb is_number_char (number_str d) = true ∧
  strtod (number_str d) = (d, length (number_str d)) ∧ is_nan d = false ∧
  ∃ c r, number_str d = c :: r ∧ Ascii.eqb c "-" || is_digit c = true.
Proof.
  unfold number_reads. rewrite !andb_true_iff, bool_decide_eq_true. intros [[[[Hl Hf] Hs] Hb] Hn].
  apply Nat.leb_le in Hl. apply negb_true_iff in Hn. split_and!; try done.
  destruct (number_str d) as [|c r]; [done|]. by eexists _, _.
Qed.

Lemma eats_number d item rest dp : number_reads d = true → ends_number rest →
  eats (parse_number item) (number_str d) rest dp
    (set_jtype cJSON_Number (set_valueint (integer_of d) (set_valuedouble d item))).
Proof.
  intros Hd Hr. apply number_reads_spec in Hd as (Hl & Hf & Hs & Hn & c & r & Hc & _).
  unfold parse_number. eapply eats_look; [by eapply eats_number_chars|]. rewrite Hs.
  rewrite Hc at 1. cbn [length Nat.eqb].
  destruct (@saturate_defined unit d Hn) as (v & Hv & _).
  assert (Hi : integer_of d = v) by (unfold integer_of; by rewrite Hv). rewrite Hi.
  eapply eats_look; [by apply eats_lift|].
  rewrite <- (app_nil_r (number_str d)) at 2. eapply eats_bind; [apply eats_advance|]. apply eats_ret.
Qed.

(** The first characters of values. *)
Definition token_char (c : ascii) : bool :=
  Ascii.eqb c "n" || Ascii.eqb c "f" || Ascii.eqb c "t" || Ascii.eqb c "034"
  || (Ascii.eqb c "-" || is_digit c) || Ascii.eqb c "[" || Ascii.eqb c "{".

Lemma token_char_facts c : token_char c = true →
  dark c = true ∧ Ascii.eqb c "]" = false ∧ Ascii.eqb c "}" = false ∧ Ascii.eqb c (chr 239) = false.
Proof. destruct c as [[] [] [] [] [] [] [] []]; vm_compute; intros; split_and!; done. Qed.

Lemma starts_token t : starts token_char t → starts dark t.
Proof. intros (c & r & -> & Hc). exists c, r. split; [done|]. by apply token_char_facts. Qed.

Lemma starts_app p t rest : starts p t → starts p (t ++ rest).
Proof. intros (c & r & -> & Hc). by exists c, (r ++ rest). Qed.

(** The choice [parse_value] makes for a character that begins no literal. *)
Lemma eats_value f item c t rest d i (m : P cJSON) :
  Ascii.eqb c "n" = false → Ascii.eqb c "f" = false → Ascii.eqb c "t" = false →
  m = (if Ascii.eqb c "034" then parse_string item
       else if Ascii.eqb c "-" || is_digit c then parse_number item
       else if Ascii.eqb c "[" then parse_array (parse_value f) item
       else if Ascii.eqb c "{" then parse_object (parse_value f) item
       else fail) →
  eats m (c :: t) rest d i → eats (parse_value (S f) item) (c :: t) rest d i.
Proof.
  intros Hn Hf Ht -> Hm. rewrite Ascii.eqb_sym in Hn, Hf, Ht. cbn [parse_value].
  eapply eats_look; [apply eats_literal|]. cbn [String.list_ascii_of_string is_prefix app]. rewrite Hn. cbn [andb].
  eapply eats_look; [apply eats_literal|]. cbn [String.list_ascii_of_string is_prefix app]. rewrite Hf. cbn [andb].
  eapply eats_look; [apply eats_literal|]. cbn [String.list_ascii_of_string is_prefix app]. rewrite Ht. cbn [andb].
  eapply eats_look; [apply (eats_looking_at "034" c)|]. destruct (Ascii.eqb c "034"); [done|].
  eapply eats_look; [apply (eats_at_char (fun c => Ascii.eqb c "-" || is_digit c) c)|].
  cbv beta. destruct (Ascii.eqb c "-" || is_digit c); [done|].
  eapply eats_look; [apply (eats_looking_at "[" c)|]. destruct (Ascii.eqb c "["); [done|].
  eapply eats_look; [apply (eats_looking_at "{" c)|]. destruct (Ascii.eqb c "{"); done.
Qed.

(** ** Lemmas: containers *)

(** What follows a value inside a container. *)
Definition follows (rest : str) : Prop := ∃ c r, rest = c :: r ∧ is_number_char c = false.

Lemma follows_ends rest : follows rest → ends_number rest.
Proof. by intros (c & r & -> & Hc). Qed.

(** The item a value is parsed into. *)
Definition blank (jt : Z) (nm : option str) : cJSON := mk_cJSON jt None 0 (S754_zero false) nm [].

(** The parser [pv] reads the value [j], printed at depth [dd]. *)
Definition reads_value (pv : cJSON → P cJSON) (fmt : bool) (dd d : nat) (j : json) : Prop :=
  (∀ nm, starts token_char (render fmt dd (item_of nm j))) ∧
  ∀ jt nm rest, follows rest →
    eats (pv (blank jt nm)) (render fmt dd (item_of nm j)) rest d (item_of nm j).

Lemma eats_text {A} (m : P A) t t' rest d a : t = t' → eats m t' rest d a → eats m t rest d a.
Proof. by intros ->. Qed.

Lemma starts_comma ws t : starts dark ( ","%char :: ws ++ t) ∧ follows ( ","%char :: ws ++ t).
Proof. split; eexists _, _; done. Qed.

Lemma name_item_of nm j : name (item_of nm j) = nm.
Proof. by destruct j. Qed.

Section Loops.
Variables (pv : cJSON → P cJSON) (fmt : bool) (dd d : nat).

Definition space : str := if fmt then [ " "%char] else [].
Definition line : str := if fmt then [newline] else [].
Definition tabs (n : nat) : str := if fmt then replicate n tab else [].

Lemma space_white : Forall is_white space.
Proof. unfold space. destruct fmt; repeat constructor; unfold is_white; done. Qed.
Lemma line_white : Forall is_white line.
Proof. unfold line. destruct fmt; repeat constructor; unfold is_white; done. Qed.
Lemma tabs_white n : Forall is_white (tabs n).
Proof.
  unfold tabs. destruct fmt; [|constructor]. apply Forall_forall. intros c Hc.
  apply elem_of_replicate in Hc as [-> _]. done.
Qed.

(** The elements of an array, from the character before the first on. *)
Lemma eats_array_loop l : l ≠ [] → Forall (reads_value pv fmt dd d) l →
  ∀ fuel c ws rest, length l ≤ fuel → Forall is_white ws →
  eats (array_loop pv fuel) (c :: ws ++ render_elements fmt (render fmt) dd (map (item_of None) l))
    ( "]"%char :: rest) d (map (item_of None) l).
Proof.
  induction l as [|j l IH]; [done|]. intros _ Hl fuel c ws rest Hf Hw.
  apply Forall_cons in Hl as [[Hs Hv] Hl]. destruct fuel as [|fuel]; [cbn in Hf; lia|].
  cbn [array_loop map render_elements].
  apply (eats_bind _ _ [c] _ _ _ tt); [apply advance_1|].
  apply (eats_bind _ _ ws _ _ _ tt).
  { apply eats_skip; [done|]. rewrite <- app_assoc. apply starts_app, starts_token, Hs. }
  destruct l as [|j' l].
  - cbn [map render_elements app].
    eapply eats_bind; [apply (Hv cJSON_Invalid None); by eexists _, _|].
    eapply eats_peek; [apply eats_no_skip; by eexists _, _|].
    eapply eats_peek; [apply eats_looking_at|]. apply eats_ret.
  - set (more := render_elements fmt (render fmt) dd (map (item_of None) (j' :: l))).
    change (match map (item_of None) (j' :: l) with [] => [] | _ :: _ => if fmt then #", " else #"," end)
      with (if fmt then #", " else #",").
    replace ((if fmt then #", " else #",") ++ more) with ( ","%char :: space ++ more)
      by (unfold space; by destruct fmt).
    eapply eats_bind.
    { apply (Hv cJSON_Invalid None). apply starts_comma. }
    eapply eats_look; [apply eats_no_skip, starts_comma|].
    eapply eats_look; [apply eats_looking_at|].
    rewrite <- (app_nil_r ( ","%char :: space ++ more)).
    eapply eats_bind; [|apply eats_ret]. cbn [app].
    apply (IH ltac:(done) Hl); [cbn in *; lia|apply space_white].
Qed.

(** A member, from the character before it on, up to its value. *)
Definition colon : str := if fmt then [ ":"%char; tab] else #":".

Lemma eats_member m ws rest :
  no_nul (fst m) → reads_value pv fmt dd d (snd m) → Forall is_white ws → ∀ c ws',
  Forall is_white ws' → starts dark rest → follows (ws' ++ rest) →
  eats (object_entry pv)
    (c :: ws ++ render_string (Some (fst m)) ++ colon
       ++ render fmt dd (item_of (Some (fst m)) (snd m)) ++ ws')
    rest d (item_of (Some (fst m)) (snd m)).
Proof.
  intros Hk [Hs Hv] Hw c ws' Hw' Hr Hfo. unfold object_entry.
  apply (eats_bind _ _ [c] _ _ _ tt); [apply advance_1|].
  apply (eats_bind _ _ ws _ _ _ tt); [apply eats_skip; [done|by eexists _, _]|].
  eapply eats_bind; [by apply eats_string|].
  set (tl := render fmt dd _ ++ ws').
  assert (Hcolon : ∃ w, Forall is_white w ∧ colon ++ tl = ":"%char :: w ++ tl).
  { unfold colon. destruct fmt; [exists [tab]|exists []]; split; try done. repeat constructor. done. }
  destruct Hcolon as (w & Hww & ->).
  eapply eats_look; [apply eats_no_skip; by eexists _, _|]. cbv zeta.
  eapply eats_look; [apply eats_looking_at|]. cbn [negb Ascii.eqb Bool.eqb].
  apply (eats_bind _ _ [ ":"%char] _ _ _ tt); [apply advance_1|].
  apply (eats_bind _ _ w _ _ _ tt).
  { apply eats_skip; [done|]. unfold tl. rewrite <- app_assoc. apply starts_app, starts_token, Hs. }
  unfold tl. eapply eats_bind; [apply (Hv cJSON_String (Some (fst m))); exact Hfo|].
  rewrite <- (app_nil_r ws'). eapply eats_bind; [by apply eats_skip|]. apply eats_ret.
Qed.

(** The members from the name of the first on. *)
Definition members_text (l : list (str * json)) : str :=
  render_members fmt (render fmt) dd (map (fun m => item_of (Some (fst m)) (snd m)) l).

Definition inner (m : str * json) (l : list (str * json)) : str :=
  render_string (Some (fst m)) ++ colon ++ render fmt dd (item_of (Some (fst m)) (snd m))
  ++ (match l with [] => line | _ => ","%char :: line end) ++ members_text l.

Lemma members_text_cons m l : members_text (m :: l) = tabs dd ++ inner m l.
Proof.
  unfold members_text, inner, tabs, colon, line. cbn [map render_members]. rewrite name_item_of.
  by destruct l.
Qed.

Lemma eats_object_loop l : ∀ m, Forall (fun m => no_nul (fst m) ∧ reads_value pv fmt dd d (snd m)) (m :: l) →
  ∀ fuel c ws ws' rest, length l < fuel → Forall is_white ws → Forall is_white ws' →
  (line = [] → ws' = []) →
  eats (object_loop pv fuel) (c :: ws ++ inner m l ++ ws') ( "}"%char :: rest) d
    (map (fun m => item_of (Some (fst m)) (snd m)) (m :: l)).
Proof.
  induction l as [|m' l IH]; intros m Hl fuel c ws ws' rest Hf Hw Hw' Hnl;
    apply Forall_cons in Hl as [[Hk Hv] Hl]; (destruct fuel as [|fuel]; [cbn in Hf; lia|]); cbn [object_loop].
  - assert (Hend : starts dark ( "}"%char :: rest) ∧ follows ((line ++ ws') ++ "}"%char :: rest)).
    { split; [by eexists _, _|]. unfold line in *. destruct fmt; [by eexists _, _|].
      rewrite Hnl by done. by eexists _, _. }
    eapply eats_text; [|eapply (eats_bind _ _ _ []); [apply (eats_member m ws _ Hk Hv Hw c (line ++ ws'));
      [apply Forall_app; split; [apply line_white|done]|apply Hend..]|]].
    + unfold inner, members_text. cbn [map render_members]. rewrite !app_nil_r. by rewrite <- !app_assoc.
    + eapply eats_peek; [apply eats_looking_at|]. apply eats_ret.
  - set (more := inner m' l ++ ws').
    eapply eats_text; [|eapply (eats_bind _ _ _ ( ","%char :: (line ++ tabs dd) ++ more));
      [apply (eats_member m ws _ Hk Hv Hw c []); [constructor|apply starts_comma..]|]].
    + unfold inner at 1. rewrite members_text_cons, app_nil_r. unfold more.
      rewrite <- !app_comm_cons, <- !app_assoc. by rewrite <- app_comm_cons, <- !app_assoc.
    + eapply eats_look; [apply eats_looking_at|].
      rewrite <- (app_nil_r ( ","%char :: _)).
      eapply eats_bind; [|apply eats_ret]. unfold more.
      apply IH; try done; [cbn in *; lia|]. apply Forall_app. split; [apply line_white|apply tabs_white].
Qed.
End Loops.

(** [m] reads [tok], one level up afterwards. *)
Definition closes {A} (m : P A) (tok rest : str) (d : nat) (a : A) : Prop :=
  ∀ pre, m (buf pre (tok ++ rest) (S d)) = (buf (pre ++ tok) rest d, Ret a).

Lemma closes_bind {A B} (m : P A) (f : A → P B) t1 t2 rest d a b :
  eats m t1 (t2 ++ rest) (S d) a → closes (f a) t2 rest d b → closes (m ≫= f) (t1 ++ t2) rest d b.
Proof.
  intros Hm Hf pre. rewrite <- app_assoc, (stM_bind_Ret _ _ _ _ _ (Hm pre)), Hf. by rewrite <- app_assoc.
Qed.

Lemma closes_end {A} (x : A) c rest d :
  closes (b ← get; (match depth b with O => undef | S d => set_depth d end);; advance 1;; mret x) [c] rest d x.
Proof.
  intros pre. rewrite stM_bind_eq, buf_get. cbn [depth buf].
  rewrite (stM_bind_Ret _ _ _ (buf pre ([c] ++ rest) d) tt) by done.
  by rewrite (stM_bind_Ret _ _ _ _ _ (advance_1 c rest d pre)).
Qed.

Section Container.
Variables (opening closing : ascii) (jt : Z) (items : nat → P (list cJSON)) (item : cJSON) (d : nat).
Hypothesis closing_dark : dark closing = true.

Lemma container_empty w rest : Forall is_white w →
  closes (container opening closing jt items item) (opening :: w ++ [closing]) rest d
    (set_jtype jt (set_child [] item)).
Proof.
  intros Hw. unfold container.
  apply (closes_bind _ _ [opening] _ _ _ tt); [apply advance_1|].
  apply (closes_bind _ _ w _ _ _ tt); [apply eats_skip; [done|]; by eexists _, _|].
  apply (closes_bind _ _ [] _ _ _ true).
  { rewrite <- (Ascii.eqb_refl closing). apply eats_looking_at. }
  apply (closes_bind _ _ [] _ _ _ []); [apply eats_ret|]. apply closes_end.
Qed.

(** The items are read from the last character before the first. *)
Lemma container_items w body l rest : Forall is_white w → starts dark body → starts (fun c => negb (Ascii.eqb c closing)) body →
  (∀ c fuel, length body ≤ fuel → eats (items fuel) (c :: body) (closing :: rest) (S d) l) →
  closes (container opening closing jt items item) (opening :: w ++ body ++ [closing]) rest d
    (set_jtype jt (set_child l item)).
Proof.
  intros Hw Hb (c0 & r0 & Hc0 & Hne) Hit pre. apply negb_true_iff in Hne. unfold container.
  rewrite <- app_comm_cons, <- !app_assoc. cbn [app].
  pose proof (advance_1 opening (w ++ body ++ closing :: rest) (S d) pre) as Ha. cbn [app] in Ha.
  rewrite (stM_bind_Ret _ _ _ _ _ Ha).
  rewrite (stM_bind_Ret _ _ _ _ _ (eats_skip w _ (S d) Hw (starts_app _ _ _ Hb) _)).
  set (pre' := (pre ++ [opening]) ++ w).
  assert (Hpre : ∃ p c, pre' = p ++ [c]).
  { destruct (@exists_last _ pre') as (p & c & E); [|by exists p, c].
    unfold pre'. by destruct pre. }
  destruct Hpre as (p & c & Hpre).
  assert (Hlook : looking_at closing (buf pre' (body ++ closing :: rest) (S d))
                  = (buf pre' (body ++ closing :: rest) (S d), Ret false)).
  { rewrite Hc0, <- Hne at 1. rewrite <- app_comm_cons. rewrite Hc0.
    pose proof (eats_looking_at closing c0 (r0 ++ closing :: rest) (S d) pre') as Hl. rewrite app_nil_r in Hl. exact Hl. }
  rewrite (stM_bind_Ret _ _ _ _ _ Hlook). cbv iota.
  assert (Hitems : (ok ← can_access_at_index 0;
       if negb ok then retreat;; fail else
       retreat;;
       b ← get;
       items ← items (S (blength b - offset b));
       fin ← looking_at closing;
       if negb fin then fail else mret items) (buf pre' (body ++ closing :: rest) (S d))
     = (buf (pre' ++ body) (closing :: rest) (S d), Ret l : outcome () _)).
  { pose proof (eats_can_access 0 (body ++ closing :: rest) (S d) pre') as Hcan. rewrite app_nil_r in Hcan.
    rewrite (stM_bind_Ret _ _ _ _ _ Hcan), length_app. cbn [length]. rewrite Nat.add_succ_r. cbn [Nat.ltb Nat.leb negb].
    rewrite Hpre, (stM_bind_Ret _ _ _ _ _ (buf_retreat p c _ (S d))). rewrite stM_bind_eq, buf_get.
    assert (Hf : length body ≤ S (length (p ++ c :: body ++ closing :: rest) - length p))
      by (rewrite !length_app; cbn; rewrite length_app; lia).
    rewrite (stM_bind_Ret _ _ _ _ _ (Hit c _ Hf p)).
    pose proof (eats_looking_at closing closing rest (S d) (p ++ c :: body)) as Hl.
    rewrite Ascii.eqb_refl, app_nil_r in Hl. rewrite (stM_bind_Ret _ _ _ _ _ Hl).
    by rewrite <- app_assoc. }
  rewrite (stM_bind_Ret _ _ _ _ _ Hitems).
  rewrite (closes_end _ closing rest d). unfold pre'. by rewrite <- !app_assoc.
Qed.
End Container.

(** The two kinds of containers, from the test of the depth on. *)
Lemma eats_parse_array pv item tok rest d a :
  d < CJSON_NESTING_LIMIT → starts (fun c => Ascii.eqb c "[") tok →
  closes (container "[" "]" cJSON_Array (array_loop pv) item) tok rest d a →
  eats (parse_array pv item) tok rest d a.
Proof.
  intros Hd (c & r & -> & ->%Ascii.eqb_eq) Hc pre. unfold parse_array. rewrite stM_bind_eq, buf_get. cbn [depth buf].
  rewrite (proj2 (Nat.leb_gt _ _) Hd). rewrite (stM_bind_Ret _ _ _ (buf pre (( "["%char :: r) ++ rest) (S d)) tt) by done.
  erewrite stM_bind_Ret by (apply (eats_read_at 0); reflexivity). rewrite app_nil_r. apply Hc.
Qed.

Lemma eats_parse_object pv item tok rest d a :
  d < CJSON_NESTING_LIMIT → starts (fun c => Ascii.eqb c "{") tok →
  closes (container "{" "}" cJSON_Object (object_loop pv) item) tok rest d a →
  eats (parse_object pv item) tok rest d a.
Proof.
  intros Hd (c & r & -> & ->%Ascii.eqb_eq) Hc pre. unfold parse_object. rewrite stM_bind_eq, buf_get. cbn [depth buf].
  rewrite (proj2 (Nat.leb_gt _ _) Hd). rewrite (stM_bind_Ret _ _ _ (buf pre (( "{"%char :: r) ++ rest) (S d)) tt) by done.
  erewrite stM_bind_Ret by (apply (eats_looking_at "{" "{")). rewrite app_nil_r. apply Hc.
Qed.

(** ** Lemmas: values *)

(** Induction on a value and the values inside it. *)
Lemma json_nested_ind (Q : json → Prop) :
  Q JNull → Q JFalse → Q JTrue → (∀ d, Q (JNumber d)) → (∀ s, Q (JString s)) →
  (∀ l, Forall Q l → Q (JArray l)) → (∀ l, Forall (fun m => Q (snd m)) l → Q (JObject l)) → ∀ j, Q j.
Proof.
  intros Hn Hf Ht Hd Hs Ha Ho. fix IH 1. intros [| | |d|s|l|l]; [done|done|done|done|done| |].
  - apply Ha. induction l as [|j l IHl]; constructor; [apply IH|exact IHl].
  - apply Ho. induction l as [|m l IHl]; constructor; [apply IH|exact IHl].
Qed.

Lemma nesting_elements l j : j ∈ l → nesting j ≤ foldr (fun j n => Nat.max (nesting j) n) 0 l.
Proof. induction l as [|x l IH]; intros Hj; [by apply not_elem_of_nil in Hj|]. apply elem_of_cons in Hj as [->|Hj]; cbn; [lia|]. specialize (IH Hj). lia. Qed.

Lemma nesting_members l (m : str * json) : m ∈ l → nesting (snd m) ≤ foldr (fun m n => Nat.max (nesting (snd m)) n) 0 l.
Proof. induction l as [|x l IH]; intros Hj; [by apply not_elem_of_nil in Hj|]. apply elem_of_cons in Hj as [->|Hj]; cbn; [lia|]. specialize (IH Hj). lia. Qed.

Lemma starts_length p t : starts p t → 0 < length t.
Proof. intros (c & r & -> & _). cbn. lia. Qed.

Lemma elements_length pv fmt dd d l : Forall (reads_value pv fmt dd d) l →
  length l ≤ length (render_elements fmt (render fmt) dd (map (item_of None) l)).
Proof.
  induction 1 as [|j l [Hs _] _ IH]; [done|]. cbn [map render_elements length].
  rewrite !length_app. pose proof (starts_length _ _ (Hs None)). lia.
Qed.

Lemma members_length fmt dd l : ∀ m, length l < length (inner fmt dd m l).
Proof.
  induction l as [|m' l IH]; intros m; unfold inner.
  - cbn. lia.
  - rewrite members_text_cons, !length_app. specialize (IH m'). cbn [length]. lia.
Qed.

Lemma render_array fmt dd nm l :
  render fmt dd (item_of nm (JArray l))
  = "["%char :: [] ++ render_elements fmt (render fmt) (S dd) (map (item_of None) l) ++ [ "]"%char].
Proof. done. Qed.

Lemma render_object fmt dd nm l :
  render fmt dd (item_of nm (JObject l))
  = "{"%char :: line fmt ++ members_text fmt (S dd) l ++ tabs fmt dd ++ [ "}"%char].
Proof. unfold line, tabs, members_text. by destruct fmt. Qed.

(** A value of one token. *)
Lemma reads_token fmt dd d j f :
  (∀ nm, starts token_char (render fmt dd (item_of nm j))) →
  (∀ jt nm rest, follows rest →
     eats (parse_value (S f) (blank jt nm)) (render fmt dd (item_of nm j)) rest d (item_of nm j)) →
  reads_value (parse_value (S f)) fmt dd d j.
Proof. by split. Qed.

Lemma reads_array fmt dd d l f :
  d < CJSON_NESTING_LIMIT → Forall (reads_value (parse_value f) fmt (S dd) (S d)) l →
  reads_value (parse_value (S f)) fmt dd d (JArray l).
Proof.
  intros Hd Hl. split; [intros nm; by eexists _, _|]. intros jt nm rest _. rewrite render_array.
  eapply (eats_value _ _ "["%char); [done..|]. apply eats_parse_array; [done|by eexists _, _|].
  destruct l as [|j l].
  - by apply (container_empty "[" "]" cJSON_Array _ (blank jt nm) d eq_refl []).
  - assert (Hs : starts token_char (render_elements fmt (render fmt) (S dd) (map (item_of None) (j :: l)))).
    { apply Forall_cons in Hl as [[Hs _] _]. apply starts_app, Hs. }
    apply (container_items "[" "]" cJSON_Array _ (blank jt nm) d []
             _ (map (item_of None) (j :: l))); [done|by apply starts_token| |].
    + destruct Hs as (c & r & -> & Hc). exists c, r. split; [done|].
      by rewrite (proj1 (proj2 (token_char_facts c Hc))).
    + intros c fuel Hf. apply (eats_array_loop _ fmt (S dd) (S d) (j :: l) ltac:(done) Hl fuel c []); [|done].
      pose proof (elements_length _ _ _ _ _ Hl). lia.
Qed.

Lemma reads_object fmt dd d l f :
  d < CJSON_NESTING_LIMIT →
  Forall (fun m => no_nul (fst m) ∧ reads_value (parse_value f) fmt (S dd) (S d) (snd m)) l →
  reads_value (parse_value (S f)) fmt dd d (JObject l).
Proof.
  intros Hd Hl. split; [intros nm; rewrite render_object; by eexists _, _|]. intros jt nm rest _.
  rewrite render_object.
  eapply (eats_value _ _ "{"%char); [done..|]. apply eats_parse_object; [done|by eexists _, _|].
  destruct l as [|m l].
  - change (members_text fmt (S dd) []) with (@nil ascii). cbn [app]. rewrite app_assoc.
    apply (container_empty "{" "}" cJSON_Object _ (blank jt nm) d eq_refl (line fmt ++ tabs fmt dd)).
    apply Forall_app. split; [apply line_white|apply tabs_white].
  - rewrite members_text_cons, <- app_assoc, (app_assoc (line fmt)), (app_assoc (inner _ _ _ _)).
    apply (container_items "{" "}" cJSON_Object _ (blank jt nm) d _ _
             (map (fun m => item_of (Some (fst m)) (snd m)) (m :: l))).
    + apply Forall_app. split; [apply line_white|apply tabs_white].
    + apply starts_app. by eexists _, _.
    + apply starts_app. by eexists _, _.
    + intros c fuel Hf. apply (eats_object_loop _ fmt (S dd) (S d) l m Hl fuel c [] (tabs fmt dd)).
      * pose proof (members_length fmt (S dd) l m). rewrite length_app in Hf. lia.
      * done.
      * apply tabs_white.
      * by destruct fmt.
Qed.

Lemma value_reads fmt j : json_ok j = true → ∀ fuel dd d,
  nesting j < fuel → d + nesting j ≤ CJSON_NESTING_LIMIT → reads_value (parse_value fuel) fmt dd d j.
Proof.
  induction j as [| | |x|s|l IH|l IH] using json_nested_ind; intros Hok [|f] dd d Hf Hd; try (cbn in Hf; lia).
  - apply reads_token; [intros nm; by eexists _, _|]. intros jt nm rest _.
    eapply eats_look; [apply eats_literal|]. rewrite <- (app_nil_r (render _ _ _)).
    eapply eats_bind; [apply (eats_advance #"null")|]. apply eats_ret.
  - apply reads_token; [intros nm; by eexists _, _|]. intros jt nm rest _.
    eapply eats_look; [apply eats_literal|].
    eapply eats_look; [apply eats_literal|]. rewrite <- (app_nil_r (render _ _ _)).
    eapply eats_bind; [apply (eats_advance #"false")|]. apply eats_ret.
  - apply reads_token; [intros nm; by eexists _, _|]. intros jt nm rest _.
    do 3 (eapply eats_look; [apply eats_literal|]). rewrite <- (app_nil_r (render _ _ _)).
    eapply eats_bind; [apply (eats_advance #"true")|]. apply eats_ret.
  - cbn [json_ok] in Hok. destruct (number_reads_spec x Hok) as (_ & _ & _ & _ & c & r & Hc & Hnum).
    assert (Hr : ∀ nm, render fmt dd (item_of nm (JNumber x)) = c :: r) by (by intros nm; rewrite <- Hc).
    assert (Htok : token_char c = true) by (unfold token_char; rewrite Hnum; by rewrite !orb_true_r).
    apply reads_token; [intros nm; rewrite Hr; by eexists _, _|]. intros jt nm rest Hfo. rewrite Hr.
    assert (Hch : Ascii.eqb c "n" = false ∧ Ascii.eqb c "f" = false ∧ Ascii.eqb c "t" = false ∧ Ascii.eqb c "034" = false).
    { clear - Hnum. destruct c as [[] [] [] [] [] [] [] []]; first [discriminate Hnum|done]. }
    destruct Hch as (H1 & H2 & H3 & H4). eapply eats_value; [done..|]. rewrite H4, Hnum, <- Hc.
    apply (eats_number x (blank jt nm) rest d Hok). by apply follows_ends.
  - cbn [json_ok] in Hok. apply bool_decide_eq_true in Hok.
    apply reads_token; [intros nm; by eexists _, _|]. intros jt nm rest _.
    eapply (eats_value _ _ "034"%char); [done..|]. by apply eats_string.
  - cbn [json_ok nesting] in *. apply reads_array; [lia|]. rewrite Forall_forall in IH |- *.
    intros j Hj. pose proof (nesting_elements l j Hj). rewrite forallb_forall in Hok.
    apply IH; [done|by apply Hok, list_elem_of_In|lia..].
  - cbn [json_ok nesting] in *. apply reads_object; [lia|]. rewrite Forall_forall in IH |- *.
    intros m Hm. pose proof (nesting_members l m Hm). rewrite forallb_forall in Hok.
    specialize (Hok m ltac:(by apply list_elem_of_In)). apply andb_true_iff in Hok as [Hk Hj].
    split; [by apply bool_decide_eq_true in Hk|]. apply IH; [done|done|lia..].
Qed.

(** ** Lemmas: the text *)

Lemma number_str_no_nul d : number_reads d = true → no_nul (number_str d).
Proof.
  intros (_ & Hf & _)%number_reads_spec Hin. rewrite forallb_forall in Hf.
  apply list_elem_of_In in Hin. by apply Hf in Hin.
Qed.

Lemma render_string_no_nul s : no_nul s → no_nul (render_string (Some s)).
Proof.
  intros Hs. unfold render_string. cbn [default from_option]. rewrite c_str_no_nul by done.
  rewrite !no_nul_app. split_and!; [|by apply escaped_no_nul|]; apply no_nul_cons; (split; [done|apply not_elem_of_nil]).
Qed.

Lemma elements_no_nul fmt dd l : Forall (fun i => no_nul (render fmt dd i)) l →
  no_nul (render_elements fmt (render fmt) dd l).
Proof.
  induction 1 as [|i l Hi _ IH]; [apply not_elem_of_nil|]. cbn [render_elements]. rewrite !no_nul_app.
  split_and!; [done| |done]. destruct l, fmt; vm_compute; set_solver.
Qed.

Lemma white_no_nul fmt n : no_nul (line fmt) ∧ no_nul (tabs fmt n) ∧ no_nul (colon fmt).
Proof.
  split_and!; unfold line, tabs, colon; destruct fmt; try (vm_compute; set_solver).
  intros [Hc _]%elem_of_replicate. by vm_compute in Hc.
Qed.

Lemma members_no_nul fmt dd l :
  Forall (fun m => no_nul (fst m) ∧ ∀ nm, no_nul (render fmt dd (item_of nm (snd m)))) l →
  no_nul (members_text fmt dd l).
Proof.
  destruct (white_no_nul fmt dd) as (Hl & Ht & Hc).
  induction 1 as [|m l [Hk Hv] _ IH]; [apply not_elem_of_nil|].
  rewrite members_text_cons. unfold inner. rewrite !no_nul_app.
  split_and!; try done; [by apply render_string_no_nul|]. destruct l; [done|].
  by apply no_nul_cons.
Qed.

Lemma render_no_nul fmt j : json_ok j = true → ∀ nm dd, no_nul (render fmt dd (item_of nm j)).
Proof.
  induction j as [| | |x|s|l IH|l IH] using json_nested_ind; intros Hok nm dd; cbn [json_ok] in Hok.
  1-3: vm_compute; set_solver.
  - by apply number_str_no_nul.
  - apply bool_decide_eq_true in Hok. by apply render_string_no_nul.
  - rewrite render_array. cbn [app]. apply no_nul_cons. split; [done|]. apply no_nul_app.
    split; [|vm_compute; set_solver]. apply elements_no_nul. apply Forall_map.
    rewrite forallb_forall in Hok. rewrite Forall_forall in IH |- *.
    intros j Hj. apply IH; [done|]. by apply Hok, list_elem_of_In.
  - destruct (white_no_nul fmt dd) as (Hl & Ht & _). rewrite render_object.
    apply no_nul_cons. split; [done|]. rewrite !no_nul_app. split_and!; try done; [|vm_compute; set_solver].
    apply members_no_nul. rewrite forallb_forall in Hok. rewrite Forall_forall in IH |- *.
    intros m Hm. specialize (Hok m ltac:(by apply list_elem_of_In)). apply andb_true_iff in Hok as [Hk Hj].
    split; [by apply bool_decide_eq_true in Hk|]. intros nm'. by apply IH.
Qed.

Lemma json_printable j : json_ok j = true → ∀ nm, printable (item_of nm j) = true.
Proof.
  induction j as [| | |x|s|l IH|l IH] using json_nested_ind; intros Hok nm; try done; cbn [json_ok] in Hok.
  - assert (H64 : binary64 x).
    { apply number_reads_spec in Hok as (_ & _ & Hs & _). pose proof (strtod_binary64 (number_str x)) as Hb.
      by rewrite Hs in Hb. }
    pose proof (format_g_length 15 x ltac:(lia) H64). pose proof (format_g_length 17 x ltac:(lia) H64).
    cbn. apply andb_true_intro. split; apply Nat.leb_le; lia.
  - cbn. apply forallb_forall. intros i (j & <- & Hj)%in_map_iff. rewrite forallb_forall in Hok.
    rewrite Forall_forall in IH. apply IH; [by apply list_elem_of_In|by apply Hok].
  - cbn. apply forallb_forall. intros i (m & <- & Hm)%in_map_iff. rewrite forallb_forall in Hok.
    rewrite Forall_forall in IH. apply (IH m); [by apply list_elem_of_In|].
    apply Hok in Hm. apply andb_true_iff in Hm. apply Hm.
Qed.

Lemma eats_bom c t rest pre : Ascii.eqb c (chr 239) = false → pre = [] →
  skip_utf8_bom (buf pre ((c :: t) ++ rest) 0) = (buf pre ((c :: t) ++ rest) 0, Ret tt).
Proof.
  intros Hc ->. unfold skip_utf8_bom. rewrite stM_bind_eq, buf_get. cbn [offset buf length Nat.eqb negb].
  rewrite (stM_bind_Ret _ _ _ _ _ (eats_run _ _ _ _ [] (eats_can_access 4 _ 0))).
  destruct (Nat.ltb_spec 4 (length ((c :: t) ++ rest))) as [Hl|]; [|done].
  assert (Hs : 0 + length [chr 239; chr 187; chr 191] ≤ length ((c :: t) ++ rest)) by (cbn in *; lia).
  rewrite (stM_bind_Ret _ _ _ _ _ (eats_run _ _ _ _ [] (eats_strncmp _ 0 _ 0 Hs))). cbn [drop app is_prefix].
  rewrite (Ascii.eqb_sym _ c), Hc. done.
Qed.

(** The whole document. *)
Lemma document_reads fmt j : json_ok j = true → nesting j ≤ CJSON_NESTING_LIMIT →
  let t := render fmt 0 (item_of None j) in
  parse_document false (buf [] (t ++ [NUL]) 0) = (buf t [NUL] 0, Ret (item_of None j)).
Proof.
  intros Hok Hn t. destruct (value_reads fmt j Hok parse_fuel 0 0) as [Hs Hv]; [unfold parse_fuel; lia|lia|].
  specialize (Hv cJSON_Invalid None [NUL] ltac:(by eexists _, _)).
  destruct (Hs None) as (c & r & Et & Hc). fold t in Et, Hv.
  unfold parse_document. rewrite Et. destruct (token_char_facts c Hc) as (Hd & _ & _ & Hb).
  rewrite (stM_bind_Ret _ _ _ _ _ (eats_bom c r [NUL] [] Hb eq_refl)).
  assert (Hd' : starts dark ((c :: r) ++ [NUL])) by (by eexists _, _).
  rewrite (stM_bind_Ret _ _ _ _ _ (eats_run _ _ _ _ [] (eats_no_skip _ 0 Hd'))). rewrite <- Et.
  by rewrite (stM_bind_Ret _ _ _ _ _ (Hv [])).
Qed.

(** ** Properties *)

(** C23. Printing then parsing gives the item back: for every JSON value
    whose strings have no NUL, whose numbers read back from their text, and
    which is not nested deeper than the parser allows, [cJSON_Print] and
    [cJSON_PrintUnformatted] of its item return a text (up to 2^29 bytes),
    and [cJSON_Parse] of that text returns the same item: every kind, name,
    string, number and saturated integer, in the same order. *)
Theorem print_parse_roundtrip (j : json) (fmt : bool) :
  json_ok j = true → nesting j ≤ CJSON_NESTING_LIMIT →
  (Z.of_nat (length (render fmt 0 (item_of None j))) ≤ print_limit)%Z →
  ∃ text, (print (item_of None j) fmt : outcome unit (option str)) = Ret (Some text) ∧
    (cJSON_Parse text : outcome unit (option cJSON)) = Ret (Some (item_of None j)).
Proof.
  intros Hok Hn Hl. eexists. split; [apply print_eq; [by apply json_printable|done]|].
  rewrite c_str_no_nul by (by apply render_no_nul). unfold cJSON_Parse, cJSON_ParseWithOpts.
  rewrite c_str_no_nul by (by apply render_no_nul).
  pose proof (document_reads fmt j Hok Hn) as Hd. cbv zeta in Hd. unfold buf in Hd at 1. cbn [app length] in Hd.
  by rewrite Hd.
Qed.

Definition sample_json : json :=
  JObject [(#"a", JArray [JNumber (fst (strtod #"-2.5e3")); JNull; JString (chr 7 :: #"x\y")]);
           (quoted #"'q'", JObject []); (#"t", JTrue)].

Lemma print_parse_roundtrip_witness :
  ∃ text, (cJSON_Print (item_of None sample_json) : outcome unit (option str)) = Ret (Some text) ∧
    (cJSON_Parse text : outcome unit (option cJSON)) = Ret (Some (item_of None sample_json)).
Proof.
  apply (print_parse_roundtrip sample_json true); [vm_compute; reflexivity|vm_compute; lia|vm_compute; discriminate].
Defined.
