(* ===== verification/CJsonMinify.v ===== *)
(** * Minifying JSON in place (src/libs/cJSON.c)

    [cJSON_Minify] and its helpers work with two pointers into one
    NUL-terminated array: what is read moves ahead of what is written.
    [minify_text] is the text they should leave, and minifying the formatted
    text of a value gives its unformatted text. *)
From S2P Require Import Prelude.
From S2P Require Import CLib.
From S2P Require Import CFloat.
From S2P Require Import CJson.
From S2P Require Import CJsonTree.
From S2P Require Import CJsonPrint.
From S2P Require Import CJsonPrintSpec.
From S2P Require Import CJsonSafety.
From S2P Require Import CJsonRoundtrip.

(** ** Definitions *)

(** The array and the two pointers, as positions in it. *)
Record minifier : Type := { text : str; input : nat; output : nat }.

Abbreviation Mi := (stM () minifier).

(** [( *input)[i]] and [( *output)[i] = c], inside the array. *)
Definition peek (i : nat) : Mi ascii :=
  fun m => (m, match text m !! (input m + i) with Some c => Ret c | None => Undef end).
Definition poke (i : nat) (c : ascii) : Mi unit := fun m =>
  if (output m + i <? length (text m))%nat
  then ({| text := <[output m + i := c]> (text m); input := input m; output := output m |}, Ret tt)
  else (m, Undef).

Definition skip (n : nat) : Mi unit :=
  modify (fun m => {| text := text m; input := input m + n; output := output m |}).
Definition move (n : nat) : Mi unit :=
  modify (fun m => {| text := text m; input := input m; output := output m + n |}).

(** [skip_oneline_comment]; the loops run on fuel. *)
Fixpoint skip_oneline_loop (fuel : nat) : Mi unit :=
  match fuel with
  | O => lift Undef
  | S fuel =>
      c ← peek 0;
      if Ascii.eqb c NUL then mret tt
      else if Ascii.eqb c newline then skip 1
      else skip 1;; skip_oneline_loop fuel
  end.
Definition skip_oneline_comment (fuel : nat) : Mi unit := skip 2;; skip_oneline_loop fuel.

(** [skip_multiline_comment] *)
Fixpoint skip_multiline_loop (fuel : nat) : Mi unit :=
  match fuel with
  | O => lift Undef
  | S fuel =>
      c ← peek 0;
      if Ascii.eqb c NUL then mret tt
      else
        ends ← (if Ascii.eqb c "*" then d ← peek 1; mret (Ascii.eqb d "/") else mret false);
        match ends with
        | true => skip 2
        | false => skip 1;; skip_multiline_loop fuel
        end
  end.
Definition skip_multiline_comment (fuel : nat) : Mi unit := skip 2;; skip_multiline_loop fuel.

Definition quote_char : ascii := "034"%char.

(** [minify_string] *)
Fixpoint minify_string_loop (fuel : nat) : Mi unit :=
  match fuel with
  | O => lift Undef
  | S fuel =>
      c ← peek 0;
      if Ascii.eqb c NUL then mret tt
      else
        poke 0 c;;
        if Ascii.eqb c quote_char then poke 0 quote_char;; skip 1;; move 1
        else
          escaped ← (if Ascii.eqb c "\" then d ← peek 1; mret (Ascii.eqb d quote_char) else mret false);
          match escaped with
          | true => d ← peek 1; poke 1 d;; skip 1;; move 1
          | false => mret tt
          end;;
          skip 1;; move 1;;
          minify_string_loop fuel
  end.
Definition minify_string (fuel : nat) : Mi unit :=
  c ← peek 0; poke 0 c;; skip 1;; move 1;; minify_string_loop fuel.

Definition minify_white (c : ascii) : bool :=
  Ascii.eqb c " " || Ascii.eqb c tab || Ascii.eqb c "013" || Ascii.eqb c newline.

(** The loop of [cJSON_Minify]. *)
Fixpoint minify_loop (fuel : nat) : Mi unit :=
  match fuel with
  | O => lift Undef
  | S fuel =>
      c ← peek 0;
      if Ascii.eqb c NUL then mret tt
      else
        (if minify_white c then skip 1
         else if Ascii.eqb c "/" then
           d ← peek 1;
           if Ascii.eqb d "/" then skip_oneline_comment fuel
           else if Ascii.eqb d "*" then skip_multiline_comment fuel
           else skip 1
         else if Ascii.eqb c quote_char then minify_string fuel
         else poke 0 c;; skip 1;; move 1);;
        minify_loop fuel
  end.

(** [cJSON_Minify]: the array it leaves. *)
Definition cJSON_Minify (json : option str) : outcome () (option str) :=
  match json with
  | None => Ret None
  | Some t =>
      let '(m, r) := (minify_loop (S (length t));; poke 0 NUL) {| text := t; input := 0; output := 0 |} in
      r ≫= fun _ => Ret (Some (text m))
  end.

(** *** The text it leaves *)

Inductive place : Type := Outside | InString | InLine | InBlock.

Fixpoint minify_text (p : place) (s : str) : str :=
  match p, s with
  | _, [] => []
  | Outside, c :: r =>
      if minify_white c then minify_text Outside r
      else if Ascii.eqb c "/" then
        match r with
        | d :: r' => if Ascii.eqb d "/" then minify_text InLine r'
                     else if Ascii.eqb d "*" then minify_text InBlock r'
                     else minify_text Outside r
        | [] => []
        end
      else if Ascii.eqb c quote_char then c :: minify_text InString r
      else c :: minify_text Outside r
  | InString, c :: r =>
      if Ascii.eqb c quote_char then c :: minify_text Outside r
      else if Ascii.eqb c "\" then
        match r with
        | d :: r' => if Ascii.eqb d quote_char then c :: d :: minify_text InString r'
                     else c :: minify_text InString r
        | [] => [c]
        end
      else c :: minify_text InString r
  | InLine, c :: r =>
      if Ascii.eqb c newline then minify_text Outside r else minify_text InLine r
  | InBlock, c :: r =>
      if Ascii.eqb c "*" then
        match r with
        | d :: r' => if Ascii.eqb d "/" then minify_text Outside r' else minify_text InBlock r
        | [] => []
        end
      else minify_text InBlock r
  end.

(** ** Lemmas *)

(** What is written, what was written before and is overwritten later, and
    what is still read; the array ends as it did. *)
Definition minifying (out junk rest : str) (m : minifier) : Prop :=
  text m = out ++ junk ++ rest ∧ output m = length out ∧ input m = length out + length junk.

Lemma peek_rest out junk rest m i :
  minifying out junk rest m → peek i m = (m, match rest !! i with Some c => Ret c | None => Undef end).
Proof.
  intros (Ht & _ & Hi). unfold peek. rewrite Ht, Hi, app_assoc, lookup_app_r by (rewrite length_app; lia).
  by replace (_ + _ + i - _) with i by (rewrite length_app; lia).
Qed.

Lemma skip_ok out junk c rest m :
  minifying out junk (c :: rest) m → ∃ m', skip 1 m = (m', Ret tt) ∧ minifying out (junk ++ [c]) rest m'.
Proof.
  intros (Ht & Ho & Hi). eexists. split; [done|]. unfold minifying. cbn.
  rewrite Ht, <- app_assoc. split; [done|]. split; [done|]. rewrite length_app. cbn. lia.
Qed.

(** One character is copied. *)
Lemma copy_ok out junk c rest m :
  minifying out junk (c :: rest) m →
  ∃ m' junk', poke 0 c m = (m', Ret tt) ∧
    (skip 1;; move 1) m' = ({| text := text m'; input := input m' + 1; output := output m' + 1 |}, Ret tt) ∧
    minifying (out ++ [c]) junk' rest {| text := text m'; input := input m' + 1; output := output m' + 1 |} ∧
    minifying out (match junk with [] => [] | _ :: j => c :: j end) (c :: rest) m'.
Proof.
  intros (Ht & Ho & Hi). unfold poke. rewrite Nat.add_0_r, Ht, Ho.
  assert (Hl : (length out <? length (out ++ junk ++ c :: rest))%nat = true).
  { apply Nat.ltb_lt. rewrite !length_app. cbn. lia. }
  rewrite Hl. rewrite insert_app_r_alt, Nat.sub_diag by lia.
  destruct junk as [|x junk]; cbn [list_insert app].
  - eexists _, []. split; [done|]. split; [done|]. unfold minifying. cbn [text input output].
    rewrite Hi, length_app. cbn. rewrite <- app_assoc. repeat split; try done; lia.
  - eexists _, (junk ++ [c]). split; [done|]. split; [done|]. unfold minifying. cbn [text input output].
    rewrite Hi, !length_app. cbn. rewrite <- !app_assoc. repeat split; try done; lia.
Qed.

(** An escaped quote is copied: the second write may hit the first character
    read, which is done with. *)
Lemma escape_ok out junk c d rest m :
  minifying out junk (c :: d :: rest) m →
  ∃ m', poke 1 d (fst (poke 0 c m)) = (m', Ret tt) ∧ input m' = input m ∧
    ∃ junk', minifying (out ++ [c; d]) junk' rest
      {| text := text m'; input := input m' + 1 + 1; output := output m' + 1 + 1 |}.
Proof.
  intros Hm. destruct (copy_ok out junk c (d :: rest) m Hm) as (m1 & j1 & E & _ & _ & Hm1).
  rewrite E. cbn [fst]. destruct Hm as (_ & _ & Hi).
  assert (Hi1 : input m1 = input m) by (unfold poke in E; destruct (_ <? _)%nat; by injection E as <-).
  destruct Hm1 as (Ht & Ho & _). unfold poke. rewrite Ht, Ho.
  assert (Hl : ∀ j : str, (length out + 1 <? length (out ++ j ++ c :: d :: rest))%nat = true).
  { intros j. apply Nat.ltb_lt. rewrite !length_app. cbn. lia. }
  rewrite Hl, insert_app_r_alt by lia. replace (length out + 1 - length out) with 1 by lia.
  eexists. split; [done|]. split; [done|]. unfold minifying. cbn [text input output]. rewrite Hi1, Hi, !length_app.
  destruct junk as [|x [|y junk]]; cbn [list_insert app length].
  - exists []. rewrite <- app_assoc. repeat split; try done; cbn; lia.
  - exists [d]. rewrite <- app_assoc. repeat split; try done; cbn; lia.
  - exists (junk ++ [c; d]). rewrite <- !app_assoc, length_app. repeat split; try done; cbn; lia.
Qed.

Lemma poke_input i c m m' : poke i c m = (m', Ret tt) → input m' = input m.
Proof. unfold poke. destruct (_ <? _)%nat; [|done]. by intros [= <-]. Qed.

Section Text.
(** What is after the NUL, and where it is. *)
Variables (post : str) (n : nat).

(** [out] is written, [s] is still to be read. *)
Definition at_text (out s : str) (m : minifier) : Prop :=
  input m + length s = n ∧ ∃ junk, minifying out junk (s ++ NUL :: post) m.

(** A loop over the inside of a string or a comment ends outside. *)
Definition leaves (p : Mi unit) (pl : place) (out s : str) (m : minifier) : Prop :=
  ∃ m' out' s', p m = (m', Ret tt) ∧ at_text out' s' m' ∧ no_nul s' ∧ length s' ≤ length s ∧
    out' ++ minify_text Outside s' = out ++ minify_text pl s.

Lemma leaves_bind (p q : Mi unit) pl out s m m1 :
  p m = (m1, Ret tt) → leaves q pl out s m1 → leaves (p;; q) pl out s m.
Proof. intros Hp (m' & H'). exists m'. by rewrite (stM_bind_Ret _ _ _ _ _ Hp). Qed.

Lemma leaves_peek {A} (f : ascii → Mi A) out s m : at_text out s m →
  (peek 0 ≫= f) m = f (default NUL (head s)) m.
Proof. intros (_ & j & Hm). rewrite stM_bind_eq, (peek_rest _ _ _ _ 0 Hm). by destruct s. Qed.

Lemma leaves_peek1 {A} (f : ascii → Mi A) out c s m : at_text out (c :: s) m →
  (peek 1 ≫= f) m = f (default NUL (head s)) m.
Proof. intros (_ & j & Hm). rewrite stM_bind_eq, (peek_rest _ _ _ _ 1 Hm). by destruct s. Qed.

Lemma skip_at out c s m : at_text out (c :: s) m →
  ∃ m', skip 1 m = (m', Ret tt) ∧ at_text out s m'.
Proof.
  intros (Hn & j & Hm). destruct (skip_ok _ _ _ _ _ Hm) as (m' & E & Hm'). exists m'. split; [done|].
  split; [|by eexists]. injection E as <-. cbn in *. lia.
Qed.

Lemma skip2_at out c d s m : at_text out (c :: d :: s) m →
  ∃ m', skip 2 m = (m', Ret tt) ∧ at_text out s m'.
Proof.
  intros (Hn & j & Ht & Ho & Hi). eexists. split; [done|]. split; [cbn in *; lia|]. exists (j ++ [c; d]). unfold minifying. cbn.
  rewrite Ht, <- app_assoc, length_app. cbn. split_and!; try done. lia.
Qed.

Lemma copy_at out c s m : at_text out (c :: s) m →
  ∃ m1 m2, poke 0 c m = (m1, Ret tt) ∧ at_text out (c :: s) m1 ∧
    (skip 1;; move 1) m1 = (m2, Ret tt) ∧ at_text (out ++ [c]) s m2.
Proof.
  intros (Hn & j & Hm). destruct (copy_ok _ _ _ _ _ Hm) as (m1 & j' & E1 & E2 & Hm2 & Hm1).
  pose proof (poke_input _ _ _ _ E1) as Hi. eexists _, _. split; [exact E1|].
  split; [split; [by rewrite Hi|by eexists]|]. split; [exact E2|]. split; [cbn in *; lia|by eexists].
Qed.

(** *** Comments *)

Lemma line_loop_leaves fuel : ∀ out s m, no_nul s → length s < fuel → at_text out s m →
  leaves (skip_oneline_loop fuel) InLine out s m.
Proof.
  induction fuel as [|fuel IH]; intros out s m Hs Hl Hm; [lia|].
  unfold leaves. cbn [skip_oneline_loop]. rewrite (leaves_peek _ out s m Hm).
  destruct s as [|c s]; cbn [head default from_option id].
  { exists m, out, []. done. }
  apply no_nul_cons in Hs as [Hc Hs]. cbn in Hl. apply Ascii.eqb_neq in Hc as ->.
  cbn [minify_text]. destruct (skip_at out c s m Hm) as (m1 & E & Hm1).
  destruct (Ascii.eqb c newline).
  - exists m1, out, s. split_and!; try done. cbn. lia.
  - rewrite (stM_bind_Ret _ _ _ _ _ E). destruct (IH out s m1 Hs ltac:(lia) Hm1) as (m' & out' & s' & H').
    exists m', out', s'. destruct H' as (? & ? & ? & ? & ?). split_and!; try done. cbn. lia.
Qed.

Lemma block_loop_leaves fuel : ∀ out s m, no_nul s → length s < fuel → at_text out s m →
  leaves (skip_multiline_loop fuel) InBlock out s m.
Proof.
  induction fuel as [|fuel IH]; intros out s m Hs Hl Hm; [lia|].
  unfold leaves. cbn [skip_multiline_loop]. rewrite (leaves_peek _ out s m Hm).
  destruct s as [|c s]; cbn [head default from_option id].
  { exists m, out, []. done. }
  apply no_nul_cons in Hs as [Hc Hs]. cbn in Hl. apply Ascii.eqb_neq in Hc as ->.
  destruct (skip_at out c s m Hm) as (m1 & E & Hm1).
  assert (Hnext : ∃ m' out' s', (skip 1;; skip_multiline_loop fuel) m = (m', Ret tt) ∧ at_text out' s' m' ∧
            no_nul s' ∧ length s' ≤ length (c :: s) ∧ out' ++ minify_text Outside s' = out ++ minify_text InBlock s).
  { rewrite (stM_bind_Ret _ _ _ _ _ E). destruct (IH out s m1 Hs ltac:(lia) Hm1) as (m' & out' & s' & H').
    exists m', out', s'. destruct H' as (? & ? & ? & ? & ?). split_and!; try done. cbn. lia. }
  cbn [minify_text]. rewrite stM_bind_eq. destruct (Ascii.eqb c "*") eqn:Estar; [|cbn; exact Hnext].
  rewrite (leaves_peek1 _ out c s m Hm). cbn [mret stM_mret].
  destruct s as [|d s]; cbn [head default from_option id].
  { change (Ascii.eqb NUL "/") with false. cbn iota. destruct Hnext as (m' & out' & s' & H').
    exists m', out', s'. exact H'. }
  destruct (Ascii.eqb d "/"); [|exact Hnext].
  destruct (skip2_at out c d s m Hm) as (m2 & E2 & Hm2). apply no_nul_cons in Hs as [_ Hs].
  exists m2, out, s. split_and!; try done. cbn. lia.
Qed.

(** *** Strings *)

Lemma escape_at out c d s m m1 : at_text out (c :: d :: s) m → poke 0 c m = (m1, Ret tt) →
  ∃ m2 m3, poke 1 d m1 = (m2, Ret tt) ∧ (skip 1;; move 1) m2 = (m3, Ret tt) ∧
    ∃ m4, (skip 1;; move 1) m3 = (m4, Ret tt) ∧ at_text (out ++ [c; d]) s m4.
Proof.
  intros (Hn & j & Hm) E. destruct (escape_ok _ _ _ _ _ _ Hm) as (m2 & E2 & Hi & j' & Hm4). rewrite E in E2.
  eexists _, _. split; [exact E2|]. split; [done|]. eexists. split; [done|].
  split; [|by exists j']. apply poke_input in E. cbn in *. lia.
Qed.

Lemma string_loop_leaves fuel : ∀ out s m, no_nul s → length s < fuel → at_text out s m →
  leaves (minify_string_loop fuel) InString out s m.
Proof.
  induction fuel as [|fuel IH]; intros out s m Hs Hl Hm; [lia|].
  unfold leaves. cbn [minify_string_loop]. rewrite (leaves_peek _ out s m Hm).
  destruct s as [|c s]; cbn [head default from_option id].
  { exists m, out, []. done. }
  apply no_nul_cons in Hs as [Hc Hs]. cbn in Hl. apply Ascii.eqb_neq in Hc as ->.
  destruct (copy_at out c s m Hm) as (m1 & m2 & E1 & Hm1 & E2 & Hm2).
  rewrite (stM_bind_Ret _ _ _ _ _ E1). cbn [minify_text].
  destruct (Ascii.eqb_spec c quote_char) as [->|Hq].
  { destruct (copy_at out quote_char s m1 Hm1) as (m3 & m4 & E3 & _ & E4 & Hm4).
    rewrite (stM_bind_Ret _ _ _ _ _ E3). exists m4, (out ++ [quote_char]), s.
    split_and!; try done; [cbn; lia|]. by rewrite <- app_assoc. }
  assert (Hnext : ∃ m' out' s', (skip 1;; move 1;; minify_string_loop fuel) m1 = (m', Ret tt) ∧
            at_text out' s' m' ∧ no_nul s' ∧ length s' ≤ length (c :: s) ∧
            out' ++ minify_text Outside s' = out ++ c :: minify_text InString s).
  { destruct (IH (out ++ [c]) s m2 Hs ltac:(lia) Hm2) as (m' & out' & s' & Hr & H1 & H2 & H3 & H4).
    exists m', out', s'. rewrite stM_bind_eq in E2. cbn in E2. injection E2 as E2.
    rewrite stM_bind_eq. cbn [skip modify]. rewrite stM_bind_eq. cbn [move modify]. cbn. rewrite E2, Hr.
    split_and!; try done; [lia|]. by rewrite H4, <- app_assoc. }
  rewrite stM_bind_eq. destruct (Ascii.eqb c "\") eqn:Eb; [|cbn; exact Hnext].
  rewrite (leaves_peek1 _ out c s m1 Hm1). cbn [mret stM_mret].
  destruct s as [|d s]; cbn [head default from_option id].
  { change (Ascii.eqb NUL quote_char) with false. cbn iota.
    destruct Hnext as (m' & out' & s' & H'). exists m', out', s'. exact H'. }
  destruct (Ascii.eqb d quote_char); [|exact Hnext].
  destruct (escape_at out c d s m m1 Hm E1) as (m3 & m4 & E3 & E4 & m5 & E5 & Hm5).
  rewrite stM_bind_eq, (leaves_peek1 _ out c (d :: s) m1 Hm1). cbn [head default from_option id].
  rewrite (stM_bind_Ret _ _ _ _ _ E3), E4, stM_bind_eq.
  apply no_nul_cons in Hs as [_ Hs]. cbn in Hl.
  destruct (IH (out ++ [c; d]) s m5 Hs ltac:(lia) Hm5) as (m' & out' & s' & Hr & H1 & H2 & H3 & H4).
  exists m', out', s'. rewrite stM_bind_eq in E5. cbn in E5. injection E5 as E5.
  cbn [skip modify]. rewrite stM_bind_eq. cbn [move modify]. cbn. rewrite E5, Hr.
  split_and!; try done; [lia|]. by rewrite H4, <- app_assoc.
Qed.

(** *** The whole text *)

(** One turn of the main loop, and what it leaves to do. *)
Lemma minify_turn fuel out c s m :
  c ≠ NUL → no_nul s → length s < fuel → at_text out (c :: s) m →
  ∃ m' out' s', (if minify_white c then skip 1
         else if Ascii.eqb c "/" then
           d ← peek 1;
           if Ascii.eqb d "/" then skip_oneline_comment fuel
           else if Ascii.eqb d "*" then skip_multiline_comment fuel
           else skip 1
         else if Ascii.eqb c quote_char then minify_string fuel
         else poke 0 c;; skip 1;; move 1) m = (m', Ret tt) ∧
    at_text out' s' m' ∧ no_nul s' ∧ length s' ≤ length s ∧
    out' ++ minify_text Outside s' = out ++ minify_text Outside (c :: s).
Proof.
  intros Hc Hs Hl Hm. cbn [minify_text].
  destruct (skip_at out c s m Hm) as (m1 & E1 & Hm1).
  destruct (minify_white c).
  { exists m1, out, s. split_and!; try done; cbn; lia. }
  destruct (Ascii.eqb_spec c "/") as [->|Hsl].
  { rewrite (leaves_peek1 _ out _ s m Hm). destruct s as [|d s]; cbn [head default from_option id].
    { change (Ascii.eqb NUL "/") with false. change (Ascii.eqb NUL "*") with false. cbn iota.
      exists m1, out, []. split_and!; try done; cbn; lia. }
    destruct (skip2_at out _ d s m Hm) as (m2 & E2 & Hm2). apply no_nul_cons in Hs as [Hd Hs]. cbn in Hl.
    destruct (Ascii.eqb d "/"); [|destruct (Ascii.eqb d "*")].
    - unfold skip_oneline_comment. rewrite (stM_bind_Ret _ _ _ _ _ E2).
      destruct (line_loop_leaves fuel out s m2 Hs ltac:(lia) Hm2) as (m' & out' & s' & H1 & H2 & H3 & H4 & H5).
      exists m', out', s'. split_and!; try done; cbn; lia.
    - unfold skip_multiline_comment. rewrite (stM_bind_Ret _ _ _ _ _ E2).
      destruct (block_loop_leaves fuel out s m2 Hs ltac:(lia) Hm2) as (m' & out' & s' & H1 & H2 & H3 & H4 & H5).
      exists m', out', s'. split_and!; try done; cbn; lia.
    - exists m1, out, (d :: s). split_and!; try done; try (cbn; lia); by apply no_nul_cons. }
  destruct (copy_at out c s m Hm) as (m2 & m3 & E2 & _ & E3 & Hm3).
  destruct (Ascii.eqb_spec c quote_char) as [->|Hq].
  - unfold minify_string. rewrite (leaves_peek _ out _ m Hm). cbn [head default from_option id].
    rewrite (stM_bind_Ret _ _ _ _ _ E2).
    destruct (string_loop_leaves fuel (out ++ [quote_char]) s m3 Hs Hl Hm3) as (m' & out' & s' & H1 & H2 & H3 & H4 & H5).
    exists m', out', s'. rewrite stM_bind_eq in E3. cbn in E3. injection E3 as E3.
    rewrite stM_bind_eq. cbn [skip modify]. rewrite stM_bind_eq. cbn [move modify]. cbn. rewrite E3, H1.
    split_and!; try done; try (cbn; lia). by rewrite H5, <- app_assoc.
  - rewrite (stM_bind_Ret _ _ _ _ _ E2). exists m3, (out ++ [c]), s.
    split_and!; try done; try (cbn; lia). by rewrite <- app_assoc.
Qed.

Lemma minify_loop_ok fuel : ∀ out s m, no_nul s → length s < fuel → at_text out s m →
  ∃ m', minify_loop fuel m = (m', Ret tt) ∧ at_text (out ++ minify_text Outside s) [] m'.
Proof.
  induction fuel as [|fuel IH]; intros out s m Hs Hl Hm; [lia|].
  cbn [minify_loop]. rewrite (leaves_peek _ out s m Hm). destruct s as [|c s]; cbn [head default from_option id].
  { exists m. by rewrite app_nil_r. }
  apply no_nul_cons in Hs as [Hc Hs]. cbn in Hl.
  destruct (minify_turn fuel out c s m Hc Hs ltac:(lia) Hm) as (m1 & out' & s' & E & Hm1 & Hs' & Hl' & He).
  apply Ascii.eqb_neq in Hc as ->. rewrite (stM_bind_Ret _ _ _ _ _ E).
  destruct (IH out' s' m1 Hs' ltac:(lia) Hm1) as (m' & Er & Hm'). exists m'. by rewrite <- He.
Qed.
End Text.

Lemma minify_writes (s post : str) : no_nul s →
  ∃ junk, cJSON_Minify (Some (s ++ NUL :: post))
    = Ret (Some (minify_text Outside s ++ NUL :: junk ++ post)) ∧
    length junk + length (minify_text Outside s) = length s.
Proof.
  intros Hs. unfold cJSON_Minify. set (m0 := {| text := _; input := 0; output := 0 |}).
  assert (Hm0 : at_text post (length s) [] s m0) by (split; [done|exists []; done]).
  destruct (minify_loop_ok post (length s) (S (length (s ++ NUL :: post))) [] s m0 Hs)
    as (m & E & Hn & junk & Ht & Ho & Hi); [rewrite length_app; cbn; lia|done|].
  rewrite (stM_bind_Ret _ _ _ _ _ E). unfold poke. rewrite Nat.add_0_r, Ho, Ht. cbn [app] in *.
  rewrite (proj2 (Nat.ltb_lt _ _)) by (rewrite !length_app; cbn; lia).
  rewrite insert_app_r_alt, Nat.sub_diag by lia. cbn [length] in Hn.
  destruct junk as [|x junk]; cbn [list_insert app length] in *.
  - exists []. split; [done|]. cbn. lia.
  - exists (junk ++ [NUL]). rewrite <- app_assoc. split; [done|]. rewrite length_app. cbn. lia.
Qed.

(** *** Printed texts *)

(** A character that is copied outside of strings. *)
Definition plain_char (c : ascii) : bool :=
  negb (minify_white c) && negb (Ascii.eqb c "/") && negb (Ascii.eqb c quote_char).

Lemma outside_plain t rest : forallb plain_char t = true →
  minify_text Outside (t ++ rest) = t ++ minify_text Outside rest.
Proof.
  induction t as [|c t IH]; cbn [forallb app]; [done|]. intros [Hc Ht]%andb_true_iff.
  unfold plain_char in Hc. reflect_bool. cbn [minify_text].
  assert (Ew : minify_white c = false) by done. rewrite Ew.
  rewrite (proj2 (Ascii.eqb_neq _ _)) by done. rewrite (proj2 (Ascii.eqb_neq c quote_char)) by done.
  by rewrite IH.
Qed.

Lemma outside_white ws rest : forallb minify_white ws = true →
  minify_text Outside (ws ++ rest) = minify_text Outside rest.
Proof.
  induction ws as [|c ws IH]; cbn [forallb app]; [done|]. intros [Hc Ht]%andb_true_iff.
  cbn [minify_text]. rewrite Hc. by apply IH.
Qed.

Lemma outside_plain1 c rest : plain_char c = true →
  minify_text Outside (c :: rest) = c :: minify_text Outside rest.
Proof. intros Hc. apply (outside_plain [c]). cbn. by rewrite Hc. Qed.

Lemma outside_white1 c rest : minify_white c = true →
  minify_text Outside (c :: rest) = minify_text Outside rest.
Proof. intros Hc. apply (outside_white [c]). cbn. by rewrite Hc. Qed.

Lemma in_string_char c X : c ≠ quote_char → (c = "\"%char → head X ≠ Some quote_char) →
  minify_text InString (c :: X) = c :: minify_text InString X.
Proof.
  intros Hq Hb. cbn [minify_text]. rewrite (proj2 (Ascii.eqb_neq _ _)) by done.
  destruct (Ascii.eqb_spec c "\") as [->|]; [|done]. destruct X as [|d X]; [done|].
  rewrite (proj2 (Ascii.eqb_neq d quote_char)); [done|]. intros ->. by apply Hb.
Qed.

Lemma in_string_plain t X : Forall (fun c => c ≠ quote_char ∧ c ≠ "\"%char) t →
  minify_text InString (t ++ X) = t ++ minify_text InString X.
Proof.
  induction 1 as [|c t [Hq Hb] _ IH]; cbn [app]; [done|]. rewrite in_string_char by done. by rewrite IH.
Qed.

(** A character of a string, as it is written: its text is copied, unless it
    is a backslash before the quote that ends the string. *)
Lemma in_string_form c e n X : escape_form c e n → (c = "\"%char → head X ≠ Some quote_char) →
  minify_text InString (e ++ X) = e ++ minify_text InString X.
Proof.
  intros [Hq Hb|x Hx|h1 h2 d1 d2 H1 H2 _ _] HX.
  - by apply in_string_plain; repeat constructor.
  - cbn [app]. destruct (decide (x = quote_char)) as [->|Hq]; [done|].
    rewrite in_string_char; [|done|by intros _ [= ->]]. rewrite in_string_char; [done|done|].
    intros ->. apply HX. by injection Hx as <-.
  - destruct (hex_digit_plain _ _ H1), (hex_digit_plain _ _ H2). cbn [app].
    rewrite in_string_char by done. f_equal.
    apply (in_string_plain [ "u"%char; "0"%char; "0"%char; h1; h2]). repeat constructor; done.
Qed.

Lemma escape1_head c t : c ≠ NUL → head (escape1 c ++ t) ≠ Some quote_char.
Proof. intros Hc. by destruct (escape1_form c Hc) as [Hq _|x _|]; intros [= ]. Qed.

Lemma string_body s rest : no_nul s → last s ≠ Some "\"%char →
  minify_text InString (concat (map escape1 s) ++ quote ++ rest)
  = concat (map escape1 s) ++ quote ++ minify_text Outside rest.
Proof.
  induction s as [|c s IH]; intros Hs Hl; [done|]. apply no_nul_cons in Hs as [Hc Hs].
  cbn [map concat]. rewrite <- !app_assoc.
  rewrite (in_string_form c _ _ _ (escape1_form c Hc)).
  - rewrite IH; [done|done|]. intros E. apply Hl. destruct s; [done|]. exact E.
  - intros ->. destruct s as [|d s]; [by elim Hl|]. apply no_nul_cons in Hs as [Hd _].
    cbn [map concat]. rewrite <- app_assoc. by apply escape1_head.
Qed.

Lemma outside_string s rest : no_nul s → last s ≠ Some "\"%char →
  minify_text Outside (render_string (Some s) ++ rest) = render_string (Some s) ++ minify_text Outside rest.
Proof.
  intros Hs Hl. unfold render_string. cbn [default from_option id]. rewrite c_str_no_nul by done.
  rewrite <- !app_assoc. cbn [quote app minify_text]. f_equal. by apply string_body.
Qed.

(** The values whose strings do not end in a backslash. *)
Definition no_last_backslash (s : str) : bool := negb (bool_decide (last s = Some "\"%char)).

Fixpoint minifiable (j : json) : bool :=
  match j with
  | JNull | JFalse | JTrue | JNumber _ => true
  | JString s => no_last_backslash s
  | JArray l => forallb minifiable l
  | JObject l => forallb (fun m => no_last_backslash (fst m) && minifiable (snd m)) l
  end.

(** The formatted text of a value, inside a text. *)
Definition minifies (j : json) : Prop := ∀ nm dd dd' rest,
  minify_text Outside (render true dd (item_of nm j) ++ rest)
  = render false dd' (item_of nm j) ++ minify_text Outside rest.

Lemma elements_minify l dd dd' rest : Forall minifies l →
  minify_text Outside (render_elements true (render true) dd (map (item_of None) l) ++ rest)
  = render_elements false (render false) dd' (map (item_of None) l) ++ minify_text Outside rest.
Proof.
  induction 1 as [|j l Hj _ IH]; [done|]. cbn [map render_elements]. rewrite <- !app_assoc, (Hj None dd dd').
  f_equal. destruct l as [|j' l]; [exact IH|]. cbn [map].
  cbn [String.list_ascii_of_string app]. rewrite outside_plain1, outside_white1 by done.
  f_equal. exact IH.
Qed.

Lemma tabs_minify n rest : minify_text Outside (replicate n tab ++ rest) = minify_text Outside rest.
Proof. apply outside_white. induction n; [done|]. exact IHn. Qed.

Lemma members_minify l dd dd' rest :
  Forall (fun m => no_nul (fst m) ∧ last (fst m) ≠ Some "\"%char ∧ minifies (snd m)) l →
  minify_text Outside (members_text true dd l ++ rest) = members_text false dd' l ++ minify_text Outside rest.
Proof.
  induction 1 as [|m l (Hn & Hb & Hm) _ IH]; [done|]. rewrite !members_text_cons. unfold inner, colon, line, tabs.
  rewrite <- !app_assoc, tabs_minify, outside_string by done. cbn [app]. f_equal.
  rewrite outside_plain1, outside_white1 by done. f_equal. rewrite (Hm _ dd dd'). f_equal.
  destruct l as [|m' l].
  - cbn [app]. rewrite outside_white1 by done. exact IH.
  - cbn [app]. rewrite outside_plain1, outside_white1 by done. by rewrite IH.
Qed.

Lemma number_char_plain c : is_number_char c = true → plain_char c = true.
Proof. destruct c as [[] [] [] [] [] [] [] []]; vm_compute; done. Qed.

Lemma no_last_backslash_spec s : no_last_backslash s = true → last s ≠ Some "\"%char.
Proof. unfold no_last_backslash. intros Hs%negb_true_iff. by apply bool_decide_eq_false in Hs. Qed.

Lemma json_minifies j : json_ok j = true → minifiable j = true → minifies j.
Proof.
  induction j as [| | |x|s|l IH|l IH] using json_nested_ind; intros Hok Hm nm dd dd' rest; cbn [json_ok minifiable] in *;
    try (by apply outside_plain).
  - apply number_reads_spec in Hok as (_ & Hf & _). apply outside_plain. rewrite forallb_forall in Hf.
    apply forallb_forall. intros c Hc. by apply number_char_plain, Hf.
  - apply bool_decide_eq_true in Hok. by apply outside_string, no_last_backslash_spec.
  - rewrite !render_array. cbn [app]. rewrite outside_plain1 by done. f_equal. rewrite <- !app_assoc. rewrite (elements_minify l _ (S dd')).
    + done.
    + rewrite forallb_forall in Hok, Hm. rewrite Forall_forall in IH |- *. intros j Hj.
      apply IH; [done|apply Hok|apply Hm]; by apply list_elem_of_In.
  - rewrite !render_object. cbn [app]. rewrite outside_plain1 by done. f_equal.
    unfold line at 1 2, tabs. rewrite <- !app_assoc. cbn [app]. rewrite outside_white1 by done.
    rewrite (members_minify l _ (S dd')).
    + cbn [app]. by rewrite tabs_minify.
    + rewrite forallb_forall in Hok, Hm. rewrite Forall_forall in IH |- *. intros m Hin.
      specialize (Hok m ltac:(by apply list_elem_of_In)). specialize (Hm m ltac:(by apply list_elem_of_In)).
      apply andb_true_iff in Hok as [Hk Hj], Hm as [Hb Hmj]. split; [by apply bool_decide_eq_true in Hk|].
      split; [by apply no_last_backslash_spec|]. by apply IH.
Qed.

Lemma c_str_nul s t : no_nul s → c_str (s ++ NUL :: t) = s.
Proof.
  induction s as [|c s IH]; intros Hs; [done|]. apply no_nul_cons in Hs as [Hc Hs]. cbn.
  apply Ascii.eqb_neq in Hc. rewrite Hc. by rewrite IH.
Qed.

(** ** Properties *)

(** C29. Minifying the formatted text of a value gives its unformatted text,
    in place: for every JSON value whose strings have no NUL and do not end
    in a backslash and whose numbers read back, [cJSON_Minify] on what
    [cJSON_Print] writes stays inside the array, returns, and leaves what
    [cJSON_PrintUnformatted] writes. *)
Theorem minify_formatted (j : json) :
  json_ok j = true → minifiable j = true →
  (∀ fmt, Z.of_nat (length (render fmt 0 (item_of None j))) ≤ print_limit)%Z →
  ∃ formatted unformatted left,
    (cJSON_Print (item_of None j) : outcome unit (option str)) = Ret (Some formatted) ∧
    (cJSON_PrintUnformatted (item_of None j) : outcome unit (option str)) = Ret (Some unformatted) ∧
    cJSON_Minify (Some (formatted ++ [NUL])) = Ret (Some left) ∧ c_str left = unformatted ∧
    length left = S (length formatted).
Proof.
  intros Hok Hm Hl. pose proof (json_printable j Hok None) as Hp.
  assert (Hn : ∀ fmt, c_str (render fmt 0 (item_of None j)) = render fmt 0 (item_of None j)).
  { intros fmt. by apply c_str_no_nul, render_no_nul. }
  destruct (minify_writes (render true 0 (item_of None j)) [] (render_no_nul true j Hok None 0)) as (junk & E & Hlen).
  pose proof (json_minifies j Hok Hm None 0 0 []) as Hmin. rewrite !app_nil_r in Hmin. rewrite Hmin in E, Hlen.
  set (t1 := render true 0 (item_of None j)) in *. set (t0 := render false 0 (item_of None j)) in *.
  exists t1, t0, (t0 ++ NUL :: junk ++ []).
  split; [unfold cJSON_Print; rewrite print_eq by done; by rewrite Hn|].
  split; [unfold cJSON_PrintUnformatted; rewrite print_eq by done; by rewrite Hn|].
  split; [exact E|]. split; [by apply c_str_nul, render_no_nul|].
  rewrite !length_app in *. cbn. rewrite length_app. cbn. lia.
Qed.

Lemma minify_formatted_witness :
  ∃ formatted unformatted left,
    (cJSON_Print (item_of None sample_json) : outcome unit (option str)) = Ret (Some formatted) ∧
    (cJSON_PrintUnformatted (item_of None sample_json) : outcome unit (option str)) = Ret (Some unformatted) ∧
    cJSON_Minify (Some (formatted ++ [NUL])) = Ret (Some left) ∧ c_str left = unformatted ∧
    length left = S (length formatted).
Proof.
  apply (minify_formatted sample_json); [vm_compute; reflexivity|vm_compute; reflexivity|].
  intros []; vm_compute; discriminate.
Defined.

(** The strings that end in a backslash are left out for a reason: the escape
    of the backslash and the closing quote are read as an escaped quote, and
    what follows the string is copied as if it were inside it. *)
Definition backslash_json : json := JArray [JString #"\"; JNull].

Lemma minify_escaped_backslash :
  (cJSON_PrintUnformatted (item_of None backslash_json) : outcome unit (option str))
    = Ret (Some (quoted #"['\\',null]")) ∧
  option_map c_str <$> cJSON_Minify (Some (render true 0 (item_of None backslash_json) ++ [NUL]))
    = Ret (Some (quoted #"['\\', null]")).
Proof. split; vm_compute; reflexivity. Qed.
