(* ===== verification/CJsonCompare.v ===== *)
(** * Comparing JSON items (src/libs/cJSON.c)

    [cJSON_Compare] and what it decides: on items of JSON values it is
    equality up to the order of the members of an object, when no object has
    two members of one name. *)
From Stdlib Require Import SpecFloat.
From S2P Require Import Prelude.
From S2P Require Import CLib.
From S2P Require Import CFloat.
From S2P Require Import CJson.
From S2P Require Import CJsonTree.
From S2P Require Import CJsonRoundtrip.

(** ** Definitions *)

(** The kinds of the first switch. *)
Definition comparable_kind (k : Z) : bool :=
  bool_decide (k ∈ [cJSON_False; cJSON_True; cJSON_NULL; cJSON_Number; cJSON_String; cJSON_Raw;
                    cJSON_Array; cJSON_Object]).

(** The loops over the elements of two arrays, and over the members [l] of
    one object, looked up in the other. *)
Fixpoint compare_elements (compare : cJSON → cJSON → outcome () bool) (la lb : list cJSON) : outcome () bool :=
  match la, lb with
  | a_element :: la, b_element :: lb =>
      equal ← compare a_element b_element;
      if negb equal then Ret false else compare_elements compare la lb
  | [], [] => Ret true
  | _, _ => Ret false
  end.

Fixpoint compare_members (compare : cJSON → cJSON → outcome () bool) (l : list cJSON) (other : cJSON)
  (case_sensitive : bool) : outcome () bool :=
  match l with
  | [] => Ret true
  | element :: l =>
      match get_object_item (Some other) (name element) case_sensitive with
      | None => Ret false
      | Some found =>
          equal ← compare element found;
          if negb equal then Ret false else compare_members compare l other case_sensitive
      end
  end.

(** The recursion turns its arguments round, so it runs on fuel.  [same] is
    [a == b]; two items that are not one share no child. *)
Fixpoint compare_items (fuel : nat) (same : bool) (a b : option cJSON) (case_sensitive : bool) : outcome () bool :=
  match fuel with
  | O => Undef
  | S fuel =>
      let compare x y := compare_items fuel false (Some x) (Some y) case_sensitive in
      match a, b with
      | Some a, Some b =>
          if negb (kind a =? kind b)%Z || cJSON_IsInvalid (Some a) then Ret false
          else if negb (comparable_kind (kind a)) then Ret false
          else if same then Ret true
          else if bool_decide (kind a ∈ [cJSON_False; cJSON_True; cJSON_NULL]) then Ret true
          else if (kind a =? cJSON_Number)%Z then Ret (SFeqb (valuedouble a) (valuedouble b))
          else if (kind a =? cJSON_String)%Z || (kind a =? cJSON_Raw)%Z then
            match valuestring a, valuestring b with
            | Some s, Some t => Ret (strcmp_eq s t)
            | _, _ => Ret false
            end
          else if (kind a =? cJSON_Array)%Z then compare_elements compare (child a) (child b)
          else
            equal ← compare_members compare (child a) b case_sensitive;
            if negb equal then Ret false else compare_members compare (child b) a case_sensitive
      | _, _ => Ret false
      end
  end.

Fixpoint height (i : cJSON) : nat := S (foldr (fun c n => Nat.max (height c) n) 0 (child i)).

Definition heights (a : option cJSON) : nat := match a with None => 0 | Some i => height i end.

Definition cJSON_Compare (same : bool) (a b : option cJSON) (case_sensitive : bool) : outcome () bool :=
  compare_items (S (heights a + heights b)) same a b case_sensitive.

#[local] Set Warnings "-register-all".

(** *** What it decides *)

(** Two names are one. *)
Definition canon (case_sensitive : bool) (s : str) : str := if case_sensitive then s else map tolower s.

Section Equivalent.
Variable case_sensitive : bool.

Inductive equivalent : json → json → Prop :=
  | equivalent_null : equivalent JNull JNull
  | equivalent_false : equivalent JFalse JFalse
  | equivalent_true : equivalent JTrue JTrue
  | equivalent_number x y : SFeqb x y = true → equivalent (JNumber x) (JNumber y)
  | equivalent_string s : equivalent (JString s) (JString s)
  | equivalent_array l k : Forall2 equivalent l k → equivalent (JArray l) (JArray k)
  | equivalent_object l k k' :
      k' ≡ₚ k →
      Forall2 (fun m m' => canon case_sensitive (fst m) = canon case_sensitive (fst m') ∧
                           equivalent (snd m) (snd m')) l k' →
      equivalent (JObject l) (JObject k).

(** No object has two members of one name, and no string a NUL. *)
Fixpoint comparable (j : json) : bool :=
  match j with
  | JNull | JFalse | JTrue | JNumber _ => true
  | JString s => without_nul s
  | JArray l => forallb comparable l
  | JObject l => bool_decide (NoDup (map (canon case_sensitive ∘ fst) l)) &&
                 forallb (fun m => without_nul (fst m) && comparable (snd m)) l
  end.
End Equivalent.

(** ** Lemmas: it returns *)

Definition returns {A} (m : outcome () A) : Prop := ∃ a, m = Ret a.

Lemma height_child c i : c ∈ child i → height c < height i.
Proof.
  destruct i as [t vs vi vd n l]. cbn [child height]. induction l as [|x l IH]; [by intros ?%not_elem_of_nil|].
  intros [->|Hc]%elem_of_cons; cbn [foldr]; [lia|]. specialize (IH Hc). lia.
Qed.

Lemma get_object_item_child o nm cs e : get_object_item (Some o) nm cs = Some e → e ∈ child o.
Proof.
  unfold get_object_item. destruct nm as [nm|]; [|done].
  destruct (object_index _ _ _) as [i|]; [|done]. cbn [mbind option_bind].
  rewrite nth_child_lookup. destruct (child o !! i) as [c|] eqn:E; [|done].
  destruct (name c); [|done]. intros [= <-]. by eapply list_elem_of_lookup_2.
Qed.

Lemma compare_elements_returns compare la lb :
  (∀ a b, a ∈ la → b ∈ lb → returns (compare a b)) → returns (compare_elements compare la lb).
Proof.
  revert lb. induction la as [|a la IH]; intros [|b lb] Hc; try by eexists.
  cbn [compare_elements]. destruct (Hc a b) as ([] & ->); [set_solver..| |by eexists].
  apply IH. intros. apply Hc; set_solver.
Qed.

Lemma compare_members_returns compare l other cs :
  (∀ a b, a ∈ l → b ∈ child other → returns (compare a b)) → returns (compare_members compare l other cs).
Proof.
  induction l as [|a l IH]; intros Hc; [by eexists|].
  cbn [compare_members]. destruct (get_object_item _ _ _) as [b|] eqn:E; [|by eexists].
  apply get_object_item_child in E. destruct (Hc a b) as ([] & ->); [set_solver..| |by eexists].
  apply IH. intros. apply Hc; set_solver.
Qed.

Lemma compare_items_returns fuel : ∀ same a b cs,
  heights a + heights b < fuel → returns (compare_items fuel same a b cs).
Proof.
  induction fuel as [|fuel IH]; intros same a b cs Hf; [lia|].
  destruct a as [a|], b as [b|]; try by eexists.
  cbn [compare_items]. repeat case_match; try by eexists.
  - apply compare_elements_returns. intros x y Hx%height_child Hy%height_child. apply IH. cbn [heights] in *. lia.
  - destruct (compare_members_returns (fun x y => compare_items fuel false (Some x) (Some y) cs) (child a) b cs)
      as ([] & ->); [| |by eexists].
    + intros x y Hx%height_child Hy%height_child. apply IH. cbn [heights] in *. lia.
    + apply compare_members_returns. intros x y Hx%height_child Hy%height_child. apply IH. cbn [heights] in *. lia.
Qed.

(** ** Lemmas: what it decides *)

Definition decides (m : outcome () bool) (P : Prop) : Prop := ∃ b, m = Ret b ∧ (b = true ↔ P).

Lemma decides_ret b (P : Prop) : (b = true ↔ P) → decides (Ret b) P.
Proof. by exists b. Qed.

(** [if (!test) return false;] *)
Lemma decides_and m k (P Q : Prop) : decides m P → (P → decides k Q) →
  decides (equal ← m; if negb equal then Ret false else k) (P ∧ Q).
Proof.
  intros ([] & -> & Hm) Hk; cbn.
  - destruct Hk as (b & -> & Hb); [tauto|]. exists b. split; [done|]. rewrite Hb. tauto.
  - exists false. split; [done|]. split; [done|]. intros [HP _]. by apply Hm.
Qed.

Lemma decides_iff m (P Q : Prop) : (P ↔ Q) → decides m P → decides m Q.
Proof. intros HPQ (b & -> & Hb). exists b. by rewrite Hb. Qed.

Lemma elements_decide {A} (item : A → cJSON) compare (R : A → A → Prop) l k :
  (∀ x y, x ∈ l → y ∈ k → decides (compare (item x) (item y)) (R x y)) →
  decides (compare_elements compare (map item l) (map item k)) (Forall2 R l k).
Proof.
  revert k. induction l as [|x l IH]; intros [|y k] Hc; cbn [map compare_elements].
  - apply decides_ret. split; [constructor|done].
  - apply decides_ret. split; [done|by intros ?%Forall2_nil_cons_inv].
  - apply decides_ret. split; [done|by intros ?%Forall2_cons_nil_inv].
  - eapply decides_iff; [symmetry; apply Forall2_cons|].
    apply decides_and; [apply Hc; set_solver|]. intros _. apply IH. intros. apply Hc; set_solver.
Qed.

Definition member (m : str * json) : cJSON := item_of (Some (fst m)) (snd m).

Lemma SFeqb_sym x y : SFeqb x y = SFeqb y x.
Proof.
  unfold SFeqb, SFcompare. destruct x as [[]|[]| |[] m e], y as [[]|[]| |[] m' e']; try done;
    rewrite (Z.compare_antisym e e');
    pose proof (Pos.compare_cont_antisym m m' Eq) as Hm; cbn [CompOpp] in Hm; rewrite <- Hm; destruct (e ?= e')%Z; try done; cbn [CompOpp];
    by destruct (Pos.compare_cont Eq m m').
Qed.

Section Decide.
Variable case_sensitive : bool.

Abbreviation key := (canon case_sensitive ∘ fst).

Definition named (n : str) (m : str * json) : bool := bool_decide (canon case_sensitive n = key m).

(** Looking a name up gives the first member of the name. *)
Lemma get_member nm n k :
  no_nul n → Forall (fun m => no_nul (fst m)) k →
  get_object_item (Some (item_of nm (JObject k))) (Some n) case_sensitive
  = member <$> List.find (named n) k.
Proof.
  intros Hn. unfold get_object_item. cbn [item_of child]. induction 1 as [|m k Hm _ IH]; [done|].
  cbn [map object_index List.find]. rewrite name_item_of.
  assert (E : named n m = if case_sensitive then strcmp_eq n (fst m)
                          else (case_insensitive_strcmp (Some n) (Some (fst m)) =? 0)%Z).
  { unfold named, canon. cbn [compose]. destruct case_sensitive.
    - unfold strcmp_eq, str_eqb. by rewrite (c_str_no_nul n), (c_str_no_nul (fst m)).
    - rewrite case_insensitive_strcmp_spec. apply bool_decide_ext. cbn [same_name].
      by rewrite (c_str_no_nul n), (c_str_no_nul (fst m)). }
  assert (E' : (if case_sensitive then negb (strcmp_eq n (fst m))
                else negb (case_insensitive_strcmp (Some n) (Some (fst m)) =? 0)%Z) = negb (named n m)).
  { rewrite E. by destruct case_sensitive. }
  rewrite E'. destruct (named n m); cbn [negb].
  - cbn. by rewrite name_item_of.
  - rewrite <- IH. by destruct (object_index _ _ _).
Qed.

(** Among members of distinct names, the one found is the one of the name. *)
Lemma find_named n k m : NoDup (map key k) →
  List.find (named n) k = Some m ↔ m ∈ k ∧ canon case_sensitive n = key m.
Proof.
  intros Hk. split.
  - intros [Hin Hm]%List.find_some. split; [by apply list_elem_of_In|]. unfold named in Hm. by apply bool_decide_eq_true in Hm.
  - intros [Hin Hm]. induction k as [|m' k IH]; [by apply not_elem_of_nil in Hin|].
    cbn [map] in Hk. apply NoDup_cons in Hk as [Hm' Hk]. cbn [List.find]. unfold named at 1.
    apply elem_of_cons in Hin as [->|Hin]; [by rewrite bool_decide_eq_true_2|].
    rewrite bool_decide_eq_false_2; [by apply IH|]. intros E. apply Hm'. rewrite <- E, Hm.
    by apply list_elem_of_fmap_2.
Qed.

Lemma members_decide compare (R : json → json → Prop) nm l k :
  Forall (fun m => no_nul (fst m)) l → Forall (fun m => no_nul (fst m)) k → NoDup (map key k) →
  (∀ m m', m ∈ l → m' ∈ k → decides (compare (member m) (member m')) (R (snd m) (snd m'))) →
  decides (compare_members compare (map member l) (item_of nm (JObject k)) case_sensitive)
    (Forall (fun m => ∃ m', m' ∈ k ∧ key m = key m' ∧ R (snd m) (snd m')) l).
Proof.
  intros Hl Hk Hd Hc. induction Hl as [|m l Hm Hl IH]; [apply decides_ret; by split|].
  cbn [map compare_members]. unfold member at 1. rewrite name_item_of, get_member by done.
  eapply decides_iff; [symmetry; apply Forall_cons|]. fold (member m).
  destruct (List.find (named (fst m)) k) as [m'|] eqn:E; cbn [fmap option_fmap option_map].
  - pose proof E as [Hin Hkey]%find_named; [|done]. apply decides_and; [|intros _; apply IH; intros; apply Hc; set_solver].
    eapply decides_iff; [|apply (Hc m m'); set_solver]. split; [by exists m'|].
    intros (m2 & Hin2 & Hkey2 & HR). assert (E2 : List.find (named (fst m)) k = Some m2) by by apply find_named.
    by simplify_eq.
  - apply decides_ret. split; [done|]. intros [(m' & Hin & Hkey & _) _].
    assert (E2 : List.find (named (fst m)) k = Some m') by by apply find_named. congruence.
Qed.

(** Members of distinct names that are found in each other are the same up
    to their order. *)
Lemma mutual_permutation (E : str * json → str * json → Prop) l k :
  NoDup (map key l) → NoDup (map key k) → (∀ m m', E m m' → key m = key m') →
  Forall (fun m => ∃ m', m' ∈ k ∧ E m m') l → Forall (fun m' => ∃ m, m ∈ l ∧ key m' = key m) k →
  ∃ k', k' ≡ₚ k ∧ Forall2 E l k'.
Proof.
  intros Hl Hk HE Hlk Hkl.
  assert (∃ k', Forall (fun m => m ∈ k) k' ∧ Forall2 E l k') as (k' & Hin & H2).
  { clear Hl Hkl. induction Hlk as [|m l (m' & Hm & Hmm) _ (k' & Hk' & H2)]; [by exists []|].
    exists (m' :: k'). by split; constructor. }
  exists k'. split; [|done].
  assert (Hkeys : map key l = map key k').
  { clear -H2 HE. induction H2 as [|m m' l k' Hm _ IH]; cbn [map]; [done|]. by rewrite IH, (HE m m'). }
  rewrite Hkeys in Hl. apply NoDup_fmap_1 in Hl as Hnd.
  apply submseteq_length_Permutation.
  - apply NoDup_submseteq; [done|]. by apply Forall_forall.
  - rewrite <- (length_map key k), <- (length_map key k'). apply submseteq_length, NoDup_submseteq; [done|].
    intros x (m' & -> & Hm')%list_elem_of_fmap. rewrite Forall_forall in Hkl.
    destruct (Hkl m' Hm') as (m & Hm & ->). rewrite <- Hkeys. by apply list_elem_of_fmap_2.
Qed.

Abbreviation equiv := (equivalent case_sensitive).

Lemma Forall2_turned {A B} (R : A → B → Prop) (S : B → A → Prop) l k :
  Forall (fun x => ∀ y, R x y → S y x) l → Forall2 R l k → Forall2 S k l.
Proof. intros Hl H2. induction H2; inversion Hl; subst; constructor; auto. Qed.

Lemma equivalent_sym j : ∀ k, equiv j k → equiv k j.
Proof.
  induction j as [| | |x|s|l IH|l IH] using json_nested_ind; intros k Hj; inversion Hj as [| | |? y E| |? k0 H2|? k0 k' Hp H2]; subst;
    try by constructor.
  - constructor. by rewrite SFeqb_sym.
  - constructor. by eapply Forall2_turned.
  - apply (Forall2_turned _ (fun m m' => key m = key m' ∧ equiv (snd m) (snd m'))) in H2;
      [|eapply Forall_impl; [exact IH|]; intros m Hm m' [Hk Hmm]; split; [symmetry; exact Hk|by apply Hm]].
    destruct (Permutation_Forall2 Hp H2) as (l' & Hl & H2'). by apply (equivalent_object _ _ _ l').
Qed.

Lemma comparable_object l : comparable case_sensitive (JObject l) = true →
  NoDup (map key l) ∧ Forall (fun m => no_nul (fst m)) l ∧ Forall (fun m => comparable case_sensitive (snd m) = true) l.
Proof.
  cbn [comparable]. intros [Hd Hf]%andb_true_iff. apply bool_decide_eq_true in Hd. split; [done|].
  rewrite forallb_forall in Hf. split; apply Forall_forall; intros m Hm%list_elem_of_In%Hf%andb_true_iff; destruct Hm as [Hn Hm]; [|done].
  by apply bool_decide_eq_true in Hn.
Qed.

Lemma comparable_array l j : comparable case_sensitive (JArray l) = true → j ∈ l → comparable case_sensitive j = true.
Proof. cbn [comparable]. rewrite forallb_forall. intros Hf Hj%list_elem_of_In. by apply Hf. Qed.

Lemma height_element l j nm : j ∈ l → height (item_of None j) < height (item_of nm (JArray l)).
Proof. intros Hj. apply height_child. cbn [item_of child]. by apply list_elem_of_fmap_2. Qed.

Lemma height_member l m nm : m ∈ l → height (member m) < height (item_of nm (JObject l)).
Proof. intros Hm. apply height_child. cbn [item_of child]. by apply (list_elem_of_fmap_2 member). Qed.

(** Two objects, given a comparison of their members. *)
Lemma objects_decide compare nm nm' l k :
  comparable case_sensitive (JObject l) = true → comparable case_sensitive (JObject k) = true →
  (∀ m m', m ∈ l → m' ∈ k → decides (compare (member m) (member m')) (equiv (snd m) (snd m'))) →
  (∀ m m', m ∈ l → m' ∈ k → decides (compare (member m') (member m)) (equiv (snd m') (snd m))) →
  decides (equal ← compare_members compare (map member l) (item_of nm' (JObject k)) case_sensitive;
           if negb equal then Ret false
           else compare_members compare (map member k) (item_of nm (JObject l)) case_sensitive)
    (equiv (JObject l) (JObject k)).
Proof.
  intros (Hdl & Hnl & _)%comparable_object (Hdk & Hnk & _)%comparable_object Hlk Hkl.
  eapply decides_iff; [|apply decides_and; [by apply members_decide|intros _; apply (members_decide _ equiv); auto]].
  rewrite !Forall_forall. split.
  - intros [H1 H2]. destruct (mutual_permutation (fun m m' => key m = key m' ∧ equiv (snd m) (snd m')) l k)
      as (k' & Hp & HE); [done..|cbn; tauto|by apply Forall_forall| |by apply (equivalent_object _ _ _ k')].
    apply Forall_forall. intros m' Hm'. destruct (H2 _ Hm') as (m & Hm & Hk & _). by exists m.
  - intros HE. split.
    + inversion HE as [| | | | | |? ? k' Hp H2]; subst. intros m Hm.
      apply list_elem_of_lookup in Hm as [i Hi]. destruct (Forall2_lookup_l _ _ _ _ _ H2 Hi) as (m' & Hm' & Hk & Hmm).
      exists m'. split; [|done]. rewrite <- Hp. by eapply list_elem_of_lookup_2.
    + apply equivalent_sym in HE. inversion HE as [| | | | | |? ? k' Hp H2]; subst. intros m Hm.
      apply list_elem_of_lookup in Hm as [i Hi]. destruct (Forall2_lookup_l _ _ _ _ _ H2 Hi) as (m' & Hm' & Hk & Hmm).
      exists m'. split; [|done]. rewrite <- Hp. by eapply list_elem_of_lookup_2.
Qed.

Lemma items_decide fuel : ∀ nm nm' j k,
  height (item_of nm j) + height (item_of nm' k) < fuel →
  comparable case_sensitive j = true → comparable case_sensitive k = true →
  decides (compare_items fuel false (Some (item_of nm j)) (Some (item_of nm' k)) case_sensitive) (equiv j k).
Proof.
  induction fuel as [|fuel IH]; intros nm nm' j k Hf Hj Hk; [lia|].
  destruct j, k; try (exists false; split; [reflexivity|split; [done|by inversion 1]]);
    try (exists true; split; [reflexivity|split; [constructor|done]]).
  - apply decides_ret. split; [by constructor|]. by inversion 1.
  - apply bool_decide_eq_true in Hj, Hk. apply decides_ret.
    unfold strcmp_eq. rewrite (c_str_no_nul s), (c_str_no_nul s0), str_eqb_eq by done. split; [intros ->; constructor|by inversion 1].
  - apply (decides_iff _ (Forall2 equiv l l0)); [split; [by constructor|by inversion 1]|].
    apply (elements_decide (item_of None)). intros x y Hx Hy.
    apply IH; [|exact (comparable_array _ _ Hj Hx)|exact (comparable_array _ _ Hk Hy)].
    pose proof (height_element l x nm Hx). pose proof (height_element l0 y nm' Hy). lia.
  - pose proof (comparable_object _ Hj) as (_ & _ & Hl). pose proof (comparable_object _ Hk) as (_ & _ & Hl0).
    rewrite Forall_forall in Hl, Hl0. apply objects_decide; try done; intros m m' Hm Hm'.
    all: pose proof (height_member l m nm Hm); pose proof (height_member l0 m' nm' Hm').
    all: apply IH; auto; unfold member in *; lia.
Qed.
End Decide.

(** Two objects whose members are in another order and whose names differ in
    case are compared equal or not as the flag says. *)
Definition one_object : json := JObject [(#"a", JNull); (#"b", JArray [JTrue; JString #"x"])].
Definition other_object : json := JObject [(#"B", JArray [JTrue; JString #"x"]); (#"a", JNull)].

(** A copy of an object with two members of one name is not equal to it. *)
Example compare_twice_named :
  let item := item_of None (JObject [(#"a", JTrue); (#"a", JFalse)]) in
  cJSON_Compare false (Some item) (Some (cJSON_Duplicate item true)) true = Ret false.
Proof. vm_compute. reflexivity. Qed.

(** ** Properties *)

(** C30. [cJSON_Compare] returns on any two items, and on the items of JSON
    values in which no object has two members of one name (equal, or equal up
    to case) and no string has a NUL it decides whether the values are equal
    up to the order of the members of their objects, with numbers compared as
    doubles. *)
Theorem compare_decides (case_sensitive : bool) :
  (∀ same a b, ∃ r, cJSON_Compare same a b case_sensitive = Ret r) ∧
  ∀ j k, comparable case_sensitive j = true → comparable case_sensitive k = true →
    ∃ r, cJSON_Compare false (Some (item_of None j)) (Some (item_of None k)) case_sensitive = Ret r ∧
      (r = true ↔ equivalent case_sensitive j k).
Proof.
  split.
  - intros. apply compare_items_returns. lia.
  - intros j k Hj Hk. apply items_decide; [cbn [heights]; lia|done|done].
Qed.

Lemma compare_decides_witness :
  (∃ r, cJSON_Compare false (Some (item_of None one_object)) (Some (item_of None other_object)) false = Ret r ∧
     (r = true ↔ equivalent false one_object other_object)) ∧
  cJSON_Compare false (Some (item_of None one_object)) (Some (item_of None other_object)) false = Ret true ∧
  cJSON_Compare false (Some (item_of None one_object)) (Some (item_of None other_object)) true = Ret false.
Proof.
  split; [|split; vm_compute; reflexivity].
  apply (proj2 (compare_decides false)); vm_compute; reflexivity.
Defined.
