(* ===== verification/JsonHelpers.v ===== *)
(** * JSON access (src/libs/jsonxx.h, src/libs/jsonxx.cpp,
    src/drivers/JsonHelpers.h, src/drivers/JsonHelpers.cpp)

    The two ways the drivers read a JSON text: the class [jsonxx] with its
    casts, and the function templates [getJsonValue] and
    [getJsonValueByKey]. *)
From S2P Require Import Prelude.
From S2P Require Import CLib.
From S2P Require Import Exceptions.
From S2P Require Import CFloat.
From S2P Require Import CJson.
From S2P Require Import CJsonTree.
From S2P Require Import CJsonPrint.
From S2P Require Import CJsonPrintSpec.
From S2P Require Import CJsonSafety.

(** ** Definitions *)

Definition QUOTE : ascii := "034"%char.

(** [s.compare(pos, 1, ...) == 0], for the string of one quote. *)
Definition compare_quote (s : str) (pos : Z) : M bool :=
  if (Z.of_nat (length s) <? pos)%Z then throw_out_of_range pos (Z.of_nat (length s))
  else mret (str_eqb (take 1 (drop (Z.to_nat pos) s)) [QUOTE]).

(** [s.size() - 1], which wraps around on an empty string only: a string has
    less than 2^63 bytes. *)
Definition size_minus_1 (s : str) : Z :=
  match length s with O => u64 (-1) | S n => Z.of_nat n end.

(** The first and the last quote are removed. *)
Definition unquote (s : str) : M str :=
  b ← compare_quote s 0;
  let s := if (b : bool) then drop 1 s else s in
  b ← compare_quote s (size_minus_1 s);
  mret (if (b : bool) then take (length s - 1) s else s).

(** *** [class jsonxx] *)

(** [jsonxx::jsonxx(const string & data)]; the constructor from a
    [const char *] is the same once the pointer is not null. *)
Definition jsonxx (data : str) : M cJSON :=
  j ← cJSON_Parse (c_str data);
  match j with
  | Some mData => mret mData
  | None => throw_runtime #"jsonxx: data parsing error"
  end.

Definition jsonxx_ptr (data : option str) : M cJSON :=
  match data with
  | None => throw_runtime #"jsonxx: invalid data for parsing"
  | Some data => jsonxx data
  end.

(** [jsonxx::item::item], by [jsonxx::operator[]] on a literal. *)
Definition jsonxx_item (root : cJSON) (value : str) : M cJSON :=
  if negb (jtype root =? cJSON_Object)%Z
  then throw_runtime #"jsonxx: item parsing internal error"
  else match cJSON_GetObjectItem (Some root) (Some value) with
       | Some item => mret item
       | None => throw_runtime (#"jsonxx: not found parsing item - " ++ value)
       end.

Definition isNumber (i : cJSON) : bool := (jtype i =? cJSON_Number)%Z.
Definition isString (i : cJSON) : bool := (jtype i =? cJSON_String)%Z.
Definition isBool (i : cJSON) : bool :=
  ((jtype i =? cJSON_True) || (jtype i =? cJSON_False))%Z.

(** The cast operators; [trunc] is the conversion to the integral type. *)
Definition item_integral (trunc : Z → Z) (i : cJSON) : Z :=
  if isNumber i then trunc (valueint i) else 0.
Definition item_bool (i : cJSON) : bool := isBool i && (jtype i =? cJSON_True)%Z.
Definition item_string (i : cJSON) : M str :=
  if isString i then s ← deref (valuestring i); unquote (c_str s) else mret [].

(** *** [getJsonValue] *)

(** For an integral type. *)
Definition getJsonValue_int (trunc : Z → Z) (j : cJSON) : M Z :=
  if negb (jtype j =? cJSON_Number)%Z
  then throw_runtime #"getJsonKey unexpected type for integral return"
  else mret (trunc (valueint j)).

Definition getJsonValue_string (j : cJSON) : M str :=
  if negb (jtype j =? cJSON_String)%Z
  then throw_runtime #"getJsonKey unexpected type for string return"
  else s ← deref (valuestring j); unquote (c_str s).

Definition getJsonValueByKey {T} (getJsonValue : cJSON → M T) (j : cJSON) (key : str) : M T :=
  if negb (jtype j =? cJSON_Object)%Z
  then throw_runtime #"getJsonValueByKey passed non-object item"
  else match cJSON_GetObjectItem (Some j) (Some key) with
       | Some i => getJsonValue i
       | None => throw_runtime #"getJsonValueByKey key not found: "
       end.

(** What [unquote] gives for a string of more than a quote. *)
Definition strip_quotes (s : str) : str :=
  let s := if decide (head s = Some QUOTE) then drop 1 s else s in
  if decide (last s = Some QUOTE) then take (length s - 1) s else s.

(** The strings [unquote] fails on. *)
Definition too_short (s : str) : bool := str_eqb s [] || str_eqb s [QUOTE].

(** ** Lemmas *)

Lemma compare_first s :
  compare_quote s 0 = Ret (bool_decide (head s = Some QUOTE)).
Proof.
  unfold compare_quote.
  destruct (Z.ltb_spec (Z.of_nat (length s)) 0); [lia|]. cbn [drop Z.to_nat]. f_equal.
  destruct s as [|c s]; [done|]. cbn [take head]. unfold str_eqb. rewrite ?take_0.
  apply bool_decide_ext. naive_solver.
Qed.

Lemma compare_last s :
  s ≠ [] → compare_quote s (size_minus_1 s) = Ret (bool_decide (last s = Some QUOTE)).
Proof.
  intros Hne. unfold compare_quote, size_minus_1.
  destruct (length s) as [|n] eqn:Hl; [by apply length_zero_iff_nil in Hl|].
  destruct (Z.ltb_spec (Z.of_nat (S n)) (Z.of_nat n)); [lia|].
  f_equal. unfold str_eqb. apply bool_decide_ext. rewrite Nat2Z.id.
  destruct (last s) as [c|] eqn:E; [|by apply last_None in E].
  rewrite last_lookup, Hl in E. cbn [Nat.pred] in E. rewrite (drop_S _ _ _ E).
  cbn [take]. rewrite ?take_0. naive_solver.
Qed.

(** [unquote] on every string. *)
Lemma unquote_eq s :
  unquote s = if too_short s then throw_out_of_range (-1) 0 else Ret (strip_quotes s).
Proof.
  unfold unquote, strip_quotes. rewrite compare_first, bind_Ret.
  destruct s as [|c s]; [done|]. cbn [head].
  unfold too_short, str_eqb. rewrite (bool_decide_false (c :: s = [])) by done. cbn [orb].
  destruct (decide (Some c = Some QUOTE)) as [[= ->]|Hc].
  - rewrite (bool_decide_true (Some QUOTE = Some QUOTE)) by done. cbn [drop]. rewrite ?drop_0.
    destruct s as [|d s]; [done|].
    rewrite (bool_decide_false (QUOTE :: d :: s = [QUOTE])) by done.
    rewrite compare_last, bind_Ret by done. case_bool_decide as E; by destruct (decide _).
  - rewrite (bool_decide_false (Some c = Some QUOTE)) by done.
    rewrite (bool_decide_false (c :: s = [QUOTE])) by congruence.
    rewrite compare_last, bind_Ret by done. case_bool_decide as E; by destruct (decide _).
Qed.

Lemma unquote_defined s : defined (unquote s).
Proof. rewrite unquote_eq. by destruct (too_short s). Qed.

(** The casts are defined on what the parser builds. *)
Lemma parsed_string i :
  parsed_ok i → jtype i = cJSON_String → is_Some (valuestring i).
Proof. intros Hp Ht. inversion Hp as [? [H|[H|H]]|? H|? s H Hs|? H|? H]; subst; rewrite Ht in H || eauto; done. Qed.

Lemma item_string_defined i : parsed_ok i → defined (item_string i).
Proof.
  intros Hp. unfold item_string, isString. destruct (Z.eqb_spec (jtype i) cJSON_String); [|done].
  destruct (parsed_string i) as [s ->]; [done..|]. apply unquote_defined.
Qed.

Lemma getJsonValue_string_defined i : parsed_ok i → defined (getJsonValue_string i).
Proof.
  intros Hp. unfold getJsonValue_string. destruct (Z.eqb_spec (jtype i) cJSON_String); [|done].
  destruct (parsed_string i) as [s ->]; [done..|]. apply unquote_defined.
Qed.

Lemma getJsonValue_int_defined f i : defined (getJsonValue_int f i).
Proof. unfold getJsonValue_int. by destruct (negb _). Qed.

Lemma parsed_children i : parsed_ok i → jtype i = cJSON_Object ∨ jtype i = cJSON_Array →
  Forall parsed_ok (child i).
Proof.
  intros Hp [Ht|Ht]; inversion Hp as [? [H|[H|H]]|? H|? s H Hs|? H|? H]; subst; try done;
    rewrite Ht in H; discriminate.
Qed.

Lemma object_item_parsed o nm i :
  parsed_ok o → jtype o = cJSON_Object → cJSON_GetObjectItem (Some o) nm = Some i → parsed_ok i.
Proof.
  intros Hp Ht Hi. destruct nm as [nm|]; [|by destruct o].
  rewrite cJSON_GetObjectItem_spec in Hi.
  pose proof (parsed_children o Hp (or_introl Ht)) as Hc. rewrite Forall_forall in Hc.
  apply Hc, list_elem_of_In. by apply List.find_some in Hi as [Hi _].
Qed.

Lemma jsonxx_item_defined o v : defined (jsonxx_item o v).
Proof. unfold jsonxx_item. destruct (negb _); [done|]. by destruct (cJSON_GetObjectItem _ _). Qed.

Lemma jsonxx_item_parsed o v i : parsed_ok o → jsonxx_item o v = Ret i → parsed_ok i.
Proof.
  intros Hp. unfold jsonxx_item. destruct (Z.eqb_spec (jtype o) cJSON_Object); [|done].
  cbn [negb]. destruct (cJSON_GetObjectItem _ _) eqn:E; [|done]. intros [= <-].
  by eapply object_item_parsed.
Qed.

Lemma jsonxx_cases data :
  (∃ i, jsonxx data = Ret i ∧ item_fits i (S (length data)))
  ∨ jsonxx data = throw_runtime #"jsonxx: data parsing error".
Proof.
  unfold jsonxx. destruct (@cJSON_Parse_runs exn (c_str data)) as ([i|] & -> & H); [left|by right].
  exists i. split; [done|]. destruct (H i eq_refl) as [Hp Hr]. split; [done|].
  intros d. specialize (Hr d). pose proof (c_str_length data). lia.
Qed.

Lemma jsonxx_defined data : defined (jsonxx data).
Proof. by destruct (jsonxx_cases data) as [(i & -> & _)| ->]. Qed.

Lemma jsonxx_parsed data i : jsonxx data = Ret i → parsed_ok i.
Proof. destruct (jsonxx_cases data) as [(j & -> & [Hp _])| ->]; [|done]. by intros [= <-]. Qed.

Lemma getJsonValueByKey_defined {T} (g : cJSON → M T) o key :
  parsed_ok o → (∀ i, parsed_ok i → defined (g i)) → defined (getJsonValueByKey g o key).
Proof.
  intros Hp Hg. unfold getJsonValueByKey. destruct (Z.eqb_spec (jtype o) cJSON_Object); [|done].
  cbn [negb]. destruct (cJSON_GetObjectItem _ _) eqn:E; [|done].
  apply Hg. by eapply object_item_parsed.
Qed.
