(* ===== verification/CsvClient.v ===== *)
(** * CSV client (src/drivers/modules/CsvClient.h,
    src/drivers/modules/CsvClient.cpp)

    A file of rows is loaded into a hash table keyed by one field; a number
    is looked up in it. *)
From stdpp Require Import vector.
From S2P Require Import Prelude.
From S2P Require Import CLib.
From S2P Require Import Exceptions.

(** ** Definitions *)

Definition newline : ascii := chr 10.

(** [struct SRow]: the vector of fields is made with its size. *)
Record SRow (n : nat) : Type := { row_id : Z; field : vec str n }.
Arguments row_id {n} _.
Arguments field {n} _.

(** [CCsvClient]: [mHash]; every row has the same number of fields. *)
Abbreviation hash_t n := (gmap str (SRow n)).

(** The loop over the fields of one line: [n] fields are left to read, the
    first of them is number [idx], from what is left of the line. *)
Fixpoint read_fields (n : nat) (idx lineCnt : Z) (lineStream : str) : M (vec str n) :=
  match n with
  | O => mret [#]
  | S n' =>
      match getline "," lineStream with
      | None => throw_csv #"unexpected format field %zu at line %zu"
                  [AInt (idx + 1); AInt lineCnt]
      | Some (token, rest) =>
          fields ← read_fields n' (idx + 1) lineCnt rest;
          mret (token ::: fields)
      end
  end.

Definition not_empty (s : str) : bool := match s with [] => false | _ => true end.

(** One turn of the loop over the lines of the file. *)
Definition load_line {n : nat} (primaryIdx lineCnt : Z) (line : str) (hash : hash_t n)
  : M (hash_t n) :=
  match line with
  | [] => mret hash
  | _ =>
      csvField ← read_fields n 0 lineCnt line;
      let validityCnt := Z.of_nat (length (List.filter not_empty (vec_to_list csvField))) in
      let requiredFieldsCnt := (Z.of_nat n - 1)%Z in
      if (validityCnt <? requiredFieldsCnt)%Z
      then throw_csv #"required at least %zu valid fields in the line %zu"
             [AInt (Z.of_nat n); AInt lineCnt]
      else
        key ← deref (vec_to_list csvField !! Z.to_nat primaryIdx);
        mret match hash !! key with
             | Some _ => hash
             | None => <[key := Build_SRow n lineCnt csvField]> hash
             end
  end.

Fixpoint load_lines {n : nat} (primaryIdx lineCnt : Z) (lines : list str) (hash : hash_t n)
  : M (hash_t n) :=
  match lines with
  | [] => mret hash
  | line :: rest =>
      hash ← load_line primaryIdx (lineCnt + 1) line hash;
      load_lines primaryIdx (lineCnt + 1) rest hash
  end.

Section Load.

(** The file system: the bytes of a file that can be opened. *)
Variable open_file : str → option str.

(** [loadCsvFile] *)
Definition loadCsvFile {fieldsNumber : nat} (hash : hash_t fieldsNumber)
  (fileName : option str) (primaryIdx : Z) : M (hash_t fieldsNumber) :=
  match fileName with
  | None => throw_csv #"not specified the path to CSV file" []
  | Some fileName =>
      if (fieldsNumber =? 0)%nat
      then throw_csv #"invalid value for CSV values in the row" []
      else match open_file fileName with
           | None => throw_csv #"could not open file: %s" [AStr fileName]
           | Some content => load_lines primaryIdx 0 (getlines newline content) hash
           end
  end.

(** [CCsvClient::CCsvClient] *)
Definition CCsvClient (filePath : option str) (primaryField : Z) (fieldsNumber : nat)
  : M (hash_t fieldsNumber) :=
  loadCsvFile ∅ filePath primaryField.

End Load.

(** [CCsvClient::perform(const char * number)] *)
Definition perform_ptr {n} (mHash : hash_t n) (number : option str) : M (option (SRow n)) :=
  match number with
  | None => throw_csv #"not specified number for searching" []
  | Some number => mret (mHash !! c_str number)
  end.

(** [CCsvClient::perform(const string & number)] *)
Definition perform {n} (mHash : hash_t n) (number : str) : M (option (SRow n)) :=
  perform_ptr mHash (Some (c_str number)).

(** *** Specification *)

(** A row of a file: the number of its line and its first fields. *)
Record csv_row : Type := { line_number : Z; texts : list str }.

Definition erase {n} (r : SRow n) : csv_row :=
  {| line_number := row_id r; texts := vec_to_list (field r) |}.

(** The rows of a file: one for each line that is not empty. *)
Definition rows_from (i : Z) (n : nat) (lines : list str) : list csv_row :=
  omap (fun '(i, line) =>
          if not_empty line
          then Some {| line_number := i; texts := take n (getlines "," line) |}
          else None)
    (zip (seqZ i (Z.of_nat (length lines))) lines).

Definition csv_rows (n : nat) (content : str) : list csv_row :=
  rows_from 1 n (getlines newline content).

(** A row that is taken: all its fields are there and at most one of them is
    empty. *)
Definition row_valid (n : nat) (r : csv_row) : bool :=
  (length (texts r) =? n)%nat &&
  (n - 1 <=? length (List.filter not_empty (texts r)))%nat.

Definition has_key (primaryIdx : Z) (key : str) (r : csv_row) : bool :=
  bool_decide (texts r !! Z.to_nat primaryIdx = Some key).

(** ** Lemmas *)

Lemma read_fields_spec (n : nat) (idx lineCnt : Z) (s : str) :
  if (length (take n (getlines "," s)) =? n)%nat
  then ∃ v, read_fields n idx lineCnt s = Ret v ∧ vec_to_list v = take n (getlines "," s)
  else ∃ w, read_fields n idx lineCnt s = Throw (CsvError w).
Proof.
  revert idx s. induction n as [|n IH]; intros idx s; [by exists [#]|]. cbn [read_fields].
  rewrite getlines_eq. destruct (getline "," s) as [[t r]|]; [|by eexists].
  cbn [take length Nat.eqb]. specialize (IH (idx + 1)%Z r).
  destruct (length (take n (getlines "," r)) =? n)%nat.
  - destruct IH as (v & -> & Hv). exists (t ::: v). split; [done|]. cbn. by rewrite Hv.
  - destruct IH as [w ->]. by exists w.
Qed.

(** What one line does. *)
Lemma load_line_spec (n : nat) (primaryIdx i : Z) (line : str) (hash : hash_t n) :
  Z.to_nat primaryIdx < n → line ≠ [] →
  let r := {| line_number := i; texts := take n (getlines "," line) |} in
  if row_valid n r then
    ∃ key x, texts r !! Z.to_nat primaryIdx = Some key ∧ erase x = r ∧
      load_line primaryIdx i line hash
      = Ret (match hash !! key with Some _ => hash | None => <[key := x]> hash end)
  else ∃ w, load_line primaryIdx i line hash = Throw (CsvError w).
Proof.
  intros Hp Hne r. unfold load_line. destruct line as [|c line]; [done|].
  pose proof (read_fields_spec n 0 i (c :: line)) as Hr.
  unfold row_valid. change (take n (getlines "," (c :: line))) with (texts r) in Hr.
  destruct (Nat.eqb_spec (length (texts r)) n) as [E|E]; cbn [andb].
  - destruct Hr as (v & -> & Hv). rewrite bind_Ret, Hv. rewrite Nat.leb_antisym.
    destruct (Nat.ltb_spec (length (List.filter not_empty (texts r))) (n - 1)),
      (Z.ltb_spec (Z.of_nat (length (List.filter not_empty (texts r)))) (Z.of_nat n - 1));
      try lia; cbn [negb]; [by eexists|].
    destruct (lookup_lt_is_Some_2 (texts r) (Z.to_nat primaryIdx)) as [key Hk]; [lia|].
    exists key, (Build_SRow n i v). split; [done|]. split; [unfold erase; cbn; by rewrite Hv|].
    by rewrite Hk.
  - destruct Hr as [w Hr]. exists w. by rewrite Hr.
Qed.

Lemma rows_from_cons (i : Z) n (line : str) lines :
  rows_from i n (line :: lines)
  = (if not_empty line
     then [ {| line_number := i; texts := take n (getlines "," line) |} ]
     else []) ++ rows_from (i + 1) n lines.
Proof.
  unfold rows_from. cbn [length]. rewrite Nat2Z.inj_succ.
  rewrite seqZ_cons by lia. rewrite Z.pred_succ, <- Z.add_1_r.
  cbn [zip zip_with omap list_omap]. by destruct (not_empty line).
Qed.

Lemma load_lines_spec (n : nat) (primaryIdx i : Z) (lines : list str) (hash : hash_t n) :
  Z.to_nat primaryIdx < n →
  if forallb (row_valid n) (rows_from (i + 1) n lines) then
    ∃ h, load_lines primaryIdx i lines hash = Ret h ∧
      ∀ key, erase <$> h !! key
             = match hash !! key with
               | Some r => Some (erase r)
               | None => List.find (has_key primaryIdx key) (rows_from (i + 1) n lines)
               end
  else ∃ w, load_lines primaryIdx i lines hash = Throw (CsvError w).
Proof.
  intros Hp. revert i hash. induction lines as [|line lines IH]; intros i hash.
  { exists hash. split; [done|]. intros key. by destruct (hash !! key). }
  rewrite rows_from_cons. cbn [load_lines]. destruct (not_empty line) eqn:E.
  2: { destruct line; [|done]. exact (IH (i + 1)%Z hash). }
  assert (Hne : line ≠ []) by (by intros ->).
  pose proof (load_line_spec n primaryIdx (i + 1) line hash Hp Hne) as Hl.
  cbv zeta in Hl. set (r := {| line_number := (i + 1)%Z; texts := _ |}) in *.
  cbn [app forallb].
  destruct (row_valid n r); cbn [andb]; [|destruct Hl as [w ->]; by exists w].
  destruct Hl as (key & x & Hk & Hx & ->). rewrite bind_Ret.
  set (hash1 := match hash !! key with Some _ => hash | None => <[key := x]> hash end).
  specialize (IH (i + 1)%Z hash1).
  destruct (forallb _ _); [|done]. destruct IH as (h & -> & Hh). exists h. split; [done|].
  intros k. rewrite Hh. cbn [List.find app]. unfold has_key at 2. rewrite Hk.
  unfold hash1. destruct (decide (key = k)) as [->|Hkk].
  - rewrite bool_decide_true by done. destruct (hash !! k) eqn:Eh; [by rewrite Eh|].
    by rewrite lookup_insert_eq, Hx.
  - rewrite bool_decide_false by congruence.
    destruct (hash !! key); [done|]. by rewrite lookup_insert_ne.
Qed.

(** ** Properties *)

(** C33. The CSV table is its file: when every line that is not empty has all
    its fields and at most one of them empty, the client is built and a
    number is found exactly when some row has it, with the fields of the
    first such row; any other line makes the constructor throw its own
    error. *)
Theorem csv_first_row (open_file : str → option str) (path content : str) (primaryField : Z)
    (n : nat) (number : str) :
  Z.to_nat primaryField < n → open_file path = Some content →
  if forallb (row_valid n) (csv_rows n content) then
    ∃ h o, CCsvClient open_file (Some path) primaryField n = Ret h ∧
      perform h number = Ret o ∧
      erase <$> o = List.find (has_key primaryField (c_str number)) (csv_rows n content)
  else ∃ w, CCsvClient open_file (Some path) primaryField n = Throw (CsvError w).
Proof.
  intros Hp Hf. unfold CCsvClient, loadCsvFile.
  destruct (Nat.eqb_spec n 0); [lia|]. rewrite Hf.
  pose proof (load_lines_spec n primaryField 0 (getlines newline content) ∅ Hp) as Hl.
  change (0 + 1)%Z with 1%Z in Hl. fold (csv_rows n content) in Hl.
  destruct (forallb _ _); [|done]. destruct Hl as (h & -> & Hh).
  exists h, (h !! c_str number). split; [done|].
  unfold perform, perform_ptr. rewrite c_str_idemp. split; [done|]. by rewrite Hh, lookup_empty.
Qed.

Definition sample_csv : str :=
  #"0730,AT,0901" ++ [newline; newline] ++ #"0731,,0902" ++ [newline] ++ #"0730,XX,0999".

Lemma csv_first_row_witness :
  ∃ h o, CCsvClient (fun _ => Some sample_csv) (Some #"f") 0 3 = Ret h ∧
    perform h #"0730" = Ret o ∧
    erase <$> o = Some {| line_number := 1; texts := [ #"0730"; #"AT"; #"0901"] |}.
Proof.
  exact (csv_first_row (fun _ => Some sample_csv) #"f" sample_csv 0 3 #"0730"
           ltac:(vm_compute; lia) eq_refl).
Defined.
