(* ===== verification/UrlTemplate.v ===== *)
(** * URL templates (src/drivers/CnamHttpDriver.h,
    src/drivers/CnamHttpDriver.cpp: [TemplateProcessor])

    A template is split into static parts and placeholders in braces; a URL
    is made from it with the members of a JSON object. *)
From S2P Require Import Prelude.
From S2P Require Import CLib.
From S2P Require Import Exceptions.
From S2P Require Import CFloat.
From S2P Require Import CJson.
From S2P Require Import CJsonTree.

(** ** Definitions *)

(** [struct UriPart] *)
Inductive UriPart : Type :=
  | URI_PART_STRING (data : str)
  | URI_PART_PLACEHOLDER (data : str).

#[export] Instance UriPart_eq_dec : EqDecision UriPart.
Proof. solve_decision. Defined.

Inductive template_state : Type := ST_NORMAL | ST_PLACEHOLDER.

(** [s.substr(pos, n)] *)
Definition substr (s : str) (pos n : nat) : str := take n (drop pos s).

Section Parse.

Variable url : str.

(** The loop over [url] from index [i]; [rest] are the characters from [i]
    on.  It ends with [i == url.size()]. *)
Fixpoint template_loop (rest : str) (i pos : nat) (state : template_state)
  (uri_parts : list UriPart) : M (list UriPart) :=
  match rest with
  | [] =>
      match state with
      | ST_PLACEHOLDER => throw_runtime #"unclosed placeholder in the url template"
      | ST_NORMAL =>
          mret (if (pos <? i)%nat then uri_parts ++ [URI_PART_STRING (substr url pos (i - pos))]
                else uri_parts)
      end
  | c :: rest =>
      match state with
      | ST_NORMAL =>
          if Ascii.eqb c "{" then
            template_loop rest (S i) (i + 1) ST_PLACEHOLDER
              (if (pos <? i)%nat then uri_parts ++ [URI_PART_STRING (substr url pos (i - pos))]
               else uri_parts)
          else if Ascii.eqb c "}" then throw_runtime #"unexpected '}' in the url template"
          else template_loop rest (S i) pos ST_NORMAL uri_parts
      | ST_PLACEHOLDER =>
          if Ascii.eqb c "}" then
            if (i - pos <? 1)%nat
            then throw_runtime #"empty placeholder in the url template"
            else template_loop rest (S i) (i + 1) ST_NORMAL
                   (uri_parts ++ [URI_PART_PLACEHOLDER (substr url pos (i - pos))])
          else if Ascii.eqb c "{" then throw_runtime #"unexpected '{' in the url template"
          else template_loop rest (S i) pos ST_PLACEHOLDER uri_parts
      end
  end.

End Parse.

(** [TemplateProcessor::parse_url_template] on an empty list of parts. *)
Definition parse_url_template (url : str) : M (list UriPart) :=
  template_loop url url 0 0 ST_NORMAL [].

(** The text a member stands for in a URL. *)
Definition member_text (key : str) (item : cJSON) : M str :=
  if (jtype item =? cJSON_String)%Z then c_str <$> deref (valuestring item)
  else if (jtype item =? cJSON_Number)%Z then mret (to_string (valueint item))
  else if (jtype item =? cJSON_True)%Z then mret #"1"
  else if (jtype item =? cJSON_False)%Z then mret #"0"
  else throw_driver #"unsupported hash item type %d by key '%s'"
         [AInt (jtype item); AStr key].

(** [TemplateProcessor::get_url] *)
Fixpoint get_url (uri_parts : list UriPart) (j : cJSON) : M str :=
  match uri_parts with
  | [] => mret []
  | URI_PART_STRING data :: rest =>
      ret ← get_url rest j; mret (data ++ ret)
  | URI_PART_PLACEHOLDER data :: rest =>
      text ← match cJSON_GetObjectItem (Some j) (Some data) with
             | None => throw_driver #"missed required key '%s' in request" [AStr data]
             | Some item => member_text data item
             end;
      ret ← get_url rest j;
      mret (text ++ ret)
  end.

(** *** Specification *)

Definition render_part (p : UriPart) : str :=
  match p with
  | URI_PART_STRING s => s
  | URI_PART_PLACEHOLDER k => #"{" ++ k ++ #"}"
  end.

Definition render_template (l : list UriPart) : str := concat (map render_part l).

Definition is_brace (c : ascii) : bool := Ascii.eqb c "{" || Ascii.eqb c "}".

Definition plain (s : str) : Prop := Forall (fun c => is_brace c = false) s.

(** Parts are not empty and have no brace, and no static part follows
    another. *)
Inductive parts_ok : bool → list UriPart → Prop :=
  | parts_nil b : parts_ok b []
  | parts_string s l : s ≠ [] → plain s → parts_ok false l →
      parts_ok true (URI_PART_STRING s :: l)
  | parts_placeholder b k l : k ≠ [] → plain k → parts_ok true l →
      parts_ok b (URI_PART_PLACEHOLDER k :: l).

(** The text a placeholder is replaced by, when there is one. *)
Definition placeholder_text (j : cJSON) (key : str) : option str :=
  item ← List.find (fun c => bool_decide (same_name key (name c))) (child j);
  if (jtype item =? cJSON_String)%Z then c_str <$> valuestring item
  else if (jtype item =? cJSON_Number)%Z then Some (to_string (valueint item))
  else if (jtype item =? cJSON_True)%Z then Some #"1"
  else if (jtype item =? cJSON_False)%Z then Some #"0"
  else None.

Definition part_text (j : cJSON) (p : UriPart) : option str :=
  match p with
  | URI_PART_STRING s => Some s
  | URI_PART_PLACEHOLDER k => placeholder_text j k
  end.

(** The loop without indices: [cur] are the characters since [pos]. *)
Definition flush (cur : str) : list UriPart :=
  match cur with [] => [] | _ => [URI_PART_STRING cur] end.

Fixpoint scan (rest cur : str) (state : template_state) (acc : list UriPart)
  : M (list UriPart) :=
  match rest with
  | [] =>
      match state with
      | ST_PLACEHOLDER => throw_runtime #"unclosed placeholder in the url template"
      | ST_NORMAL => mret (acc ++ flush cur)
      end
  | c :: rest =>
      match state with
      | ST_NORMAL =>
          if Ascii.eqb c "{" then scan rest [] ST_PLACEHOLDER (acc ++ flush cur)
          else if Ascii.eqb c "}" then throw_runtime #"unexpected '}' in the url template"
          else scan rest (cur ++ [c]) ST_NORMAL acc
      | ST_PLACEHOLDER =>
          if Ascii.eqb c "}" then
            match cur with
            | [] => throw_runtime #"empty placeholder in the url template"
            | _ => scan rest [] ST_NORMAL (acc ++ [URI_PART_PLACEHOLDER cur])
            end
          else if Ascii.eqb c "{" then throw_runtime #"unexpected '{' in the url template"
          else scan rest (cur ++ [c]) ST_PLACEHOLDER acc
      end
  end.

(** ** Lemmas: the loop *)

Lemma substr_mid (a cur rest : str) : substr (a ++ cur ++ rest) (length a) (length cur) = cur.
Proof. unfold substr. by rewrite drop_app_length, take_app_length. Qed.

Lemma flush_substr a cur rest acc :
  (if (length a <? length a + length cur)%nat
   then acc ++ [URI_PART_STRING (substr (a ++ cur ++ rest) (length a)
                                   (length a + length cur - length a))]
   else acc) = acc ++ flush cur.
Proof.
  replace (length a + length cur - length a) with (length cur) by lia. rewrite substr_mid.
  destruct cur as [|c cur]; cbn [length flush].
  - destruct (Nat.ltb_spec (length a) (length a + 0)); [lia|]. by rewrite app_nil_r.
  - destruct (Nat.ltb_spec (length a) (length a + S (length cur))); [done|lia].
Qed.

Lemma template_loop_scan url rest a cur st acc :
  url = a ++ cur ++ rest →
  template_loop url rest (length a + length cur) (length a) st acc = scan rest cur st acc.
Proof.
  revert a cur st acc. induction rest as [|c rest IH]; intros a cur st acc ->;
    cbn [template_loop scan].
  - destruct st; [|done]. by rewrite flush_substr.
  - assert (Hnext : ∀ st acc, template_loop (a ++ cur ++ c :: rest) rest
        (S (length a + length cur)) (length a) st acc = scan rest (cur ++ [c]) st acc).
    { intros st' acc'. rewrite <- (IH a); [|by rewrite <- app_assoc].
      f_equal. rewrite length_app. cbn. lia. }
    assert (Hreset : ∀ st acc, template_loop (a ++ cur ++ c :: rest) rest
        (S (length a + length cur)) (length a + length cur + 1) st acc = scan rest [] st acc).
    { intros st' acc'. rewrite <- (IH (a ++ cur ++ [c])); [|by rewrite <- !app_assoc].
      rewrite !length_app. cbn [length]. f_equal; lia. }
    destruct st.
    + rewrite flush_substr, Hreset, Hnext. done.
    + replace (length a + length cur - length a) with (length cur) by lia.
      rewrite substr_mid, Hreset, Hnext. by destruct cur.
Qed.

Lemma parse_url_template_scan url : parse_url_template url = scan url [] ST_NORMAL [].
Proof. by apply (template_loop_scan url url [] []). Qed.

(** ** Lemmas: the grammar *)

Lemma render_app l1 l2 : render_template (l1 ++ l2) = render_template l1 ++ render_template l2.
Proof. unfold render_template. by rewrite map_app, concat_app. Qed.

Lemma render_flush cur : render_template (flush cur) = cur.
Proof. destruct cur; [done|]. cbn. by rewrite app_nil_r. Qed.

Lemma parts_ok_weaken b l : parts_ok b l → parts_ok true l.
Proof. destruct 1; by constructor. Qed.

(** May a static part follow these parts? *)
Fixpoint after (b : bool) (l : list UriPart) : bool :=
  match l with
  | [] => b
  | URI_PART_STRING _ :: l => after false l
  | URI_PART_PLACEHOLDER _ :: l => after true l
  end.

Lemma parts_ok_app b l1 l2 :
  parts_ok b l1 → parts_ok (after b l1) l2 → parts_ok b (l1 ++ l2).
Proof. induction 1; cbn; intros; [done|constructor; auto..]. Qed.

Lemma after_app b l1 l2 : after b (l1 ++ l2) = after (after b l1) l2.
Proof. revert b. induction l1 as [|[] l1 IH]; intros b; cbn; auto. Qed.

Lemma flush_ok cur : plain cur → parts_ok true (flush cur).
Proof. destruct cur; constructor; [done|done|constructor]. Qed.

Lemma plain_snoc cur c : plain cur → is_brace c = false → plain (cur ++ [c]).
Proof. intros. apply Forall_app. split; [done|]. by constructor. Qed.

(** What the loop accepts is the text of the parts it gives. *)
Lemma scan_sound rest cur st acc parts :
  plain cur → parts_ok true acc → (st = ST_NORMAL → after true acc = true) →
  scan rest cur st acc = Ret parts →
  parts_ok true parts ∧
  render_template parts
  = render_template acc ++ match st with ST_NORMAL => [] | ST_PLACEHOLDER => #"{" end ++ cur ++ rest.
Proof.
  revert cur st acc. induction rest as [|c rest IH]; intros cur st acc Hc Hacc Hb; cbn [scan].
  - destruct st; [|done]. intros [= <-]. rewrite render_app, render_flush, app_nil_r.
    split; [|done]. apply parts_ok_app; [done|]. rewrite Hb by done. by apply flush_ok.
  - destruct st.
    + specialize (Hb eq_refl).
      destruct (Ascii.eqb_spec c "{") as [->|H1].
      { intros H. apply IH in H as [Ho E]; [|constructor| |done].
        - split; [done|]. rewrite E, render_app, render_flush. by rewrite <- app_assoc.
        - apply parts_ok_app; [done|]. rewrite Hb. by apply flush_ok. }
      destruct (Ascii.eqb_spec c "}") as [->|H2]; [done|].
      intros H. apply IH in H as [Ho E]; [|apply plain_snoc; [done|]|done|done].
      * split; [done|]. rewrite E. cbn [app]. by rewrite <- app_assoc.
      * unfold is_brace. by rewrite (proj2 (Ascii.eqb_neq _ _) H1), (proj2 (Ascii.eqb_neq _ _) H2).
    + destruct (Ascii.eqb_spec c "}") as [->|H1].
      { destruct cur as [|x cur]; [done|]. intros H. apply IH in H as [Ho E]; [|constructor| |].
        - split; [done|]. rewrite E, render_app. cbn. rewrite app_nil_r, <- !app_assoc. cbn.
          by rewrite <- app_assoc.
        - apply parts_ok_app; [done|]. by constructor; [..|constructor].
        - intros _. by rewrite after_app. }
      destruct (Ascii.eqb_spec c "{") as [->|H2]; [done|].
      intros H. apply IH in H as [Ho E]; [|apply plain_snoc; [done|]|done|done].
      * split; [done|]. rewrite E. by rewrite <- app_assoc.
      * unfold is_brace. by rewrite (proj2 (Ascii.eqb_neq _ _) H1), (proj2 (Ascii.eqb_neq _ _) H2).
Qed.

Lemma scan_plain s rest cur st acc :
  plain s → scan (s ++ rest) cur st acc = scan rest (cur ++ s) st acc.
Proof.
  revert cur. induction s as [|c s IH]; intros cur Hs; [by rewrite app_nil_r|].
  apply Forall_cons in Hs as [Hc Hs]. unfold is_brace in Hc. apply orb_false_iff in Hc as [H1 H2].
  cbn [app scan]. rewrite H1, H2. destruct st; by rewrite IH, <- app_assoc.
Qed.

(** The parts are found again in their text. *)
Lemma scan_complete b l acc :
  parts_ok b l → b = true →
  scan (render_template l) [] ST_NORMAL acc = Ret (acc ++ l).
Proof.
  assert (Hph : ∀ k l acc, k ≠ [] → plain k →
    scan (render_template (URI_PART_PLACEHOLDER k :: l)) [] ST_NORMAL acc
    = scan (render_template l) [] ST_NORMAL (acc ++ [URI_PART_PLACEHOLDER k])).
  { intros k l' acc' Hne Hk. cbn. rewrite app_nil_r, <- app_assoc, scan_plain by done. cbn.
    destruct k; [done|]. done. }
  revert b acc. assert (Hgen : ∀ b l, parts_ok b l → ∀ acc,
    (b = true → scan (render_template l) [] ST_NORMAL acc = Ret (acc ++ l)) ∧
    (b = false → ∀ s, s ≠ [] → plain s →
       scan (render_template l) s ST_NORMAL acc = Ret (acc ++ URI_PART_STRING s :: l))).
  { induction 1 as [b|s l' Hne Hs _ IH|b k l' Hne Hk _ IH]; intros acc.
    - split; [done|]. intros _ s Hne Hs. cbn. by destruct s.
    - split; [|done]. intros _. change (render_template _) with (s ++ render_template l').
      rewrite scan_plain by done. rewrite app_nil_l. by apply (proj2 (IH acc)).
    - split; intros ->.
      + rewrite Hph by done. rewrite (proj1 (IH _) eq_refl). by rewrite <- app_assoc.
      + intros s Hs Hps. cbn. rewrite <- app_assoc, scan_plain by done. cbn.
        destruct k; [done|]. fold (render_template l'). rewrite (proj1 (IH _) eq_refl).
        destruct s; [done|]. by rewrite <- !app_assoc. }
  intros b acc Hl Hb. by apply Hgen with (b := b).
Qed.

Lemma get_url_spec l j :
  Forall (fun p => match p with URI_PART_PLACEHOLDER k =>
     ∀ item, cJSON_GetObjectItem (Some j) (Some k) = Some item →
             jtype item = cJSON_String → is_Some (valuestring item) | _ => True end) l →
  match mapM (part_text j) l with
  | Some texts => get_url l j = Ret (concat texts)
  | None => ∃ w, get_url l j = Throw (DriverError w)
  end.
Proof.
  induction 1 as [|p l Hp _ IH]; [done|]. cbn [mapM get_url]. destruct p as [s|k].
  - cbn. destruct (mapM (part_text j) l); cbn; [by rewrite IH|]. destruct IH as [w ->]. by exists w.
  - cbn [part_text]. unfold placeholder_text. rewrite cJSON_GetObjectItem_spec in Hp |- *.
    destruct (List.find _ (child j)) as [item|]; cbn [mbind option_bind]; [|by eexists].
    specialize (Hp item eq_refl). unfold member_text.
    destruct (Z.eqb_spec (jtype item) cJSON_String) as [Hs|_].
    { destruct (Hp Hs) as [s ->]. cbn. destruct (mapM (part_text j) l); cbn; [by rewrite IH|].
      destruct IH as [w ->]. by exists w. }
    destruct (jtype item =? cJSON_Number)%Z; [|destruct (jtype item =? cJSON_True)%Z;
      [|destruct (jtype item =? cJSON_False)%Z; [|by eexists]]];
      cbn; (destruct (mapM (part_text j) l); cbn; [by rewrite IH|]); destruct IH as [w ->]; by exists w.
Qed.

(** ** Properties *)

(** C32. The template grammar: [parse_url_template] accepts a URL exactly when
    it is the text of a sequence of parts (none empty, none with a brace,
    no two static parts in a row), and gives that sequence: parsing and
    printing are inverse. *)
Theorem template_roundtrip (url : str) (parts : list UriPart) :
  parse_url_template url = Ret parts ↔ url = render_template parts ∧ parts_ok true parts.
Proof.
  rewrite parse_url_template_scan. split.
  - intros H. apply scan_sound in H as [Ho E]; [|constructor|constructor|done]. done.
  - intros [-> Hok]. by apply (scan_complete true _ []).
Qed.
