(* ===== verification/DriverConfig.v ===== *)
(** * Driver configuration (src/drivers/DriverDefines.h,
    src/drivers/DriverConfig.h, src/drivers/DriverConfig.cpp)

    The kind of a driver and the common part of its configuration, read from
    a database row or from the JSON text of one of its columns. *)
From S2P Require Import Prelude.
From S2P Require Import CLib.
From S2P Require Import Exceptions.
From S2P Require Import CFloat.
From S2P Require Import CJson.
From S2P Require Import CJsonTree.
From S2P Require Import JsonHelpers.

(** ** Definitions *)

(** *** Rows

    What the program uses of [pqxx::row]: for a column name, the type of the
    field, its text, and its value converted with and without a default.
    The conversion to an integral type of range [lo .. hi] gives the default
    for a null field. *)
Class PqxxRow (Row : Type) : Type := {
  field_type : Row → str → M Z;
  field_c_str : Row → str → M (option str);
  field_as_int : Row → str → (Z * Z) → Z → M Z;
  field_as_string : Row → str → M str
}.

Definition int32_range : Z * Z := (INT_MIN, INT_MAX).
Definition uint32_range : Z * Z := (0, 2 ^ 32 - 1)%Z.
Definition uint16_range : Z * Z := (0, 2 ^ 16 - 1)%Z.

(** Documented behaviour of libpqxx: its functions return or throw its own
    exceptions, and a converted value is in the range of its type (a default
    is given back as it is). *)
Class PqxxRowLaws (Row : Type) `{PqxxRow Row} : Prop := {
  field_type_returns row col :
    (∃ t, field_type row col = Ret t) ∨ ∃ w, field_type row col = Throw (PqxxError w);
  field_c_str_returns row col :
    (∃ s, field_c_str row col = Ret s) ∨ ∃ w, field_c_str row col = Throw (PqxxError w);
  field_as_int_returns row col range d :
    (∃ n, field_as_int row col range d = Ret n ∧
          (n = d ∨ (fst range ≤ n ≤ snd range)%Z))
    ∨ ∃ w, field_as_int row col range d = Throw (PqxxError w);
  field_as_string_returns row col :
    (∃ s, field_as_string row col = Ret s) ∨ ∃ w, field_as_string row col = Throw (PqxxError w)
}.

(** *** Driver kinds *)

(** [enum class ECDriverId : uint8_t] *)
Inductive ECDriverId : Type :=
  | ERESOLVER_DRIVER_NULL
  | ERESOLVER_DRIVER_SIP
  | ERESOLVER_DRIVER_HTTP_THINQ
  | ERESOLVER_DRIVER_MHASH_CSV
  | ERESOLVER_DRIVER_HTTP_ALCAZAR
  | ERESOLVER_DIRVER_HTTP_COUREANQ
  | ERESOLVER_DIRVER_CNAM_HTTP
  | ERESOLVER_DIRVER_HTTP_BULKVS
  | ERESOLVER_DRIVER_MAX_ID.

#[export] Instance ECDriverId_eq_dec : EqDecision ECDriverId.
Proof. solve_decision. Defined.

Definition driver_id (d : ECDriverId) : Z :=
  match d with
  | ERESOLVER_DRIVER_NULL => 0 | ERESOLVER_DRIVER_SIP => 1 | ERESOLVER_DRIVER_HTTP_THINQ => 2
  | ERESOLVER_DRIVER_MHASH_CSV => 3 | ERESOLVER_DRIVER_HTTP_ALCAZAR => 4
  | ERESOLVER_DIRVER_HTTP_COUREANQ => 5 | ERESOLVER_DIRVER_CNAM_HTTP => 6
  | ERESOLVER_DIRVER_HTTP_BULKVS => 7 | ERESOLVER_DRIVER_MAX_ID => 8
  end.

(** [struct SDriverTypeMap_t] *)
Record SDriverTypeMap_t : Type := { privateId : ECDriverId; numberId : Z; stringId : str }.

Definition sDriverTypeArray : list SDriverTypeMap_t := [
  {| privateId := ERESOLVER_DRIVER_SIP; numberId := 1; stringId := #"Lnp::DatabaseSipRedirect" |};
  {| privateId := ERESOLVER_DRIVER_HTTP_THINQ; numberId := 2; stringId := #"Lnp::DatabaseThinq" |};
  {| privateId := ERESOLVER_DRIVER_MHASH_CSV; numberId := 3; stringId := #"Lnp::DatabaseCsv" |};
  {| privateId := ERESOLVER_DRIVER_HTTP_ALCAZAR; numberId := 4; stringId := #"Lnp::DatabaseAlcazar" |};
  {| privateId := ERESOLVER_DIRVER_HTTP_COUREANQ; numberId := 5;
     stringId := #"Lnp::DatabaseCoureAnq" |};
  {| privateId := ERESOLVER_DIRVER_CNAM_HTTP; numberId := 6; stringId := #"Cnam::DatabaseHttp" |};
  {| privateId := ERESOLVER_DIRVER_HTTP_BULKVS; numberId := 7; stringId := #"Lnp::DatabaseBulkvs" |}
].

(** *** Configuration formats *)

(** [enum ECfgFormat_t] *)
Inductive ECfgFormat_t : Type :=
  | ECONFIG_DATA_INVALID
  | ECONFIG_DATA_AS_SEPARATE_COLUMN_V1
  | ECONFIG_DATA_AS_SEPARATE_COLUMN_V2
  | ECONFIG_DATA_AS_JSON_STRING
  | ECONFIG_DATA_NOT_SUPPORTED.

#[export] Instance ECfgFormat_t_eq_dec : EqDecision ECfgFormat_t.
Proof. solve_decision. Defined.

Definition cfg_format (f : ECfgFormat_t) : Z :=
  match f with
  | ECONFIG_DATA_INVALID => 0 | ECONFIG_DATA_AS_SEPARATE_COLUMN_V1 => 1
  | ECONFIG_DATA_AS_SEPARATE_COLUMN_V2 => 2 | ECONFIG_DATA_AS_JSON_STRING => 3
  | ECONFIG_DATA_NOT_SUPPORTED => 4
  end.

Definition defaultTimeout : Z := 4000.

(** [CDriverCfg::getFormatStrType] *)
Definition getFormatStrType (sConfigType : ECfgFormat_t) : str :=
  match sConfigType with
  | ECONFIG_DATA_AS_SEPARATE_COLUMN_V1 => #"separate column configuration (ver. 1)"
  | ECONFIG_DATA_AS_SEPARATE_COLUMN_V2 => #"separate column configuration (ver. 2)"
  | ECONFIG_DATA_AS_JSON_STRING => #"JSON format configuration"
  | _ => #"unknown configuration"
  end.

(** One of the two column formats, and the JSON one. *)
Definition as_columns (sConfigType : ECfgFormat_t) : bool :=
  bool_decide (sConfigType = ECONFIG_DATA_AS_SEPARATE_COLUMN_V1) ||
  bool_decide (sConfigType = ECONFIG_DATA_AS_SEPARATE_COLUMN_V2).
Definition as_json (sConfigType : ECfgFormat_t) : bool :=
  bool_decide (sConfigType = ECONFIG_DATA_AS_JSON_STRING).

Section Config.
Context {Row : Type} `{!PqxxRow Row}.

(** [try { if (data[col].type()) { ...; break; } }
     catch (const pqxx::pqxx_exception &) { }] *)
Definition has_column (data : Row) (col : str) : M bool :=
  try_catch (t ← field_type data col; mret (negb (t =? 0)%Z))
    (fun e => match e with PqxxError _ => mret false | _ => mthrow e end).

(** The detection block of [CDriverCfg::getID]: the new [sConfigType]. *)
Definition detect_format (data : Row) (sConfigType : ECfgFormat_t) : M ECfgFormat_t :=
  if (cfg_format sConfigType <=? cfg_format ECONFIG_DATA_INVALID)%Z then
    j ← has_column data #"parameters";
    if (j : bool) then mret ECONFIG_DATA_AS_JSON_STRING else
    v2 ← has_column data #"o_alkazar_key";
    if (v2 : bool) then mret ECONFIG_DATA_AS_SEPARATE_COLUMN_V2 else
    v1 ← has_column data #"o_thinq_token";
    if (v1 : bool) then mret ECONFIG_DATA_AS_SEPARATE_COLUMN_V1 else
    mret sConfigType
  else mret sConfigType.

(** [find_if(...)->privateId]: the end of the array cannot be
    dereferenced. *)
Definition find_driver_type (p : SDriverTypeMap_t → bool) : M ECDriverId :=
  drv ← deref (List.find p sDriverTypeArray);
  mret (privateId drv).

(** The identifier of the driver, before the last tests. *)
Definition raw_driver_id (data : Row) : M ECDriverId :=
  try_catch
    (strId ← field_c_str data #"database_type";
     match strId with
     | None => mret ERESOLVER_DRIVER_NULL
     | Some strId =>
         if (strlen strId =? 0)%nat then mret ERESOLVER_DRIVER_NULL
         else find_driver_type (fun d => strcmp_eq strId (stringId d))
     end)
    (fun e => match e with
              | PqxxError _ =>
                  numId ← field_as_int data #"o_driver_id" uint16_range 0;
                  if (0 <? numId)%Z then find_driver_type (fun d => (numId =? numberId d)%Z)
                  else mret ERESOLVER_DRIVER_NULL
              | _ => mthrow e
              end).

(** The last tests of [CDriverCfg::getID]. *)
Definition checked_driver_id (sConfigType : ECfgFormat_t) (driverId : ECDriverId) : ECDriverId :=
  if (driver_id ERESOLVER_DRIVER_MAX_ID <=? driver_id driverId)%Z then ERESOLVER_DRIVER_NULL
  else if bool_decide (driverId = ERESOLVER_DRIVER_HTTP_ALCAZAR)
          && (cfg_format sConfigType <=? cfg_format ECONFIG_DATA_AS_SEPARATE_COLUMN_V1)%Z
  then ERESOLVER_DRIVER_NULL
  else driverId.

(** [CDriverCfg::getID]; the state is the static [sConfigType]. *)
Definition getID (data : Row) : stM exn ECfgFormat_t ECDriverId :=
  sConfigType ← get;
  sConfigType ← lift (detect_format data sConfigType);
  modify (fun _ => sConfigType);;
  driverId ← lift (raw_driver_id data);
  mret (checked_driver_id sConfigType driverId).

(** *** Getters *)

Variable sConfigType : ECfgFormat_t.

Definition getRawUniqId (data : Row) : M Z :=
  if as_columns sConfigType then field_as_int data #"o_id" int32_range (-1)
  else if as_json sConfigType then field_as_int data #"id" int32_range (-1)
  else mret (-1)%Z.

Definition getRawLabel (data : Row) : M str :=
  if as_columns sConfigType then field_as_string data #"o_name"
  else if as_json sConfigType then field_as_string data #"name"
  else mret [].

Definition getRawTimeout (data : Row) : M Z :=
  if as_columns sConfigType then field_as_int data #"o_timeout" uint32_range defaultTimeout
  else mret defaultTimeout.

Definition getRawPort (data : Row) : M Z :=
  if as_columns sConfigType then field_as_int data #"o_port" uint16_range 0 else mret 0%Z.

(** A string column. *)
Definition getRawColumn (col : str) (data : Row) : M str :=
  if as_columns sConfigType then field_as_string data col else mret [].

Definition getRawHost : Row → M str := getRawColumn #"o_host".
Definition getRawUserName : Row → M str := getRawColumn #"o_thinq_username".

(** The same from the JSON text. *)
Definition getJsonTimeout (data : cJSON) : M Z :=
  if as_json sConfigType then item_integral u32 <$> jsonxx_item data #"timeout"
  else mret defaultTimeout.

Definition getJsonPort (data : cJSON) : M Z :=
  if as_json sConfigType then item_integral u16 <$> jsonxx_item data #"port" else mret 0%Z.

Definition getJsonString (key : str) (data : cJSON) : M str :=
  if as_json sConfigType then i ← jsonxx_item data key; item_string i else mret [].

Definition getJsonHost : cJSON → M str := getJsonString #"host".
Definition getJsonUserName : cJSON → M str := getJsonString #"username".

(** [class CDriverCfg] *)
Record CDriverCfg : Type := { mUniqId : Z; mLabel : str }.

(** [CDriverCfg::CDriverCfg] *)
Definition new_CDriverCfg (data : Row) : M CDriverCfg :=
  mUniqId ← getRawUniqId data;
  if (mUniqId =? -1)%Z then throw_cfg_unknown #"not found driver unique identifier!" [] else
  mLabel ← getRawLabel data;
  if (length mLabel =? 0)%nat
  then throw_cfg_unknown #"not found user defined name for driver!" []
  else mret {| mUniqId := mUniqId; mLabel := mLabel |}.

(** [catch (std::exception & e) { throw error(getLabel(), e.what()); }] *)
Definition relabel {A} (label : str) (m : M A) : M A :=
  try_catch m (fun e => match std_what e with
                        | Some what => throw_cfg label what []
                        | None => mthrow e
                        end).

(** [if (0 == s.length()) throw error(getLabel(), message)] *)
Definition require_value (label s message : str) : M unit :=
  if (length s =? 0)%nat then throw_cfg label message [] else mret tt.

(** [jsonxx jData(data["parameters"].c_str())] *)
Definition json_parameters (data : Row) : M cJSON :=
  text ← field_c_str data #"parameters"; jsonxx_ptr text.

End Config.

(** *** Specification *)

(** The number and the name of the known drivers. *)
Definition known_number (n : Z) : bool := ((1 <=? n) && (n <=? 7))%Z.
Definition known_name (s : str) : bool :=
  existsb (fun d => strcmp_eq s (stringId d)) sDriverTypeArray.

(** *** Rows of texts

    A concrete row: the columns that are there, with their texts or null. *)

Definition text_row := gmap str (option str).

Definition text_column (row : text_row) (col : str) : M (option str) :=
  match row !! col with
  | Some v => Ret v
  | None => Throw (PqxxError (#"no column " ++ col))
  end.

Definition text_int (row : text_row) (col : str) (range : Z * Z) (d : Z) : M Z :=
  v ← text_column row col;
  match v with
  | None => Ret d
  | Some s =>
      let '(n, rest) := read_digits 0 s in
      if bool_decide (rest = []) && negb (bool_decide (s = [])) && (fst range <=? n)%Z && (n <=? snd range)%Z
      then Ret n else Throw (PqxxError #"could not convert")
  end.

Definition text_string (row : text_row) (col : str) : M str :=
  v ← text_column row col;
  match v with Some s => Ret s | None => Throw (PqxxError #"null") end.

#[export] Instance text_row_pqxx : PqxxRow text_row := {
  field_type row col := _ ← text_column row col; Ret 25%Z;
  field_c_str row col := v ← text_column row col; Ret (Some (default [] v));
  field_as_int := text_int;
  field_as_string := text_string
}.

(** ** Lemmas *)

#[export] Instance text_row_laws : PqxxRowLaws text_row.
Proof.
  split; intros row col; cbn -[text_int]; unfold text_int, text_string, text_column.
  - destruct (row !! col); cbn; eauto.
  - destruct (row !! col); cbn; eauto.
  - intros range d. destruct (row !! col) as [[s|]|]; cbn; eauto.
    destruct (read_digits 0 s) as [n rest].
    destruct (_ && _) eqn:E; [|by eauto]. reflect_bool. left. eauto.
  - destruct (row !! col) as [[s|]|]; cbn; eauto.
Qed.

Section Lemmas.
Context {Row : Type} `{!PqxxRow Row, !PqxxRowLaws Row}.

Lemma has_column_returns (data : Row) col : ∃ b, has_column data col = Ret b.
Proof.
  unfold has_column. destruct (field_type_returns data col) as [[t ->]|[w ->]]; by eexists.
Qed.

Lemma detect_format_returns (data : Row) f : ∃ f', detect_format data f = Ret f'.
Proof.
  unfold detect_format. destruct (_ <=? _)%Z; [|by eexists].
  destruct (has_column_returns data #"parameters") as [[] ->]; [by eexists|].
  destruct (has_column_returns data #"o_alkazar_key") as [[] ->]; [by eexists|].
  destruct (has_column_returns data #"o_thinq_token") as [[] ->]; by eexists.
Qed.

(** A format that was detected stays. *)
Lemma detect_format_keeps (data : Row) f :
  f ≠ ECONFIG_DATA_INVALID → detect_format data f = Ret f.
Proof. by destruct f. Qed.

Lemma find_number n :
  (0 < n)%Z →
  (∃ d, find_driver_type (fun d => (n =? numberId d)%Z) = Ret d ∧ driver_id d = n ∧ known_number n = true)
  ∨ find_driver_type (fun d => (n =? numberId d)%Z) = Undef ∧ known_number n = false.
Proof.
  intros Hn. destruct (known_number n) eqn:E; unfold known_number in E.
  - left. reflect_bool.
    assert (n = 1 ∨ n = 2 ∨ n = 3 ∨ n = 4 ∨ n = 5 ∨ n = 6 ∨ n = 7)%Z as Hcases by lia.
    destruct Hcases as [->|[->|[->|[->|[->|[->| ->]]]]]]; by eexists.
  - right. split; [|done]. reflect_bool. unfold find_driver_type, sDriverTypeArray.
    cbn [List.find numberId].
    repeat match goal with |- context [(n =? ?k)%Z] => destruct (Z.eqb_spec n k); [lia|] end. done.
Qed.

Lemma find_name s :
  if known_name s then ∃ d, find_driver_type (fun d => strcmp_eq s (stringId d)) = Ret d
  else find_driver_type (fun d => strcmp_eq s (stringId d)) = Undef.
Proof.
  unfold find_driver_type, known_name.
  induction sDriverTypeArray as [|x l IH]; [done|]. cbn [List.find existsb].
  destruct (strcmp_eq s (stringId x)); [by eexists|]. exact IH.
Qed.

End Lemmas.

(** ** Properties *)

(** [CDriverCfg::getID] has undefined behaviour exactly on a row that
    names no known driver: a type name that is not empty and not in the
    table, or, without the column of names, a number above 7.  On every
    other row it returns a known identifier or throws the exception of the
    database library. *)
Theorem getID_defined_iff {Row} `{!PqxxRow Row, !PqxxRowLaws Row} (data : Row) (f : ECfgFormat_t) :
  snd (getID data f) = Undef ↔
  (∃ s, field_c_str data #"database_type" = Ret (Some s) ∧ strlen s ≠ 0 ∧ known_name s = false) ∨
  (∃ w n, field_c_str data #"database_type" = Throw (PqxxError w) ∧
          field_as_int data #"o_driver_id" uint16_range 0 = Ret n ∧ (7 < n)%Z).
Proof.
  unfold getID. rewrite stM_bind_eq. cbn [get]. rewrite lift_bind.
  destruct (detect_format_returns data f) as [f' ->].
  rewrite stM_bind_eq. cbn [modify]. rewrite lift_bind.
  assert (Hgoal : snd (match raw_driver_id data with
                       | Ret a => (mret (checked_driver_id f' a) : stM exn _ _) f'
                       | Throw e => (f', Throw e) | Undef => (f', Undef) end) = Undef
                  ↔ raw_driver_id data = Undef) by by destruct (raw_driver_id data).
  rewrite Hgoal. clear Hgoal. unfold raw_driver_id.
  destruct (field_c_str_returns data #"database_type") as [[[s|] ->]|[w ->]].
  - rewrite bind_Ret. destruct (Nat.eqb_spec (strlen s) 0) as [E|E].
    { split; [done|]. intros [(s' & [= <-] & ? & _)|(w & n & [=] & _)]. done. }
    pose proof (find_name s) as Hf. destruct (known_name s) eqn:Ek.
    + destruct Hf as [d ->]. split; [done|].
      intros [(s' & [= <-] & _ & H)|(w & n & [=] & _)]. congruence.
    + rewrite Hf. split; [|done]. intros _. left. by exists s.
  - split; [done|]. intros [(s' & [=] & _)|(w & n & [=] & _)].
  - cbn [mbind outcome_mbind outcome_bind try_catch].
    destruct (field_as_int_returns data #"o_driver_id" uint16_range 0) as [(n & -> & _)|[w' ->]].
    2: { split; [done|]. intros [(s' & [=] & _)|(? & n & _ & [=] & _)]. }
    rewrite bind_Ret. destruct (Z.ltb_spec 0 n) as [Hn|Hn].
    2: { split; [done|]. intros [(s' & [=] & _)|(? & n' & _ & [= <-] & ?)]. lia. }
    destruct (find_number n Hn) as [(d & -> & _ & Hk)|[-> Hk]]; unfold known_number in Hk.
    + split; [done|]. intros [(s' & [=] & _)|(? & n' & _ & [= <-] & ?)]. reflect_bool. lia.
    + split; [|done]. intros _. right. exists w, n. split; [done|]. split; [done|].
      apply andb_false_iff in Hk as [Hk|Hk]; reflect_bool; lia.
Qed.

Lemma getID_defined_iff_witness :
  let row : text_row := {[ #"database_type" := Some #"Lnp::DatabaseSip" ]} in
  snd (getID row ECONFIG_DATA_INVALID) = Undef.
Proof.
  apply (getID_defined_iff (Row:=text_row)). left. exists #"Lnp::DatabaseSip".
  split; [reflexivity|]. split; [discriminate|]. vm_compute. reflexivity.
Defined.
