(* ===== verification/Thread.v ===== *)
(** * Threads and conditions (src/thread.h, src/thread.cpp)

    The life of a [thread] object and the timed wait of a [condition]; the
    mutexes and the pthread calls are the interface.  Cache.v runs a thread
    of this kind step by step. *)
From S2P Require Import Prelude.
From S2P Require Import CLib.
From S2P Require Import Exceptions.

(** ** Definitions *)

(** *** [condition<bool>] *)

(** The deadline of [condition::wait_for_to], from the time of day and the
    milliseconds to wait: seconds and nanoseconds. *)
Definition deadline (tv_sec tv_usec msec : Z) : Z * Z :=
  let sec := (tv_sec + msec / 1000)%Z in
  let nsec := ((tv_usec + msec mod 1000 * 1000) * 1000)%Z in
  if (1000000000 <=? nsec)%Z then (sec + 1, nsec - 1000000000)%Z else (sec, nsec).

(** The loop of [wait_for_to]: [wakes] are the returns of
    [pthread_cond_timedwait], each with the value of [t] found then.  [None]:
    it still waits. *)
Fixpoint wait_for_to (t : bool) (retcode : Z) (wakes : list (bool * Z)) : option bool :=
  if t || negb (retcode =? 0)%Z then Some t else
  match wakes with
  | [] => None
  | (t', retcode') :: rest => wait_for_to t' retcode' rest
  end.

(** The loop of [wait_for]. *)
Fixpoint wait_for (t : bool) (wakes : list bool) : option unit :=
  if t then Some tt else
  match wakes with [] => None | t' :: rest => wait_for t' rest end.

(** *** [thread] *)

(** [_stopped], and whether a pthread of the object runs. *)
Record thread : Type := { _stopped : bool; running : bool }.

Definition new_thread : thread := {| _stopped := true; running := false |}.

(** [thread::start]; [res] is the code of [pthread_create]. *)
Definition thread_start (res : Z) : stM exn thread unit :=
  th ← get;
  if negb (_stopped th) then mret tt else
  modify (fun th => {| _stopped := false; running := running th |});;
  if negb (res =? 0)%Z then mthrow (StringExn #"thread could not be started")
  else modify (fun th => {| _stopped := _stopped th; running := true |}).

(** The end of [thread::_start], after [run]. *)
Definition thread_ended (th : thread) : thread := {| _stopped := true; running := false |}.

(** [thread::stop]: what [on_stop] throws is dropped; the thread is
    detached. *)
Definition thread_stop {S} (on_stop : stM exn S unit) : stM exn (thread * S) unit :=
  '(th, _) ← get;
  if _stopped th then mret tt else
  stM_catch (fun ts => let '(s, o) := on_stop (snd ts) in ((fst ts, s), o)) (fun _ => mret tt).

(** [thread::join]: whether it waits for the pthread. *)
Definition thread_join (th : thread) : bool := negb (_stopped th).

(** ** Lemmas *)

(** The deadline is a valid time, exactly [msec] milliseconds from now. *)
Lemma deadline_exact (tv_sec tv_usec msec : Z) :
  (0 ≤ tv_usec < 1000000)%Z → (0 ≤ msec)%Z →
  let '(sec, nsec) := deadline tv_sec tv_usec msec in
  (0 ≤ nsec < 10 ^ 9)%Z ∧
  (sec * 10 ^ 9 + nsec = tv_sec * 10 ^ 9 + tv_usec * 1000 + msec * 10 ^ 6)%Z.
Proof.
  intros Hu Hm. unfold deadline. pose proof (Z.div_mod msec 1000).
  pose proof (Z.mod_pos_bound msec 1000).
  destruct (Z.leb_spec 1000000000 ((tv_usec + msec mod 1000 * 1000) * 1000)); lia.
Qed.

(** A wake-up without a reason does not end the wait, and [true] is returned
    exactly when the condition held at the end. *)
Lemma wait_for_to_spurious wakes n : wait_for_to false 0 (replicate n (false, 0%Z) ++ wakes) = wait_for_to false 0 wakes.
Proof. induction n as [|n IH]; cbn; [done|exact IH]. Qed.

(** A thread that runs is not started twice. *)
Lemma thread_start_running res th : _stopped th = false → thread_start res th = (th, Ret tt).
Proof. intros Hs. unfold thread_start. rewrite stM_bind_eq. cbn. by rewrite Hs. Qed.
