(* ===== verification/SipClient.v ===== *)
(** * SIP client (src/drivers/modules/SipClient.h,
    src/drivers/modules/SipClient.cpp)

    The singleton, its initialisation over the libre library, and one
    request.  The library is a parameter: it answers each call with an error
    number, and a connected session with the messages it passes to the close
    handler before the timeout. *)
From S2P Require Import Prelude.
From S2P Require Import CLib.
From S2P Require Import Exceptions.
From S2P Require Import Thread.

(** ** Definitions *)

(** What the program reads of a [struct sip_msg]: the status code and the
    Contact header, when there is one and when it can be decoded. *)
Record sip_msg : Type := { scode : Z; contact : option (option str) }.

Record SReplyData : Type := { processed : bool; statusCode : Z; rawContactData : str }.

Definition new_SReplyData : SReplyData :=
  {| processed := false; statusCode := 0; rawContactData := [] |}.

(** [replyHandler]; a [uint16_t] keeps 301 and 302. *)
Definition replyHandler (msg : option sip_msg) (reply : SReplyData) : bool * SReplyData :=
  match msg with
  | None => (false, reply)
  | Some msg =>
      if negb ((301 =? scode msg) || (302 =? scode msg))%Z then (false, reply) else
      let reply := {| processed := processed reply; statusCode := scode msg;
                      rawContactData := rawContactData reply |} in
      match contact msg with
      | Some (Some user) =>
          (true, {| processed := processed reply; statusCode := statusCode reply;
                    rawContactData := user |})
      | _ => (false, reply)
      end
  end.

(** The members of [CSipClient] that are set after the creation. *)
Record CSipClient : Type := {
  mContactField : option str;
  mFromName : option str;
  mFromUri : option str;
  mTimeout : Z;
  mUserAgent : str
}.

Definition sDefUserAgent : str := #"Yeti SIP client".
Definition sDefTimeout : Z := 4000.

(** The calls [getInstance] makes, in order; then those of the thread and of
    its end. *)
Inductive re_object : Type := NameServerClient | SipStack | SipSocket.

Inductive re_call : Type :=
  | libre_init | dns_srv_get | dnsc_alloc | sip_alloc (userAgent : option str)
  | net_default_source_addr_get | sip_transp_add | sipsess_listen | pthread_create
  | re_main
  | sipsess_close_all | sip_close (force : bool) | re_cancel
  | libre_close | mem_deref (o : option re_object).

(** The static pointers to what libre allocated: whether they are set. *)
Record re_statics : Type := {
  sNameServerClient : bool;
  sSipStack : bool;
  sSipSocket : bool
}.

Definition null_statics : re_statics :=
  {| sNameServerClient := false; sSipStack := false; sSipSocket := false |}.

Definition assign (o : re_object) (p : re_statics) : re_statics :=
  match o with
  | NameServerClient => {| sNameServerClient := true; sSipStack := sSipStack p; sSipSocket := sSipSocket p |}
  | SipStack => {| sNameServerClient := sNameServerClient p; sSipStack := true; sSipSocket := sSipSocket p |}
  | SipSocket => {| sNameServerClient := sNameServerClient p; sSipStack := sSipStack p; sSipSocket := true |}
  end.

Section SipClient.

(** The library and its state. *)
Context {L : Type} (re : re_call → L → L * Z).

(** The instance, which [sDestructor] has too, its base class [thread], the
    static pointers and the library. *)
Record Sip : Type := {
  sInstance : option CSipClient;
  sip_thread : thread;
  pointers : re_statics;
  library : L
}.

Abbreviation S := (stM exn Sip).

Definition call (c : re_call) : S Z :=
  fun s => let '(l, n) := re c (library s) in ({| sInstance := sInstance s; sip_thread := sip_thread s;
      pointers := pointers s; library := l |}, Ret n).

Definition set_instance (i : CSipClient) : S unit :=
  modify (fun s => {| sInstance := Some i; sip_thread := sip_thread s;
      pointers := pointers s; library := library s |}).

(** A call that stores the object it allocated when it succeeds. *)
Definition set_pointer (o : re_object) : S unit :=
  modify (fun s => {| sInstance := sInstance s; sip_thread := sip_thread s;
      pointers := assign o (pointers s); library := library s |}).

(** [if (0 != call) throw error(message)] *)
Definition must (c : re_call) (message : str) : S unit :=
  n ← call c; if negb (n =? 0)%Z then lift (throw_sip message []) else mret tt.

(** A method of the base class. *)
Definition on_thread (m : stM exn thread unit) : S unit := fun s =>
  let '(th, o) := m (sip_thread s) in
  ({| sInstance := sInstance s; sip_thread := th; pointers := pointers s; library := library s |}, o).

(** [sInstance->start()] *)
Definition sip_start : S unit :=
  s ← get;
  res ← match _stopped (sip_thread s) with true => call pthread_create | false => mret 0%Z end;
  on_thread (thread_start res).

(** [CSipClient::run] and [CSipClient::on_stop] *)
Definition sip_run : S unit := call re_main;; mret tt.
Definition sip_on_stop : S unit :=
  call sipsess_close_all;;
  call (sip_close false);;
  call re_cancel;;
  mret tt.

(** [CSipClient::getInstance]: the instance exists from the first call on,
    whatever becomes of the initialisation. *)
Definition getInstance (userAgent : option str) : S unit :=
  s ← get;
  match sInstance s with
  | Some _ => mret tt
  | None =>
      set_instance {| mContactField := None; mFromName := None; mFromUri := None;
                      mTimeout := sDefTimeout; mUserAgent := default sDefUserAgent userAgent |};;
      must libre_init #"internal initialization error";;
      must dns_srv_get #"unable to get DNS servers";;
      must dnsc_alloc #"unable to create DNS client";;
      set_pointer NameServerClient;;
      must (sip_alloc userAgent) #"unable to create SIP stack";;
      set_pointer SipStack;;
      must net_default_source_addr_get #"unable to get default local address";;
      must sip_transp_add #"unable to add supported SIP transport";;
      must sipsess_listen #"unable to create SIP session socket";;
      set_pointer SipSocket;;
      sip_start
  end.

Definition on_instance (f : CSipClient → CSipClient) : S unit :=
  s ← get; i ← lift (deref (sInstance s)); set_instance (f i).

(** [CSipClient::setContactData] *)
Definition setContactData (data : option str) : S unit :=
  match data with
  | Some data => on_instance (fun i => {| mContactField := Some data; mFromName := mFromName i;
      mFromUri := mFromUri i; mTimeout := mTimeout i; mUserAgent := mUserAgent i |})
  | None => mret tt
  end.

(** [CSipClient::setFromData] *)
Definition setFromData (name uri : option str) : S unit :=
  match name, uri with
  | Some name, Some uri => on_instance (fun i => {| mContactField := mContactField i;
      mFromName := Some name; mFromUri := Some uri; mTimeout := mTimeout i;
      mUserAgent := mUserAgent i |})
  | _, _ => mret tt
  end.

End SipClient.

(** [CSipClient::setTimeout], on the instance. *)
Definition setTimeout (timeout : Z) (i : CSipClient) : CSipClient :=
  {| mContactField := mContactField i; mFromName := mFromName i; mFromUri := mFromUri i;
     mTimeout := if negb (timeout =? 0)%Z then timeout else sDefTimeout;
     mUserAgent := mUserAgent i |}.

Inductive ECCode : Type := FAIL | OK.

(** The close handler on the messages of the session, in their order, until
    one of them sets the condition. *)
Fixpoint close_handler (msgs : list (option sip_msg)) (reply : SReplyData) : SReplyData :=
  match msgs with
  | [] => reply
  | msg :: rest =>
      let '(ok, reply) := replyHandler msg reply in
      if ok then {| processed := true; statusCode := statusCode reply;
                    rawContactData := rawContactData reply |}
      else close_handler rest reply
  end.

(** [CSipClient::perform]: [sipsess_connect] fails or tells what the close
    handler receives within the timeout of the instance. *)
Definition sip_perform (sipsess_connect : CSipClient → str → option (list (option sip_msg)))
  (i : CSipClient) (uri : option str) (reply : SReplyData) : M (ECCode * SReplyData) :=
  match uri with
  | None => throw_sip #"not specified SIP request URI" []
  | Some uri =>
      match sipsess_connect i uri with
      | None => throw_sip #"unable to perform SIP request" []
      | Some msgs =>
          let reply := close_handler msgs reply in
          mret (if processed reply then OK else FAIL, reply)
      end
  end.

(** ** Lemmas *)

Lemma throw_sip_plain {A} what :
  no_nul what → "%"%char ∉ what → (throw_sip what [] : M A) = Throw (SipError what).
Proof. intros H1 H2. unfold throw_sip. by rewrite fmt_what_plain. Qed.

Lemma close_handler_processed msgs reply :
  processed reply = false →
  (processed (close_handler msgs reply) = true ↔
   ∃ m u, Some m ∈ msgs ∧ (scode m = 301 ∨ scode m = 302)%Z ∧ contact m = Some (Some u)).
Proof.
  revert reply. induction msgs as [|msg msgs IH]; intros reply Hp; cbn [close_handler].
  { rewrite Hp. split; [done|]. intros (m & u & Hin & _). by apply not_elem_of_nil in Hin. }
  assert (Hskip : ∀ reply', processed reply' = false →
    (¬ ∃ m u, msg = Some m ∧ (scode m = 301 ∨ scode m = 302)%Z ∧ contact m = Some (Some u)) →
    (processed (close_handler msgs reply') = true ↔
     ∃ m u, Some m ∈ msg :: msgs ∧ (scode m = 301 ∨ scode m = 302)%Z ∧ contact m = Some (Some u))).
  { intros reply' Hr Hno. rewrite IH by done. setoid_rewrite elem_of_cons.
    split; [naive_solver|]. intros (m & u & [<-|Hin] & Hc); [|by eauto].
    exfalso. apply Hno. eauto. }
  destruct msg as [m|]; cbn [replyHandler]; [|apply Hskip; [done|naive_solver]].
  destruct (Z.eqb_spec 301 (scode m)), (Z.eqb_spec 302 (scode m)); cbn [orb negb];
    try (apply Hskip; [done|]; intros (? & ? & [= <-] & [?|?] & _); congruence);
    (destruct (contact m) as [[u|]|] eqn:Ec;
      [cbn; split; [|done]; intros _; exists m, u; set_solver
      |apply Hskip; [done|naive_solver]..]).
Qed.
