(* ===== verification/SipSession.v ===== *)
(** * A SIP request between two threads
    (src/drivers/modules/SipClient.cpp)

    [CSipClient::perform] runs in the dispatcher's thread and waits for a
    condition inside the reply, which lives in the frame of
    [CSipDriver::resolve]; the close handler runs in the thread of libre and
    fills the reply through a pointer to it.  Every access to the reply is a
    step of its own.  libre calls the close handler of a session once, and
    begins no call after [sipsess_close_all]; whether that call waits for a
    handler that is running is a parameter. *)
From S2P Require Import Prelude.
From S2P Require Import CLib.
From S2P Require Import Exceptions.
From S2P Require Import SipClient.

(** ** Definitions *)

(** Where [perform] is. *)
Inductive perform_pc : Type :=
  | Waits                  (* in wait_for_to *)
  | Answered               (* it returned true *)
  | TimedOut               (* it returned false *)
  | Closed                 (* sipsess_close_all has returned *)
  | Returned (c : ECCode)
  | FrameLeft (c : ECCode) (r : SReplyData).   (* the caller is done with its reply *)

(** Where the close handler is. *)
Inductive handler_pc : Type :=
  | NotCalled
  | Called (msg : option sip_msg)
  | CodeStored (m : sip_msg)
  | DataStored
  | HandlerDone
  | Touched.               (* the reply was used after its frame *)

Record session : Type := { reply : SReplyData; performing : perform_pc; handling : handler_pc }.

(** After [sipsess_connect] returned 0. *)
Definition new_session : session :=
  {| reply := new_SReplyData; performing := Waits; handling := NotCalled |}.

Definition set_performing (p : perform_pc) (s : session) : session :=
  {| reply := reply s; performing := p; handling := handling s |}.
Definition set_handling (h : handler_pc) (s : session) : session :=
  {| reply := reply s; performing := performing s; handling := h |}.
Definition set_reply (r : SReplyData) (s : session) : session :=
  {| reply := r; performing := performing s; handling := handling s |}.

Definition frame_left (s : session) : bool :=
  match performing s with FrameLeft _ _ => true | _ => false end.

(** An access of the handler to the reply. *)
Definition touch (f : SReplyData → SReplyData) (h : handler_pc) (s : session) : session :=
  if frame_left s then set_handling Touched s else set_handling h (set_reply (f (reply s)) s).

Definition store_code (m : sip_msg) (r : SReplyData) : SReplyData :=
  {| processed := processed r; statusCode := scode m; rawContactData := rawContactData r |}.
Definition store_data (u : str) (r : SReplyData) : SReplyData :=
  {| processed := processed r; statusCode := statusCode r; rawContactData := u |}.
Definition store_processed (r : SReplyData) : SReplyData :=
  {| processed := true; statusCode := statusCode r; rawContactData := rawContactData r |}.

(** One access of [closeHandler] and [replyHandler]. *)
Definition handler_step (s : session) : option session :=
  match handling s with
  | Called None => Some (set_handling HandlerDone s)
  | Called (Some m) =>
      if negb ((301 =? scode m) || (302 =? scode m))%Z then Some (set_handling HandlerDone s)
      else Some (touch (store_code m) (CodeStored m) s)
  | CodeStored m =>
      match contact m with
      | Some (Some user) => Some (touch (store_data user) DataStored s)
      | _ => Some (set_handling HandlerDone s)
      end
  | DataStored => Some (touch store_processed HandlerDone s)
  | NotCalled | HandlerDone | Touched => None
  end.

(** libre calls the handler, once, while the session is open. *)
Definition close_step (msg : option sip_msg) (s : session) : option session :=
  match handling s, performing s with
  | NotCalled, (Waits | Answered | TimedOut) => Some (set_handling (Called msg) s)
  | _, _ => None
  end.

Section Session.
(** Whether [sipsess_close_all] waits for a running handler. *)
Variable close_waits : bool.

Definition handler_runs (s : session) : bool :=
  match handling s with Called _ | CodeStored _ | DataStored => true | _ => false end.

(** One step of [perform] and of its caller; [timeout] says that the time of
    the wait is over. *)
Definition perform_step (timeout : bool) (s : session) : option session :=
  match performing s with
  | Waits =>
      if processed (reply s) then Some (set_performing Answered s)
      else if timeout then Some (set_performing TimedOut s) else None
  | TimedOut =>                                   (* sipsess_close_all(sSipSocket) *)
      if close_waits && handler_runs s then None else Some (set_performing Closed s)
  | Answered => Some (set_performing (Returned OK) s)  (* mem_deref(session) *)
  | Closed => Some (set_performing (Returned FAIL) s)
  | Returned c => Some (set_performing (FrameLeft c (reply s)) s)
  | FrameLeft _ _ => None
  end.

Inductive step_of : Type := Perform (timeout : bool) | CloseCall (msg : option sip_msg) | Handler.

Definition session_step (a : step_of) (s : session) : option session :=
  match a with
  | Perform timeout => perform_step timeout s
  | CloseCall msg => close_step msg s
  | Handler => handler_step s
  end.

(** The state after the steps, [None] if one of them is not possible. *)
Fixpoint session_run (l : list step_of) (s : session) : option session :=
  match l with [] => Some s | a :: l => session_step a s ≫= session_run l end.

(** What the handler was called with. *)
Definition closed_with (l : list step_of) : list (option sip_msg) :=
  omap (fun a => match a with CloseCall msg => Some msg | _ => None end) l.

(** ** Lemmas *)

(** A message that makes [replyHandler] return true. *)
Definition accepted (msg : option sip_msg) (u : str) : Prop :=
  ∃ m, msg = Some m ∧ (scode m = 301 ∨ scode m = 302)%Z ∧ contact m = Some (Some u).

(** What the reply holds where the handler is, for the calls [ms]. *)
Definition handler_inv (ms : list (option sip_msg)) (h : handler_pc) (r : SReplyData) : Prop :=
  match h with
  | NotCalled => ms = [] ∧ r = new_SReplyData
  | Called msg => ms = [msg] ∧ r = new_SReplyData
  | CodeStored m => ms = [Some m] ∧ (scode m = 301 ∨ scode m = 302)%Z ∧ r = store_code m new_SReplyData
  | DataStored => ∃ m u, ms = [Some m] ∧ accepted (Some m) u ∧
      r = store_data u (store_code m new_SReplyData)
  | HandlerDone => ∃ msg, ms = [msg] ∧ r = close_handler [msg] new_SReplyData
  | Touched => True
  end.

(** What [perform] has seen. *)
Definition perform_inv (p : perform_pc) (h : handler_pc) (r : SReplyData) : Prop :=
  match p with
  | Waits | TimedOut => True
  | Answered | Returned OK => processed r = true ∧ h = HandlerDone
  | Closed | Returned FAIL => close_waits = true → match h with
      | NotCalled | HandlerDone => True | _ => False end
  | FrameLeft OK r' => r' = r ∧ processed r = true ∧ h = HandlerDone
  | FrameLeft FAIL _ => close_waits = true → match h with
      | NotCalled | HandlerDone => True | _ => False end
  end.

Definition session_inv (ms : list (option sip_msg)) (s : session) : Prop :=
  handler_inv ms (handling s) (reply s) ∧ perform_inv (performing s) (handling s) (reply s) ∧
  (handling s = Touched → close_waits = false ∧ ∃ r, performing s = FrameLeft FAIL r).

Lemma handler_unprocessed ms h r :
  handler_inv ms h r → processed r = true → h = HandlerDone ∨ h = Touched.
Proof.
  destruct h; cbn; auto; intros Hi Hp.
  - destruct Hi as [_ ->]. discriminate.
  - destruct Hi as [_ ->]. discriminate.
  - destruct Hi as (_ & _ & ->). discriminate.
  - destruct Hi as (m & u & _ & _ & ->). discriminate.
Qed.

(** An access of the handler keeps the invariant. *)
Lemma touch_inv ms f h s :
  session_inv ms s → handler_runs s = true → handler_inv ms h (f (reply s)) → h ≠ Touched →
  session_inv ms (touch f h s).
Proof.
  intros (Hh & Hp & Ht) Hr Hh' Hne. unfold touch, frame_left, session_inv, handler_runs in *.
  destruct s as [r p hd]. cbn in *.
  destruct p as [| | | |[]|[] r']; cbn in *;
    try (by destruct Hp as (_ & _ & ->)); try (by destruct Hp as (_ & ->));
    try (split; [done|]; split; [|done]; try exact I; intros Hc; specialize (Hp Hc); by destruct hd).
  split; [done|]. assert (Hc : close_waits = false).
  { destruct close_waits; [|done]. specialize (Hp eq_refl). by destruct hd. }
  split; [by rewrite Hc|]. intros _. eauto.
Qed.

(** A handler that returns without an access keeps it as well. *)
Lemma done_inv ms s :
  session_inv ms s → handler_runs s = true → handler_inv ms HandlerDone (reply s) →
  session_inv ms (set_handling HandlerDone s).
Proof.
  intros (Hh & Hp & Ht) Hr Hh'. unfold session_inv, handler_runs in *. destruct s as [r p hd]. cbn in *.
  split; [done|]. split; [|done].
  destruct p as [| | | |[]|[] r']; cbn in *; try done; try (by destruct Hp as (? & ->));
    by destruct Hp as (? & ? & ->).
Qed.

Lemma handler_step_inv ms s s' : session_inv ms s → handler_step s = Some s' → session_inv ms s'.
Proof.
  intros Hi. pose proof Hi as (Hh & _ & _). unfold handler_step.
  destruct (handling s) as [|[m|]|m| | |] eqn:E; try done; cbn in Hh.
  - destruct Hh as [-> Hr].
    destruct (Z.eqb_spec 301 (scode m)) as [E1|E1], (Z.eqb_spec 302 (scode m)) as [E2|E2];
      cbn [orb negb]; intros [= <-];
      try (apply touch_inv; [done|unfold handler_runs; by rewrite E| |done]; cbn;
           split; [done|]; split; [lia|]; by rewrite Hr).
    apply done_inv; [done|unfold handler_runs; by rewrite E|]. exists (Some m). split; [done|].
    rewrite Hr. cbn [close_handler replyHandler].
    by rewrite (proj2 (Z.eqb_neq _ _) E1), (proj2 (Z.eqb_neq _ _) E2).
  - destruct Hh as [-> Hr]. intros [= <-]. apply done_inv; [done|unfold handler_runs; by rewrite E|].
    exists None. split; [done|]. by rewrite Hr.
  - destruct Hh as (-> & Hc & Hr).
    assert (Hcode : negb ((301 =? scode m) || (302 =? scode m))%Z = false) by (destruct Hc as [-> | ->]; done).
    destruct (contact m) as [[u|]|] eqn:Ec; intros [= <-].
    1: { apply touch_inv; [done|unfold handler_runs; by rewrite E| |done]. exists m, u. split; [done|].
         split; [by exists m|]. by rewrite Hr. }
    all: apply done_inv; [done|unfold handler_runs; by rewrite E|];
      exists (Some m); split; [done|]; rewrite Hr; cbn [close_handler replyHandler];
      rewrite Hcode; cbn; by rewrite Ec.
  - destruct Hh as (m & u & -> & (m' & [= <-] & Hc & Ec) & Hr). intros [= <-].
    apply touch_inv; [done|unfold handler_runs; by rewrite E| |done]. exists (Some m). split; [done|].
    assert (Hcode : negb ((301 =? scode m) || (302 =? scode m))%Z = false) by (destruct Hc as [-> | ->]; done).
    rewrite Hr. cbn [close_handler replyHandler]. rewrite Hcode. cbn. by rewrite Ec.
Qed.

Lemma perform_step_inv ms timeout s s' :
  session_inv ms s → perform_step timeout s = Some s' → session_inv ms s'.
Proof.
  intros (Hh & Hp & Ht). unfold perform_step, session_inv. destruct s as [r p hd]. cbn in *.
  destruct p as [| | | |c|c r']; cbn in *.
  - destruct (processed r) eqn:Er; [|destruct timeout; [|done]]; intros [= <-]; cbn; (split; [done|]).
    + destruct (handler_unprocessed _ _ _ Hh Er) as [->| ->]; [done|].
      destruct (Ht eq_refl) as (_ & ? & [=]).
    + split; [done|]. intros ->. by destruct (Ht eq_refl) as (_ & ? & [=]).
  - intros [= <-]. cbn. split; [done|]. split; [done|]. intros ->. by destruct Hp.
  - destruct (close_waits && handler_runs _) eqn:Ec; [done|]. intros [= <-]. cbn. split; [done|].
    assert (Hnt : hd ≠ Touched) by (intros ->; by destruct (Ht eq_refl) as (_ & ? & [=])).
    split; [|done]. intros Hc. rewrite Hc in Ec. cbn in Ec. by destruct hd.
  - intros [= <-]. cbn. split; [done|]. split; [done|]. intros ->. by destruct (Ht eq_refl) as (_ & ? & [=]).
  - intros [= <-]. cbn. split; [done|]. split; [by destruct c|]. intros ->.
    by destruct (Ht eq_refl) as (_ & ? & [=]).
  - done.
Qed.

Lemma close_step_inv ms msg s s' :
  session_inv ms s → close_step msg s = Some s' → session_inv (ms ++ [msg]) s'.
Proof.
  intros (Hh & Hp & Ht). unfold close_step, session_inv. destruct s as [r p hd]. cbn in *.
  destruct hd; try done. destruct Hh as [-> ->].
  destruct p; try done; intros [= <-]; cbn; (split; [done|]); (split; [|done]); try done.
  by destruct Hp as [_ ?].
Qed.

Lemma session_run_inv ms l s s' :
  session_inv ms s → session_run l s = Some s' → session_inv (ms ++ closed_with l) s'.
Proof.
  revert ms s. induction l as [|a l IH]; intros ms s Hi; cbn [session_run].
  { intros [= <-]. by rewrite app_nil_r. }
  destruct (session_step a s) as [s1|] eqn:E; [|done]. cbn. intros Hr.
  destruct a as [timeout|msg|]; cbn [session_step] in E.
  - exact (IH ms s1 (perform_step_inv ms timeout s s1 Hi E) Hr).
  - pose proof (IH (ms ++ [msg]) s1 (close_step_inv ms msg s s1 Hi E) Hr) as Hs.
    by rewrite <- app_assoc in Hs.
  - exact (IH ms s1 (handler_step_inv ms s s1 Hi E) Hr).
Qed.

Lemma new_session_inv : session_inv [] new_session.
Proof. by split. Qed.

(** ** Properties *)

(** C15. The two threads refine [sip_perform], which the SIP driver is modelled
    with: in every interleaving of [perform], of its close handler and of
    libre, a caller that got [OK] has the reply that [sip_perform] computes
    from the message the handler was called with, complete; and the reply is
    used after its frame only by a handler that was running when the wait
    timed out, never when [sipsess_close_all] waits for it. *)
Theorem session_refines_perform l s i uri :
  session_run l new_session = Some s →
  (∀ r, performing s = FrameLeft OK r →
     sip_perform (fun _ _ => Some (closed_with l)) i (Some uri) new_SReplyData = Ret (OK, r)) ∧
  (handling s = Touched → close_waits = false ∧ ∃ r, performing s = FrameLeft FAIL r).
Proof.
  intros Hr. destruct (session_run_inv [] l new_session s new_session_inv Hr) as (Hh & Hp & Ht).
  split; [|exact Ht]. intros r Er. rewrite Er in Hp. destruct Hp as (-> & Hpr & Eh).
  rewrite Eh in Hh. destruct Hh as (msg & Hms & Hrep). cbn in Hms. unfold sip_perform.
  rewrite Hms, <- Hrep, Hpr. done.
Qed.
End Session.

(** A redirection that comes in time. *)
Definition redirected : sip_msg := {| scode := 302; contact := Some (Some #"u;rn=777") |}.
Definition in_time : list step_of :=
  [CloseCall (Some redirected); Handler; Handler; Handler; Perform true; Perform false; Perform false].

(** The same message, as the wait ends. *)
Definition too_late : list step_of :=
  [CloseCall (Some redirected); Handler; Perform true; Perform false; Perform false; Perform false; Handler].

(** When [sipsess_close_all] does not wait for it, the handler writes to a
    frame that was left. *)
Lemma handler_outlives_frame :
  handling <$> session_run false too_late new_session = Some Touched ∧
  session_run true too_late new_session = None.
Proof. split; vm_compute; reflexivity. Qed.

(** ** Witness *)

Lemma session_refines_perform_witness :
  let r := {| processed := true; statusCode := 302; rawContactData := #"u;rn=777" |} in
  let i := {| mContactField := None; mFromName := None; mFromUri := None; mTimeout := 4000;
              mUserAgent := sDefUserAgent |} in
  (performing <$> session_run true in_time new_session) = Some (FrameLeft OK r) ∧
  sip_perform (fun _ _ => Some [Some redirected]) i (Some #"sip:1@h") new_SReplyData = Ret (OK, r).
Proof.
  intros r i. destruct (session_run true in_time new_session) as [s|] eqn:E; [|vm_compute in E; discriminate E].
  assert (Ep : performing s = FrameLeft OK r) by (vm_compute in E; injection E as <-; reflexivity).
  split; [cbn; by rewrite Ep|].
  exact (proj1 (session_refines_perform true in_time s i #"sip:1@h" E) r Ep).
Defined.
