(* ===== verification/SipExit.v ===== *)
(** * The SIP client when the process exits
    (src/drivers/modules/SipClient.cpp, src/thread.cpp)

    [CSipClient::sDestructor] is a static object: the thread that returned
    from [main] runs its destructor, while the thread of libre is where it
    happens to be.  Both are lists of actions on the client, and a run is any
    interleaving of them.  libre answers [re_cancel] by the return of
    [re_main], which may also return by itself. *)
From S2P Require Import Prelude.
From S2P Require Import CLib.
From S2P Require Import Exceptions.
From S2P Require Import Thread.
From S2P Require Import SipClient.

(** ** Definitions *)

(** What the two threads do to the client, to its mutex [_m_td] and to the
    library. *)
Inductive action : Type :=
  | LockTd | UnlockTd
  | TestStopped          (* is_stopped() *)
  | Detach               (* pthread_detach(_td) *)
  | Delete               (* delete mInstance *)
  | Use                  (* another access to a member *)
  | SetStopped           (* _stopped.set(true) *)
  | Library (c : re_call).

(** [CSipClient::on_stop] *)
Definition on_stop_actions : list action :=
  [Library sipsess_close_all; Library (sip_close false); Library re_cancel].

(** [thread::stop], from the value of [is_stopped()] on. *)
Definition stop_actions (is_stopped : bool) : list action :=
  if is_stopped then [UnlockTd] else on_stop_actions ++ [Detach; UnlockTd].

Definition pointer_of (o : re_object) (p : re_statics) : option re_object :=
  if match o with
     | NameServerClient => sNameServerClient p
     | SipStack => sSipStack p
     | SipSocket => sSipSocket p
     end then Some o else None.

(** The destructor, after [stop]. *)
Definition free_actions (p : re_statics) : list action :=
  [Library libre_close; Delete;
   Library (mem_deref (pointer_of SipSocket p));
   Library (mem_deref (pointer_of SipStack p));
   Library (mem_deref (pointer_of NameServerClient p))].

(** [CSipClientDestructor::~CSipClientDestructor], up to the test in
    [stop]; nothing else holds [sMutex] then. *)
Definition destructor_actions (instance : option CSipClient) : list action :=
  match instance with None => [] | Some _ => [LockTd; TestStopped] end.

(** [thread::_start] with [CSipClient::run], whose [set_name] takes the
    mutex. *)
Definition start_actions : list action :=
  [Use; LockTd; Use; UnlockTd; Library re_main; SetStopped].

(** The two threads; [deleted] and [misused] tell whether the client is freed,
    and whether it was used when it was. *)
Inductive who : Type := Exiting | Libre.

Record shutdown : Type := {
  exiting : list action;
  libre : list action;
  td_owner : option who;
  stopped : bool;
  cancelled : bool;
  deleted : bool;
  misused : bool;
  made : list re_call        (* by the destructor, in order *)
}.

#[export] Instance who_eq_dec : EqDecision who.
Proof. solve_decision. Defined.
#[export] Instance re_object_eq_dec : EqDecision re_object.
Proof. solve_decision. Defined.
#[export] Instance re_call_eq_dec : EqDecision re_call.
Proof. solve_decision. Defined.
#[export] Instance action_eq_dec : EqDecision action.
Proof. solve_decision. Defined.
#[export] Instance shutdown_eq_dec : EqDecision shutdown.
Proof. solve_decision. Defined.

(** The client and its thread, from the creation of the thread on: the run of
    the thread before [main] returns is a part of the interleaving. *)
Definition at_exit {L} (s : Sip (L := L)) : shutdown :=
  {| exiting := destructor_actions (sInstance s);
     libre := if running (sip_thread s) then start_actions else [];
     td_owner := None; stopped := _stopped (sip_thread s); cancelled := false;
     deleted := false; misused := false; made := [] |}.

Section Exit.
(** The static pointers. *)
Variable pointers : re_statics.

(** The actions of a thread after the first one. *)
Definition continue (w : who) (l : list action) (s : shutdown) : shutdown :=
  match w with
  | Exiting => {| exiting := l; libre := libre s; td_owner := td_owner s; stopped := stopped s;
                  cancelled := cancelled s; deleted := deleted s; misused := misused s; made := made s |}
  | Libre => {| exiting := exiting s; libre := l; td_owner := td_owner s; stopped := stopped s;
                cancelled := cancelled s; deleted := deleted s; misused := misused s; made := made s |}
  end.

(** An access to a member of the client. *)
Definition access (s : shutdown) : shutdown :=
  {| exiting := exiting s; libre := libre s; td_owner := td_owner s; stopped := stopped s;
     cancelled := cancelled s; deleted := deleted s; misused := misused s || deleted s;
     made := made s |}.

Definition set_owner (o : option who) (s : shutdown) : shutdown :=
  {| exiting := exiting s; libre := libre s; td_owner := o; stopped := stopped s;
     cancelled := cancelled s; deleted := deleted s; misused := misused s; made := made s |}.
Definition set_stopped (s : shutdown) : shutdown :=
  {| exiting := exiting s; libre := libre s; td_owner := td_owner s; stopped := true;
     cancelled := cancelled s; deleted := deleted s; misused := misused s; made := made s |}.
Definition set_deleted (s : shutdown) : shutdown :=
  {| exiting := exiting s; libre := libre s; td_owner := td_owner s; stopped := stopped s;
     cancelled := cancelled s; deleted := true; misused := misused s; made := made s |}.
Definition add_call (c : re_call) (s : shutdown) : shutdown :=
  {| exiting := exiting s; libre := libre s; td_owner := td_owner s; stopped := stopped s;
     cancelled := match c with re_cancel => true | _ => cancelled s end;
     deleted := deleted s; misused := misused s; made := made s ++ [c] |}.

(** An action of a thread with what it does next; [None]: it has to wait.
    [fails]: [re_main] returns though it was not cancelled. *)
Definition act (w : who) (fails : bool) (a : action) (rest : list action) (s : shutdown)
  : option shutdown :=
  match a with
  | LockTd =>
      match td_owner s with
      | None => Some (continue w rest (set_owner (Some w) (access s)))
      | Some _ => None
      end
  | UnlockTd => Some (continue w rest (set_owner None (access s)))
  | TestStopped => Some (continue w (stop_actions (stopped s) ++ free_actions pointers) (access s))
  | Detach | Use => Some (continue w rest (access s))
  | Delete => Some (continue w rest (set_deleted (access s)))
  | SetStopped => Some (continue w rest (set_stopped (access s)))
  | Library re_main => if cancelled s || fails then Some (continue w rest s) else None
  | Library c => Some (continue w rest (add_call c s))
  end.

(** One action of one of the threads. *)
Definition exit_step (e : who * bool) (s : shutdown) : option shutdown :=
  match (match fst e with Exiting => exiting s | Libre => libre s end) with
  | [] => None
  | a :: rest => act (fst e) (snd e) a rest s
  end.

Fixpoint exit_run (l : list (who * bool)) (s : shutdown) : option shutdown :=
  match l with [] => Some s | e :: l => exit_step e s ≫= exit_run l end.

(** ** Lemmas *)

(** The states that can be reached are few: they are computed. *)
Definition events : list (who * bool) :=
  [(Exiting, false); (Libre, false); (Exiting, true); (Libre, true)].

Definition successors (s : shutdown) : list shutdown :=
  omap (fun e => exit_step e s) events.

Fixpoint reached (fuel : nat) (new seen : list shutdown) : list shutdown :=
  match fuel with
  | O => seen
  | S fuel =>
      let new := remove_dups (filter (.∉ seen) (new ≫= successors)) in
      reached fuel new (new ++ seen)
  end.

(** A set that no action leaves has every state that a run ends in. *)
Lemma run_in_closed (R : list shutdown) l s s' :
  Forall (fun s => Forall (.∈ R) (successors s)) R →
  s ∈ R → exit_run l s = Some s' → s' ∈ R.
Proof.
  intros HR. revert s. induction l as [|e l IH]; intros s Hs Hr; [by injection Hr as <-|].
  cbn in Hr. destruct (exit_step e s) as [s1|] eqn:E; [|done]. apply (IH s1); [|done].
  rewrite Forall_forall in HR. specialize (HR s Hs). rewrite Forall_forall in HR.
  apply HR, list_elem_of_omap. exists e. split; [|done]. destruct e as [[] []]; set_solver.
Qed.

(** What is left to do, counted so that every action makes it less. *)
Definition weight (a : action) : nat := match a with TestStopped => 12 | _ => 1 end.
Definition work (s : shutdown) : nat :=
  sum_list_with weight (exiting s) + sum_list_with weight (libre s).

(** The calls of the destructor once [stop] has returned. *)
Definition closing_calls : list re_call :=
  [libre_close; mem_deref (pointer_of SipSocket pointers);
   mem_deref (pointer_of SipStack pointers); mem_deref (pointer_of NameServerClient pointers)].
Definition stopping_calls : list re_call := [sipsess_close_all; sip_close false; re_cancel].

Definition exit_ok (created : bool) (s : shutdown) : Prop :=
  (exiting s = [] → deleted s = true ∧ td_owner s ≠ Some Exiting ∧
     (made s = closing_calls ∨ made s = stopping_calls ++ closing_calls)) ∧
  (exiting s ≠ [] → successors s ≠ []) ∧
  Forall (fun s' => work s' < work s) (successors s) ∧
  (misused s = true → deleted s = true ∧ created = true ∧ re_cancel ∈ made s).

#[export] Instance exit_ok_dec created s : Decision (exit_ok created s).
Proof. unfold exit_ok. apply _. Defined.

Lemma run_work l s s' (P : shutdown → Prop) :
  (∀ l s', exit_run l s = Some s' → P s') →
  (∀ s, P s → Forall (fun s' => work s' < work s) (successors s)) →
  exit_run l s = Some s' → work s' + length l ≤ work s.
Proof.
  intros HP Hdec. revert s HP. induction l as [|e l IH]; intros s HP Hr; [injection Hr as <-; cbn; lia|].
  cbn in Hr. destruct (exit_step e s) as [s1|] eqn:E; [|done].
  assert (H1 : work s1 < work s).
  { pose proof (Hdec s (HP [] s eq_refl)) as Hd. rewrite Forall_forall in Hd.
    apply Hd, list_elem_of_omap. exists e. split; [destruct e as [[] []]; set_solver|done]. }
  assert (H2 : work s' + length l ≤ work s1).
  { apply IH; [|done]. intros l2 s2 H2. apply (HP (e :: l2)). cbn. by rewrite E. }
  cbn. lia.
Qed.

End Exit.

(** ** The client at its creation *)

(** No call has been made for the client yet. *)
Definition fresh_client {L} (s : Sip (L := L)) : Prop :=
  sInstance s = None ∧ sip_thread s = new_thread ∧ pointers s = null_statics.

Definition set_library {L} (l : L) (s : Sip (L := L)) : Sip :=
  {| sInstance := sInstance s; sip_thread := sip_thread s; pointers := pointers s; library := l |}.

Lemma wp_must {L} (re : re_call → L → L * Z) c what s (P : unit → Sip → Prop) (X : exn → Sip → Prop) :
  no_nul what → "%"%char ∉ what →
  (∀ l, P tt (set_library l s)) → (∀ l e, X e (set_library l s)) →
  wp (must re c what) s P X.
Proof.
  intros Hw Hp HP HX. unfold must. rewrite throw_sip_plain by done.
  apply wp_bind. unfold wp, call.
  destruct (re c (library s)) as [l n]. cbn. destruct (n =? 0)%Z; cbn; [apply HP|]. apply HX.
Qed.

Lemma wp_set_pointer {L} o (s : Sip (L := L)) (P : unit → Sip → Prop) (X : exn → Sip → Prop) :
  P tt {| sInstance := sInstance s; sip_thread := sip_thread s;
          pointers := assign o (pointers s); library := library s |} →
  wp (set_pointer o) s P X.
Proof. done. Qed.

Lemma sip_start_leaves {L} (re : re_call → L → L * Z) s :
  sip_thread s = new_thread →
  wp (sip_start re) s
    (fun _ s' => sInstance s' = sInstance s ∧ pointers s' = pointers s ∧
       sip_thread s' = {| _stopped := false; running := true |})
    (fun _ s' => sInstance s' = sInstance s ∧ sip_thread s' = {| _stopped := false; running := false |}).
Proof.
  intros E. destruct s as [i th p l]. cbn in E. subst.
  unfold sip_start, wp. rewrite stM_bind_eq. cbn. rewrite stM_bind_eq. unfold call. cbn.
  destruct (re pthread_create l) as [l' n]. cbn. unfold on_thread, thread_start.
  rewrite stM_bind_eq. cbn. rewrite stM_bind_eq. cbn. by destruct (n =? 0)%Z.
Qed.

(** What [getInstance] leaves, whichever of its calls fails. *)
Lemma getInstance_leaves {L} (re : re_call → L → L * Z) ua s :
  fresh_client s →
  wp (getInstance re ua) s
    (fun _ s => is_Some (sInstance s) ∧ sip_thread s = {| _stopped := false; running := true |} ∧
       pointers s = {| sNameServerClient := true; sSipStack := true; sSipSocket := true |})
    (fun _ s => is_Some (sInstance s) ∧ running (sip_thread s) = false).
Proof.
  intros (E1 & E2 & E3). destruct s as [i th p l]. cbn in E1, E2, E3. subst.
  apply wp_bind. unfold wp at 1, get. cbv beta iota. cbn [sInstance].
  apply wp_bind. unfold wp at 1, set_instance, modify. cbv beta iota.
  repeat (apply wp_bind; first
    [ apply wp_must; [by apply no_nul_bool|by apply not_percent|intros ?|intros; split; [by eexists|reflexivity]]
    | apply wp_set_pointer ]).
  eapply wp_mono; [by apply sip_start_leaves|..].
  - intros _ s' (-> & -> & ->). split; [by eexists|done].
  - intros _ s' (-> & ->). split; [by eexists|done].
Qed.

(** The check that a set is closed and that its states are as they should
    be. *)
Definition all_ok p s0 created (R : list shutdown) : bool :=
  bool_decide (s0 ∈ R) &&
  forallb (fun s => bool_decide (exit_ok p created s) &&
                    forallb (fun s' => bool_decide (s' ∈ R)) (successors p s)) R.

Lemma all_ok_sound p s0 created R l s :
  all_ok p s0 created R = true → exit_run p l s0 = Some s → exit_ok p created s.
Proof.
  unfold all_ok. rewrite andb_true_iff, forallb_forall. intros [H0 HR] Hr.
  apply bool_decide_eq_true in H0.
  assert (Hs : s ∈ R).
  { apply (run_in_closed p R l s0); [|done..]. apply Forall_forall. intros s1 H1.
    apply list_elem_of_In, HR, andb_true_iff, proj2 in H1. rewrite forallb_forall in H1.
    apply Forall_forall. intros s2 H2. apply (bool_decide_eq_true_1 _), H1. by apply list_elem_of_In. }
  apply list_elem_of_In, HR, andb_true_iff, proj1 in Hs. by apply bool_decide_eq_true in Hs.
Qed.

(** The set of the states that can be reached is closed, and all are as they
    should be. *)
Lemma reached_ok p th l s :
  (_stopped th = true → running th = false) →
  let s0 := {| exiting := [LockTd; TestStopped];
               libre := if running th then start_actions else [];
               td_owner := None; stopped := _stopped th; cancelled := false;
               deleted := false; misused := false; made := [] |} in
  exit_run p l s0 = Some s → exit_ok p (running th) s.
Proof.
  intros Hth s0 Hr. apply (all_ok_sound p s0 (running th) (reached p 24 [s0] [s0]) l); [|done].
  unfold s0. clear -Hth.
  destruct p as [[] [] []], th as [[] []]; try (by specialize (Hth eq_refl)); by vm_compute.
Qed.

(** ** The end of the client *)

(** A client that [getInstance] made, whether or not it failed on the way, is
    taken down in at most 24 actions of the two threads, which never both
    wait for each other.  The destructor asks a running thread to stop, closes
    the library, frees the client and gives back each object libre allocated,
    once and in the reverse of their order.  The client is used after it was
    freed only by a thread that was started and asked to stop: [stop] does
    not wait for it. *)
Theorem exit_of_client {L} (re : re_call → L → L * Z) ua s0 sip o l s :
  fresh_client s0 → getInstance re ua s0 = (sip, o) →
  let p := pointers sip in
  exit_run p l (at_exit sip) = Some s →
  length l ≤ 24 ∧
  (exiting s ≠ [] → ∃ e s', exit_step p e s = Some s') ∧
  (exiting s = [] → deleted s = true ∧
     (made s = closing_calls p ∨ made s = stopping_calls ++ closing_calls p)) ∧
  (o = Ret tt → closing_calls p = [libre_close; mem_deref (Some SipSocket);
     mem_deref (Some SipStack); mem_deref (Some NameServerClient)]) ∧
  (misused s = true → deleted s = true ∧ o = Ret tt ∧ re_cancel ∈ made s).
Proof.
  intros Hf Hg p Hr. pose proof (getInstance_leaves re ua s0 Hf) as Hl. unfold wp in Hl. rewrite Hg in Hl.
  assert (Hth : _stopped (sip_thread sip) = true → running (sip_thread sip) = false).
  { destruct o; [|by destruct Hl|done]. by destruct Hl as (_ & -> & _). }
  assert (Hi : is_Some (sInstance sip)) by (destruct o; [by destruct Hl|by destruct Hl|done]).
  unfold at_exit in Hr. destruct Hi as [i Hi]. rewrite Hi in Hr. cbn [destructor_actions] in Hr.
  pose proof (fun l s => reached_ok p (sip_thread sip) l s Hth) as Hok. cbn zeta in Hok.
  destruct (Hok l s Hr) as (H1 & H2 & _ & H4).
  split; [|split; [|split; [|split]]].
  - pose proof (run_work p l _ s (exit_ok p (running (sip_thread sip))) Hok (fun _ H => proj1 (proj2 (proj2 H))) Hr) as Hw.
    revert Hw. clear. unfold work. cbn. destruct (running _); cbn; lia.
  - intros He. destruct (successors p s) as [|s' ss] eqn:E; [by specialize (H2 He)|].
    assert (Hin : s' ∈ successors p s) by (rewrite E; set_solver).
    apply list_elem_of_omap in Hin. destruct Hin as (e & _ & Hs). by exists e, s'.
  - intros He. by destruct (H1 He) as (Hd & _ & Hm).
  - intros ->. unfold closing_calls, p. by destruct Hl as (_ & _ & ->).
  - intros Hm. destruct (H4 Hm) as (Hd & Hc & Hin). split; [done|]. split; [|done].
    destruct o as [[]| |]; [done| |done]. destruct Hl as [_ Hl]. congruence.
Qed.

(** The thread sets [_stopped] of the client that the destructor freed. *)
Definition late_thread : list (who * bool) :=
  replicate 4 (Libre, false) ++ replicate 5 (Exiting, false) ++ [(Libre, false)] ++
  replicate 4 (Exiting, false) ++ [(Libre, false)].

Definition re_fine (c : re_call) (l : unit) : unit * Z := (l, 0%Z).

Lemma thread_outlives_client :
  let '(sip, _) := getInstance re_fine None
    {| sInstance := None; sip_thread := new_thread; pointers := null_statics; library := tt |} in
  misused <$> exit_run (pointers sip) late_thread (at_exit sip) = Some true.
Proof. by vm_compute. Qed.
