(* ===== verification/BlockingHttp.v ===== *)
(** * Blocking HTTP client (src/drivers/modules/HttpClient.h,
    src/drivers/modules/HttpClient.cpp)

    [CHttpClient], one request at a time over the easy interface of libcurl,
    which is an interface here.  No driver includes it any more; the
    drivers' client is AsyncHttp.v.  The function given to
    [setWriteCallback] belongs to the caller: what it does to the caller's
    buffer is part of [curl_easy_perform]. *)
From S2P Require Import Prelude.
From S2P Require Import CLib.
From S2P Require Import Exceptions.
From S2P Require Import Driver.

(** ** Definitions *)

(** *** libcurl *)

Definition CURLE_OK : Z := 0.

(** The options the client sets.  Pointers are numbers: a header list is
    the address [curl_slist_append] gave. *)
Inductive easy_option : Type :=
  | SSL_VERIFYPEER (verify : Z) | SSL_VERIFYHOST (verify : Z)
  | HTTPAUTH (type : ECAuth)
  | USERNAME (login : str) | PASSWORD (pass : str)
  | TIMEOUT_MS (timeout : Z) | NOSIGNAL (v : Z)
  | WRITEFUNCTION (fn : Z) | WRITEDATA (ptr : Z)
  | URL (url : str) | HTTPHEADER (list : Z) | ERRORBUFFER.

(** [curl_easy_perform] gives its code and what it wrote to the error
    buffer, if it wrote there. *)
Class CurlEasy (U : Type) : Type := {
  curl_global_init : U → U * Z;
  curl_easy_init : U → U * option Z;
  curl_easy_setopt : option Z → easy_option → U → U * Z;
  curl_slist_append : option Z → str → U → U * option Z;
  curl_slist_free_all : Z → U → U;
  curl_easy_cleanup : Z → U → U;
  curl_easy_perform : option Z → U → U * (Z * option str)
}.

(** *** The client *)

(** [CHttpClient::error] *)
Inductive error : Type := Error (what : str).

(** [CHttpClient]; [mErrBuffer] up to its NUL. *)
Record CHttpClient : Type := {
  mErrBuffer : str;
  mCtx : option Z;
  mHdrList : option Z
}.

Inductive ECReqCode : Type := FAIL | OK.

(** What a method works on: the static flag, the object and libcurl. *)
Record World (U : Type) : Type := {
  sInitialize : bool;
  client : CHttpClient;
  curl : U
}.
Arguments sInitialize {U} w.
Arguments client {U} w.
Arguments curl {U} w.
Arguments Build_World {U} sInitialize client curl.

Section BlockingHttp.
Context {U : Type} `{!CurlEasy U}.

Abbreviation S := (stM error (World U)).

(** [throw error(fmt)] *)
Definition throw_error {A} (fmt : str) : S A :=
  lift (match fmt_what fmt [] with Ret w => mthrow (Error w) | _ => Undef end).

Definition set_client (c : CHttpClient) : S unit :=
  modify (fun w => Build_World (sInitialize w) c (curl w)).

(** A call of libcurl. *)
Definition call {A} (f : U → U * A) : S A := fun w =>
  let '(u, a) := f (curl w) in (Build_World (sInitialize w) (client w) u, Ret a).

Definition setopt (o : easy_option) : S bool :=
  w ← get;
  rc ← call (curl_easy_setopt (mCtx (client w)) o);
  mret (rc =? CURLE_OK)%Z.

(** [setopt(a) || setopt(b)]: the options in their order, up to the first
    that is refused. *)
Fixpoint setopt_all (os : list easy_option) : S bool :=
  match os with
  | [] => mret true
  | o :: os => ok ← setopt o; if (ok : bool) then setopt_all os else mret false
  end.

(** [if (...) throw error(fmt)] *)
Definition setopts (os : list easy_option) (fmt : str) : S unit :=
  ok ← setopt_all os;
  if (ok : bool) then mret tt else throw_error fmt.

(** [CHttpClient::CHttpClient] *)
Definition construct : S unit :=
  set_client {| mErrBuffer := []; mCtx := None; mHdrList := None |};;
  w ← get;
  when (negb (sInitialize w))
    (rc ← call curl_global_init;
     if negb (rc =? 0)%Z then throw_error #"global environment initializing error"
     else modify (fun w => Build_World true (client w) (curl w)));;
  ctx ← call curl_easy_init;
  set_client {| mErrBuffer := []; mCtx := ctx; mHdrList := None |};;
  match ctx with
  | None => throw_error #"context creation error"
  | Some _ => mret tt
  end.

(** [CHttpClient::~CHttpClient] *)
Definition destroy : S unit :=
  w ← get;
  match mHdrList (client w) with
  | Some l => call (fun u => (curl_slist_free_all l u, tt))
  | None => mret tt
  end;;
  match mCtx (client w) with
  | Some h => call (fun u => (curl_easy_cleanup h u, tt))
  | None => mret tt
  end.

Definition setSSLVerification (onoff : bool) : S unit :=
  let verify := if onoff then 2%Z else 0%Z in
  setopts [SSL_VERIFYPEER verify; SSL_VERIFYHOST verify] #"SSL verification option error".

Definition setAuthType (type : ECAuth) : S unit :=
  setopts [HTTPAUTH type] #"authorization type handling error".

Definition setAuthData (login pass : str) : S unit :=
  setopts [USERNAME login; PASSWORD pass] #"authorization data error".

(** The overload for [std::string]. *)
Definition setAuthData_string (login pass : str) : S unit := setAuthData (c_str login) (c_str pass).

(** [timeout] is a [uint32_t]. *)
Definition setTimeout (timeout : Z) : S unit :=
  setopts [TIMEOUT_MS timeout; NOSIGNAL 1] #"set up timeout value error".

Definition setHeader (header : str) : S unit :=
  w ← get;
  hdrList ← call (curl_slist_append (mHdrList (client w)) header);
  match hdrList with
  | None => throw_error #"error appending header to request"
  | Some l => set_client {| mErrBuffer := mErrBuffer (client w); mCtx := mCtx (client w);
                            mHdrList := Some l |}
  end.

Definition setHeader_string (header : str) : S unit := setHeader (c_str header).

Definition setWriteCallback (fn ptr : Z) : S unit :=
  setopts [WRITEFUNCTION fn; WRITEDATA ptr] #"initializing write callback data error".

Definition getErrorStr (w : World U) : str := mErrBuffer (client w).

Definition perform (url : str) : S ECReqCode :=
  setopts [URL url] #"URL processing error";;
  w ← get;
  match mHdrList (client w) with
  | Some l => setopts [HTTPHEADER l] #"headers processing error"
  | None => mret tt
  end;;
  setopts [ERRORBUFFER] #"error buffer initializing error";;
  '(rc, text) ← call (curl_easy_perform (mCtx (client w)));
  set_client {| mErrBuffer := default (mErrBuffer (client w)) text; mCtx := mCtx (client w);
                mHdrList := mHdrList (client w) |};;
  mret (if (rc =? CURLE_OK)%Z then OK else FAIL).

Definition perform_string (url : str) : S ECReqCode := perform (c_str url).

(** *** The lives of clients *)

Inductive use : Type :=
  | UseSSL (onoff : bool) | UseAuthType (type : ECAuth) | UseAuthData (login pass : str)
  | UseTimeout (timeout : Z) | UseHeader (header : str) | UseCallback (fn ptr : Z)
  | UsePerform (url : str).

Definition run_use (m : use) : S unit :=
  match m with
  | UseSSL onoff => setSSLVerification onoff
  | UseAuthType type => setAuthType type
  | UseAuthData login pass => setAuthData login pass
  | UseTimeout timeout => setTimeout timeout
  | UseHeader header => setHeader header
  | UseCallback fn ptr => setWriteCallback fn ptr
  | UsePerform url => perform url;; mret tt
  end.

(** A caller that makes the calls and drops what they throw. *)
Fixpoint run_uses (ms : list use) : S unit :=
  match ms with
  | [] => mret tt
  | m :: ms => stM_catch (run_use m) (fun _ => mret tt);; run_uses ms
  end.

(** A client from its constructor, which may throw, to its destructor. *)
Definition life (ms : list use) : S unit :=
  stM_catch (construct;; run_uses ms;; destroy) (fun _ => mret tt).

Fixpoint lives (l : list (list use)) : S unit :=
  match l with [] => mret tt | ms :: l => life ms;; lives l end.

(** ** What libcurl promises *)

(** libcurl as its client sees it: how often it was initialised, the handles
    with the options they have (the last one first), and the header lists. *)
Record View : Type := {
  globals : nat;
  handles : gmap Z (list easy_option);
  lists : gmap Z (list str)
}.

Definition with_handles (m : gmap Z (list easy_option)) (v : View) : View :=
  {| globals := globals v; handles := m; lists := lists v |}.
Definition with_lists (m : gmap Z (list str)) (v : View) : View :=
  {| globals := globals v; handles := handles v; lists := m |}.

Class EasyLaws (view : U → View) : Prop := {
  global_init_law u u' rc : curl_global_init u = (u', rc) →
    handles (view u') = handles (view u) ∧ lists (view u') = lists (view u) ∧
    globals (view u') = if (rc =? 0)%Z then 1 + globals (view u) else globals (view u);
  easy_init_law u u' h : curl_easy_init u = (u', h) →
    match h with
    | Some h => handles (view u) !! h = None ∧ view u' = with_handles (<[h := []]> (handles (view u))) (view u)
    | None => view u' = view u
    end;
  setopt_law h o os u u' rc : handles (view u) !! h = Some os →
    curl_easy_setopt (Some h) o u = (u', rc) →
    view u' = if (rc =? CURLE_OK)%Z then with_handles (<[h := o :: os]> (handles (view u))) (view u)
              else view u;
  append_law l hs header u u' l' :
    match l with Some l => lists (view u) !! l = Some hs | None => hs = [] end →
    curl_slist_append l header u = (u', l') →
    match l' with
    | None => view u' = view u
    | Some l' =>
        let rest := match l with Some l => delete l (lists (view u)) | None => lists (view u) end in
        rest !! l' = None ∧ view u' = with_lists (<[l' := hs ++ [header]]> rest) (view u)
    end;
  free_law l u : is_Some (lists (view u) !! l) →
    view (curl_slist_free_all l u) = with_lists (delete l (lists (view u))) (view u);
  cleanup_law h u : is_Some (handles (view u) !! h) →
    view (curl_easy_cleanup h u) = with_handles (delete h (handles (view u))) (view u);
  perform_law h u u' r : is_Some (handles (view u) !! h) →
    curl_easy_perform (Some h) u = (u', r) → view u' = view u
}.

(** ** Lemmas *)

Context (view : U → View) `{!EasyLaws view}.

(** A client whose handle has the options [os], whose header list has the
    headers [hs], and beside which libcurl is as in [v]. *)
Definition owns (v : View) (os : list easy_option) (hs : list str) (w : World U) : Prop :=
  globals (view (curl w)) = globals v ∧
  match mCtx (client w) with
  | Some h => handles v !! h = None ∧ handles (view (curl w)) = <[h := os]> (handles v)
  | None => False
  end ∧
  match mHdrList (client w) with
  | Some l => lists v !! l = None ∧ lists (view (curl w)) = <[l := hs]> (lists v)
  | None => hs = [] ∧ lists (view (curl w)) = lists v
  end.

(** The static flag is kept, and so is the client. *)
Definition steady (w w' : World U) : Prop := client w' = client w ∧ sInitialize w' = sInitialize w.

Lemma wp_throw_error {A} fmt w (P : A → World U → Prop) (X : error → World U → Prop) :
  no_nul fmt → "%"%char ∉ fmt → X (Error fmt) w → wp (throw_error fmt) w P X.
Proof. intros. unfold throw_error. by rewrite fmt_what_plain. Qed.

Lemma wp_setopt o v os hs w (P : bool → World U → Prop) (X : error → World U → Prop) :
  owns v os hs w →
  (∀ (ok : bool) w', steady w w' → owns v (if ok then o :: os else os) hs w' → P ok w') →
  wp (setopt o) w P X.
Proof.
  intros (Hg & Hh & Hl) HP. unfold setopt. apply wp_bind. cbn.
  unfold wp, call. rewrite stM_bind_eq. cbn. destruct w as [i [e [h|] l] u]; cbn in *; [|done].
  destruct (curl_easy_setopt (Some h) o u) as [u' rc] eqn:E. cbn.
  destruct Hh as [Hf Hh]. pose proof (setopt_law h o os u u' rc) as Hs.
  rewrite Hh, lookup_insert_eq in Hs. specialize (Hs eq_refl E).
  apply HP; [done|]. unfold owns. cbn. rewrite Hs.
  destruct (rc =? CURLE_OK)%Z; cbn; rewrite ?insert_insert_eq; done.
Qed.

Lemma steady_trans w1 w2 w3 : steady w1 w2 → steady w2 w3 → steady w1 w3.
Proof. unfold steady. intuition congruence. Qed.

Lemma wp_setopt_all new v os hs w (P : bool → World U → Prop) (X : error → World U → Prop) :
  owns v os hs w →
  (∀ ok os' w', steady w w' → owns v os' hs w' → (ok = true → os' = rev new ++ os) → P ok w') →
  wp (setopt_all new) w P X.
Proof.
  revert os w P. induction new as [|o new IH]; intros os w P Ho HP; cbn [setopt_all].
  { by apply (HP true os w). }
  apply wp_bind, (wp_setopt o v os hs w); [done|]. intros ok w2 Hst Ho2.
  destruct ok; [|by apply (HP false os)].
  apply (IH (o :: os)); [done|]. intros ok os' w3 Hst3 Ho3 Hok.
  apply (HP ok os'); [by eapply steady_trans|done|]. intros E. rewrite Hok by done.
  cbn. by rewrite <- app_assoc.
Qed.

Lemma wp_setopts new fmt v os hs w (P : unit → World U → Prop) (X : error → World U → Prop) :
  no_nul fmt → "%"%char ∉ fmt → owns v os hs w →
  (∀ w', steady w w' → owns v (rev new ++ os) hs w' → P tt w') →
  (∀ os' w', steady w w' → owns v os' hs w' → X (Error fmt) w') →
  wp (setopts new fmt) w P X.
Proof.
  intros Hn Hp Ho HP HX. unfold setopts. apply wp_bind, (wp_setopt_all new v os hs w); [done|].
  intros [] os' w' Hst Ho' Hok; [|apply wp_throw_error; by eauto].
  rewrite (Hok eq_refl) in Ho'. by apply HP.
Qed.

(** What every call leaves to the next one, whatever it throws. *)
Definition lives_on (v : View) (w : World U) (w' : World U) : Prop :=
  sInitialize w' = sInitialize w ∧ ∃ os hs, owns v os hs w'.

Lemma steady_on v os hs w w' : steady w w' → owns v os hs w' → lives_on v w w'.
Proof. intros [_ Hi] Ho. split; [done|]. by exists os, hs. Qed.

Lemma setHeader_adds header v os hs w (P : unit → World U → Prop) (X : error → World U → Prop) :
  owns v os hs w →
  (∀ w', sInitialize w' = sInitialize w → mErrBuffer (client w') = mErrBuffer (client w) →
     owns v os (hs ++ [header]) w' → P tt w') →
  (∀ w', steady w w' → owns v os hs w' → X (Error #"error appending header to request") w') →
  wp (setHeader header) w P X.
Proof.
  intros (Hg & Hh & Hl) HP HX. unfold setHeader. apply wp_bind. cbn. apply wp_bind.
  unfold wp at 1, call. destruct w as [i [e c l] u]; cbn in *.
  destruct (curl_slist_append l header u) as [u' l'] eqn:E. cbn.
  assert (Ha : match l with Some l => lists (view u) !! l = Some hs | None => hs = [] end).
  { destruct l as [l|]; [destruct Hl as [_ ->]; by rewrite lookup_insert_eq|by destruct Hl]. }
  apply (append_law l hs header u u' l') in Ha; [|done].
  destruct l' as [l'|].
  - destruct Ha as [Hf Hv]. cbn. apply HP; [done..|]. unfold owns. cbn. rewrite Hv. cbn.
    split; [done|]. split; [done|].
    destruct l as [l|]; [|by destruct Hl as [? Hl]; rewrite Hl in *].
    destruct Hl as [Hn Hl]. rewrite Hl, delete_insert_eq, delete_id in * by done. done.
  - apply wp_throw_error; [by apply no_nul_bool|by apply not_percent|].
    apply HX; [done|]. unfold owns. cbn. by rewrite Ha.
Qed.

(** The options in force when [perform] runs. *)
Definition request_options (url : str) (l : option Z) (os : list easy_option) : list easy_option :=
  ERRORBUFFER :: match l with Some l => [HTTPHEADER l] | None => [] end ++ URL url :: os.

(** [perform] gives libcurl the URL, the header list with every header that
    was set, and the buffer for its message; what it returns is what the
    transfer ended with. *)
Lemma perform_spec url v os hs w (X : error → World U → Prop) :
  owns v os hs w →
  (∀ fmt w', lives_on v w w' → steady w w' → X (Error fmt) w') →
  wp (perform url) w (fun c w' => sInitialize w' = sInitialize w ∧
    mHdrList (client w') = mHdrList (client w) ∧
    owns v (request_options url (mHdrList (client w)) os) hs w' ∧
    ∃ u rc text, curl_easy_perform (mCtx (client w)) u = (curl w', (rc, text)) ∧
      view u = view (curl w') ∧ (c = OK ↔ rc = CURLE_OK) ∧
      getErrorStr w' = default (getErrorStr w) text) X.
Proof.
  intros Ho HX. unfold perform. apply wp_bind.
  apply (wp_setopts _ _ v os hs); [by apply no_nul_bool|by apply not_percent|done| |by eauto using steady_on].
  intros w1 Hst1 Ho1. apply wp_bind. cbn [get wp]. apply wp_bind.
  assert (Hhdr : wp (match mHdrList (client w1) with
      | Some l => setopts [HTTPHEADER l] #"headers processing error" | None => mret tt end) w1
    (fun _ w2 => steady w w2 ∧
       owns v (match mHdrList (client w1) with Some l => [HTTPHEADER l] | None => [] end ++ URL url :: os) hs w2) X).
  { destruct (mHdrList (client w1)) as [l|]; [|by apply wp_ret].
    apply (wp_setopts _ _ v (URL url :: os) hs); [by apply no_nul_bool|by apply not_percent|done|..].
    - intros w2 Hst2 Ho2. split; [by eapply steady_trans|done].
    - intros os' w2 Hst2 Ho2. assert (steady w w2) by (by eapply steady_trans). by eauto using steady_on. }
  eapply wp_mono; [exact Hhdr| |done]. cbn beta. intros _ w2 [Hst2 Ho2]. clear Hhdr.
  apply wp_bind. eapply (wp_setopts _ _ v _ hs); [by apply no_nul_bool|by apply not_percent|done|..].
  2:{ intros os' w3 Hst3 Ho3. assert (steady w w3) by (by eapply steady_trans). by eauto using steady_on. }
  intros w3 Hst3 Ho3. apply wp_bind. unfold wp at 1, call.
  destruct (curl_easy_perform (mCtx (client w1)) (curl w3)) as [u [rc text]] eqn:E. cbn.
  destruct Hst1 as [Hc1 Hi1], (steady_trans _ _ _ Hst2 Hst3) as [Hc3 Hi3].
  rewrite Hc1 in *. split; [done|]. split; [done|].
  assert (Hv : view u = view (curl w3)).
  { destruct Ho3 as (_ & Hh & _). rewrite Hc3 in Hh. destruct (mCtx (client w)) as [h|]; [|done].
    eapply perform_law; [|exact E]. destruct Hh as [_ ->]. rewrite lookup_insert_eq. by eexists. }
  split.
  { destruct Ho3 as (Hg & Hh & Hl). rewrite Hc3 in Hh, Hl. unfold owns. cbn. by rewrite Hv. }
  exists (curl w3), rc, text. split; [done|]. split; [done|]. split; [|done].
  destruct (Z.eqb_spec rc CURLE_OK); naive_solver.
Qed.

Lemma wp_catch_all (m : S unit) w (P : unit → World U → Prop) (X : error → World U → Prop) :
  wp m w P (fun _ w' => P tt w') → wp (stM_catch m (fun _ => mret tt)) w P X.
Proof. unfold wp, stM_catch. by destruct (m w) as [w' [[]| |]]. Qed.

Lemma run_use_lives m v os hs w (P : unit → World U → Prop) (X : error → World U → Prop) :
  owns v os hs w →
  (∀ w', lives_on v w w' → P tt w') → (∀ e w', lives_on v w w' → X e w') →
  wp (run_use m) w P X.
Proof.
  intros Ho HP HX.
  assert (Hopts : ∀ new fmt, no_nul fmt → "%"%char ∉ fmt → wp (setopts new fmt) w P X).
  { intros new fmt Hn Hp. apply (wp_setopts new fmt v os hs); eauto using steady_on. }
  destruct m; try (by apply Hopts; [apply no_nul_bool|apply not_percent]); cbn [run_use].
  - apply (setHeader_adds header v os hs w); [done|..]; intros w'; intros; [apply HP|apply HX].
    + split; [done|]. by eexists _, _.
    + by eapply steady_on.
  - apply wp_bind. eapply wp_mono; [by apply (perform_spec _ v os hs w (fun e w' => lives_on v w w'))| |]; [|by eauto].
    cbn. intros _ w' (Hi & _ & Ho' & _). apply HP. split; [done|]. by eexists _, _.
Qed.

Lemma run_uses_lives ms v w (P : unit → World U → Prop) (X : error → World U → Prop) :
  lives_on v w w → (∀ w', lives_on v w w' → P tt w') → wp (run_uses ms) w P X.
Proof.
  revert w. induction ms as [|m ms IH]; intros w (_ & os & hs & Ho) HP; cbn [run_uses].
  { apply HP. split; [done|]. by exists os, hs. }
  assert (Hgo : ∀ w', lives_on v w w' → wp (run_uses ms) w' P X).
  { intros w' [Hi Hw]. apply IH; [by split|]. intros w2 [Hi2 Hw2]. apply HP. split; [congruence|done]. }
  apply wp_bind, wp_catch_all. apply (run_use_lives m v os hs w); [done|intros w'|intros e w']; by apply Hgo.
Qed.

(** libcurl as it was before the client. *)
Definition left_alone (v : View) (w : World U) : Prop := view (curl w) = v.

Lemma destroy_frees v os hs w (P : unit → World U → Prop) (X : error → World U → Prop) :
  owns v os hs w → (∀ w', sInitialize w' = sInitialize w → left_alone v w' → P tt w') →
  wp destroy w P X.
Proof.
  intros (Hg & Hh & Hl) HP. destruct w as [i [e [h|] l] u]; cbn in *; [|done].
  destruct Hh as [Hf Hh].
  assert (Hfin : ∀ u', view u' = {| globals := globals v; handles := <[h:=os]> (handles v); lists := lists v |} →
     left_alone v (Build_World i {| mErrBuffer := e; mCtx := Some h; mHdrList := l |} (curl_easy_cleanup h u'))).
  { intros u' E. unfold left_alone. cbn. rewrite cleanup_law; rewrite E; cbn;
      [|rewrite lookup_insert_eq; by eexists].
    unfold with_handles. cbn. rewrite delete_insert_id by done. by destruct v. }
  unfold destroy. destruct l as [l|]; unfold wp; repeat (rewrite stM_bind_eq; cbn); apply HP; try done; apply Hfin.
  - destruct Hl as [Hn Hl]. rewrite free_law; unfold with_lists; [|rewrite Hl, lookup_insert_eq; by eexists].
    by rewrite Hg, Hh, Hl, delete_insert_id by done.
  - destruct Hl as [_ Hl]. destruct (view u); cbn in *. congruence.
Qed.

(** The flag tells whether libcurl was initialised. *)
Definition flag_ok (w : World U) : Prop := globals (view (curl w)) = if sInitialize w then 1 else 0.

(** Nothing of libcurl is held beside what [v] has. *)
Definition released (v : View) (w : World U) : Prop :=
  flag_ok w ∧ handles (view (curl w)) = handles v ∧ lists (view (curl w)) = lists v.

Lemma construct_owns w :
  flag_ok w →
  wp construct w
    (fun _ w' => ∃ v, owns v [] [] w' ∧ globals v = (if sInitialize w' then 1 else 0) ∧
       handles v = handles (view (curl w)) ∧ lists v = lists (view (curl w)))
    (fun _ w' => released (view (curl w)) w').
Proof.
  intros Hf. unfold construct. apply wp_bind. cbn [wp set_client modify]. apply wp_bind. cbn [wp get].
  set (w1 := Build_World _ _ _). apply wp_bind.
  apply (wp_mono _ _ (fun _ w' => released (view (curl w)) w' ∧
      client w' = {| mErrBuffer := []; mCtx := None; mHdrList := None |})
      _ (fun _ w' => released (view (curl w)) w')); [|intros _ w2 [Hr2 Hc2]|done].
  - apply wp_when; [|done]. intros Hi. apply negb_true_iff in Hi. apply wp_bind.
    unfold wp at 1, call. destruct (curl_global_init (curl w1)) as [u rc] eqn:E. cbn [w1 curl] in E.
    apply global_init_law in E. destruct E as (Hh & Hl & Hg). cbn.
    unfold flag_ok in Hf. cbn in Hi. rewrite Hi in Hf.
    destruct (Z.eqb_spec rc 0); cbn [negb]; [|apply wp_throw_error; [by apply no_nul_bool|by apply not_percent|]];
      unfold wp, released, flag_ok; cbn; by rewrite ?Hi, ?Hg, ?Hf.
  - apply wp_bind. unfold wp at 1, call. destruct (curl_easy_init (curl w2)) as [u [h|]] eqn:E;
      apply easy_init_law in E; destruct Hr2 as (Hf2 & Hh2 & Hl2).
    + destruct E as [Hn Hv]. unfold wp. rewrite stM_bind_eq. cbn.
      exists (view (curl w2)). split; [|done]. unfold owns. cbn. by rewrite Hv.
    + cbv beta iota. apply wp_bind. unfold wp at 1, set_client, modify. cbv beta iota.
      apply wp_throw_error; [by apply no_nul_bool|by apply not_percent|].
      unfold released, flag_ok. cbn. by rewrite E.
Qed.

Lemma life_releases ms w :
  flag_ok w → wp (life ms) w (fun _ w' => released (view (curl w)) w') (fun _ _ => False).
Proof.
  intros Hf. apply wp_catch_all, wp_bind. eapply wp_mono; [by apply construct_owns| |done].
  cbn. intros _ w1 (v & Ho & Hg & Hh & Hl). apply wp_bind.
  apply (run_uses_lives ms v w1); [split; [done|by exists [], []]|].
  intros w2 (Hi & os & hs & Ho2). apply (destroy_frees v os hs w2); [done|].
  intros w3 Hi3 Hv3. unfold left_alone in Hv3. unfold released, flag_ok.
  rewrite Hv3, Hi3, Hi. done.
Qed.

(** ** Properties *)

(** Whatever the calls of libcurl answer and whatever is thrown, any sequence
    of clients, each used in any way, leaves no handle and no header list
    behind, frees none twice and uses none after it is freed; and libcurl
    is initialised at most once. *)
Theorem lives_balance l w :
  flag_ok w → wp (lives l) w (fun _ w' => released (view (curl w)) w') (fun _ _ => False).
Proof.
  revert w. induction l as [|ms l IH]; intros w Hf; cbn [lives]; [by apply wp_ret|].
  apply wp_bind. eapply wp_mono; [by apply life_releases| |done].
  cbn. intros _ w1 (Hf1 & Hh1 & Hl1). eapply wp_mono; [by apply IH| |done].
  cbn. intros _ w2 (Hf2 & Hh2 & Hl2). split; [done|]. split; congruence.
Qed.

End BlockingHttp.

(** ** A small libcurl *)

(** libcurl is its own view; an empty user name is refused. *)
Definition small_setopt (h : option Z) (o : easy_option) (v : View) : View * Z :=
  match h with
  | Some h =>
      match handles v !! h, o with
      | Some _, USERNAME [] => (v, 43%Z)
      | Some os, _ => (with_handles (<[h := o :: os]> (handles v)) v, CURLE_OK)
      | None, _ => (v, 43%Z)
      end
  | None => (v, 43%Z)
  end.

Definition small_append (l : option Z) (header : str) (v : View) : View * option Z :=
  match l with
  | Some l => (with_lists (<[l := default [] (lists v !! l) ++ [header]]> (lists v)) v, Some l)
  | None => let l := fresh (dom (lists v)) in (with_lists (<[l := [header]]> (lists v)) v, Some l)
  end.

#[export] Instance small_curl : CurlEasy View := {
  curl_global_init := fun v =>
    ({| globals := 1 + globals v; handles := handles v; lists := lists v |}, 0%Z);
  curl_easy_init := fun v =>
    let h := fresh (dom (handles v)) in (with_handles (<[h := []]> (handles v)) v, Some h);
  curl_easy_setopt := small_setopt;
  curl_slist_append := small_append;
  curl_slist_free_all := fun l v => with_lists (delete l (lists v)) v;
  curl_easy_cleanup := fun h v => with_handles (delete h (handles v)) v;
  curl_easy_perform := fun _ v => (v, (28%Z, Some #"Operation timed out"))
}.

#[export] Instance small_laws : EasyLaws (U := View) (fun v => v).
Proof.
  split.
  - by intros u u' rc [= <- <-].
  - intros u u' h [= <- <-]. split; [apply not_elem_of_dom, is_fresh|done].
  - intros h o os u u' rc Hh. cbn. unfold small_setopt. rewrite Hh.
    destruct o as [| | |[]| | | | | | | |]; by intros [= <- <-].
  - intros l hs header u u' l' Hl. cbn. unfold small_append. destruct l as [l|]; intros [= <- <-].
    + rewrite Hl. cbn. split; [apply lookup_delete_eq|]. by rewrite insert_delete_eq.
    + subst. split; [apply not_elem_of_dom, is_fresh|done].
  - done.
  - done.
  - by intros h u u' r _ [= <- _].
Qed.

Definition no_curl : View := {| globals := 0; handles := ∅; lists := ∅ |}.
Definition no_client : CHttpClient := {| mErrBuffer := []; mCtx := None; mHdrList := None |}.

(** Two clients; the first one is refused a user name and its transfer
    fails. *)
Definition two_lives : list (list use) :=
  [[UseSSL true; UseAuthData [] []; UseHeader #"X-A: 1"; UseHeader #"X-B: 2"; UsePerform #"http://h/"];
   [UseTimeout 500]].

Lemma lives_balance_example :
  wp (lives two_lives) (Build_World false no_client no_curl)
    (fun _ w' => released (fun v => v) no_curl w') (fun _ _ => False).
Proof. by apply (lives_balance (fun v => v) two_lives (Build_World false no_client no_curl)). Qed.

(** The message of a transfer that fails. *)
Lemma failed_transfer :
  match (construct;; perform #"http://h/") (Build_World false no_client no_curl) with
  | (w, Ret c) => c = FAIL ∧ getErrorStr w = #"Operation timed out"
  | _ => False
  end.
Proof. by vm_compute. Qed.
