(* ===== verification/Drivers.v ===== *)
(** * Drivers (src/drivers/Driver.cpp, src/drivers/*Driver.h,
    src/drivers/*Driver.cpp)

    The seven drivers: the constructors of their configurations, their own
    constructors, [resolve] and [parse], and the factory. *)
From stdpp Require Import vector.
From S2P Require Import Prelude.
From S2P Require Import CLib.
From S2P Require Import Exceptions.
From S2P Require Import EventLoop.
From S2P Require Import Transport.
From S2P Require Import Protocol.
From S2P Require Import Driver.
From S2P Require Import CFloat.
From S2P Require Import CJson.
From S2P Require Import CJsonTree.
From S2P Require Import CJsonPrint.
From S2P Require Import JsonHelpers.
From S2P Require Import CsvClient.
From S2P Require Import UrlTemplate.
From S2P Require Import DriverConfig.
From S2P Require Import SipClient.

(** ** Definitions *)

(** *** Shared pieces *)

(** [catch (std::exception & e) { throw error(e.what()); }] in a driver: the
    message is the format. *)
Definition rethrow {A} (m : M A) : M A :=
  try_catch m (fun e => match std_what e with
                        | Some what => throw_driver what []
                        | None => mthrow e
                        end).

(** [catch (E & e)] for one class, its handler the same. *)
Definition rethrow_only {A} (is_class : exn → bool) (throw_as : str → M A) (m : M A) : M A :=
  try_catch m (fun e => if is_class e then
                          match std_what e with Some what => throw_as what | None => mthrow e end
                        else mthrow e).
Definition is_sip_error (e : exn) : bool := match e with SipError _ => true | _ => false end.
Definition is_csv_error (e : exn) : bool := match e with CsvError _ => true | _ => false end.

Definition set_number (n : str) (r : ResolverRequest) : ResolverRequest :=
  set_result {| localRoutingNumber := n; localRoutingTag := localRoutingTag (req_result r);
                rawData := rawData (req_result r) |} r.
Definition set_tag (t : str) (r : ResolverRequest) : ResolverRequest :=
  set_result {| localRoutingNumber := localRoutingNumber (req_result r); localRoutingTag := t;
                rawData := rawData (req_result r) |} r.
Definition set_raw (d : str) (r : ResolverRequest) : ResolverRequest :=
  set_result {| localRoutingNumber := localRoutingNumber (req_result r);
                localRoutingTag := localRoutingTag (req_result r); rawData := d |} r.

Abbreviation RQ := (stM exn ResolverRequest).

(** [if (port) stream << ":" << std::dec << port] *)
Definition port_suffix (port : Z) : str :=
  if (port =? 0)%Z then [] else #":" ++ to_string port.

(** The requests of the HTTP drivers. *)
Definition json_headers : list str := [ #"Content-Type: application/json"].

Definition get_request (request : ResolverRequest) (dstURL : str) (auth : ECAuth)
  (login pass : option str) (verify : bool) (timeout : Z) (headers : list str) : HttpRequest :=
  {| hr_id := req_id request; hr_url := Some (c_str dstURL); hr_auth_type := auth;
     hr_login := login; hr_pass := pass; hr_verify_ssl := verify; hr_timeout_ms := timeout;
     hr_headers := headers |}.

(** A [resolve] that makes the request of [url] and calls its handler. *)
Definition http_resolve {S} `{ResolverHandler S} (make : ResolverRequest → M HttpRequest)
  : stM exn (ResolverRequest * S) unit :=
  fun rs => match make (fst rs) with
            | Ret hr => call_handler hr rs
            | Throw e => (rs, Throw e)
            | Undef => (rs, Undef)
            end.

(** *** Configurations *)

Record CSipDriverCfg : Type := { sip_base : CDriverCfg; sip_host : str; sip_port : Z; sip_timeout : Z }.
Record CHttpThinqDriverCfg : Type := {
  thinq_base : CDriverCfg; thinq_host : str; thinq_port : Z; thinq_user : str;
  thinq_token : str; thinq_timeout : Z }.
Record CMhashCsvDriverCfg : Type := { csv_base : CDriverCfg; csv_file : str }.
Record CHttpAlcazarDriverCfg : Type := {
  alcazar_base : CDriverCfg; alcazar_host : str; alcazar_port : Z; alcazar_key : str;
  alcazar_timeout : Z }.
Record OperatorsMap_t : Type := { operators : gmap str Z; default_value : Z }.
Record CHttpCoureAnqDriverCfg : Type := {
  coure_base : CDriverCfg; base_url : str; username : str; password : str;
  country_code : str; coure_timeout : Z; operators_map : OperatorsMap_t }.
Record CCnamHttpDriverCfg : Type := {
  cnam_base : CDriverCfg; cnam_url : str; cnam_timeout : Z; uri_parts : list UriPart }.
Record CHttpBulkvsDriverCfg : Type := {
  bulkvs_base : CDriverCfg; bulkvs_url : str; bulkvs_token : str; bulkvs_timeout : Z;
  mValidateHttpsCer : bool }.

(** The member [cfg.sip] of the system configuration. *)
Record sip_settings : Type := { from_name : str; from_uri : str; contact_data : str }.

(** The fields of a CSV row. *)
Definition ECSV_FIELD_NUMBER : Z := 0.
Definition ECSV_FIELD_MAX_VALUE : nat := 3.
Definition ECSV_FIELD_ROUTING_TAG : fin ECSV_FIELD_MAX_VALUE := 1%fin.
Definition ECSV_FIELD_ROUTING_NUMBER : fin ECSV_FIELD_MAX_VALUE := 2%fin.

(** *** Drivers *)

Inductive driver : Type :=
  | CSipDriver (cfg : CSipDriverCfg) (mURIPrefix mURISuffix : str)
  | CHttpThinqDriver (cfg : CHttpThinqDriverCfg) (mURLPrefix mURLSuffix : str)
  | CMhashCsvDriver (cfg : CMhashCsvDriverCfg) (mCsvHash : hash_t ECSV_FIELD_MAX_VALUE)
  | CHttpAlcazarDriver (cfg : CHttpAlcazarDriverCfg) (mURLPrefix : str)
  | CHttpCoureAnqDriver (cfg : CHttpCoureAnqDriverCfg) (url_prefix : str)
  | CCnamHttpDriver (cfg : CCnamHttpDriverCfg)
  | CHttpBulkvsDriver (cfg : CHttpBulkvsDriverCfg).

Definition driver_base (d : driver) : CDriverCfg :=
  match d with
  | CSipDriver c _ _ => sip_base c | CHttpThinqDriver c _ _ => thinq_base c
  | CMhashCsvDriver c _ => csv_base c | CHttpAlcazarDriver c _ => alcazar_base c
  | CHttpCoureAnqDriver c _ => coure_base c | CCnamHttpDriver c => cnam_base c
  | CHttpBulkvsDriver c => bulkvs_base c
  end.

(** The name each constructor passes to [CDriver::CDriver]. *)
Definition driver_name (d : driver) : str :=
  match d with
  | CSipDriver _ _ _ => #"SIP/301-302" | CHttpThinqDriver _ _ _ => #"REST/ThinQ"
  | CMhashCsvDriver _ _ => #"MHASH/CSV" | CHttpAlcazarDriver _ _ => #"Alcazar Networks"
  | CHttpCoureAnqDriver _ _ => #"Coure ANQ" | CCnamHttpDriver _ => #"CNAM HTTP"
  | CHttpBulkvsDriver _ => #"Buklvs API"
  end.

Definition driver_type (d : driver) : Z :=
  match d with CCnamHttpDriver _ => DriverTypeCnam | _ => DriverTypeTagged end.

(** *** Configuration constructors *)

Section Configurations.
Context {Row : Type} `{!PqxxRow Row}.
Variable sConfigType : ECfgFormat_t.

(** [CSipDriverCfg::CSipDriverCfg], without the static data. *)
Definition new_CSipDriverCfg (data : Row) : M CSipDriverCfg :=
  base ← new_CDriverCfg sConfigType data;
  let label := c_str (mLabel base) in
  if as_json sConfigType then
    relabel label
      (jData ← json_parameters data;
       mHost ← getJsonHost sConfigType jData;
       require_value label mHost #"host value is invalid!";;
       mPort ← getJsonPort sConfigType jData;
       mTimeout ← getJsonTimeout sConfigType jData;
       mret {| sip_base := base; sip_host := mHost; sip_port := mPort; sip_timeout := mTimeout |})
  else
    mHost ← getRawHost sConfigType data;
    require_value label mHost #"host value is invalid!";;
    mPort ← getRawPort sConfigType data;
    mTimeout ← getRawTimeout sConfigType data;
    mret {| sip_base := base; sip_host := mHost; sip_port := mPort; sip_timeout := mTimeout |}.

(** [CHttpThinqDriverCfg::CHttpThinqDriverCfg] *)
Definition new_CHttpThinqDriverCfg (data : Row) : M CHttpThinqDriverCfg :=
  base ← new_CDriverCfg sConfigType data;
  let label := c_str (mLabel base) in
  let make mHost mUserName mToken mPort mTimeout :=
    {| thinq_base := base; thinq_host := mHost; thinq_port := mPort; thinq_user := mUserName;
       thinq_token := mToken; thinq_timeout := mTimeout |} in
  if as_json sConfigType then
    relabel label
      (jData ← json_parameters data;
       mHost ← getJsonHost sConfigType jData;
       require_value label mHost #"host value is invalid!";;
       mUserName ← getJsonUserName sConfigType jData;
       require_value label mUserName #"user name value is invalid!";;
       mToken ← getJsonString sConfigType #"token" jData;
       require_value label mToken #"token value is invalid!";;
       mPort ← getJsonPort sConfigType jData;
       mTimeout ← getJsonTimeout sConfigType jData;
       mret (make mHost mUserName mToken mPort mTimeout))
  else
    mHost ← getRawHost sConfigType data;
    require_value label mHost #"host value is invalid!";;
    mUserName ← getRawUserName sConfigType data;
    require_value label mUserName #"user name value is invalid!";;
    mToken ← getRawColumn sConfigType #"o_thinq_token" data;
    require_value label mToken #"token value is invalid!";;
    mPort ← getRawPort sConfigType data;
    mTimeout ← getRawTimeout sConfigType data;
    mret (make mHost mUserName mToken mPort mTimeout).

(** [CMhashCsvDriverCfg::CMhashCsvDriverCfg] *)
Definition new_CMhashCsvDriverCfg (data : Row) : M CMhashCsvDriverCfg :=
  base ← new_CDriverCfg sConfigType data;
  let label := c_str (mLabel base) in
  if as_json sConfigType then
    relabel label
      (jData ← json_parameters data;
       mFilePath ← getJsonString sConfigType #"csv_file_path" jData;
       require_value label mFilePath #"invalid csv file path!";;
       mret {| csv_base := base; csv_file := mFilePath |})
  else
    mFilePath ← getRawColumn sConfigType #"o_csv_file" data;
    require_value label mFilePath #"invalid csv file path!";;
    mret {| csv_base := base; csv_file := mFilePath |}.

(** [CHttpAlcazarDriverCfg::getRawKey] from a column: the second format
    alone has it. *)
Definition getRawKey (data : Row) : M str :=
  if bool_decide (sConfigType = ECONFIG_DATA_AS_SEPARATE_COLUMN_V2)
  then field_as_string data #"o_alkazar_key" else mret [].

(** [CHttpAlcazarDriverCfg::CHttpAlcazarDriverCfg] *)
Definition new_CHttpAlcazarDriverCfg (data : Row) : M CHttpAlcazarDriverCfg :=
  base ← new_CDriverCfg sConfigType data;
  let label := c_str (mLabel base) in
  let make mHost mKey mPort mTimeout :=
    {| alcazar_base := base; alcazar_host := mHost; alcazar_port := mPort; alcazar_key := mKey;
       alcazar_timeout := mTimeout |} in
  if as_json sConfigType then
    relabel label
      (jData ← json_parameters data;
       mHost ← getJsonHost sConfigType jData;
       require_value label mHost #"host value is invalid!";;
       mKey ← getJsonString sConfigType #"key" jData;
       require_value label mKey #"key value is invalid!";;
       mPort ← getJsonPort sConfigType jData;
       mTimeout ← getJsonTimeout sConfigType jData;
       mret (make mHost mKey mPort mTimeout))
  else
    mHost ← getRawHost sConfigType data;
    require_value label mHost #"host value is invalid!";;
    mKey ← getRawKey data;
    require_value label mKey #"key value is invalid!";;
    mPort ← getRawPort sConfigType data;
    mTimeout ← getRawTimeout sConfigType data;
    mret (make mHost mKey mPort mTimeout).

(** The loop of [OperatorsMap_t::parse] over the members. *)
Fixpoint parse_operators (l : list cJSON) (m : gmap str Z) (dflt : option Z)
  : M (gmap str Z * option Z) :=
  match l with
  | [] => mret (m, dflt)
  | c :: l =>
      if negb (jtype c =? cJSON_Number)%Z
      then throw_runtime #"OperatorsMap_t::parse: unexpected operators_map value type"
      else
        key ← deref (name c);
        value ← getJsonValue_int u32 c;
        if strcmp_eq key #"default" then
          match dflt with
          | Some _ => throw_runtime (quoted #"OperatorsMap_t::parse: duplicate 'default' key")
          | None => parse_operators l m (Some value)
          end
        else
          parse_operators l (match m !! c_str key with
                             | Some _ => m | None => <[c_str key := value]> m end) dflt
  end.

(** [OperatorsMap_t::parse] *)
Definition OperatorsMap_parse (j : cJSON) : M OperatorsMap_t :=
  if negb (jtype j =? cJSON_Object)%Z
  then throw_runtime #"OperatorsMap_t::parse: JSON object expected"
  else
    '(m, dflt) ← parse_operators (child j) ∅ None;
    match dflt with
    | Some d => mret {| operators := m; default_value := d |}
    | None => throw_runtime (quoted #"OperatorsMap_t::parse: misssed 'default' value mapping")
    end.

(** [OperatorsMap_t::resolve] *)
Definition OperatorsMap_resolve (m : OperatorsMap_t) (operator_name : str) : Z :=
  default (default_value m) (operators m !! operator_name).

(** The member [operators_map] of the configuration. *)
Definition read_operators_map (label : str) (j : cJSON) : M OperatorsMap_t :=
  match cJSON_GetObjectItem (Some j) (Some #"operators_map") with
  | None => throw_cfg label #"misssed operators_map field" []
  | Some m =>
      if (jtype m =? cJSON_String)%Z then
        operators_map_str ← getJsonValue_string m;
        operators_map_json ← cJSON_Parse (c_str operators_map_str);
        match operators_map_json with
        | None => throw_cfg label #"failed to parse operators_map json" []
        | Some o => OperatorsMap_parse o
        end
      else if (jtype m =? cJSON_Object)%Z then OperatorsMap_parse m
      else throw_cfg label #"unexpected operators_map field type" []
  end.

(** [cJSON_Parse(data["parameters"].c_str())] with the test of the result. *)
Definition parse_parameters (label : str) (data : Row) : M cJSON :=
  text ← field_c_str data #"parameters";
  jptr ← pr_item <$> cJSON_ParseWithOpts text false;
  match jptr with
  | None => throw_cfg label #"failed to parse json" []
  | Some j => mret j
  end.

(** [CHttpCoureAnqDriverCfg::CHttpCoureAnqDriverCfg] *)
Definition new_CHttpCoureAnqDriverCfg (data : Row) : M CHttpCoureAnqDriverCfg :=
  base ← new_CDriverCfg sConfigType data;
  let label := c_str (mLabel base) in
  if negb (as_json sConfigType) then throw_cfg label #"unsupported config format" [] else
  relabel label
    (j ← parse_parameters label data;
     base_url ← getJsonValueByKey getJsonValue_string j #"base_url";
     username ← getJsonValueByKey getJsonValue_string j #"username";
     password ← getJsonValueByKey getJsonValue_string j #"password";
     country_code ← getJsonValueByKey getJsonValue_string j #"country_code";
     timeout ← getJsonValueByKey (getJsonValue_int u32) j #"timeout";
     operators_map ← read_operators_map label j;
     mret {| coure_base := base; base_url := base_url; username := username;
             password := password; country_code := country_code; coure_timeout := timeout;
             operators_map := operators_map |}).

(** [CCnamHttpDriverCfg::CCnamHttpDriverCfg] *)
Definition new_CCnamHttpDriverCfg (data : Row) : M CCnamHttpDriverCfg :=
  base ← new_CDriverCfg sConfigType data;
  let label := c_str (mLabel base) in
  if negb (as_json sConfigType) then throw_cfg label #"unsupported config format" [] else
  relabel label
    (j ← parse_parameters label data;
     timeout ← getJsonValueByKey (getJsonValue_int u32) j #"timeout";
     url ← getJsonValueByKey getJsonValue_string j #"url";
     parts ← parse_url_template url;
     mret {| cnam_base := base; cnam_url := url; cnam_timeout := timeout; uri_parts := parts |}).

(** [CHttpBulkvsDriverCfg::CHttpBulkvsDriverCfg].  Without the JSON format
    the constructor leaves its members without a value, and the first thing
    done with a driver is to show them: undefined. *)
Definition new_CHttpBulkvsDriverCfg (data : Row) : M CHttpBulkvsDriverCfg :=
  base ← new_CDriverCfg sConfigType data;
  let label := c_str (mLabel base) in
  if as_json sConfigType then
    relabel label
      (jData ← json_parameters data;
       mUrl ← getJsonString sConfigType #"url" jData;
       require_value label mUrl #"url value is invalid!";;
       mToken ← getJsonString sConfigType #"token" jData;
       require_value label mToken #"token value is invalid!";;
       mTimeout ← getJsonTimeout sConfigType jData;
       flag ← item_bool <$> jsonxx_item jData #"validate_https_certificate";
       mret {| bulkvs_base := base; bulkvs_url := mUrl; bulkvs_token := mToken;
               bulkvs_timeout := mTimeout; mValidateHttpsCer := flag |})
  else Undef.

End Configurations.

(** *** Driver constructors *)

(** [CHttpThinqDriver::CHttpThinqDriver] *)
Definition new_CHttpThinqDriver (cfg : CHttpThinqDriverCfg) : driver :=
  CHttpThinqDriver cfg
    (#"https" ++ #"://" ++ c_str (thinq_host cfg) ++ port_suffix (thinq_port cfg)
     ++ #"/lrn/extended/") #"?format=json".

(** [CHttpAlcazarDriver::CHttpAlcazarDriver] *)
Definition new_CHttpAlcazarDriver (cfg : CHttpAlcazarDriverCfg) : driver :=
  CHttpAlcazarDriver cfg
    (#"http" ++ #"://" ++ c_str (alcazar_host cfg) ++ port_suffix (alcazar_port cfg)
     ++ #"/api/2.2/lrn?extended=true&output=json" ++ #"&key=" ++ c_str (alcazar_key cfg)
     ++ #"&tn=").

(** [CHttpCoureAnqDriver::CHttpCoureAnqDriver] *)
Definition new_CHttpCoureAnqDriver (cfg : CHttpCoureAnqDriverCfg) : driver :=
  CHttpCoureAnqDriver cfg
    (base_url cfg ++ #"/api/json/LookUpNumber/GsmPortStatus?" ++ #"username=" ++ username cfg
     ++ #"&password=" ++ password cfg ++ #"&ServiceType=4" ++ #"&country=" ++ country_code cfg
     ++ #"&numbersToLookUp=").

(** [CMhashCsvDriver::CMhashCsvDriver] *)
Definition new_CMhashCsvDriver (open_file : str → option str) (cfg : CMhashCsvDriverCfg)
  : M driver :=
  mCsvHash ← rethrow_only is_csv_error
    (fun what => throw_cfg (c_str (mLabel (csv_base cfg))) what [])
    (CCsvClient open_file (Some (c_str (csv_file cfg))) ECSV_FIELD_NUMBER ECSV_FIELD_MAX_VALUE);
  mret (CMhashCsvDriver cfg mCsvHash).

(** *** The static state and the factory *)

Section Factory.
Context {Row : Type} `{!PqxxRow Row} {L : Type} (re : re_call → L → L * Z).
Variable open_file : str → option str.
Variable cfg_sip : sip_settings.

(** The static members of the driver classes: the format, what
    [setStaticData] has set, and the SIP client. *)
Record driver_statics : Type := {
  sConfigType : ECfgFormat_t;
  sip_static : option sip_settings;
  sip_client : Sip (L := L)
}.

Abbreviation F := (stM exn driver_statics).

Definition on_format {A} (m : stM exn ECfgFormat_t A) : F A :=
  fun c => let '(f, o) := m (sConfigType c) in
           ({| sConfigType := f; sip_static := sip_static c; sip_client := sip_client c |}, o).
Definition on_sip {A} (m : stM exn (Sip (L := L)) A) : F A :=
  fun c => let '(s, o) := m (sip_client c) in
           ({| sConfigType := sConfigType c; sip_static := sip_static c; sip_client := s |}, o).

(** [CSipDriverCfg::setStaticData] *)
Definition setStaticData : F unit :=
  modify (fun c => {| sConfigType := sConfigType c;
                      sip_static := Some (default cfg_sip (sip_static c));
                      sip_client := sip_client c |}).

Definition static_text (get : sip_settings → str) (c : driver_statics) : option str :=
  Some (c_str (match sip_static c with Some s => get s | None => [] end)).

(** [CSipDriver::CSipDriver] *)
Definition new_CSipDriver (data : Row) : F driver :=
  c ← get;
  cfg ← lift (new_CSipDriverCfg (sConfigType c) data);
  setStaticData;;
  on_sip (getInstance re (Some #"Yeti LNP resolver"));;
  c ← get;
  on_sip (setContactData (static_text contact_data c));;
  on_sip (setFromData (static_text from_name c) (static_text from_uri c));;
  mret (CSipDriver cfg (#"sip" ++ #":")
          (#"@" ++ c_str (sip_host cfg) ++ port_suffix (sip_port cfg))).

(** [CDriver::instantiate] *)
Definition driver_instantiate (data : Row) : F (option driver) :=
  driverId ← on_format (getID data);
  c ← get;
  let f := sConfigType c in
  match driverId with
  | ERESOLVER_DRIVER_SIP => d ← new_CSipDriver data; mret (Some d)
  | ERESOLVER_DRIVER_HTTP_THINQ =>
      lift (Some ∘ new_CHttpThinqDriver <$> new_CHttpThinqDriverCfg f data)
  | ERESOLVER_DRIVER_MHASH_CSV =>
      lift (Some <$> (new_CMhashCsvDriverCfg f data ≫= new_CMhashCsvDriver open_file))
  | ERESOLVER_DRIVER_HTTP_ALCAZAR =>
      lift (Some ∘ new_CHttpAlcazarDriver <$> new_CHttpAlcazarDriverCfg f data)
  | ERESOLVER_DIRVER_HTTP_COUREANQ =>
      lift (Some ∘ new_CHttpCoureAnqDriver <$> new_CHttpCoureAnqDriverCfg f data)
  | ERESOLVER_DIRVER_CNAM_HTTP => lift (Some ∘ CCnamHttpDriver <$> new_CCnamHttpDriverCfg f data)
  | ERESOLVER_DIRVER_HTTP_BULKVS =>
      lift (Some ∘ CHttpBulkvsDriver <$> new_CHttpBulkvsDriverCfg f data)
  | _ => mret None
  end.

End Factory.

(** *** [resolve] and [parse] *)

(** [CSipDriver::parse] *)
Definition sip_parse_uri (data : str) : M str :=
  let fix search (l : list str) : option str :=
    match l with
    | [] => None
    | i :: l => match getlines "=" i with
                | [name; value] => if str_eqb name #"rn" then Some value else search l
                | _ => search l
                end
    end in
  match search (getlines ";" data) with
  | Some value => mret value
  | None => throw_driver ([chr 208; chr 161] ++ #"ontact user without 'rn' parameter") []
  end.

Definition sip_parse (data : str) : RQ unit :=
  match find_char ";" data with
  | None => modify (fun r => set_number data (set_raw data r))
  | Some _ =>
      number ← lift (sip_parse_uri data);
      modify (set_number number);;
      modify (set_raw data)
  end.

(** [CHttpThinqDriver::parse], [CHttpBulkvsDriver::parse]: one member of the
    reply. *)
Definition json_parse (key data : str) : RQ unit :=
  number ← lift (rethrow (j ← jsonxx data; i ← jsonxx_item j key; item_string i));
  modify (set_number number);;
  modify (set_raw data).

(** [CHttpAlcazarDriver::parse] *)
Definition alcazar_parse (data : str) : RQ unit :=
  jdata ← lift (rethrow (jsonxx data));
  number ← lift (rethrow (i ← jsonxx_item jdata #"LRN"; item_string i));
  modify (set_number number);;
  tag ← lift (rethrow (i ← jsonxx_item jdata #"JURISDICTION"; item_string i));
  modify (set_tag tag);;
  modify (set_raw data).

(** The first result of a reply: the checks of [CHttpCoureAnqDriver::parse]
    up to it. *)
Definition coure_result (data : str) : M cJSON :=
  j ← cJSON_Parse (c_str data);
  match j with
  | None => throw_driver #"failed to parse reply JSON" []
  | Some j =>
      if negb (jtype j =? cJSON_Object)%Z
      then throw_driver #"expected JSON object in reply" []
      else
        match cJSON_GetObjectItem (Some j) (Some #"Result") with
        | None => throw_driver (quoted #"no 'Result' key in reply") []
        | Some result_j =>
            if negb (jtype result_j =? cJSON_Array)%Z
            then throw_driver (quoted #"expected array in 'Result' key in reply") []
            else match child result_j with
                 | [] => throw_driver (quoted #"empty array in 'Result' key in reply") []
                 | data_j :: _ =>
                     if negb (jtype data_j =? cJSON_Object)%Z
                     then throw_driver (quoted #"expected object array in 'Result' key in reply") []
                     else mret data_j
                 end
        end
  end.

(** [CHttpCoureAnqDriver::parse] *)
Definition coure_parse (m : OperatorsMap_t) (data : str) : RQ unit :=
  modify (set_raw data);;
  data_j ← lift (coure_result data);
  ported ← lift (getJsonValueByKey (getJsonValue_int s32) data_j #"IsPorted");
  if (ported =? 1)%Z then
    number ← lift (getJsonValueByKey getJsonValue_string data_j #"Number");
    modify (set_number number);;
    operator ← lift (getJsonValueByKey getJsonValue_string data_j #"TheOperator");
    modify (set_tag (to_string (OperatorsMap_resolve m operator)))
  else if ((ported =? 0) || (ported =? 2))%Z then
    modify (fun r => set_tag [] (set_number (req_data r) r))
  else lift (throw_driver (quoted #"unexpected ported 'IsPorted' value in reply") []).

(** The JSON text of [{"response": reply}]. *)
Definition response_text (j : cJSON) : M (option str) :=
  let response_json := cJSON_AddItemReferenceToObject (Some cJSON_CreateObject)
                         (Some #"response") (Some j) in
  obj ← deref response_json;
  cJSON_PrintUnformatted obj.

(** [CCnamHttpDriver::parse] *)
Definition cnam_parse (data : str) : RQ unit :=
  modify (set_raw data);;
  j ← lift (cJSON_Parse (c_str data));
  match j with
  | None => lift (throw_driver #"failed to parse reply JSON" [])
  | Some j =>
      if negb (jtype j =? cJSON_Object)%Z
      then lift (throw_driver #"expected JSON object in reply" [])
      else
        s ← lift (response_text j);
        s ← lift (deref s);
        modify (set_raw (c_str s))
  end.

Definition driver_do_parse (d : driver) (data : str) : RQ unit :=
  match d with
  | CSipDriver _ _ _ => sip_parse data
  | CHttpThinqDriver _ _ _ => json_parse #"lrn" data
  | CMhashCsvDriver _ _ => mret tt
  | CHttpAlcazarDriver _ _ => alcazar_parse data
  | CHttpCoureAnqDriver cfg _ => coure_parse (operators_map cfg) data
  | CCnamHttpDriver _ => cnam_parse data
  | CHttpBulkvsDriver _ => json_parse #"name" data
  end.

(** The HTTP requests. *)
Definition thinq_request (cfg : CHttpThinqDriverCfg) (mURLPrefix mURLSuffix : str)
  (request : ResolverRequest) : HttpRequest :=
  get_request request (mURLPrefix ++ req_data request ++ mURLSuffix) AUTH_BASIC
    (Some (c_str (thinq_user cfg))) (Some (c_str (thinq_token cfg))) false (thinq_timeout cfg)
    json_headers.

Definition alcazar_request (cfg : CHttpAlcazarDriverCfg) (mURLPrefix : str)
  (request : ResolverRequest) : HttpRequest :=
  get_request request (mURLPrefix ++ req_data request) AUTH_NONE None None false
    (alcazar_timeout cfg) json_headers.

Definition coure_request (cfg : CHttpCoureAnqDriverCfg) (url_prefix : str)
  (request : ResolverRequest) : HttpRequest :=
  get_request request (url_prefix ++ req_data request) AUTH_NONE None None false
    (coure_timeout cfg) json_headers.

Definition bulkvs_request (cfg : CHttpBulkvsDriverCfg) (request : ResolverRequest)
  : HttpRequest :=
  get_request request
    (bulkvs_url cfg ++ #"/?id=" ++ bulkvs_token cfg ++ #"&did=" ++ req_data request
     ++ #"&format=json")
    AUTH_BASIC None None (mValidateHttpsCer cfg) (bulkvs_timeout cfg) [].

(** The request of [CCnamHttpDriver::resolve]. *)
Definition cnam_request (cfg : CCnamHttpDriverCfg) (request : ResolverRequest) : M HttpRequest :=
  request_json ← cJSON_Parse (c_str (req_data request));
  match request_json with
  | None => throw_driver #"failed to parse request json" []
  | Some j =>
      if negb (jtype j =? cJSON_Object)%Z
      then throw_driver #"expected JSON object in request" []
      else
        dstURL ← get_url (uri_parts cfg) j;
        mret (get_request request dstURL AUTH_NONE None None false (cnam_timeout cfg) json_headers)
  end.

(** [CMhashCsvDriver::resolve] *)
Definition csv_resolve (mCsvHash : hash_t ECSV_FIELD_MAX_VALUE) : RQ unit :=
  request ← get;
  csvRow ← lift (rethrow_only is_csv_error (fun what => throw_driver what [])
                   (perform mCsvHash (req_data request)));
  match csvRow with
  | None => modify (set_number (req_data request))
  | Some row =>
      modify (set_number (field row !!! ECSV_FIELD_ROUTING_NUMBER));;
      modify (set_tag (field row !!! ECSV_FIELD_ROUTING_TAG))
  end;;
  modify set_done.

Section Resolve.

(** The SIP client the constructors have initialised, and what the network
    answers to an INVITE; the request tells who asks, and when. *)
Variable sip : CSipClient.
Variable sipsess_connect : ResolverRequest → CSipClient → str → option (list (option sip_msg)).

(** [CSipDriver::resolve] *)
Definition sip_resolve (cfg : CSipDriverCfg) (mURIPrefix mURISuffix : str) : RQ unit :=
  request ← get;
  let dstUri := mURIPrefix ++ req_data request ++ mURISuffix in
  '(code, replyBuf) ← lift (rethrow_only is_sip_error (fun what => throw_driver what [])
     ('(code, replyBuf) ← sip_perform (sipsess_connect request) (setTimeout (sip_timeout cfg) sip)
                            (Some (c_str dstUri)) new_SReplyData;
      match code with
      | OK => mret (code, replyBuf)
      | FAIL => throw_driver #"no SIP response" []
      end));
  sip_parse (rawContactData replyBuf);;
  modify set_done.

Definition driver_do_resolve {S} `{ResolverHandler S} (d : driver)
  : stM exn (ResolverRequest * S) unit :=
  match d with
  | CSipDriver cfg mURIPrefix mURISuffix => on_fst (sip_resolve cfg mURIPrefix mURISuffix)
  | CHttpThinqDriver cfg p s => http_resolve (fun r => Ret (thinq_request cfg p s r))
  | CMhashCsvDriver _ mCsvHash => on_fst (csv_resolve mCsvHash)
  | CHttpAlcazarDriver cfg p => http_resolve (fun r => Ret (alcazar_request cfg p r))
  | CHttpCoureAnqDriver cfg p => http_resolve (fun r => Ret (coure_request cfg p r))
  | CCnamHttpDriver cfg => http_resolve (cnam_request cfg)
  | CHttpBulkvsDriver cfg => http_resolve (fun r => Ret (bulkvs_request cfg r))
  end.

#[export] Instance driver_CDriver : CDriver driver := {
  getName := driver_name;
  getUniqueId d := mUniqId (driver_base d);
  getDriverType := driver_type;
  resolve S _ d := driver_do_resolve d;
  driver_parse := driver_do_parse
}.

End Resolve.
