(* ===== verification/DriversSpec.v ===== *)
(** * The drivers keep the driver interface

    Each driver of Drivers.v satisfies the laws the resolver is proved
    against: its [resolve] settles the request, throws, or calls its handler
    once; its [parse] has no undefined behaviour on any reply; neither
    changes who asked or what. *)
From stdpp Require Import vector.
From S2P Require Import Prelude.
From S2P Require Import CLib.
From S2P Require Import Exceptions.
From S2P Require Import EventLoop.
From S2P Require Import Transport.
From S2P Require Import Protocol.
From S2P Require Import Driver.
From S2P Require Import CFloat.
From S2P Require Import CFloatSpec.
From S2P Require Import CJson.
From S2P Require Import CJsonTree.
From S2P Require Import CJsonPrint.
From S2P Require Import CJsonPrintSpec.
From S2P Require Import CJsonSafety.
From S2P Require Import JsonHelpers.
From S2P Require Import CsvClient.
From S2P Require Import UrlTemplate.
From S2P Require Import DriverConfig.
From S2P Require Import SipClient.
From S2P Require Import Drivers.

(** ** Definitions *)

(** An exception whose message is its own format. *)
Definition tame_exn (e : exn) : Prop :=
  match std_what e with Some w => "%"%char ∉ w | None => False end.

(** A computation that returns or throws such an exception. *)
Definition tame {A} (m : M A) : Prop :=
  match m with Ret _ => True | Throw e => tame_exn e | Undef => False end.

(** A computation on a request that keeps it, from every request. *)
Definition keeps_request (m : stM exn ResolverRequest unit) : Prop :=
  ∀ r, same_request r (fst (m r)) ∧ defined (snd (m r)).

Create HintDb tame.

(** ** Lemmas: exceptions *)

Lemma tame_defined {A} (m : M A) : tame m → defined m.
Proof. by destruct m. Qed.

Lemma tame_ret {A} (a : A) : tame (mret a).
Proof. done. Qed.

Lemma tame_bind {A B} (m : M A) (f : A → M B) :
  tame m → (∀ a, m = Ret a → tame (f a)) → tame (m ≫= f).
Proof. destruct m; cbn; auto. Qed.

Lemma c_str_subset s c : c ∈ c_str s → c ∈ s.
Proof.
  induction s as [|d s IH]; [done|]. cbn. destruct (Ascii.eqb d NUL); [by intros ?%not_elem_of_nil|].
  rewrite !elem_of_cons. naive_solver.
Qed.

Lemma tame_runtime {A} w : "%"%char ∉ w → tame (throw_runtime w : M A).
Proof. intros H Hin. by apply H, c_str_subset. Qed.

Lemma digits_no_percent n : (0 ≤ n)%Z → "%"%char ∉ digits n.
Proof. intros. by apply digits_not_in. Qed.

Lemma tame_out_of_range {A} pos size :
  (0 ≤ size)%Z → tame (throw_out_of_range pos size : M A).
Proof.
  intros Hs Hin. apply c_str_subset in Hin.
  assert (Hp : ∀ n, (0 ≤ n)%Z → "%"%char ∉ to_string n).
  { intros n Hn. unfold to_string. destruct (Z.ltb_spec n 0); [lia|]. by apply digits_no_percent. }
  assert (Hu : (0 ≤ u64 pos)%Z) by (apply Z.mod_pos_bound; lia).
  rewrite !elem_of_app in Hin. destruct Hin as [Hin|[Hin|[Hin|[Hin|Hin]]]];
    try (by eapply Hp in Hin); revert Hin; by apply not_percent.
Qed.

Lemma throw_driver_tame {A} w :
  "%"%char ∉ c_str w → (throw_driver (c_str w) [] : M A) = Throw (DriverError (c_str w)).
Proof.
  intros H. unfold throw_driver. rewrite fmt_what_plain; [done|apply no_nul_c_str|done].
Qed.

Lemma throw_driver_defined {A} fmt :
  no_nul fmt → existsb (Ascii.eqb "%") fmt = false → ∃ w, (throw_driver fmt [] : M A) = Throw (DriverError w).
Proof.
  intros Hn H. exists fmt. unfold throw_driver. rewrite fmt_what_plain; [done|done|].
  by apply not_percent.
Qed.

Lemma rethrow_cases {A} (m : M A) :
  tame m → (∃ a, m = Ret a ∧ rethrow m = Ret a) ∨ ∃ w, rethrow m = Throw (DriverError w).
Proof.
  destruct m as [a|e|]; [by eauto| |done]. intros He. right. unfold rethrow, try_catch.
  unfold tame, tame_exn in He.
  assert (Hw : ∀ w, std_what e = Some w → ∃ w', w = c_str w')
    by (destruct e; intros ? [= <-]; eauto).
  destruct (std_what e) as [w|]; [|done]. destruct (Hw w eq_refl) as [w' ->].
  rewrite throw_driver_tame by done. by eexists.
Qed.

Lemma rethrow_defined {A} (m : M A) : tame m → defined (rethrow m).
Proof. intros H. by destruct (rethrow_cases m H) as [(a & _ & ->)|[w ->]]. Qed.

(** ** Lemmas: reading JSON *)

Lemma unquote_tame s : tame (unquote s).
Proof. rewrite unquote_eq. destruct (too_short s); [by apply tame_out_of_range|done]. Qed.

Lemma item_string_tame i : parsed_ok i → tame (item_string i).
Proof.
  intros Hp. unfold item_string, isString. destruct (Z.eqb_spec (jtype i) cJSON_String); [|done].
  destruct (parsed_string i) as [s ->]; [done..|]. apply unquote_tame.
Qed.

Lemma jsonxx_tame data : tame (jsonxx data).
Proof.
  destruct (jsonxx_cases data) as [(i & -> & _)| ->]; [done|].
  by apply tame_runtime, not_percent.
Qed.

Lemma jsonxx_item_tame o key :
  existsb (Ascii.eqb "%") key = false → tame (jsonxx_item o key).
Proof.
  intros Hk. unfold jsonxx_item. destruct (negb _); [by apply tame_runtime, not_percent|].
  destruct (cJSON_GetObjectItem _ _); [done|]. apply tame_runtime.
  rewrite elem_of_app. intros [Hin|Hin]; revert Hin; by apply not_percent.
Qed.

(** A member read as a string, from a parsed text. *)
Lemma member_string_tame j key :
  parsed_ok j → existsb (Ascii.eqb "%") key = false →
  tame (i ← jsonxx_item j key; item_string i).
Proof.
  intros Hp Hk. apply tame_bind; [by apply jsonxx_item_tame|]. intros i Hi.
  apply item_string_tame. by eapply jsonxx_item_parsed.
Qed.

Lemma text_member_tame data key :
  existsb (Ascii.eqb "%") key = false →
  tame (j ← jsonxx data; i ← jsonxx_item j key; item_string i).
Proof.
  intros Hk. apply tame_bind; [apply jsonxx_tame|]. intros j Hj.
  apply member_string_tame; [|done]. by eapply jsonxx_parsed.
Qed.

(** ** Lemmas: what keeps a request *)

Lemma keeps_bind {A} (m : stM exn ResolverRequest A) (f : A → stM exn ResolverRequest unit) :
  (∀ r, same_request r (fst (m r)) ∧ defined (snd (m r))) →
  (∀ r a, snd (m r) = Ret a → keeps_request (f a)) → keeps_request (m ≫= f).
Proof.
  intros Hm Hf r. rewrite stM_bind_eq. destruct (Hm r) as [Hs Hd]. specialize (Hf r).
  destruct (m r) as [r1 [a|e|]]; cbn in *; try done.
  destruct (Hf a eq_refl r1) as [H1 H2]. split; [by etrans|done].
Qed.

Lemma keeps_modify f : (∀ r, same_request r (f r)) → keeps_request (modify f).
Proof. done. Qed.

Lemma keeps_modify_then f (m : stM exn ResolverRequest unit) :
  (∀ r, same_request r (f r)) → keeps_request m → keeps_request (modify f;; m).
Proof. intros Hf Hm. apply keeps_bind; [by apply keeps_modify|]. auto. Qed.

Lemma keeps_lift {A} (m : M A) (f : A → stM exn ResolverRequest unit) :
  defined m → (∀ a, m = Ret a → keeps_request (f a)) → keeps_request (lift m ≫= f).
Proof. intros Hm Hf. apply keeps_bind; [by split|]. intros r a Ha. by apply Hf. Qed.

Lemma keeps_throw (m : M unit) : defined m → keeps_request (lift m).
Proof. intros Hm r. by split. Qed.

Lemma same_set_number n r : same_request r (set_number n r).
Proof. by destruct r. Qed.
Lemma same_set_tag n r : same_request r (set_tag n r).
Proof. by destruct r. Qed.
Lemma same_set_raw n r : same_request r (set_raw n r).
Proof. by destruct r. Qed.

#[local] Hint Resolve same_set_number same_set_tag same_set_raw same_request_set_done : tame.

(** The steps of a [parse]: a plain assignment, or a guarded value. *)
Ltac keeps :=
  repeat first
    [ apply keeps_modify_then; [by eauto with tame|]
    | apply keeps_lift; [|intros ? ?]
    | apply keeps_modify; by eauto with tame ].

Lemma throw_driver_keeps fmt :
  no_nul fmt → existsb (Ascii.eqb "%") fmt = false → keeps_request (lift (throw_driver fmt [])).
Proof. intros H1 H2. apply keeps_throw. by destruct (@throw_driver_defined unit fmt) as [w ->]. Qed.

(** ** Lemmas: [parse] *)

(** A literal message of a driver. *)
Lemma literal_error {A} fmt :
  existsb (fun c => Ascii.eqb NUL c || Ascii.eqb "%" c) fmt = false →
  (throw_driver fmt [] : M A) = Throw (DriverError fmt).
Proof.
  intros Hl. unfold throw_driver. by rewrite fmt_what_literal.
Qed.

Lemma sip_parse_keeps data : keeps_request (sip_parse data).
Proof.
  unfold sip_parse. destruct (find_char ";" data).
  - keeps. unfold sip_parse_uri. cbv zeta.
    match goal with |- defined (match ?o with _ => _ end) => destruct o end; [done|].
    by rewrite literal_error.
  - apply keeps_modify. intros r. etrans; [apply (same_set_raw data)|apply same_set_number].
Qed.

Lemma json_parse_keeps key data :
  existsb (Ascii.eqb "%") key = false → keeps_request (json_parse key data).
Proof. intros Hk. unfold json_parse. keeps. by apply rethrow_defined, text_member_tame. Qed.

Lemma rethrow_Ret {A} (m : M A) a : rethrow m = Ret a → tame m → m = Ret a.
Proof. intros H Hm. destruct (rethrow_cases m Hm) as [(b & -> & E)|[w E]]; congruence. Qed.

Lemma alcazar_parse_keeps data : keeps_request (alcazar_parse data).
Proof.
  unfold alcazar_parse. apply keeps_lift; [apply rethrow_defined, jsonxx_tame|]. intros j Hj.
  apply rethrow_Ret in Hj; [|apply jsonxx_tame]. apply jsonxx_parsed in Hj.
  keeps; by apply rethrow_defined, member_string_tame.
Qed.

Lemma coure_result_cases data :
  (∃ j, coure_result data = Ret j ∧ parsed_ok j ∧ jtype j = cJSON_Object)
  ∨ ∃ w, coure_result data = Throw (DriverError w).
Proof.
  unfold coure_result.
  destruct (@cJSON_Parse_runs exn (c_str data)) as ([j|] & -> & Hi); rewrite bind_Ret;
    [|rewrite literal_error by done; eauto].
  destruct (Hi j eq_refl) as [Hp _].
  destruct (Z.eqb_spec (jtype j) cJSON_Object); cbn [negb]; [|rewrite literal_error by done; eauto].
  destruct (cJSON_GetObjectItem (Some j) (Some #"Result")) as [rj|] eqn:E;
    [|rewrite literal_error by done; eauto].
  apply object_item_parsed in E; [|done..].
  destruct (Z.eqb_spec (jtype rj) cJSON_Array) as [Ha|]; cbn [negb];
    [|rewrite literal_error by done; eauto].
  pose proof (parsed_children rj E (or_intror Ha)) as Hc.
  destruct (child rj) as [|dj l]; [rewrite literal_error by done; eauto|].
  apply Forall_cons in Hc as [Hdj _].
  destruct (Z.eqb_spec (jtype dj) cJSON_Object); cbn [negb]; [|rewrite literal_error by done; eauto].
  left. eauto.
Qed.

Lemma coure_parse_keeps m data : keeps_request (coure_parse m data).
Proof.
  unfold coure_parse. apply keeps_modify_then; [eauto with tame|].
  destruct (coure_result_cases data) as [(j & -> & Hp & Ho)|[w ->]]; [|by apply keeps_lift].
  apply keeps_lift; [done|]. intros j' [= <-].
  apply keeps_lift; [apply getJsonValueByKey_defined; [done|intros; apply getJsonValue_int_defined]|].
  intros ported _. destruct (ported =? 1)%Z.
  - keeps; apply getJsonValueByKey_defined; [done|apply getJsonValue_string_defined|
      done|apply getJsonValue_string_defined].
  - destruct (_ || _)%bool; [|apply keeps_throw; by rewrite literal_error].
    apply keeps_modify. intros r. etrans; [apply (same_set_number (req_data r))|apply same_set_tag].
Qed.

(** *** The reply of the CNAM driver *)

(** The text the driver answers with: the reply in an object. *)
Definition wrapped (j : cJSON) : str :=
  quoted #"{'response':" ++ render false 1 j ++ #"}".

Lemma wrapped_item j :
  jtype j = cJSON_Object →
  ∃ obj, cJSON_AddItemReferenceToObject (Some cJSON_CreateObject) (Some #"response") (Some j)
         = Some obj ∧
    printable obj = printable j ∧ render false 0 obj = wrapped j.
Proof.
  destruct j as [jt vs vi vd nm c]. cbn [jtype]. intros ->. eexists. split; [reflexivity|].
  split; [cbn; by rewrite andb_true_r|].
  change (#"{" ++ (render_string (Some #"response") ++ #":" ++
      render false 1 (mk_cJSON 320 vs vi vd (Some #"response") c) ++ [] ++ []) ++ #"}"
    = wrapped (mk_cJSON cJSON_Object vs vi vd nm c)).
  rewrite app_nil_r, <- !app_assoc. reflexivity.
Qed.

Lemma response_text_eq data j :
  response_fits data → cJSON_Parse (c_str data) = (Ret (Some j) : M _) → jtype j = cJSON_Object →
  response_text j = Ret (Some (c_str (wrapped j))).
Proof.
  intros Hf Hj Ho. unfold response_text. destruct (wrapped_item j Ho) as (obj & -> & Hpr & Hr).
  cbn [deref]. rewrite bind_Ret. unfold cJSON_PrintUnformatted.
  destruct (@cJSON_Parse_runs exn (c_str data)) as (r & Hp & Hi). rewrite Hj in Hp.
  injection Hp as <-. destruct (Hi j eq_refl) as [Hok Hlen].
  rewrite print_eq; [by rewrite Hr|by rewrite Hpr; apply parsed_printable|].
  rewrite Hr. unfold wrapped. rewrite !length_app. change (length (quoted _)) with 12.
  change (length #"}") with 1. specialize (Hlen 1). pose proof (c_str_length data).
  unfold response_fits, MAX_RESPONSE in Hf. unfold print_limit. lia.
Qed.

Lemma cnam_parse_keeps data : response_fits data → keeps_request (cnam_parse data).
Proof.
  intros Hf. unfold cnam_parse. apply keeps_modify_then; [eauto with tame|].
  pose proof (@cJSON_Parse_runs exn (c_str data)) as (o & Ho & _).
  apply keeps_lift; [by rewrite Ho|]. intros [j|] Hj; [|apply keeps_throw; by rewrite literal_error].
  destruct (Z.eqb_spec (jtype j) cJSON_Object) as [Ht|]; cbn [negb];
    [|apply keeps_throw; by rewrite literal_error].
  rewrite (response_text_eq data j) by done. keeps; by simplify_eq.
Qed.

Lemma driver_parse_keeps d data :
  response_fits data → keeps_request (driver_do_parse d data).
Proof.
  intros Hf. destruct d; cbn [driver_do_parse].
  - apply sip_parse_keeps.
  - by apply json_parse_keeps.
  - done.
  - apply alcazar_parse_keeps.
  - apply coure_parse_keeps.
  - by apply cnam_parse_keeps.
  - by apply json_parse_keeps.
Qed.

(** ** Lemmas: [resolve] *)

(** A resolve that works on the request alone. *)
Definition settles (m : stM exn ResolverRequest unit) : Prop :=
  ∀ r, same_request r (fst (m r)) ∧
    (snd (m r) = Ret tt → is_done (fst (m r)) = true) ∧ defined (snd (m r)).

Lemma settles_then_done (m : stM exn ResolverRequest unit) :
  keeps_request m → settles (m;; modify set_done).
Proof.
  intros Hm r. rewrite stM_bind_eq. destruct (Hm r) as [Hs Hd].
  by destruct (m r) as [r1 [[]|e|]].
Qed.

Lemma settles_shape {S} `{ResolverHandler S} m r (s : S) :
  settles m → resolve_shape r s (on_fst m (r, s)).
Proof.
  intros Hm. rewrite on_fst_eq. destruct (Hm r) as (_ & Hdone & Hdef).
  destruct (m r) as [r1 [[]|e|]]; cbn in *; [|by apply shape_failed|done].
  apply shape_done. by apply Hdone.
Qed.

Lemma csv_resolve_settles h : settles (csv_resolve h).
Proof.
  unfold csv_resolve.
  intros r. rewrite stM_bind_eq. cbn [get fst snd]. rewrite lift_bind.
  unfold perform, perform_ptr. cbn [rethrow_only try_catch mret outcome_mret].
  destruct (h !! _) as [row|]; cbn; by destruct r.
Qed.

Section Resolve.

Variable sip : CSipClient.
Variable sipsess_connect : ResolverRequest → CSipClient → str → option (list (option sip_msg)).

(** The INVITE of [sip_resolve]: a redirect or the driver's error. *)
Lemma sip_request_cases r cfg uri :
  let m := ('(code, replyBuf) ← sip_perform (sipsess_connect r) (setTimeout (sip_timeout cfg) sip)
                                 (Some uri) new_SReplyData;
            match code with
            | OK => mret (code, replyBuf)
            | FAIL => throw_driver #"no SIP response" []
            end) in
  (∃ reply, rethrow_only is_sip_error (fun what => throw_driver what []) m = Ret (OK, reply))
  ∨ ∃ w, rethrow_only is_sip_error (fun what => throw_driver what []) m
         = (Throw (DriverError w) : M (ECCode * SReplyData)).
Proof.
  intros m. unfold m, sip_perform. destruct (sipsess_connect r _ uri) as [msgs|].
  - cbv zeta. destruct (processed (close_handler msgs new_SReplyData)).
    + left. by exists (close_handler msgs new_SReplyData).
    + right. exists #"no SIP response".
      cbn [mret outcome_mret mbind outcome_mbind outcome_bind]. by rewrite literal_error.
  - right. exists #"unable to perform SIP request".
    rewrite throw_sip_plain by (by apply no_nul_bool || by apply not_percent).
    cbn [mbind outcome_mbind outcome_bind rethrow_only try_catch is_sip_error std_what].
    by rewrite throw_driver_tame by (by apply not_percent).
Qed.

Lemma sip_resolve_settles cfg p s : settles (sip_resolve sip sipsess_connect cfg p s).
Proof.
  intros r. unfold sip_resolve. rewrite stM_bind_eq. cbn [get]. rewrite lift_bind.
  destruct (sip_request_cases r cfg (c_str (p ++ req_data r ++ s))) as [[reply E]|[w E]];
    cbv zeta in E; cbv zeta; rewrite E; [|done].
  apply (settles_then_done (sip_parse _)), sip_parse_keeps.
Qed.

Lemma get_url_tame_or_error l j :
  parsed_ok j → jtype j = cJSON_Object →
  (∃ u, get_url l j = Ret u) ∨ ∃ w, get_url l j = Throw (DriverError w).
Proof.
  intros Hp Ho. pose proof (get_url_spec l j) as H.
  destruct (mapM (part_text j) l) as [t|]; [left; eexists|right]; apply H, Forall_forall;
    intros [x|k] _; try done; intros item Hi Ht;
    (eapply parsed_string; [by eapply object_item_parsed|done]).
Qed.

Lemma cnam_request_cases cfg r :
  (∃ hr, cnam_request cfg r = Ret hr ∧ hr_id hr = req_id r)
  ∨ ∃ w, cnam_request cfg r = Throw (DriverError w).
Proof.
  unfold cnam_request.
  destruct (@cJSON_Parse_runs exn (c_str (req_data r))) as ([j|] & -> & Hi); rewrite bind_Ret;
    [|rewrite literal_error by done; eauto].
  destruct (Hi j eq_refl) as [Hp _].
  destruct (Z.eqb_spec (jtype j) cJSON_Object); cbn [negb]; [|rewrite literal_error by done; eauto].
  destruct (get_url_tame_or_error (uri_parts cfg) j) as [[u ->]|[w ->]]; [done..| |by eauto].
  left. by eexists.
Qed.

Lemma http_resolve_shape {S} `{ResolverHandler S} make r (s : S) :
  ((∃ hr, make r = Ret hr ∧ hr_id hr = req_id r) ∨ ∃ e, make r = Throw e) →
  resolve_shape r s (http_resolve make (r, s)) ∧
  same_request r (fst (fst (http_resolve make (r, s)))).
Proof.
  intros [(hr & E & Hid)|[e E]]; unfold http_resolve; cbn [fst]; rewrite E.
  - split; [by apply shape_called|]. by rewrite call_handler_eq.
  - split; [by apply shape_failed|done].
Qed.

Lemma driver_resolve_ok {S} `{ResolverHandler S} d r (s : S) :
  resolve_shape r s (driver_do_resolve sip sipsess_connect d (r, s)) ∧
  same_request r (fst (fst (driver_do_resolve sip sipsess_connect d (r, s)))).
Proof.
  assert (Hset : ∀ m, settles m → resolve_shape r s (on_fst m (r, s)) ∧
                                  same_request r (fst (fst (on_fst m (r, s))))).
  { intros m Hm. split; [by apply settles_shape|]. rewrite on_fst_eq. apply Hm. }
  destruct d; cbn [driver_do_resolve].
  - apply Hset, sip_resolve_settles.
  - apply http_resolve_shape. left. by eexists.
  - apply Hset, csv_resolve_settles.
  - apply http_resolve_shape. left. by eexists.
  - apply http_resolve_shape. left. by eexists.
  - apply http_resolve_shape. destruct (cnam_request_cases cfg r) as [?|[w ?]]; eauto.
  - apply http_resolve_shape. left. by eexists.
Qed.

#[export] Instance driver_laws : CDriverLaws driver (H := driver_CDriver sip sipsess_connect).
Proof.
  split; cbn [resolve driver_parse getDriverType driver_CDriver].
  - intros []; cbn; auto.
  - intros S ? d r s _. apply driver_resolve_ok.
  - intros S ? d r s. apply driver_resolve_ok.
  - intros d data r Hf. by apply driver_parse_keeps.
  - intros d data r Hf. by apply driver_parse_keeps.
Qed.

End Resolve.

(** ** Lemmas: functional behaviour *)

(** A parameter [rn=...] of a Contact, as the driver recognises it. *)
Definition rn_param (p : str) : Prop := ∃ v, getlines "=" p = [ #"rn"; v].

Lemma rn_param_not (p : str) (l : list str) (k : option str) (search : list str → option str) :
  ¬ rn_param p →
  match getlines "=" p with
  | [name; value] => if str_eqb name #"rn" then Some value else search l
  | _ => search l
  end = search l.
Proof.
  intros Hn. destruct (getlines "=" p) as [|name [|value [|? ?]]] eqn:E; try done.
  destruct (str_eqb name #"rn") eqn:En; [|done]. apply str_eqb_eq in En as ->.
  destruct Hn. by exists value.
Qed.

Lemma rn_value v : v ≠ [] → "="%char ∉ v → getlines "=" (#"rn=" ++ v) = [ #"rn"; v].
Proof.
  intros Hne Hv. change (#"rn=" ++ v) with (#"rn" ++ "="%char :: v).
  rewrite getlines_delim by set_solver. by rewrite getlines_end.
Qed.

(** The parameters of a Contact, each with the semicolon after it. *)
Definition params (l : list str) : str := concat (map (fun p => p ++ #";") l).

Lemma getlines_params l rest :
  Forall (fun p => ";"%char ∉ p) l → getlines ";" (params l ++ rest) = l ++ getlines ";" rest.
Proof.
  induction 1 as [|p l Hp _ IH]; [done|]. unfold params. cbn [map concat].
  rewrite <- !app_assoc. change (#";" ++ ?x) with (";"%char :: x).
  rewrite getlines_delim by done. fold (params l). by rewrite IH.
Qed.

Lemma sip_parse_uri_first pre v tail :
  Forall (fun p => ";"%char ∉ p ∧ ¬ rn_param p) pre → v ≠ [] → ";"%char ∉ v → "="%char ∉ v →
  tail = [] ∨ head tail = Some ";"%char →
  sip_parse_uri (params pre ++ #"rn=" ++ v ++ tail) = Ret v.
Proof.
  intros Hpre Hne Hs He Ht. unfold sip_parse_uri. cbv zeta.
  rewrite getlines_params by (eapply Forall_impl; [exact Hpre|]; by intros ? []).
  assert (Hg : ∃ l, getlines ";" (#"rn=" ++ v ++ tail) = (#"rn=" ++ v) :: l).
  { rewrite app_assoc. destruct Ht as [->|Ht].
    - rewrite app_nil_r, getlines_end by (done || set_solver). by eexists.
    - destruct tail as [|c tail]; [done|]. injection Ht as ->.
      rewrite getlines_delim by set_solver. by eexists. }
  destruct Hg as [l ->]. induction Hpre as [|p pre [Hp Hrn] _ IH].
  - cbn [app]. by rewrite rn_value.
  - cbn [app]. by rewrite (rn_param_not p (pre ++ (#"rn=" ++ v) :: l) None).
Qed.

(** ** Properties *)

Section Properties.
Variable sip : CSipClient.
Variable sipsess_connect : ResolverRequest → CSipClient → str → option (list (option sip_msg)).

(** C20. Every driver keeps the interface of the resolver: on an open request
    its [resolve] either settles it by itself, or throws, or calls its
    handler as its last action, with the request open and its number in the
    HTTP request; its [parse] of any reply below 8 MiB returns or throws;
    and neither changes who asked, under which number, or what. *)
Theorem drivers_keep_interface {S} `{ResolverHandler S} (d : driver) (r : ResolverRequest) (s : S) :
  (resolve_shape r s (driver_do_resolve sip sipsess_connect d (r, s)) ∧
   same_request r (fst (fst (driver_do_resolve sip sipsess_connect d (r, s))))) ∧
  ∀ data, response_fits data →
    defined (snd (driver_do_parse d data r)) ∧ same_request r (fst (driver_do_parse d data r)).
Proof.
  split; [apply driver_resolve_ok|]. intros data Hf.
  destruct (driver_parse_keeps d data Hf r). done.
Qed.

End Properties.

(** The SIP redirect: in a Contact user part the value of the first
    parameter [rn] (wherever it is, after any others) becomes the routing
    number, and the whole part the raw data; a part without parameters is
    the number itself. *)
Theorem sip_parse_number (pre : list str) (v tail : str) (r : ResolverRequest) :
  Forall (fun p => ";"%char ∉ p ∧ ¬ rn_param p) pre → pre ≠ [] →
  v ≠ [] → ";"%char ∉ v → "="%char ∉ v → tail = [] ∨ head tail = Some ";"%char →
  let data := params pre ++ #"rn=" ++ v ++ tail in
  sip_parse data r = (set_raw data (set_number v r), Ret tt) ∧
  sip_parse v r = (set_number v (set_raw v r), Ret tt).
Proof.
  intros Hpre Hne Hv Hs He Ht data. split.
  - unfold sip_parse. destruct (find_char ";" data) eqn:E.
    + rewrite lift_bind. unfold data. by rewrite sip_parse_uri_first.
    + exfalso. apply find_char_None in E. apply E. unfold data.
      destruct pre as [|p pre]; [done|]. unfold params. cbn [map concat]. set_solver.
  - unfold sip_parse. by rewrite (proj2 (find_char_None ";" v)).
Qed.

Lemma sip_parse_number_witness :
  sip_parse #"yeti-sip;phone=1;rn=4681665911;npdi" (new_ResolverRequest 0)
  = (set_raw #"yeti-sip;phone=1;rn=4681665911;npdi"
       (set_number #"4681665911" (new_ResolverRequest 0)), Ret tt).
Proof.
  apply (sip_parse_number [ #"yeti-sip"; #"phone=1"] #"4681665911" #";npdi").
  - repeat constructor; try (by intros ?%(elem_of_list_In); cbn in *; intuition congruence);
      try set_solver; intros [v Hv]; vm_compute in Hv; discriminate.
  - discriminate.
  - discriminate.
  - set_solver.
  - set_solver.
  - by right.
Defined.

(** C31. The CNAM reply: a reply that is a JSON object is answered as
    {"response": reply}, printed without white space; any other reply is the
    driver's error, with the reply kept as raw data. *)
Theorem cnam_reply_wrapped (data : str) (r : ResolverRequest) :
  response_fits data →
  match cJSON_Parse (c_str data) : M (option cJSON) with
  | Ret (Some j) =>
      if (jtype j =? cJSON_Object)%Z
      then cnam_parse data r = (set_raw (c_str (wrapped j)) (set_raw data r), Ret tt)
      else ∃ w, cnam_parse data r = (set_raw data r, Throw (DriverError w))
  | Ret None => ∃ w, cnam_parse data r = (set_raw data r, Throw (DriverError w))
  | _ => False
  end.
Proof.
  intros Hf. unfold cnam_parse.
  destruct (cJSON_Parse (c_str data)) as [o|e|] eqn:Ep.
  2, 3: destruct (@cJSON_Parse_runs exn (c_str data)) as (o' & Ho & _); congruence.
  destruct o as [j|].
  - destruct (Z.eqb_spec (jtype j) cJSON_Object) as [Ht|Ht].
    + rewrite stM_bind_eq. cbn [modify]. rewrite lift_bind.
      rewrite (proj2 (Z.eqb_eq _ _) Ht). cbn [negb]. rewrite lift_bind.
      rewrite (response_text_eq data j Hf Ep Ht). cbn [deref].
      by rewrite lift_bind, c_str_idemp.
    + rewrite stM_bind_eq. cbn [modify]. rewrite lift_bind.
      rewrite (proj2 (Z.eqb_neq _ _) Ht). cbn [negb]. rewrite literal_error by done. by eexists.
  - rewrite stM_bind_eq. cbn [modify]. rewrite lift_bind, literal_error by done. by eexists.
Qed.

Lemma cnam_reply_wrapped_witness :
  let data := quoted #"{ 'name': 'X' }" in
  cnam_parse data (new_ResolverRequest 0)
  = (set_raw (quoted #"{'response':{'name':'X'}}") (set_raw data (new_ResolverRequest 0)), Ret tt).
Proof.
  pose proof (cnam_reply_wrapped (quoted #"{ 'name': 'X' }") (new_ResolverRequest 0)) as H.
  specialize (H ltac:(vm_compute; reflexivity)). vm_compute in H |- *. exact H.
Defined.

(** The CNAM request: when the data of a request is a JSON object and
    every placeholder of the template names a member that is a string, a
    number or a boolean, the URL is the template with the members in place;
    otherwise the driver throws its error and no request is made. *)
Theorem cnam_url_filled (cfg : CCnamHttpDriverCfg) (r : ResolverRequest) (j : cJSON) :
  (cJSON_Parse (c_str (req_data r)) : M _) = Ret (Some j) → jtype j = cJSON_Object →
  match mapM (part_text j) (uri_parts cfg) with
  | Some texts =>
      cnam_request cfg r = Ret (get_request r (concat texts) AUTH_NONE None None false
                                  (cnam_timeout cfg) json_headers)
  | None => ∃ w, cnam_request cfg r = Throw (DriverError w)
  end.
Proof.
  intros Hj Ho. unfold cnam_request. rewrite Hj, bind_Ret, Ho.
  change (negb (cJSON_Object =? cJSON_Object)%Z) with false. cbv iota.
  destruct (@cJSON_Parse_runs exn (c_str (req_data r))) as (o & Hp & Hi). rewrite Hj in Hp.
  injection Hp as <-. destruct (Hi j eq_refl) as [Hok _].
  pose proof (get_url_spec (uri_parts cfg) j) as H.
  destruct (mapM (part_text j) (uri_parts cfg)) as [t|].
  - rewrite H; [done|]. apply Forall_forall. intros [x|k] _; try done. intros item Hg Ht.
    eapply parsed_string; [by eapply object_item_parsed|done].
  - destruct H as [w ->]; [|by exists w]. apply Forall_forall. intros [x|k] _; try done.
    intros item Hg Ht. eapply parsed_string; [by eapply object_item_parsed|done].
Qed.

Definition sample_cnam : CCnamHttpDriverCfg := {|
  cnam_base := {| mUniqId := 6; mLabel := #"cnam" |}; cnam_url := #"http://h/{n}/{k}";
  cnam_timeout := 4000;
  uri_parts := [URI_PART_STRING #"http://h/"; URI_PART_PLACEHOLDER #"n"; URI_PART_STRING #"/";
                URI_PART_PLACEHOLDER #"k"] |}.

Lemma cnam_url_filled_witness :
  let r := set_data (quoted #"{'k': 7, 'N': 'ann'}") (new_ResolverRequest 0) in
  cnam_request sample_cnam r
  = Ret (get_request r #"http://h/ann/7" AUTH_NONE None None false 4000 json_headers).
Proof.
  set (text := quoted #"{'k': 7, 'N': 'ann'}").
  let j := eval vm_compute in (match cJSON_Parse (c_str text) : M _ with
                               | Ret (Some j) => j | _ => cJSON_New_Item end) in
  pose proof (cnam_url_filled sample_cnam (set_data text (new_ResolverRequest 0)) j) as H.
  specialize (H ltac:(vm_compute; reflexivity) ltac:(vm_compute; reflexivity)).
  vm_compute in H |- *. exact H.
Defined.

(** An empty number in a reply is not an empty number: the cast of an
    empty JSON string reads before its beginning, the library throws, and
    the client is told about positions in a string. *)
Theorem empty_number_is_an_error (r : ResolverRequest) :
  json_parse #"lrn" (quoted #"{'lrn': ''}") r
  = (r, Throw (DriverError #"basic_string::compare: __pos (which is 18446744073709551615) > this->size() (which is 0)")).
Proof.
  unfold json_parse. rewrite lift_bind.
  assert (H : rethrow (j ← jsonxx (quoted #"{'lrn': ''}"); i ← jsonxx_item j #"lrn"; item_string i)
    = Throw (DriverError #"basic_string::compare: __pos (which is 18446744073709551615) > this->size() (which is 0)"))
    by (vm_compute; reflexivity).
  by rewrite H.
Qed.
