(* ===== verification/HeapLogic.v ===== *)
(** * Memory and a separation logic for it

    The memory of a C program as a finite map from the addresses of its live
    blocks to what they hold, the operations on it, assertions about a part of
    it, and a total-correctness weakest precondition with the frame rule built
    in.  The logic is linear: what an assertion describes cannot be forgotten,
    so a triple that ends in [emp] shows that everything was freed. *)
From iris.bi Require Import bi.
From iris.proofmode Require Import proofmode.
From S2P Require Import Prelude.

(** ** Definitions *)

(** *** Memory *)

Abbreviation loc := positive.
Abbreviation ptr := (option positive).

(** Whether [malloc] of a number of bytes succeeds, given the live blocks. *)
Class Allocator (V : Type) : Type := malloc_succeeds : gmap loc V → nat → bool.

Definition malloc_fails {V} `{Allocator V} : Prop := ∃ h n, malloc_succeeds h n = false.

(** A [malloc] that never fails. *)
Definition endless {V} : Allocator V := fun _ _ => true.

Lemma endless_never_fails {V} : ¬ malloc_fails (H := endless (V := V)).
Proof. by intros (h & n & Hn). Qed.

Section Memory.
Context {E V : Type}.
Implicit Types (h f : gmap loc V) (l : loc) (v : V).

Abbreviation heap := (gmap loc V).

(** [*p], with [pick] the view of the block the access has: a null pointer, a
    freed block or one of another kind is undefined. *)
Definition load {A} (pick : V → option A) (p : ptr) : stM E heap A := fun h =>
  (h, deref (p ≫= fun l => h !! l ≫= pick)).

(** [*p = v], inside a live block. *)
Definition store (p : ptr) v : stM E heap unit := fun h =>
  match p with
  | Some l => if decide (is_Some (h !! l)) then (<[l := v]> h, Ret tt) else (h, Undef)
  | None => (h, Undef)
  end.

(** [malloc] of [n] bytes: a null pointer, or a block at an address that is
    not in use. *)
Definition allocate `{Allocator V} (n : nat) v : stM E heap ptr := fun h =>
  if malloc_succeeds h n then let l := fresh (dom h) in (<[l := v]> h, Ret (Some l)) else (h, Ret None).

(** [free]: nothing for a null pointer; freeing what is not live is
    undefined. *)
Definition deallocate (p : ptr) : stM E heap unit := fun h =>
  match p with
  | None => (h, Ret tt)
  | Some l => if decide (is_Some (h !! l)) then (delete l h, Ret tt) else (h, Undef)
  end.

(** *** Assertions *)

Record hProp : Type := HProp { holds : heap → Prop }.

Inductive hEntails (P Q : hProp) : Prop := { entails_holds : ∀ h, holds P h → holds Q h }.

#[export] Instance hProp_equiv : Equiv hProp := fun P Q => ∀ h, holds P h ↔ holds Q h.
#[export] Instance hProp_equivalence : Equivalence (≡@{hProp}).
Proof. split; repeat intro; firstorder. Qed.
#[export] Instance hProp_dist : Dist hProp := fun _ => (≡).

Definition hProp_ofe_mixin : OfeMixin hProp := discrete_ofe_mixin _.
Canonical Structure hPropO : ofe := Ofe hProp hProp_ofe_mixin.

Definition hEmp : hProp := HProp (fun h => h = ∅).
Definition hPure (φ : Prop) : hProp := HProp (fun _ => φ).
Definition hAnd P Q : hProp := HProp (fun h => holds P h ∧ holds Q h).
Definition hOr P Q : hProp := HProp (fun h => holds P h ∨ holds Q h).
Definition hImpl P Q : hProp := HProp (fun h => holds P h → holds Q h).
Definition hForall A (Φ : A → hProp) : hProp := HProp (fun h => ∀ a, holds (Φ a) h).
Definition hExist A (Φ : A → hProp) : hProp := HProp (fun h => ∃ a, holds (Φ a) h).
Definition hSep P Q : hProp :=
  HProp (fun h => ∃ h1 h2, h = h1 ∪ h2 ∧ h1 ##ₘ h2 ∧ holds P h1 ∧ holds Q h2).
Definition hWand P Q : hProp :=
  HProp (fun h => ∀ h', h ##ₘ h' → holds P h' → holds Q (h ∪ h')).
Definition hPersistently P : hProp := hPure (hEntails hEmp P).

Definition points_to l v : hProp := HProp (fun h => h = {[l := v]}).

(** [m] returns on every memory that has this part, whatever the rest is,
    leaves the rest as it is, and [Q] holds of what it returns and of what is
    left of the part. *)
Definition mwp {A} (m : stM E heap A) (Q : A → hProp) : hProp :=
  HProp (fun h => ∀ f, h ##ₘ f →
    ∃ a h', m (h ∪ f) = (h' ∪ f, Ret a) ∧ h' ##ₘ f ∧ holds (Q a) h').

(** ** Lemmas: the logic *)

Lemma hProp_bi_mixin : BiMixin hEntails hEmp hPure hAnd hOr hImpl hForall hExist hSep hWand.
Proof.
  split.
  - split; [by constructor|]. intros P Q R [HPQ] [HQR]. constructor. auto.
  - intros P Q. split; [intros HPQ; split; constructor; intros h; by apply HPQ|].
    intros [[HPQ] [HQP]] h. split; auto.
  - intros n φ ψ Hφ h. exact Hφ.
  - intros n P P' HP Q Q' HQ h. cbn. by rw (HP h) (HQ h).
  - intros n P P' HP Q Q' HQ h. cbn. by rw (HP h) (HQ h).
  - intros n P P' HP Q Q' HQ h. cbn. by rw (HP h) (HQ h).
  - intros A n Φ Φ' HΦ h. cbn. split; intros Ha a; by apply (HΦ a h).
  - intros A n Φ Φ' HΦ h. cbn. split; intros [a Ha]; exists a; by apply (HΦ a h).
  - intros n P P' HP Q Q' HQ h. cbn. by setoid_rewrite (HP _); setoid_rewrite (HQ _).
  - intros n P P' HP Q Q' HQ h. cbn. by setoid_rewrite (HP _); setoid_rewrite (HQ _).
  - intros φ P Hφ. by constructor.
  - intros φ P Hφ. constructor. intros h Hh. by apply Hφ.
  - intros P Q. constructor. by intros h [].
  - intros P Q. constructor. by intros h [].
  - intros P Q R [HPQ] [HPR]. constructor. split; auto.
  - intros P Q. constructor. by left.
  - intros P Q. constructor. by right.
  - intros P Q R [HPR] [HQR]. constructor. intros h []; auto.
  - intros P Q R [HR]. constructor. intros h HP HQ. by apply HR.
  - intros P Q R [HR]. constructor. intros h [HP HQ]. by apply HR.
  - intros A P Ψ HΨ. constructor. intros h HP a. by apply HΨ.
  - intros A Ψ a. constructor. intros h Ha. apply Ha.
  - intros A Ψ a. constructor. intros h Ha. by exists a.
  - intros A Φ Q HQ. constructor. intros h [a Ha]. by apply (HQ a).
  - intros P P' Q Q' [HP] [HQ]. constructor. intros h (h1 & h2 & -> & Hd & H1 & H2). exists h1, h2. auto.
  - intros P. constructor. intros h HP. exists ∅, h. split_and!; [by rw left_id_L|apply map_disjoint_empty_l|done|done].
  - intros P. constructor. intros h (h1 & h2 & -> & _ & -> & HP). by rw left_id_L.
  - intros P Q. constructor. intros h (h1 & h2 & -> & Hd & HP & HQ). exists h2, h1.
    split_and!; [by apply map_union_comm|done..].
  - intros P Q R. constructor. intros h (h12 & h3 & -> & Hd & (h1 & h2 & -> & Hd' & HP & HQ) & HR).
    apply map_disjoint_union_l in Hd as [Hd1 Hd2]. exists h1, (h2 ∪ h3).
    split_and!; [by rw assoc_L|by apply map_disjoint_union_r|done|]. by exists h2, h3.
  - intros P Q R [HR]. constructor. intros h HP h' Hd HQ. apply HR. by exists h, h'.
  - intros P Q R [HR]. constructor. intros h (h1 & h2 & -> & Hd & HP & HQ). by apply HR.
Qed.

Lemma hProp_persistently_mixin :
  BiPersistentlyMixin hEntails hEmp hAnd hExist hSep hPersistently.
Proof.
  eapply bi_persistently_mixin_discrete, hProp_bi_mixin; [done| |].
  - intros A Φ [HΦ]. destruct (HΦ ∅ eq_refl) as [a Ha]. exists a. constructor. by intros h ->.
  - done.
Qed.

Lemma hProp_later_mixin :
  BiLaterMixin hEntails hPure hOr hImpl hForall hExist hSep hPersistently id.
Proof. eapply bi_later_mixin_id, hProp_bi_mixin. done. Qed.

#[export] Instance hProp_cofe : Cofe hPropO := discrete_cofe hProp_equivalence.

Canonical Structure hPropI : bi :=
  {| bi_ofe_mixin := ofe_mixin_of hProp; bi_bi_mixin := hProp_bi_mixin;
     bi_bi_persistently_mixin := hProp_persistently_mixin; bi_bi_later_mixin := hProp_later_mixin |}.

(** ** Lemmas: the operations *)

Implicit Types P Q : hPropI.

Lemma mwp_run {A} P (m : stM E heap A) (Q : A → hPropI) h f :
  (P ⊢ mwp m Q) → holds P h → h ##ₘ f →
  ∃ a h', m (h ∪ f) = (h' ∪ f, Ret a) ∧ h' ##ₘ f ∧ holds (Q a) h'.
Proof. intros [Hm] HP Hd. by apply (Hm h HP f). Qed.

Lemma mwp_ret {A} (a : A) (Q : A → hPropI) : Q a ⊢ mwp (mret a) Q.
Proof. constructor. intros h HQ f Hd. by exists a, h. Qed.

Lemma mwp_bind {A B} (m : stM E heap A) (k : A → stM E heap B) (Q : B → hPropI) :
  mwp m (fun a => mwp (k a) Q) ⊢ mwp (m ≫= k) Q.
Proof.
  constructor. intros h Hm f Hd. destruct (Hm f Hd) as (a & h' & Em & Hd' & Hk).
  destruct (Hk f Hd') as (b & h'' & Ek & Hd'' & HQ). exists b, h''. split_and!; try done.
  unfold mbind, stM_mbind, stM_bind. by rw Em.
Qed.

Lemma mwp_wand {A} (m : stM E heap A) (Q R : A → hPropI) :
  mwp m Q ∗ (∀ a, Q a -∗ R a) ⊢ mwp m R.
Proof.
  constructor. intros h (h1 & h2 & -> & Hd & Hm & HR) f Hf.
  apply map_disjoint_union_l in Hf as [Hf1 Hf2].
  destruct (Hm (h2 ∪ f)) as (a & h' & Em & Hd' & HQ); [by apply map_disjoint_union_r|].
  apply map_disjoint_union_r in Hd' as [Hd2 Hdf]. exists a, (h' ∪ h2).
  split_and!; [by rw -!assoc_L|by apply map_disjoint_union_l|].
  rw map_union_comm //. by apply (HR a).
Qed.

Lemma mwp_load {A} (pick : V → option A) l v a (Q : A → hPropI) :
  pick v = Some a → points_to l v ∗ (points_to l v -∗ Q a) ⊢ mwp (load pick (Some l)) Q.
Proof.
  intros Hp. constructor. intros h (h1 & h2 & -> & Hd & -> & HQ) f Hf.
  exists a, ({[l := v]} ∪ h2). split_and!; [|done|].
  - unfold load. cbn. by rw -assoc_L -insert_union_singleton_l lookup_insert_eq /= Hp.
  - rw map_union_comm //. by apply HQ.
Qed.

Lemma mwp_store l v v' (Q : unit → hPropI) :
  points_to l v ∗ (points_to l v' -∗ Q tt) ⊢ mwp (store (Some l) v') Q.
Proof.
  constructor. intros h (h1 & h2 & -> & Hd & -> & HQ) f Hf.
  apply map_disjoint_singleton_l in Hd.
  exists tt, ({[l := v']} ∪ h2). split_and!.
  - unfold store. rw -assoc_L -insert_union_singleton_l decide_True; [|by rw lookup_insert_eq].
    by rw insert_insert_eq -assoc_L -insert_union_singleton_l.
  - apply map_disjoint_union_l in Hf as [Hf1 Hf2]. apply map_disjoint_union_l. split; [|done].
    apply map_disjoint_singleton_l. by apply map_disjoint_singleton_l in Hf1.
  - rw map_union_comm; [|by apply map_disjoint_singleton_l]. apply HQ; [by apply map_disjoint_singleton_r|done].
Qed.

Lemma mwp_allocate `{Allocator V} n v (Q : ptr → hPropI) :
  (∀ l, points_to l v -∗ Q (Some l)) ∧ (⌜malloc_fails⌝ → Q None) ⊢ mwp (allocate n v) Q.
Proof.
  constructor. intros h [HQ Hnone] f Hf. unfold allocate. destruct (malloc_succeeds (h ∪ f) n) eqn:Hm.
  2: { exists None, h. split_and!; [done|done|]. apply Hnone. by exists (h ∪ f), n. }
  set (l := fresh (dom (h ∪ f))).
  assert (Hl : (h ∪ f) !! l = None) by (apply not_elem_of_dom, is_fresh).
  apply lookup_union_None in Hl as [Hh Hlf].
  exists (Some l), ({[l := v]} ∪ h). split_and!.
  - by rw insert_union_singleton_l assoc_L.
  - apply map_disjoint_union_l. split; [by apply map_disjoint_singleton_l|done].
  - rw map_union_comm; [|by apply map_disjoint_singleton_l]. apply (HQ l); [by apply map_disjoint_singleton_r|done].
Qed.

Lemma mwp_deallocate l v (Q : unit → hPropI) :
  points_to l v ∗ Q tt ⊢ mwp (deallocate (Some l)) Q.
Proof.
  constructor. intros h (h1 & h2 & -> & Hd & -> & HQ) f Hf.
  apply map_disjoint_singleton_l in Hd. apply map_disjoint_union_l in Hf as [Hf1 Hf2].
  apply map_disjoint_singleton_l in Hf1. exists tt, h2. split_and!; [|done..].
  unfold deallocate. rw -assoc_L -insert_union_singleton_l decide_True; [|by rw lookup_insert_eq].
  rw delete_insert_id //. by apply lookup_union_None.
Qed.

Lemma mwp_deallocate_null (Q : unit → hPropI) : Q tt ⊢ mwp (deallocate None) Q.
Proof. exact (mwp_ret tt Q). Qed.

(** Two live blocks are at two addresses. *)
Lemma points_to_ne l v l' v' : points_to l v ∗ points_to l' v' ⊢ ⌜l ≠ l'⌝.
Proof.
  constructor. intros h (h1 & h2 & -> & Hd & -> & ->) ->. by apply map_disjoint_singleton_l in Hd; rw lookup_insert_eq in Hd.
Qed.

Lemma points_to_singleton l v h : holds (points_to l v) h → h = {[l := v]}.
Proof. done. Qed.

Lemma points_to_holds l v : holds (points_to l v) {[l := v]}.
Proof. done. Qed.

Lemma sep_holds P Q (h1 h2 : heap) : h1 ##ₘ h2 → holds P h1 → holds Q h2 → holds (P ∗ Q)%I (h1 ∪ h2).
Proof. intros Hd HP HQ. by exists h1, h2. Qed.

Lemma emp_holds h : holds (emp : hPropI)%I h → h = ∅.
Proof. done. Qed.

Lemma pure_holds (φ : Prop) h : holds (<affine> ⌜φ⌝ : hPropI)%I h → φ ∧ h = ∅.
Proof. by intros [-> Hφ]. Qed.

Lemma pure_sep_holds (φ : Prop) P h : holds (<affine> ⌜φ⌝ ∗ P)%I h → φ ∧ holds P h.
Proof. intros (h1 & h2 & -> & _ & [-> Hφ] & HP). split; [exact Hφ|]. by rw left_id_L. Qed.

Lemma keep_pure P (φ : Prop) : (P ⊢ ⌜φ⌝) → P ⊢ <affine> ⌜φ⌝ ∗ P.
Proof.
  intros Hφ. rw -bi.persistent_and_affinely_sep_l. by apply bi.and_intro.
Qed.

Lemma mwp_ext {A} (m m' : stM E heap A) (Q : A → hPropI) : (∀ h, m h = m' h) → mwp m Q ⊢ mwp m' Q.
Proof. intros Hm. constructor. intros h Hh f Hd. rw -Hm. by apply Hh. Qed.

(** ** Lemmas: counting blocks *)

(** A part of which the assertion holds has this many blocks. *)
Definition at_least (n : nat) (P : hPropI) : Prop := ∀ h, holds P h → n ≤ size h.

Lemma at_least_0 P : at_least 0 P.
Proof. intros h _. lia. Qed.

Lemma at_least_sep m n P Q : at_least m P → at_least n Q → at_least (m + n) (P ∗ Q).
Proof.
  intros HP HQ h (h1 & h2 & -> & Hd & H1 & H2). rw map_size_disj_union //.
  specialize (HP _ H1). specialize (HQ _ H2). lia.
Qed.

Lemma at_least_points_to l v : at_least 1 (points_to l v).
Proof. intros h ->. by rw map_size_singleton. Qed.

Lemma at_least_exist {A} n (Φ : A → hPropI) : (∀ a, at_least n (Φ a)) → at_least n (∃ a, Φ a).
Proof. intros HΦ h [a Ha]. by apply (HΦ a). Qed.

Lemma at_least_mono m n P Q : (P ⊢ Q) → n ≤ m → at_least m Q → at_least n P.
Proof. intros [HPQ] Hmn HQ h HP. specialize (HQ h (HPQ h HP)). lia. Qed.

(** Fuel taken from the number of live blocks. *)
Lemma mwp_sized {A} c n (m : nat → stM E heap A) P (Q : A → hPropI) :
  at_least n P → (∀ k, c + n ≤ k → P ⊢ mwp (m k) Q) → P ⊢ mwp (fun h => m (c + size h) h) Q.
Proof.
  intros Hn Hm. constructor. intros h HP f Hd. pose proof (Hn h HP) as Hs.
  assert (Hk : c + n ≤ c + size (h ∪ f)) by (rw map_size_disj_union //; lia).
  destruct (Hm _ Hk) as [Hw]. by apply (Hw h HP f).
Qed.
End Memory.
Arguments hProp V : clear implicits.
Arguments hPropI V : clear implicits.

#[export] Typeclasses Opaque mwp points_to.
#[global] Opaque mwp points_to.

Notation "l ↦ v" := (points_to l v) (at level 20, format "l  ↦  v") : bi_scope.
