(* ===== verification/CJsonMemory.v ===== *)
(** * JSON items in memory (src/libs/cJSON.c)

    The items of cJSON.c as the blocks they are: structures chained by [next]
    and [prev], with pointers to their children and strings, some of them
    borrowed ([cJSON_IsReference], [cJSON_StringIsConst]).  Every function
    that allocates, links or frees is here with its pointers; CJsonTree.v has
    the same functions on the values the blocks show. *)
From Stdlib Require Import SpecFloat.
From S2P Require Import Prelude.
From S2P Require Import CLib.
From S2P Require Import Exceptions.
From S2P Require Import CFloat.
From S2P Require Import CJson.
From S2P Require Import CJsonTree.
From S2P Require Import CJsonPrint.
From S2P Require Import HeapLogic.

(** ** Definitions *)

(** [struct cJSON] *)
Record node : Type := {
  n_next : ptr; n_prev : ptr; n_child : ptr;
  n_type : Z; n_valuestring : ptr; n_valueint : Z; n_valuedouble : double; n_string : ptr
}.

Inductive block : Type := Node (n : node) | Chars (s : str).

Definition as_node (b : block) : option node := match b with Node n => Some n | Chars _ => None end.
Definition as_chars (b : block) : option str := match b with Chars s => Some s | Node _ => None end.

Abbreviation Mem := (stM exn (gmap loc block)).

(** [*p], and [p->member = v]. *)
Definition get_node (p : ptr) : Mem node := load as_node p.
Definition set_node (p : ptr) (f : node → node) : Mem unit := n ← get_node p; store p (Node (f n)).

Definition with_next (p : ptr) (n : node) : node :=
  Build_node p (n_prev n) (n_child n) (n_type n) (n_valuestring n) (n_valueint n) (n_valuedouble n) (n_string n).
Definition with_prev (p : ptr) (n : node) : node :=
  Build_node (n_next n) p (n_child n) (n_type n) (n_valuestring n) (n_valueint n) (n_valuedouble n) (n_string n).
Definition with_child (p : ptr) (n : node) : node :=
  Build_node (n_next n) (n_prev n) p (n_type n) (n_valuestring n) (n_valueint n) (n_valuedouble n) (n_string n).
Definition with_type (t : Z) (n : node) : node :=
  Build_node (n_next n) (n_prev n) (n_child n) t (n_valuestring n) (n_valueint n) (n_valuedouble n) (n_string n).
Definition with_string (p : ptr) (n : node) : node :=
  Build_node (n_next n) (n_prev n) (n_child n) (n_type n) (n_valuestring n) (n_valueint n) (n_valuedouble n) p.
Definition with_number (i : Z) (d : double) (n : node) : node :=
  Build_node (n_next n) (n_prev n) (n_child n) (n_type n) (n_valuestring n) i d (n_string n).
Definition with_valuestring (p : ptr) (n : node) : node :=
  Build_node (n_next n) (n_prev n) (n_child n) (n_type n) p (n_valueint n) (n_valuedouble n) (n_string n).

Definition is_reference (t : Z) : bool := negb (Z.land t cJSON_IsReference =? 0)%Z.
Definition is_const (t : Z) : bool := negb (Z.land t cJSON_StringIsConst =? 0)%Z.
Definition is_null (p : ptr) : bool := match p with None => true | Some _ => false end.

(** *** Blocks *)

(** [sizeof(cJSON)], on the 64-bit machines the program is built for. *)
Definition sizeof_cJSON : nat := 64.

Section Memory.
Context {alloc : Allocator block}.

Definition mem_New_Item : Mem ptr :=
  allocate sizeof_cJSON (Node (Build_node None None None cJSON_Invalid None 0 (S754_zero false) None)).

Definition mem_strdup (string : ptr) : Mem ptr :=
  match string with
  | None => mret None
  | Some _ => s ← load as_chars string; allocate (length (c_str s) + 1) (Chars (c_str s))
  end.

Definition mem_CreateObject : Mem ptr :=
  item ← mem_New_Item;
  when (negb (is_null item)) (set_node item (with_type cJSON_Object));;
  mret item.

(** [cJSON_Delete]; the loop over the chain and the recursion into the
    children run on fuel. *)
Fixpoint mem_Delete (fuel : nat) (item : ptr) : Mem unit :=
  match fuel with
  | O => lift Undef
  | S fuel =>
      match item with
      | None => mret tt
      | Some _ =>
          first ← get_node item;
          when (negb (is_reference (n_type first)) && negb (is_null (n_child first))) (mem_Delete fuel (n_child first));;
          n ← get_node item;
          when (negb (is_reference (n_type n)) && negb (is_null (n_valuestring n))) (deallocate (n_valuestring n));;
          when (negb (is_const (n_type n)) && negb (is_null (n_string n))) (deallocate (n_string n));;
          deallocate item;;
          mem_Delete fuel (n_next first)
      end
  end.

(** A function whose fuel is the number of live blocks, which bounds what it
    can walk through or free. *)
Definition sized {A} (m : nat → Mem A) : Mem A := fun h => m (S (size h)) h.

Definition mem_cJSON_Delete (item : ptr) : Mem unit := sized (fun fuel => mem_Delete fuel item).

(** *** Chains *)

Definition mem_suffix_object (prev item : ptr) : Mem unit :=
  set_node prev (with_next item);; set_node item (with_prev prev).

Definition mem_create_reference (item : ptr) : Mem ptr :=
  match item with
  | None => mret None
  | Some _ =>
      reference ← mem_New_Item;
      if is_null reference then mret None
      else
        n ← get_node item;
        store reference (Node n);;
        set_node reference (with_string None);;
        set_node reference (fun n => with_type (Z.lor (n_type n) cJSON_IsReference) n);;
        set_node reference (with_prev None);;
        set_node reference (with_next None);;
        mret reference
  end.

(** [while (child->next) child = child->next;] *)
Fixpoint last_child (fuel : nat) (child : ptr) : Mem ptr :=
  match fuel with
  | O => lift Undef
  | S fuel => n ← get_node child; if is_null (n_next n) then mret child else last_child fuel (n_next n)
  end.

Definition mem_add_item_to_array (fuel : nat) (array item : ptr) : Mem bool :=
  if is_null item || is_null array then mret false
  else
    a ← get_node array;
    (if is_null (n_child a) then set_node array (with_child item)
     else child ← last_child fuel (n_child a); mem_suffix_object child item);;
    mret true.

Definition mem_add_item_to_object (fuel : nat) (object string item : ptr) (constant_key : bool) : Mem bool :=
  if is_null object || is_null string || is_null item then mret false
  else
    key ←
      (if constant_key then
         i ← get_node item; mret (Some (string, Z.lor (n_type i) cJSON_StringIsConst))
       else
         new_key ← mem_strdup string;
         if is_null new_key then mret None
         else i ← get_node item; mret (Some (new_key, Z.land (n_type i) (Z.lnot cJSON_StringIsConst))));
    match key with
    | None => mret false
    | Some (new_key, new_type) =>
        i ← get_node item;
        when (negb (is_const (n_type i)) && negb (is_null (n_string i))) (deallocate (n_string i));;
        set_node item (with_string new_key);;
        set_node item (with_type new_type);;
        mem_add_item_to_array fuel object item
    end.

Definition mem_AddItemReferenceToObject (fuel : nat) (object string item : ptr) : Mem unit :=
  if is_null object || is_null string then mret tt
  else reference ← mem_create_reference item; mem_add_item_to_object fuel object string reference false;; mret tt.

(** [get_array_item]: the loop is bounded by the index. *)
Fixpoint nth_item (index : nat) (current_child : ptr) : Mem ptr :=
  match index, current_child with
  | S index, Some _ => n ← get_node current_child; nth_item index (n_next n)
  | _, _ => mret current_child
  end.

Definition mem_get_array_item (array : ptr) (index : nat) : Mem ptr :=
  match array with None => mret None | Some _ => a ← get_node array; nth_item index (n_child a) end.

Definition mem_DetachItemViaPointer (parent item : ptr) : Mem ptr :=
  if is_null parent || is_null item then mret None
  else
    i ← get_node item;
    when (negb (is_null (n_prev i))) (set_node (n_prev i) (with_next (n_next i)));;
    i ← get_node item;
    when (negb (is_null (n_next i))) (set_node (n_next i) (with_prev (n_prev i)));;
    p ← get_node parent;
    when (bool_decide (item = n_child p)) (i ← get_node item; set_node parent (with_child (n_next i)));;
    set_node item (with_prev None);;
    set_node item (with_next None);;
    mret item.

Definition mem_DetachItemFromArray (array : ptr) (which : Z) : Mem ptr :=
  if (which <? 0)%Z then mret None
  else item ← mem_get_array_item array (Z.to_nat which); mem_DetachItemViaPointer array item.

Definition mem_DeleteItemFromArray (fuel : nat) (array : ptr) (which : Z) : Mem unit :=
  item ← mem_DetachItemFromArray array which; mem_Delete fuel item.

Definition mem_InsertItemInArray (fuel : nat) (array : ptr) (which : Z) (newitem : ptr) : Mem unit :=
  if (which <? 0)%Z then mret tt
  else
    after_inserted ← mem_get_array_item array (Z.to_nat which);
    if is_null after_inserted then mem_add_item_to_array fuel array newitem;; mret tt
    else
      set_node newitem (with_next after_inserted);;
      after ← get_node after_inserted;
      set_node newitem (with_prev (n_prev after));;
      set_node after_inserted (with_prev newitem);;
      a ← get_node array;
      if bool_decide (after_inserted = n_child a) then set_node array (with_child newitem)
      else new ← get_node newitem; set_node (n_prev new) (with_next newitem).

Definition mem_ReplaceItemViaPointer (fuel : nat) (parent item replacement : ptr) : Mem bool :=
  if is_null parent || is_null replacement || is_null item then mret false
  else if bool_decide (replacement = item) then mret true
  else
    i ← get_node item;
    set_node replacement (with_next (n_next i));;
    i ← get_node item;
    set_node replacement (with_prev (n_prev i));;
    r ← get_node replacement;
    when (negb (is_null (n_next r))) (set_node (n_next r) (with_prev replacement));;
    r ← get_node replacement;
    when (negb (is_null (n_prev r))) (set_node (n_prev r) (with_next replacement));;
    p ← get_node parent;
    when (bool_decide (n_child p = item)) (set_node parent (with_child replacement));;
    set_node item (with_next None);;
    set_node item (with_prev None);;
    mem_Delete fuel item;;
    mret true.

Definition mem_ReplaceItemInArray (fuel : nat) (array : ptr) (which : Z) (newitem : ptr) : Mem unit :=
  if (which <? 0)%Z then mret tt
  else item ← mem_get_array_item array (Z.to_nat which);
       mem_ReplaceItemViaPointer fuel array item newitem;; mret tt.

(** *** Printing *)

(** The value a pointer to characters shows. *)
Definition read_text (p : ptr) : Mem (option str) :=
  match p with None => mret None | Some _ => s ← load as_chars p; mret (Some s) end.

(** What a chain shows to a function that only reads it. *)
Fixpoint read_chain (fuel : nat) (p : ptr) : Mem (list cJSON) :=
  match fuel with
  | O => lift Undef
  | S fuel =>
      match p with
      | None => mret []
      | Some _ =>
          n ← get_node p;
          text ← read_text (n_valuestring n);
          string ← read_text (n_string n);
          children ← read_chain fuel (n_child n);
          rest ← read_chain fuel (n_next n);
          mret (mk_cJSON (n_type n) text (n_valueint n) (n_valuedouble n) string children :: rest)
      end
  end.

(** [cJSON_PrintUnformatted]: it prints the item, and changes none.  Nothing
    is printed of a null pointer; the blocks of the printer are in
    CJsonPrint.v. *)
Definition mem_PrintUnformatted (fuel : nat) (item : ptr) : Mem (option str) :=
  match item with
  | None => mret None
  | Some _ =>
      n ← get_node item;
      text ← read_text (n_valuestring n);
      string ← read_text (n_string n);
      children ← read_chain fuel (n_child n);
      lift (cJSON_PrintUnformatted (mk_cJSON (n_type n) text (n_valueint n) (n_valuedouble n) string children))
  end.

(** The part of [CCnamHttpDriver::parse] (drivers/CnamHttpDriver.cpp) after
    the reply is parsed and found to be an object, up to the end of the life
    of [j]; the printed text, which [free] releases, is a value. *)
Definition mem_wrap_reply (fuel : nat) (j response : ptr) : Mem (option str) :=
  response_json ← mem_CreateObject;
  mem_AddItemReferenceToObject fuel response_json response j;;
  s ← mem_PrintUnformatted fuel response_json;
  mem_Delete fuel response_json;;
  mem_Delete fuel j;;
  mret s.
End Memory.
