(* ===== verification/CJsonMemorySpec.v ===== *)
(** * JSON items in memory: what the functions do

    [item_at] says that an item at an address shows a value and owns its
    blocks; each function of CJsonMemory.v takes such items to such items, with
    the value CJsonTree.v gives, and [mem_Delete] leaves nothing. *)
From iris.bi Require Import bi.
From iris.proofmode Require Import proofmode.
From S2P Require Import Prelude.
From S2P Require Import CLib.
From S2P Require Import Exceptions.
From S2P Require Import CJson.
From S2P Require Import CJsonTree.
From S2P Require Import CJsonPrint.
From S2P Require Import Drivers.
From S2P Require Import HeapLogic.
From S2P Require Import CJsonMemory.

(** ** Definitions *)

Abbreviation assertion := (hPropI block).

(** A fact about the memory that owns no block. *)
Abbreviation pure φ := (<affine> ⌜φ⌝)%I.

(** A string of its own. *)
Definition text_at (p : ptr) (s : option str) : assertion :=
  match s with
  | None => pure (p = None)
  | Some s => (∃ l, pure (p = Some l) ∗ l ↦ Chars s)%I
  end.

Section Items.
(** What the pointers of a reference show, and a constant name. *)
Variables (borrowed : ptr → ptr → option str → list cJSON → Prop) (literal : ptr → option str → Prop).

(** A chain of items from [p], whose first one has [pv] before it, up to the
    pointer [q]; its last one is at [lst]. *)
Fixpoint chain_of (item : loc → ptr → ptr → cJSON → assertion) (p pv : ptr) (ts : list cJSON) (q lst : ptr) : assertion :=
  match ts with
  | [] => pure (p = q ∧ lst = pv)
  | t :: ts => (∃ l nx, pure (p = Some l) ∗ item l pv nx t ∗ chain_of item nx (Some l) ts q lst)%I
  end.

(** What a structure owns besides its own block. *)
Definition owned_of (item : loc → ptr → ptr → cJSON → assertion) (n : node) (t : cJSON) : assertion :=
  (pure (n_type n = jtype t ∧ n_valueint n = valueint t ∧ n_valuedouble n = valuedouble t) ∗
  (if is_reference (jtype t) then pure (borrowed (n_valuestring n) (n_child n) (valuestring t) (child t))
   else text_at (n_valuestring n) (valuestring t) ∗ ∃ lst, chain_of item (n_child n) None (child t) None lst) ∗
  (if is_const (jtype t) then pure (literal (n_string n) (name t)) else text_at (n_string n) (name t)))%I.

Fixpoint item_at (l : loc) (pv nx : ptr) (t : cJSON) {struct t} : assertion :=
  (∃ n, pure (n_next n = nx ∧ n_prev n = pv) ∗ l ↦ Node n ∗ owned_of item_at n t)%I.

(** An item alone. *)
Definition item_alone (p : ptr) (t : cJSON) : assertion := (∃ l, pure (p = Some l) ∗ item_at l None None t)%I.

(** The items of a chain and below. *)
Fixpoint weight (t : cJSON) : nat := S (foldr (fun c n => weight c + n) 0 (child t)).
Definition weights (ts : list cJSON) : nat := foldr (fun c n => weight c + n) 0 ts.

(** ** Lemmas: one step *)

Implicit Types Q : assertion.

Lemma mwp_get_node l n (Q : node → assertion) :
  l ↦ Node n ∗ (l ↦ Node n -∗ Q n) ⊢ mwp (get_node (Some l)) Q.
Proof. by apply mwp_load. Qed.

Lemma mwp_set_node l n f (Q : unit → assertion) :
  l ↦ Node n ∗ (l ↦ Node (f n) -∗ Q tt) ⊢ mwp (set_node (Some l) f) Q.
Proof.
  iIntros "[Hl HQ]". iApply mwp_bind. iApply mwp_get_node. iFrame "Hl". iIntros "Hl".
  iApply mwp_store. by iFrame.
Qed.

Lemma mwp_when_false (m : Mem unit) (Q : unit → assertion) : Q tt ⊢ mwp (when false m) Q.
Proof. apply mwp_ret. Qed.

(** [if (!borrowed && p != NULL) free(p);] *)
Lemma mwp_free_text b p s (Q : unit → assertion) :
  (if b : bool then emp else text_at p s) ∗ Q tt
  ⊢ mwp (when (negb b && negb (is_null p)) (deallocate p) : Mem unit) Q.
Proof.
  destruct b; cbn [negb andb].
  - iIntros "[_ HQ]". by iApply mwp_when_false.
  - destruct s as [s|]; cbn [text_at].
    + iIntros "[(%l & -> & Hl) HQ]". iApply mwp_deallocate. iFrame.
    + iIntros "[-> HQ]". by iApply mwp_when_false.
Qed.

Lemma item_at_unfold l pv nx t :
  item_at l pv nx t = (∃ n, pure (n_next n = nx ∧ n_prev n = pv) ∗ l ↦ Node n ∗ owned_of item_at n t)%I.
Proof. by destruct t. Qed.

Lemma weight_unfold t : weight t = S (weights (child t)).
Proof. by destruct t. Qed.

Lemma weights_lookup ts i t : ts !! i = Some t → weight t ≤ weights ts.
Proof.
  revert i. induction ts as [|t' ts IH]; intros [|i]; [done|done| |].
  - intros [= ->]. change (weights (t :: ts)) with (weight t + weights ts). lia.
  - intros Hi%IH. change (weights (t' :: ts)) with (weight t' + weights ts). lia.
Qed.

(** ** Lemmas: freeing *)

Lemma delete_frees fuel : ∀ p pv ts lst, weights ts < fuel →
  chain_of item_at p pv ts None lst ⊢ mwp (mem_Delete fuel p) (λ _, emp).
Proof.
  induction fuel as [|fuel IH]; intros p pv ts lst Hf; [lia|].
  destruct ts as [|t ts]; cbn [chain_of].
  - iIntros "%E". destruct E as [-> ->]. by iApply mwp_ret.
  - cbn [weights foldr] in Hf. fold (weights ts) in Hf. rw weight_unfold in Hf.
    iIntros "(%l & %nx & -> & Ht & Hts)". rw item_at_unfold.
    iDestruct "Ht" as (n) "(%Hp & Hl & %Hd & Hown & Hname)".
    destruct Hp as [Hnx _], Hd as (Hty & _ & _). cbn [mem_Delete].
    iApply mwp_bind. iApply mwp_get_node. iFrame "Hl". iIntros "Hl". iApply mwp_bind. rw Hty Hnx.
    iAssert (mwp (when (negb (is_reference (jtype t)) && negb (is_null (n_child n))) (mem_Delete fuel (n_child n)))
               (λ _, if is_reference (jtype t) then emp else text_at (n_valuestring n) (valuestring t))%I)
      with "[Hown]" as "Hdel".
    { destruct (is_reference (jtype t)); cbn [negb andb].
      - iDestruct "Hown" as "_". by iApply mwp_when_false.
      - iDestruct "Hown" as "[Htext (%lst' & Hc)]". destruct (is_null (n_child n)) eqn:E; cbn [negb].
        + iApply mwp_when_false. destruct (n_child n); [done|]. destruct (child t); cbn [chain_of]; [by iDestruct "Hc" as "_"|].
          by iDestruct "Hc" as (??) "(%Hn & Hn)".
        + cbn [when]. iApply mwp_wand. iSplitL "Hc"; [iApply (IH with "Hc"); lia|]. iIntros (_) "_". iFrame. }
    iApply mwp_wand. iFrame "Hdel". iIntros (_) "Htext".
    iApply mwp_bind. iApply mwp_get_node. iFrame "Hl". iIntros "Hl". rw Hty.
    iApply mwp_bind. iApply mwp_free_text. iFrame "Htext".
    iApply mwp_bind. iApply (mwp_free_text _ _ (name t)). iSplitL "Hname"; [by destruct (is_const (jtype t))|].
    iApply mwp_bind. iApply mwp_deallocate. iFrame "Hl". iApply (IH with "Hts"). lia.
Qed.

(** ** Lemmas: chains *)

Lemma chain_of_app item p pv ts ts' q lst :
  chain_of item p pv (ts ++ ts') q lst
  ⊣⊢ ∃ m lm, chain_of item p pv ts m lm ∗ chain_of item m lm ts' q lst.
Proof.
  revert p pv. induction ts as [|t ts IH]; intros p pv; cbn [app chain_of].
  - iSplit.
    + iIntros "H". iExists p, pv. by iFrame.
    + iIntros "(%m & %lm & %E & H)". by destruct E as [-> ->].
  - setoid_rewrite IH. iSplit.
    + iIntros "(%l & %nx & -> & Ht & (%m & %lm & H1 & H2))". iExists m, lm. iFrame "H2". iExists l, nx. by iFrame.
    + iIntros "(%m & %lm & (%l & %nx & -> & Ht & H1) & H2)". iExists l, nx. iFrame "Ht". iSplitR; [done|].
      iExists m, lm. iFrame.
Qed.

Lemma chain_of_one item p pv t q lst :
  chain_of item p pv [t] q lst ⊣⊢ ∃ l, pure (p = Some l ∧ lst = Some l) ∗ item l pv q t.
Proof.
  cbn [chain_of]. iSplit.
  - iIntros "(%l & %nx & -> & Ht & %E)". destruct E as [-> ->]. iExists l. by iFrame.
  - iIntros "(%l & %E & Ht)". destruct E as [-> ->]. iExists l, q. by iFrame.
Qed.

(** Giving an item another neighbour. *)
Lemma mwp_set_prev l pv pv' nx t (Q : unit → assertion) :
  item_at l pv nx t ∗ (item_at l pv' nx t -∗ Q tt) ⊢ mwp (set_node (Some l) (with_prev pv')) Q.
Proof.
  rw !item_at_unfold. iIntros "[(%n & %Hn & Hl & Ho) HQ]". destruct Hn as [Hnx Hpv].
  iApply mwp_set_node. iFrame "Hl". iIntros "Hl". iApply "HQ". iExists (with_prev pv' n). by iFrame.
Qed.

Lemma mwp_set_next l pv nx nx' t (Q : unit → assertion) :
  item_at l pv nx t ∗ (item_at l pv nx' t -∗ Q tt) ⊢ mwp (set_node (Some l) (with_next nx')) Q.
Proof.
  rw !item_at_unfold. iIntros "[(%n & %Hn & Hl & Ho) HQ]". destruct Hn as [Hnx Hpv].
  iApply mwp_set_node. iFrame "Hl". iIntros "Hl". iApply "HQ". iExists (with_next nx' n). by iFrame.
Qed.

(** The links of an item, read. *)
Lemma mwp_read_links l pv nx t (Q : node → assertion) :
  item_at l pv nx t ∗ (∀ n, pure (n_next n = nx ∧ n_prev n = pv ∧ n_type n = jtype t) -∗ item_at l pv nx t -∗ Q n)
  ⊢ mwp (get_node (Some l)) Q.
Proof.
  rw !item_at_unfold. iIntros "[(%n & %Hn & Hl & %Hd & Ho) HQ]". destruct Hn as [Hnx Hpv], Hd as (Hty & Hd).
  iApply mwp_get_node. iFrame "Hl". iIntros "Hl". iApply "HQ"; [done|]. iExists n. by iFrame.
Qed.

(** [if (p) p->prev = pv';] for the first item of a chain. *)
Lemma mwp_first_prev p pv pv' ts lst (Q : unit → assertion) :
  chain_of item_at p pv ts None lst ∗ (∀ lst', chain_of item_at p pv' ts None lst' -∗ Q tt)
  ⊢ mwp (when (negb (is_null p)) (set_node p (with_prev pv'))) Q.
Proof.
  destruct ts as [|t ts]; cbn [chain_of].
  - iIntros "[%E HQ]". destruct E as [-> _]. iApply mwp_when_false. by iApply "HQ".
  - iIntros "[(%l & %nx & -> & Ht & Hts) HQ]". iApply mwp_set_prev. iFrame "Ht". iIntros "Ht".
    iApply "HQ". iExists l, nx. by iFrame.
Qed.

(** [last->next = m';] for the last item of a chain that has one. *)
Lemma mwp_last_next p pv ts t m m' lm (Q : unit → assertion) :
  chain_of item_at p pv (ts ++ [t]) m lm ∗ (chain_of item_at p pv (ts ++ [t]) m' lm -∗ Q tt)
  ⊢ mwp (set_node lm (with_next m')) Q.
Proof.
  rw !chain_of_app. iIntros "[(%q & %lq & H1 & H2) HQ]". rw chain_of_one.
  iDestruct "H2" as (l) "[%E Ht]". destruct E as [-> ->]. iApply mwp_set_next. iFrame "Ht". iIntros "Ht".
  iApply "HQ". iExists (Some l), lq. iFrame "H1". rw chain_of_one. iExists l. by iFrame.
Qed.

Lemma last_child_spec fuel : ∀ p pv t ts lst, length ts < fuel →
  chain_of item_at p pv (t :: ts) None lst
  ⊢ mwp (last_child fuel p) (λ r, pure (r = lst) ∗ chain_of item_at p pv (t :: ts) None lst).
Proof.
  induction fuel as [|fuel IH]; intros p pv t ts lst Hf; [lia|].
  cbn [last_child]. iIntros "(%l & %nx & -> & Ht & Hts)". iApply mwp_bind. iApply mwp_read_links. iFrame "Ht".
  iIntros (n) "%Hn Ht". destruct Hn as (-> & _). destruct ts as [|t' ts].
  - iDestruct "Hts" as %[-> ->]. cbn [is_null]. iApply mwp_ret. iSplitR; [done|]. iExists l, None. by iFrame.
  - destruct nx as [l'|]; [|by iDestruct "Hts" as (??) "(%Hx & Hts)"]. cbn [is_null].
    iApply mwp_wand. iSplitL "Hts"; [iApply (IH with "Hts"); cbn in *; lia|].
    iIntros (r) "[-> Hts]". iSplitR; [done|]. iExists l, (Some l'). by iFrame.
Qed.

(** The children of an item that borrows none, given out and taken back. *)
Lemma item_children l pv nx t : is_reference (jtype t) = false →
  item_at l pv nx t ⊢ ∃ n lst, pure (n_next n = nx ∧ n_prev n = pv ∧ n_type n = jtype t) ∗
    l ↦ Node n ∗ chain_of item_at (n_child n) None (child t) None lst ∗
    (∀ c ts lst', l ↦ Node (with_child c n) -∗ chain_of item_at c None ts None lst' -∗
       item_at l pv nx (set_child ts t)).
Proof.
  intros Hr. rw item_at_unfold. iIntros "(%n & %Hn & Hl & %Hd & Ho & Hname)". rw Hr.
  iDestruct "Ho" as "[Htext (%lst & Hc)]". iExists n, lst. iFrame "Hl Hc". iSplitR; [iPureIntro; tauto|].
  iIntros (c ts lst') "Hl Hc". rw item_at_unfold. iExists (with_child c n). iFrame "Hl". iSplitR; [done|].
  unfold owned_of. cbn. rw Hr. iFrame "Htext Hname". iSplitR; [done|]. by iExists lst'.
Qed.

Lemma with_child_same n : with_child (n_child n) n = n.
Proof. by destruct n. Qed.

(** ** Lemmas: adding *)

Lemma add_item_to_array_spec fuel la pv nx a li i :
  is_reference (jtype a) = false → length (child a) < fuel →
  item_at la pv nx a ∗ item_at li None None i
  ⊢ mwp (mem_add_item_to_array fuel (Some la) (Some li))
      (λ r, pure (r = true) ∗ item_at la pv nx (set_child (child a ++ [i]) a)).
Proof.
  intros Hr Hf. iIntros "[Ha Hi]". iDestruct (item_children with "Ha") as (n lst) "(%Hn & Hl & Hc & Hback)"; [done|].
  unfold mem_add_item_to_array. cbn [is_null orb]. iApply mwp_bind. iApply mwp_get_node. iFrame "Hl". iIntros "Hl".
  iApply mwp_bind. destruct (child a) as [|t ts].
  - iDestruct "Hc" as %[-> ->]. cbn [is_null]. iApply mwp_set_node. iFrame "Hl". iIntros "Hl".
    iApply mwp_ret. iSplitR; [done|]. iApply ("Hback" with "Hl"). iExists li, None. by iFrame.
  - destruct (n_child n) as [c|] eqn:Ec; [|by iDestruct "Hc" as (??) "(%Hx & Hc)"]. cbn [is_null].
    iApply mwp_bind. iApply mwp_wand. iSplitL "Hc"; [iApply (last_child_spec with "Hc"); cbn in Hf; lia|].
    iIntros (r) "[-> Hc]". destruct (exists_last (l := t :: ts)) as (ts' & t' & ->); [done|].
    iApply mwp_bind. iApply mwp_last_next. iFrame "Hc". iIntros "Hc". iApply mwp_set_prev. iFrame "Hi". iIntros "Hi".
    iApply mwp_ret. iSplitR; [done|]. pose proof (with_child_same n) as Hs. rw Ec in Hs.
    iSpecialize ("Hback" $! (Some c)). iEval (rw Hs) in "Hback". iApply ("Hback" with "Hl"). rw (chain_of_app _ _ _ _ [i]).
    iExists (Some li), lst. iFrame "Hc". rw chain_of_one. iExists li. by iFrame.
Qed.

(** ** Lemmas: an element of an array *)

(** The chain around the item at [l]. *)
Definition around (c l lm nx : ptr) (pre : list cJSON) (t : cJSON) (post : list cJSON) (lst : ptr) : assertion :=
  (∃ a, pure (l = Some a) ∗ chain_of item_at c None pre l lm ∗ item_at a lm nx t ∗
     chain_of item_at nx l post None lst)%I.

Lemma around_chain c l lm nx pre t post lst :
  around c l lm nx pre t post lst ⊢ chain_of item_at c None (pre ++ t :: post) None lst.
Proof.
  iIntros "(%a & -> & H1 & Ht & H2)". rw chain_of_app. iExists (Some a), lm. iFrame "H1". iExists a, nx. by iFrame.
Qed.

Lemma nth_item_spec i : ∀ p pv ts lst,
  chain_of item_at p pv ts None lst
  ⊢ mwp (nth_item i p) (λ r, match ts !! i with
      | Some t => ∃ a lm nx, pure (r = Some a) ∗ chain_of item_at p pv (take i ts) r lm ∗ item_at a lm nx t ∗
                    chain_of item_at nx r (drop (S i) ts) None lst
      | None => pure (r = None) ∗ chain_of item_at p pv ts None lst
      end)%I.
Proof.
  induction i as [|i IH]; intros p pv ts lst; (destruct ts as [|t ts]; cbn [chain_of lookup list_lookup take drop]).
  - iIntros "%E". destruct E as [-> ->]. iApply mwp_ret. by iSplit.
  - iIntros "(%l & %nx & -> & Ht & Hts)". iApply mwp_ret. iExists l, pv, nx. by iFrame.
  - iIntros "%E". destruct E as [-> ->]. iApply mwp_ret. by iSplit.
  - iIntros "(%l & %nx & -> & Ht & Hts)". cbn [nth_item]. iApply mwp_bind. iApply mwp_read_links. iFrame "Ht".
    iIntros (n) "%Hn Ht". destruct Hn as (-> & _). iApply mwp_wand. iSplitL "Hts"; [iApply (IH with "Hts")|].
    iIntros (r) "H". destruct (ts !! i) as [t'|].
    + iDestruct "H" as (a lm nx') "(-> & H1 & Ht' & H2)". iExists a, lm, nx'. iSplitR; [done|]. iFrame "Ht' H2".
      iExists l, nx. by iFrame.
    + iDestruct "H" as "[-> H]". iSplitR; [done|]. iExists l, nx. by iFrame.
Qed.

(** [get_array_item] on the children of an item. *)
Lemma get_array_item_spec i la n lst ts :
  la ↦ Node n ∗ chain_of item_at (n_child n) None ts None lst
  ⊢ mwp (mem_get_array_item (Some la) i) (λ r, la ↦ Node n ∗ match ts !! i with
      | Some t => ∃ lm nx, around (n_child n) r lm nx (take i ts) t (drop (S i) ts) lst
      | None => pure (r = None) ∗ chain_of item_at (n_child n) None ts None lst
      end)%I.
Proof.
  iIntros "[Hl Hc]". iApply mwp_bind. iApply mwp_get_node. iFrame "Hl". iIntros "Hl".
  iApply mwp_wand. iSplitL "Hc"; [iApply (nth_item_spec with "Hc")|]. iIntros (r) "H". iFrame "Hl".
  destruct (ts !! i) as [t|]; [|done]. iDestruct "H" as (a lm nx) "(-> & H)". iExists lm, nx, a. by iFrame.
Qed.

Lemma item_at_ne l pv nx t l' pv' nx' t' :
  item_at l pv nx t ∗ item_at l' pv' nx' t' ⊢ ⌜l ≠ l'⌝.
Proof.
  rw !item_at_unfold. iIntros "[(%n & _ & Hl & H) (%n' & _ & Hl' & H')]".
  iDestruct (points_to_ne with "[$Hl $Hl']") as "%Hne". done.
Qed.

Lemma chain_last item p pv ts t q lst :
  chain_of item p pv (ts ++ [t]) q lst ⊢ ⌜∃ a, lst = Some a⌝.
Proof.
  rw chain_of_app. iIntros "(%m & %lm & _ & H)". rw chain_of_one. iDestruct "H" as (l) "[%E _]".
  destruct E as [_ ->]. by iExists l.
Qed.

(** An item of a chain has another before it, or it is the first one. *)
Lemma before_last c pre (l : loc) lm pv nx t :
  chain_of item_at c None pre (Some l) lm ∗ item_at l pv nx t
  ⊢ pure ((pre = [] ∧ c = Some l ∧ lm = None) ∨ ((∃ pre' t', pre = pre' ++ [t']) ∧ (∃ a, lm = Some a) ∧ c ≠ Some l)) ∗
    chain_of item_at c None pre (Some l) lm ∗ item_at l pv nx t.
Proof.
  apply keep_pure. destruct pre as [|t0 pre].
  - iIntros "[%H _]". destruct H as [-> ->]. iPureIntro. by left.
  - destruct (exists_last (l := t0 :: pre)) as (pre' & t' & Hp); [done|].
    trans (⌜∃ a, lm = Some a⌝ ∧ ⌜c ≠ Some l⌝ : assertion)%I; [apply bi.and_intro|].
    + rw Hp. iIntros "[Hc _]". by iApply chain_last.
    + iIntros "[(%l0 & %nx0 & -> & Ht0 & _) Ht]". iDestruct (item_at_ne with "[$Ht0 $Ht]") as "%Hne".
      iPureIntro. congruence.
    + iIntros "[%Ha %Hc]". iPureIntro. right. eauto.
Qed.

(** ** Lemmas: detaching *)

(** [if (prev) prev->next = nx;] before the item that is taken out. *)
Lemma mwp_unlink_next c pre (l : loc) lm nx (Q : unit → assertion) :
  (pre = [] ∧ c = Some l ∧ lm = None) ∨ ((∃ pre' t', pre = pre' ++ [t']) ∧ (∃ a, lm = Some a) ∧ c ≠ Some l) →
  chain_of item_at c None pre (Some l) lm ∗
  (chain_of item_at (if bool_decide (Some l = c) then nx else c) None pre nx lm -∗ Q tt)
  ⊢ mwp (when (negb (is_null lm)) (set_node lm (with_next nx))) Q.
Proof.
  intros [(-> & -> & ->)|((pre' & t' & ->) & (a & ->) & Hc)].
  - rw bool_decide_true //. iIntros "[_ HQ]". iApply mwp_when_false. by iApply "HQ".
  - rw bool_decide_false; [|congruence]. apply mwp_last_next.
Qed.

Lemma detach_spec la n c (l : loc) lm nx pre t post lst :
  n_child n = c →
  la ↦ Node n ∗ around c (Some l) lm nx pre t post lst
  ⊢ mwp (mem_DetachItemViaPointer (Some la) (Some l)) (λ r, pure (r = Some l) ∗ item_at l None None t ∗
      ∃ c' lst', la ↦ Node (with_child c' n) ∗ chain_of item_at c' None (pre ++ post) None lst').
Proof.
  intros Hc. iIntros "[Hl (%a & %Ea & H1 & Ht & H2)]". injection Ea as <-.
  iDestruct (before_last with "[$H1 $Ht]") as "(%Hpre & H1 & Ht)".
  unfold mem_DetachItemViaPointer. cbn [is_null orb]. iApply mwp_bind. iApply mwp_read_links. iFrame "Ht".
  iIntros (i1) "%E1 Ht". destruct E1 as (-> & -> & _). iApply mwp_bind. iApply mwp_unlink_next; [done|].
  iFrame "H1". iIntros "H1". iApply mwp_bind. iApply mwp_read_links. iFrame "Ht".
  iIntros (i2) "%E2 Ht". destruct E2 as (-> & -> & _). iApply mwp_bind. iApply mwp_first_prev. iFrame "H2".
  iIntros (lst') "H2". iApply mwp_bind. iApply mwp_get_node. iFrame "Hl". iIntros "Hl". rw Hc. iApply mwp_bind.
  iAssert (mwp (when (bool_decide (Some l = c)) (i ← get_node (Some l); set_node (Some la) (with_child (n_next i))))
             (λ _, item_at l lm nx t ∗ la ↦ Node (with_child (if bool_decide (Some l = c) then nx else c) n)))%I
    with "[Hl Ht]" as "Hw".
  { destruct (bool_decide (Some l = c)); cbn [when].
    - iApply mwp_bind. iApply mwp_read_links. iFrame "Ht". iIntros (i3) "%E3 Ht". destruct E3 as (-> & _).
      iApply mwp_set_node. iFrame "Hl". iIntros "Hl". iFrame.
    - iApply mwp_ret. rw -Hc with_child_same. iFrame. }
  iApply mwp_wand. iFrame "Hw". iIntros (_) "[Ht Hl]". iApply mwp_bind. iApply mwp_set_prev. iFrame "Ht". iIntros "Ht".
  iApply mwp_bind. iApply mwp_set_next. iFrame "Ht". iIntros "Ht". iApply mwp_ret. iSplitR; [done|]. iFrame "Ht".
  iExists _, lst'. iFrame "Hl". rw chain_of_app. iExists nx, lm. iFrame.
Qed.

(** [cJSON_DetachItemFromArray] on an item: the item it returns is alone. *)
Lemma detach_from_array_spec la pv nx a which :
  is_reference (jtype a) = false →
  item_at la pv nx a
  ⊢ mwp (mem_DetachItemFromArray (Some la) which)
      (λ r, let '(a', i) := cJSON_DetachItemFromArray (Some a) which in
         (from_option (item_at la pv nx) emp a' ∗
          match i with Some t => item_alone r t | None => pure (r = None) end))%I.
Proof.
  intros Hr. unfold mem_DetachItemFromArray, cJSON_DetachItemFromArray. destruct (which <? 0)%Z.
  - iIntros "Ha". iApply mwp_ret. by iFrame.
  - iIntros "Ha". iDestruct (item_children with "Ha") as (n lst) "(_ & Hl & Hc & Hback)"; [done|].
    iApply mwp_bind. iApply mwp_wand. iSplitL "Hl Hc"; [iApply get_array_item_spec; iFrame|]. iIntros (r) "[Hl H]".
    unfold cJSON_DetachItemViaPointer. rw nth_child_lookup. destruct (child a !! Z.to_nat which) as [t|].
    + iDestruct "H" as (lm nx') "H". iDestruct "H" as (l) "(-> & H)".
      iApply mwp_wand. iSplitL "Hl H".
      { iApply (detach_spec _ _ _ _ lm nx'); [done|]. iFrame "Hl". iExists l. by iFrame. }
      iIntros (r) "(-> & Ht & (%c' & %lst' & Hl & Hc))". iSplitL "Hl Hc Hback".
      * cbn. iApply ("Hback" with "Hl Hc").
      * iExists l. by iFrame.
    + iDestruct "H" as "[-> Hc]". iApply mwp_ret. cbn. iSplitL; [|done].
      iSpecialize ("Hback" $! (n_child n)). rw with_child_same. iSpecialize ("Hback" with "Hl Hc").
      by destruct a.
Qed.

(** ** Lemmas: inserting and replacing *)

Lemma around_open c (l : loc) lm nx pre t post lst :
  around c (Some l) lm nx pre t post lst
  ⊢ chain_of item_at c None pre (Some l) lm ∗ item_at l lm nx t ∗ chain_of item_at nx (Some l) post None lst.
Proof. iIntros "(%a & %E & H)". injection E as <-. iFrame. Qed.

Lemma insert_spec fuel la pv nx a which li i :
  is_reference (jtype a) = false → length (child a) < fuel →
  item_at la pv nx a ∗ item_at li None None i
  ⊢ mwp (mem_InsertItemInArray fuel (Some la) which (Some li)) (λ _,
      match cJSON_InsertItemInArray (E:=exn) (Some a) which (Some i) with
      | Ret (Some a') => item_at la pv nx a' ∗ (if (which <? 0)%Z then item_at li None None i else emp)
      | _ => False
      end)%I.
Proof.
  intros Hr Hf. unfold mem_InsertItemInArray, cJSON_InsertItemInArray. destruct (which <? 0)%Z.
  { iIntros "[Ha Hi]". iApply mwp_ret. iFrame. }
  iIntros "[Ha Hi]". iDestruct (item_children with "Ha") as (n lst) "(_ & Hl & Hc & Hback)"; [done|].
  iApply mwp_bind. iApply mwp_wand. iSplitL "Hl Hc"; [iApply get_array_item_spec; iFrame|]. iIntros (r) "[Hl H]".
  cbn [get_array_item]. rw nth_child_lookup. destruct (child a !! Z.to_nat which) as [t|] eqn:Et.
  - rw (drop_S _ _ _ Et). iDestruct "H" as (lm nx') "(%l & -> & H1 & Ht & H2)". cbn [is_null].
    iDestruct (before_last with "[$H1 $Ht]") as "(%Hpre & H1 & Ht)".
    iApply mwp_bind. iApply mwp_set_next. iFrame "Hi". iIntros "Hi". iApply mwp_bind. iApply mwp_read_links. iFrame "Ht".
    iIntros (i1) "%E1 Ht". destruct E1 as (_ & -> & _). iApply mwp_bind. iApply mwp_set_prev. iFrame "Hi". iIntros "Hi".
    iApply mwp_bind. iApply mwp_set_prev. iFrame "Ht". iIntros "Ht". iApply mwp_bind. iApply mwp_get_node. iFrame "Hl". iIntros "Hl".
    destruct Hpre as [(Hp & Hc & ->)|((pre' & t' & Hp) & (b & ->) & Hc)].
    + rw bool_decide_true //. iApply mwp_set_node. iFrame "Hl". iIntros "Hl". iSplitL; [|done]. iApply ("Hback" with "Hl").
      rw Hp. iDestruct "H1" as "_". iExists li, (Some l). iFrame "Hi". iSplitR; [done|]. iExists l, nx'. by iFrame.
    + rw bool_decide_false; [|congruence]. iApply mwp_bind. iApply mwp_read_links. iFrame "Hi".
      iIntros (i2) "%E2 Hi". destruct E2 as (_ & -> & _). rw Hp. iApply mwp_last_next. iFrame "H1". iIntros "H1".
      iSpecialize ("Hback" $! (n_child n)). rw with_child_same. iSplitL; [|done]. iApply ("Hback" with "Hl"). rw (chain_of_app _ _ _ _ (i :: _)).
      iExists (Some li), (Some b). iFrame "H1". iExists li, (Some l). iFrame "Hi". iSplitR; [done|]. iExists l, nx'. by iFrame.
  - iDestruct "H" as "[-> Hc]". cbn [is_null fst add_item_to_array].
    iSpecialize ("Hback" $! (n_child n)). rw with_child_same. iSpecialize ("Hback" with "Hl Hc").
    iApply mwp_bind. iApply mwp_wand. iSplitL; [iApply add_item_to_array_spec; [..|iFrame]|].
    + by destruct a.
    + by destruct a.
    + iIntros (r) "[_ Ha]". iApply mwp_ret. iSplitL; [|done]. by destruct a.
Qed.

Lemma delete_alone fuel (l : loc) t : weight t < fuel → item_at l None None t ⊢ mwp (mem_Delete fuel (Some l)) (λ _, emp).
Proof.
  intros Hf. iIntros "Ht". iApply (delete_frees fuel (Some l) None [t] (Some l)); [cbn; lia|].
  rw chain_of_one. iExists l. by iFrame.
Qed.

Lemma replace_spec fuel la n c (l : loc) lm nx pre t post lst li i :
  n_child n = c → weight t < fuel →
  la ↦ Node n ∗ around c (Some l) lm nx pre t post lst ∗ item_at li None None i
  ⊢ mwp (mem_ReplaceItemViaPointer fuel (Some la) (Some l) (Some li)) (λ r, pure (r = true) ∗
      ∃ c' lst', la ↦ Node (with_child c' n) ∗ chain_of item_at c' None (pre ++ i :: post) None lst').
Proof.
  intros Hc Hf. iIntros "(Hl & Hr & Hi)". rw around_open. iDestruct "Hr" as "(H1 & Ht & H2)".
  iDestruct (before_last with "[$H1 $Ht]") as "(%Hpre & H1 & Ht)".
  iDestruct (keep_pure _ _ (item_at_ne li None None i l lm nx t) with "[$Hi $Ht]") as "(%Hne & Hi & Ht)".
  unfold mem_ReplaceItemViaPointer. cbn [is_null orb]. rw bool_decide_false; [|congruence].
  iApply mwp_bind. iApply mwp_read_links. iFrame "Ht". iIntros (i1) "%E1 Ht". destruct E1 as (-> & _).
  iApply mwp_bind. iApply mwp_set_next. iFrame "Hi". iIntros "Hi".
  iApply mwp_bind. iApply mwp_read_links. iFrame "Ht". iIntros (i2) "%E2 Ht". destruct E2 as (_ & -> & _).
  iApply mwp_bind. iApply mwp_set_prev. iFrame "Hi". iIntros "Hi".
  iApply mwp_bind. iApply mwp_read_links. iFrame "Hi". iIntros (i3) "%E3 Hi". destruct E3 as (-> & _).
  iApply mwp_bind. iApply mwp_first_prev. iFrame "H2". iIntros (lst') "H2".
  iApply mwp_bind. iApply mwp_read_links. iFrame "Hi". iIntros (i4) "%E4 Hi". destruct E4 as (_ & -> & _).
  iApply mwp_bind. iApply mwp_unlink_next; [done|]. iFrame "H1". iIntros "H1".
  iApply mwp_bind. iApply mwp_get_node. iFrame "Hl". iIntros "Hl". rw Hc. iApply mwp_bind.
  iAssert (mwp (when (bool_decide (c = Some l)) (set_node (Some la) (with_child (Some li))))
             (λ _, la ↦ Node (with_child (if bool_decide (Some l = c) then Some li else c) n)))%I with "[Hl]" as "Hw".
  { rw (bool_decide_ext (c = Some l) (Some l = c)); [|by split]. destruct (bool_decide _); cbn [when].
    - iApply mwp_set_node. iFrame "Hl". by iIntros "Hl".
    - iApply mwp_ret. by rw -Hc with_child_same. }
  iApply mwp_wand. iFrame "Hw". iIntros (_) "Hl".
  iApply mwp_bind. iApply mwp_set_next. iFrame "Ht". iIntros "Ht".
  iApply mwp_bind. iApply mwp_set_prev. iFrame "Ht". iIntros "Ht".
  iApply mwp_bind. iApply mwp_wand. iSplitL "Ht"; [by iApply (delete_alone with "Ht")|]. iIntros (_) "_".
  iApply mwp_ret. iSplitR; [done|]. iExists _, lst'. iFrame "Hl". rw (chain_of_app _ _ _ _ (i :: _)).
  iExists (Some li), lm. iFrame "H1". iExists li, nx. by iFrame.
Qed.

Lemma replace_in_array_spec fuel la pv nx a which li i :
  is_reference (jtype a) = false → weight a < fuel →
  item_at la pv nx a ∗ item_at li None None i
  ⊢ mwp (mem_ReplaceItemInArray fuel (Some la) which (Some li)) (λ _,
      from_option (item_at la pv nx) emp (cJSON_ReplaceItemInArray (Some a) which (Some i)) ∗
      if (which <? 0)%Z || negb (snd (cJSON_ReplaceItemViaPointer (Some a) (Some (Z.to_nat which)) (Some i)))
      then item_at li None None i else emp)%I.
Proof.
  intros Hr Hf. unfold mem_ReplaceItemInArray, cJSON_ReplaceItemInArray. destruct (which <? 0)%Z; cbn [orb].
  { iIntros "[Ha Hi]". iApply mwp_ret. iFrame. }
  iIntros "[Ha Hi]". iDestruct (item_children with "Ha") as (n lst) "(_ & Hl & Hc & Hback)"; [done|].
  iApply mwp_bind. iApply mwp_wand. iSplitL "Hl Hc"; [iApply get_array_item_spec; iFrame|]. iIntros (r) "[Hl H]".
  unfold cJSON_ReplaceItemViaPointer. rw nth_child_lookup. destruct (child a !! Z.to_nat which) as [t|] eqn:Et.
  - iDestruct "H" as (lm nx') "H". iDestruct "H" as (l) "(-> & H)". iApply mwp_bind. iApply mwp_wand. iSplitL "Hl H Hi".
    { iApply (replace_spec fuel la n (n_child n) l lm nx' _ t); [done| |].
      - rw weight_unfold in Hf. pose proof (weights_lookup _ _ _ Et). lia.
      - iFrame "Hl Hi". iExists l. by iFrame. }
    iIntros (r) "(_ & (%c' & %lst' & Hl & Hc))". iApply mwp_ret. cbn. iSplitL; [|done]. iApply ("Hback" with "Hl Hc").
  - iDestruct "H" as "[-> Hc]". iApply mwp_bind. iApply mwp_ret. iApply mwp_ret. cbn. iFrame "Hi".
    iSpecialize ("Hback" $! (n_child n)). rw with_child_same. iSpecialize ("Hback" with "Hl Hc"). by destruct a.
Qed.

Lemma length_weights ts : length ts ≤ weights ts.
Proof.
  induction ts as [|t ts IH]; [done|]. change (weights (t :: ts)) with (weight t + weights ts).
  rw weight_unfold. cbn [length]. lia.
Qed.

Lemma delete_from_array_spec fuel la pv nx a which :
  is_reference (jtype a) = false → weight a < fuel →
  item_at la pv nx a
  ⊢ mwp (mem_DeleteItemFromArray fuel (Some la) which)
      (λ _, from_option (item_at la pv nx) emp (cJSON_DeleteItemFromArray (Some a) which)).
Proof.
  intros Hr Hf. iIntros "Ha". iApply mwp_bind. iApply mwp_wand. iSplitL; [by iApply detach_from_array_spec|].
  iIntros (r) "H". unfold cJSON_DeleteItemFromArray.
  assert (Hi : ∀ t, snd (cJSON_DetachItemFromArray (Some a) which) = Some t → weight t < fuel).
  { intros t. unfold cJSON_DetachItemFromArray. destruct (which <? 0)%Z; [done|]. unfold cJSON_DetachItemViaPointer.
    rw nth_child_lookup. destruct (child a !! _) as [t'|] eqn:Et; [|done]. intros [= <-].
    apply weights_lookup in Et. rw weight_unfold in Hf. lia. }
  destruct (cJSON_DetachItemFromArray (Some a) which) as [a' i]. cbn [fst snd] in *. iDestruct "H" as "[Ha Hi]".
  iApply (mwp_wand _ (λ _, emp)%I). iSplitL "Hi"; [|by iIntros (_) "_"]. destruct i as [t|].
  - iDestruct "Hi" as (l) "[-> Ht]". iApply (delete_alone with "Ht"). by apply Hi.
  - iDestruct "Hi" as %->. destruct fuel; [lia|]. by iApply mwp_ret.
Qed.

(** ** Lemmas: names and references *)

Lemma mwp_read_chars l s (Q : str → assertion) : l ↦ Chars s ∗ (l ↦ Chars s -∗ Q s) ⊢ mwp (load as_chars (Some l) : Mem str) Q.
Proof. by apply mwp_load. Qed.

Lemma is_reference_name t : is_reference (Z.land t (Z.lnot cJSON_StringIsConst)) = is_reference t.
Proof. unfold is_reference. by rw -Z.land_assoc. Qed.

Lemma is_const_named t : is_const (Z.land t (Z.lnot cJSON_StringIsConst)) = false.
Proof. unfold is_const. rw -Z.land_assoc. by rw Z.land_0_r. Qed.

Lemma is_reference_const t : is_reference (Z.lor t cJSON_StringIsConst) = is_reference t.
Proof. unfold is_reference. by rw Z.land_lor_distr_l Z.lor_0_r. Qed.

Lemma is_const_const t : is_const (Z.lor t cJSON_StringIsConst) = true.
Proof.
  unfold is_const. rw Z.land_lor_distr_l. apply negb_true_iff, Z.eqb_neq. intros E.
  apply (f_equal (fun z => Z.testbit z 9)) in E. rw Z.lor_spec Z.bits_0 in E. by rw orb_true_r in E.
Qed.

Context {alloc : Allocator block}.

(** The value [o] after a function that adds [i], and where the allocator
    failed both as they were. *)
Definition added_or_not (shown : option cJSON → assertion) (o : cJSON) (unused : assertion) (r : option cJSON * bool) (b : bool) : assertion :=
  (pure (b = snd r) ∗ shown (fst r) ∨ pure (b = false ∧ malloc_fails) ∗ shown (Some o) ∗ unused)%I.

(** An item gets a new name: its own copy, or the caller's. *)
Lemma add_item_to_object_spec fuel lo pv nx o k s li i (constant_key : bool) :
  is_reference (jtype o) = false → length (child o) < fuel → (constant_key = true → literal (Some k) (Some s)) →
  item_at lo pv nx o ∗ item_at li None None i ∗ k ↦ Chars s
  ⊢ mwp (mem_add_item_to_object fuel (Some lo) (Some k) (Some li) constant_key) (λ r, k ↦ Chars s ∗
      added_or_not (from_option (item_at lo pv nx) emp) o (item_at li None None i)
        (add_item_to_object (Some o) (Some s) (Some i) constant_key) r)%I.
Proof.
  intros Hr Hf Hk. iIntros "(Ho & Hi & Hs)". unfold mem_add_item_to_object. cbn [is_null orb].
  rw (item_at_unfold li). iDestruct "Hi" as (n) "(%Hn & Hl & %Hd & Hown & Hname)". destruct Hn as [Hnx Hpv], Hd as (Hty & Hv & Hw).
  set (name' := if constant_key then s else c_str s).
  set (type' := if constant_key then Z.lor (jtype i) cJSON_StringIsConst else Z.land (jtype i) (Z.lnot cJSON_StringIsConst)).
  iApply mwp_bind. iApply (mwp_wand _ (λ x, li ↦ Node n ∗ k ↦ Chars s ∗
    match x with
    | Some x => pure (snd x = type') ∗ if constant_key then pure (fst x = Some k) else text_at (fst x) (Some name')
    | None => pure malloc_fails
    end)%I). iSplitL "Hl Hs".
  { subst name' type'. destruct constant_key.
    - iApply mwp_bind. iApply mwp_get_node. iFrame "Hl". iIntros "Hl". iApply mwp_ret. rw Hty. by iFrame.
    - iApply mwp_bind. iApply mwp_bind. iApply mwp_read_chars. iFrame "Hs". iIntros "Hs". iApply mwp_allocate. iSplit.
      + iIntros (l') "Hl'". cbn [is_null]. iApply mwp_bind. iApply mwp_get_node. iFrame "Hl". iIntros "Hl". iApply mwp_ret. rw Hty.
        cbn. iFrame. by iSplit.
      + iIntros (Hm). iApply mwp_ret. by iFrame. }
  iIntros ([[key ty]|]) "(Hl & Hs & Hkey)".
  2: { iDestruct "Hkey" as %Hm. iApply mwp_ret. iFrame "Hs". iRight. iSplitR; [done|]. iFrame "Ho". iExists n. by iFrame. }
  iDestruct "Hkey" as "[%Et Hkey]". cbn [fst snd] in *. subst ty.
  iApply mwp_bind. iApply mwp_get_node. iFrame "Hl". iIntros "Hl". rw Hty.
  iApply mwp_bind. iApply (mwp_free_text _ _ (name i)). iSplitL "Hname"; [by destruct (is_const (jtype i))|].
  iApply mwp_bind. iApply mwp_set_node. iFrame "Hl". iIntros "Hl".
  iApply mwp_bind. iApply mwp_set_node. iFrame "Hl". iIntros "Hl".
  iAssert (item_at li None None (set_jtype type' (set_name (Some name') i))) with "[Hl Hown Hkey]" as "Hi".
  { rw item_at_unfold. iExists _. iFrame "Hl". iSplitR; [done|]. unfold owned_of. cbn.
    assert (Er : is_reference type' = is_reference (jtype i)).
    { subst type'. destruct constant_key; [apply is_reference_const|apply is_reference_name]. }
    assert (Ec : is_const type' = constant_key).
    { subst type'. destruct constant_key; [apply is_const_const|apply is_const_named]. }
    rw Er Ec. iFrame "Hown". iSplitR; [done|]. subst name'. destruct constant_key; [|done].
    iDestruct "Hkey" as %->. iPureIntro. by apply Hk. }
  iApply mwp_wand. iSplitL "Ho Hi"; [iApply add_item_to_array_spec; [done..|iFrame]|].
  iIntros (r) "[-> Ho]". iFrame "Hs". iLeft. subst name' type'. by destruct constant_key; iFrame.
Qed.

Lemma create_object_spec :
  emp ⊢ mwp mem_CreateObject (λ r, (∃ l, pure (r = Some l) ∗ item_at l None None cJSON_CreateObject) ∨ pure (r = None ∧ malloc_fails)).
Proof.
  iIntros "_". iApply mwp_bind. iApply mwp_allocate. iSplit.
  2: { iIntros (Hm). iApply mwp_bind. iApply mwp_ret. iApply mwp_ret. by iRight. }
  iIntros (l) "Hl". iApply mwp_bind. iApply mwp_set_node. iFrame "Hl".
  iIntros "Hl". iApply mwp_ret. iLeft. iExists l. iSplitR; [done|]. rw item_at_unfold. iExists _. iFrame "Hl".
  iSplitR; [done|]. iSplitR; [done|]. cbn. iSplitL; [|done]. iSplitR; [done|]. by iExists None.
Qed.

(** A reference to an item shares its strings and children and owns only its
    own block. *)
Lemma create_reference_spec l n t :
  n_type n = jtype t ∧ n_valueint n = valueint t ∧ n_valuedouble n = valuedouble t →
  borrowed (n_valuestring n) (n_child n) (valuestring t) (child t) → is_const (jtype t) = false →
  l ↦ Node n
  ⊢ mwp (mem_create_reference (Some l)) (λ r, l ↦ Node n ∗
      ((∃ lr, pure (r = Some lr) ∗
        item_at lr None None (set_jtype (Z.lor (jtype t) cJSON_IsReference) (set_name None t))) ∨ pure (r = None ∧ malloc_fails))).
Proof.
  intros (Hty & Hv & Hd) Hb Hk. iIntros "Hl". iApply mwp_bind. iApply mwp_allocate. iSplit.
  2: { iIntros (Hm). iApply mwp_ret. iFrame "Hl". by iRight. }
  iIntros (lr) "Hr". cbn [is_null].
  iApply mwp_bind. iApply mwp_get_node. iFrame "Hl". iIntros "Hl". iApply mwp_bind. iApply mwp_store. iFrame "Hr". iIntros "Hr".
  do 4 (iApply mwp_bind; iApply mwp_set_node; iFrame "Hr"; iIntros "Hr"). iApply mwp_ret. iFrame "Hl".
  iLeft. iExists lr. iSplitR; [done|]. rw item_at_unfold. iExists _. iFrame "Hr". iSplitR; [done|]. unfold owned_of. cbn. rw Hty.
  assert (Hr : is_reference (Z.lor (jtype t) cJSON_IsReference) = true).
  { unfold is_reference. rw Z.land_lor_distr_l. apply negb_true_iff, Z.eqb_neq. intros E.
    apply (f_equal (fun z => Z.testbit z 8)) in E. rw Z.lor_spec Z.bits_0 in E. by rw orb_true_r in E. }
  assert (Hc : is_const (Z.lor (jtype t) cJSON_IsReference) = false).
  { rw -Hk. unfold is_const. by rw Z.land_lor_distr_l Z.lor_0_r. }
  rw Hr Hc. iSplitR; [done|]. by iSplit.
Qed.

(** With a [malloc] that does not fail: where it fails for the name of the
    reference, the reference is lost. *)
Lemma add_reference_spec fuel lo pv nx o k s l n t : ¬ malloc_fails →
  is_reference (jtype o) = false → length (child o) < fuel →
  n_type n = jtype t ∧ n_valueint n = valueint t ∧ n_valuedouble n = valuedouble t →
  borrowed (n_valuestring n) (n_child n) (valuestring t) (child t) → is_const (jtype t) = false →
  item_at lo pv nx o ∗ k ↦ Chars s ∗ l ↦ Node n
  ⊢ mwp (mem_AddItemReferenceToObject fuel (Some lo) (Some k) (Some l)) (λ _, k ↦ Chars s ∗ l ↦ Node n ∗
      from_option (item_at lo pv nx) emp (cJSON_AddItemReferenceToObject (Some o) (Some s) (Some t)))%I.
Proof.
  intros Hm Hr Hf Hd Hb Hk. iIntros "(Ho & Hs & Hl)". unfold mem_AddItemReferenceToObject. cbn [is_null orb].
  iApply mwp_bind. iApply mwp_wand. iSplitL "Hl"; [by iApply create_reference_spec|]. iIntros (r) "[Hl [(%lr & -> & Hi)|%Hx]]"; [|by destruct Hx].
  iApply mwp_bind. iApply mwp_wand. iSplitL "Ho Hs Hi"; [iApply add_item_to_object_spec; [done..|iFrame]|].
  iIntros (r) "[Hs [[_ Ho]|[%Hx H]]]"; [|by destruct Hx]. iApply mwp_ret. iFrame.
Qed.
End Items.

(** ** Lemmas: reading *)

(** Items that borrow nothing. *)
Abbreviation own_item := (item_at (λ _ _ _ _, False) (λ _ _, False)).
Abbreviation own_chain := (chain_of own_item).
Abbreviation own_alone := (item_alone (λ _ _ _ _, False) (λ _ _, False)).

Lemma mwp_read_text p s (Q : option str → assertion) :
  text_at p s ∗ (text_at p s -∗ Q s) ⊢ mwp (read_text p) Q.
Proof.
  destruct s as [s|]; cbn [text_at].
  - iIntros "[(%l & -> & Hl) HQ]". iApply mwp_bind. iApply mwp_read_chars. iFrame "Hl". iIntros "Hl".
    iApply mwp_ret. iApply "HQ". iExists l. by iFrame.
  - iIntros "[-> HQ]". iApply mwp_ret. by iApply "HQ".
Qed.

Lemma own_item_unfold l pv nx t :
  own_item l pv nx t ⊣⊢ ∃ n lst, pure (n_next n = nx ∧ n_prev n = pv) ∗
    pure (n_type n = jtype t ∧ n_valueint n = valueint t ∧ n_valuedouble n = valuedouble t) ∗
    pure (is_reference (jtype t) = false ∧ is_const (jtype t) = false) ∗ l ↦ Node n ∗
    text_at (n_valuestring n) (valuestring t) ∗ text_at (n_string n) (name t) ∗ own_chain (n_child n) None (child t) None lst.
Proof.
  rw item_at_unfold. iSplit.
  - iIntros "(%n & %Hn & Hl & %Hd & Ho & Hname)". destruct (is_reference (jtype t)) eqn:Hr; [by iDestruct "Ho" as %[]|].
    destruct (is_const (jtype t)) eqn:Hc; [by iDestruct "Hname" as %[]|]. iDestruct "Ho" as "[Ht (%lst & Hc)]".
    iExists n, lst. by iFrame.
  - iIntros "(%n & %lst & %Hn & %Hd & %Hk & Hl & Ht & Hname & Hc)". destruct Hk as [Hr Hk]. iExists n. iFrame "Hl".
    iSplitR; [done|]. iSplitR; [done|]. rw Hr Hk. iFrame "Ht Hname". by iExists lst.
Qed.

Lemma read_chain_spec fuel : ∀ p pv ts lst, weights ts < fuel →
  own_chain p pv ts None lst ⊢ mwp (read_chain fuel p) (λ r, pure (r = ts) ∗ own_chain p pv ts None lst).
Proof.
  induction fuel as [|fuel IH]; intros p pv ts lst Hf; [lia|]. destruct ts as [|t ts]; cbn [chain_of].
  - iIntros "%E". destruct E as [-> ->]. iApply mwp_ret. by iSplit.
  - change (weights (t :: ts)) with (weight t + weights ts) in Hf. rw weight_unfold in Hf.
    iIntros "(%l & %nx & -> & Ht & Hts)". rw own_item_unfold.
    iDestruct "Ht" as (n lst') "(%Hn & %Hd & %Hk & Hl & Htext & Hname & Hc)". destruct Hn as [Hnx Hpv], Hd as (Hty & Hv & Hw).
    cbn [read_chain]. iApply mwp_bind. iApply mwp_get_node. iFrame "Hl". iIntros "Hl".
    iApply mwp_bind. iApply mwp_read_text. iFrame "Htext". iIntros "Htext".
    iApply mwp_bind. iApply mwp_read_text. iFrame "Hname". iIntros "Hname".
    iApply mwp_bind. iApply mwp_wand. iSplitL "Hc"; [iApply (IH with "Hc"); lia|]. iIntros (r) "[-> Hc]". rw Hnx.
    iApply mwp_bind. iApply mwp_wand. iSplitL "Hts"; [iApply (IH with "Hts"); lia|]. iIntros (r) "[-> Hts]".
    iApply mwp_ret. rw Hty Hv Hw. iSplitR; [by destruct t|]. iExists l, nx. iSplitR; [done|]. iFrame "Hts".
    rw own_item_unfold. iExists n, lst'. by iFrame.
Qed.

(** ** Lemmas: the reply that is wrapped *)

(** What a reference to the item of the node [n] borrows. *)
Definition borrows (n : node) (t : cJSON) (text children : ptr) (s : option str) (ts : list cJSON) : Prop :=
  text = n_valuestring n ∧ children = n_child n ∧ s = valuestring t ∧ ts = child t.

Abbreviation shared_item n t := (item_at (borrows n t) (λ _ _, False)).

Definition reference_to (t : cJSON) (nm : str) : cJSON :=
  set_jtype (Z.land (Z.lor (jtype t) cJSON_IsReference) (Z.lnot cJSON_StringIsConst))
    (set_name (Some (c_str nm)) (set_name None t)).

Lemma is_reference_to t nm : is_reference (jtype (reference_to t nm)) = true.
Proof.
  unfold reference_to. cbn. rw is_reference_name. unfold is_reference. rw Z.land_lor_distr_l. apply negb_true_iff, Z.eqb_neq.
  intros E. apply (f_equal (fun z => Z.testbit z 8)) in E. rw Z.lor_spec Z.bits_0 in E. by rw orb_true_r in E.
Qed.

Lemma is_const_to t nm : is_const (jtype (reference_to t nm)) = false.
Proof. apply is_const_named. Qed.

(** Reading through a reference. *)
Lemma read_reference_spec fuel n t nm p pv lst lst' : weight t < fuel →
  chain_of (shared_item n t) p pv [reference_to t nm] None lst ∗ text_at (n_valuestring n) (valuestring t) ∗
    own_chain (n_child n) None (child t) None lst'
  ⊢ mwp (read_chain fuel p) (λ r, pure (r = [reference_to t nm]) ∗
      chain_of (shared_item n t) p pv [reference_to t nm] None lst ∗ text_at (n_valuestring n) (valuestring t) ∗
      own_chain (n_child n) None (child t) None lst').
Proof.
  intros Hf. destruct fuel as [|fuel]; [lia|]. rw weight_unfold in Hf.
  iIntros "(Hr & Htext & Hc)". iEval (rw chain_of_one) in "Hr". iDestruct "Hr" as (l) "[%E Hr]". destruct E as [-> ->]. iEval (rw item_at_unfold) in "Hr".
  iDestruct "Hr" as (nr) "(%Hn & Hl & %Hd & Ho & Hname)". rw is_reference_to is_const_to. iDestruct "Ho" as %(Ht & Hk & _ & _).
  destruct Hn as [Hnx Hpv], Hd as (Hty & Hv & Hw). cbn [read_chain]. iApply mwp_bind. iApply mwp_get_node. iFrame "Hl". iIntros "Hl". rw Ht Hk Hnx.
  iApply mwp_bind. iApply mwp_read_text. iFrame "Htext". iIntros "Htext".
  iApply mwp_bind. iApply mwp_read_text. iFrame "Hname". iIntros "Hname".
  iApply mwp_bind. iApply mwp_wand. iSplitL "Hc"; [iApply (read_chain_spec with "Hc"); lia|]. iIntros (r) "[-> Hc]".
  iApply mwp_bind. iApply (mwp_wand _ (λ r, pure (r = []))). iSplitR.
  { destruct fuel; [lia|]. by iApply mwp_ret. }
  iIntros (r) "->". iApply mwp_ret. rw Hty Hv Hw. iFrame "Htext Hc". iSplitR; [done|]. rw chain_of_one. iExists l. iSplitR; [done|].
  rw item_at_unfold. iExists nr. iFrame "Hl". iSplitR; [done|]. iSplitR; [done|]. rw is_reference_to is_const_to. by iFrame "Hname".
Qed.

Lemma mwp_lift {A} (m : outcome exn A) a (Q : A → assertion) : m = Ret a → Q a ⊢ mwp (lift m) Q.
Proof. intros ->. apply mwp_ret. Qed.

(** The wrapper printed. *)
Lemma print_wrapper_spec fuel n t nm lw lst' o : weight t < fuel →
  (cJSON_PrintUnformatted (set_child [reference_to t nm] cJSON_CreateObject) : outcome exn (option str)) = Ret o →
  shared_item n t lw None None (set_child [reference_to t nm] cJSON_CreateObject) ∗
    text_at (n_valuestring n) (valuestring t) ∗ own_chain (n_child n) None (child t) None lst'
  ⊢ mwp (mem_PrintUnformatted fuel (Some lw)) (λ r, pure (r = o) ∗
      shared_item n t lw None None (set_child [reference_to t nm] cJSON_CreateObject) ∗
      text_at (n_valuestring n) (valuestring t) ∗ own_chain (n_child n) None (child t) None lst').
Proof.
  intros Hf Ho. iIntros "(Hw & Htext & Hc)". iEval (rw item_at_unfold) in "Hw".
  iDestruct "Hw" as (nw) "(%Hn & Hl & %Hd & Hown & Hname)". destruct Hn as [Hnx Hpv], Hd as (Hty & Hv & Hw).
  iEval (cbn) in "Hown". iEval (cbn) in "Hname". iDestruct "Hown" as "[%Htx (%lst & Hkids)]". iDestruct "Hname" as %Hnm.
  unfold mem_PrintUnformatted. iApply mwp_bind. iApply mwp_get_node. iFrame "Hl". iIntros "Hl". rw Htx Hnm.
  iApply mwp_bind. iApply mwp_ret. iApply mwp_bind. iApply mwp_ret.
  iApply mwp_bind. iApply mwp_wand. iSplitL "Hkids Htext Hc"; [iApply read_reference_spec; [done|iFrame]|].
  iIntros (r) "(-> & Hkids & Htext & Hc)". rw Hty Hv Hw. iApply mwp_lift; [exact Ho|]. iFrame "Htext Hc". iSplitR; [done|].
  rw item_at_unfold. iExists nw. iFrame "Hl". iSplitR; [done|]. iSplitR; [done|]. cbn. iSplitL; [|done]. iSplitR; [done|]. by iExists lst.
Qed.

Lemma wrap_reply_spec `{Allocator block} fuel lj k t o : ¬ malloc_fails →
  weight t + 2 < fuel → is_const (jtype t) = false →
  (cJSON_PrintUnformatted (set_child [reference_to t #"response"] cJSON_CreateObject) : outcome exn (option str)) = Ret o →
  own_item lj None None t ∗ k ↦ Chars #"response"
  ⊢ mwp (mem_wrap_reply fuel (Some lj) (Some k)) (λ r, pure (r = o) ∗ k ↦ Chars #"response").
Proof.
  intros Hm Hf Hk Ho. iIntros "[Hj Hs]". rw own_item_unfold.
  iDestruct "Hj" as (n lst) "(%Hn & %Hd & %Hb & Hl & Htext & Hname & Hc)". unfold mem_wrap_reply.
  iApply mwp_bind. iApply mwp_wand. iSplitR; [by iApply (create_object_spec (borrows n t) (λ _ _, False))|].
  iIntros (r) "[(%lw & -> & Hw)|%Hx]"; [|by destruct Hx]. iApply mwp_bind. iApply mwp_wand. iSplitL "Hw Hs Hl".
  { iApply (add_reference_spec (borrows n t) (λ _ _, False) fuel lw None None cJSON_CreateObject k #"response" lj n t);
      [done|done|cbn; lia|done|by unfold borrows|done|iFrame]. }
  iIntros ([]) "(Hs & Hl & Hw)". iEval (cbn [cJSON_AddItemReferenceToObject create_reference add_item_to_object fst from_option]) in "Hw".
  iApply mwp_bind. iApply mwp_wand. iSplitL "Hw Htext Hc"; [iApply print_wrapper_spec; [|exact Ho|iFrame]; lia|].
  iIntros (r) "(-> & Hw & Htext & Hc)". iApply mwp_bind. iApply mwp_wand.
  iSplitL "Hw"; [iApply (delete_alone with "Hw"); rw weight_unfold in Hf; cbn; change (foldr _ 0 (child t)) with (weights (child t)); lia|].
  iIntros ([]) "_". iApply mwp_bind. iApply mwp_wand. iSplitR "Hs".
  { iApply (delete_alone (λ _ _ _ _, False) (λ _ _, False) fuel lj t); [lia|]. rw own_item_unfold. iExists n, lst. by iFrame. }
  iIntros ([]) "_". iApply mwp_ret. by iFrame.
Qed.

(** *** A memory *)

#[local] Instance with_endless : Allocator block := endless.

(** The block of an empty object. *)
Definition object_node : node := Build_node None None None cJSON_Object None 0 (SpecFloat.S754_zero false) None.

Lemma object_at l : l ↦ Node object_node ⊢ own_item l None None cJSON_CreateObject.
Proof.
  iIntros "Hl". rw own_item_unfold. iExists object_node, None. iFrame "Hl". by repeat iSplit.
Qed.

Lemma object_holds l : holds (own_item l None None cJSON_CreateObject) {[l := Node object_node]}.
Proof. by apply (object_at l). Qed.

Lemma object_chain_holds l : holds (own_chain (Some l) None [cJSON_CreateObject] None (Some l)) {[l := Node object_node]}.
Proof.
  assert (H : own_item l None None cJSON_CreateObject ⊢ own_chain (Some l) None [cJSON_CreateObject] None (Some l)).
  { rw chain_of_one. iIntros "H". iExists l. by iFrame. }
  by apply H, object_holds.
Qed.

(** An object with an element and a name, wrapped and freed: only the literal
    is left in memory. *)
Example wrapped_reply_run :
  (response ← allocate 9 (Chars #"response");
   name ← allocate 5 (Chars #"cnam");
   j ← mem_CreateObject; item ← mem_CreateObject;
   mem_add_item_to_object 5 j name item false;; deallocate name;;
   mem_wrap_reply 9 j response) ∅
  = ({[1%positive := Chars #"response"]}, Ret (Some (quoted #"{'response':{'cnam':{}}}"))).
Proof. vm_compute. reflexivity. Qed.

(** ** Properties *)

(** On every memory that holds a chain of items, wherever its blocks are
    and whatever else is in memory, [cJSON_Delete] frees each of its blocks
    once and nothing else, and leaves the blocks its references and constant
    names point to. *)
Theorem mem_Delete_frees borrowed literal fuel p pv ts lst h f :
  weights ts < fuel → holds (chain_of (item_at borrowed literal) p pv ts None lst) h → h ##ₘ f →
  mem_Delete fuel p (h ∪ f) = (f, Ret tt).
Proof.
  intros Hf Hh Hd. destruct (mwp_run _ _ _ h f (delete_frees borrowed literal fuel p pv ts lst Hf) Hh Hd)
    as ([] & h' & -> & _ & ->%emp_holds). by rw left_id_L.
Qed.

(** C26. On an array (or object) that borrows nothing, wherever its blocks are,
    [add_item_to_array], [cJSON_DetachItemFromArray],
    [cJSON_DeleteItemFromArray], [cJSON_InsertItemInArray] and
    [cJSON_ReplaceItemInArray] relink the [next], [prev] and [child] pointers so
    that the array shows the value that CJsonTree.v gives, with both
    directions of the chain consistent, free exactly the item they delete, and
    touch nothing else; a replacement that finds nothing to replace stays with
    the caller. *)
Theorem array_edits_refine borrowed literal fuel la pv nx a which li i :
  is_reference (jtype a) = false → weight a < fuel →
  let at_ := item_at borrowed literal in
  let shown o := from_option (at_ la pv nx) emp%I o in
  (at_ la pv nx a ∗ at_ li None None i ⊢ mwp (mem_add_item_to_array fuel (Some la) (Some li))
     (λ r, pure (r = true) ∗ shown (cJSON_AddItemToArray (Some a) (Some i)))) ∧
  (at_ la pv nx a ⊢ mwp (mem_DetachItemFromArray (Some la) which)
     (λ r, let '(a', detached) := cJSON_DetachItemFromArray (Some a) which in
        shown a' ∗ match detached with
                   | Some t => item_alone borrowed literal r t
                   | None => pure (r = None)
                   end)) ∧
  (at_ la pv nx a ⊢ mwp (mem_DeleteItemFromArray fuel (Some la) which)
     (λ _, shown (cJSON_DeleteItemFromArray (Some a) which))) ∧
  (at_ la pv nx a ∗ at_ li None None i ⊢ mwp (mem_InsertItemInArray fuel (Some la) which (Some li))
     (λ _, match cJSON_InsertItemInArray (E:=exn) (Some a) which (Some i) with
           | Ret (Some a') => at_ la pv nx a' ∗ (if (which <? 0)%Z then at_ li None None i else emp)
           | _ => False
           end)) ∧
  (at_ la pv nx a ∗ at_ li None None i ⊢ mwp (mem_ReplaceItemInArray fuel (Some la) which (Some li))
     (λ _, shown (cJSON_ReplaceItemInArray (Some a) which (Some i)) ∗
        if (which <? 0)%Z || negb (snd (cJSON_ReplaceItemViaPointer (Some a) (Some (Z.to_nat which)) (Some i)))
        then at_ li None None i else emp)).
Proof.
  intros Hr Hf. assert (Hl : length (child a) < fuel).
  { rw weight_unfold in Hf. pose proof (length_weights (child a)). lia. }
  split_and!; [by apply add_item_to_array_spec|by apply detach_from_array_spec|by apply delete_from_array_spec
    |by apply insert_spec|by apply replace_in_array_spec].
Qed.

(** What [CCnamHttpDriver::parse] does with the memory of a reply: the
    wrapper shares the children of the reply through a reference, it is
    printed as CJsonTree.v and CJsonPrint.v say, and when the wrapper and then
    the reply are deleted every block of both is freed once: nothing is left
    but the name, a literal of the program, and no block is used after it is
    freed. *)
Theorem reply_wrapped_and_freed `{Allocator block} fuel lj k t o h f : ¬ malloc_fails →
  weight t + 2 < fuel → is_const (jtype t) = false → response_text t = Ret o →
  holds (own_item lj None None t ∗ k ↦ Chars #"response")%I h → h ##ₘ f →
  mem_wrap_reply fuel (Some lj) (Some k) (h ∪ f) = ({[k := Chars #"response"]} ∪ f, Ret o).
Proof.
  intros Hm Hf Hk Ho Hh Hd.
  destruct (mwp_run _ _ _ h f (wrap_reply_spec fuel lj k t o Hm Hf Hk Ho) Hh Hd) as (r & h' & -> & _ & Hr).
  apply pure_sep_holds in Hr as [-> Hr]. by apply points_to_singleton in Hr as ->.
Qed.

Lemma mem_Delete_frees_witness :
  mem_Delete 2 (Some 1%positive) ({[1%positive := Node object_node]} ∪ {[2%positive := Chars #"x"]})
  = ({[2%positive := Chars #"x"]}, Ret tt).
Proof.
  apply (mem_Delete_frees (λ _ _ _ _, False) (λ _ _, False) 2 (Some 1%positive) None [cJSON_CreateObject] (Some 1%positive)).
  - cbn. lia.
  - apply object_chain_holds.
  - by apply map_disjoint_singleton_l_2.
Defined.

Lemma reply_wrapped_and_freed_witness :
  mem_wrap_reply 4 (Some 1%positive) (Some 2%positive)
    (({[1%positive := Node object_node]} ∪ {[2%positive := Chars #"response"]}) ∪ ∅)
  = ({[2%positive := Chars #"response"]} ∪ ∅, Ret (Some (quoted #"{'response':{}}"))).
Proof.
  apply (reply_wrapped_and_freed 4 1%positive 2%positive cJSON_CreateObject).
  - exact endless_never_fails.
  - cbn. lia.
  - reflexivity.
  - vm_compute. reflexivity.
  - apply sep_holds; [by apply map_disjoint_singleton_l_2|apply object_holds|apply points_to_holds].
  - apply map_disjoint_empty_r.
Defined.

Lemma array_edits_refine_witness :
  let a := set_child [cJSON_CreateObject; cJSON_CreateArray] cJSON_CreateArray in
  own_item 1 None None a ∗ own_item 2 None None cJSON_CreateObject
  ⊢ mwp (mem_ReplaceItemInArray 9 (Some 1%positive) 1 (Some 2%positive))
      (λ _, own_item 1 None None (set_child [cJSON_CreateObject; cJSON_CreateObject] cJSON_CreateArray) ∗ emp).
Proof.
  apply (array_edits_refine (λ _ _ _ _, False) (λ _ _, False) 9 1%positive None None
           (set_child [cJSON_CreateObject; cJSON_CreateArray] cJSON_CreateArray) 1 2%positive cJSON_CreateObject);
    [reflexivity|cbn; lia].
Defined.
