(* ===== verification/CJsonObjectMemory.v ===== *)
(** * JSON items in memory: names, creation, duplication (src/libs/cJSON.c)

    The functions of cJSON.c that look an item up by its name and change the
    object it is in, that create items, and that copy them, with the blocks
    they read, allocate and free.  Loops and recursion over items take their
    fuel from the number of live blocks. *)
From Stdlib Require Import SpecFloat.
From S2P Require Import Prelude.
From S2P Require Import CLib.
From S2P Require Import Exceptions.
From S2P Require Import CFloat.
From S2P Require Import CJson.
From S2P Require Import CJsonTree.
From S2P Require Import HeapLogic.
From S2P Require Import CJsonMemory.

(** ** Definitions *)

(** *** Look-up by name *)

Definition mem_strcmp_eq (string1 string2 : ptr) : Mem bool :=
  s1 ← load as_chars string1; s2 ← load as_chars string2; mret (strcmp_eq s1 s2).

Definition mem_case_insensitive_strcmp (string1 string2 : ptr) : Mem Z :=
  if is_null string1 || is_null string2 then mret 1%Z
  else if bool_decide (string1 = string2) then mret 0%Z
  else s1 ← load as_chars string1; s2 ← load as_chars string2; mret (strcasecmp_loop (c_str s1) (c_str s2)).

(** The condition of the two loops of [get_object_item]. *)
Definition mem_goes_on (nm string : ptr) (case_sensitive : bool) : Mem bool :=
  if case_sensitive then
    if is_null string then mret false else e ← mem_strcmp_eq nm string; mret (negb e)
  else c ← mem_case_insensitive_strcmp nm string; mret (negb (c =? 0)%Z).

Fixpoint mem_object_walk (fuel : nat) (nm current_element : ptr) (case_sensitive : bool) : Mem ptr :=
  match fuel with
  | O => lift Undef
  | S fuel =>
      match current_element with
      | None => mret None
      | Some _ =>
          n ← get_node current_element;
          on ← mem_goes_on nm (n_string n) case_sensitive;
          if (on : bool) then mem_object_walk fuel nm (n_next n) case_sensitive else mret current_element
      end
  end.

Definition mem_get_object_item (object nm : ptr) (case_sensitive : bool) : Mem ptr :=
  if is_null object || is_null nm then mret None
  else
    o ← get_node object;
    current_element ← sized (fun fuel => mem_object_walk fuel nm (n_child o) case_sensitive);
    if is_null current_element then mret None
    else n ← get_node current_element; mret (if is_null (n_string n) then None else current_element).

Definition mem_GetObjectItem (object string : ptr) : Mem ptr := mem_get_object_item object string false.
Definition mem_GetObjectItemCaseSensitive (object string : ptr) : Mem ptr := mem_get_object_item object string true.
Definition mem_HasObjectItem (object string : ptr) : Mem bool :=
  item ← mem_GetObjectItem object string; mret (negb (is_null item)).

(** *** Detaching, deleting and replacing by name *)

Section Memory.
Context {alloc : Allocator block}.

Definition mem_DetachItemFromObject (object string : ptr) : Mem ptr :=
  to_detach ← mem_GetObjectItem object string; mem_DetachItemViaPointer object to_detach.
Definition mem_DetachItemFromObjectCaseSensitive (object string : ptr) : Mem ptr :=
  to_detach ← mem_GetObjectItemCaseSensitive object string; mem_DetachItemViaPointer object to_detach.
Definition mem_DeleteItemFromObject (object string : ptr) : Mem unit :=
  item ← mem_DetachItemFromObject object string; mem_cJSON_Delete item.
Definition mem_DeleteItemFromObjectCaseSensitive (object string : ptr) : Mem unit :=
  item ← mem_DetachItemFromObjectCaseSensitive object string; mem_cJSON_Delete item.

(** The old name of the replacement is freed before [string] is copied. *)
Definition mem_replace_item_in_object (object string replacement : ptr) (case_sensitive : bool) : Mem bool :=
  if is_null replacement || is_null string then mret false
  else
    r ← get_node replacement;
    when (negb (is_const (n_type r)) && negb (is_null (n_string r))) (deallocate (n_string r));;
    new_name ← mem_strdup string;
    set_node replacement (with_string new_name);;
    set_node replacement (fun n => with_type (Z.land (n_type n) (Z.lnot cJSON_StringIsConst)) n);;
    item ← mem_get_object_item object string case_sensitive;
    sized (fun fuel => mem_ReplaceItemViaPointer fuel object item replacement);;
    mret true.

Definition mem_ReplaceItemInObject (object string newitem : ptr) : Mem unit :=
  mem_replace_item_in_object object string newitem false;; mret tt.
Definition mem_ReplaceItemInObjectCaseSensitive (object string newitem : ptr) : Mem unit :=
  mem_replace_item_in_object object string newitem true;; mret tt.

(** *** Creation *)

(** The functions that set the type of a new item and nothing else. *)
Definition mem_create_typed (t : Z) : Mem ptr :=
  item ← mem_New_Item; when (negb (is_null item)) (set_node item (with_type t));; mret item.

Definition mem_CreateNull : Mem ptr := mem_create_typed cJSON_NULL.
Definition mem_CreateTrue : Mem ptr := mem_create_typed cJSON_True.
Definition mem_CreateFalse : Mem ptr := mem_create_typed cJSON_False.
Definition mem_CreateBool (b : bool) : Mem ptr := mem_create_typed (if b then cJSON_True else cJSON_False).
Definition mem_CreateArray : Mem ptr := mem_create_typed cJSON_Array.

Definition mem_CreateNumber (num : double) : Mem ptr :=
  item ← mem_New_Item;
  when (negb (is_null item))
    (set_node item (with_type cJSON_Number);;
     v ← lift (saturate num);
     set_node item (with_number v num));;
  mret item.

(** [cJSON_CreateString] and [cJSON_CreateRaw]. *)
Definition mem_create_text (t : Z) (string : ptr) : Mem ptr :=
  item ← mem_New_Item;
  if is_null item then mret item
  else
    set_node item (with_type t);;
    valuestring ← mem_strdup string;
    set_node item (with_valuestring valuestring);;
    if is_null valuestring then mem_cJSON_Delete item;; mret None else mret item.

Definition mem_CreateString (string : ptr) : Mem ptr := mem_create_text cJSON_String string.
Definition mem_CreateRaw (raw : ptr) : Mem ptr := mem_create_text cJSON_Raw raw.

(** References to what the caller keeps. *)
Definition mem_CreateStringReference (string : ptr) : Mem ptr :=
  item ← mem_create_typed (Z.lor cJSON_String cJSON_IsReference);
  when (negb (is_null item)) (set_node item (with_valuestring string));; mret item.
Definition mem_CreateObjectReference (child : ptr) : Mem ptr :=
  item ← mem_create_typed (Z.lor cJSON_Object cJSON_IsReference);
  when (negb (is_null item)) (set_node item (with_child child));; mret item.
Definition mem_CreateArrayReference (child : ptr) : Mem ptr :=
  item ← mem_create_typed (Z.lor cJSON_Array cJSON_IsReference);
  when (negb (is_null item)) (set_node item (with_child child));; mret item.

Definition mem_SetNumberHelper (object : ptr) (number : double) : Mem double :=
  v ← lift (saturate number); set_node object (with_number v number);; mret number.

(** *** Adding *)

Definition mem_AddItemToArray (array item : ptr) : Mem unit :=
  sized (fun fuel => mem_add_item_to_array fuel array item);; mret tt.
Definition mem_AddItemToObject (object string item : ptr) : Mem unit :=
  sized (fun fuel => mem_add_item_to_object fuel object string item false);; mret tt.
Definition mem_AddItemToObjectCS (object string item : ptr) : Mem unit :=
  sized (fun fuel => mem_add_item_to_object fuel object string item true);; mret tt.
Definition mem_AddItemReferenceToArray (array item : ptr) : Mem unit :=
  if is_null array then mret tt
  else reference ← mem_create_reference item;
       sized (fun fuel => mem_add_item_to_array fuel array reference);; mret tt.

(** The shape of [cJSON_AddNullToObject] and its siblings: what cannot be
    added is deleted. *)
Definition mem_add_created (create : Mem ptr) (object nm : ptr) : Mem ptr :=
  item ← create;
  added ← sized (fun fuel => mem_add_item_to_object fuel object nm item false);
  if (added : bool) then mret item else mem_cJSON_Delete item;; mret None.

Definition mem_AddNullToObject (object nm : ptr) : Mem ptr := mem_add_created mem_CreateNull object nm.
Definition mem_AddTrueToObject (object nm : ptr) : Mem ptr := mem_add_created mem_CreateTrue object nm.
Definition mem_AddFalseToObject (object nm : ptr) : Mem ptr := mem_add_created mem_CreateFalse object nm.
Definition mem_AddBoolToObject (object nm : ptr) (b : bool) : Mem ptr := mem_add_created (mem_CreateBool b) object nm.
Definition mem_AddNumberToObject (object nm : ptr) (d : double) : Mem ptr := mem_add_created (mem_CreateNumber d) object nm.
Definition mem_AddStringToObject (object nm s : ptr) : Mem ptr := mem_add_created (mem_CreateString s) object nm.
Definition mem_AddRawToObject (object nm s : ptr) : Mem ptr := mem_add_created (mem_CreateRaw s) object nm.
Definition mem_AddObjectToObject (object nm : ptr) : Mem ptr := mem_add_created mem_CreateObject object nm.
Definition mem_AddArrayToObject (object nm : ptr) : Mem ptr := mem_add_created mem_CreateArray object nm.

(** The loop of the four [cJSON_Create*Array] functions: [p] is the last
    element, null before the first; it says whether it went through. *)
Fixpoint mem_create_items {A} (create : A → Mem ptr) (l : list A) (a p : ptr) : Mem bool :=
  match l with
  | [] => mret true
  | x :: l =>
      n ← create x;
      if is_null n then mem_cJSON_Delete a;; mret false
      else
        (if is_null p then set_node a (with_child n) else mem_suffix_object p n);;
        mem_create_items create l a n
  end.

Definition mem_create_array {A} (create : A → Mem ptr) (numbers : option (list A)) (count : Z) : Mem ptr :=
  match numbers with
  | None => mret None
  | Some l =>
      if (count <? 0)%Z then mret None
      else
        a ← mem_CreateArray;
        if is_null a then mret a
        else if (Z.of_nat (length l) <? count)%Z then lift Undef
        else
          through ← mem_create_items create (take (Z.to_nat count) l) a None;
          mret (if (through : bool) then a else None)
  end.

Definition mem_CreateIntArray (numbers : option (list Z)) (count : Z) : Mem ptr :=
  mem_create_array (fun n => mem_CreateNumber (double_of_Z n)) numbers count.
Definition mem_CreateFloatArray (numbers : option (list double)) (count : Z) : Mem ptr :=
  mem_create_array mem_CreateNumber numbers count.
Definition mem_CreateDoubleArray (numbers : option (list double)) (count : Z) : Mem ptr :=
  mem_create_array mem_CreateNumber numbers count.
Definition mem_CreateStringArray (strings : option (list ptr)) (count : Z) : Mem ptr :=
  mem_create_array mem_CreateString strings count.

(** *** Duplication *)

(** The loop of [cJSON_Duplicate] over the children: whether it went
    through. *)
Fixpoint mem_dup_children (dup : ptr → Mem ptr) (fuel : nat) (newitem child next : ptr) : Mem bool :=
  match fuel with
  | O => lift Undef
  | S fuel =>
      match child with
      | None => mret true
      | Some _ =>
          newchild ← dup child;
          if is_null newchild then mret false else
          (if negb (is_null next) then
             set_node next (with_next newchild);; set_node newchild (with_prev next)
           else set_node newitem (with_child newchild));;
          c ← get_node child;
          mem_dup_children dup fuel newitem (n_next c) newchild
      end
  end.

(** Up to the children: the new item, and whether to go on. *)
Definition mem_dup_item (item : ptr) : Mem (ptr * bool) :=
  newitem ← mem_New_Item;
  if is_null newitem then mret (None, false) else
  i ← get_node item;
  set_node newitem (with_type (Z.land (n_type i) (Z.lnot cJSON_IsReference)));;
  set_node newitem (with_number (n_valueint i) (n_valuedouble i));;
  text ← (if is_null (n_valuestring i) then mret true
          else s ← mem_strdup (n_valuestring i);
               set_node newitem (with_valuestring s);;
               mret (negb (is_null s)));
  if negb text then mret (newitem, false) else
  named ← (if is_null (n_string i) then mret true
           else s ← (if is_const (n_type i) then mret (n_string i) else mem_strdup (n_string i));
                set_node newitem (with_string s);;
                mret (negb (is_null s)));
  mret (newitem, named).

Fixpoint mem_dup (fuel : nat) (item : ptr) (recurse : bool) : Mem ptr :=
  match fuel with
  | O => lift Undef
  | S fuel =>
      match item with
      | None => mret None
      | Some _ =>
          '(newitem, copied) ← mem_dup_item item;
          if negb copied then when (negb (is_null newitem)) (mem_cJSON_Delete newitem);; mret None
          else if negb recurse then mret newitem
          else
            i ← get_node item;
            through ← mem_dup_children (fun c => mem_dup fuel c true) fuel newitem (n_child i) None;
            if (through : bool) then mret newitem else mem_cJSON_Delete newitem;; mret None
      end
  end.

Definition mem_Duplicate (item : ptr) (recurse : bool) : Mem ptr := sized (fun fuel => mem_dup fuel item recurse).
End Memory.
