(* ===== verification/CJsonOwned.v ===== *)
(** * JSON items that own what they point to

    Lemmas on the items of CJsonMemory.v that borrow nothing, such as the
    parser makes: their members set one by one, new items, chains that grow,
    and what it takes to free them. *)
From iris.bi Require Import bi.
From iris.proofmode Require Import proofmode.
From S2P Require Import Prelude.
From S2P Require Import CLib.
From S2P Require Import Exceptions.
From S2P Require Import CFloat.
From S2P Require Import CJson.
From S2P Require Import CJsonTree.
From S2P Require Import HeapLogic.
From S2P Require Import CJsonMemory.
From S2P Require Import CJsonMemorySpec.

(** ** Lemmas: one item *)

(** Kinds of items that own what they point to. *)
Definition plain (t : Z) : Prop := is_reference t = false ∧ is_const t = false.

(** A change of the members that are no pointers. *)
Lemma mwp_update l pv nx i i' (f : node → node) (Q : unit → assertion) :
  plain (jtype i') →
  (∀ n, n_type n = jtype i → n_valueint n = valueint i → n_valuedouble n = valuedouble i →
    (n_type (f n) = jtype i' ∧ n_valueint (f n) = valueint i' ∧ n_valuedouble (f n) = valuedouble i') ∧
    n_next (f n) = n_next n ∧ n_prev (f n) = n_prev n ∧ n_child (f n) = n_child n ∧
    n_valuestring (f n) = n_valuestring n ∧ n_string (f n) = n_string n) →
  valuestring i' = valuestring i → name i' = name i → child i' = child i →
  own_item l pv nx i ∗ (own_item l pv nx i' -∗ Q tt) ⊢ mwp (set_node (Some l) f) Q.
Proof.
  intros [Hr Hk] Hf Hs Hn Hc. iIntros "[Hi HQ]". rw !own_item_unfold.
  iDestruct "Hi" as (n lst) "(%Hl & %Hd & _ & Hl & Htext & Hname & Hc)". destruct Hd as (Ht & Hv & Hw), Hl as [Hnx Hpv].
  destruct (Hf n Ht Hv Hw) as (Hd & E1 & E2 & E3 & E4 & E5).
  iApply mwp_set_node. iFrame "Hl". iIntros "Hl". iApply "HQ". iExists (f n), lst. rw E1 E2 E3 E4 E5 Hs Hn Hc. by iFrame.
Qed.

(** [item->valuestring = output], where there was none. *)
Lemma mwp_set_valuestring l pv nx i lo s (Q : unit → assertion) :
  valuestring i = None →
  own_item l pv nx i ∗ lo ↦ Chars s ∗ (own_item l pv nx (set_valuestring (Some s) i) -∗ Q tt)
  ⊢ mwp (set_node (Some l) (with_valuestring (Some lo))) Q.
Proof.
  intros Hs. iIntros "(Hi & Ho & HQ)". rw !own_item_unfold.
  iDestruct "Hi" as (n lst) "(%Hl & %Hd & %Hk & Hl & Htext & Hname & Hc)". rw Hs. iDestruct "Htext" as "_".
  iApply mwp_set_node. iFrame "Hl". iIntros "Hl". iApply "HQ". iExists _, lst. iFrame "Hl". cbn. iFrame "Hname Hc".
  iSplitR; [done|]. iSplitR; [done|]. iSplitR; [done|]. iExists lo. by iFrame.
Qed.

(** [item->child = head], where there was none. *)
Lemma mwp_set_child l pv nx i head ts lst (Q : unit → assertion) :
  child i = [] →
  own_item l pv nx i ∗ own_chain head None ts None lst ∗ (own_item l pv nx (set_child ts i) -∗ Q tt)
  ⊢ mwp (set_node (Some l) (with_child head)) Q.
Proof.
  intros Hs. iIntros "(Hi & Ho & HQ)". rw !own_item_unfold.
  iDestruct "Hi" as (n lst') "(%Hl & %Hd & %Hk & Hl & Htext & Hname & Hc)". rw Hs. iDestruct "Hc" as "_".
  iApply mwp_set_node. iFrame "Hl". iIntros "Hl". iApply "HQ". iExists _, lst. iFrame "Hl". cbn. iFrame "Hname Htext Ho". by repeat iSplit.
Qed.

(** A function that may have had no memory: what it makes, or a null
    pointer. *)
Definition unless_fails `{Allocator block} (r : ptr) (Q : loc → assertion) : assertion :=
  ((∃ l, pure (r = Some l) ∗ Q l) ∨ pure (r = None ∧ malloc_fails))%I.

Lemma new_item_spec `{Allocator block} :
  emp ⊢ mwp mem_New_Item (λ r, unless_fails r (λ l, own_item l None None cJSON_New_Item)).
Proof.
  iIntros "_". iApply mwp_allocate. iSplit; [|iIntros (Hm); by iRight].
  iIntros (l) "Hl". iLeft. iExists l. iSplitR; [done|]. rw own_item_unfold.
  iExists _, None. iFrame "Hl". by repeat iSplit.
Qed.

(** ** Lemmas: chains and freeing *)

(** The last item put back into its chain. *)
Lemma chain_snoc head ts l lm i :
  own_chain head None ts (Some l) lm ∗ own_item l lm None i ⊢ own_chain head None (ts ++ [i]) None (Some l).
Proof. iIntros "[Hc Hi]". rw chain_of_app. iExists (Some l), lm. iFrame "Hc". rw chain_of_one. iExists l. by iFrame. Qed.

(** Fuel from the live blocks. *)
Lemma mwp_own_sized {A} n (m : nat → Mem A) P (Q : A → assertion) :
  at_least n P → (∀ k, n < k → P ⊢ mwp (m k) Q) → P ⊢ mwp (sized m) Q.
Proof. intros Hn Hm. apply (mwp_sized 1 n m); [done|]. intros k Hk. apply Hm. lia. Qed.

Lemma own_item_size n : ∀ l pv nx t, weight t ≤ n → at_least (weight t) (own_item l pv nx t).
Proof.
  induction n as [|n IH]; intros l pv nx t Hn; [destruct t; cbn in Hn; lia|]. rw weight_unfold in Hn. rw weight_unfold.
  assert (Hc : ∀ ts p pv lst, weights ts ≤ n → at_least (weights ts) (own_chain p pv ts None lst)).
  { clear -IH. induction ts as [|t ts IHts]; intros p pv lst Hn; [apply at_least_0|].
    change (weights (t :: ts)) with (weight t + weights ts) in *. cbn [chain_of].
    apply at_least_exist. intros l. apply at_least_exist. intros nx. apply (at_least_sep 0); [apply at_least_0|].
    apply at_least_sep; [apply IH; lia|apply IHts; lia]. }
  eapply at_least_mono; [by rw own_item_unfold|reflexivity|].
  apply at_least_exist. intros m. apply at_least_exist. intros lst.
  do 3 (apply (at_least_sep 0); [apply at_least_0|]). apply (at_least_sep 1); [apply at_least_points_to|].
  do 2 (apply (at_least_sep 0); [apply at_least_0|]). apply Hc. lia.
Qed.

Lemma own_chain_size ts : ∀ p pv lst, at_least (weights ts) (own_chain p pv ts None lst).
Proof.
  induction ts as [|t ts IH]; intros p pv lst; [apply at_least_0|].
  change (weights (t :: ts)) with (weight t + weights ts). cbn [chain_of].
  apply at_least_exist. intros l. apply at_least_exist. intros nx. apply (at_least_sep 0); [apply at_least_0|].
  apply at_least_sep; [by eapply own_item_size|apply IH].
Qed.

Lemma cJSON_Delete_frees p pv ts lst : own_chain p pv ts None lst ⊢ mwp (mem_cJSON_Delete p) (λ _, emp).
Proof.
  apply (mwp_sized 1 (weights ts) (fun k => mem_Delete k p)); [apply own_chain_size|].
  intros k Hk. apply delete_frees. lia.
Qed.

Lemma cJSON_Delete_alone l i : own_item l None None i ⊢ mwp (mem_cJSON_Delete (Some l)) (λ _, emp).
Proof.
  iIntros "Hi". iApply (cJSON_Delete_frees (Some l) None [i] (Some l)). rw chain_of_one. iExists l. by iFrame.
Qed.


(** What a function that makes an item returns: an item alone, or a null
    pointer. *)
Definition alone_or_null (p : ptr) (i : option cJSON) : assertion :=
  match i with Some t => own_alone p t | None => pure (p = None) end.

(** The block of an item alone, opened at its children. *)
Lemma own_children l pv nx o :
  own_item l pv nx o ⊢ ∃ n lst, l ↦ Node n ∗ own_chain (n_child n) None (child o) None lst ∗
    (∀ c ts lst', l ↦ Node (with_child c n) -∗ own_chain c None ts None lst' -∗ own_item l pv nx (set_child ts o)).
Proof.
  iIntros "Ho". iDestruct (keep_pure _ (is_reference (jtype o) = false) with "Ho") as "[%Hr Ho]".
  { rw own_item_unfold. by iIntros "(%n & %lst & _ & _ & %Hk & _)"; destruct Hk. }
  iDestruct (item_children with "Ho") as (n lst) "(_ & Hl & Hc & Hback)"; [done|]. iExists n, lst. iFrame.
Qed.

Lemma set_child_same o : set_child (child o) o = o.
Proof. by destruct o. Qed.
