(* ===== verification/CJsonObjectMemorySpec.v ===== *)
(** * JSON items in memory by name: what the functions do

    On items that own what they point to, the functions of
    CJsonObjectMemory.v do on the blocks what CJsonTree.v says of the values. *)
From iris.bi Require Import bi.
From iris.proofmode Require Import proofmode.
From S2P Require Import Prelude.
From S2P Require Import CLib.
From S2P Require Import Exceptions.
From S2P Require Import CFloat.
From S2P Require Import CJson.
From S2P Require Import CJsonTree.
From S2P Require Import HeapLogic.
From S2P Require Import CJsonMemory.
From S2P Require Import CJsonMemorySpec.
From S2P Require Import CJsonObjectMemory.
From S2P Require Import CJsonOwned.

(** ** Lemmas: look-up *)

Definition goes_on (s : str) (nm : option str) (case_sensitive : bool) : bool :=
  if case_sensitive then match nm with Some s' => negb (strcmp_eq s s') | None => false end
  else negb (case_insensitive_strcmp (Some s) nm =? 0)%Z.

Lemma goes_on_spec k s p nm case_sensitive :
  k ↦ Chars s ∗ text_at p nm
  ⊢ mwp (mem_goes_on (Some k) p case_sensitive) (λ b, pure (b = goes_on s nm case_sensitive) ∗ k ↦ Chars s ∗ text_at p nm).
Proof.
  iIntros "[Hk Hp]". destruct nm as [nm|]; cbn [text_at].
  - iDestruct "Hp" as (l) "[-> Hl]". iDestruct (keep_pure _ _ (points_to_ne k (Chars s) l (Chars nm)) with "[$Hk $Hl]") as "(%Hne & Hk & Hl)".
    destruct case_sensitive; unfold mem_goes_on; cbn [is_null];
      [|unfold mem_case_insensitive_strcmp; cbn [is_null orb]; rw bool_decide_false; [|congruence]];
      repeat iApply mwp_bind; iApply mwp_read_chars; iFrame "Hk"; iIntros "Hk"; iApply mwp_bind;
      iApply mwp_read_chars; iFrame "Hl"; iIntros "Hl"; iApply mwp_ret; iApply mwp_ret; iFrame "Hk";
      (iSplitR; [done|]); iExists l; by iFrame.
  - iDestruct "Hp" as %->. destruct case_sensitive; [|iApply mwp_bind; iApply mwp_ret]; iApply mwp_ret; by iFrame.
Qed.

(** The name and the link of an item, given out and taken back. *)
Lemma own_item_name l pv nx t :
  own_item l pv nx t ⊢ ∃ n, pure (n_next n = nx) ∗ l ↦ Node n ∗ text_at (n_string n) (name t) ∗
    (l ↦ Node n -∗ text_at (n_string n) (name t) -∗ own_item l pv nx t).
Proof.
  iIntros "Ht". iEval (rw own_item_unfold) in "Ht". iDestruct "Ht" as (n lst) "(%Hn & %Hd & %Hk & Hl & Htext & Hname & Hc)".
  iExists n. iFrame "Hl Hname". iSplitR; [iPureIntro; by destruct Hn|]. iIntros "Hl Hname". rw own_item_unfold. iExists n, lst. by iFrame.
Qed.

(** What the look-up stops at: the item at a position, with the chain around
    it, or nothing. *)
Definition found (p pv : ptr) (ts : list cJSON) (lst r : ptr) (which : option nat) : assertion :=
  match which with
  | Some i => ∃ t, pure (ts !! i = Some t) ∗ ∃ a lm nx, pure (r = Some a) ∗ own_chain p pv (take i ts) r lm ∗
                own_item a lm nx t ∗ own_chain nx r (drop (S i) ts) None lst
  | None => pure (r = None) ∗ own_chain p pv ts None lst
  end.

Lemma object_walk_spec fuel k s case_sensitive : ∀ p pv ts lst, length ts < fuel →
  k ↦ Chars s ∗ own_chain p pv ts None lst
  ⊢ mwp (mem_object_walk fuel (Some k) p case_sensitive)
      (λ r, k ↦ Chars s ∗ found p pv ts lst r (object_index ts s case_sensitive)).
Proof.
  induction fuel as [|fuel IH]; intros p pv ts lst Hf; [lia|]. destruct ts as [|t ts]; cbn [chain_of].
  - iIntros "[Hk %E]". destruct E as [-> ->]. iApply mwp_ret. iFrame "Hk". by iSplit.
  - iIntros "(Hk & (%l & %nx & -> & Ht & Hts))". iDestruct (own_item_name with "Ht") as (n) "(%Hn & Hl & Hname & Hback)".
    cbn [mem_object_walk]. iApply mwp_bind. iApply mwp_get_node. iFrame "Hl". iIntros "Hl". rw Hn.
    iApply mwp_bind. iApply mwp_wand. iSplitL "Hk Hname"; [iApply goes_on_spec; iFrame|]. iIntros (b) "(-> & Hk & Hname)".
    iDestruct ("Hback" with "Hl Hname") as "Ht".
    change (object_index (t :: ts) s case_sensitive) with
      (if goes_on s (name t) case_sensitive then S <$> object_index ts s case_sensitive else Some 0).
    destruct (goes_on s (name t) case_sensitive).
    + iApply mwp_wand. iSplitL "Hk Hts"; [iApply (IH nx (Some l) ts lst); [cbn in Hf; lia|iFrame]|]. iIntros (r) "[Hk H]". iFrame "Hk".
      destruct (object_index ts s case_sensitive) as [i|]; cbn [found fmap option_fmap option_map].
      * iDestruct "H" as (t') "(%Ht & (%a & %lm & %nx' & -> & H1 & Ht' & H2))". iExists t'. iSplitR; [done|].
        iExists a, lm, nx'. iSplitR; [done|]. iFrame "Ht' H2". iExists l, nx. by iFrame.
      * iDestruct "H" as "[-> H]". iSplitR; [done|]. iExists l, nx. by iFrame.
    + iApply mwp_ret. iFrame "Hk". iExists t. iSplitR; [done|]. iExists l, pv, nx. by iFrame.
Qed.

(** [get_object_item], on an object opened at its children. *)
Lemma get_object_item_spec la n k s case_sensitive o lst :
  la ↦ Node n ∗ own_chain (n_child n) None (child o) None lst ∗ k ↦ Chars s
  ⊢ mwp (mem_get_object_item (Some la) (Some k) case_sensitive) (λ r, la ↦ Node n ∗ k ↦ Chars s ∗
      found (n_child n) None (child o) lst r (object_item_index (Some o) (Some s) case_sensitive)).
Proof.
  iIntros "(Hl & Hc & Hk)". unfold mem_get_object_item. cbn [is_null orb].
  iApply mwp_bind. iApply mwp_get_node. iFrame "Hl". iIntros "Hl". iApply mwp_bind. iApply mwp_wand. iSplitL "Hk Hc".
  { iApply (mwp_own_sized (0 + weights (child o))); [apply at_least_sep; [apply at_least_0|apply own_chain_size]| |iCombine "Hk Hc" as "H"; iExact "H"].
    intros f Hf. apply object_walk_spec. pose proof (length_weights (child o)). lia. }
  iIntros (r) "[Hk H]". unfold object_item_index, get_object_item.
  destruct (object_index (child o) s case_sensitive) as [i|]; cbn [found mbind option_bind].
  - rw nth_child_lookup. iDestruct "H" as (t) "(%Ht & (%a & %lm & %nx & -> & H1 & Ht & H2))". rw Ht. cbn [is_null].
    iDestruct (own_item_name with "Ht") as (m) "(%Hn & Ha & Hname & Hback)".
    iApply mwp_bind. iApply mwp_get_node. iFrame "Ha". iIntros "Ha". destruct (name t) as [nm|]; cbn [text_at].
    + iDestruct "Hname" as (lp) "[-> Hname]". iApply mwp_ret. iFrame "Hl Hk". iExists t. iSplitR; [done|].
      iExists a, lm, nx. iSplitR; [done|]. iFrame "H1 H2". iApply ("Hback" with "Ha"). iExists lp. by iFrame.
    + iDestruct "Hname" as %->. iApply mwp_ret. iFrame "Hl Hk". iSplitR; [done|].
      iDestruct ("Hback" with "Ha") as "Hback". iDestruct ("Hback" with "[//]") as "Ht".
      rw -{3}(take_drop_middle _ _ _ Ht) chain_of_app. iExists (Some a), lm. iFrame "H1". iExists a, nx. by iFrame.
  - iDestruct "H" as "[-> H]". cbn [is_null]. iApply mwp_ret. by iFrame.
Qed.

(** ** Lemmas: changes by name *)

(** Looking up lends the item out of the object. *)
Lemma look_up_spec la pv nx k s case_sensitive o :
  own_item la pv nx o ∗ k ↦ Chars s
  ⊢ mwp (mem_get_object_item (Some la) (Some k) case_sensitive) (λ r, k ↦ Chars s ∗
      match get_object_item (Some o) (Some s) case_sensitive with
      | Some e => ∃ l pv' nx', pure (r = Some l) ∗ own_item l pv' nx' e ∗ (own_item l pv' nx' e -∗ own_item la pv nx o)
      | None => pure (r = None) ∗ own_item la pv nx o
      end).
Proof.
  iIntros "[Ho Hk]". iDestruct (own_children with "Ho") as (n lst) "(Hl & Hc & Hback)".
  iApply mwp_wand. iSplitL "Hl Hc Hk"; [iApply get_object_item_spec; iFrame|]. iIntros (r) "(Hl & Hk & H)". iFrame "Hk".
  iSpecialize ("Hback" $! (n_child n) (child o) lst). rw with_child_same set_child_same. unfold object_item_index.
  destruct (get_object_item (Some o) (Some s) case_sensitive) as [e|] eqn:Ee; cbn [found].
  - unfold get_object_item in Ee. destruct (object_index (child o) s case_sensitive) as [i|]; [|done]. cbn [mbind option_bind] in Ee.
    iDestruct "H" as (t) "(%Ht & (%a & %lm & %nx' & -> & H1 & Ht & H2))". rw nth_child_lookup Ht in Ee.
    destruct (name t); [|done]. injection Ee as <-. iExists a, lm, nx'. iSplitR; [done|]. iFrame "Ht". iIntros "Ht".
    iApply ("Hback" with "Hl"). rw -{3}(take_drop_middle _ _ _ Ht) chain_of_app. iExists (Some a), lm. iFrame "H1".
    iExists a, nx'. by iFrame.
  - iDestruct "H" as "[-> H]". iSplitR; [done|]. iApply ("Hback" with "Hl H").
Qed.

Definition detached_named (o : cJSON) (s : str) (case_sensitive : bool) : option cJSON * option cJSON :=
  cJSON_DetachItemViaPointer (Some o) (object_item_index (Some o) (Some s) case_sensitive).

Lemma detach_named_spec la pv nx k s case_sensitive o :
  own_item la pv nx o ∗ k ↦ Chars s
  ⊢ mwp (to_detach ← mem_get_object_item (Some la) (Some k) case_sensitive; mem_DetachItemViaPointer (Some la) to_detach)
      (λ r, k ↦ Chars s ∗ let '(o', i) := detached_named o s case_sensitive in
         from_option (own_item la pv nx) emp o' ∗ match i with Some t => own_alone r t | None => pure (r = None) end)%I.
Proof.
  iIntros "[Ho Hk]". iDestruct (own_children with "Ho") as (n lst) "(Hl & Hc & Hback)".
  iApply mwp_bind. iApply mwp_wand. iSplitL "Hl Hc Hk"; [iApply get_object_item_spec; iFrame|]. iIntros (r) "(Hl & Hk & H)".
  unfold detached_named, cJSON_DetachItemViaPointer.
  destruct (object_item_index (Some o) (Some s) case_sensitive) as [i|]; cbn [found].
  - iDestruct "H" as (t) "(%Ht & (%a & %lm & %nx' & -> & H1 & Ht & H2))". rw nth_child_lookup Ht.
    iApply mwp_wand. iSplitL "Hl H1 Ht H2".
    { iApply (detach_spec (λ _ _ _ _, False) (λ _ _, False) la n (n_child n) a lm nx' _ t); [done|]. iFrame "Hl". iExists a. by iFrame. }
    iIntros (r) "(-> & Ht & (%c' & %lst' & Hl & Hc))". iFrame "Hk". iSplitR "Ht"; [cbn; iApply ("Hback" with "Hl Hc")|].
    iExists a. by iFrame.
  - iDestruct "H" as "[-> Hc]". iApply mwp_ret. iFrame "Hk". iSplitL; [|done]. cbn [from_option].
    iSpecialize ("Hback" $! (n_child n)). rw with_child_same.
    iSpecialize ("Hback" $! (child o) lst with "Hl Hc"). by rw set_child_same.
Qed.

Lemma delete_named_spec la pv nx k s case_sensitive o :
  own_item la pv nx o ∗ k ↦ Chars s
  ⊢ mwp (item ← (to_detach ← mem_get_object_item (Some la) (Some k) case_sensitive; mem_DetachItemViaPointer (Some la) to_detach);
         mem_cJSON_Delete item)
      (λ _, k ↦ Chars s ∗ from_option (own_item la pv nx) emp (fst (detached_named o s case_sensitive)))%I.
Proof.
  iIntros "H". iApply mwp_bind. iApply mwp_wand. iSplitL; [by iApply detach_named_spec|]. iIntros (r) "[Hk H]".
  destruct (detached_named o s case_sensitive) as [o' i]. cbn [fst]. iDestruct "H" as "[Ho Hi]".
  iApply (mwp_wand _ (λ _, emp)%I). iSplitL "Hi"; [|iIntros (_) "_"; iFrame]. destruct i as [t|].
  - iDestruct "Hi" as (l) "[-> Ht]". by iApply cJSON_Delete_alone.
  - iDestruct "Hi" as %->. by iApply (cJSON_Delete_frees None None [] None).
Qed.

Section Memory.
Context {alloc : Allocator block}.

(** The replacement under its new name. *)
Definition renamed (i : cJSON) (nm : option str) : cJSON :=
  set_jtype (Z.land (jtype i) (Z.lnot cJSON_StringIsConst)) (set_name nm i).

(** The copy of a string, or nothing when there is no memory for it. *)
Definition copied (s nm : option str) : Prop := nm = cJSON_strdup s ∨ malloc_fails ∧ nm = None.

Lemma rename_spec li pv nx i k s {A} (K : Mem A) (Q : A → assertion) :
  own_item li pv nx i ∗ k ↦ Chars s ∗
  (∀ nm, pure (copied (Some s) nm) -∗ own_item li pv nx (renamed i nm) -∗ k ↦ Chars s -∗ mwp K Q)
  ⊢ mwp (r ← get_node (Some li);
         when (negb (is_const (n_type r)) && negb (is_null (n_string r))) (deallocate (n_string r));;
         new_name ← mem_strdup (Some k);
         set_node (Some li) (with_string new_name);;
         set_node (Some li) (fun n => with_type (Z.land (n_type n) (Z.lnot cJSON_StringIsConst)) n);;
         K) Q.
Proof.
  iIntros "(Hi & Hk & HK)". iEval (rw own_item_unfold) in "Hi".
  iDestruct "Hi" as (n lst) "(%Hn & %Hd & %Hr & Hl & Htext & Hname & Hc)". destruct Hd as (Ht & Hd), Hr as [Hr Hc].
  iApply mwp_bind. iApply mwp_get_node. iFrame "Hl". iIntros "Hl". rw Ht Hc.
  iApply mwp_bind. iApply (mwp_free_text false _ (name i)). iFrame "Hname".
  iApply mwp_bind. iApply (mwp_wand _ (λ q, k ↦ Chars s ∗ ∃ nm, pure (copied (Some s) nm) ∗ text_at q nm)%I). iSplitL "Hk".
  { iApply mwp_bind. iApply mwp_read_chars. iFrame "Hk". iIntros "Hk". iApply mwp_allocate. iFrame "Hk". iSplit.
    - iIntros (l') "Hl'". iExists (Some (c_str s)). iSplitR; [by iLeft|]. iExists l'. by iFrame.
    - iIntros (Hm). iExists None. iSplitR; [iPureIntro; by right|done]. }
  iIntros (q) "[Hk (%nm & %Hnm & Hq)]". iApply mwp_bind. iApply mwp_set_node. iFrame "Hl". iIntros "Hl".
  iApply mwp_bind. iApply mwp_set_node. iFrame "Hl". iIntros "Hl". iApply ("HK" with "[//] [-Hk] Hk").
  rw own_item_unfold. iExists _, lst. iFrame "Hl". cbn. iFrame "Htext Hc Hq". iSplitR; [done|].
  iSplitR; [by rw Ht|]. iPureIntro. by rw is_reference_name is_const_named.
Qed.

(** [replace_item_in_object] with the name the replacement got. *)
Definition replaced_under (o : cJSON) (s : str) (i : cJSON) (case_sensitive : bool) : option cJSON :=
  fst (cJSON_ReplaceItemViaPointer (Some o) (object_item_index (Some o) (Some s) case_sensitive) (Some i)).

Lemma replace_named_spec la pv nx k s li i case_sensitive o :
  own_item la pv nx o ∗ own_item li None None i ∗ k ↦ Chars s
  ⊢ mwp (mem_replace_item_in_object (Some la) (Some k) (Some li) case_sensitive) (λ r,
      pure (r = true) ∗ k ↦ Chars s ∗ ∃ nm, pure (copied (Some s) nm) ∗
      from_option (own_item la pv nx) emp (replaced_under o s (renamed i nm) case_sensitive) ∗
      match object_item_index (Some o) (Some s) case_sensitive with Some _ => emp | None => own_item li None None (renamed i nm) end)%I.
Proof.
  iIntros "(Ho & Hi & Hk)". unfold mem_replace_item_in_object. cbn [is_null orb]. iApply rename_spec. iFrame "Hi Hk".
  iIntros (nm) "%Hnm Hi Hk". iDestruct (own_children with "Ho") as (n lst) "(Hl & Hc & Hback)".
  iApply mwp_bind. iApply mwp_wand. iSplitL "Hl Hc Hk"; [iApply get_object_item_spec; iFrame|]. iIntros (r) "(Hl & Hk & H)".
  unfold replaced_under, cJSON_ReplaceItemViaPointer.
  destruct (object_item_index (Some o) (Some s) case_sensitive) as [w|]; cbn [found].
  - iDestruct "H" as (t) "(%Ht & (%a & %lm & %nx' & -> & H1 & Ht & H2))". rw nth_child_lookup Ht.
    iApply mwp_bind. iApply mwp_wand. iSplitL "Hl H1 Ht H2 Hi".
    { iApply (mwp_own_sized (weight t)); [| |iCombine "Ht Hl H1 H2 Hi" as "H"; iExact "H"].
      - rw -(Nat.add_0_r (weight t)). apply at_least_sep; [by eapply own_item_size|apply at_least_0].
      - intros f Hf. iIntros "(Ht & Hl & H1 & H2 & Hi)".
        iApply (replace_spec (λ _ _ _ _, False) (λ _ _, False) f la n (n_child n) a lm nx' _ t); [done|done|].
        iFrame "Hl Hi". iExists a. by iFrame. }
    iIntros (r) "(_ & (%c' & %lst' & Hl & Hc))". iApply mwp_ret. iSplitR; [done|]. iFrame "Hk". iExists nm. iSplitR; [done|]. cbn [fst from_option].
    iSplitL; [|done]. iApply ("Hback" with "Hl Hc").
  - iDestruct "H" as "[-> Hc]". iApply mwp_bind. iApply mwp_ret. iApply mwp_ret. iSplitR; [done|]. iFrame "Hk". iExists nm. iSplitR; [done|]. iFrame "Hi".
    cbn [fst from_option]. iSpecialize ("Hback" $! (n_child n)). rw with_child_same.
    iSpecialize ("Hback" $! (child o) lst with "Hl Hc"). by rw set_child_same.
Qed.

(** ** Lemmas: duplication *)

(** [cJSON_strdup] of a string that is there, put into a member. *)
Lemma mwp_dup_text p s l n (f : ptr → node → node) (Q : bool → assertion) :
  text_at p s ∗ l ↦ Node n ∗ pure (f None n = n) ∗
    (∀ q nm (b : bool), pure (if b then nm = cJSON_strdup s else malloc_fails ∧ nm = None) -∗
       text_at p s -∗ text_at q nm -∗ l ↦ Node (f q n) -∗ Q b)
  ⊢ mwp (if is_null p then mret true
         else s ← mem_strdup p; set_node (Some l) (f s);; mret (negb (is_null s))) Q.
Proof.
  destruct s as [s|]; cbn [text_at].
  - iIntros "[(%k & -> & Hk) (Hl & _ & HQ)]". cbn [is_null]. iApply mwp_bind. iApply mwp_bind. iApply mwp_read_chars. iFrame "Hk".
    iIntros "Hk". iApply mwp_allocate. iSplit.
    + iIntros (q) "Hq". iApply mwp_bind. iApply mwp_set_node. iFrame "Hl". iIntros "Hl". iApply mwp_ret.
      iApply ("HQ" $! (Some q) (Some (c_str s)) true with "[//] [Hk] [Hq] Hl"); [iExists k|iExists q]; by iFrame.
    + iIntros (Hm). iApply mwp_bind. iApply mwp_set_node. iFrame "Hl". iIntros "Hl". iApply mwp_ret.
      iApply ("HQ" $! None None false with "[//] [Hk] [//] Hl"). iExists k. by iFrame.
  - iIntros "(-> & Hl & %Hf & HQ)". cbn [is_null]. iApply mwp_ret. iApply ("HQ" $! None None true with "[//] [//] [//]"). by rw Hf.
Qed.

Lemma not_reference t : is_reference (Z.land t (Z.lnot cJSON_IsReference)) = false.
Proof. unfold is_reference. by rw -Z.land_assoc Z.land_0_r. Qed.

Lemma const_kept t : is_const (Z.land t (Z.lnot cJSON_IsReference)) = is_const t.
Proof. unfold is_const. by rw -Z.land_assoc. Qed.

Lemma duplicate_unfold t recurse :
  cJSON_Duplicate t recurse
  = mk_cJSON (Z.land (jtype t) (Z.lnot cJSON_IsReference)) (cJSON_strdup (valuestring t)) (valueint t) (valuedouble t)
      (match name t with
       | None => None
       | Some s => if negb (Z.land (jtype t) cJSON_StringIsConst =? 0)%Z then Some s else Some (c_str s)
       end)
      (if negb recurse then [] else map (fun c => cJSON_Duplicate c true) (child t)).
Proof. by destruct t. Qed.

(** A copy, or a null pointer where there was no memory. *)
Definition copy_of (t : cJSON) (recurse : bool) (r : ptr) : assertion :=
  unless_fails r (λ l, own_item l None None (cJSON_Duplicate t recurse)).

Lemma dup_item_spec l pv nx t :
  own_item l pv nx t
  ⊢ mwp (mem_dup_item (Some l)) (λ r, own_item l pv nx t ∗
      (pure (snd r = true) ∗ own_alone (fst r) (cJSON_Duplicate t false) ∨
       pure (snd r = false ∧ malloc_fails) ∗ ∃ i, alone_or_null (fst r) i)).
Proof.
  iIntros "Ht". iEval (rw own_item_unfold) in "Ht". iDestruct "Ht" as (n lst) "(%Hn & %Hd & %Hk & Hl & Htext & Hname & Hc)".
  assert (Hback : l ↦ Node n ∗ text_at (n_valuestring n) (valuestring t) ∗ text_at (n_string n) (name t) ∗
     own_chain (n_child n) None (child t) None lst ⊢ own_item l pv nx t).
  { rw own_item_unfold. iIntros "(? & ? & ? & ?)". iExists n, lst. by iFrame. }
  destruct Hd as (Hty & Hv & Hw), Hk as [Hr Hk].
  unfold mem_dup_item. iApply mwp_bind. iApply mwp_allocate. iSplit.
  2: { iIntros (Hm). cbn [is_null]. iApply mwp_ret. iSplitL; [iApply Hback; iFrame|]. iRight. iSplitR; [done|]. by iExists None. }
  iIntros (r) "Hr". cbn [is_null].
  iApply mwp_bind. iApply mwp_get_node. iFrame "Hl". iIntros "Hl".
  iApply mwp_bind. iApply mwp_set_node. iFrame "Hr". iIntros "Hr".
  iApply mwp_bind. iApply mwp_set_node. iFrame "Hr". iIntros "Hr". rw Hty Hk.
  set (made := fun q1 q2 => with_string q2 (with_valuestring q1 (with_number (n_valueint n) (n_valuedouble n)
    (with_type (Z.land (jtype t) (Z.lnot cJSON_IsReference))
       (Build_node None None None cJSON_Invalid None 0 (SpecFloat.S754_zero false) None))))).
  assert (Hmade : ∀ q1 q2 s1 s2, r ↦ Node (made q1 q2) ∗ text_at q1 s1 ∗ text_at q2 s2
    ⊢ own_item r None None (mk_cJSON (Z.land (jtype t) (Z.lnot cJSON_IsReference)) s1 (valueint t) (valuedouble t) s2 [])).
  { intros q1 q2 s1 s2. rw own_item_unfold. iIntros "(Hr & H1 & H2)". iExists _, None. iFrame "Hr". cbn. iFrame "H1 H2".
    iSplitR; [done|]. iSplitR; [by rw Hv Hw|]. iSplitR; [by rw not_reference const_kept|]. done. }
  iApply mwp_bind. iApply (mwp_dup_text _ (valuestring t)). iFrame "Htext Hr". iSplitR; [done|]. iIntros (q1 s1 b1) "%H1 Htext Hq1 Hr".
  destruct b1; cbn [negb].
  2: { iApply mwp_ret. iSplitL "Hl Htext Hname Hc"; [iApply Hback; iFrame|]. iRight. iSplitR; [by destruct H1|].
       iExists (Some _), r. iSplitR; [done|]. iApply (Hmade q1 None s1 None). by iFrame. }
  iApply mwp_bind. iApply (mwp_dup_text _ (name t)). iFrame "Hname Hr". iSplitR; [done|]. iIntros (q2 s2 b2) "%H2 Hname Hq2 Hr". iApply mwp_ret.
  iSplitL "Hl Htext Hname Hc"; [iApply Hback; iFrame|]. destruct b2; [iLeft|iRight].
  - iSplitR; [done|]. iExists r. iSplitR; [done|]. rw duplicate_unfold -H1.
    assert (Hs2 : match name t with None => None | Some s => if negb (Z.land (jtype t) cJSON_StringIsConst =? 0)%Z then Some s else Some (c_str s) end = s2).
    { unfold is_const in Hk. rw Hk H2. by destruct (name t). }
    rw Hs2. iApply (Hmade q1 q2). iFrame.
  - iSplitR; [by destruct H2|]. iExists (Some _), r. iSplitR; [done|]. iApply (Hmade q1 q2 s1 s2). iFrame.
Qed.

Lemma dup_children_spec dup fuel ln m :
  ∀ ts child pv lst ds next c, length ts < fuel →
  (∀ t, t ∈ ts → ∀ l pv nx, own_item l pv nx t
     ⊢ mwp (dup (Some l)) (λ r, own_item l pv nx t ∗ copy_of t true r)) →
  own_chain child pv ts None lst ∗ ln ↦ Node (with_child c m) ∗ own_chain c None ds None next
  ⊢ mwp (mem_dup_children dup fuel (Some ln) child next) (λ b, own_chain child pv ts None lst ∗
      ∃ c' next' es, pure (if b then es = ds ++ map (fun t => cJSON_Duplicate t true) ts else malloc_fails) ∗
        ln ↦ Node (with_child c' m) ∗ own_chain c' None es None next').
Proof.
  induction fuel as [|fuel IH]; intros ts child pv lst ds next c Hf Hdup; [lia|]. destruct ts as [|t ts]; cbn [chain_of].
  - iIntros "(%E & Hl & Hd)". destruct E as [-> ->]. iApply mwp_ret. iSplitR; [done|]. iExists c, next, ds. rw app_nil_r. by iFrame.
  - iIntros "((%l & %nx & -> & Ht & Hts) & Hl & Hd)". cbn [mem_dup_children].
    iApply mwp_bind. iApply mwp_wand. iSplitL "Ht"; [iApply (Hdup with "Ht"); by left|]. iIntros (r) "[Ht [(%ld & -> & Hr)|%Hm]]".
    2: { destruct Hm as [-> Hm]. cbn [is_null]. iApply mwp_ret. iSplitL "Ht Hts"; [iExists l, nx; by iFrame|].
         iExists c, next, ds. by iFrame. }
    cbn [is_null]. iApply mwp_bind.
    iAssert (mwp (if negb (is_null next) then set_node next (with_next (Some ld));; set_node (Some ld) (with_prev next)
                  else set_node (Some ln) (with_child (Some ld)))
              (λ _, ∃ c', ln ↦ Node (with_child c' m) ∗ own_chain c' None (ds ++ [cJSON_Duplicate t true]) None (Some ld)))%I
      with "[Hl Hd Hr]" as "Hw".
    { destruct (decide (ds = [])) as [->|Hne].
      - iDestruct "Hd" as %[-> ->]. cbn [is_null negb]. iApply mwp_set_node. iFrame "Hl". iIntros "Hl". iExists (Some ld).
        iFrame "Hl". rw chain_of_one. iExists ld. by iFrame.
      - destruct (exists_last Hne) as (ds' & t' & ->).
        iDestruct (keep_pure _ _ (chain_last _ _ _ _ _ _ _) with "Hd") as "[%Hlast Hd]". destruct Hlast as [a ->].
        cbn [is_null negb]. iApply mwp_bind. iApply mwp_last_next. iFrame "Hd". iIntros "Hd".
        iApply mwp_set_prev. iFrame "Hr". iIntros "Hr". iExists c. iFrame "Hl". iApply chain_snoc. iFrame. }
    iApply mwp_wand. iFrame "Hw". iIntros (_) "(%c' & Hl & Hd)". iApply mwp_bind. iApply mwp_read_links. iFrame "Ht".
    iIntros (n) "%Hn Ht". destruct Hn as (-> & _). iApply mwp_wand. iSplitL "Hts Hl Hd".
    { iApply (IH ts nx (Some l) lst _ (Some ld) c'); [cbn in Hf; lia|by intros t' Ht'; apply Hdup; right|iFrame]. }
    iIntros (b) "[Hts (%c'' & %next' & %es & %Hes & Hl & Hd)]". iSplitL "Ht Hts"; [iExists l, nx; by iFrame|].
    iExists c'', next', es. iFrame "Hl Hd". iPureIntro. destruct b; [|done]. by rw Hes -app_assoc.
Qed.

Lemma dup_spec fuel : ∀ l pv nx t recurse, weight t < fuel →
  own_item l pv nx t ⊢ mwp (mem_dup fuel (Some l) recurse) (λ r, own_item l pv nx t ∗ copy_of t recurse r).
Proof.
  induction fuel as [|fuel IH]; intros l pv nx t recurse Hf; [lia|]. iIntros "Ht". cbn [mem_dup].
  iApply mwp_bind. iApply mwp_wand. iSplitL; [by iApply dup_item_spec|].
  iIntros ([r copied]) "[Ht [[%Hc Hr]|[%Hm (%i & Hr)]]]"; cbn [fst snd] in *.
  2: { destruct Hm as [-> Hm]. cbn [negb]. iApply mwp_bind. iApply (mwp_wand _ (λ _, emp)%I). iSplitL "Hr".
       - destruct i as [i|]; [|iDestruct "Hr" as %->; by iApply mwp_when_false].
         iDestruct "Hr" as (ld) "[-> Hr]". by iApply cJSON_Delete_alone.
       - iIntros (_) "_". iApply mwp_ret. iFrame "Ht". by iRight. }
  subst copied. cbn [negb]. iDestruct "Hr" as (ld) "[-> Hr]".
  destruct recurse; cbn [negb]; [|iApply mwp_ret; iFrame "Ht"; iLeft; iExists ld; by iFrame].
  iDestruct (own_children with "Ht") as (n lst) "(Hl & Hc & Hback)".
  iDestruct (own_children with "Hr") as (m lst') "(Hr & Hd & Hback')". iEval (rw duplicate_unfold; cbn [child negb]) in "Hd".
  iApply mwp_bind. iApply mwp_get_node. iFrame "Hl". iIntros "Hl". iApply mwp_bind. iApply mwp_wand. iSplitL "Hc Hr Hd".
  { rw weight_unfold in Hf. rw -{1}(with_child_same m). iDestruct "Hd" as %[E1 E2]. rw E1.
    iApply (dup_children_spec (fun c => mem_dup fuel c true) fuel ld m (child t) (n_child n) None lst [] None None); [pose proof (length_weights (child t)); lia| |iFrame; by cbn [chain_of]].
    intros t' (i & Hi)%list_elem_of_lookup l' pv' nx'. apply IH. apply weights_lookup in Hi. lia. }
  iIntros (b) "[Hc (%c' & %next' & %es & %Hes & Hr & Hd)]". iSpecialize ("Hback" $! (n_child n)). rw with_child_same.
  iSpecialize ("Hback" $! (child t) lst with "Hl Hc"). rw set_child_same. iSpecialize ("Hback'" with "Hr Hd"). destruct b.
  - iApply mwp_ret. iFrame "Hback". iLeft. iExists ld. iSplitR; [done|]. rw Hes !duplicate_unfold. by destruct t.
  - iApply mwp_bind. iApply (mwp_wand _ (λ _, emp)%I). iSplitL "Hback'"; [by iApply cJSON_Delete_alone|].
    iIntros (_) "_". iApply mwp_ret. iFrame "Hback". by iRight.
Qed.

(** ** Lemmas: creation *)

Lemma create_typed_spec t : is_reference t = false → is_const t = false →
  emp ⊢ mwp (mem_create_typed t) (λ r, unless_fails r (λ l, own_item l None None (set_jtype t cJSON_New_Item))).
Proof.
  intros Hr Hk. iIntros "_". iApply mwp_bind. iApply mwp_wand. iSplitR; [by iApply new_item_spec|].
  iIntros (r) "[(%l & -> & Hl)|%Hm]"; [|destruct Hm as [-> Hm]; iApply mwp_bind; iApply mwp_ret; iApply mwp_ret; by iRight].
  cbn [is_null negb when]. iApply mwp_bind. iApply (mwp_update _ _ _ cJSON_New_Item (set_jtype t cJSON_New_Item)); [done|by intros n _ ? ?|done..|].
  iFrame "Hl". iIntros "Hl". iApply mwp_ret. iLeft. iExists l. by iFrame.
Qed.

Lemma create_number_spec d i : (cJSON_CreateNumber d : outcome exn cJSON) = Ret i →
  emp ⊢ mwp (mem_CreateNumber d) (λ r, unless_fails r (λ l, own_item l None None i)).
Proof.
  unfold cJSON_CreateNumber, mem_CreateNumber. destruct (saturate d) as [v|e|] eqn:Ev; [|done|done]. intros [= <-].
  iIntros "_". iApply mwp_bind. iApply mwp_wand. iSplitR; [by iApply new_item_spec|].
  iIntros (r) "[(%l & -> & Hl)|%Hm]"; [|destruct Hm as [-> Hm]; iApply mwp_bind; iApply mwp_ret; iApply mwp_ret; by iRight].
  cbn [is_null negb when]. iApply mwp_bind. iApply mwp_bind. iApply (mwp_update _ _ _ cJSON_New_Item (set_jtype cJSON_Number cJSON_New_Item)); [done|by intros n _ ? ?|done..|].
  iFrame "Hl". iIntros "Hl". iApply mwp_bind. iApply mwp_lift; [reflexivity|].
  iApply (mwp_update _ _ _ (set_jtype cJSON_Number cJSON_New_Item) (set_valueint v (set_valuedouble d (set_jtype cJSON_Number cJSON_New_Item)))); [done|by intros n ? _ _|done..|].
  iFrame "Hl". iIntros "Hl". iApply mwp_ret. iLeft. iExists l. by iFrame.
Qed.

(** [cJSON_CreateString] and [cJSON_CreateRaw]: without a string nothing is
    left. *)
Definition text_item (t : Z) (s : option str) : option cJSON :=
  match cJSON_strdup s with
  | None => None
  | Some v => Some (set_valuestring (Some v) (set_jtype t cJSON_New_Item))
  end.

(** What a function that may make nothing returns, or a null pointer. *)
Definition made_or_fails (r : ptr) (i : option cJSON) : assertion :=
  (alone_or_null r i ∨ pure (r = None ∧ malloc_fails))%I.

Lemma create_text_spec t p s : is_reference t = false → is_const t = false →
  text_at p s ⊢ mwp (mem_create_text t p) (λ r, text_at p s ∗ made_or_fails r (text_item t s)).
Proof.
  intros Hr Hk. iIntros "Hs". iApply mwp_bind. iApply mwp_wand. iSplitR; [by iApply new_item_spec|].
  iIntros (r) "[(%l & -> & Hl)|%Hm]"; [|destruct Hm as [-> Hm]; iApply mwp_ret; iFrame "Hs"; by iRight].
  cbn [is_null]. iApply mwp_bind. iApply (mwp_update _ _ _ cJSON_New_Item (set_jtype t cJSON_New_Item)); [done|by intros n _ ? ?|done..|].
  iFrame "Hl". iIntros "Hl".
  assert (Hnone : own_item l None None (set_jtype t cJSON_New_Item)
    ⊢ mwp (set_node (Some l) (with_valuestring None);; (if is_null None then mem_cJSON_Delete (Some l);; mret None else mret (Some l) : Mem ptr))
        (λ r, pure (r = None))).
  { iIntros "Hl". iApply mwp_bind. iEval (rw own_item_unfold) in "Hl". iDestruct "Hl" as (n lst) "(%Hn & %Hd & %Hb & Hl & _ & Hname & Hc)".
    iApply mwp_set_node. iFrame "Hl". iIntros "Hl". cbn [is_null]. iApply mwp_bind. iApply (mwp_wand _ (λ _, emp)%I). iSplitL.
    + iApply (cJSON_Delete_alone l (set_jtype t cJSON_New_Item)). rw own_item_unfold. iExists _, lst. iFrame "Hl". cbn. by iFrame.
    + iIntros (_) "_". by iApply mwp_ret. }
  destruct s as [s|]; cbn [text_at].
  - iDestruct "Hs" as (k) "[-> Hk]". iApply mwp_bind. iApply mwp_bind. iApply mwp_read_chars. iFrame "Hk". iIntros "Hk".
    iApply mwp_allocate. iSplit.
    + iIntros (lo) "Ho". iApply mwp_bind. iApply (mwp_set_valuestring _ _ _ (set_jtype t cJSON_New_Item)); [done|]. iFrame "Hl Ho". iIntros "Hl".
      cbn [is_null]. iApply mwp_ret. iSplitL "Hk"; [iExists k; by iFrame|]. iLeft. iExists l. by iFrame.
    + iIntros (Hm). iApply mwp_wand. iSplitL "Hl"; [by iApply Hnone|]. iIntros (r) "->". iSplitL; [iExists k; by iFrame|]. by iRight.
  - iDestruct "Hs" as %->. iApply mwp_bind. iApply mwp_ret. iApply mwp_wand. iSplitL; [by iApply Hnone|].
    iIntros (r) "->". iSplitR; [done|]. by iLeft.
Qed.

Lemma alone_or_null_null p i : alone_or_null p i ⊢ ⌜is_null p = match i with None => true | Some _ => false end⌝.
Proof. destruct i; [iIntros "[%a [-> _]]"|iIntros "->"]; done. Qed.

Lemma text_at_null p s : text_at p s ⊢ ⌜is_null p = match s with None => true | Some _ => false end⌝.
Proof. destruct s; [iIntros "[%a [-> _]]"|iIntros "->"]; done. Qed.

Lemma delete_alone_or_null p i : alone_or_null p i ⊢ mwp (mem_cJSON_Delete p) (λ _, emp).
Proof.
  destruct i as [i|].
  - iIntros "(%l & -> & Hi)". by iApply cJSON_Delete_alone.
  - iIntros "->". by iApply (cJSON_Delete_frees None None [] None).
Qed.

(** What is made is added, or deleted when it cannot be. *)
Lemma add_created_spec (create : Mem ptr) P po oo pk so io :
  (P ⊢ mwp create (λ r, P ∗ made_or_fails r io)) →
  alone_or_null po oo ∗ text_at pk so ∗ P
  ⊢ mwp (mem_add_created create po pk) (λ r, text_at pk so ∗ P ∗
      (alone_or_null po (fst (add_created oo so io)) ∗ pure (is_null r = negb (snd (add_created oo so io))) ∨
       alone_or_null po oo ∗ pure (r = None ∧ malloc_fails))).
Proof.
  intros Hc. iIntros "(Ho & Hk & HP)". iApply mwp_bind. iApply mwp_wand. iSplitL "HP"; [by iApply Hc|]. iIntros (r) "[HP [Hi|%Hm]]".
  2: { destruct Hm as [-> Hm]. iApply mwp_bind. iApply (mwp_ext (mret false)).
       { intros h. unfold sized, mem_add_item_to_object. by rw orb_true_r. }
       iApply mwp_ret. iApply mwp_bind. iApply mwp_wand. iSplitR; [by iApply (delete_alone_or_null None None)|]. iIntros (_) "_". iApply mwp_ret.
       iFrame "Hk HP". iRight. by iFrame. }
  iDestruct (keep_pure _ _ (alone_or_null_null po oo) with "Ho") as "[%Eo Ho]".
  iDestruct (keep_pure _ _ (text_at_null pk so) with "Hk") as "[%Ek Hk]".
  iDestruct (keep_pure _ _ (alone_or_null_null r io) with "Hi") as "[%Ei Hi]".
  destruct (is_null po || is_null pk || is_null r) eqn:E.
  - iApply mwp_bind. iApply (mwp_ext (mret false)); [intros h; unfold sized, mem_add_item_to_object; by rw E|].
    iApply mwp_ret. iApply mwp_bind. iApply mwp_wand. iSplitL "Hi"; [by iApply delete_alone_or_null|]. iIntros (_) "_". iApply mwp_ret.
    assert (Ha : add_created oo so io = (oo, false)) by (rw Eo Ek Ei in E; by destruct oo, so, io).
    rw Ha. iFrame "Hk HP". iLeft. by iFrame.
  - destruct oo as [o|], so as [s|], io as [i|]; [|by rw Eo Ek Ei in E..]. iDestruct "Ho" as (lo) "[-> Ho]".
    iDestruct "Hk" as (k) "[-> Hk]". iDestruct "Hi" as (li) "[-> Hi]". iApply mwp_bind. iApply mwp_wand. iSplitL "Ho Hk Hi".
    + iApply (mwp_own_sized (weight o + 0)); [apply at_least_sep; [by eapply own_item_size|apply at_least_0]| |iCombine "Ho Hi Hk" as "H"; iExact "H"].
      intros f Hf. iIntros "(Ho & Hi & Hk)". iDestruct (keep_pure _ (is_reference (jtype o) = false) with "Ho") as "[%Hr Ho]".
      { rw own_item_unfold. by iIntros "(%n & %lst & _ & _ & %Hb & _)"; destruct Hb. }
      iApply (add_item_to_object_spec (λ _ _ _ _, False) (λ _ _, False) f lo None None o k s li i false); [done| |done|iFrame].
      rw weight_unfold in Hf. pose proof (length_weights (child o)). lia.
    + iIntros (b) "[Hk [[-> Ho]|[%Hm [Ho Hi]]]]".
      * iApply mwp_ret. cbn. iFrame "HP". iSplitL "Hk"; [iExists k; by iFrame|]. iLeft. iSplitL; [iExists lo; by iFrame|done].
      * destruct Hm as [-> Hm]. iApply mwp_bind. iApply mwp_wand. iSplitL "Hi"; [by iApply cJSON_Delete_alone|]. iIntros (_) "_".
        iApply mwp_ret. iFrame "HP". iSplitL "Hk"; [iExists k; by iFrame|]. iRight. iSplitL; [iExists lo; by iFrame|done].
Qed.

(** *** Arrays *)

(** The block of a new array. *)
Definition array_node : node := Build_node None None None cJSON_Array None 0 (SpecFloat.S754_zero false) None.

Lemma array_closed la c ts lst :
  la ↦ Node (with_child c array_node) ∗ own_chain c None ts None lst ⊢ own_item la None None (set_child ts cJSON_CreateArray).
Proof. iIntros "[Hl Hc]". rw own_item_unfold. iExists _, lst. iFrame. by repeat iSplit. Qed.

(** A new item after the last one. *)
Lemma append_spec la c ts p li i :
  la ↦ Node (with_child c array_node) ∗ own_chain c None ts None p ∗ own_item li None None i
  ⊢ mwp (if is_null p then set_node (Some la) (with_child (Some li)) else mem_suffix_object p (Some li)) (λ _, ∃ c',
      la ↦ Node (with_child c' array_node) ∗ own_chain c' None (ts ++ [i]) None (Some li)).
Proof.
  iIntros "(Hl & Hc & Hi)". destruct (decide (ts = [])) as [->|Hne].
  - iDestruct "Hc" as %[-> ->]. cbn [is_null]. iApply mwp_set_node. iFrame "Hl". iIntros "Hl". iExists (Some li). iFrame "Hl".
    cbn [app]. rw chain_of_one. iExists li. by iFrame.
  - destruct (exists_last Hne) as (ts' & t' & ->).
    iDestruct (keep_pure _ _ (chain_last _ _ _ _ _ _ _) with "Hc") as "[%Hlast Hc]". destruct Hlast as [a ->]. cbn [is_null].
    iApply mwp_bind. iApply mwp_last_next. iFrame "Hc". iIntros "Hc". iApply mwp_set_prev. iFrame "Hi". iIntros "Hi".
    iExists c. iFrame "Hl". iApply chain_snoc. iFrame.
Qed.

Section Arrays.
Context {A B : Type} (create : A → Mem ptr) (make : B → outcome exn (option cJSON)) (given : A → B → assertion).
Hypothesis create_makes : ∀ x y io, make y = Ret io → given x y ⊢ mwp (create x) (λ r, given x y ∗ made_or_fails r io).

Lemma create_items_spec la : ∀ xs ys cs ts c p, create_items make ys = Ret cs →
  la ↦ Node (with_child c array_node) ∗ own_chain c None ts None p ∗ ([∗ list] x;y ∈ xs;ys, given x y)
  ⊢ mwp (mem_create_items create xs (Some la) p) (λ b, ([∗ list] x;y ∈ xs;ys, given x y) ∗
      (match cs with
       | Some cs => pure (b = true) ∗ own_item la None None (set_child (ts ++ cs) cJSON_CreateArray)
       | None => pure (b = false)
       end ∨ pure (b = false ∧ malloc_fails))).
Proof.
  induction xs as [|x xs IH]; intros [|y ys] cs ts c p Hcs; 
    try (iIntros "(Hl & Hc & H)"; iDestruct (big_sepL2_length with "H") as "%Hlen"; done).
  - injection Hcs as <-. iIntros "(Hl & Hc & _)". iApply mwp_ret. iSplitR; [done|]. iLeft. iSplitR; [done|]. rw app_nil_r.
    iApply array_closed. iFrame.
  - cbn [create_items] in Hcs. destruct (make y) as [io|e|] eqn:Ey; [|done|done].
    iIntros "(Hl & Hc & [Hx Hxs])". cbn [mem_create_items]. iApply mwp_bind. iApply mwp_wand.
    iSplitL "Hx"; [by iApply create_makes|].
    assert (Hfreed : la ↦ Node (with_child c array_node) ∗ own_chain c None ts None p
      ⊢ mwp (mem_cJSON_Delete (Some la);; mret false) (λ b, pure (b = false))).
    { iIntros "[Hl Hc]". iApply mwp_bind. iApply (mwp_wand _ (λ _, emp)%I). iSplitL; [|iIntros (_) "_"; by iApply mwp_ret].
      iApply cJSON_Delete_alone. iApply array_closed. iFrame. }
    iIntros (r) "[Hx [Hr|%Hm]]".
    2: { destruct Hm as [-> Hm]. cbn [is_null]. iApply mwp_wand. iSplitL "Hl Hc"; [iApply Hfreed; iFrame|]. iIntros (b) "->".
         iFrame "Hx Hxs". by iRight. }
    destruct io as [i|].
    + iDestruct "Hr" as (li) "[-> Hi]". cbn [is_null]. iApply mwp_bind. iApply mwp_wand.
      iSplitL "Hl Hc Hi"; [iApply append_spec; iFrame|]. iIntros (_) "(%c' & Hl & Hc)".
      change (create_items make ys ≫= (λ c, Ret (fmap (M := option) (cons i) c)) = Ret cs) in Hcs.
      destruct (create_items make ys) as [cs'|e|] eqn:Ecs; [|done|done]. injection Hcs as <-.
      iApply mwp_wand. iSplitL "Hl Hc Hxs"; [by iApply (IH ys cs' _ _ _ Ecs with "[$Hl $Hc $Hxs]")|]. iIntros (b) "[Hxs [H|%Hm]]"; iFrame "Hx Hxs"; [iLeft|by iRight].
      destruct cs' as [cs'|]; cbn [fmap option_fmap option_map]; [|done]. by rw -app_assoc.
    + iDestruct "Hr" as %->. injection Hcs as <-. cbn [is_null]. iApply mwp_wand. iSplitL "Hl Hc"; [iApply Hfreed; iFrame|].
      iIntros (b) "->". iFrame "Hx Hxs". by iLeft.
Qed.

Lemma create_array_spec xs ys count o : length xs = length ys →
  create_array make (Some ys) count = Ret o →
  ([∗ list] x;y ∈ take (Z.to_nat count) xs;take (Z.to_nat count) ys, given x y)
  ⊢ mwp (mem_create_array create (Some xs) count) (λ r,
      ([∗ list] x;y ∈ take (Z.to_nat count) xs;take (Z.to_nat count) ys, given x y) ∗ made_or_fails r o).
Proof.
  intros Hlen Ho. iIntros "Hx". unfold create_array in Ho. unfold mem_create_array. rw Hlen.
  destruct (count <? 0)%Z; [injection Ho as <-; iApply mwp_ret; iFrame; by iLeft|]. destruct (Z.of_nat (length ys) <? count)%Z; [done|].
  iApply mwp_bind. iApply mwp_bind. iApply mwp_allocate. iSplit.
  2: { iIntros (Hm). iApply mwp_bind. iApply mwp_ret. iApply mwp_ret. iApply mwp_ret. iFrame. by iRight. }
  iIntros (la) "Hl". iApply mwp_bind. iApply mwp_set_node. iFrame "Hl".
  iIntros "Hl". iApply mwp_ret. iApply mwp_bind. destruct (create_items make (take (Z.to_nat count) ys)) as [cs|e|] eqn:Ec; [|done|done].
  injection Ho as <-. iApply mwp_wand. iSplitL.
  { iApply (create_items_spec la (take (Z.to_nat count) xs) _ cs [] None None Ec). iFrame "Hl". iSplitR; [done|iExact "Hx"]. }
  iIntros (b) "[Hx [H|%Hm]]".
  2: { destruct Hm as [-> Hm]. iApply mwp_ret. iFrame "Hx". by iRight. }
  destruct cs as [cs|]; cbn [fmap option_fmap option_map].
  - iDestruct "H" as "[-> H]". iApply mwp_ret. iFrame "Hx". iLeft. iExists la. by iFrame.
  - iDestruct "H" as "->". iApply mwp_ret. iFrame "Hx". by iLeft.
Qed.
End Arrays.

Lemma string_array_runs {E} (values : list (option str)) count : (0 <= count <= Z.of_nat (length values))%Z →
  ∃ o, (cJSON_CreateStringArray (Some values) count : outcome E (option cJSON)) = Ret o.
Proof.
  intros Hc. unfold cJSON_CreateStringArray, create_array. rw (proj2 (Z.ltb_ge count 0)); [|lia].
  rw (proj2 (Z.ltb_ge (Z.of_nat (length values)) count)); [|lia].
  assert (Hi : ∀ l : list (option str), ∃ c, create_items (E := E) (fun s => Ret (cJSON_CreateString s)) l = Ret c).
  { induction l as [|v l [c IH]]; [by eexists|]. cbn [create_items]. rw IH. by destruct (cJSON_CreateString v); eexists. }
  destruct (Hi (take (Z.to_nat count) values)) as [c ->]. by eexists.
Qed.

(** A replacement under its own name: the name is freed and then copied,
    whatever the rest of the memory is. *)
Lemma replace_reads_freed_name po k s li n case_sensitive h :
  h !! li = Some (Node n) → n_string n = Some k → is_const (n_type n) = false → h !! k = Some (Chars s) →
  snd (mem_replace_item_in_object po (Some k) (Some li) case_sensitive h) = Undef.
Proof.
  intros Hn Hs Hc Hk. unfold mem_replace_item_in_object. cbn [is_null orb].
  assert (Hg : get_node (Some li) h = (h, Ret n)) by (unfold get_node, load; cbn; by rw Hn).
  assert (Hf : deallocate (Some k) h = (delete k h, Ret tt) :> gmap loc block * outcome exn unit)
    by (unfold deallocate; rw decide_True //; by eexists).
  assert (Hd : mem_strdup (Some k) (delete k h) = (delete k h, Undef)).
  { unfold mem_strdup, mbind, stM_mbind, stM_bind, load. cbn. by rw lookup_delete_eq. }
  unfold mbind, stM_mbind, stM_bind. rw Hg Hc Hs. cbn [is_null negb andb when]. by rw Hf Hd.
Qed.

(** ** Properties *)

(** C27. On an object that owns what it points to, and with the name in a block
    of its own, [get_object_item] returns a pointer to the first child of that
    name (up to case, or exactly) inside the object, or null;
    [cJSON_DetachItemFromObject], [cJSON_DeleteItemFromObject] and
    [replace_item_in_object] with either comparison relink and free so that
    the object shows what CJsonTree.v says; and a replacement that finds
    nothing to replace has been renamed and stays with the caller, although
    the function returns true.  A replacement whose name could not be copied
    is put in place all the same, without a name. *)
Theorem object_edits_refine la pv nx k s li i (case_sensitive : bool) o :
  let shown (x : option cJSON) : assertion := from_option (own_item la pv nx) emp%I x in
  let detach := (if case_sensitive then cJSON_DetachItemFromObjectCaseSensitive else cJSON_DetachItemFromObject) (Some o) (Some s) in
  (own_item la pv nx o ∗ k ↦ Chars s ⊢ mwp (mem_get_object_item (Some la) (Some k) case_sensitive)
     (λ r, k ↦ Chars s ∗
        match get_object_item (Some o) (Some s) case_sensitive with
        | Some e => ∃ l pv' nx', pure (r = Some l) ∗ own_item l pv' nx' e ∗ (own_item l pv' nx' e -∗ own_item la pv nx o)
        | None => pure (r = None) ∗ own_item la pv nx o
        end)) ∧
  (own_item la pv nx o ∗ k ↦ Chars s
   ⊢ mwp ((if case_sensitive then mem_DetachItemFromObjectCaseSensitive else mem_DetachItemFromObject) (Some la) (Some k))
     (λ r, k ↦ Chars s ∗ shown (fst detach) ∗ alone_or_null r (snd detach))) ∧
  (own_item la pv nx o ∗ k ↦ Chars s
   ⊢ mwp ((if case_sensitive then mem_DeleteItemFromObjectCaseSensitive else mem_DeleteItemFromObject) (Some la) (Some k))
     (λ _, k ↦ Chars s ∗ shown (fst detach))) ∧
  (own_item la pv nx o ∗ own_item li None None i ∗ k ↦ Chars s
   ⊢ mwp (mem_replace_item_in_object (Some la) (Some k) (Some li) case_sensitive)
     (λ r, pure (r = true) ∗ k ↦ Chars s ∗ ∃ nm, pure (copied (Some s) nm) ∗
        shown (replaced_under o s (renamed i nm) case_sensitive) ∗
        match object_item_index (Some o) (Some s) case_sensitive with
        | Some _ => emp
        | None => own_item li None None (renamed i nm)
        end)) ∧
  replaced_under o s (renamed i (cJSON_strdup (Some s))) case_sensitive
  = fst (replace_item_in_object (Some o) (Some s) (Some i) case_sensitive).
Proof.
  intros shown detach. assert (Hd : detach = detached_named o s case_sensitive) by (subst detach; by destruct case_sensitive).
  rw Hd. split_and!; [by apply look_up_spec| | |by apply replace_named_spec|done].
  - pose proof (detach_named_spec la pv nx k s case_sensitive o) as H. destruct (detached_named o s case_sensitive).
    by destruct case_sensitive.
  - pose proof (delete_named_spec la pv nx k s case_sensitive o) as H. by destruct case_sensitive.
Qed.

(** C28. What is copied or created owns its blocks, and what cannot be used is
    freed: [cJSON_Duplicate] of an item leaves the item as it was and returns
    an item of the value CJsonTree.v says, with no block in common;
    [cJSON_AddStringToObject] on any object, name and string, each of which
    may be null, adds the new item or leaves no block of it; and
    [cJSON_CreateStringArray] over strings one of which may be null returns
    the array, or null with every element made before freed.  Whichever calls
    of [malloc] fail, nothing else happens than a null pointer, with the rest
    as it was and everything made before freed. *)
Theorem copies_own l pv nx t recurse po oo pk so ps s (strings : list ptr) (values : list (option str)) count :
  (own_item l pv nx t ⊢ mwp (mem_Duplicate (Some l) recurse)
     (λ r, own_item l pv nx t ∗ (own_alone r (cJSON_Duplicate t recurse) ∨ pure (r = None ∧ malloc_fails)))) ∧
  (alone_or_null po oo ∗ text_at pk so ∗ text_at ps s ⊢ mwp (mem_AddStringToObject po pk ps)
     (λ r, text_at pk so ∗ text_at ps s ∗
        (alone_or_null po (fst (cJSON_AddStringToObject oo so s)) ∗
           pure (is_null r = negb (snd (cJSON_AddStringToObject oo so s))) ∨
         alone_or_null po oo ∗ pure (r = None ∧ malloc_fails)))) ∧
  (length strings = length values → (0 <= count <= Z.of_nat (length values))%Z →
   let given := ([∗ list] p;v ∈ take (Z.to_nat count) strings;take (Z.to_nat count) values, text_at p v)%I in
   ∃ o, (cJSON_CreateStringArray (Some values) count : outcome exn (option cJSON)) = Ret o ∧
     (given ⊢ mwp (mem_CreateStringArray (Some strings) count) (λ r, given ∗ (alone_or_null r o ∨ pure (r = None ∧ malloc_fails))))).
Proof.
  split_and!.
  - apply (mwp_own_sized (weight t)); [by eapply own_item_size|]. intros f Hf. by apply dup_spec.
  - apply add_created_spec. by apply create_text_spec.
  - intros Hlen Hc given. destruct (string_array_runs (E := exn) values count Hc) as (o & Ho). exists o. split; [done|].
    eapply create_array_spec; [|done|exact Ho]. intros p v io [= <-]. by apply create_text_spec.
Qed.

End Memory.

(** ** Examples *)

#[local] Instance with_endless : Allocator block := endless.

(** [add_item_to_object] copies first. *)
Example add_under_own_name :
  (name ← allocate 2 (Chars #"a"); o ← mem_CreateObject; i ← mem_CreateNull;
   mem_add_item_to_object 9 o name i false;;
   n ← get_node i;
   mem_DetachItemFromObject o name;;
   ok ← mem_add_item_to_object 9 o (n_string n) i false;
   found ← mem_GetObjectItem o name;
   mem_cJSON_Delete o;; mret (ok, bool_decide (found = i))) ∅
  = ({[1%positive := Chars #"a"]}, Ret (true, true)).
Proof. vm_compute. reflexivity. Qed.

(** A member that is found, replaced and found no more under its old name. *)
Example replaced_by_name :
  (name ← allocate 2 (Chars #"A"); o ← mem_CreateObject;
   mem_AddTrueToObject o name;;
   i ← mem_CreateArray;
   mem_ReplaceItemInObject o name i;;
   copy ← mem_Duplicate o true;
   mem_cJSON_Delete o;;
   text ← sized (fun fuel => mem_PrintUnformatted fuel copy);
   mem_DeleteItemFromObjectCaseSensitive copy name;;
   left ← mem_HasObjectItem copy name;
   mem_cJSON_Delete copy;; mret (text, left)) ∅
  = ({[1%positive := Chars #"A"]}, Ret (Some (quoted #"{'A':[]}"), false)).
Proof. vm_compute. reflexivity. Qed.

(** ** Witnesses *)

Lemma copies_own_witness :
  let given : assertion := ([∗ list] p;v ∈ [Some 7%positive; None];[Some #"x"; None], text_at p v)%I in
  ∃ o, (cJSON_CreateStringArray (Some [Some #"x"; None]) 2 : outcome exn (option cJSON)) = Ret o ∧
    (given ⊢ mwp (mem_CreateStringArray (Some [Some 7%positive; None]) 2) (λ r, given ∗ (alone_or_null r o ∨ pure (r = None ∧ malloc_fails)))).
Proof.
  apply (copies_own 1%positive None None cJSON_CreateNull true None None None None None None [Some 7%positive; None] [Some #"x"; None] 2);
    [reflexivity|done].
Defined.
