(* ===== verification/CJsonParseMemory.v ===== *)
(** * Parsing JSON in memory (src/libs/cJSON.c)

    The parser of cJSON.c with the blocks it allocates, links and frees, over
    the functions of CJson.v that only read the text.  A function returns its
    [cJSON_bool]; the buffer and the memory are the state. *)
From S2P Require Import Prelude.
From S2P Require Import CLib.
From S2P Require Import Exceptions.
From S2P Require Import CFloat.
From S2P Require Import CJson.
From S2P Require Import Drivers.
From S2P Require Import HeapLogic.
From S2P Require Import CJsonMemory.

(** ** Definitions *)

Abbreviation MP := (stM exn (parse_buffer * gmap loc block)).

(** A part that only reads the text: [None] where it fails. *)
Definition on_buffer {A} (m : P A) : MP (option A) := fun s =>
  let '(b, r) := m (fst s) in
  ((b, snd s), match r with Ret a => Ret (Some a) | Throw _ => Ret None | Undef => Undef end).

(** One that does not fail. *)
Definition buffer {A} (m : P A) : MP A := a ← on_buffer m; lift (deref a).

Definition in_memory {A} (m : Mem A) : MP A := fun s =>
  let '(h, r) := m (snd s) in ((fst s, h), r).

(** *** Numbers and strings *)

Section Parser.
Context {alloc : Allocator block}.

Definition mem_parse_number (item : ptr) : MP bool :=
  number ← on_buffer (parse_number cJSON_New_Item);
  match number with
  | None => mret false
  | Some i =>
      in_memory (set_node item (fun n => with_type cJSON_Number (with_number (valueint i) (valuedouble i) n)));;
      mret true
  end.

Definition mem_string_fail (input_pointer : nat) : MP bool := buffer (set_offset input_pointer);; mret false.

Definition mem_parse_string (item : ptr) : MP bool :=
  b ← buffer get;
  let start := offset b in
  let input_pointer := (start + 1)%nat in
  q ← buffer (read_at 0);
  if negb (Ascii.eqb q "034") then mem_string_fail input_pointer else
  r ← buffer (scan_string (S (blength b)) input_pointer 0);
  match r with
  | None => mem_string_fail input_pointer
  | Some (input_end, skipped_bytes) =>
      if (blength b <=? input_end)%nat then mem_string_fail input_pointer else
      close ← buffer (read_abs input_end);
      if negb (Ascii.eqb close "034") then mem_string_fail input_pointer else
      let allocation_length := (input_end - start - skipped_bytes)%nat in
      let size := (allocation_length + 1)%nat in
      output ← in_memory (allocate size (Chars []));
      if is_null output then mem_string_fail input_pointer else
      out ← on_buffer (unescape (S (blength b)) size input_end input_pointer []);
      match out with
      | None => in_memory (deallocate output);; mret false
      | Some out =>
          buffer (push size out [NUL]);;
          in_memory (store output (Chars out));;
          in_memory (set_node item (with_type cJSON_String));;
          in_memory (set_node item (with_valuestring output));;
          buffer (set_offset (input_end + 1));;
          mret true
      end
  end.

(** *** Values *)

(** A new item at the end of the list from [head] to [current]: the list and
    its last item, or nothing when there is no memory for it. *)
Definition mem_append_item (head current : ptr) : MP (option (ptr * ptr)) :=
  new_item ← in_memory mem_New_Item;
  if is_null new_item then mret None
  else if is_null head then mret (Some (new_item, new_item))
  else
    in_memory (set_node current (with_next new_item));;
    in_memory (set_node new_item (with_prev current));;
    mret (Some (head, new_item)).

Section Containers.
Variable mem_parse_value : ptr → MP bool.

(** The loops give the head of the list, and whether they went through. *)
Fixpoint mem_array_loop (fuel : nat) (head current : ptr) : MP (ptr * bool) :=
  match fuel with
  | O => lift Undef
  | S f =>
      appended ← mem_append_item head current;
      match appended with
      | None => mret (head, false)
      | Some (head, current_item) =>
          buffer (advance 1);;
          buffer buffer_skip_whitespace;;
          parsed ← mem_parse_value current_item;
          if negb parsed then mret (head, false) else
          buffer buffer_skip_whitespace;;
          comma ← buffer (looking_at ",");
          if (comma : bool) then mem_array_loop f head current_item else mret (head, true)
      end
  end.

Definition mem_object_entry (current_item : ptr) : MP bool :=
  buffer (advance 1);;
  buffer buffer_skip_whitespace;;
  parsed ← mem_parse_string current_item;
  if negb parsed then mret false else
  buffer buffer_skip_whitespace;;
  in_memory (set_node current_item (fun n => with_string (n_valuestring n) n));;
  in_memory (set_node current_item (with_valuestring None));;
  colon ← buffer (looking_at ":");
  if negb colon then mret false else
  buffer (advance 1);;
  buffer buffer_skip_whitespace;;
  parsed ← mem_parse_value current_item;
  if negb parsed then mret false else
  buffer buffer_skip_whitespace;;
  mret true.

Fixpoint mem_object_loop (fuel : nat) (head current : ptr) : MP (ptr * bool) :=
  match fuel with
  | O => lift Undef
  | S f =>
      appended ← mem_append_item head current;
      match appended with
      | None => mret (head, false)
      | Some (head, current_item) =>
          parsed ← mem_object_entry current_item;
          if negb parsed then mret (head, false) else
          comma ← buffer (looking_at ",");
          if (comma : bool) then mem_object_loop f head current_item else mret (head, true)
      end
  end.

(** From the opening bracket to the exits [success] and [fail]. *)
Definition mem_container (closing : ascii) (jt : Z) (items : nat → ptr → ptr → MP (ptr * bool)) (item : ptr) : MP bool :=
  buffer (advance 1);;
  buffer buffer_skip_whitespace;;
  empty ← buffer (looking_at closing);
  '(head, success) ←
    (if (empty : bool) then mret (None, true)
     else
       ok ← buffer (can_access_at_index 0);
       if negb ok then buffer retreat;; mret (None, false) else
       buffer retreat;;
       b ← buffer get;
       '(head, success) ← items (S (blength b - offset b)) None None;
       if negb success then mret (head, false) else
       fin ← buffer (looking_at closing);
       mret (head, fin));
  if negb success then
    in_memory (when (negb (is_null head)) (mem_cJSON_Delete head));;
    mret false
  else
    b ← buffer get;
    buffer (match depth b with O => undef | S d => set_depth d end);;
    in_memory (set_node item (with_type jt));;
    in_memory (set_node item (with_child head));;
    buffer (advance 1);;
    mret true.

Definition mem_parse_array (item : ptr) : MP bool :=
  b ← buffer get;
  if (CJSON_NESTING_LIMIT <=? depth b)%nat then mret false else
  buffer (set_depth (S (depth b)));;
  c ← buffer (read_at 0);
  if negb (Ascii.eqb c "[") then mret false else
  mem_container "]" cJSON_Array mem_array_loop item.

Definition mem_parse_object (item : ptr) : MP bool :=
  b ← buffer get;
  if (CJSON_NESTING_LIMIT <=? depth b)%nat then mret false else
  buffer (set_depth (S (depth b)));;
  ok ← buffer (looking_at "{");
  if negb ok then mret false else
  mem_container "}" cJSON_Object mem_object_loop item.

End Containers.

Fixpoint mem_parse_value (fuel : nat) (item : ptr) : MP bool :=
  match fuel with
  | O => lift Undef
  | S f =>
      null ← buffer (literal #"null");
      if (null : bool) then
        in_memory (set_node item (with_type cJSON_NULL));; buffer (advance 4);; mret true
      else
      false_ ← buffer (literal #"false");
      if (false_ : bool) then
        in_memory (set_node item (with_type cJSON_False));; buffer (advance 5);; mret true
      else
      true_ ← buffer (literal #"true");
      if (true_ : bool) then
        in_memory (set_node item (with_type cJSON_True));;
        in_memory (set_node item (fun n => with_number 1 (n_valuedouble n) n));;
        buffer (advance 4);; mret true
      else
      str_ ← buffer (looking_at "034");
      if (str_ : bool) then mem_parse_string item else
      num ← buffer (at_char (fun c => Ascii.eqb c "-" || is_digit c));
      if (num : bool) then mem_parse_number item else
      arr ← buffer (looking_at "[");
      if (arr : bool) then mem_parse_array (mem_parse_value f) item else
      obj ← buffer (looking_at "{");
      if (obj : bool) then mem_parse_object (mem_parse_value f) item else
      mret false
  end.

(** *** Entry points *)

(** The part of [cJSON_ParseWithOpts] that may go to [fail]. *)
Definition mem_parse_document (require_null_terminated : bool) (item : ptr) : MP bool :=
  started ← on_buffer (skip_utf8_bom;; buffer_skip_whitespace);
  match started with
  | None => mret false
  | Some _ =>
      parsed ← mem_parse_value parse_fuel item;
      if negb parsed then mret false else
      if require_null_terminated then
        buffer buffer_skip_whitespace;;
        b ← buffer get;
        if (blength b <=? offset b)%nat then mret false else
        c ← buffer (read_at 0);
        mret (Ascii.eqb c NUL)
      else mret true
  end.

(** The item, [*return_parse_end] and [global_error.position]. *)
Definition mem_ParseWithOpts (value : option str) (require_null_terminated : bool) : Mem (ptr * nat * nat) := fun h =>
  match value with
  | None => (h, Ret (None, 0, 0))
  | Some v =>
      let text := c_str v ++ [NUL] in
      let buffer := {| content := text; blength := length text; offset := 0; depth := 0 |} in
      let '((b, h), r) :=
        (item ← in_memory mem_New_Item;
         if is_null item then mret None else
         parsed ← mem_parse_document require_null_terminated item;
         if (parsed : bool) then mret item else in_memory (mem_cJSON_Delete item);; mret None) (buffer, h) in
      (h, item ← r;
          Ret (if is_null item then (None, pr_end (parse_failed b), pr_error (parse_failed b))
               else (item, offset b, 0)))
  end.

Definition mem_Parse (value : str) : Mem ptr := r ← mem_ParseWithOpts (Some value) false; mret (fst (fst r)).

(** *** A reply *)

(** [CCnamHttpDriver::parse] (drivers/CnamHttpDriver.cpp): the text it puts in
    the request; [j] is deleted at every exit, by its [unique_ptr]. *)
Definition mem_cnam_parse (response : ptr) (data : str) : Mem str :=
  j ← mem_Parse (c_str data);
  match j with
  | None => lift (throw_driver #"failed to parse reply JSON" [])
  | Some _ =>
      n ← get_node j;
      if negb (n_type n =? cJSON_Object)%Z then
        mem_cJSON_Delete j;; lift (throw_driver #"expected JSON object in reply" [])
      else
        s ← (fun h => mem_wrap_reply (3 + size h) j response h);
        s ← lift (deref s);
        mret (c_str s)
  end.
End Parser.
