(* ===== verification/CJsonParseMemorySpec.v ===== *)
(** * Parsing JSON in memory: what it does

    The parser of CJsonParseMemory.v refines the one of CJson.v: it accepts
    the same texts, the item it returns shows the same value and owns all the
    blocks that were allocated, and when it fails it has freed every one. *)
From iris.bi Require Import bi.
From iris.proofmode Require Import proofmode.
From S2P Require Import Prelude.
From S2P Require Import CLib.
From S2P Require Import Exceptions.
From S2P Require Import CFloat.
From S2P Require Import CJson.
From S2P Require Import CJsonTree.
From S2P Require Import CJsonPrint.
From S2P Require Import CJsonSafety.
From S2P Require Import Protocol.
From S2P Require Import Driver.
From S2P Require Import Drivers.
From S2P Require Import DriversSpec.
From S2P Require Import HeapLogic.
From S2P Require Import CJsonMemory.
From S2P Require Import CJsonMemorySpec.
From S2P Require Import CJsonOwned.
From S2P Require Import CJsonParseMemory.

(** ** Definitions *)

(** A step on the buffer and the memory, seen as one on the memory. *)
Definition run_on {A} (m : MP A) (b : parse_buffer) : Mem (parse_buffer * A) := fun h =>
  match m (b, h) with ((b', h'), r) => (h', (fun a => (b', a)) <$> r) end.

Definition bwp {A} (b : parse_buffer) (m : MP A) (Q : parse_buffer → A → assertion) : assertion :=
  mwp (run_on m b) (fun x => Q (fst x) (snd x)).

(** The buffer and the memory at the end: as they should be, or [ko] when
    there was no memory. *)
Definition unless_failed `{Allocator block} (b' b'' : parse_buffer) (good ko : assertion) : assertion :=
  (pure (b'' = b') ∗ good ∨ pure malloc_fails ∗ ko)%I.

(** From the buffer [b], [M] does on the buffer what [m] does and returns;
    [ok] and [ko] say what it leaves in memory where [m] gives a value and
    where it fails; [M] may also fail where [malloc] does.  Nothing is said
    where [m] is undefined. *)
Definition refines `{Allocator block} {A B} (b : parse_buffer) (m : P A) (M : MP B) (ok : A → B → assertion) (ko : B → assertion) : assertion :=
  match m b with
  | (b', Ret a) => bwp b M (fun b'' r => unless_failed b' b'' (ok a r) (ko r))
  | (b', Throw _) => bwp b M (fun b'' r => unless_failed b' b'' (ko r) (ko r))
  | (_, Undef) => True
  end%I.

Definition never_throws {A} (m : P A) : Prop := ∀ b, match snd (m b) with Throw _ => False | _ => True end.

(** ** Lemmas: steps *)

Lemma bwp_ret {A} b (a : A) (Q : parse_buffer → A → assertion) : Q b a ⊢ bwp b (mret a) Q.
Proof. exact (mwp_ret (b, a) (fun x => Q (fst x) (snd x))). Qed.

Lemma bwp_wand {A} b (m : MP A) (Q R : parse_buffer → A → assertion) :
  bwp b m Q ∗ (∀ b' a, Q b' a -∗ R b' a) ⊢ bwp b m R.
Proof. iIntros "[Hm HR]". iApply mwp_wand. iFrame "Hm". iIntros ([b' a]) "H". by iApply "HR". Qed.

Lemma bwp_bind {A B} b (m : MP A) (k : A → MP B) (Q : parse_buffer → B → assertion) :
  bwp b m (fun b' a => bwp b' (k a) Q) ⊢ bwp b (m ≫= k) Q.
Proof.
  unfold bwp at 1 3. trans (mwp (run_on m b ≫= fun x => run_on (k (snd x)) (fst x)) (fun x => Q (fst x) (snd x))).
  - apply mwp_bind.
  - apply mwp_ext. intros h. unfold run_on, mbind, stM_mbind, stM_bind. by destruct (m (b, h)) as [[b' h'] [a|e|]].
Qed.

Lemma bwp_memory {A} b (m : Mem A) (Q : parse_buffer → A → assertion) :
  mwp m (Q b) ⊢ bwp b (in_memory m) Q.
Proof.
  unfold bwp. trans (mwp (m ≫= fun a => mret (b, a) : Mem (parse_buffer * A)) (fun x => Q (fst x) (snd x))).
  - iIntros "H". iApply mwp_bind. iApply mwp_wand. iFrame "H". iIntros (a) "H". by iApply mwp_ret.
  - apply mwp_ext. intros h. unfold run_on, in_memory, mbind, stM_mbind, stM_bind. cbn. by destruct (m h) as [h' [a|e|]].
Qed.

Lemma bwp_on_buffer {A} b b' (m : P A) r (Q : parse_buffer → option A → assertion) :
  m b = (b', r) → r ≠ Undef →
  Q b' (match r with Ret a => Some a | _ => None end) ⊢ bwp b (on_buffer m) Q.
Proof.
  intros Hm Hr. unfold bwp. trans (mwp (mret (b', match r with Ret a => Some a | _ => None end) : Mem (parse_buffer * option A)) (fun x => Q (fst x) (snd x))).
  - exact (mwp_ret (b', match r with Ret a => Some a | _ => None end) (fun x => Q (fst x) (snd x))).
  - apply mwp_ext. intros h. unfold run_on, on_buffer. cbn. rw Hm. by destruct r.
Qed.

Lemma bwp_buffer {A} b b' (m : P A) a (Q : parse_buffer → A → assertion) :
  m b = (b', Ret a) → Q b' a ⊢ bwp b (buffer m) Q.
Proof.
  intros Hm. iIntros "H". iApply bwp_bind. iApply bwp_on_buffer; [exact Hm|done|]. by iApply bwp_ret.
Qed.

Lemma mwp_run_on {A} b (m : MP A) (Q : parse_buffer → A → assertion) (R : parse_buffer * A → assertion) :
  bwp b m Q ∗ (∀ b' a, Q b' a -∗ R (b', a)) ⊢ mwp (run_on m b) R.
Proof. iIntros "[Hm HR]". iApply mwp_wand. iFrame "Hm". iIntros ([b' a]) "H". by iApply "HR". Qed.

(** ** Lemmas: refinement *)

Section Refines.
Context {alloc : Allocator block} {A B C D : Type}.
Implicit Types (b : parse_buffer) (X : assertion).

Lemma refines_ret b (c : C) (d : D) (ok : C → D → assertion) (ko : D → assertion) : ok c d ⊢ refines b (mret c) (mret d) ok ko.
Proof. iIntros "H". iApply bwp_ret. iLeft. by iFrame. Qed.

Lemma refines_fail b (d : D) (ok : C → D → assertion) (ko : D → assertion) : ko d ⊢ refines b fail (mret d) ok ko.
Proof. iIntros "H". iApply bwp_ret. iLeft. by iFrame. Qed.

(** Where [malloc] failed, only [ko] is left to show. *)
Lemma refines_no_memory b (m : P C) (M : MP D) (ok : C → D → assertion) (ko : D → assertion) :
  malloc_fails → bwp b M (fun _ r => ko r) ⊢ refines b m M ok ko.
Proof.
  intros Hm. unfold refines. destruct (m b) as [b' [c|e|]]; [| |by iIntros "_"];
    iIntros "H"; iApply bwp_wand; iFrame "H"; iIntros (b'' r) "H"; iRight; by iFrame.
Qed.

(** A part that reads the text in both. *)
Lemma refines_buffer b (m : P A) (k : A → P C) (K : A → MP D) (ok : C → D → assertion) (ko : D → assertion) X :
  never_throws m → (∀ a b', m b = (b', Ret a) → X ⊢ refines b' (k a) (K a) ok ko) →
  X ⊢ refines b (m ≫= k) (buffer m ≫= K) ok ko.
Proof.
  intros Hm Hk. specialize (Hm b). unfold refines, mbind at 1, stM_mbind, stM_bind.
  destruct (m b) as [b' [a|e|]] eqn:E; [|done|by iIntros "_"]. specialize (Hk a b' eq_refl). unfold refines in Hk.
  destruct (k a b') as [b'' [c|e|]]; [| |by iIntros "_"]; iIntros "H"; iApply bwp_bind; iApply bwp_buffer; try exact E; by iApply Hk.
Qed.

(** A part that may fail. *)
Lemma refines_try b (m : P A) (k : A → P C) (K : option A → MP D) (ok : C → D → assertion) (ko : D → assertion) X :
  (∀ a b', m b = (b', Ret a) → X ⊢ refines b' (k a) (K (Some a)) ok ko) →
  (∀ b' e, m b = (b', Throw e) → X ⊢ bwp b' (K None) (fun b'' r => unless_failed b' b'' (ko r) (ko r))) →
  X ⊢ refines b (m ≫= k) (on_buffer m ≫= K) ok ko.
Proof.
  intros Hk Hf. unfold refines, mbind at 1, stM_mbind, stM_bind.
  destruct (m b) as [b' [a|e|]] eqn:E; [| |by iIntros "_"].
  - specialize (Hk a b' eq_refl). unfold refines in Hk.
    destruct (k a b') as [b'' [c|e|]]; [| |by iIntros "_"];
      iIntros "H"; iApply bwp_bind; (iApply bwp_on_buffer; [exact E|done|]); by iApply Hk.
  - iIntros "H"; iApply bwp_bind; (iApply bwp_on_buffer; [exact E|done|]); by iApply Hf.
Qed.

(** A step on the memory only. *)
Lemma refines_memory b (m : P C) (M : Mem B) (K : B → MP D) (ok : C → D → assertion) (ko : D → assertion) :
  mwp M (fun r => refines b m (K r) ok ko) ⊢ refines b m (in_memory M ≫= K) ok ko.
Proof.
  unfold refines. destruct (m b) as [b' [c|e|]]; [| |by iIntros "_"]; iIntros "H"; iApply bwp_bind; by iApply bwp_memory.
Qed.

(** A call. *)
Lemma refines_call b (m : P A) (k : A → P C) (M : MP B) (K : B → MP D) (ok' : A → B → assertion) (ko' : B → assertion) (ok : C → D → assertion) (ko : D → assertion) :
  refines b m M ok' ko' ∗
  ((∀ a b' r, pure (m b = (b', Ret a)) -∗ ok' a r -∗ refines b' (k a) (K r) ok ko) ∧
   (∀ b' r, ko' r -∗ bwp b' (K r) (fun b'' r' => pure (b'' = b') ∗ ko r')))
  ⊢ refines b (m ≫= k) (M ≫= K) ok ko.
Proof.
  unfold refines, mbind at 1, stM_mbind, stM_bind. destruct (m b) as [b' [a|e|]] eqn:E; [| |by iIntros "_"].
  - iIntros "[HM HK]".
    destruct (k a b') as [b'' [c|e|]] eqn:Ek; [| |by iClear "HM HK"]; iApply bwp_bind; iApply bwp_wand; iFrame "HM";
      iIntros (b0 r) "[[-> Hr]|[%Hm Hr]]".
    1, 3: (iDestruct "HK" as "[HK _]"; iSpecialize ("HK" $! a b'); rw Ek; by iApply ("HK" with "[//]")).
    all: iDestruct "HK" as "[_ HK]"; iApply bwp_wand; (iSplitL; [by iApply "HK"|]); iIntros (b1 r') "[_ H]"; iRight; by iFrame.
  - iIntros "[HM [_ HK]]". iApply bwp_bind; iApply bwp_wand; iFrame "HM". iIntros (b0 r) "[[-> Hr]|[%Hm Hr]]";
      iApply bwp_wand; (iSplitL; [by iApply "HK"|]); iIntros (b1 r') "[-> H]"; [by iLeft; iFrame|iRight; by iFrame].
Qed.

Lemma refines_mono b (m : P C) (M : MP D) (ok' : C → D → assertion) (ko' : D → assertion) (ok : C → D → assertion) (ko : D → assertion) :
  refines b m M ok' ko' ∗ ((∀ c r, ok' c r -∗ ok c r) ∧ (∀ r, ko' r -∗ ko r)) ⊢ refines b m M ok ko.
Proof.
  unfold refines. destruct (m b) as [b' [c|e|]]; [| |by iIntros "_"].
  - iIntros "[HM HK]". iApply bwp_wand. iFrame "HM". iIntros (b0 r) "[[-> Hr]|[%Hm Hr]]"; [iLeft|iRight]; (iSplitR; [done|]).
    + iDestruct "HK" as "[HK _]". by iApply "HK".
    + iDestruct "HK" as "[_ HK]". by iApply "HK".
  - iIntros "[HM [_ HK]]". iApply bwp_wand. iFrame "HM". iIntros (b0 r) "[[-> Hr]|[%Hm Hr]]"; [iLeft|iRight]; (iSplitR; [done|]);
      by iApply "HK".
Qed.

Lemma refines_map b (m : P A) (g : A → C) (M : MP D) (ok : C → D → assertion) (ko : D → assertion) :
  refines b m M (fun a => ok (g a)) ko ⊢ refines b (m ≫= fun a => mret (g a)) M ok ko.
Proof. unfold refines, mbind, stM_mbind, stM_bind. by destruct (m b) as [b' [a|e|]]. Qed.
End Refines.

Lemma refines_ext `{Allocator block} {C D} b (m m' : P C) (M : MP D) ok ko : m b = m' b → refines b m' M ok ko ⊢ refines b m M ok ko.
Proof. unfold refines. by intros ->. Qed.

(** *** Parts that do not fail *)

Create HintDb no_throw.

Lemma never_throws_ret {A} (a : A) : never_throws (mret a).
Proof. by intros b. Qed.

Lemma never_throws_get : never_throws get.
Proof. by intros b. Qed.

Lemma never_throws_undef {A} : never_throws (undef : P A).
Proof. by intros b. Qed.

Lemma never_throws_modify f : never_throws (modify f).
Proof. by intros b. Qed.

Lemma never_throws_bind {A B} (m : P A) (k : A → P B) :
  never_throws m → (∀ a, never_throws (k a)) → never_throws (m ≫= k).
Proof.
  intros Hm Hk b. unfold mbind, stM_mbind, stM_bind. specialize (Hm b). destruct (m b) as [b' [a|e|]]; [apply Hk|done|done].
Qed.

#[export] Hint Resolve never_throws_ret never_throws_get never_throws_undef never_throws_modify : no_throw.
#[export] Hint Resolve never_throws_bind : no_throw.

(** [never_throws] of a composition of such parts. *)
Ltac no_throw :=
  intros; repeat (cbv zeta; first
    [ apply never_throws_bind; intros
    | case_match
    | solve [auto with no_throw] ]).

Lemma never_throws_set_offset o : never_throws (set_offset o).
Proof. unfold set_offset. no_throw. Qed.
Lemma never_throws_set_depth d : never_throws (set_depth d).
Proof. unfold set_depth. no_throw. Qed.
Lemma never_throws_can_access i : never_throws (can_access_at_index i).
Proof. unfold can_access_at_index. no_throw. Qed.
Lemma never_throws_read_abs i : never_throws (read_abs i).
Proof. unfold read_abs. no_throw. Qed.
#[export] Hint Resolve never_throws_set_offset never_throws_set_depth never_throws_can_access never_throws_read_abs : no_throw.

Lemma never_throws_advance n : never_throws (advance n).
Proof. unfold advance. no_throw. Qed.
Lemma never_throws_retreat : never_throws retreat.
Proof. unfold retreat. no_throw. Qed.
Lemma never_throws_read_at i : never_throws (read_at i).
Proof. unfold read_at. no_throw. Qed.
#[export] Hint Resolve never_throws_advance never_throws_retreat never_throws_read_at : no_throw.

Lemma never_throws_at_char test : never_throws (at_char test).
Proof. unfold at_char. no_throw. Qed.
#[export] Hint Resolve never_throws_at_char : no_throw.

Lemma never_throws_looking_at c : never_throws (looking_at c).
Proof. apply never_throws_at_char. Qed.
Lemma never_throws_strncmp lit : ∀ i, never_throws (strncmp_at i lit).
Proof. induction lit as [|c lit IH]; cbn [strncmp_at]; no_throw. Qed.
Lemma never_throws_skip_loop fuel : never_throws (skip_whitespace_loop fuel).
Proof. induction fuel as [|fuel IH]; cbn [skip_whitespace_loop]; no_throw. Qed.
Lemma never_throws_push size out bytes : never_throws (push size out bytes).
Proof. unfold push. no_throw. Qed.
Lemma never_throws_scan fuel : ∀ input_end skipped, never_throws (scan_string fuel input_end skipped).
Proof. induction fuel as [|fuel IH]; cbn [scan_string]; no_throw. Qed.
#[export] Hint Resolve never_throws_looking_at never_throws_strncmp never_throws_skip_loop never_throws_push never_throws_scan : no_throw.

Lemma never_throws_skip : never_throws buffer_skip_whitespace.
Proof. unfold buffer_skip_whitespace. no_throw. Qed.
Lemma never_throws_literal lit : never_throws (literal lit).
Proof. unfold literal, can_read. no_throw. Qed.
#[export] Hint Resolve never_throws_skip never_throws_literal : no_throw.

(** ** Lemmas: one item *)

Section Parser.
Context {alloc : Allocator block}.

(** What a parsing function leaves: the item with its value, or an item that
    may be anything. *)
Definition parsed l pv nx (i : cJSON) (r : bool) : assertion := (pure (r = true) ∗ own_item l pv nx i)%I.
Definition failed l pv nx (r : bool) : assertion := (pure (r = false) ∗ ∃ i, own_item l pv nx i)%I.

(** An item before its value is parsed. *)
Definition blank (i : cJSON) : Prop := plain (jtype i) ∧ valuestring i = None ∧ child i = [].

Lemma parse_number_refines b l pv nx i :
  own_item l pv nx i ⊢ refines b (parse_number i) (mem_parse_number (Some l)) (parsed l pv nx) (failed l pv nx).
Proof.
  trans (refines b (n ← parse_number cJSON_New_Item;
                    mret (set_jtype cJSON_Number (set_valueint (valueint n) (set_valuedouble (valuedouble n) i))))
           (mem_parse_number (Some l)) (parsed l pv nx) (failed l pv nx)).
  - apply refines_try.
    + intros n b' _. iIntros "Hi". iApply refines_memory. iApply (mwp_update _ _ _ i); last first.
      { iFrame "Hi". iIntros "Hi". iApply refines_ret. by iFrame. }
      all: done.
    + intros b' e _. iIntros "Hi". iApply bwp_ret. iLeft. iSplitR; [done|]. iSplitR; [done|]. by iExists i.
  - apply refines_ext. unfold parse_number, mbind, stM_mbind, stM_bind.
    destruct (number_chars 63 0 b) as [b' [s|e|]]; [|done|done]. destruct (strtod s) as [d k].
    destruct (k =? 0)%nat; [done|]. destruct (lift (saturate d) b') as [b1 [v|e|]]; [|done|done].
    by destruct (advance k b1) as [b2 [u|e|]].
Qed.

Lemma string_fail_refines {C} b ip l pv nx i (ok : C → bool → assertion) :
  own_item l pv nx i ⊢ refines b (string_fail ip) (mem_string_fail ip) ok (failed l pv nx).
Proof.
  apply refines_buffer; [auto with no_throw|]. intros [] b' _. iIntros "Hi". iApply refines_fail. iSplitR; [done|]. by iExists i.
Qed.

(** A string for which there is no memory. *)
Lemma string_no_memory {C} b (m : P C) ip l pv nx i (ok : C → bool → assertion) :
  malloc_fails → own_item l pv nx i ⊢ refines b m (mem_string_fail ip) ok (failed l pv nx).
Proof.
  intros Hm. iIntros "Hi". iApply refines_no_memory; [done|]. iApply bwp_bind. iApply (bwp_buffer b); [reflexivity|].
  iApply bwp_ret. iSplitR; [done|]. by iExists i.
Qed.

Lemma parse_string_refines b l pv nx i :
  valuestring i = None →
  own_item l pv nx i ⊢ refines b (parse_string i) (mem_parse_string (Some l)) (parsed l pv nx) (failed l pv nx).
Proof.
  intros Hs. unfold parse_string, mem_parse_string. apply refines_buffer; [auto with no_throw|]. intros b0 b' _.
  apply refines_buffer; [auto with no_throw|]. intros q b1 _. case_match; [apply string_fail_refines|].
  apply refines_buffer; [auto with no_throw|]. intros r b2 _. destruct r as [[input_end skipped]|]; [|apply string_fail_refines].
  case_match; [apply string_fail_refines|]. apply refines_buffer; [auto with no_throw|]. intros c b3 _.
  case_match; [apply string_fail_refines|]. iIntros "Hi". iApply refines_memory. iApply mwp_allocate.
  iSplit; [|by iIntros (Hm); iApply string_no_memory]. iIntros (lo) "Ho". cbn [is_null].
  iAssert (own_item l pv nx i ∗ lo ↦ Chars [])%I with "[$Hi $Ho]" as "H". iStopProof. apply refines_try.
  - intros out b4 _. apply refines_buffer; [auto with no_throw|]. intros s b5 _. iIntros "[Hi Ho]".
    iApply refines_memory. iApply mwp_store. iFrame "Ho". iIntros "Ho".
    iApply refines_memory. iApply (mwp_update _ _ _ i (set_jtype cJSON_String i)); [done|done|done|done|done|]. iFrame "Hi". iIntros "Hi".
    iApply refines_memory. iApply (mwp_set_valuestring _ _ _ (set_jtype cJSON_String i)); [done|]. iFrame "Hi Ho". iIntros "Hi".
    iStopProof. apply refines_buffer; [auto with no_throw|]. intros u b6 _. iIntros "Hi". iApply refines_ret. by iFrame.
  - intros b4 e _. iIntros "[Hi Ho]". iApply bwp_bind. iApply bwp_memory. iApply mwp_deallocate. iFrame "Ho".
    iApply bwp_ret. iLeft. iSplitR; [done|]. iSplitR; [done|]. by iExists i.
Qed.

(** A step of the memory program alone. *)
Lemma refines_step {B C D} b (m : P C) (M : MP B) (K : B → MP D) ok ko :
  bwp b M (fun b' r => pure (b' = b) ∗ refines b m (K r) ok ko) ⊢ refines b m (M ≫= K) ok ko.
Proof.
  unfold refines. destruct (m b) as [b' [c|e|]]; [| |by iIntros "_"]; iIntros "H"; iApply bwp_bind; iApply bwp_wand; iFrame "H";
    iIntros (b0 r) "[-> H]"; iExact "H".
Qed.

Lemma new_item_blank : blank cJSON_New_Item.
Proof. done. Qed.

Lemma append_item_spec b head current ts :
  own_chain head None ts None current
  ⊢ bwp b (mem_append_item head current) (λ b' r, pure (b' = b) ∗
      match r with
      | Some (head', current') => ∃ l lm, pure (current' = Some l) ∗
          own_chain head' None ts (Some l) lm ∗ own_item l lm None cJSON_New_Item
      | None => pure malloc_fails ∗ own_chain head None ts None current
      end).
Proof.
  iIntros "Hc". iApply bwp_bind. iApply bwp_memory. iApply mwp_wand. iSplitR; [by iApply new_item_spec|].
  iIntros (r) "[(%l & -> & Hl)|%Hm]".
  2: { destruct Hm as [-> Hm]. iApply bwp_ret. by iFrame. }
  cbn [is_null]. destruct ts as [|t ts].
  - iDestruct "Hc" as %[-> ->]. iApply bwp_ret. iSplitR; [done|]. iExists l, None. by iFrame.
  - destruct head as [lh|]; [|by iDestruct "Hc" as (??) "(%Hx & Hc)"]. cbn [is_null].
    destruct (exists_last (l := t :: ts)) as (ts' & t' & ->); [done|].
    iApply bwp_bind. iApply bwp_memory. iApply mwp_last_next. iFrame "Hc". iIntros "Hc".
    iApply bwp_bind. iApply bwp_memory. iApply mwp_set_prev. iFrame "Hl". iIntros "Hl". iApply bwp_ret. iSplitR; [done|].
    iExists l, current. by iFrame.
Qed.

(** [parse_string] changes the kind and the string. *)
Lemma parse_string_value i b b' i' : parse_string i b = (b', Ret i') →
  ∃ out, i' = set_jtype cJSON_String (set_valuestring (Some out) i).
Proof.
  unfold parse_string. intros E. repeat match type of E with
    | (?m ≫= ?k) ?b = _ =>
        unfold mbind at 1, stM_mbind, stM_bind in E; cbv zeta beta in E; destruct (m b) as [? [?|?|]]; [|done|done]
    | (match ?x with _ => _ end) _ = _ => destruct x
    | string_fail _ _ = _ => done
    end.
  injection E as _ <-. by eexists.
Qed.

(** [item->string = item->valuestring; item->valuestring = NULL], where there
    was no name. *)
Lemma refines_swap {C} b l pv nx i (m : P C) (K : unit → MP bool) ok ko :
  pure (name i = None) ∗ own_item l pv nx i ∗
  (own_item l pv nx (set_valuestring None (set_name (valuestring i) i)) -∗ refines b m (K tt) ok ko)
  ⊢ refines b m (in_memory (set_node (Some l) (fun n => with_string (n_valuestring n) n));;
                 u ← in_memory (set_node (Some l) (with_valuestring None)); K u) ok ko.
Proof.
  iIntros "(%Hn & Hi & HQ)". rw !own_item_unfold.
  iDestruct "Hi" as (n lst) "(%Hl & %Hd & %Hk & Hl & Htext & Hname & Hc)". rw Hn. iDestruct "Hname" as "_".
  iApply refines_memory. iApply mwp_set_node. iFrame "Hl". iIntros "Hl".
  iApply refines_memory. iApply mwp_set_node. iFrame "Hl". iIntros "Hl". iApply "HQ".
  iExists _, lst. iFrame "Hl". cbn. iFrame "Htext Hc". by repeat iSplit.
Qed.

Section Containers.
Variables (value : cJSON → P cJSON) (mem_value : ptr → MP bool).
Hypothesis value_refines : ∀ b l pv nx i, blank i →
  own_item l pv nx i ⊢ refines b (value i) (mem_value (Some l)) (parsed l pv nx) (failed l pv nx).

(** What the loops leave. *)
Definition items_parsed (ts items : list cJSON) (r : ptr * bool) : assertion :=
  (pure (snd r = true) ∗ ∃ lst, own_chain (fst r) None (ts ++ items) None lst)%I.
Definition items_failed (r : ptr * bool) : assertion :=
  (pure (snd r = false) ∗ ∃ ts lst, own_chain (fst r) None ts None lst)%I.

Lemma failed_items head ts l lm i :
  own_chain head None ts (Some l) lm ∗ own_item l lm None i ⊢ items_failed (head, false).
Proof.
  iIntros "H". iSplitR; [done|]. iExists (ts ++ [i]), (Some l). by iApply chain_snoc.
Qed.

Lemma no_item {C} b (m : P C) head ts lst (ok : C → ptr * bool → assertion) :
  malloc_fails → own_chain head None ts None lst ⊢ refines b m (mret (head, false)) ok items_failed.
Proof.
  intros Hm. iIntros "Hc". iApply refines_no_memory; [done|]. iApply bwp_ret. iSplitR; [done|]. by iExists ts, lst.
Qed.

Lemma array_loop_refines fuel : ∀ b head current ts,
  own_chain head None ts None current
  ⊢ refines b (array_loop value fuel) (mem_array_loop mem_value fuel head current) (items_parsed ts) items_failed.
Proof.
  induction fuel as [|fuel IH]; intros b head current ts; [by iIntros "_"|]. cbn [array_loop mem_array_loop].
  iIntros "Hc". iApply refines_step. iApply bwp_wand. iSplitL; [by iApply append_item_spec|].
  iIntros (b0 [[head' cur]|]) "[-> H]"; (iSplitR; [done|]); [|iDestruct "H" as "[%Hm Hc]"; by iApply no_item].
  iDestruct "H" as (l lm) "(-> & Hc & Hi)".
  iAssert (own_chain head' None ts (Some l) lm ∗ own_item l lm None cJSON_New_Item)%I with "[$Hc $Hi]" as "H". iStopProof.
  apply refines_buffer; [auto with no_throw|]. intros u1 b1 _. apply refines_buffer; [auto with no_throw|]. intros u2 b2 _.
  iIntros "[Hc Hi]". iApply refines_call. iSplitL "Hi"; [iApply (value_refines with "Hi"); apply new_item_blank|]. iSplit.
  - iIntros (i b3 r) "_ [-> Hi]". cbn [negb].
    iAssert (own_chain head' None (ts ++ [i]) None (Some l)) with "[Hc Hi]" as "Hc"; [iApply chain_snoc; iFrame|]. iStopProof.
    apply refines_buffer; [auto with no_throw|]. intros u4 b4 _. apply refines_buffer; [auto with no_throw|]. intros comma b5 _.
    destruct comma.
    + iIntros "Hc". iApply refines_map. iApply refines_mono. iSplitL; [iApply (IH with "Hc")|]. iSplit.
      * iIntros (items r) "[%Hr Hc]". iSplitR; [done|]. by rw -app_assoc.
      * iIntros (r) "H". iExact "H".
    + iIntros "Hc". iApply refines_ret. iSplitR; [done|]. by iExists (Some l).
  - iIntros (b3 r) "[-> (%i & Hi)]". iApply bwp_ret. iSplitR; [done|]. iApply failed_items. by iFrame.
Qed.

Lemma object_entry_refines b l lm :
  own_item l lm None cJSON_New_Item
  ⊢ refines b (object_entry value) (mem_object_entry mem_value (Some l)) (parsed l lm None) (failed l lm None).
Proof.
  apply refines_buffer; [auto with no_throw|]. intros u1 b1 _. apply refines_buffer; [auto with no_throw|]. intros u2 b2 _.
  iIntros "Hi". iApply refines_call. iSplitL "Hi"; [by iApply parse_string_refines|]. iSplit.
  - iIntros (i b3 r) "%E [-> Hi]". apply parse_string_value in E as [out ->]. cbn [negb].
    iStopProof. apply refines_buffer; [auto with no_throw|]. intros u4 b4 _. iIntros "Hi".
    iApply refines_swap. iFrame "Hi". iSplitR; [done|]. iIntros "Hi".
    iStopProof. apply refines_buffer; [auto with no_throw|]. intros colon b5 _. destruct colon; cbn [negb].
    + apply refines_buffer; [auto with no_throw|]. intros u6 b6 _. apply refines_buffer; [auto with no_throw|]. intros u7 b7 _.
      iIntros "Hi". iApply refines_call. iSplitL "Hi"; [iApply (value_refines with "Hi"); done|]. iSplit.
      * iIntros (i b8 r) "_ [-> Hi]". cbn [negb]. iStopProof. apply refines_buffer; [auto with no_throw|]. intros u9 b9 _.
        iIntros "Hi". iApply refines_ret. by iFrame.
      * iIntros (b8 r) "[-> H]". iApply bwp_ret. iSplitR; [done|]. by iFrame.
    + iIntros "Hi". iApply refines_fail. iSplitR; [done|]. iExists _. iExact "Hi".
  - iIntros (b3 r) "[-> H]". iApply bwp_ret. iSplitR; [done|]. by iFrame.
Qed.

Lemma object_loop_refines fuel : ∀ b head current ts,
  own_chain head None ts None current
  ⊢ refines b (object_loop value fuel) (mem_object_loop mem_value fuel head current) (items_parsed ts) items_failed.
Proof.
  induction fuel as [|fuel IH]; intros b head current ts; [by iIntros "_"|]. cbn [object_loop mem_object_loop].
  iIntros "Hc". iApply refines_step. iApply bwp_wand. iSplitL; [by iApply append_item_spec|].
  iIntros (b0 [[head' cur]|]) "[-> H]"; (iSplitR; [done|]); [|iDestruct "H" as "[%Hm Hc]"; by iApply no_item].
  iDestruct "H" as (l lm) "(-> & Hc & Hi)".
  iApply refines_call. iSplitL "Hi"; [by iApply object_entry_refines|]. iSplit.
  - iIntros (i b3 r) "_ [-> Hi]". cbn [negb].
    iAssert (own_chain head' None (ts ++ [i]) None (Some l)) with "[Hc Hi]" as "Hc"; [iApply chain_snoc; iFrame|]. iStopProof.
    apply refines_buffer; [auto with no_throw|]. intros comma b5 _. destruct comma.
    + iIntros "Hc". iApply refines_map. iApply refines_mono. iSplitL; [iApply (IH with "Hc")|]. iSplit.
      * iIntros (items r) "[%Hr Hc]". iSplitR; [done|]. by rw -app_assoc.
      * iIntros (r) "H". iExact "H".
    + iIntros "Hc". iApply refines_ret. iSplitR; [done|]. by iExists (Some l).
  - iIntros (b3 r) "[-> (%i & Hi)]". iApply bwp_ret. iSplitR; [done|]. iApply failed_items. by iFrame.
Qed.

(** [cJSON_Delete] of a list that may be empty. *)
Lemma delete_list head ts lst :
  own_chain head None ts None lst
  ⊢ mwp (when (negb (is_null head)) (mem_cJSON_Delete head)) (λ _, emp).
Proof.
  destruct ts as [|t ts].
  - iIntros "%E". destruct E as [-> _]. by iApply mwp_when_false.
  - iIntros "Hc". destruct head as [l|]; [|by iDestruct "Hc" as (??) "(%Hx & Hc)"]. cbn [is_null negb when].
    by iApply cJSON_Delete_frees.
Qed.

Lemma container_refines opening closing jt (items : nat → P (list cJSON)) (mem_items : nat → ptr → ptr → MP (ptr * bool)) b l pv nx i :
  (∀ n b, emp ⊢ refines b (items n) (mem_items n None None) (items_parsed []) items_failed) →
  plain jt → blank i →
  own_item l pv nx i
  ⊢ refines b (container opening closing jt items i) (mem_container closing jt mem_items (Some l))
      (parsed l pv nx) (failed l pv nx).
Proof.
  intros Hitems Hjt (Hp & Hs & Hc). unfold container, mem_container.
  apply refines_buffer; [auto with no_throw|]. intros u1 b1 _. apply refines_buffer; [auto with no_throw|]. intros u2 b2 _.
  apply refines_buffer; [auto with no_throw|]. intros empty b3 _. iIntros "Hi".
  iApply (refines_call _ _ _ _ _ (λ items r, pure (snd r = true) ∗ ∃ lst, own_chain (fst r) None items None lst)%I items_failed).
  iSplitR.
  { destruct empty.
    - iApply refines_ret. iSplitR; [done|]. by iExists None.
    - iStopProof. apply refines_buffer; [auto with no_throw|]. intros ok b4 _. destruct ok; cbn [negb].
      + apply refines_buffer; [auto with no_throw|]. intros u5 b5 _. apply refines_buffer; [auto with no_throw|]. intros b' b6 _.
        iIntros "_". iApply refines_call. iSplitR; [by iApply Hitems|]. iSplit.
        * iIntros (ts b7 [head ok]) "_ [%Hr Hc]". cbn [fst snd] in *. subst ok. cbn [negb]. iStopProof.
          apply refines_buffer; [auto with no_throw|]. intros fin b8 _. destruct fin; cbn [negb].
          -- iIntros "Hc". iApply refines_ret. by iFrame.
          -- iIntros "(%lst & Hc)". iApply refines_fail. iSplitR; [done|]. iExists ts, lst. iExact "Hc".
        * iIntros (b7 [head ok]) "[%Hr H]". cbn [fst snd] in *. subst ok. cbn [negb]. iApply bwp_ret. iSplitR; [done|]. by iFrame.
      + apply refines_buffer; [auto with no_throw|]. intros u5 b5 _. iIntros "_". iApply refines_fail.
        iSplitR; [done|]. by iExists [], None. }
  iSplit.
  - iIntros (ts b4 [head ok]) "_ [%Hr (%lst & Hc)]". cbn [fst snd] in *. subst ok. cbn [negb].
    iAssert (own_item l pv nx i ∗ own_chain head None ts None lst)%I with "[$Hi $Hc]" as "H". iStopProof.
    apply refines_buffer; [auto with no_throw|]. intros b' b5 _. apply refines_buffer; [destruct (depth b'); auto with no_throw|].
    intros u6 b6 _. iIntros "[Hi Hc]". iApply refines_memory. iApply (mwp_update _ _ _ i (set_jtype jt i)); [done|done|done|done|done|].
    iFrame "Hi". iIntros "Hi". iApply refines_memory. iApply (mwp_set_child _ _ _ (set_jtype jt i)); [done|]. iFrame "Hi Hc". iIntros "Hi".
    iStopProof. apply refines_buffer; [auto with no_throw|]. intros u7 b7 _. iIntros "Hi". iApply refines_ret. by iFrame.
  - iIntros (b4 [head ok]) "[%Hr (%ts & %lst & Hc)]". cbn [fst snd] in *. subst ok. cbn [negb].
    iApply bwp_bind. iApply bwp_memory. iApply mwp_wand. iSplitL "Hc"; [by iApply delete_list|]. iIntros (u) "_".
    iApply bwp_ret. iSplitR; [done|]. iSplitR; [done|]. by iExists i.
Qed.

Lemma loops_from_nothing (items : nat → P (list cJSON)) (mem_items : nat → ptr → ptr → MP (ptr * bool)) :
  (∀ fuel b head current ts, own_chain head None ts None current
     ⊢ refines b (items fuel) (mem_items fuel head current) (items_parsed ts) items_failed) →
  ∀ n b, emp ⊢ refines b (items n) (mem_items n None None) (items_parsed []) items_failed.
Proof. intros H n b. iIntros "_". iApply (H n b None None []). done. Qed.

Lemma parse_array_refines b l pv nx i : blank i →
  own_item l pv nx i ⊢ refines b (parse_array value i) (mem_parse_array mem_value (Some l)) (parsed l pv nx) (failed l pv nx).
Proof.
  intros Hi. apply refines_buffer; [auto with no_throw|]. intros b' b1 _. case_match.
  { iIntros "Hi". iApply refines_fail. iSplitR; [done|]. by iExists i. }
  apply refines_buffer; [auto with no_throw|]. intros u2 b2 _. apply refines_buffer; [auto with no_throw|]. intros c b3 _. case_match.
  { iIntros "Hi". iApply refines_fail. iSplitR; [done|]. by iExists i. }
  apply container_refines; [|done|done]. apply loops_from_nothing, array_loop_refines.
Qed.

Lemma parse_object_refines b l pv nx i : blank i →
  own_item l pv nx i ⊢ refines b (parse_object value i) (mem_parse_object mem_value (Some l)) (parsed l pv nx) (failed l pv nx).
Proof.
  intros Hi. apply refines_buffer; [auto with no_throw|]. intros b' b1 _. case_match.
  { iIntros "Hi". iApply refines_fail. iSplitR; [done|]. by iExists i. }
  apply refines_buffer; [auto with no_throw|]. intros u2 b2 _. apply refines_buffer; [auto with no_throw|]. intros c b3 _. case_match.
  { iIntros "Hi". iApply refines_fail. iSplitR; [done|]. by iExists i. }
  apply container_refines; [|done|done]. apply loops_from_nothing, object_loop_refines.
Qed.
End Containers.

(** [item->type = jt; input_buffer->offset += n;] for a literal. *)
Lemma literal_refines b n jt l pv nx i : plain jt →
  own_item l pv nx i
  ⊢ refines b (advance n;; mret (set_jtype jt i))
      (in_memory (set_node (Some l) (with_type jt));; buffer (advance n);; mret true) (parsed l pv nx) (failed l pv nx).
Proof.
  intros Hjt. iIntros "Hi". iApply refines_memory. iApply (mwp_update _ _ _ i (set_jtype jt i)); [done|done|done|done|done|].
  iFrame "Hi". iIntros "Hi". iStopProof. apply refines_buffer; [auto with no_throw|]. intros u b1 _. iIntros "Hi".
  iApply refines_ret. by iFrame.
Qed.

Lemma parse_value_refines fuel : ∀ b l pv nx i, blank i →
  own_item l pv nx i ⊢ refines b (parse_value fuel i) (mem_parse_value fuel (Some l)) (parsed l pv nx) (failed l pv nx).
Proof.
  induction fuel as [|fuel IH]; intros b l pv nx i Hi; [by iIntros "_"|]. cbn [parse_value mem_parse_value].
  apply refines_buffer; [auto with no_throw|]. intros [] b1 _; [by apply literal_refines|].
  apply refines_buffer; [auto with no_throw|]. intros [] b2 _; [by apply literal_refines|].
  apply refines_buffer; [auto with no_throw|]. intros [] b3 _.
  { iIntros "Hi". iApply refines_memory. iApply (mwp_update _ _ _ i (set_jtype cJSON_True i)); [done|done|done|done|done|].
    iFrame "Hi". iIntros "Hi". iApply refines_memory.
    iApply (mwp_update _ _ _ (set_jtype cJSON_True i) (set_valueint 1 (set_jtype cJSON_True i))); [done|done|done|done|done|].
    iFrame "Hi". iIntros "Hi". iStopProof. apply refines_buffer; [auto with no_throw|]. intros u b4 _. iIntros "Hi".
    iApply refines_ret. by iFrame. }
  apply refines_buffer; [auto with no_throw|]. intros [] b4 _; [by apply parse_string_refines, Hi|].
  apply refines_buffer; [auto with no_throw|]. intros [] b5 _; [apply parse_number_refines|].
  apply refines_buffer; [auto with no_throw|]. intros [] b6 _; [by apply parse_array_refines|].
  apply refines_buffer; [auto with no_throw|]. intros [] b7 _; [by apply parse_object_refines|].
  iIntros "Hi". iApply refines_fail. iSplitR; [done|]. by iExists i.
Qed.

(** ** Lemmas: the entry points *)

Lemma parse_document_refines require_null_terminated b l :
  own_item l None None cJSON_New_Item
  ⊢ refines b (parse_document require_null_terminated) (mem_parse_document require_null_terminated (Some l))
      (parsed l None None) (failed l None None).
Proof.
  trans (refines b (u ← (skip_utf8_bom;; buffer_skip_whitespace);
                    item ← parse_value parse_fuel cJSON_New_Item;
                    if require_null_terminated then
                      buffer_skip_whitespace;; b ← get;
                      if (blength b <=? offset b)%nat then fail else
                      c ← read_at 0; if Ascii.eqb c NUL then mret item else fail
                    else mret item)
           (mem_parse_document require_null_terminated (Some l)) (parsed l None None) (failed l None None)).
  - apply refines_try.
    + intros u b1 _. iIntros "Hi". iApply refines_call. iSplitL "Hi"; [by iApply parse_value_refines|]. iSplit.
      * iIntros (i b2 r) "_ [-> Hi]". cbn [negb]. iStopProof. destruct require_null_terminated.
        -- apply refines_buffer; [auto with no_throw|]. intros u3 b3 _. apply refines_buffer; [auto with no_throw|]. intros b' b4 _.
           case_match; [iIntros "Hi"; iApply refines_fail; iSplitR; [done|]; by iExists i|].
           apply refines_buffer; [auto with no_throw|]. intros c b5 _. case_match; iIntros "Hi".
           ++ iApply refines_ret. by iFrame.
           ++ iApply refines_fail. iSplitR; [done|]. by iExists i.
        -- iIntros "Hi". iApply refines_ret. by iFrame.
      * iIntros (b2 r) "[-> H]". iApply bwp_ret. iSplitR; [done|]. by iFrame.
    + intros b1 e _. iIntros "Hi". iApply bwp_ret. iLeft. iSplitR; [done|]. iSplitR; [done|]. by iExists _.
  - apply refines_ext. unfold parse_document, mbind, stM_mbind, stM_bind.
    by destruct (skip_utf8_bom b) as [b1 [u|e|]].
Qed.

(** What [cJSON_ParseWithOpts] leaves: what the parser on values says, or,
    where there was no memory, a null pointer. *)
Definition parse_outcome (r : parse_result) (x : ptr * nat * nat) : assertion :=
  (pure (snd (fst x) = pr_end r ∧ snd x = pr_error r) ∗ alone_or_null (fst (fst x)) (pr_item r) ∨
   pure (malloc_fails ∧ fst (fst x) = None))%I.

(** The whole of [cJSON_ParseWithOpts], for a text on which the parser is
    defined. *)
Lemma ParseWithOpts_spec value require_null_terminated r :
  (cJSON_ParseWithOpts (Some value) require_null_terminated : outcome exn parse_result) = Ret r →
  emp ⊢ mwp (mem_ParseWithOpts (Some value) require_null_terminated) (parse_outcome r).
Proof.
  intros Hr. unfold cJSON_ParseWithOpts in Hr. set (text := c_str value ++ [NUL]) in *.
  set (b := {| content := text; blength := length text; offset := 0; depth := 0 |}) in *.
  set (inner := item ← in_memory mem_New_Item;
                if is_null item then mret None else
                parsed ← mem_parse_document require_null_terminated item;
                if (parsed : bool) then mret item else in_memory (mem_cJSON_Delete item);; mret None).
  set (result := fun (b : parse_buffer) (item : ptr) =>
    if is_null item then (None, pr_end (parse_failed b), pr_error (parse_failed b)) else (item, offset b, 0)).
  trans (mwp (x ← run_on inner b; mret (result (fst x) (snd x))) (parse_outcome r)).
  - iIntros "_". iApply mwp_bind. iApply (mwp_run_on _ _ (λ b' item, parse_outcome r (result b' item))).
    iSplitL; [|iIntros (b' item) "H"; by iApply mwp_ret].
    iApply bwp_bind. iApply bwp_memory. iApply mwp_wand. iSplitR; [by iApply new_item_spec|].
    iIntros (item) "[(%l & -> & Hi)|%Hm]"; [|destruct Hm as [-> Hm]; iApply bwp_ret; by iRight].
    cbn [is_null]. iApply bwp_bind. iDestruct (parse_document_refines require_null_terminated b with "Hi") as "Hd". unfold refines.
    assert (Hfreed : ∀ b0, (pure (b0 = fst (parse_document require_null_terminated b) ∧ pr_item r = None ∧
          r = parse_failed b0 ∨ malloc_fails) ∗ ∃ i, own_item l None None i)
        ⊢ bwp b0 (in_memory (mem_cJSON_Delete (Some l));; mret None) (λ b' item, parse_outcome r (result b' item))).
    { intros b0. iIntros "[%Hb (%i & Hi)]". iApply bwp_bind. iApply bwp_memory. iApply mwp_wand.
      iSplitL "Hi"; [by iApply cJSON_Delete_alone|]. iIntros (u) "_". iApply bwp_ret.
      destruct Hb as [(_ & Hn & ->)|Hm]; [iLeft|by iRight]. by iSplit. }
    destruct (parse_document require_null_terminated b) as [b' [i|e|]]; [| |done]; injection Hr as <-;
      iApply bwp_wand; iFrame "Hd"; iIntros (b0 ok) "[[-> [-> Hi]]|[%Hm [-> Hi]]]".
    + iApply bwp_ret. iLeft. iSplitR; [done|]. iExists l. by iFrame.
    + iApply Hfreed. iFrame "Hi". iPureIntro. by right.
    + iApply Hfreed. iFrame "Hi". iPureIntro. by left.
    + iApply Hfreed. iFrame "Hi". iPureIntro. by right.
  - apply mwp_ext. intros h. unfold mem_ParseWithOpts. cbv zeta. fold text. fold b. fold inner.
    unfold run_on, mbind at 1, stM_mbind, stM_bind. by destruct (inner (b, h)) as [[b' h'] [item|e|]].
Qed.

(** *** The CNAM reply *)

Lemma Parse_spec value o :
  (cJSON_Parse value : outcome exn (option cJSON)) = Ret o →
  emp ⊢ mwp (mem_Parse value) (λ p, alone_or_null p o ∨ pure (malloc_fails ∧ p = None)).
Proof.
  intros Ho. destruct (@cJSON_ParseWithOpts_runs exn value false) as (r & Er & _).
  unfold cJSON_Parse in Ho. rw Er in Ho. injection Ho as <-. iIntros "_". iApply mwp_bind. iApply mwp_wand. iSplitR; [by iApply ParseWithOpts_spec|].
  iIntros (x) "[[_ H]|%H]"; iApply mwp_ret; [by iLeft|by iRight].
Qed.

(** The type of the reply read. *)
Lemma own_alone_type l t :
  own_item l None None t ⊢ mwp (get_node (Some l)) (λ n, pure (n_type n = jtype t) ∗ own_item l None None t).
Proof.
  iIntros "Ht". iEval (rw own_item_unfold) in "Ht". iDestruct "Ht" as (n lst) "(%Hn & %Hd & %Hb & Hl & Htext & Hname & Hc)".
  iApply mwp_get_node. iFrame "Hl". iIntros "Hl". iSplitR; [iPureIntro; by destruct Hd|].
  rw own_item_unfold. iExists n, lst. by iFrame.
Qed.

Lemma response_printed data t : response_fits data →
  (cJSON_Parse (c_str data) : M (option cJSON)) = Ret (Some t) → jtype t = cJSON_Object →
  (cJSON_PrintUnformatted (set_child [reference_to t #"response"] cJSON_CreateObject) : outcome exn (option str))
  = Ret (Some (c_str (wrapped t))).
Proof.
  intros Hf Hp Ht. rw -(response_text_eq data t Hf Hp Ht). by destruct t.
Qed.

Lemma wrapping_spec l t k o : ¬ malloc_fails → jtype t = cJSON_Object →
  (cJSON_PrintUnformatted (set_child [reference_to t #"response"] cJSON_CreateObject) : outcome exn (option str)) = Ret o →
  own_item l None None t ∗ k ↦ Chars #"response"
  ⊢ mwp (λ h, mem_wrap_reply (3 + size h) (Some l) (Some k) h) (λ r, pure (r = o) ∗ k ↦ Chars #"response").
Proof.
  intros Hm Ht Ho. apply (mwp_sized 3 (weight t) (fun f => mem_wrap_reply f (Some l) (Some k))).
  - rw -(Nat.add_0_r (weight t)). apply at_least_sep; [by eapply own_item_size|apply at_least_0].
  - intros f Hf. apply wrap_reply_spec; [done|lia|by rw Ht|done].
Qed.

(** ** Properties *)

(** C21. In every memory, and whichever calls of [malloc] fail,
    [cJSON_ParseWithOpts] returns on every text, without an access outside the
    text or its NUL, the block of a string or a live item.  What it returns
    and leaves is exactly what the parser on values says: the same positions,
    inside the text, and, when it accepts, an item that is well formed, shows
    the same value and owns every block that was allocated, with all links
    consistent; when it rejects, a null pointer and the memory as it was,
    whatever part of the text had been read into items, names and strings
    before.  If it does anything else, a [malloc] failed, and it also returns
    a null pointer and leaves the memory as it was. *)
Theorem parser_memory value require_null_terminated h :
  ∃ r p e1 e2 h', (cJSON_ParseWithOpts (Some value) require_null_terminated : outcome exn parse_result) = Ret r ∧
    result_ok value r ∧
    mem_ParseWithOpts (Some value) require_null_terminated h = (h' ∪ h, Ret (p, e1, e2)) ∧ h' ##ₘ h ∧
    (e1 = pr_end r ∧ e2 = pr_error r ∧
       match pr_item r with
       | Some t => holds (own_alone p t) h'
       | None => p = None ∧ h' = ∅
       end ∨
     malloc_fails ∧ p = None ∧ h' = ∅).
Proof.
  destruct (@cJSON_ParseWithOpts_runs exn value require_null_terminated) as (r & Hr & Hok).
  destruct (mwp_run _ _ _ ∅ h (ParseWithOpts_spec value require_null_terminated r Hr) eq_refl (map_disjoint_empty_l h))
    as ([[p e1] e2] & h' & E & Hd & Hx). rw left_id_L in E.
  exists r, p, e1, e2, h'. split_and!; [done|done|done|done|].
  destruct Hx as [Hx|Hx].
  - cbn [fst snd] in Hx. apply pure_sep_holds in Hx as [[-> ->] Hx]. left. split_and!; [done|done|].
    destruct (pr_item r); [done|]. by apply pure_holds in Hx.
  - apply pure_holds in Hx as [[Hm Hp] Hh]. by right.
Qed.

(** C25. In every memory that holds the member name, and while [malloc] does
    not fail, [CCnamHttpDriver::parse] ends as the parse on values does, with the same text for the request or
    the same exception, on every reply a session can deliver; and it leaves
    the memory exactly as it found it on every path: no JSON ("failed to
    parse"), JSON that is no object, and the object wrapped by reference,
    printed, and freed with its wrapper, the shared blocks once. *)
Theorem cnam_parse_memory data k h (req : ResolverRequest) : ¬ malloc_fails →
  response_fits data → h !! k = Some (Chars #"response") →
  ∃ o, mem_cnam_parse (Some k) data h = (h, o) ∧
    cnam_parse data req =
      (match o with Ret s => set_raw s (set_raw data req) | _ => set_raw data req end, (fun _ => tt) <$> o).
Proof.
  intros Hm Hfit Hk. destruct (@cJSON_Parse_runs exn (c_str data)) as (j & Hj & _).
  destruct (mwp_run _ _ _ ∅ h (Parse_spec (c_str data) j Hj) eq_refl (map_disjoint_empty_l h)) as (p & h1 & E & Hd & Hp).
  destruct Hp as [Hp|Hp]; [|apply pure_holds in Hp; by destruct Hp as [[? _] _]].
  rw left_id_L in E. unfold mem_cnam_parse, cnam_parse, mbind, stM_mbind, stM_bind, modify. rw E /lift Hj.
  destruct j as [t|]; cbn [alone_or_null] in Hp.
  2: { apply pure_holds in Hp as [-> ->]. rw left_id_L. eexists. split; [reflexivity|]. by rw literal_error. }
  destruct Hp as [l Hp]. apply pure_sep_holds in Hp as [-> Hp].
  destruct (mwp_run _ _ _ h1 h (own_alone_type l t) Hp Hd) as (n & h2 & En & Hd2 & Hn).
  apply pure_sep_holds in Hn as [Hn Hp2]. rw En Hn.
  destruct (Z.eqb_spec (jtype t) cJSON_Object) as [Ht|Ht]; cbn [negb].
  - set (name := {[k := Chars #"response"]} : gmap loc block). set (rest := delete k h).
    assert (Hh : h = name ∪ rest) by (by rw -insert_union_singleton_l insert_delete_id).
    assert (Hdn : h2 ##ₘ name) by (apply map_disjoint_singleton_r; by eapply map_disjoint_Some_r).
    assert (Hdr : h2 ∪ name ##ₘ rest).
    { apply map_disjoint_union_l; split; [by apply map_disjoint_delete_r|apply map_disjoint_singleton_l, lookup_delete_eq]. }
    assert (Hown : holds (own_item l None None t ∗ k ↦ Chars #"response")%I (h2 ∪ name))
      by (apply sep_holds; [done|done|apply points_to_holds]).
    destruct (mwp_run _ _ _ (h2 ∪ name) rest (wrapping_spec l t k _ Hm Ht (response_printed data t Hfit Hj Ht)) Hown Hdr)
      as (s & h3 & Ew & _ & H3).
    apply pure_sep_holds in H3 as [-> ->%points_to_singleton].
    rw -map_union_assoc -Hh in Ew. rw Ew (response_text_eq data t Hfit Hj Ht).
    eexists. split; [reflexivity|]. done.
  - destruct (mwp_run _ _ _ h2 h (cJSON_Delete_alone l t) Hp2 Hd2) as ([] & h3 & Ed & _ & H3).
    apply emp_holds in H3 as ->. rw left_id_L in Ed. rw Ed. eexists. split; [reflexivity|]. by rw literal_error.
Qed.

End Parser.

(** ** Witnesses *)

#[local] Instance with_endless : Allocator block := endless.

(** A reply in memory, next to a block of another owner. *)
Definition reply_memory : gmap loc block := {[1%positive := Chars #"response"; 4%positive := Chars #"other"]}.

Example reply_computed :
  mem_cnam_parse (Some 1%positive) (quoted #"{'name':'X','tags':[1,{}]}") reply_memory
  = (reply_memory, Ret (quoted #"{'response':{'name':'X','tags':[1,{}]}}")).
Proof. by vm_compute. Qed.

Example reply_rejected :
  mem_cnam_parse (Some 1%positive) (quoted #"{'name':'X','tags':[1,{}") reply_memory
  = (reply_memory, Throw (DriverError #"failed to parse reply JSON")).
Proof. by vm_compute. Qed.

(** A memory for [n] blocks. *)
Definition room_for (n : nat) : Allocator block := fun h _ => (size h <? n)%nat.

(** With too little room the parser fails and leaves nothing. *)
Example no_room_to_parse :
  mem_cnam_parse (alloc := room_for 5) (Some 1%positive) (quoted #"{'name':'X','tags':[1,{}]}") reply_memory
  = (reply_memory, Throw (DriverError #"failed to parse reply JSON")).
Proof. by vm_compute. Qed.

(** Without room for the wrapper nothing is printed, and the null pointer is
    made a string. *)
Lemma no_room_to_wrap :
  mem_cnam_parse (alloc := room_for 3) (Some 1%positive) #"{}" reply_memory = (reply_memory, Undef).
Proof. by vm_compute. Qed.

(** Without room for the name of the reference, the reference stays in memory
    and the text lacks the reply. *)
Lemma no_room_for_name :
  let '(h, o) := mem_cnam_parse (alloc := room_for 5) (Some 1%positive) #"{}" reply_memory in
  o = Ret #"{}" ∧ size h = 3.
Proof. by vm_compute. Qed.

Lemma cnam_parse_memory_witness :
  reply_memory !! 1%positive = Some (Chars #"response") ∧
  ∃ o, mem_cnam_parse (Some 1%positive) (quoted #"{'name':'X'}") reply_memory = (reply_memory, o) ∧
    cnam_parse (quoted #"{'name':'X'}") (new_ResolverRequest 0) =
      (match o with
       | Ret s => set_raw s (set_raw (quoted #"{'name':'X'}") (new_ResolverRequest 0))
       | _ => set_raw (quoted #"{'name':'X'}") (new_ResolverRequest 0)
       end, (fun _ => tt) <$> o).
Proof. split; [done|apply cnam_parse_memory; [exact endless_never_fails|vm_compute|]; done]. Defined.
