(* ===== verification/AsyncHttp.v ===== *)
(** * HTTP client (src/drivers/modules/AsyncHttpClient.cpp)

    [AsyncHttpClient] drives libcurl's multi interface from the event loop:
    [make_request] hands a transfer to libcurl, the callbacks of libcurl
    register its sockets and set its timer, finished transfers become
    responses of a queue, and an eventfd has the queue delivered to the
    resolver.  libcurl is an interface; a call of it that calls back is a
    run that stops at every callback. *)
From S2P Require Import Prelude.
From S2P Require Import CLib.
From S2P Require Import Exceptions.
From S2P Require Import EventLoop.
From S2P Require Import Driver.

(** ** Definitions *)

(** *** libcurl *)

Definition CURLE_OK : Z := 0.
Definition CURLM_OK : Z := 0.
Definition CURL_POLL_NONE : Z := 0.
Definition CURL_POLL_IN : Z := 1.
Definition CURL_POLL_OUT : Z := 2.
Definition CURL_POLL_INOUT : Z := 3.
Definition CURL_POLL_REMOVE : Z := 4.
Definition CURL_CSELECT_IN : Z := 1.
Definition CURL_CSELECT_OUT : Z := 2.
Definition CURL_CSELECT_ERR : Z := 4.
Definition CURL_SOCKET_TIMEOUT : Z := -1.

(** The options the client sets; a [conn] is the address of a [ConnInfo], a
    [header_list] the address of a [curl_slist]. *)
Inductive CURLoption : Type :=
  | URL (url : str)
  | SSL_VERIFYPEER (v : Z)
  | SSL_VERIFYHOST (v : Z)
  | HTTPAUTH (a : ECAuth)
  | USERNAME (login : str)
  | PASSWORD (pass : str)
  | TIMEOUT_MS (ms : Z)
  | NOSIGNAL (v : Z)
  | HTTPHEADER (header_list : Z)
  | WRITEFUNCTION
  | WRITEDATA (conn : Z)
  | PRIVATE (conn : Z)
  | ERRORBUFFER (conn : Z).

(** [CURLMsg] *)
Record CURLMsg : Type := {
  msg_done : bool;         (* msg == CURLMSG_DONE *)
  easy_handle : Z;
  result : Z
}.

(** What libcurl does to the client while it runs: a call of one of the
    three functions given to it, or a write to an error buffer. *)
Inductive callback : Type :=
  | SocketFunction (easy sock_fd what : Z) (socketp : option Z)
  | TimerFunction (timeout_ms : Z)
  | WriteFunction (ptr : str) (conn : Z)
  | ErrorBuffer (conn : Z) (text : str).

(** A call of libcurl: finished, or at a callback, to be resumed with the
    value it returned. *)
Inductive curl_run (U A : Type) : Type :=
  | Finished (u : U) (a : A)
  | Calls (c : callback) (u : U) (k : U → Z → curl_run U A).
Arguments Finished {U A} u a.
Arguments Calls {U A} c u k.

Class Curl (U : Type) : Type := {
  curl_easy_init : U → U * option Z;
  curl_easy_setopt : Z → CURLoption → U → U * Z;
  curl_slist_append : option Z → str → U → U * option Z;
  curl_slist_free_all : Z → U → U;
  curl_easy_getinfo_private : Z → U → Z;
  curl_easy_cleanup : Z → U → U;
  curl_multi_assign : Z → Z → U → U;
  curl_multi_info_read : U → U * option CURLMsg;
  curl_msgs_left : U → nat;
  curl_multi_add_handle : Z → U → curl_run U Z;
  curl_multi_remove_handle : Z → U → curl_run U unit;
  curl_multi_socket_action : Z → Z → U → curl_run U (Z * Z);
  curl_multi_cleanup : U → curl_run U unit
}.

(** timerfd(2), eventfd(2) and close(2). *)
Class KernelFds (K : Type) : Type := {
  timerfd_create : K → K * Z;
  timerfd_settime : Z → Z * Z → K → K;      (* it_value: seconds, nanoseconds *)
  timerfd_read : Z → K → K * (Z * bool);    (* the result; errno == EAGAIN *)
  eventfd : K → K * Z;
  eventfd_write : Z → Z → K → K * Z;
  eventfd_read : Z → K → K * Z;
  close_fd : Z → K → K
}.

(** *** Data *)

(** [ConnInfo]; the client is the only one.  [error] is its buffer of 256
    bytes, as far as libcurl filled it. *)
Record ConnInfo : Type := {
  ci_id : Z;
  ci_easy : Z;
  ci_header_list : option Z;
  ci_error : str;
  ci_response : str
}.

(** [SockInfo]; [timeout] is never used. *)
Record SockInfo : Type := {
  sock_fd : Z;
  si_easy : Z;
  action : Z
}.

(** [AsyncHttpClient].  [conns] and [socks] are the blocks it has on the heap;
    an address is not given out twice. *)
Record AsyncHttpClient : Type := {
  base : EventHandler;
  response_queue : list HttpResponse;
  respose_notifier_fd : Z;
  timer_fd : Z;
  still_running : Z;
  conns : gmap Z ConnInfo;
  socks : gmap Z SockInfo;
  next_address : Z
}.

(** What a method works on: the client, the kernel, libcurl. *)
Record World (K U : Type) : Type := {
  client : AsyncHttpClient;
  kernel : K;
  curl : U
}.
Arguments client {K U} w.
Arguments kernel {K U} w.
Arguments curl {K U} w.
Arguments Build_World {K U} client kernel curl.

Definition set_base (h : EventHandler) (c : AsyncHttpClient) : AsyncHttpClient :=
  {| base := h; response_queue := response_queue c;
     respose_notifier_fd := respose_notifier_fd c; timer_fd := timer_fd c;
     still_running := still_running c; conns := conns c; socks := socks c;
     next_address := next_address c |}.
Definition set_response_queue (q : list HttpResponse) (c : AsyncHttpClient) : AsyncHttpClient :=
  {| base := base c; response_queue := q;
     respose_notifier_fd := respose_notifier_fd c; timer_fd := timer_fd c;
     still_running := still_running c; conns := conns c; socks := socks c;
     next_address := next_address c |}.
Definition set_respose_notifier_fd (fd : Z) (c : AsyncHttpClient) : AsyncHttpClient :=
  {| base := base c; response_queue := response_queue c;
     respose_notifier_fd := fd; timer_fd := timer_fd c;
     still_running := still_running c; conns := conns c; socks := socks c;
     next_address := next_address c |}.
Definition set_timer_fd (fd : Z) (c : AsyncHttpClient) : AsyncHttpClient :=
  {| base := base c; response_queue := response_queue c;
     respose_notifier_fd := respose_notifier_fd c; timer_fd := fd;
     still_running := still_running c; conns := conns c; socks := socks c;
     next_address := next_address c |}.
Definition set_still_running (n : Z) (c : AsyncHttpClient) : AsyncHttpClient :=
  {| base := base c; response_queue := response_queue c;
     respose_notifier_fd := respose_notifier_fd c; timer_fd := timer_fd c;
     still_running := n; conns := conns c; socks := socks c;
     next_address := next_address c |}.
Definition set_conns (m : gmap Z ConnInfo) (c : AsyncHttpClient) : AsyncHttpClient :=
  {| base := base c; response_queue := response_queue c;
     respose_notifier_fd := respose_notifier_fd c; timer_fd := timer_fd c;
     still_running := still_running c; conns := m; socks := socks c;
     next_address := next_address c |}.
Definition set_socks (m : gmap Z SockInfo) (c : AsyncHttpClient) : AsyncHttpClient :=
  {| base := base c; response_queue := response_queue c;
     respose_notifier_fd := respose_notifier_fd c; timer_fd := timer_fd c;
     still_running := still_running c; conns := conns c; socks := m;
     next_address := next_address c |}.
Definition bump_address (c : AsyncHttpClient) : AsyncHttpClient :=
  {| base := base c; response_queue := response_queue c;
     respose_notifier_fd := respose_notifier_fd c; timer_fd := timer_fd c;
     still_running := still_running c; conns := conns c; socks := socks c;
     next_address := next_address c + 1 |}.

Definition set_ci_header_list (l : option Z) (c : ConnInfo) : ConnInfo :=
  {| ci_id := ci_id c; ci_easy := ci_easy c; ci_header_list := l; ci_error := ci_error c;
     ci_response := ci_response c |}.
Definition set_ci_error (s : str) (c : ConnInfo) : ConnInfo :=
  {| ci_id := ci_id c; ci_easy := ci_easy c; ci_header_list := ci_header_list c;
     ci_error := s; ci_response := ci_response c |}.
Definition set_ci_response (s : str) (c : ConnInfo) : ConnInfo :=
  {| ci_id := ci_id c; ci_easy := ci_easy c; ci_header_list := ci_header_list c;
     ci_error := ci_error c; ci_response := s |}.

Section Client.
Context {K U : Type} `{Epoll K} `{KernelFds K} `{Curl U}.

Abbreviation W := (stM exn (World K U)).

(** *** Access to the parts of the world *)

Definition gets {A} (f : AsyncHttpClient → A) : W A := fun w => (w, Ret (f (client w))).
Definition update (f : AsyncHttpClient → AsyncHttpClient) : W unit :=
  modify (fun w => {| client := f (client w); kernel := kernel w; curl := curl w |}).
Definition syscall {A} (f : K → K * A) : W A :=
  fun w => let '(k, a) := f (kernel w) in
           ({| client := client w; kernel := k; curl := curl w |}, Ret a).
Definition syscall_ (f : K → K) : W unit := syscall (fun k => (f k, tt)).
Definition curl_call {A} (f : U → U * A) : W A :=
  fun w => let '(u, a) := f (curl w) in
           ({| client := client w; kernel := kernel w; curl := u |}, Ret a).
Definition curl_call_ (f : U → U) : W unit := curl_call (fun u => (f u, tt)).

Definition on_curl {A} (f : U → W A) : W A := fun w => f (curl w) w.

(** A method of the base class. *)
Definition handler_call (f : EventHandler → K → EventHandler * K * Z) : W Z :=
  fun w => let '(h, k, r) := f (base (client w)) (kernel w) in
           ({| client := set_base h (client w); kernel := k; curl := curl w |}, Ret r).

(** [calloc], [->] and [free]: a block that is not on the heap must not be
    touched. *)
Definition calloc_conn (c : ConnInfo) : W Z :=
  p ← gets next_address;
  update bump_address;;
  update (fun a => set_conns (<[p := c]> (conns a)) a);;
  mret p.
Definition read_conn (p : Z) : W ConnInfo :=
  m ← gets conns; lift (deref (m !! p)).
Definition write_conn (p : Z) (f : ConnInfo → ConnInfo) : W unit :=
  c ← read_conn p; update (fun a => set_conns (<[p := f c]> (conns a)) a).

(** [free_conn_info], and the end of the loop of [check_multi_info]: the header
    list of the block, if it has one, and the block. *)
Definition free_conn (p : Z) : W unit :=
  c ← read_conn p;
  match ci_header_list c with Some l => curl_call_ (curl_slist_free_all l) | None => mret tt end;;
  update (fun a => set_conns (delete p (conns a)) a).

Definition calloc_sock : W Z :=
  p ← gets next_address;
  update bump_address;;
  update (fun a => set_socks (<[p := {| sock_fd := 0; si_easy := 0; action := 0 |}]> (socks a)) a);;
  mret p.
Definition read_sock (p : Z) : W SockInfo :=
  m ← gets socks; lift (deref (m !! p)).
Definition write_sock (p : Z) (si : SockInfo) : W unit :=
  read_sock p;; update (fun a => set_socks (<[p := si]> (socks a)) a).
Definition free_sock (p : Z) : W unit :=
  read_sock p;; update (fun a => set_socks (delete p (socks a)) a).

(** *** Timer *)

(** The [itimerspec] of a timeout in milliseconds. *)
Definition timer_spec (timeout_ms : Z) : Z * Z :=
  if (0 <? timeout_ms)%Z then (timeout_ms / 1000, timeout_ms mod 1000 * 1000 * 1000)%Z
  else if (timeout_ms =? 0)%Z then (0, 1)%Z
  else (0, 0)%Z.

Definition set_timer_value (timeout_ms : Z) : W Z :=
  fd ← gets timer_fd;
  if (fd <? 0)%Z then mret (-1)%Z else
  syscall_ (timerfd_settime fd (timer_spec timeout_ms));;
  mret 0%Z.

Definition init_timer : W Z :=
  fd ← syscall timerfd_create;
  update (set_timer_fd fd);;
  when (0 <=? fd)%Z (handler_call (link fd EPOLLIN);; mret tt);;
  mret fd.

Definition read_timer : W Z :=
  fd ← gets timer_fd;
  if (fd <? 0)%Z then mret (-1)%Z else
  '(err, again) ← syscall (timerfd_read fd);
  if ((err =? -1)%Z && again)%bool then mret (-1)%Z else mret 0%Z.

(** *** Sockets *)

Definition set_sock (sock_info fd easy act : Z) : W unit :=
  let events := Z.lor EPOLLERR
    (if (act =? CURL_POLL_IN)%Z then EPOLLIN
     else if (act =? CURL_POLL_OUT)%Z then EPOLLOUT
     else if (act =? CURL_POLL_INOUT)%Z then Z.lor EPOLLOUT EPOLLIN
     else 0) in
  si ← read_sock sock_info;
  (if negb (sock_fd si =? 0)%Z then handler_call (modify_link (sock_fd si) events)
   else handler_call (link fd events));;
  write_sock sock_info {| sock_fd := fd; si_easy := easy; action := act |}.

Definition add_sock (fd easy act : Z) : W unit :=
  sock_info ← calloc_sock;
  set_sock sock_info fd easy act;;
  curl_call_ (curl_multi_assign fd sock_info).

Definition rem_sock (sock_info : option Z) : W unit :=
  match sock_info with
  | None => mret tt
  | Some p =>
      si ← read_sock p;
      when (negb (sock_fd si =? 0)%Z) (handler_call (unlink (sock_fd si));; mret tt);;
      free_sock p
  end.

(** *** Callbacks *)

Definition socket_cb (easy fd what : Z) (sock_info : option Z) : W Z :=
  if (what =? CURL_POLL_NONE)%Z then mret 0%Z else
  (if (what =? CURL_POLL_REMOVE)%Z then rem_sock sock_info
   else match sock_info with
        | None => add_sock fd easy what
        | Some p => set_sock p fd easy what
        end);;
  mret 0%Z.

Definition timer_cb (timeout_ms : Z) : W Z := set_timer_value timeout_ms;; mret 0%Z.

(** [write_cb_static]; its two sizes are of type [int], which the model does not
    wrap: below 2 GiB in one response. *)
Definition write_cb (ptr : str) (conn : Z) : W Z :=
  write_conn conn (fun c => set_ci_response (ci_response c ++ ptr) c);;
  mret (Z.of_nat (length ptr)).

Definition call_back (c : callback) : W Z :=
  match c with
  | SocketFunction easy fd what socketp => socket_cb easy fd what socketp
  | TimerFunction timeout_ms => timer_cb timeout_ms
  | WriteFunction ptr conn => write_cb ptr conn
  | ErrorBuffer conn text => write_conn conn (set_ci_error text);; mret 0%Z
  end.

Fixpoint run_curl {A} (r : curl_run U A) : W A :=
  match r with
  | Finished u a => curl_call_ (fun _ => u);; mret a
  | Calls c u k =>
      curl_call_ (fun _ => u);;
      v ← call_back c;
      on_curl (fun u => run_curl (k u v))
  end.

Definition multi_call {A} (f : U → curl_run U A) : W A := on_curl (fun u => run_curl (f u)).

(** *** Requests *)

(** The options of one [if], set until one fails. *)
Fixpoint setopts (easy : Z) (os : list CURLoption) : W bool :=
  match os with
  | [] => mret true
  | o :: r =>
      rc ← curl_call (curl_easy_setopt easy o);
      if (rc =? CURLE_OK)%Z then setopts easy r else mret false
  end.

(** [if (CURLE_OK != ... || ...) { free_conn_info(); throw error(what); }] *)
Definition require (easy conn : Z) (os : list CURLoption) (what : str) : W unit :=
  ok ← setopts easy os;
  match ok with
  | true => mret tt
  | false => free_conn conn;; lift (throw_http what [])
  end.

(** The loop over the headers: what [curl_slist_append] gives replaces the
    list, the null pointer of a failure too. *)
Fixpoint append_headers (conn : Z) (headers : list str) (header_list : option Z)
  : W (option Z) :=
  match headers with
  | [] => mret header_list
  | header :: rest =>
      header_list ← curl_call (curl_slist_append header_list header);
      match header_list with
      | None => free_conn conn;; lift (throw_http #"appending header to request error" [])
      | Some _ => append_headers conn rest header_list
      end
  end.

(** The options of [make_request], in order, each [if] with its message. *)
Definition auth_options (request : HttpRequest) : list CURLoption :=
  match hr_login request, hr_pass request with
  | Some login, Some pass => [USERNAME login; PASSWORD pass]
  | _, _ => []
  end.
Definition url_options (request : HttpRequest) : list CURLoption :=
  match hr_url request with Some url => [URL url] | None => [] end.
Definition verify (request : HttpRequest) : Z := if hr_verify_ssl request then 2 else 0.

(** [AsyncHttpClient::make_request].  A path that fails frees the block, and
    the header list if it is in the block already; no path gives the easy
    handle back. *)
Definition http_make_request (request : HttpRequest) : W Z :=
  easy ← curl_call curl_easy_init;
  match easy with
  | None => mret (-1)%Z
  | Some easy =>
      conn ← calloc_conn {| ci_id := hr_id request; ci_easy := easy; ci_header_list := None;
                            ci_error := []; ci_response := [] |};
      require easy conn (url_options request) #"URL processing error";;
      require easy conn [SSL_VERIFYPEER (verify request); SSL_VERIFYHOST (verify request)]
        #"SSL verification option error";;
      require easy conn [HTTPAUTH (hr_auth_type request)] #"authorization type processing error";;
      require easy conn (auth_options request) #"authorization credentials processing error";;
      require easy conn [TIMEOUT_MS (hr_timeout_ms request); NOSIGNAL 1]
        #"set up timeout value error";;
      header_list ← append_headers conn (hr_headers request) None;
      match header_list with
      | None => mret tt
      | Some l =>
          require easy conn [HTTPHEADER l] #"headers processing error";;
          write_conn conn (set_ci_header_list header_list)
      end;;
      require easy conn [WRITEFUNCTION; WRITEDATA conn] #"initializing write callback data error";;
      require easy conn [PRIVATE conn] #"private pointer initialization error";;
      require easy conn [ERRORBUFFER conn] #"error buffer initializing error";;
      rc ← multi_call (curl_multi_add_handle easy);
      if (rc =? CURLM_OK)%Z then mret 0%Z
      else free_conn conn;; mret (-1)%Z
  end.

(** *** Responses *)

Definition notify_respose_available : W unit :=
  fd ← gets respose_notifier_fd;
  if (fd <? 0)%Z then mret tt else syscall (eventfd_write fd 1);; mret tt.

Definition init_respose_notifier : W Z :=
  fd ← syscall eventfd;
  update (set_respose_notifier_fd fd);;
  when (0 <=? fd)%Z (handler_call (link fd EPOLLIN);; mret tt);;
  mret fd.

(** The response of a finished transfer. *)
Definition response_of (conn : ConnInfo) (res : Z) : HttpResponse :=
  if (res =? CURLE_OK)%Z
  then {| resp_id := ci_id conn; is_success := true; resp_data := ci_response conn |}
  else {| resp_id := ci_id conn; is_success := false; resp_data := c_str (ci_error conn) |}.

(** The body of the loop of [check_multi_info], for a finished transfer. *)
Definition finish_transfer (msg : CURLMsg) : W unit :=
  let easy := easy_handle msg in
  conn ← curl_call (fun u => (u, curl_easy_getinfo_private easy u));
  c ← read_conn conn;
  update (fun a => set_response_queue (response_queue a ++ [response_of c (result msg)]) a);;
  multi_call (curl_multi_remove_handle easy);;
  curl_call_ (curl_easy_cleanup easy);;
  free_conn conn;;
  notify_respose_available.

(** The loop of [check_multi_info]; [fuel] is more than the messages that
    wait. *)
Fixpoint check_multi_info_loop (fuel : nat) : W unit :=
  match fuel with
  | O => lift Undef
  | S fuel =>
      msg ← curl_call curl_multi_info_read;
      match msg with
      | None => mret tt
      | Some msg => when (msg_done msg) (finish_transfer msg);; check_multi_info_loop fuel
      end
  end.

Definition check_multi_info : W unit :=
  on_curl (fun u => check_multi_info_loop (S (curl_msgs_left u))).

(** *** Events *)

Definition socket_event_handler (fd events : Z) : W unit :=
  let bit (ev act : Z) := if negb (Z.land events ev =? 0)%Z then act else 0%Z in
  let act := Z.lor (Z.lor (bit EPOLLIN CURL_CSELECT_IN) (bit EPOLLOUT CURL_CSELECT_OUT))
                   (bit EPOLLERR CURL_CSELECT_ERR) in
  '(rc, running) ← multi_call (curl_multi_socket_action fd act);
  update (set_still_running running);;
  if negb (rc =? CURLM_OK)%Z then mret tt else
  check_multi_info;;
  running ← gets still_running;
  when (running <=? 0)%Z (set_timer_value (-1);; mret tt).

Definition timer_event_handler : W unit :=
  r ← read_timer;
  if (r <? 0)%Z then mret tt else
  '(rc, running) ← multi_call (curl_multi_socket_action CURL_SOCKET_TIMEOUT 0);
  update (set_still_running running);;
  if negb (rc =? CURLM_OK)%Z then mret tt else check_multi_info.

(** The two calls of the constructor that set up the client's own
    descriptors. *)
Definition init_descriptors : W unit := init_timer;; init_respose_notifier;; mret tt.

(** [AsyncHttpClient::~AsyncHttpClient], before the destructor of its base
    class. *)
Definition close_descriptor (fd : Z) : W unit :=
  when (0 <=? fd)%Z (handler_call (unlink fd);; syscall_ (close_fd fd)).

Definition destroy_client : W unit :=
  multi_call curl_multi_cleanup;;
  fd ← gets respose_notifier_fd;
  close_descriptor fd;;
  fd ← gets timer_fd;
  close_descriptor fd.

(** The [AsyncHttpClientHandler]: the state of the resolver without its
    client, and its callback. *)
Section Events.
Context {S : Type}.
Variable on_http_response_received : HttpResponse → stM exn S unit.

Abbreviation WS := (stM exn (World K U * S)).

(** The loop over the queue: a response is taken off before it is
    delivered. *)
Fixpoint deliver (queue : list HttpResponse) : WS unit :=
  match queue with
  | [] => mret tt
  | response :: rest =>
      on_fst (update (set_response_queue rest));;
      on_snd (on_http_response_received response);;
      deliver rest
  end.

Definition respose_notifier_event_handler : WS unit :=
  fd ← on_fst (gets respose_notifier_fd);
  if (fd <? 0)%Z then mret tt else
  on_fst (syscall (eventfd_read fd));;
  queue ← on_fst (gets response_queue);
  deliver queue.

(** [AsyncHttpClient::handle_event] *)
Definition http_handle_event (fd events : Z) : WS Z :=
  timer ← on_fst (gets timer_fd);
  notifier ← on_fst (gets respose_notifier_fd);
  (if (fd =? timer)%Z then on_fst timer_event_handler
   else if (fd =? notifier)%Z then respose_notifier_event_handler
   else on_fst (socket_event_handler fd events));;
  mret 0%Z.
End Events.
End Client.
