(* ===== verification/AsyncHttpSpec.v ===== *)
(** * HTTP client: contract and proofs

    What libcurl promises, as laws over the view a client has of it, and what
    the client promises in return: its heap blocks are exactly those of the
    transfers libcurl has, each with its own header list, every request taken
    ends as one response, and the whole client is an [HttpClient] the resolver
    can be run with.  The view has the easy handles and the lists that were
    made and not given back, so that what a failing request leaves behind can
    be seen. *)
From S2P Require Import Prelude.
From S2P Require Import CLib.
From S2P Require Import Exceptions.
From S2P Require Import EventLoop.
From S2P Require Import Driver.
From S2P Require Import AsyncHttp.

(** ** Definitions *)

(** *** What libcurl promises *)

(** libcurl as its client sees it: the easy handles with the options they
    were given (the last one first), the lists of strings, the handles in the
    multi handle, the sockets it told the client about with the pointers the
    client assigned, and the messages that wait. *)
Record View : Type := {
  easies : gmap Z (list CURLoption);
  slists : gmap Z (list str);
  transfers : gset Z;
  sockets : gmap Z (option Z);
  messages : list CURLMsg
}.

Definition with_easies (m : gmap Z (list CURLoption)) (v : View) : View :=
  {| easies := m; slists := slists v; transfers := transfers v; sockets := sockets v;
     messages := messages v |}.
Definition with_slists (m : gmap Z (list str)) (v : View) : View :=
  {| easies := easies v; slists := m; transfers := transfers v; sockets := sockets v;
     messages := messages v |}.
Definition with_sockets (m : gmap Z (option Z)) (v : View) : View :=
  {| easies := easies v; slists := slists v; transfers := transfers v; sockets := m;
     messages := messages v |}.
Definition with_messages (l : list CURLMsg) (v : View) : View :=
  {| easies := easies v; slists := slists v; transfers := transfers v; sockets := sockets v;
     messages := l |}.
Definition with_transfers (t : gset Z) (v : View) : View :=
  {| easies := easies v; slists := slists v; transfers := t; sockets := sockets v;
     messages := messages v |}.

(** The last pointer given for an option. *)
Definition private_of (o : CURLoption) : option Z := match o with PRIVATE p => Some p | _ => None end.
Definition write_of (o : CURLoption) : option Z := match o with WRITEDATA p => Some p | _ => None end.
Definition error_of (o : CURLoption) : option Z := match o with ERRORBUFFER p => Some p | _ => None end.
Definition last_of (f : CURLoption → option Z) (os : list CURLoption) : option Z := head (omap f os).

(** The pointer given to a transfer. *)
Definition pointer (f : CURLoption → option Z) (v : View) (easy : Z) : option Z :=
  os ← easies v !! easy; last_of f os.

(** A socket is known once libcurl told the client about it. *)
Definition announce (fd : Z) (v : View) : View :=
  match sockets v !! fd with
  | Some _ => v
  | None => with_sockets (<[fd := None]> (sockets v)) v
  end.

Definition forget (fd : Z) (v : View) : View := with_sockets (delete fd (sockets v)) v.

Class CurlView (U : Type) : Type := view : U → View.

(** A run of libcurl that starts with the view [v] calls the client back as
    documented: it polls a socket with the pointer assigned to it, it says
    once that a socket is gone, it writes through the pointers of a transfer
    it has; and it ends as [Q] says of the last view and the result. *)
Inductive polite {U A} `{CurlView U} (Q : View → A → Prop) : View → curl_run U A → Prop :=
  | polite_finished v u a : sockets (view u) = sockets v → Q (view u) a → polite Q v (Finished u a)
  | polite_poll v easy fd what u k :
      what ∈ [CURL_POLL_NONE; CURL_POLL_IN; CURL_POLL_OUT; CURL_POLL_INOUT] →
      view u = announce fd v →
      (∀ u' m r, view u' = with_sockets m v → dom m = dom (sockets (announce fd v)) →
         polite Q (with_sockets m v) (k u' r)) →
      polite Q v (Calls (SocketFunction easy fd what (mjoin (sockets v !! fd))) u k)
  | polite_remove v easy fd p u k :
      sockets v !! fd = Some p → view u = v →
      (∀ u' r, view u' = v → polite Q (forget fd v) (k u' r)) →
      polite Q v (Calls (SocketFunction easy fd CURL_POLL_REMOVE p) u k)
  | polite_timer v ms u k :
      view u = v → (∀ u' r, view u' = v → polite Q v (k u' r)) →
      polite Q v (Calls (TimerFunction ms) u k)
  | polite_write v easy ptr p u k :
      easy ∈ transfers v → pointer write_of v easy = Some p → view u = v →
      (∀ u' r, view u' = v → polite Q v (k u' r)) →
      polite Q v (Calls (WriteFunction ptr p) u k)
  | polite_error v easy text p u k :
      easy ∈ transfers v → pointer error_of v easy = Some p → view u = v →
      (∀ u' r, view u' = v → polite Q v (k u' r)) →
      polite Q v (Calls (ErrorBuffer p text) u k).

(** The messages that stay when a handle is removed. *)
Definition others (easy : Z) (l : list CURLMsg) : list CURLMsg :=
  filter (fun m => easy_handle m ≠ easy) l.

(** The messages of a list are about distinct transfers of [v], once done. *)
Definition messages_ok (v : View) : Prop :=
  NoDup (easy_handle <$> messages v) ∧
  Forall (fun m => easy_handle m ∈ transfers v ∧ msg_done m = true) (messages v).

Class CurlLaws (U : Type) `{Curl U} `{CurlView U} : Prop := {
  curl_init_some u u' easy : curl_easy_init u = (u', Some easy) →
    easies (view u) !! easy = None ∧ view u' = with_easies (<[easy := []]> (easies (view u))) (view u);
  curl_init_none u u' : curl_easy_init u = (u', None) → view u' = view u;
  curl_setopt_ok easy o u u' os : easies (view u) !! easy = Some os →
    curl_easy_setopt easy o u = (u', CURLE_OK) →
    view u' = with_easies (<[easy := o :: os]> (easies (view u))) (view u);
  curl_setopt_failed easy o u u' rc :
    curl_easy_setopt easy o u = (u', rc) → rc ≠ CURLE_OK → view u' = view u;
  curl_append l hs s u u' l' :
    match l with Some l => slists (view u) !! l = Some hs | None => hs = [] end →
    curl_slist_append l s u = (u', l') →
    match l' with
    | None => view u' = view u
    | Some l' =>
        let rest := match l with Some l => delete l (slists (view u)) | None => slists (view u) end in
        rest !! l' = None ∧ view u' = with_slists (<[l' := hs ++ [s]]> rest) (view u)
    end;
  curl_free_all l u : is_Some (slists (view u) !! l) →
    view (curl_slist_free_all l u) = with_slists (delete l (slists (view u))) (view u);
  curl_getinfo easy u p : pointer private_of (view u) easy = Some p →
    curl_easy_getinfo_private easy u = p;
  curl_cleanup easy u : easy ∉ transfers (view u) →
    view (curl_easy_cleanup easy u) = with_easies (delete easy (easies (view u))) (view u);
  curl_assign fd p u : is_Some (sockets (view u) !! fd) →
    view (curl_multi_assign fd p u) = with_sockets (<[fd := Some p]> (sockets (view u))) (view u);
  curl_left u : curl_msgs_left u = length (messages (view u));
  curl_info_none u : messages (view u) = [] →
    ∃ u', curl_multi_info_read u = (u', None) ∧ view u' = view u;
  curl_info_some u m l : messages (view u) = m :: l →
    ∃ u', curl_multi_info_read u = (u', Some m) ∧ view u' = with_messages l (view u);
  curl_add_handle easy u :
    is_Some (easies (view u) !! easy) → easy ∉ transfers (view u) →
    polite (fun v rc => easies v = easies (view u) ∧ slists v = slists (view u) ∧
              messages v = messages (view u) ∧
              transfers v = if (rc =? CURLM_OK)%Z then {[easy]} ∪ transfers (view u)
                            else transfers (view u))
      (view u) (curl_multi_add_handle easy u);
  curl_remove_handle easy u : easy ∈ transfers (view u) →
    polite (fun v _ => easies v = easies (view u) ∧ slists v = slists (view u) ∧
              transfers v = transfers (view u) ∖ {[easy]} ∧
              messages v = others easy (messages (view u)))
      (view u) (curl_multi_remove_handle easy u);
  curl_socket_action fd act u : messages_ok (view u) →
    polite (fun v _ => easies v = easies (view u) ∧ slists v = slists (view u) ∧
                       transfers v = transfers (view u) ∧ messages_ok v)
      (view u) (curl_multi_socket_action fd act u);
  curl_cleanup_all u :
    polite (fun v _ => easies v = easies (view u) ∧ slists v = slists (view u) ∧
                       transfers v = ∅ ∧ messages v = [])
      (view u) (curl_multi_cleanup u)
}.

(** *** What the client keeps *)

(** A [ConnInfo] is the one its transfer was given everywhere. *)
Definition conn_given (v : View) (p easy : Z) : Prop :=
  easy ∈ transfers v ∧ pointer private_of v easy = Some p ∧
  pointer write_of v easy = Some p ∧ pointer error_of v easy = Some p.

(** The requests in flight: number and easy handle of each block. *)
Definition tag_of (ci : ConnInfo) : Z * Z := (ci_id ci, ci_easy ci).
Definition flights (c : AsyncHttpClient) : gmap Z (Z * Z) := tag_of <$> conns c.

(** The header lists the blocks own. *)
Definition header_lists (c : AsyncHttpClient) : gmap Z Z := omap ci_header_list (conns c).

(** They are there, and no two blocks share one. *)
Definition lists_ok (v : View) (c : AsyncHttpClient) : Prop :=
  (∀ p l, header_lists c !! p = Some l → is_Some (slists v !! l)) ∧
  (∀ p q l, header_lists c !! p = Some l → header_lists c !! q = Some l → p = q).

(** The heap of the client against the view: a [ConnInfo] for every
    transfer and no other, with a header list of its own, a [SockInfo] for
    every assigned pointer, not shared, with the descriptor it is for. *)
Record client_ok (v : View) (c : AsyncHttpClient) : Prop := {
  transfers_alive : ∀ easy, easy ∈ transfers v →
    ∃ p i, flights c !! p = Some (i, easy);
  conns_given : ∀ p i easy, flights c !! p = Some (i, easy) → conn_given v p easy;
  transfers_easies : ∀ easy, easy ∈ transfers v → is_Some (easies v !! easy);
  sockets_alive : ∀ fd p, sockets v !! fd = Some (Some p) →
    ∃ si, socks c !! p = Some si ∧ sock_fd si = fd;
  addresses_below : ∀ p, is_Some (conns c !! p) ∨ is_Some (socks c !! p) → (p < next_address c)%Z;
  lists_owned : lists_ok v c
}.

Definition world_ok {K U} `{CurlView U} (w : World K U) : Prop :=
  client_ok (view (curl w)) (client w) ∧ messages_ok (view (curl w)).

(** Their numbers. *)
Definition in_flight (c : AsyncHttpClient) : list Z := (map_to_list (flights c)).*2.*1.

(** What [make_request] can throw. *)
Definition client_errors : list str :=
  [ #"URL processing error"; #"SSL verification option error";
    #"authorization type processing error"; #"authorization credentials processing error";
    #"set up timeout value error"; #"appending header to request error";
    #"headers processing error"; #"initializing write callback data error";
    #"private pointer initialization error"; #"error buffer initializing error" ].

(** The options a transfer gets, in the order they are set. *)
Definition header_options (header_list : option Z) : list CURLoption :=
  match header_list with None => [] | Some l => [HTTPHEADER l] end.
Definition request_options (conn : Z) (header_list : option Z) (request : HttpRequest) : list CURLoption :=
  url_options request ++ [SSL_VERIFYPEER (verify request); SSL_VERIFYHOST (verify request)] ++
  [HTTPAUTH (hr_auth_type request)] ++ auth_options request ++
  [TIMEOUT_MS (hr_timeout_ms request); NOSIGNAL 1] ++ header_options header_list ++
  [WRITEFUNCTION; WRITEDATA conn] ++ [PRIVATE conn] ++ [ERRORBUFFER conn].

(** *** The client in use *)

Section Session.
Context {K U : Type} `{Epoll K} `{KernelFds K} `{Curl U}.

(** The resolver's callback, as far as it is seen from here: a log of what
    was delivered. *)
Definition log_response (r : HttpResponse) : stM exn (list HttpResponse) unit :=
  modify (fun l => l ++ [r]).

(** The client, the responses delivered so far, the numbers of the requests
    taken so far. *)
Definition Session : Type := World K U * list HttpResponse * list Z.

Definition took (o : M Z) : bool := match o with Ret 0%Z => true | _ => false end.

(** A request of the resolver, or an event of the loop. *)
Inductive client_step : Session → Session → Prop :=
  | step_request request w w' o d a :
      http_make_request request w = (w', o) →
      client_step (w, d, a) (w', d, if took o then hr_id request :: a else a)
  | step_handle fd events w d w' d' o a :
      http_handle_event log_response fd events (w, d) = (w', d', o) →
      client_step (w, d, a) (w', d', a).

(** A client with nothing to do. *)
Definition idle (w : World K U) : Prop :=
  in_flight (client w) = [] ∧ response_queue (client w) = [].
End Session.

(** ** Lemmas *)

Section Client.
Context {K U : Type} `{Epoll K} `{KernelFds K} `{CurlLaws U}.

Abbreviation W := (stM exn (World K U)).
Abbreviation World := (World K U).

(** *** The parts of the world *)

Lemma wp_gets {A} (f : AsyncHttpClient → A) (w : World) (P : A → World → Prop) X :
  P (f (client w)) w → wp (gets f) w P X.
Proof. done. Qed.

Lemma wp_update f (w : World) (P : unit → World → Prop) X :
  P tt {| client := f (client w); kernel := kernel w; curl := curl w |} → wp (update f) w P X.
Proof. done. Qed.

Lemma wp_syscall {A} (f : K → K * A) (w : World) (P : A → World → Prop) X :
  (∀ k a, P a {| client := client w; kernel := k; curl := curl w |}) → wp (syscall f) w P X.
Proof. intros HP. unfold wp, syscall. by destruct (f (kernel w)). Qed.

Lemma wp_curl_call {A} (f : U → U * A) (w : World) (P : A → World → Prop) X :
  (∀ u a, f (curl w) = (u, a) → P a {| client := client w; kernel := kernel w; curl := u |}) →
  wp (curl_call f) w P X.
Proof. intros HP. unfold wp, curl_call. destruct (f (curl w)) eqn:E. by apply HP. Qed.

Lemma wp_curl_call_ (f : U → U) (w : World) (P : unit → World → Prop) X :
  P tt {| client := client w; kernel := kernel w; curl := f (curl w) |} → wp (curl_call_ f) w P X.
Proof. done. Qed.

Lemma wp_handler_call f (w : World) (P : Z → World → Prop) X :
  (∀ h k r, P r {| client := set_base h (client w); kernel := k; curl := curl w |}) →
  wp (handler_call f) w P X.
Proof. intros HP. unfold wp, handler_call. by destruct (f _ _) as [[h k] r]. Qed.

Lemma wp_read_conn p ci (w : World) (P : ConnInfo → World → Prop) X :
  conns (client w) !! p = Some ci → P ci w → wp (read_conn p) w P X.
Proof. intros Hp HP. unfold wp, read_conn. rewrite stM_bind_eq. cbn. by rewrite Hp. Qed.

Lemma wp_write_conn p f ci (w : World) (P : unit → World → Prop) X :
  conns (client w) !! p = Some ci →
  P tt {| client := set_conns (<[p := f ci]> (conns (client w))) (client w);
          kernel := kernel w; curl := curl w |} →
  wp (write_conn p f) w P X.
Proof. intros Hp HP. apply wp_bind. by apply (wp_read_conn p ci). Qed.

Lemma wp_free_conn p ci (w : World) (P : unit → World → Prop) X :
  conns (client w) !! p = Some ci →
  P tt {| client := set_conns (delete p (conns (client w))) (client w); kernel := kernel w;
          curl := match ci_header_list ci with Some l => curl_slist_free_all l (curl w) | None => curl w end |} →
  wp (free_conn p) w P X.
Proof.
  intros Hp HP. apply wp_bind, (wp_read_conn p ci); [done|]. apply wp_bind.
  destruct (ci_header_list ci); [by apply wp_curl_call_|by destruct w; apply wp_ret].
Qed.

Lemma wp_read_sock p si (w : World) (P : SockInfo → World → Prop) X :
  socks (client w) !! p = Some si → P si w → wp (read_sock p) w P X.
Proof. intros Hp HP. unfold wp, read_sock. rewrite stM_bind_eq. cbn. by rewrite Hp. Qed.

Lemma wp_write_sock p si' si (w : World) (P : unit → World → Prop) X :
  socks (client w) !! p = Some si →
  P tt {| client := set_socks (<[p := si']> (socks (client w))) (client w);
          kernel := kernel w; curl := curl w |} →
  wp (write_sock p si') w P X.
Proof. intros Hp HP. apply wp_bind. by apply (wp_read_sock p si). Qed.

Lemma wp_free_sock p si (w : World) (P : unit → World → Prop) X :
  socks (client w) !! p = Some si →
  P tt {| client := set_socks (delete p (socks (client w))) (client w);
          kernel := kernel w; curl := curl w |} →
  wp (free_sock p) w P X.
Proof. intros Hp HP. apply wp_bind. by apply (wp_read_sock p si). Qed.

(** *** What a callback leaves *)

(** The requests, the queue and the client's own descriptors are the same;
    a response may have grown. *)
Definition quiet (c c' : AsyncHttpClient) : Prop :=
  flights c' = flights c ∧ header_lists c' = header_lists c ∧
  response_queue c' = response_queue c ∧
  respose_notifier_fd c' = respose_notifier_fd c ∧ timer_fd c' = timer_fd c ∧
  (next_address c ≤ next_address c')%Z.

(** What the callbacks of a run from [v] rely on. *)
Record callbacks_ok (v : View) (c : AsyncHttpClient) : Prop := {
  writes_alive : ∀ easy p, easy ∈ transfers v →
    pointer write_of v easy = Some p ∨ pointer error_of v easy = Some p →
    is_Some (conns c !! p);
  known_sockets : ∀ fd p, sockets v !! fd = Some (Some p) →
    ∃ si, socks c !! p = Some si ∧ sock_fd si = fd;
  below : ∀ p, is_Some (conns c !! p) ∨ is_Some (socks c !! p) → (p < next_address c)%Z
}.

Lemma quiet_refl c : quiet c c.
Proof. unfold quiet. repeat split; try done. Qed.

Lemma quiet_trans c1 c2 c3 : quiet c1 c2 → quiet c2 c3 → quiet c1 c3.
Proof. unfold quiet. intros (?&?&?&?&?&?) (?&?&?&?&?&?). repeat split; try congruence. lia. Qed.

Lemma quiet_conns c c' p : quiet c c' → is_Some (conns c' !! p) ↔ is_Some (conns c !! p).
Proof.
  intros [Hc _]. apply (f_equal (lookup p)) in Hc. unfold flights in Hc. rewrite !lookup_fmap in Hc.
  destruct (conns c !! p), (conns c' !! p); cbn in Hc; try done; split; by intros [? [=]].
Qed.

Lemma set_timer_value_quiet ms (w : World) (P : Z → World → Prop) X :
  (∀ r k, P r {| client := client w; kernel := k; curl := curl w |}) →
  wp (set_timer_value ms) w P X.
Proof.
  intros HP. apply wp_bind, wp_gets. destruct w as [c k u]. case_match; [by apply wp_ret|].
  apply wp_bind, wp_syscall. intros. by apply wp_ret.
Qed.

Lemma set_sock_stores p fd easy act si (w : World) (P : unit → World → Prop) X :
  socks (client w) !! p = Some si →
  (∀ h k, P tt {| client := set_socks (<[p := {| sock_fd := fd; si_easy := easy; action := act |}]>
                                         (socks (client w))) (set_base h (client w));
                  kernel := k; curl := curl w |}) →
  wp (set_sock p fd easy act) w P X.
Proof.
  intros Hp HP. unfold set_sock. apply wp_bind, (wp_read_sock p si); [done|].
  apply wp_bind. destruct (negb _); apply wp_handler_call; intros h k r;
    (apply (wp_write_sock p _ si); [done|apply HP]).
Qed.

Lemma announce_sockets fd v :
  sockets (announce fd v) = match sockets v !! fd with
                            | Some _ => sockets v | None => <[fd := None]> (sockets v) end.
Proof. unfold announce. by destruct (sockets v !! fd). Qed.

Lemma announce_with fd v : announce fd v = with_sockets (sockets (announce fd v)) v.
Proof. unfold announce. destruct (sockets v !! fd); by destruct v. Qed.

Lemma with_sockets_same v : with_sockets (sockets v) v = v.
Proof. by destruct v. Qed.

Lemma callbacks_ok_announce fd v c : callbacks_ok v c → callbacks_ok (announce fd v) c.
Proof.
  intros [Hw Hs Hb]. rewrite announce_with. split; [exact Hw| |exact Hb].
  intros fd' p. cbn. rewrite announce_sockets. destruct (sockets v !! fd) eqn:E; [apply Hs|].
  destruct (decide (fd' = fd)) as [->|Hne]; [by rewrite lookup_insert_eq|].
  rewrite lookup_insert_ne by done. apply Hs.
Qed.

(** Storing the [SockInfo] of a socket. *)
Lemma callbacks_ok_store fd p si v c c' :
  callbacks_ok v c → sock_fd si = fd →
  conns c' = conns c → socks c' = <[p := si]> (socks c) → (p < next_address c')%Z →
  (next_address c ≤ next_address c')%Z →
  (∀ fd' q, fd' ≠ fd → sockets v !! fd' = Some (Some q) → q ≠ p) →
  callbacks_ok (with_sockets (<[fd := Some p]> (sockets v)) v) c'.
Proof.
  intros [Hw Hs Hb] Hfd Hc Hsk Hp Hn Hoth. split.
  - rewrite Hc. exact Hw.
  - intros fd' q. cbn. rewrite Hsk. destruct (decide (fd' = fd)) as [->|Hne].
    + rewrite lookup_insert_eq. intros [= <-]. rewrite lookup_insert_eq. eauto.
    + rewrite lookup_insert_ne by done. intros Hq.
      rewrite lookup_insert_ne by (intros <-; by eapply Hoth). by apply Hs.
  - intros q. rewrite Hc, Hsk. intros [Hq|Hq]; [specialize (Hb q (or_introl Hq)); lia|].
    destruct (decide (q = p)) as [->|Hne]; [done|]. rewrite lookup_insert_ne in Hq by done.
    specialize (Hb q (or_intror Hq)). lia.
Qed.

Lemma quiet_same c c' :
  conns c' = conns c → response_queue c' = response_queue c →
  respose_notifier_fd c' = respose_notifier_fd c → timer_fd c' = timer_fd c →
  (next_address c ≤ next_address c')%Z → quiet c c'.
Proof. unfold quiet, flights, header_lists. intros ->. repeat split; done. Qed.

(** What holds when a callback is over: [v'] is the view libcurl goes on
    from. *)
Definition resumes (v v' : View) (w w' : World) : Prop :=
  quiet (client w) (client w') ∧ view (curl w') = v' ∧ callbacks_ok v' (client w').

Lemma add_sock_resumes easy fd what v (w : World) X :
  callbacks_ok v (client w) → view (curl w) = announce fd v →
  sockets (announce fd v) !! fd = Some None →
  wp (add_sock fd easy what) w
     (fun _ w' => ∃ m, dom m = dom (sockets (announce fd v)) ∧ resumes v (with_sockets m v) w w') X.
Proof.
  intros Hok Hv Hn. set (p := next_address (client w)).
  apply wp_bind. unfold calloc_sock.
  apply wp_bind, wp_gets, wp_bind, wp_update, wp_bind, wp_update, wp_ret.
  apply wp_bind. eapply set_sock_stores; [cbn; apply lookup_insert_eq|].
  intros h k. apply wp_curl_call_. exists (<[fd := Some p]> (sockets (announce fd v))).
  assert (Hd : is_Some (sockets (view (curl w)) !! fd)) by (rewrite Hv, Hn; by eexists).
  split; [rewrite dom_insert_L; apply elem_of_dom_2 in Hn; set_solver|].
  split; [apply quiet_same; cbn; done || lia|].
  split; [cbn; rewrite curl_assign by done; by rewrite Hv, announce_with|].
  replace (with_sockets _ v) with (with_sockets (<[fd := Some p]> (sockets (announce fd v))) (announce fd v))
    by (by rewrite announce_with).
  apply (callbacks_ok_store _ _ {| sock_fd := fd; si_easy := easy; action := what |}
           (announce fd v) (client w)); cbn; try done; try (unfold p; lia).
  - by apply callbacks_ok_announce.
  - by rewrite insert_insert_eq.
  - intros fd' q Hne Hq ->. rewrite announce_sockets in Hq.
    assert (Hq' : sockets v !! fd' = Some (Some p)).
    { destruct (sockets v !! fd); [done|]. by rewrite lookup_insert_ne in Hq. }
    destruct (known_sockets _ _ Hok _ _ Hq') as (si & Hsi & _).
    pose proof (below _ _ Hok p (or_intror (mk_is_Some _ _ Hsi))). unfold p in *. lia.
Qed.

Lemma socket_cb_poll easy fd what v (w : World) X :
  what ∈ [CURL_POLL_NONE; CURL_POLL_IN; CURL_POLL_OUT; CURL_POLL_INOUT] →
  callbacks_ok v (client w) → view (curl w) = announce fd v →
  wp (socket_cb easy fd what (mjoin (sockets v !! fd))) w
     (fun _ w' => ∃ m, dom m = dom (sockets (announce fd v)) ∧ resumes v (with_sockets m v) w w') X.
Proof.
  intros Hwhat Hok Hv. unfold socket_cb. destruct (Z.eqb_spec what CURL_POLL_NONE).
  { apply wp_ret. exists (sockets (announce fd v)). split; [done|]. rewrite <- announce_with.
    split; [apply quiet_refl|]. split; [done|by apply callbacks_ok_announce]. }
  assert (what =? CURL_POLL_REMOVE = false)%Z as ->.
  { apply Z.eqb_neq. intros ->. set_solver. }
  apply wp_bind. destruct (sockets v !! fd) as [[p|]|] eqn:E; cbn [mjoin option_join].
  2,3: (eapply wp_mono; [apply (add_sock_resumes _ _ _ v)|intros [] w' Hm; exact Hm|intros ? ? HX; exact HX];
        [done|done|rewrite announce_sockets, E; try done; apply lookup_insert_eq]).
  destruct (known_sockets _ _ Hok _ _ E) as (si & Hsi & Hfd).
  apply (set_sock_stores p fd easy what si); [done|]. intros h k. apply wp_ret.
  exists (<[fd := Some p]> (sockets v)). rewrite announce_sockets, E.
  split; [rewrite dom_insert_L; apply elem_of_dom_2 in E; set_solver|]. split; [by apply quiet_same|].
  split; [cbn; rewrite Hv; unfold announce; rewrite E, insert_id by done; by rewrite with_sockets_same|].
  apply (callbacks_ok_store _ _ {| sock_fd := fd; si_easy := easy; action := what |} v (client w));
    try done; [exact (below _ _ Hok p (or_intror (mk_is_Some _ _ Hsi)))|].
  intros fd' q Hne Hq ->. destruct (known_sockets _ _ Hok _ _ Hq) as (si' & Hsi' & Hfd'). congruence.
Qed.

Lemma socket_cb_remove easy fd sp v (w : World) X :
  sockets v !! fd = Some sp → callbacks_ok v (client w) → view (curl w) = v →
  wp (socket_cb easy fd CURL_POLL_REMOVE sp) w
     (fun _ w' => quiet (client w) (client w') ∧ view (curl w') = v ∧
                  callbacks_ok (forget fd v) (client w')) X.
Proof.
  intros E Hok Hv. unfold socket_cb. cbn [Z.eqb CURL_POLL_REMOVE CURL_POLL_NONE Pos.eqb].
  assert (Hf : ∀ c, conns c = conns (client w) → (next_address (client w) ≤ next_address c)%Z →
    (∀ q, q ∉ (if sp is Some p then [p] else []) → socks c !! q = socks (client w) !! q) →
    (∀ p, sp = Some p → socks c !! p = None) →
    callbacks_ok (forget fd v) c).
  { intros c Hc Hn Hs Hp. destruct Hok as [Hw Hk Hb]. split.
    - rewrite Hc. exact Hw.
    - intros fd' q. cbn. destruct (decide (fd' = fd)) as [->|Hne]; [by rewrite lookup_delete_eq|].
      rewrite lookup_delete_ne by done. intros Hq. destruct (Hk _ _ Hq) as (si & Hsi & Hfd).
      exists si. rewrite Hs; [done|]. destruct sp as [p|]; [|set_solver]. intros ->%list_elem_of_singleton.
      destruct (Hk _ _ E) as (si' & Hsi' & Hfd'). congruence.
    - intros q Hq. rewrite Hc in Hq.
      assert (q < next_address (client w))%Z; [|lia]. apply Hb.
      destruct Hq as [Hq|Hq]; [by left|right]. destruct sp as [p|].
      + destruct (decide (q = p)) as [->|]; [rewrite (Hp p eq_refl) in Hq; by destruct Hq|].
        rewrite Hs in Hq; [done|]. by rewrite list_elem_of_singleton.
      + rewrite Hs in Hq; [done|set_solver]. }
  apply wp_bind. destruct sp as [p|]; cbn [rem_sock].
  - destruct (known_sockets _ _ Hok _ _ E) as (si & Hsi & Hfd).
    apply wp_bind, (wp_read_sock p si); [done|]. apply wp_bind, wp_when; intros Hz.
    + apply wp_bind, wp_handler_call. intros h k r. apply wp_ret, (wp_free_sock p si); [done|].
      apply wp_ret. split; [by apply quiet_same|]. split; [done|]. apply Hf; cbn;
        [done|lia|intros q Hq; rewrite lookup_delete_ne; [done|set_solver]|
         intros ? [= <-]; apply lookup_delete_eq].
    + apply (wp_free_sock p si); [done|].
      apply wp_ret. split; [by apply quiet_same|]. split; [done|]. apply Hf; cbn;
        [done|lia|intros q Hq; rewrite lookup_delete_ne; [done|set_solver]|
         intros ? [= <-]; apply lookup_delete_eq].
  - apply wp_ret, wp_ret. split; [apply quiet_refl|]. split; [done|]. by apply Hf.
Qed.

(** Data and error texts go to a block that is on the heap. *)
Lemma write_conn_resumes p f v (w : World) X :
  (∀ ci, ci_id (f ci) = ci_id ci ∧ ci_easy (f ci) = ci_easy ci ∧ ci_header_list (f ci) = ci_header_list ci) →
  is_Some (conns (client w) !! p) → callbacks_ok v (client w) → view (curl w) = v →
  wp (write_conn p f) w (fun _ w' => resumes v v w w') X.
Proof.
  intros Hf [ci Hp] [Hw Hk Hb] Hv. apply (wp_write_conn p f ci); [done|].
  assert (Hd : ∀ q, is_Some (<[p := f ci]> (conns (client w)) !! q) ↔ is_Some (conns (client w) !! q)).
  { intros q. destruct (decide (q = p)) as [->|Hne].
    - rewrite lookup_insert_eq, Hp. split; by eexists.
    - by rewrite lookup_insert_ne. }
  split; [|split; [done|split]].
  - destruct (Hf ci) as (Hi & He & Hl). unfold quiet, flights, header_lists. cbn. split; [|split; [|done]].
    + rewrite fmap_insert. apply insert_id. rewrite lookup_fmap, Hp. cbn. unfold tag_of. by rewrite Hi, He.
    + apply map_eq. intros q. rewrite !lookup_omap. destruct (decide (q = p)) as [->|Hne].
      * rewrite lookup_insert_eq, Hp. exact Hl.
      * by rewrite lookup_insert_ne.
  - intros e q He Hq. cbn. rewrite Hd. by eapply Hw.
  - exact Hk.
  - intros q. cbn. rewrite Hd. apply Hb.
Qed.

(** A polite run is carried out to its end. *)
Lemma run_polite {A} (Q : View → A → Prop) v (r : curl_run U A) (w : World) X :
  polite Q v r → callbacks_ok v (client w) →
  wp (run_curl r) w
     (fun a w' => quiet (client w) (client w') ∧ Q (view (curl w')) a ∧
                  callbacks_ok (with_sockets (sockets (view (curl w'))) v) (client w')) X.
Proof.
  intros Hp. revert w. induction Hp as
    [v u a Hs HQ|v easy fd what u k Hwhat Hv Hk IH|v easy fd sp u k E Hv Hk IH|v ms u k Hv Hk IH
    |v easy ptr p u k He Hptr Hv Hk IH|v easy text p u k He Hptr Hv Hk IH]; intros w Hok.
  - apply wp_bind, wp_curl_call_, wp_ret. split; [apply quiet_refl|]. split; [done|].
    cbn. rewrite Hs, with_sockets_same. exact Hok.
  - apply wp_bind, wp_curl_call_, wp_bind.
    eapply wp_mono; [apply (socket_cb_poll _ _ _ v); cbn; done| |intros ? ? HX; exact HX].
    intros b w' (m & Hm & Hq & Hv' & Hok'). cbn in Hq.
    eapply wp_mono; [by apply (IH (curl w') m b Hv' Hm w')| |intros ? ? HX; exact HX].
    intros a w'' (Hq' & HQ & Hok''). split; [by eapply quiet_trans|]. split; [done|exact Hok''].
  - apply wp_bind, wp_curl_call_, wp_bind.
    eapply wp_mono; [apply (socket_cb_remove _ _ _ v); cbn; done| |intros ? ? HX; exact HX].
    intros b w' (Hq & Hv' & Hok'). cbn in Hq.
    eapply wp_mono; [by apply (IH (curl w') b Hv' w')| |intros ? ? HX; exact HX].
    intros a w'' (Hq' & HQ & Hok''). split; [by eapply quiet_trans|]. split; [done|exact Hok''].
  - apply wp_bind, wp_curl_call_, wp_bind, wp_bind, set_timer_value_quiet. intros r k'. apply wp_ret.
    eapply wp_mono; [by apply IH|auto|auto].
  - apply wp_bind, wp_curl_call_, wp_bind, wp_bind.
    eapply wp_mono; [apply (write_conn_resumes p _ v); cbn; try done; eapply (writes_alive _ _ Hok); eauto
                    | |intros ? ? HX; exact HX].
    intros b w' (Hq & Hv' & Hok'). cbn in Hq. apply wp_ret.
    eapply wp_mono; [by apply (IH (curl w') _ Hv' w')| |intros ? ? HX; exact HX].
    intros a w'' (Hq' & HQ & Hok''). split; [by eapply quiet_trans|]. done.
  - apply wp_bind, wp_curl_call_, wp_bind, wp_bind.
    eapply wp_mono; [apply (write_conn_resumes p _ v); cbn; try done; eapply (writes_alive _ _ Hok); eauto
                    | |intros ? ? HX; exact HX].
    intros b w' (Hq & Hv' & Hok'). cbn in Hq. apply wp_ret.
    eapply wp_mono; [by apply (IH (curl w') _ Hv' w')| |intros ? ? HX; exact HX].
    intros a w'' (Hq' & HQ & Hok''). split; [by eapply quiet_trans|]. done.
Qed.

Lemma wp_multi_call {A} (f : U → curl_run U A) (Q : View → A → Prop) v (w : World)
    (P : A → World → Prop) X :
  polite Q v (f (curl w)) → callbacks_ok v (client w) →
  (∀ a w', quiet (client w) (client w') → Q (view (curl w')) a →
     callbacks_ok (with_sockets (sockets (view (curl w'))) v) (client w') → P a w') →
  wp (multi_call f) w P X.
Proof.
  intros Hp Hok HP. eapply wp_mono; [by apply (run_polite Q v _ w)| |intros ? ? HX; exact HX].
  intros a w' (? & ? & ?). by apply HP.
Qed.

(** *** Requests *)

Lemma pointer_easies f v v' easy : easies v' !! easy = easies v !! easy → pointer f v' easy = pointer f v easy.
Proof. unfold pointer. by intros ->. Qed.

Lemma flights_alive c p x : flights c !! p = Some x → is_Some (conns c !! p).
Proof. unfold flights. rewrite lookup_fmap. destruct (conns c !! p); [by eexists|done]. Qed.

Lemma client_callbacks v c : client_ok v c → callbacks_ok v c.
Proof.
  intros [Ha Hg He Hs Hb _]. split; [|done|done].
  intros easy p Hin Hp. destruct (Ha _ Hin) as (q & i & Hq).
  destruct (Hg _ _ _ Hq) as (_ & _ & Hw & Her).
  assert (q = p) as -> by (destruct Hp; congruence). by eapply flights_alive.
Qed.

(** The transfers stay the same. *)
Lemma client_ok_same v v' c c' :
  client_ok v c → flights c' = flights c → transfers v' = transfers v →
  (∀ easy, easy ∈ transfers v → easies v' !! easy = easies v !! easy) →
  lists_ok v' c' → callbacks_ok v' c' → client_ok v' c'.
Proof.
  intros [Ha Hg He Hs Hb _] Hf Ht Heq Hl [_ Hs' Hb']. split; [| | |done|done|done]; rewrite ?Ht, ?Hf.
  - exact Ha.
  - intros p i easy Hp. destruct (Hg _ _ _ Hp) as (Hin & Hg1 & Hg2 & Hg3). unfold conn_given.
    rewrite Ht, !(pointer_easies _ v v') by (by apply Heq). done.
  - intros easy Hin. rewrite Heq by done. by apply He.
Qed.

(** The lists stay the same, or there are more, and so do those owned. *)
Lemma lists_ok_same v v' c c' :
  lists_ok v c → header_lists c' = header_lists c → slists v ⊆ slists v' → lists_ok v' c'.
Proof.
  intros [Hl Hu] Hh Hs. unfold lists_ok. rewrite Hh. split; [|done].
  intros p l Hp. destruct (Hl p l Hp) as [x Hx]. exists x. by eapply lookup_weaken.
Qed.

(** The header list made so far: its address and its strings. *)
Definition header_list : Type := option (Z * list str).

Definition list_fresh (v : View) (hl : header_list) : Prop :=
  match hl with Some (l, _) => slists v !! l = None | None => True end.

(** libcurl with it. *)
Definition lists_with (hl : header_list) (v : View) : gmap Z (list str) :=
  match hl with Some (l, hs) => <[l := hs]> (slists v) | None => slists v end.

(** A request between [calloc] and [curl_multi_add_handle]: the client has
    one more block, libcurl one more handle, with the options [os], and one
    more list, which is in the block once it is an option. *)
Definition preparing (v : View) (c : AsyncHttpClient) (easy : Z) (ci : ConnInfo)
  (os : list CURLoption) (hl : header_list) (w : World) : Prop :=
  list_fresh v hl ∧
  view (curl w) = with_slists (lists_with hl v) (with_easies (<[easy := os]> (easies v)) v) ∧
  client w = bump_address (set_conns (<[next_address c := ci]> (conns c)) c).

(** The list a block has is the one made. *)
Definition list_stored (ci : ConnInfo) (hl : header_list) : Prop :=
  ci_header_list ci = None ∨ ci_header_list ci = fst <$> hl.

(** The list a failure loses. *)
Definition lost_list (ci : ConnInfo) (hl : header_list) : header_list :=
  match ci_header_list ci with Some _ => None | None => hl end.

(** A request given up: libcurl keeps the handle and the list lost. *)
Definition given_up (v : View) (c : AsyncHttpClient) (easy : Z) (lost : header_list) (w : World) : Prop :=
  list_fresh v lost ∧
  (∃ os, view (curl w) = with_slists (lists_with lost v) (with_easies (<[easy := os]> (easies v)) v)) ∧
  client w = bump_address c.

Ltac in_list := first [apply list_elem_of_here | apply list_elem_of_further; in_list].

Section Preparing.
Context (v : View) (c : AsyncHttpClient) (easy : Z).
Hypothesis Hfresh : conns c !! next_address c = None.

Lemma free_prepared ci os hl (w : World) (P : unit → World → Prop) X :
  list_stored ci hl → preparing v c easy ci os hl w →
  (∀ w', given_up v c easy (lost_list ci hl) w' → P tt w') →
  wp (free_conn (next_address c)) w P X.
Proof.
  intros Hst (Hlf & Hv & Hc) HP. apply (wp_free_conn _ ci); [rewrite Hc; cbn; by rewrite lookup_insert_eq|].
  apply HP. unfold lost_list. split; [by destruct (ci_header_list ci)|]. split.
  - exists os. cbn. destruct Hst as [Hn|Hs].
    + rewrite Hn. exact Hv.
    + rewrite Hs. destruct hl as [[l hs]|]; cbn; [|exact Hv].
      rewrite curl_free_all by (rewrite Hv; cbn; rewrite lookup_insert_eq; by eexists).
      rewrite Hv. unfold with_slists. cbn. by rewrite delete_insert_id.
  - cbn. rewrite Hc. cbn. unfold set_conns, bump_address. cbn.
    rewrite delete_insert_id by done. by destruct c.
Qed.

Lemma refuse {A} ci os hl what (w : World) (P : A → World → Prop) (X : exn → World → Prop) :
  existsb (fun c => Ascii.eqb NUL c || Ascii.eqb "%" c) what = false →
  list_stored ci hl → preparing v c easy ci os hl w →
  (∀ w', given_up v c easy (lost_list ci hl) w' → X (HttpError what) w') →
  wp (free_conn (next_address c);; lift (throw_http what [])) w P X.
Proof.
  intros Hl Hst Hw HX. apply wp_bind. eapply free_prepared; [done|done|]. intros w' Hg.
  unfold wp, lift, throw_http. rewrite fmt_what_literal by done. by apply HX.
Qed.

(** The options of one [if]. *)
Lemma setopts_spec ci opts os hl (w : World) (P : bool → World → Prop) X :
  preparing v c easy ci os hl w →
  (∀ w', preparing v c easy ci (reverse opts ++ os) hl w' → P true w') →
  (∀ os' w', preparing v c easy ci os' hl w' → P false w') →
  wp (setopts easy opts) w P X.
Proof.
  revert os w. induction opts as [|o opts IH]; intros os w Hw HT HF; cbn [setopts].
  { by apply wp_ret, HT. }
  apply wp_bind, wp_curl_call. intros u rc Hset. destruct Hw as (Hlf & Hv & Hc).
  destruct (Z.eqb_spec rc CURLE_OK) as [->|Hrc].
  - apply (IH (o :: os)); [|by rewrite reverse_cons, <- app_assoc in HT|done].
    split; [done|]. split; [|done]. cbn. eapply curl_setopt_ok in Hset; [|rewrite Hv; cbn; apply lookup_insert_eq].
    rewrite Hset, Hv. unfold with_easies, with_slists. cbn. by rewrite insert_insert_eq.
  - apply wp_ret, (HF os). split; [done|]. split; [|done]. cbn. apply curl_setopt_failed in Hset; [|done]. by rewrite Hset.
Qed.

Lemma require_spec ci opts os hl what (w : World) (P : unit → World → Prop) (X : exn → World → Prop) :
  existsb (fun c => Ascii.eqb NUL c || Ascii.eqb "%" c) what = false →
  list_stored ci hl → preparing v c easy ci os hl w →
  (∀ w', given_up v c easy (lost_list ci hl) w' → X (HttpError what) w') →
  (∀ w', preparing v c easy ci (reverse opts ++ os) hl w' → P tt w') →
  wp (require easy (next_address c) opts what) w P X.
Proof.
  intros Hl Hst Hw HX HP. apply wp_bind. eapply setopts_spec; [done|exact HP|].
  intros os' w' Hw'. by eapply refuse.
Qed.

Lemma write_prepared ci os hl f (w : World) (P : unit → World → Prop) X :
  preparing v c easy ci os hl w → (∀ w', preparing v c easy (f ci) os hl w' → P tt w') →
  wp (write_conn (next_address c) f) w P X.
Proof.
  intros (Hlf & Hv & Hc) HP. apply (wp_write_conn _ f ci); [rewrite Hc; apply lookup_insert_eq|].
  apply HP. split; [done|]. split; [done|]. cbn. rewrite Hc. unfold set_conns, bump_address. cbn.
  by rewrite insert_insert_eq.
Qed.

(** The loop over the headers: all of them are in the list, or those before
    the one that failed are in the list lost. *)
Lemma append_headers_spec ci os headers done hl (w : World) (P : option Z → World → Prop)
    (X : exn → World → Prop) :
  ci_header_list ci = None →
  (match hl with Some (_, hs) => hs = done ∧ done ≠ [] | None => done = [] end) →
  preparing v c easy ci os hl w →
  (∀ lost w', (match lost with Some (_, hs) => hs ≠ [] ∧ ∃ x r, done ++ headers = hs ++ x :: r | None => True end) →
     given_up v c easy lost w' → X (HttpError #"appending header to request error") w') →
  (∀ hl' w', (match hl' with Some (_, hs) => hs = done ++ headers ∧ hs ≠ [] | None => done ++ headers = [] end) →
     preparing v c easy ci os hl' w' → P (fst <$> hl') w') →
  wp (append_headers (next_address c) headers (fst <$> hl)) w P X.
Proof.
  intros Hci Hhl Hw HX HP. revert done hl w Hhl Hw HX HP.
  induction headers as [|s headers IH]; intros done hl w Hhl Hw HX HP; cbn [append_headers].
  { apply wp_ret, HP; [|exact Hw]. rewrite app_nil_r. destruct hl as [[l hs]|]; [|exact Hhl].
    by destruct Hhl as [-> ?]. }
  apply wp_bind, wp_curl_call. intros u l' Ha.
  destruct Hw as (Hlf & Hv & Hc). apply (curl_append _ done) in Ha.
  2: { rewrite Hv. destruct hl as [[l hs]|]; cbn; [destruct Hhl as [-> _]; apply lookup_insert_eq|exact Hhl]. }
  destruct l' as [l'|].
  - destruct Ha as [Hn Hv']. rewrite Hv in Hn, Hv'.
    assert (Hrest : match fst <$> hl with Some l => delete l (lists_with hl v) | None => lists_with hl v end = slists v).
    { destruct hl as [[l hs]|]; cbn; [by apply delete_insert_id|done]. }
    cbn in Hn, Hv'. rewrite Hrest in Hn, Hv'.
    replace (Some l') with (fst <$> Some (l', done ++ [s])) by done.
    eapply (IH (done ++ [s])).
    + split; [done|]. by destruct done.
    + split; [exact Hn|]. split; [exact Hv'|exact Hc].
    + intros lost w' Hlost. rewrite <- app_assoc in Hlost. by apply HX.
    + intros hl' w' Hhl'. rewrite <- app_assoc in Hhl'. by apply HP.
  - eapply refuse; [done|by left|split; [exact Hlf|split; [cbn; by rewrite Ha|exact Hc]]|].
    intros w' Hg. unfold lost_list in Hg. rewrite Hci in Hg. eapply HX; [|exact Hg].
    destruct hl as [[l hs]|]; [|done]. destruct Hhl as [-> Hne]. split; [done|]. by eexists _, _.
Qed.

(** What the failing of a request with the message [what] loses: a list of
    some of its headers when one could not be appended, of all of them when
    libcurl does not take the list, else none. *)
Definition list_lost (request : HttpRequest) (what : str) (lost : header_list) : Prop :=
  match lost with
  | None => what ≠ #"headers processing error"
  | Some (_, hs) => hs ≠ [] ∧
      (what = #"headers processing error" ∧ hs = hr_headers request ∨
       what = #"appending header to request error" ∧ ∃ x r, hr_headers request = hs ++ x :: r)
  end.

(** The list of a request. *)
Definition list_of (request : HttpRequest) (hl : header_list) : Prop :=
  match hl with None => hr_headers request = [] | Some (_, hs) => hs = hr_headers request ∧ hs ≠ [] end.

(** The headers of a request, and the list kept in its block. *)
Lemma headers_spec ci os request (w : World) (P : unit → World → Prop) (X : exn → World → Prop) :
  ci_header_list ci = None → preparing v c easy ci os None w →
  (∀ what lost w', what ∈ client_errors → list_lost request what lost → given_up v c easy lost w' →
     X (HttpError what) w') →
  (∀ hl w', list_of request hl →
     preparing v c easy (set_ci_header_list (fst <$> hl) ci) (reverse (header_options (fst <$> hl)) ++ os) hl w' →
     P tt w') →
  wp (header_list ← append_headers (next_address c) (hr_headers request) None;
      match header_list with
      | None => mret tt
      | Some l =>
          require easy (next_address c) [HTTPHEADER l] #"headers processing error";;
          write_conn (next_address c) (set_ci_header_list header_list)
      end) w P X.
Proof.
  intros Hci Hw HX HP. apply wp_bind.
  apply (append_headers_spec ci os (hr_headers request) [] None); [done|done|exact Hw| |].
  { intros lost w' Hl. apply HX; [in_list|]. destruct lost as [[l hs]|]; [|done].
    destruct Hl as [Hne Hpre]. split; [done|]. by right. }
  clear Hw. intros hl w' Hhl Hw. destruct hl as [[l hs]|]; cbn [fst fmap option_fmap option_map].
  - apply wp_bind. eapply require_spec; [done|by left|exact Hw| |].
    + intros w1 Hg. unfold lost_list in Hg. rewrite Hci in Hg.
      destruct Hhl as [-> Hne]. eapply HX; [in_list| |exact Hg]. split; [done|]. by left.
    + clear Hw. intros w1 Hw. eapply write_prepared; [exact Hw|]. intros w2 Hw2.
      by apply (HP (Some (l, hs))).
  - apply wp_ret, (HP None); [done|]. unfold header_options. cbn. by destruct ci; cbn in Hci; subst.
Qed.
End Preparing.

(** A request taken: a new transfer with the options of the request, a block
    of its own with the list of its headers, and that list. *)
Definition taken (request : HttpRequest) (v : View) (c : AsyncHttpClient) (w : World) : Prop :=
  ∃ easy p hl, easy ∉ transfers v ∧ flights c !! p = None ∧
    transfers (view (curl w)) = {[easy]} ∪ transfers v ∧
    flights (client w) = <[p := (hr_id request, easy)]> (flights c) ∧
    easies (view (curl w)) !! easy = Some (reverse (request_options p (fst <$> hl) request)) ∧
    list_of request hl ∧ list_fresh v hl ∧ slists (view (curl w)) = lists_with hl v ∧
    header_lists (client w) !! p = fst <$> hl.

(** What is as before when it is not. *)
Definition not_taken (v : View) (c : AsyncHttpClient) (w : World) : Prop :=
  transfers (view (curl w)) = transfers v ∧ flights (client w) = flights c ∧
  header_lists (client w) = header_lists c.

(** What is left for ever: a new easy handle that nobody gives back, and a
    list that nobody frees. *)
Definition leaks (lost : header_list) (v v' : View) : Prop :=
  (∃ easy os, easies v !! easy = None ∧ easies v' = <[easy := os]> (easies v)) ∧
  list_fresh v lost ∧ slists v' = lists_with lost v.

Definition keeps_world (c : AsyncHttpClient) (w : World) : Prop :=
  world_ok w ∧ response_queue (client w) = response_queue c ∧
  respose_notifier_fd (client w) = respose_notifier_fd c ∧ timer_fd (client w) = timer_fd c.

Lemma messages_ok_grow v v' : messages_ok v → messages v' = messages v →
  transfers v ⊆ transfers v' → messages_ok v'.
Proof.
  intros [Hn Hf] Hm Ht. unfold messages_ok. rewrite Hm. split; [done|].
  eapply Forall_impl; [exact Hf|]. cbn. intros m [Hin ?]. split; [set_solver|done].
Qed.

Lemma fresh_easy v c easy : client_ok v c → easies v !! easy = None → easy ∉ transfers v.
Proof. intros Hok Hn Hin. destruct (transfers_easies _ _ Hok _ Hin) as [? ?]. congruence. Qed.

Lemma fresh_block v c : client_ok v c → conns c !! next_address c = None ∧ flights c !! next_address c = None.
Proof.
  intros Hok. destruct (conns c !! next_address c) as [ci|] eqn:E.
  - pose proof (addresses_below _ _ Hok (next_address c) (or_introl (mk_is_Some _ _ E))). lia.
  - split; [done|]. unfold flights. by rewrite lookup_fmap, E.
Qed.

Lemma lists_with_more v hl : list_fresh v hl → slists v ⊆ lists_with hl v.
Proof. destruct hl as [[l hs]|]; [|done]. apply insert_subseteq. Qed.

Lemma given_up_keeps v c easy lost (w : World) :
  client_ok v c → messages_ok v → easies v !! easy = None → given_up v c easy lost w →
  keeps_world c w ∧ not_taken v c w ∧ leaks lost v (view (curl w)).
Proof.
  intros Hok Hm Hn (Hlf & [os Hv] & Hc). unfold keeps_world, not_taken, world_ok, leaks. rewrite Hc, Hv.
  split; [split; [split; [|exact Hm]|done]|split; [done|split; [by eexists _, _|done]]].
  eapply client_ok_same; cbn; try done.
  - intros e He. rewrite lookup_insert_ne; [done|]. intros ->. by eapply fresh_easy.
  - eapply lists_ok_same; [apply (lists_owned _ _ Hok)|done|]. by apply lists_with_more.
  - destruct (client_callbacks _ _ Hok) as [Hw Hs Hb]. split; cbn.
    + intros e p He. unfold pointer. cbn. rewrite lookup_insert_ne; [by apply Hw|].
      intros ->. by eapply fresh_easy.
    + done.
    + intros p Hp. specialize (Hb p Hp). lia.
Qed.

(** The pointers of the options of a request. *)
Lemma request_pointers p hl request :
  last_of private_of (reverse (request_options p hl request)) = Some p ∧
  last_of write_of (reverse (request_options p hl request)) = Some p ∧
  last_of error_of (reverse (request_options p hl request)) = Some p.
Proof. unfold request_options. by rewrite !reverse_app. Qed.

(** One more block owns a new list. *)
Lemma lists_ok_insert v v' c c' p hl :
  lists_ok v c → list_fresh v hl → header_lists c !! p = None →
  header_lists c' = (match fst <$> hl with Some l => <[p := l]> (header_lists c) | None => header_lists c end) →
  slists v' = lists_with hl v → lists_ok v' c'.
Proof.
  intros [Hl Hu] Hf Hp Hh Hs. unfold lists_ok. rewrite Hh, Hs. destruct hl as [[l hs]|]; cbn; [|done].
  assert (Hnew : ∀ q, header_lists c !! q ≠ Some l).
  { intros q Hq. destruct (Hl q l Hq) as [x Hx]. cbn in Hf. congruence. }
  split.
  - intros q l' Hq. apply lookup_insert_Some in Hq as [[<- <-]|[_ Hq]]; [rewrite lookup_insert_eq; by eexists|].
    rewrite lookup_insert_ne; [by eapply Hl|]. intros <-. by eapply Hnew.
  - intros q1 q2 l' H1' H2'. apply lookup_insert_Some in H1' as [[<- <-]|[_ H1']];
      apply lookup_insert_Some in H2' as [[<- E]|[_ H2']]; try done; [by eapply Hnew in H2'|by subst; eapply Hnew in H1'|by eapply Hu].
Qed.

Lemma header_lists_insert c p ci :
  header_lists (set_conns (<[p := ci]> (conns c)) c)
  = partial_alter (fun _ => ci_header_list ci) p (header_lists c).
Proof.
  apply map_eq. intros q. unfold header_lists. cbn. rewrite lookup_omap.
  destruct (decide (q = p)) as [->|Hne].
  - by rewrite lookup_insert_eq, lookup_partial_alter_eq.
  - by rewrite lookup_insert_ne, lookup_partial_alter_ne, lookup_omap.
Qed.

Lemma header_lists_delete c p :
  header_lists (set_conns (delete p (conns c)) c) = delete p (header_lists c).
Proof. unfold header_lists. cbn. apply omap_delete. Qed.

Lemma partial_alter_fresh {V} (m : gmap Z V) p (x : option V) :
  m !! p = None → partial_alter (fun _ => x) p m = match x with Some l => <[p := l]> m | None => m end.
Proof. intros Hm. destruct x; [done|]. by apply partial_alter_id. Qed.

(** What [make_request] leaves: the request is in flight; or nothing is, and
    the easy handle is lost, if [curl_easy_init] gave one. *)
Definition request_done (request : HttpRequest) (u : U) (c : AsyncHttpClient) (r : Z) (w : World) : Prop :=
  keeps_world c w ∧
  if (r =? 0)%Z then taken request (view u) c w
  else r = (-1)%Z ∧ not_taken (view u) c w ∧
       match snd (curl_easy_init u) with
       | None => view (curl w) = view u
       | Some _ => leaks None (view u) (view (curl w))
       end.

(** Or a message is thrown, the easy handle is lost, and so may the list be. *)
Definition request_failed (request : HttpRequest) (v : View) (c : AsyncHttpClient) (e : exn) (w : World) : Prop :=
  keeps_world c w ∧ not_taken v c w ∧
  ∃ what lost, what ∈ client_errors ∧ e = HttpError what ∧ list_lost request what lost ∧
    leaks lost v (view (curl w)).

(** A block more keeps the callbacks in order. *)
Lemma preparing_callbacks v c easy ci os hl (w : World) :
  client_ok v c → easies v !! easy = None → preparing v c easy ci os hl w →
  callbacks_ok (view (curl w)) (client w).
Proof.
  intros Hok Hn (_ & -> & ->). destruct (client_callbacks _ _ Hok) as [Hcw Hcs Hcb]. split; cbn.
  - intros e q He Hq. rewrite !(pointer_easies _ v (with_slists _ _)) in Hq.
    + destruct (Hcw _ _ He Hq) as [x Hx]. rewrite lookup_insert_is_Some.
      destruct (decide (next_address c = q)); [by left|]. right. split; [done|by eexists].
    + cbn. apply lookup_insert_ne. intros ->. by eapply fresh_easy.
    + cbn. apply lookup_insert_ne. intros ->. by eapply fresh_easy.
  - done.
  - intros q. rewrite lookup_insert_is_Some. intros [[<-|[_ Hq]]|Hq]; [lia| |].
    + specialize (Hcb q (or_introl Hq)). lia.
    + specialize (Hcb q (or_intror Hq)). lia.
Qed.

(** A transfer more, with a block of its own. *)
Lemma client_ok_add v v' v2 c c' easy p hl request :
  client_ok v c → easies v !! easy = None → flights c !! p = None →
  flights c' = <[p := (hr_id request, easy)]> (flights c) →
  transfers v' = {[easy]} ∪ transfers v →
  easies v' = <[easy := reverse (request_options p hl request)]> (easies v) →
  lists_ok v' c' → sockets v2 = sockets v' → callbacks_ok v2 c' → client_ok v' c'.
Proof.
  intros Hok Hn Hff Hf' Ht He Hl Hsk [_ Hs' Hb']. rewrite Hsk in Hs'.
  assert (Hold : ∀ e, e ∈ transfers v → easies v' !! e = easies v !! e).
  { intros e Hin. rewrite He. apply lookup_insert_ne. intros ->. by eapply fresh_easy. }
  split; [| | |done|done|done]; rewrite ?Ht, ?Hf'.
  - intros e [->%elem_of_singleton|Hin]%elem_of_union.
    { exists p, (hr_id request). by rewrite lookup_insert_eq. }
    destruct (transfers_alive _ _ Hok _ Hin) as (q & i & Hq). exists q, i.
    rewrite lookup_insert_ne; [done|]. intros <-. congruence.
  - intros q i e Hq. apply lookup_insert_Some in Hq as [[<- [= <- <-]]|[Hne Hq]].
    { destruct (request_pointers p hl request) as (Hp1 & Hp2 & Hp3).
      unfold conn_given, pointer. rewrite Ht, He, lookup_insert_eq. set_solver. }
    destruct (conns_given _ _ Hok _ _ _ Hq) as (Hin & Hg1 & Hg2 & Hg3).
    unfold conn_given. rewrite !(pointer_easies _ v v') by (by apply Hold). set_solver.
  - intros e [->%elem_of_singleton|Hin]%elem_of_union.
    { rewrite He, lookup_insert_eq. by eexists. }
    rewrite Hold by done. by eapply transfers_easies.
Qed.

(** Without the new block again, one easy handle more. *)
Lemma callbacks_ok_drop v v' c c' easy os ci p :
  client_ok v c → easies v !! easy = None → flights c !! p = None →
  flights c' = <[p := (ci, easy)]> (flights c) →
  transfers v' = transfers v → easies v' = <[easy := os]> (easies v) → callbacks_ok v' c' →
  callbacks_ok v' (set_conns (delete p (conns c')) c').
Proof.
  intros Hok Hn Hff Hf' Ht He [_ Hs' Hb']. split; [|exact Hs'|].
  - rewrite Ht. intros e q Hin Hq.
    rewrite !(pointer_easies _ v v') in Hq
      by (rewrite He; apply lookup_insert_ne; intros ->; by eapply fresh_easy).
    assert (Ha : is_Some (flights c !! q)).
    { unfold flights. rewrite lookup_fmap. apply fmap_is_Some. by eapply (client_callbacks _ _ Hok). }
    cbn. rewrite lookup_delete_ne by (intros <-; rewrite Hff in Ha; by destruct Ha).
    destruct Ha as [x Hx]. apply (flights_alive c' q x). rewrite Hf', lookup_insert_ne; [done|].
    intros <-. congruence.
  - intros q. cbn. rewrite lookup_delete_is_Some. intros Hq. apply Hb'. tauto.
Qed.

(** libcurl after [free_conn]: without the list of the block. *)
Lemma freed_list (l : option Z) (u : U) :
  (∀ x, l = Some x → is_Some (slists (view u) !! x)) →
  view (match l with Some x => curl_slist_free_all x u | None => u end)
  = with_slists (match l with Some x => delete x (slists (view u)) | None => slists (view u) end) (view u).
Proof.
  intros Hl. destruct l as [x|]; [by apply curl_free_all, Hl|]. by destruct (view u).
Qed.

(** libcurl refuses the transfer: the block goes, and its list with it. *)
Lemma refused_spec request u c easy os hl p (w : World) X :
  let v := view u in
  client_ok v c → messages_ok v → easies v !! easy = None → is_Some (snd (curl_easy_init u)) →
  conns c !! p = None → list_fresh v hl →
  flights (client w) = <[p := (hr_id request, easy)]> (flights c) →
  header_lists (client w) = partial_alter (fun _ => fst <$> hl) p (header_lists c) →
  easies (view (curl w)) = <[easy := os]> (easies v) → slists (view (curl w)) = lists_with hl v →
  messages (view (curl w)) = messages v → transfers (view (curl w)) = transfers v →
  response_queue (client w) = response_queue c →
  respose_notifier_fd (client w) = respose_notifier_fd c → timer_fd (client w) = timer_fd c →
  callbacks_ok (view (curl w)) (client w) →
  wp (free_conn p;; mret (-1)%Z) w (request_done request u c) X.
Proof.
  intros v Hok Hm Hn [z Hz] Hfc Hlf Hf Hh He Hsl Hms Ht Hrq Hrn Htf Hcb.
  assert (Hff : flights c !! p = None) by (unfold flights; by rewrite lookup_fmap, Hfc).
  assert (Hhp : header_lists c !! p = None) by (unfold header_lists; by rewrite lookup_omap, Hfc).
  assert (Hal : is_Some (conns (client w) !! p)).
  { eapply flights_alive. rewrite Hf. apply lookup_insert_eq. }
  destruct Hal as [ci Hci].
  assert (Hcl : ci_header_list ci = fst <$> hl).
  { apply (f_equal (lookup p)) in Hh. rewrite lookup_partial_alter_eq in Hh.
    unfold header_lists in Hh. by rewrite lookup_omap, Hci in Hh. }
  apply wp_bind, (wp_free_conn p ci); [done|]. rewrite Hcl. apply wp_ret.
  assert (Hu : view (match fst <$> hl with Some x => curl_slist_free_all x (curl w) | None => curl w end)
               = with_slists (slists v) (view (curl w))).
  { rewrite freed_list; rewrite Hsl; destruct hl as [[l hs]|]; cbn; try done.
    - by rewrite delete_insert_id.
    - intros x [= <-]. rewrite lookup_insert_eq. by eexists. }
  unfold request_done, keeps_world, not_taken, world_ok, leaks. cbn. rewrite Hu, Hz. cbn.
  assert (Hfl : flights (set_conns (delete p (conns (client w))) (client w)) = flights c).
  { unfold flights in *. cbn. by rewrite fmap_delete, Hf, delete_insert_id. }
  assert (Hhl : header_lists (set_conns (delete p (conns (client w))) (client w)) = header_lists c).
  { rewrite header_lists_delete, Hh, partial_alter_fresh by done.
    destruct (fst <$> hl); [by rewrite delete_insert_id|by rewrite delete_id]. }
  split; [split; [split|done]|split; [done|split; [done|split; [by eexists _, _|done]]]].
  - apply (client_ok_same v _ c); try done.
    + intros e Hin. cbn. rewrite He. apply lookup_insert_ne. intros ->. by eapply fresh_easy.
    + eapply lists_ok_same; [apply (lists_owned _ _ Hok)|done|done].
    + apply (callbacks_ok_drop v _ c _ easy os (hr_id request)); try done. by destruct Hcb.
  - eapply messages_ok_grow; [exact Hm|done|]. cbn. by rewrite Ht.
Qed.

(** [curl_multi_add_handle] and what follows it. *)
Lemma add_handle_spec request u c easy ci hl (w : World) X :
  let v := view u in
  client_ok v c → messages_ok v → easies v !! easy = None → is_Some (snd (curl_easy_init u)) →
  ci_id ci = hr_id request → ci_easy ci = easy → ci_header_list ci = fst <$> hl → list_of request hl →
  preparing v c easy ci (reverse (request_options (next_address c) (fst <$> hl) request)) hl w →
  wp (rc ← multi_call (curl_multi_add_handle easy);
      if (rc =? CURLM_OK)%Z then mret 0%Z else free_conn (next_address c);; mret (-1)%Z) w
     (request_done request u c) X.
Proof.
  intros v Hok Hm Hn Hz Hid Heasy Hcl Hlo Hprep.
  pose proof (preparing_callbacks _ _ _ _ _ _ _ Hok Hn Hprep) as Hcall.
  destruct Hprep as (Hlf & Hv & Hc). set (p := next_address c) in *.
  destruct (fresh_block _ _ Hok) as [Hfc Hff]. fold p in Hfc, Hff. pose proof (fresh_easy _ _ _ Hok Hn) as Hnt.
  assert (Hfl : flights (client w) = <[p := (hr_id request, easy)]> (flights c)).
  { rewrite Hc. unfold flights. cbn. rewrite fmap_insert. unfold tag_of. by rewrite Hid, Heasy. }
  assert (Hhp : header_lists c !! p = None) by (unfold header_lists; by rewrite lookup_omap, Hfc).
  assert (Hhl : header_lists (client w) = partial_alter (fun _ => fst <$> hl) p (header_lists c)).
  { rewrite Hc, <- Hcl. exact (header_lists_insert c p ci). }
  apply wp_bind. eapply wp_multi_call; [|exact Hcall|].
  { apply curl_add_handle; rewrite Hv; cbn; [rewrite lookup_insert_eq; by eexists|done]. }
  intros rc w' (Hf' & Hh' & Hrq & Hrn & Htf & _) (He & Hsl & Hms & Ht) Hok'.
  rewrite Hv in He, Hsl, Hms, Ht, Hok'. cbn in He, Hsl, Hms, Ht.
  rewrite Hfl in Hf'. rewrite Hhl in Hh'. rewrite Hc in Hrq, Hrn, Htf.
  destruct (Z.eqb_spec rc CURLM_OK) as [->|Hrc].
  - apply wp_ret. split; [split; [split|done]|].
    + eapply (client_ok_add v _ _ c _ easy p (fst <$> hl)); [done|done|done|exact Hf'|exact Ht|exact He| | |exact Hok'];
        [|done]. eapply (lists_ok_insert v _ c _ p hl); [apply (lists_owned _ _ Hok)|done|done| |exact Hsl].
      by rewrite Hh', partial_alter_fresh.
    + eapply messages_ok_grow; [exact Hm|done|]. rewrite Ht. set_solver.
    + exists easy, p, hl. rewrite Hf', Ht, He, Hsl, Hh', lookup_insert_eq, lookup_partial_alter_eq. by split_and!.
  - eapply (refused_spec request u c easy _ hl); try done.
    destruct Hok' as [Hw' Hs' Hb']. split; [|done..]. rewrite Ht. intros e q Hin Hq.
    apply (Hw' e q Hin). unfold pointer in *. cbn. by rewrite <- He.
Qed.

(** The next [if] of [make_request], with the block [ci] and the list [hl]. *)
Ltac next_option v c easy Hfc ci hl Hst Herr Hprep :=
  apply wp_bind; eapply (require_spec v c easy Hfc ci _ _ hl);
    [done|exact Hst|exact Hprep|intros ? Hg; apply (Herr _ _ Hg); [in_list|cbn; discriminate]
    |clear Hprep; intros ? Hprep].

Lemma make_request_runs request (w : World) :
  world_ok w →
  wp (http_make_request request) w
     (request_done request (curl w) (client w)) (request_failed request (view (curl w)) (client w)).
Proof.
  intros [Hok Hm]. set (v := view (curl w)) in *. set (c := client w) in *.
  apply wp_bind, wp_curl_call. intros u [easy|] Hi; cbn [client].
  2:{ apply wp_ret. unfold request_done, keeps_world, not_taken, world_ok. cbn.
      rewrite Hi. cbn. apply curl_init_none in Hi. by rewrite Hi. }
  assert (Hz : is_Some (snd (curl_easy_init (curl w)))) by (rewrite Hi; by eexists).
  apply curl_init_some in Hi as [Hn Hv].
  destruct (fresh_block _ _ Hok) as [Hfc _].
  assert (Herr : ∀ lost w', given_up v c easy lost w' → ∀ what, what ∈ client_errors → list_lost request what lost →
            request_failed request v c (HttpError what) w').
  { intros lost w' Hg what Hin Hll. destruct (given_up_keeps _ _ _ _ _ Hok Hm Hn Hg) as (? & ? & ?).
    split; [done|]. split; [done|]. by exists what, lost. }
  set (ci := {| ci_id := hr_id request; ci_easy := easy; ci_header_list := None;
                ci_error := []; ci_response := [] |}).
  apply wp_bind. unfold calloc_conn.
  apply wp_bind, wp_gets, wp_bind, wp_update, wp_bind, wp_update, wp_ret. cbn [client].
  assert (Hprep : preparing v c easy ci [] None
    {| client := set_conns (<[next_address c := ci]> (conns c)) (bump_address c);
       kernel := kernel w; curl := u |}).
  { split; [done|]. split; [|done]. cbn. by rewrite Hv. }
  assert (Hst0 : list_stored ci None) by by left.
  do 5 next_option v c easy Hfc ci (None : header_list) Hst0 Herr Hprep.
  apply wp_assoc, wp_bind. eapply (headers_spec v c easy Hfc ci); [done|exact Hprep|eauto|].
  clear Hprep. intros hl wh Hlo Hprep. set (ci1 := set_ci_header_list (fst <$> hl) ci) in *.
  assert (Hst : list_stored ci1 hl) by by right.
  assert (Hlast : lost_list ci1 hl = None) by (by destruct hl).
  assert (Herr1 : ∀ wl, given_up v c easy (lost_list ci1 hl) wl → ∀ what, what ∈ client_errors →
            list_lost request what None → request_failed request v c (HttpError what) wl).
  { intros wl Hg what. rewrite Hlast in Hg. by apply (Herr _ _ Hg). }
  do 3 (apply wp_bind; eapply (require_spec v c easy Hfc ci1 _ _ hl);
    [done|exact Hst|exact Hprep|intros ? Hg; apply (Herr1 _ Hg); [in_list|cbn; discriminate]
    |clear Hprep; intros ? Hprep]).
  eapply (add_handle_spec request (curl w) c easy ci1 hl); [done..|].
  destruct Hprep as (Hlf & Hv' & Hc'). split; [done|]. split; [|done]. rewrite Hv'. do 3 f_equal.
  unfold request_options. by rewrite !reverse_app, app_nil_r, <- !app_assoc.
Qed.

(** *** Responses *)

Lemma others_same easy l : easy ∉ easy_handle <$> l → others easy l = l.
Proof.
  intros Hn. unfold others. induction l as [|m l IH]; [done|]. cbn in Hn.
  rewrite not_elem_of_cons in Hn. destruct Hn as [Hm Hl].
  rewrite filter_cons_True by congruence. by rewrite IH.
Qed.

(** A finished transfer became a response [r]. *)
Definition responded (m : CURLMsg) (c : AsyncHttpClient) (w : World) : Prop :=
  ∃ p i r, flights c !! p = Some (i, easy_handle m) ∧
    resp_id r = i ∧ is_success r = (result m =? CURLE_OK)%Z ∧
    response_queue (client w) = response_queue c ++ [r] ∧
    flights (client w) = delete p (flights c) ∧
    respose_notifier_fd (client w) = respose_notifier_fd c ∧ timer_fd (client w) = timer_fd c.

Lemma notify_spec (w : World) (P : unit → World → Prop) X :
  (∀ k, P tt {| client := client w; kernel := k; curl := curl w |}) →
  wp notify_respose_available w P X.
Proof.
  intros HP. apply wp_bind, wp_gets. destruct w. case_match; [by apply wp_ret|].
  apply wp_bind, wp_syscall. intros k a. apply wp_ret, HP.
Qed.

(** Without a transfer that is over. *)
Lemma client_ok_remove v v' c c' p i easy :
  client_ok v c → flights c !! p = Some (i, easy) →
  flights c' = delete p (flights c) → transfers v' = transfers v ∖ {[easy]} →
  easies v' = delete easy (easies v) → lists_ok v' c' → callbacks_ok v' c' → client_ok v' c'.
Proof.
  intros [Ha Hg He Hs Hb _] Hp Hf Ht Hea Hl [_ Hs' Hb']. split; [| | |done|done|done]; rewrite ?Ht, ?Hf, ?Hea.
  - intros e [Hin Hne]%elem_of_difference. destruct (Ha _ Hin) as (q & j & Hq). exists q, j.
    rewrite lookup_delete_ne; [done|]. intros <-. rewrite Hp in Hq. set_solver.
  - intros q j e [Hne Hq]%lookup_delete_Some. destruct (Hg _ _ _ Hq) as (Hin & Hg1 & Hg2 & Hg3).
    assert (e ≠ easy). { intros ->. destruct (Hg _ _ _ Hp) as (_ & Hg1' & _). congruence. }
    unfold conn_given. rewrite Ht, !(pointer_easies _ v v') by (rewrite Hea; by apply lookup_delete_ne).
    set_solver.
  - intros e [Hin Hne]%elem_of_difference. rewrite lookup_delete_ne by set_solver. by apply He.
Qed.

(** Without a block and the list it owned. *)
Lemma lists_ok_remove v v' c c' p :
  lists_ok v c → header_lists c' = delete p (header_lists c) →
  slists v' = match header_lists c !! p with Some l => delete l (slists v) | None => slists v end →
  lists_ok v' c'.
Proof.
  intros [Hl Hu] Hh Hs. unfold lists_ok. rewrite Hh, Hs. split.
  - intros q l [Hne Hq]%lookup_delete_Some. destruct (header_lists c !! p) as [l'|] eqn:Hp; [|by eapply Hl].
    rewrite lookup_delete_ne; [by eapply Hl|]. intros ->. by apply Hne, (Hu p q l).
  - intros q1 q2 l [_ H1']%lookup_delete_Some [_ H2']%lookup_delete_Some. by eapply Hu.
Qed.

(** The transfers left write to blocks that are left. *)
Lemma writes_alive_remove v v' c c' p i easy :
  client_ok v c → flights c !! p = Some (i, easy) →
  flights c' = delete p (flights c) → transfers v' = transfers v ∖ {[easy]} →
  easies v' = delete easy (easies v) →
  ∀ e q, e ∈ transfers v' → pointer write_of v' e = Some q ∨ pointer error_of v' e = Some q →
    is_Some (conns c' !! q).
Proof.
  intros Hok Hp Hf Ht Hea e q He Hw. rewrite Ht in He. apply elem_of_difference in He as [Hin Hne].
  rewrite !(pointer_easies _ v v') in Hw by (rewrite Hea; apply lookup_delete_ne; set_solver).
  destruct (transfers_alive _ _ Hok _ Hin) as (q' & j & Hq).
  destruct (conns_given _ _ Hok _ _ _ Hq) as (_ & _ & Hg2 & Hg3).
  assert (q' = q) as -> by (destruct Hw; congruence).
  apply (flights_alive c' q (j, e)). rewrite Hf, lookup_delete_ne; [done|].
  intros <-. rewrite Hp in Hq. set_solver.
Qed.

(** The messages left are about transfers that are left. *)
Lemma messages_ok_remove v v' easy :
  messages_ok v → easy ∉ easy_handle <$> messages v →
  messages v' = messages v → transfers v' = transfers v ∖ {[easy]} → messages_ok v'.
Proof.
  intros [Hnd Hfa] Hnew Hms Htr. unfold messages_ok. rewrite Hms, Htr. split; [done|].
  apply Forall_forall. intros m' Hm'. rewrite Forall_forall in Hfa. destruct (Hfa _ Hm') as [? ?].
  split; [|done]. apply elem_of_difference. split; [done|]. intros Heq%elem_of_singleton.
  apply Hnew. rewrite <- Heq. by apply list_elem_of_fmap_2.
Qed.

Lemma finish_transfer_runs m (w : World) X :
  let v := view (curl w) in
  client_ok v (client w) → messages_ok v → easy_handle m ∈ transfers v →
  easy_handle m ∉ easy_handle <$> messages v →
  wp (finish_transfer m) w
     (fun _ w' => world_ok w' ∧ messages (view (curl w')) = messages v ∧ responded m (client w) w') X.
Proof.
  intros v Hok Hm Hin Hnew. destruct (transfers_alive _ _ Hok _ Hin) as (p & i & Hp).
  destruct (conns_given _ _ Hok _ _ _ Hp) as (_ & Hpr & _ & _).
  destruct (flights_alive _ _ _ Hp) as [ci Hci].
  assert (Htag : tag_of ci = (i, easy_handle m)).
  { unfold flights in Hp. rewrite lookup_fmap, Hci in Hp. cbn in Hp. congruence. }
  injection Htag as Hid Heasy.
  apply wp_bind, wp_curl_call. intros u q [= <- <-]. rewrite (curl_getinfo _ _ p) by done.
  apply wp_bind, (wp_read_conn p ci); [exact Hci|]. apply wp_bind, wp_update. cbn [client kernel curl].
  apply wp_bind. eapply (wp_multi_call _ _ v); [by apply curl_remove_handle| |].
  { destruct (client_callbacks _ _ Hok) as [Hw Hs Hb]. by split. }
  intros [] w1 (Hf & Hh & Hq & Hn & Ht & _) (Hea & Hsl & Htr & Hms) Hok1. fold v in Hea, Htr, Hms, Hok1.
  change (slists (view (curl w1)) = slists v) in Hsl.
  cbn in Hf, Hh, Hq, Hn, Ht.
  assert (Hal : is_Some (conns (client w1) !! p)) by (eapply flights_alive; rewrite Hf; exact Hp).
  destruct Hal as [ci1 Hci1]. assert (Hh1 : header_lists (client w1) = header_lists (client w)) by exact Hh.
  assert (Hl1 : header_lists (client w) !! p = ci_header_list ci1).
  { rewrite <- Hh1. unfold header_lists. by rewrite lookup_omap, Hci1. }
  apply wp_bind, wp_curl_call_, wp_bind, (wp_free_conn p ci1); [exact Hci1|]. cbn [client kernel curl].
  set (u1 := curl_easy_cleanup (easy_handle m) (curl w1)).
  set (u2 := match ci_header_list ci1 with Some l => curl_slist_free_all l u1 | None => u1 end).
  apply notify_spec. intros k. unfold world_ok. cbn [client curl].
  set (c' := set_conns (delete p (conns (client w1))) (client w1)).
  assert (Hu1 : view u1 = with_easies (delete (easy_handle m) (easies (view (curl w1)))) (view (curl w1)))
    by (apply curl_cleanup; rewrite Htr; set_solver).
  assert (Hu2 : view u2 = with_slists (match header_lists (client w) !! p with
                                       | Some l => delete l (slists v) | None => slists v end) (view u1)).
  { unfold u2. rewrite Hl1, freed_list; rewrite Hu1; cbn; rewrite Hsl; [done|].
    intros l Hl. apply (proj1 (lists_owned _ _ Hok) p). by rewrite Hl1. }
  rewrite Hu2, Hu1. clearbody u2.
  assert (Hf' : flights c' = delete p (flights (client w))).
  { unfold flights in *. cbn. rewrite fmap_delete. by rewrite Hf. }
  rewrite others_same in Hms by done.
  split; [split|split; [exact Hms|]].
  - eapply client_ok_remove; [exact Hok|exact Hp|exact Hf'|exact Htr|cbn; by rewrite Hea| |].
    { apply (lists_ok_remove v _ (client w) _ p); [apply (lists_owned _ _ Hok)| |done].
      unfold c'. by rewrite header_lists_delete, Hh1. }
    destruct Hok1 as [_ Hs1 Hb1]. split; [|exact Hs1|].
    + by eapply writes_alive_remove; [..|cbn; rewrite Hea].
    + intros q. cbn. rewrite lookup_delete_is_Some. intros Hq'. apply Hb1. tauto.
  - by eapply messages_ok_remove.
  - exists p, i, (response_of ci (result m)). split; [done|].
    split; [unfold response_of; by destruct (_ =? _)%Z|].
    split; [unfold response_of; by destruct (_ =? _)%Z|].
    split; [cbn; by rewrite Hq|]. split; [exact Hf'|]. done.
Qed.

(** What the events leave: some requests in flight became responses. *)
Definition progressed (c : AsyncHttpClient) (w : World) : Prop :=
  world_ok w ∧ ∃ rs, response_queue (client w) = response_queue c ++ rs ∧
    (resp_id <$> rs) ++ in_flight (client w) ≡ₚ in_flight c ∧
    respose_notifier_fd (client w) = respose_notifier_fd c ∧ timer_fd (client w) = timer_fd c.

Lemma in_flight_delete c c' p i easy :
  flights c !! p = Some (i, easy) → flights c' = delete p (flights c) →
  i :: in_flight c' ≡ₚ in_flight c.
Proof.
  intros Hp Hf. unfold in_flight. rewrite Hf. symmetry.
  by rewrite <- (map_to_list_delete (flights c) p (i, easy)).
Qed.

Lemma progressed_refl (w : World) : world_ok w → progressed (client w) w.
Proof. intros Hw. split; [done|]. exists []. by rewrite app_nil_r. Qed.

Lemma progressed_responded m c (w1 w2 : World) :
  responded m c w1 → progressed (client w1) w2 → progressed c w2.
Proof.
  intros (p & i & r & Hp & Hi & _ & Hq & Hf & Hn & Ht) (Hw & rs & Hq' & Hperm & Hn' & Ht').
  split; [done|]. exists (r :: rs). rewrite Hq', Hq, <- app_assoc. split; [done|].
  split; [|split; congruence]. cbn. rewrite Hi, Hperm. by eapply in_flight_delete.
Qed.

Lemma check_loop_runs fuel (w : World) X :
  world_ok w → length (messages (view (curl w))) < fuel →
  wp (check_multi_info_loop fuel) w
     (fun _ w' => progressed (client w) w' ∧ messages (view (curl w')) = []) X.
Proof.
  revert w. induction fuel as [|fuel IH]; intros w [Hok Hm] Hlen; [lia|]. cbn [check_multi_info_loop].
  apply wp_bind, wp_curl_call. intros u o Hi.
  destruct (messages (view (curl w))) as [|m l] eqn:E.
  - destruct (curl_info_none _ E) as (u' & Hi' & Hv). rewrite Hi' in Hi. injection Hi as <- <-.
    apply wp_ret. cbn. rewrite Hv. split; [|done]. split; [split; cbn; by rewrite Hv|]. exists []. by rewrite app_nil_r.
  - destruct (curl_info_some _ _ _ E) as (u' & Hi' & Hv). rewrite Hi' in Hi. injection Hi as <- <-.
    destruct Hm as [Hnd Hfa]. rewrite E in Hnd, Hfa. cbn in Hnd. apply NoDup_cons in Hnd as [Hnew Hnd].
    apply Forall_cons in Hfa as [[Hin Hdone] Hfa]. rewrite Hdone. cbn [when].
    set (w1 := {| client := client w; kernel := kernel w; curl := u' |}).
    assert (Hok1 : client_ok (view (curl w1)) (client w1)).
    { cbn. rewrite Hv. destruct Hok. by split. }
    assert (Hm1 : messages_ok (view (curl w1))) by (cbn; rewrite Hv; by split).
    apply wp_bind. eapply wp_mono; [apply finish_transfer_runs; try done; cbn; rewrite Hv; done| |intros ? ? HX; exact HX].
    intros [] w2 (Hw2 & Hms & Hr). eapply wp_mono; [apply IH; [exact Hw2|]| |intros ? ? HX; exact HX].
    { rewrite Hms. cbn. rewrite Hv. cbn in *. lia. }
    intros [] w3 [Hpr He]. split; [|done]. by eapply progressed_responded.
Qed.

Lemma check_multi_info_runs (w : World) X :
  world_ok w → wp check_multi_info w (fun _ w' => progressed (client w) w') X.
Proof.
  intros Hw. unfold wp, check_multi_info, on_curl.
  apply (wp_mono _ w _ _ X X (check_loop_runs (S (curl_msgs_left (curl w))) w X Hw
           ltac:(rewrite curl_left; lia))); [|done].
  by intros a w' [Hp _].
Qed.

(** A call of [curl_multi_socket_action], and the check of its messages. *)
Lemma socket_action_runs fd act {A} (f : Z * Z → stM exn World A) (w : World) Q X :
  world_ok w →
  (∀ rc running w', world_ok w' → progressed (client w) w' → wp (f (rc, running)) w' Q X) →
  wp (multi_call (curl_multi_socket_action fd act) ≫= f) w Q X.
Proof.
  intros [Hok Hm] Hf. apply wp_bind. eapply (wp_multi_call _ _ (view (curl w)));
    [by apply curl_socket_action|by apply client_callbacks|].
  intros [rc running] w' (Hfl & Hhl & Hq & Hn & Ht & _) (Hea & Hsl & Htr & Hms) Hcb.
  assert (Hw' : world_ok w').
  { split; [|done]. eapply client_ok_same; [exact Hok|exact Hfl|exact Htr|by rewrite Hea| |].
    { eapply lists_ok_same; [apply (lists_owned _ _ Hok)|exact Hhl|by rewrite Hsl]. }
    destruct Hcb as [H1' H2' H3']. split; [|done|done].
    intros e p. rewrite Htr. intros He Hp. eapply H1'; [done|].
    rewrite !(pointer_easies _ (view (curl w)) (view (curl w'))) in Hp by by rewrite Hea. exact Hp. }
  apply Hf; [done|]. split; [done|]. exists []. rewrite app_nil_r. unfold in_flight. by rewrite Hfl.
Qed.

(** The destructor takes every transfer from libcurl and uses no freed
    block; the blocks of the requests in flight and their easy handles stay
    allocated, and the requests have no response. *)
Lemma destroy_client_leaves (w : World) X :
  world_ok w →
  wp destroy_client w (fun _ w' => transfers (view (curl w')) = ∅ ∧
    easies (view (curl w')) = easies (view (curl w)) ∧
    slists (view (curl w')) = slists (view (curl w)) ∧
    flights (client w') = flights (client w) ∧
    response_queue (client w') = response_queue (client w)) X.
Proof.
  intros [Hok Hm]. unfold destroy_client. apply wp_bind.
  eapply (wp_multi_call _ _ (view (curl w))); [by apply curl_cleanup_all|by apply client_callbacks|].
  intros [] w1 (Hf & _ & Hq & _) (He & Hsl & Ht & _) _.
  assert (Hclose : ∀ fd (w2 : World) (P : unit → World → Prop),
    (∀ h k, P tt {| client := set_base h (client w2); kernel := k; curl := curl w2 |}) →
    wp (close_descriptor fd) w2 P X).
  { intros fd [c2 k2 u2] P HP. apply wp_when; intros _.
    - apply wp_bind, wp_handler_call. intros h k r. apply wp_syscall. intros k' []. apply HP.
    - specialize (HP (base c2) k2). by destruct c2. }
  apply wp_bind, wp_gets, wp_bind, Hclose. intros h k. apply wp_bind, wp_gets, Hclose. by intros.
Qed.

Lemma progressed_trans c (w1 w2 : World) :
  progressed c w1 → progressed (client w1) w2 → progressed c w2.
Proof.
  intros (_ & rs & Hq & Hp & Hn & Ht) (Hw & rs' & Hq' & Hp' & Hn' & Ht').
  split; [done|]. exists (rs ++ rs'). rewrite Hq', Hq, app_assoc. split; [done|].
  split; [|split; congruence]. by rewrite fmap_app, <- app_assoc, Hp'.
Qed.

Lemma world_ok_running n (w : World) k :
  world_ok w → world_ok ({| client := set_still_running n (client w); kernel := k; curl := curl w |} : World).
Proof. intros [[] Hm]. by split. Qed.

Lemma world_ok_kernel k (w : World) :
  world_ok w → world_ok ({| client := client w; kernel := k; curl := curl w |} : World).
Proof. done. Qed.

Lemma after_action_runs {A} (rc running : Z) (m : stM exn World A) c (w : World) (Q : A → World → Prop) X :
  progressed c w →
  (∀ w', progressed c w' → wp m w' Q X) →
  wp (update (set_still_running running);; m) w Q X.
Proof.
  intros Hp Hm. apply wp_bind, wp_update, Hm. destruct Hp as (Hw & rs & Hr).
  split; [by apply world_ok_running|]. by exists rs.
Qed.

Lemma check_from c (w : World) (Q : unit → World → Prop) X :
  progressed c w → (∀ w', progressed c w' → Q tt w') → wp check_multi_info w Q X.
Proof.
  intros Hp HQ. eapply wp_mono; [apply (check_multi_info_runs w X), Hp| |done].
  intros [] w' Hw'. apply HQ. by eapply progressed_trans.
Qed.

Lemma socket_event_runs fd events (w : World) X :
  world_ok w → wp (socket_event_handler fd events) w (fun _ w' => progressed (client w) w') X.
Proof.
  intros Hw. apply socket_action_runs; [done|]. intros rc running w1 Hw1 Hp1.
  apply (after_action_runs rc _ _ (client w)); [done|]. intros w2 Hp2.
  destruct (negb _); [by apply wp_ret|]. apply wp_bind, (check_from (client w)); [done|].
  intros w3 Hp3. apply wp_bind, wp_gets, wp_when; [|done]. intros _.
  apply wp_bind, set_timer_value_quiet. intros r k. apply wp_ret.
  destruct Hp3 as (Hw3 & rs & Hr). by split; [apply world_ok_kernel|exists rs].
Qed.

Lemma timer_event_runs (w : World) X :
  world_ok w → wp timer_event_handler w (fun _ w' => progressed (client w) w') X.
Proof.
  intros Hw. unfold timer_event_handler, read_timer. apply wp_bind, wp_bind, wp_gets.
  destruct (_ <? 0)%Z; [apply wp_ret; by apply wp_ret, progressed_refl|].
  apply wp_bind, wp_syscall. intros k [err again]. set (w1 := {| client := client w; kernel := k; curl := curl w |} : World).
  assert (Hw1 : world_ok w1) by done.
  destruct ((err =? -1)%Z && again); apply wp_ret; cbn [Z.ltb Z.compare]; [by apply wp_ret, (progressed_refl w1)|].
  apply socket_action_runs; [done|]. intros rc running w2 Hw2 Hp2.
  apply (after_action_runs rc _ _ (client w)); [done|]. intros w3 Hp3.
  destruct (negb _); [by apply wp_ret|]. by apply (check_from (client w)).
Qed.

(** *** Delivery *)

Section Delivery.
Context {S : Type}.
Variable on_http_response_received : HttpResponse → stM exn S unit.
Variable deliver_one : HttpResponse → S → S.

(** The handler takes a response normally. *)
Definition takes (r : HttpResponse) : Prop :=
  ∀ s, on_http_response_received r s = (deliver_one r s, Ret tt).

Lemma wp_on_fst {A} (m : stM exn World A) (w : World) (s : S) (P : A → World * S → Prop) X :
  wp m w (fun a w' => P a (w', s)) (fun e w' => X e (w', s)) → wp (on_fst m) (w, s) P X.
Proof. unfold wp, on_fst. cbn. by destruct (m w) as [w' [a|e|]]. Qed.

Lemma wp_on_snd {A} (m : stM exn S A) (w : World) (s : S) (P : A → World * S → Prop) X :
  wp m s (fun a s' => P a (w, s')) (fun e s' => X e (w, s')) → wp (on_snd m) (w, s) P X.
Proof. unfold wp, on_snd. cbn. by destruct (m s) as [s' [a|e|]]. Qed.

Lemma deliver_runs queue (w : World) (s : S) X :
  Forall takes queue → response_queue (client w) = queue →
  wp (deliver on_http_response_received queue) (w, s)
     (fun _ ws => ws = ({| client := set_response_queue [] (client w); kernel := kernel w; curl := curl w |},
                        foldl (fun s r => deliver_one r s) s queue)) X.
Proof.
  intros Ht. revert w s. induction Ht as [|r queue Hr _ IH]; intros w s Hq; cbn [deliver].
  { apply wp_ret. destruct w as [c k u]. destruct c. cbn in *. by subst. }
  apply wp_bind, wp_on_fst, wp_update, wp_bind, wp_on_snd. unfold wp at 1. rewrite Hr.
  eapply wp_mono; [by apply IH|done|done].
Qed.

(** The events that deliver the queue. *)
Definition delivers (fd : Z) (c : AsyncHttpClient) : Prop :=
  fd ≠ timer_fd c ∧ fd = respose_notifier_fd c ∧ (0 ≤ fd)%Z.

(** One event: responses join the queue, or the whole queue is delivered, in
    order. *)
Lemma handle_event_runs fd events (w : World) (s : S) X :
  world_ok w → (delivers fd (client w) → Forall takes (response_queue (client w))) →
  wp (http_handle_event on_http_response_received fd events) (w, s)
     (fun r ws => r = 0%Z ∧ world_ok (fst ws) ∧
        ((snd ws = s ∧ progressed (client w) (fst ws)) ∨
         (delivers fd (client w) ∧ flights (client (fst ws)) = flights (client w) ∧
          response_queue (client (fst ws)) = [] ∧
          snd ws = foldl (fun s r => deliver_one r s) s (response_queue (client w))))) X.
Proof.
  intros Hw Ht. apply wp_bind, wp_on_fst, wp_gets, wp_bind, wp_on_fst, wp_gets, wp_bind.
  destruct (Z.eqb_spec fd (timer_fd (client w))) as [Hnt|Hnt];
    [|destruct (Z.eqb_spec fd (respose_notifier_fd (client w))) as [Hn|]].
  - apply wp_on_fst. eapply wp_mono; [by apply timer_event_runs| |intros ? ? HX; exact HX].
    intros [] w' Hp. apply wp_ret. split; [done|]. split; [apply Hp|by left].
  - apply wp_bind, wp_on_fst, wp_gets. destruct (Z.ltb_spec (respose_notifier_fd (client w)) 0) as [|Hpos].
    { apply wp_ret, wp_ret. split; [done|]. split; [done|left]. split; [done|by apply progressed_refl]. }
    rewrite <- Hn in Hpos. assert (Hdl : delivers fd (client w)) by done. specialize (Ht Hdl).
    apply wp_bind, wp_on_fst, wp_syscall. intros k a. apply wp_bind, wp_on_fst, wp_gets.
    eapply wp_mono; [by apply deliver_runs| |intros ? ? HX; exact HX].
    intros [] ws ->. apply wp_ret. cbn. split; [done|]. split; [|by right].
    destruct Hw as [[] Hm]. by split.
  - apply wp_on_fst. eapply wp_mono; [by apply socket_event_runs| |intros ? ? HX; exact HX].
    intros [] w' Hp. apply wp_ret. split; [done|]. split; [apply Hp|by left].
Qed.
End Delivery.

(** *** Sessions *)

Lemma in_flight_taken request v c (w : World) :
  taken request v c w → in_flight (client w) ≡ₚ hr_id request :: in_flight c.
Proof.
  intros (easy & p & hl & _ & Hp & _ & Hf & _). unfold in_flight. rewrite Hf.
  by rewrite (map_to_list_insert (flights c) p (hr_id request, easy)).
Qed.

(** The accounts of a session add up. *)
Definition accounted (s : @Session K U) : Prop :=
  let '(w, d, a) := s in
  world_ok w ∧
  a ≡ₚ (resp_id <$> d) ++ (resp_id <$> response_queue (client w)) ++ in_flight (client w).

Lemma log_deliver (rs d : list HttpResponse) : foldl (fun s r => s ++ [r]) d rs = d ++ rs.
Proof.
  revert d. induction rs as [|r rs IH]; intros d; cbn; [by rewrite app_nil_r|].
  by rewrite IH, <- app_assoc.
Qed.

Lemma log_handle_event fd events (w : World) (d : list HttpResponse) :
  world_ok w →
  ∃ w' d', http_handle_event log_response fd events (w, d) = (w', d', Ret 0%Z) ∧ world_ok w' ∧
    ((d' = d ∧ progressed (client w) w') ∨
     (flights (client w') = flights (client w) ∧ response_queue (client w') = [] ∧
      d' = d ++ response_queue (client w))).
Proof.
  intros Hw. pose proof (handle_event_runs log_response (fun r s => s ++ [r])
    fd events w d (fun _ _ => False) Hw ltac:(intros _; by apply Forall_true)) as Hr.
  unfold wp in Hr. destruct (http_handle_event log_response fd events (w, d)) as [[w' d'] [r|e|]]; try done.
  destruct Hr as (-> & Hw' & Hor). cbn in Hw', Hor. exists w', d'. split; [done|]. split; [done|].
  destruct Hor as [?|(_ & Hf & Hq & ->)]; [by left|right]. by rewrite log_deliver.
Qed.

Lemma step_accounted (s s' : @Session K U) : client_step s s' → accounted s → accounted s'.
Proof.
  intros [request w w' o d a Hm|fd events w d w' d' o a Hh] [Hw Ha].
  - pose proof (make_request_runs request w Hw) as Hr. unfold wp in Hr. rewrite Hm in Hr.
    destruct o as [r|e|]; [|destruct Hr as ((Hw' & Hq & _) & (_ & Hf & _) & _)|done].
    2:{ split; [done|]. unfold in_flight. by rewrite Hq, Hf. }
    destruct Hr as ((Hw' & Hq & _) & Hr). destruct (Z.eqb_spec r 0) as [->|Hne]; cbn [took].
    + split; [done|]. rewrite Hq, (in_flight_taken _ _ _ _ Hr), Ha. by rewrite !app_assoc, Permutation_middle.
    + destruct Hr as (-> & (_ & Hf & _) & _). split; [done|]. unfold in_flight. by rewrite Hq, Hf.
  - destruct (log_handle_event fd events w d Hw) as (w1 & d1 & Hr & Hw1 & Hor).
    rewrite Hr in Hh. injection Hh as <- <- _. split; [done|].
    destruct Hor as [[-> (_ & rs & Hq & Hp & _)]|(Hf & Hq & ->)].
    + by rewrite Ha, Hq, fmap_app, <- Hp, <- !app_assoc.
    + unfold in_flight in *. by rewrite Ha, Hq, Hf, fmap_app, <- app_assoc.
Qed.

Lemma steps_accounted (s s' : @Session K U) : rtc client_step s s' → accounted s → accounted s'.
Proof. induction 1 as [|s1 s2 s3 Hs _ IH]; [done|]. intros Ha. by apply IH, (step_accounted s1). Qed.

Lemma make_request_world request (w : World) : world_ok w → world_ok (fst (http_make_request request w)).
Proof.
  intros Hw. pose proof (make_request_runs request w Hw) as Hr. unfold wp in Hr.
  destruct (http_make_request request w) as [w' [r|e|]]; try done; apply Hr.
Qed.

(** *** The client behind the resolver *)

(** Whatever its handler does, an event leaves the client in order. *)
Lemma deliver_world {S} (handler : HttpResponse → stM exn S unit) queue (w : World) (s : S) :
  world_ok w → world_ok (fst (fst (deliver handler queue (w, s)))).
Proof.
  revert w s. induction queue as [|r queue IH]; intros w s Hw; cbn [deliver]; [done|].
  rewrite stM_bind_eq. unfold on_fst. cbn [fst snd update modify]. rewrite stM_bind_eq. unfold on_snd.
  cbn [fst snd]. set (w1 := {| client := _; kernel := _; curl := _ |}).
  assert (world_ok w1) by (by destruct Hw as [[] Hm]).
  destruct (handler r s) as [s' [[]|e|]]; [by apply IH|done|done].
Qed.

Lemma http_event_world {S} (handler : HttpResponse → stM exn S unit) fd events (w : World) (s : S) :
  world_ok w → world_ok (fst (fst (http_handle_event handler fd events (w, s)))).
Proof.
  intros Hw. unfold http_handle_event. rewrite !stM_bind_eq. unfold on_fst at 1. cbn [gets fst snd].
  rewrite !stM_bind_eq. unfold on_fst at 1. cbn [gets fst snd]. rewrite stM_bind_eq.
  assert (Hrun : ∀ m : stM exn World unit, wp m w (fun _ w' => progressed (client w) w') (fun _ _ => False) →
    world_ok (fst (fst (let '(ws, o) := on_fst m (w, s) in
      match o with Ret a => (mret 0%Z : stM exn (World * S) Z) ws | Throw e => (ws, Throw e) | Undef => (ws, Undef) end)))).
  { intros m Hm. unfold wp in Hm. rewrite on_fst_eq. destruct (m w) as [w' [[]|e|]]; try done. apply Hm. }
  destruct (fd =? timer_fd (client w))%Z; [by apply Hrun, timer_event_runs|].
  destruct (fd =? respose_notifier_fd (client w))%Z; [|by apply Hrun, socket_event_runs].
  unfold respose_notifier_event_handler. rewrite stM_bind_eq. unfold on_fst at 1. cbn [gets fst snd].
  destruct (_ <? 0)%Z; [done|]. rewrite stM_bind_eq. unfold on_fst at 1, syscall. cbn [fst snd].
  destruct (eventfd_read _ _) as [k a]. rewrite stM_bind_eq. unfold on_fst at 1. cbn [gets fst snd].
  pose proof (deliver_world handler (response_queue (client w))
    {| client := client w; kernel := k; curl := curl w |} s Hw) as Hd.
  cbn [client kernel curl] in *. by destruct (deliver handler _ _) as [ws [[]|e|]].
Qed.

(** The client as the resolver has it: it keeps its heap and libcurl in
    step. *)
Definition Client : Type := { w : World | world_ok w }.

#[export] Instance async_http_client : HttpClient Client :=
  fun request w =>
    (exist _ (fst (http_make_request request (`w))) (make_request_world request (`w) (proj2_sig w)),
     snd (http_make_request request (`w))).

#[export] Instance async_http_client_laws : HttpClientLaws Client.
Proof.
  split.
  - intros hr [w Hw]. cbn. pose proof (make_request_runs hr w Hw) as Hr. unfold wp in Hr.
    by destruct (http_make_request hr w) as [w' [r|e|]].
  - intros hr [w Hw] e. cbn. pose proof (make_request_runs hr w Hw) as Hr. unfold wp in Hr.
    destruct (http_make_request hr w) as [w' [r|e'|]]; try done. intros [= ->].
    destruct Hr as (_ & _ & what & lost & _ & -> & _). by exists what.
Qed.

(** ** Properties *)

(** C10. Every request is answered once: over any session that starts idle,
    the numbers of the requests [make_request] took are those of the
    responses delivered, of the responses queued and of the transfers in
    flight, each as often as it was taken; and in every state of the session
    every event of the loop is handled without undefined behaviour, so no
    block is used after it was freed. *)
Theorem each_request_one_response (w0 w : World) d a :
  world_ok w0 → idle w0 → rtc client_step (w0, [], []) (w, d, a) →
  a ≡ₚ (resp_id <$> d) ++ (resp_id <$> response_queue (client w)) ++ in_flight (client w) ∧
  ∀ fd events, snd (http_handle_event log_response fd events (w, d)) = Ret 0%Z.
Proof.
  intros Hw [Hi Hq] Hs. apply steps_accounted in Hs as [Hw' Ha].
  - split; [done|]. intros fd events.
    destruct (log_handle_event fd events w d Hw') as (w1 & d1 & -> & _). done.
  - split; [done|]. by rewrite Hi, Hq.
Qed.

(** C11. [make_request] on every path, and what each leaves behind.  It
    returns 0, and exactly one new transfer is in flight, under the number of
    the request, with the options of the request in their order, its own
    block for every pointer and a list of exactly the headers of the request,
    which the block owns.  Or it returns -1 or throws one of its messages:
    the transfers, the requests in flight and the lists they own are as
    before, so the block is freed; but the easy handle is never given back:
    libcurl keeps it for ever, on every one of these paths except the -1 of
    [curl_easy_init] itself.  Two of them lose the header list as well: when
    a header after the first cannot be appended, the list of those before it,
    and when libcurl does not take the list, the list of all.  Nothing else
    is lost.  Queued responses stay on every path, and the client stays in
    order.  Hypotheses: the client is in order, and libcurl behaves as
    documented ([CurlLaws]). *)
Theorem http_make_request_spec request (w : World) :
  world_ok w →
  match http_make_request request w with
  | (w', Ret r) => request_done request (curl w) (client w) r w'
  | (w', Throw e) => request_failed request (view (curl w)) (client w) e w'
  | (_, Undef) => False
  end.
Proof. intros Hw. exact (make_request_runs request w Hw). Qed.
End Client.

(** The timer: a positive number of milliseconds is armed exactly, with
    a valid nanosecond field; 0 is the shortest time, because 0 would disarm;
    and only a negative number disarms. *)
Theorem timer_spec_exact (timeout_ms : Z) :
  let '(sec, nsec) := timer_spec timeout_ms in
  (0 ≤ sec)%Z ∧ (0 ≤ nsec < 10 ^ 9)%Z ∧
  ((sec, nsec) = (0, 0)%Z ↔ (timeout_ms < 0)%Z) ∧
  (sec * 10 ^ 9 + nsec = if (0 <? timeout_ms) then timeout_ms * 10 ^ 6
                         else if (timeout_ms =? 0) then 1 else 0)%Z.
Proof.
  unfold timer_spec. destruct (Z.ltb_spec 0 timeout_ms) as [Hp|Hp].
  - pose proof (Z.div_mod timeout_ms 1000). pose proof (Z.mod_pos_bound timeout_ms 1000).
    pose proof (Z.div_pos timeout_ms 1000). repeat split; try lia.
    intros [= Hs Hn]. lia.
  - destruct (Z.eqb_spec timeout_ms 0) as [->|Hn]; repeat split; try lia; try (by intros [= ]); done.
Qed.
