(* ===== verification/CurlExample.v ===== *)
(** * A small libcurl

    An instance of the interface of AsyncHttp.v that satisfies its laws, for
    the concrete runs: a request is sent over one socket, announced when the
    timer fires; the event of the socket finishes every transfer with a body
    and takes the socket back. *)
From S2P Require Import Prelude.
From S2P Require Import CLib.
From S2P Require Import Exceptions.
From S2P Require Import EventLoop.
From S2P Require Import Driver.
From S2P Require Import AsyncHttp.
From S2P Require Import AsyncHttpSpec.

(** ** Definitions *)

(** libcurl is its own view. *)
#[export] Instance toy_view : CurlView View := fun v => v.

Definition toy_init (v : View) : View * option Z :=
  let easy := fresh (dom (easies v)) in (with_easies (<[easy := []]> (easies v)) v, Some easy).

Definition toy_setopt (easy : Z) (o : CURLoption) (v : View) : View * Z :=
  match easies v !! easy with
  | Some os => (with_easies (<[easy := o :: os]> (easies v)) v, CURLE_OK)
  | None => (v, 43%Z)
  end.

Definition toy_slist_append (l : option Z) (text : str) (v : View) : View * option Z :=
  let hs := match l with Some l => default [] (slists v !! l) | None => [] end in
  let rest := match l with Some l => delete l (slists v) | None => slists v end in
  let l' := fresh (dom rest) in
  (with_slists (<[l' := hs ++ [text]]> rest) v, Some l').

Definition toy_assign (fd p : Z) (v : View) : View :=
  match sockets v !! fd with
  | Some _ => with_sockets (<[fd := Some p]> (sockets v)) v
  | None => v
  end.

Definition toy_info_read (v : View) : View * option CURLMsg :=
  match messages v with [] => (v, None) | m :: l => (with_messages l v, Some m) end.

Definition toy_socket : Z := 7.
Definition finished (easy : Z) : CURLMsg := {| msg_done := true; easy_handle := easy; result := 0 |}.

(** The transfers that have no message yet. *)
Definition busy (v : View) : list Z :=
  elements (transfers v ∖ list_to_set (easy_handle <$> messages v)).

Definition complete (v : View) : View := with_messages (messages v ++ (finished <$> busy v)) v.

(** The body every server answers. *)
Definition toy_body : str := quoted #"{'lrn':'777'}".

(** A body for every transfer of a list, then all are complete. *)
Fixpoint write_all (es : list Z) (v : View) : curl_run View (Z * Z) :=
  match es with
  | [] => Finished (complete v) (CURLM_OK, 0%Z)
  | easy :: rest =>
      match pointer write_of v easy with
      | Some p => Calls (WriteFunction toy_body p) v (fun v' _ => write_all rest v')
      | None => write_all rest v
      end
  end.

Definition toy_action (fd act : Z) (v : View) : curl_run View (Z * Z) :=
  if (fd =? CURL_SOCKET_TIMEOUT)%Z
  then Calls (SocketFunction 0 toy_socket CURL_POLL_IN (mjoin (sockets v !! toy_socket)))
         (announce toy_socket v) (fun v' _ => Finished v' (CURLM_OK, 1%Z))
  else match sockets v !! toy_socket with
       | Some p => Calls (SocketFunction 0 toy_socket CURL_POLL_REMOVE p) v
                     (fun v' _ => write_all (busy v) (forget toy_socket v'))
       | None => write_all (busy v) v
       end.

#[export] Instance toy_curl : Curl View := {
  curl_easy_init := toy_init;
  curl_easy_setopt := toy_setopt;
  curl_slist_append := toy_slist_append;
  curl_slist_free_all := fun l v => with_slists (delete l (slists v)) v;
  curl_easy_getinfo_private := fun easy v => default 0%Z (pointer private_of v easy);
  curl_easy_cleanup := fun easy v => with_easies (delete easy (easies v)) v;
  curl_multi_assign := toy_assign;
  curl_multi_info_read := toy_info_read;
  curl_msgs_left := fun v => length (messages v);
  curl_multi_add_handle := fun easy v =>
    Calls (TimerFunction 0) v
      (fun v' _ => Finished (with_transfers ({[easy]} ∪ transfers v') v') CURLM_OK);
  curl_multi_remove_handle := fun easy v =>
    Finished (with_messages (others easy (messages v)) (with_transfers (transfers v ∖ {[easy]}) v)) tt;
  curl_multi_socket_action := toy_action;
  curl_multi_cleanup := fun v => Finished (with_messages [] (with_transfers ∅ v)) tt
}.

(** A kernel that says yes to everything. *)
#[export] Instance yes_epoll : Epoll unit := {
  epoll_ctl := fun _ _ _ _ k => (k, 0%Z);
  interest := fun _ _ => ∅
}.

#[export] Instance yes_fds : KernelFds unit := {
  timerfd_create := fun k => (k, 3%Z);
  timerfd_settime := fun _ _ k => k;
  timerfd_read := fun _ k => (k, (8%Z, false));
  eventfd := fun k => (k, 4%Z);
  eventfd_write := fun _ _ k => (k, 0%Z);
  eventfd_read := fun _ k => (k, 0%Z);
  close_fd := fun _ k => k
}.

(** The client after its constructor. *)
Definition new_client : AsyncHttpClient := {|
  base := {| epoll_fd := 9; events_map := ∅ |}; response_queue := [];
  respose_notifier_fd := -1; timer_fd := -1; still_running := 0; conns := ∅; socks := ∅;
  next_address := 1 |}.
Definition no_view : View := {| easies := ∅; slists := ∅; transfers := ∅; sockets := ∅; messages := [] |}.

Definition start_world : World unit View :=
  fst (init_descriptors {| client := new_client; kernel := tt; curl := no_view |}).

Definition toy_request (i : Z) : HttpRequest := {|
  hr_id := i; hr_url := Some #"http://h/"; hr_auth_type := AUTH_BASIC; hr_login := Some #"u";
  hr_pass := Some #"p"; hr_verify_ssl := false; hr_timeout_ms := 900; hr_headers := [ #"A: b" ] |}.

(** ** Lemmas *)

Lemma with_sockets_id v : with_sockets (sockets v) v = v.
Proof. by destruct v. Qed.

Lemma write_all_polite (Q : View → Z * Z → Prop) es v :
  Q (complete v) (CURLM_OK, 0%Z) → Forall (fun e => e ∈ transfers v) es → polite Q v (write_all es v).
Proof.
  intros HQ. induction 1 as [|e es He _ IH]; cbn [write_all].
  - apply polite_finished; [done|exact HQ].
  - destruct (pointer write_of v e) as [p|] eqn:E; [|exact IH].
    apply (polite_write _ v e); try done. intros u' r Hu. unfold view, toy_view in Hu. by subst u'.
Qed.

Lemma complete_messages_ok v : messages_ok v → messages_ok (complete v).
Proof.
  intros [Hn Hf]. unfold messages_ok, complete. cbn. split.
  - rewrite fmap_app. apply NoDup_app. split; [done|]. rewrite <- list_fmap_compose.
    assert (Hid : (easy_handle ∘ finished) <$> busy v = busy v) by apply list_fmap_id.
    rewrite Hid. split; [|unfold busy; apply NoDup_elements].
    intros e He Hb. unfold busy in Hb. rewrite elem_of_elements in Hb. set_solver.
  - apply Forall_app. split; [done|]. apply Forall_fmap, Forall_forall. intros e He. cbn.
    split; [|done]. unfold busy in He. rewrite elem_of_elements in He. set_solver.
Qed.

Lemma busy_transfers v : Forall (fun e => e ∈ transfers v) (busy v).
Proof. apply Forall_forall. intros e He. unfold busy in He. rewrite elem_of_elements in He. set_solver. Qed.

Lemma toy_action_polite fd act v : messages_ok v →
  polite (fun v' _ => easies v' = easies v ∧ slists v' = slists v ∧ transfers v' = transfers v ∧ messages_ok v')
    v (toy_action fd act v).
Proof.
  intros Hm. unfold toy_action. destruct (fd =? CURL_SOCKET_TIMEOUT)%Z.
  - apply polite_poll; [set_solver|done|]. intros u' m r Hu _. unfold view, toy_view in Hu. subst u'.
    by apply polite_finished.
  - destruct (sockets v !! toy_socket) as [p|] eqn:E.
    + apply polite_remove; [done|done|]. intros u' r Hu. unfold view, toy_view in Hu. subst u'.
      apply write_all_polite; [|apply (busy_transfers v)]. do 3 (split; [done|]).
      by apply complete_messages_ok.
    + apply write_all_polite; [|apply busy_transfers]. do 3 (split; [done|]).
      by apply complete_messages_ok.
Qed.

#[export] Instance toy_laws : CurlLaws View.
Proof.
  split; unfold view, toy_view; cbn.
  - intros u u' easy [= <- <-]. split; [|done]. apply not_elem_of_dom, is_fresh.
  - done.
  - intros easy o u u' os Hos. unfold toy_setopt. rewrite Hos. by intros [= <-].
  - intros easy o u u' rc. unfold toy_setopt. destruct (easies u !! easy); [|by intros [= <- _] _].
    by intros [= _ <-].
  - intros l hs s u u' l' Hl [= <- <-]. cbn. split; [apply not_elem_of_dom, is_fresh|].
    destruct l as [l|]; [by rewrite Hl|by rewrite Hl].
  - done.
  - by intros easy u p ->.
  - done.
  - intros fd p u [x Hx]. unfold toy_assign. by rewrite Hx.
  - done.
  - intros u Hu. unfold toy_info_read. rewrite Hu. by exists u.
  - intros u m l Hu. unfold toy_info_read. rewrite Hu. by eexists.
  - intros easy u _ _. apply polite_timer; [done|]. intros u' r Hu. unfold view, toy_view in Hu.
    subst u'. by apply polite_finished.
  - intros easy u _. by apply polite_finished.
  - apply toy_action_polite.
  - intros u. by apply polite_finished.
Qed.

Lemma start_ok : world_ok start_world.
Proof.
  split; [split|split]; cbn.
  - intros e He. set_solver.
  - intros p i e Hp. vm_compute in Hp. discriminate.
  - intros e He. set_solver.
  - intros fd p Hp. vm_compute in Hp. discriminate.
  - intros p [Hp|Hp]; vm_compute in Hp; by destruct Hp.
  - split; intros *; intros Hp; vm_compute in Hp; discriminate.
  - constructor.
  - constructor.
Qed.

Lemma start_idle : idle start_world.
Proof. split; vm_compute; reflexivity. Qed.

(** *** It takes every request *)

Section Takes.
Context {K : Type} `{Epoll K, KernelFds K}.

Definition ready (easy p : Z) (w : World K View) : Prop :=
  is_Some (easies (curl w) !! easy) ∧ is_Some (conns (client w) !! p).

Lemma toy_setopts easy p os (w : World K View) P X :
  ready easy p w → (∀ w', ready easy p w' → P true w') → wp (setopts easy os) w P X.
Proof.
  revert w. induction os as [|o os IH]; intros w Hw HP; cbn [setopts]; [by apply wp_ret, HP|].
  destruct Hw as [[l Hl] Hp].
  apply wp_bind, wp_curl_call. intros u rc. cbn. unfold toy_setopt. rewrite Hl. intros [= <- <-].
  apply IH; [|done]. split; [|done]. cbn. rewrite lookup_insert_eq. by eexists.
Qed.

Lemma toy_require easy p os what (w : World K View) P X :
  ready easy p w → (∀ w', ready easy p w' → P tt w') → wp (require easy p os what) w P X.
Proof. intros Hw HP. apply wp_bind. by apply (toy_setopts easy p). Qed.

Lemma toy_append easy p headers l (w : World K View) P X :
  ready easy p w → (∀ l' w', ready easy p w' → P l' w') → wp (append_headers p headers l) w P X.
Proof.
  revert l w. induction headers as [|s headers IH]; intros l w Hw HP; cbn [append_headers]; [by apply wp_ret, HP|].
  apply wp_bind, wp_curl_call. intros u l'. cbn. intros [= <- <-]. by apply IH.
Qed.

Lemma toy_takes request (w : World K View) : snd (http_make_request request w) = Ret 0%Z.
Proof.
  enough (wp (http_make_request request) w (fun r _ => r = 0%Z) (fun _ _ => False)) as Hr.
  { unfold wp in Hr. destruct (http_make_request request w) as [w' [r|e|]]; [by subst|done..]. }
  apply wp_bind, wp_curl_call. intros u easy Hi. cbv [curl_easy_init toy_curl toy_init] in Hi.
  injection Hi as <- <-. set (e := fresh _). set (p := next_address (client w)). apply wp_bind. unfold calloc_conn.
  apply wp_bind, wp_gets, wp_bind, wp_update, wp_bind, wp_update, wp_ret. cbn [client curl kernel].
  match goal with |- wp _ ?x _ _ => assert (Hw : ready e p x) end.
  { split; cbn; rewrite lookup_insert_eq; by eexists. }
  do 5 (apply wp_bind; eapply toy_require; [exact Hw|clear Hw; intros ? Hw]).
  apply wp_bind. eapply toy_append; [exact Hw|]. clear Hw. intros l w1 Hw. apply wp_bind.
  assert (Hlast : ∀ w', ready e p w' → wp (
      require e p [WRITEFUNCTION; WRITEDATA p] #"initializing write callback data error";;
      require e p [PRIVATE p] #"private pointer initialization error";;
      require e p [ERRORBUFFER p] #"error buffer initializing error";;
      rc ← multi_call (curl_multi_add_handle e);
      if (rc =? CURLM_OK)%Z then mret 0%Z else free_conn p;; mret (-1)%Z) w' (fun r _ => r = 0%Z) (fun _ _ => False)).
  { clear. intros w' Hw. do 3 (apply wp_bind; eapply toy_require; [exact Hw|clear Hw; intros ? Hw]).
    apply wp_bind. unfold multi_call, on_curl, wp at 1. cbn [curl_multi_add_handle toy_curl run_curl].
    apply wp_bind, wp_curl_call. intros u1 [] [= <-]. apply wp_bind, wp_bind, set_timer_value_quiet.
    intros r k. apply wp_ret. unfold on_curl, wp at 1. cbn [run_curl]. apply wp_bind, wp_curl_call.
    intros u2 [] [= <-]. apply wp_ret. by apply wp_ret. }
  destruct l as [l|]; [|by apply wp_ret, Hlast].
  apply wp_bind. eapply toy_require; [exact Hw|]. clear Hw. intros w2 Hw. destruct Hw as [Hw [ci Hci]].
  apply (wp_write_conn _ _ ci); [done|]. apply Hlast. split; [done|]. cbn. rewrite lookup_insert_eq. by eexists.
Qed.
End Takes.

(** ** Runs *)

(** Two requests, the timer, the socket, the notification. *)
Definition w1 : World unit View := fst (http_make_request (toy_request 9) start_world).
Definition w2 : World unit View := fst (http_make_request (toy_request 11) w1).
Definition event (fd : Z) (ws : World unit View * list HttpResponse) :
  World unit View * list HttpResponse := fst (http_handle_event log_response fd EPOLLIN ws).
Definition after : World unit View * list HttpResponse := event 4 (event 7 (event 3 (w2, []))).

Lemma after_reached : rtc client_step (start_world, [], []) (after.1, after.2, [11; 9]%Z).
Proof.
  eapply rtc_l; [apply (step_request (toy_request 9) start_world w1 (Ret 0%Z)); vm_compute; reflexivity|].
  eapply rtc_l; [apply (step_request (toy_request 11) w1 w2 (Ret 0%Z)); vm_compute; reflexivity|].
  eapply rtc_l; [apply (step_handle 3 EPOLLIN w2 [] (event 3 (w2, [])).1 (event 3 (w2, [])).2 (Ret 0%Z));
                 vm_compute; reflexivity|].
  eapply rtc_l; [apply (step_handle 7 EPOLLIN _ _ (event 7 (event 3 (w2, []))).1
                          (event 7 (event 3 (w2, []))).2 (Ret 0%Z)); vm_compute; reflexivity|].
  eapply rtc_l; [apply (step_handle 4 EPOLLIN _ _ after.1 after.2 (Ret 0%Z)); vm_compute; reflexivity|].
  apply rtc_refl.
Qed.

(** ** Witnesses *)

Definition body (i : Z) : HttpResponse := {| resp_id := i; is_success := true; resp_data := toy_body |}.

Lemma each_request_one_response_witness :
  after.2 = [body 11; body 9] ∧ [11; 9]%Z ≡ₚ (resp_id <$> after.2).
Proof.
  assert (Hi : in_flight (client after.1) = []) by (vm_compute; reflexivity).
  assert (Hq : response_queue (client after.1) = []) by (vm_compute; reflexivity).
  split; [vm_compute; reflexivity|].
  pose proof (each_request_one_response start_world after.1 after.2 [11; 9]%Z start_ok start_idle
              after_reached) as [Hp _].
  rewrite Hi, Hq, app_nil_r in Hp. exact Hp.
Defined.

Lemma http_make_request_spec_witness :
  world_ok w1 ∧ in_flight (client w1) = [9%Z].
Proof.
  pose proof (http_make_request_spec (toy_request 9) start_world start_ok) as Hs.
  assert (E : http_make_request (toy_request 9) start_world = (w1, Ret 0%Z)) by (vm_compute; reflexivity).
  rewrite E in Hs. destruct Hs as [[Hw _] _]. split; [exact Hw|vm_compute; reflexivity].
Defined.
