(* ===== verification/Config.v ===== *)
(** * Configuration (src/cfg.cpp, src/cfg.h, src/cfg_reader.cpp)

    The global configuration and how [load_cfg] fills it from the file
    libconfuse parsed; the library is an interface. *)
From S2P Require Import Prelude.
From S2P Require Import CLib.
From S2P Require Import Exceptions.

(** ** Definitions *)

(** *** libconfuse *)

(** What [cfg_parse] returns. *)
Inductive cfg_parse_result : Type := CFG_SUCCESS | CFG_FILE_ERROR | CFG_PARSE_ERROR | CFG_OTHER.

(** A parsed file [F] and its sections [Sec]; a string option without a value
    is a null pointer, an integer is a [long]. *)
Class Confuse (F Sec : Type) : Type := {
  cfg_parse : str → cfg_parse_result * F;
  cfg_getsec : F → str → option Sec;
  cfg_size : Sec → str → nat;
  cfg_getnstr : Sec → str → nat → option str;
  cfg_getint : Sec → str → Z;
  cfg_getstr : Sec → str → option str
}.

(** *** [struct global_cfg_t] *)

Record db_cfg : Type := {
  db_host : str; db_user : str; db_pass : str; db_database : str; db_schema : str;
  db_port : Z; db_timeout : Z; db_check_timeout : Z
}.

Record sip_cfg : Type := { sip_contact : str; sip_from_uri : str; sip_from_name : str }.

Record prometheus_cfg : Type := { prom_host : str; prom_port : Z }.

(** The members that are used, and [log_level]. *)
Record global_cfg_t : Type := {
  cfg_bind_urls : list str;
  cfg_db : db_cfg;
  cfg_sip : sip_cfg;
  cfg_prometheus : prometheus_cfg;
  log_level : Z
}.

Definition set_bind_urls (l : list str) (g : global_cfg_t) : global_cfg_t :=
  {| cfg_bind_urls := l; cfg_db := cfg_db g; cfg_sip := cfg_sip g;
     cfg_prometheus := cfg_prometheus g; log_level := log_level g |}.
Definition set_log_level (n : Z) (g : global_cfg_t) : global_cfg_t :=
  {| cfg_bind_urls := cfg_bind_urls g; cfg_db := cfg_db g; cfg_sip := cfg_sip g;
     cfg_prometheus := cfg_prometheus g; log_level := n |}.
Definition set_db (d : db_cfg) (g : global_cfg_t) : global_cfg_t :=
  {| cfg_bind_urls := cfg_bind_urls g; cfg_db := d; cfg_sip := cfg_sip g;
     cfg_prometheus := cfg_prometheus g; log_level := log_level g |}.
Definition set_sip (s : sip_cfg) (g : global_cfg_t) : global_cfg_t :=
  {| cfg_bind_urls := cfg_bind_urls g; cfg_db := cfg_db g; cfg_sip := s;
     cfg_prometheus := cfg_prometheus g; log_level := log_level g |}.
Definition set_prometheus (p : prometheus_cfg) (g : global_cfg_t) : global_cfg_t :=
  {| cfg_bind_urls := cfg_bind_urls g; cfg_db := cfg_db g; cfg_sip := cfg_sip g;
     cfg_prometheus := p; log_level := log_level g |}.

(** [global_cfg_t::db_cfg::get_conn_string] *)
Definition get_conn_string (d : db_cfg) : str :=
  #"host = " ++ db_host d ++ #" port = " ++ to_string (db_port d) ++ #" user = " ++ db_user d
  ++ #" dbname = " ++ db_database d ++ #" password = " ++ db_pass d
  ++ #" connect_timeout  = " ++ to_string (db_timeout d).

(** [enum log_levels] *)
Definition L_ERR : Z := 0.
Definition L_DBG : Z := 3.

Section LoadCfg.
Context {F Sec : Type} `{Confuse F Sec}.

Abbreviation L := (stM exn global_cfg_t).

(** The assignment of a [char *] to a string: a null one is undefined. *)
Definition getstr (s : Sec) (name : str) : M str := c_str <$> deref (cfg_getstr s name).

(** [with_section(name)] *)
Definition with_section (c : F) (name : str) (body : Sec → L unit) : L unit :=
  match cfg_getsec c name with Some s => body s | None => mret tt end.

(** The loop over "listen"; [fuel] is what is left of [cfg_size]. *)
Fixpoint listen_loop (s : Sec) (i fuel : nat) : L unit :=
  match fuel with
  | O => mret tt
  | S fuel =>
      url ← lift (deref (cfg_getnstr s #"listen" i));
      modify (fun g => set_bind_urls (cfg_bind_urls g ++ [c_str url]) g);;
      listen_loop s (S i) fuel
  end.

(** [log_level] is an [int]. *)
Definition clip_level (n : Z) : Z :=
  let n := s32 n in
  let n := if (n <? L_ERR)%Z then L_ERR else n in
  if (L_DBG <? n)%Z then L_DBG else n.

Definition daemon_section (s : Sec) : L unit :=
  listen_loop s 0 (cfg_size s #"listen");;
  modify (set_log_level (clip_level (cfg_getint s #"log_level"))).

Definition db_section (s : Sec) : L unit :=
  host ← lift (getstr s #"host");
  user ← lift (getstr s #"user");
  pass ← lift (getstr s #"pass");
  database ← lift (getstr s #"name");
  schema ← lift (getstr s #"schema");
  modify (set_db {|
    db_host := host; db_user := user; db_pass := pass; db_database := database;
    db_schema := schema; db_port := u32 (cfg_getint s #"port");
    db_timeout := u32 (cfg_getint s #"conn_timeout");
    db_check_timeout := u32 (cfg_getint s #"check_interval") |}).

Definition sip_section (s : Sec) : L unit :=
  contact ← lift (getstr s #"contact_user");
  from_uri ← lift (getstr s #"from_uri");
  from_name ← lift (getstr s #"from_name");
  modify (set_sip {| sip_contact := contact; sip_from_uri := from_uri; sip_from_name := from_name |}).

Definition prometheus_section (s : Sec) : L unit :=
  host ← lift (getstr s #"host");
  modify (set_prometheus {| prom_host := host; prom_port := u32 (cfg_getint s #"port") |}).

(** [load_cfg] *)
Definition load_cfg (path : str) : L bool :=
  let '(res, c) := cfg_parse path in
  match res with
  | CFG_FILE_ERROR | CFG_PARSE_ERROR => mret false
  | CFG_SUCCESS | CFG_OTHER =>
      with_section c #"daemon" daemon_section;;
      with_section c #"db" db_section;;
      with_section c #"sip" sip_section;;
      with_section c #"prometheus" prometheus_section;;
      mret true
  end.

(** Every string a section must have. *)
Definition has_strings (s : Sec) (names : list str) : bool :=
  forallb (fun n => bool_decide (is_Some (cfg_getstr s n))) names.

Definition listen_complete (s : Sec) : bool :=
  forallb (fun i => bool_decide (is_Some (cfg_getnstr s #"listen" i))) (seq 0 (cfg_size s #"listen")).

Definition complete_section (c : F) (name : str) (test : Sec → bool) : bool :=
  match cfg_getsec c name with Some s => test s | None => true end.

(** Every section present has all its strings. *)
Definition complete (c : F) : bool :=
  complete_section c #"daemon" listen_complete
  && complete_section c #"db" (fun s => has_strings s [ #"host"; #"user"; #"pass"; #"name"; #"schema"])
  && complete_section c #"sip" (fun s => has_strings s [ #"contact_user"; #"from_uri"; #"from_name"])
  && complete_section c #"prometheus" (fun s => has_strings s [ #"host"]).

End LoadCfg.

(** ** Lemmas *)

Lemma clip_level_range n : (L_ERR ≤ clip_level n ≤ L_DBG)%Z.
Proof.
  unfold clip_level, L_ERR, L_DBG.
  destruct (Z.ltb_spec (s32 n) 0), (Z.ltb_spec 3 0); try lia.
  all: destruct (Z.ltb_spec 3 (s32 n)); lia.
Qed.

Section LoadCfgSpec.
Context {F Sec : Type} `{Confuse F Sec}.

(** The addresses of a section. *)
Definition listed (s : Sec) : list str :=
  omap (fun i => c_str <$> cfg_getnstr s #"listen" i) (seq 0 (cfg_size s #"listen")).

(** A computation that makes the change [f] when [b], and is undefined
    otherwise. *)
Definition guarded (b : bool) (m : stM exn global_cfg_t unit) (f : global_cfg_t → global_cfg_t) : Prop :=
  ∀ g, if b then m g = (f g, Ret tt) else snd (m g) = Undef.

Lemma getstr_Some (s : Sec) name v : cfg_getstr s name = Some v → getstr s name = Ret (c_str v).
Proof. intros E. unfold getstr. by rewrite E. Qed.

Lemma getstr_None (s : Sec) name : cfg_getstr s name = None → getstr s name = Undef.
Proof. intros E. unfold getstr. by rewrite E. Qed.

Lemma guarded_get (s : Sec) name names (k : str → stM exn global_cfg_t unit) f :
  (∀ v, cfg_getstr s name = Some v → guarded (has_strings s names) (k (c_str v)) f) →
  guarded (has_strings s (name :: names)) (lift (getstr s name) ≫= k) f.
Proof.
  intros Hk g. cbn. rewrite lift_bind. destruct (cfg_getstr s name) as [v|] eqn:E.
  - rewrite (getstr_Some _ _ _ E), bool_decide_eq_true_2 by eauto. by apply Hk.
  - rewrite (getstr_None _ _ E), bool_decide_eq_false_2 by (by intros [? ?]). done.
Qed.

Lemma guarded_modify (s : Sec) (f f' : global_cfg_t → global_cfg_t) :
  (∀ g, f' g = f g) → guarded (has_strings s []) (modify f') f.
Proof. intros Hf g. cbn. unfold modify. by rewrite Hf. Qed.

Lemma listen_loop_guarded (s : Sec) n : ∀ i,
  guarded (forallb (fun i => bool_decide (is_Some (cfg_getnstr s #"listen" i))) (seq i n))
    (listen_loop s i n)
    (fun g => set_bind_urls (cfg_bind_urls g ++ omap (fun i => c_str <$> cfg_getnstr s #"listen" i) (seq i n)) g).
Proof.
  induction n as [|n IH]; intros i g; cbn.
  - rewrite app_nil_r. by destruct g.
  - rewrite lift_bind. destruct (cfg_getnstr s _ i) as [v|] eqn:E; cbn.
    + specialize (IH (S i) (set_bind_urls (cfg_bind_urls g ++ [c_str v]) g)).
      rewrite stM_bind_eq. cbn. cbn in IH. rewrite <- app_assoc in IH. exact IH.
    + done.
Qed.

Lemma daemon_guarded (s : Sec) :
  guarded (listen_complete s) (daemon_section s)
    (fun g => set_log_level (clip_level (cfg_getint s #"log_level"))
                (set_bind_urls (cfg_bind_urls g ++ listed s) g)).
Proof.
  intros g. unfold daemon_section, listen_complete, listed. rewrite stM_bind_eq.
  pose proof (listen_loop_guarded s (cfg_size s #"listen") 0 g) as Hl.
  destruct (forallb _ _); [by rewrite Hl|].
  destruct (listen_loop s 0 _ g) as [g' []]; done.
Qed.

(** What a section sets. *)
Definition db_of (s : Sec) : db_cfg := let get n := c_str (default [] (cfg_getstr s n)) in
  {| db_host := get #"host"; db_user := get #"user"; db_pass := get #"pass";
     db_database := get #"name"; db_schema := get #"schema";
     db_port := u32 (cfg_getint s #"port"); db_timeout := u32 (cfg_getint s #"conn_timeout");
     db_check_timeout := u32 (cfg_getint s #"check_interval") |}.

Definition sip_of (s : Sec) : sip_cfg := let get n := c_str (default [] (cfg_getstr s n)) in
  {| sip_contact := get #"contact_user"; sip_from_uri := get #"from_uri"; sip_from_name := get #"from_name" |}.

Definition prometheus_of (s : Sec) : prometheus_cfg :=
  {| prom_host := c_str (default [] (cfg_getstr s #"host")); prom_port := u32 (cfg_getint s #"port") |}.

Ltac guarded_strings := repeat (apply guarded_get; intros ? ?).

Lemma db_guarded (s : Sec) :
  guarded (has_strings s [ #"host"; #"user"; #"pass"; #"name"; #"schema"]) (db_section s) (set_db (db_of s)).
Proof.
  unfold db_section. guarded_strings. apply guarded_modify. intros g. unfold db_of.
  by repeat match goal with E : cfg_getstr _ _ = Some _ |- _ => rewrite E; clear E end.
Qed.

Lemma sip_guarded (s : Sec) :
  guarded (has_strings s [ #"contact_user"; #"from_uri"; #"from_name"]) (sip_section s) (set_sip (sip_of s)).
Proof.
  unfold sip_section. guarded_strings. apply guarded_modify. intros g. unfold sip_of.
  by repeat match goal with E : cfg_getstr _ _ = Some _ |- _ => rewrite E; clear E end.
Qed.

Lemma prometheus_guarded (s : Sec) :
  guarded (has_strings s [ #"host"]) (prometheus_section s) (set_prometheus (prometheus_of s)).
Proof.
  unfold prometheus_section. guarded_strings. apply guarded_modify. intros g. unfold prometheus_of.
  by match goal with E : cfg_getstr _ _ = Some _ |- _ => rewrite E end.
Qed.

(** The change a section makes, if it is there. *)
Definition section_change (c : F) (name : str) (f : Sec → global_cfg_t → global_cfg_t)
  : global_cfg_t → global_cfg_t :=
  match cfg_getsec c name with Some s => f s | None => id end.

Lemma with_section_guarded (c : F) name test body f :
  (∀ s, guarded (test s) (body s) (f s)) →
  guarded (complete_section c name test) (with_section c name body) (section_change c name f).
Proof.
  intros Hs. unfold complete_section, with_section, section_change.
  destruct (cfg_getsec c name); [apply Hs|by intros g].
Qed.

Lemma guarded_seq (b1 b2 : bool) m1 (m2 : stM exn global_cfg_t bool) f1 g r :
  guarded b1 m1 f1 →
  (if b2 then m2 (f1 g) = r else snd (m2 (f1 g)) = Undef) →
  if b1 && b2 then (m1;; m2) g = r else snd ((m1;; m2) g) = Undef.
Proof.
  intros H1 H2. specialize (H1 g). rewrite stM_bind_eq. destruct b1; cbn.
  - rewrite H1. exact H2.
  - destruct (m1 g) as [g' []]; done.
Qed.

(** The configuration a file that parses gives. *)
Definition configured (c : F) (g : global_cfg_t) : global_cfg_t :=
  section_change c #"prometheus" (fun s => set_prometheus (prometheus_of s))
    (section_change c #"sip" (fun s => set_sip (sip_of s))
      (section_change c #"db" (fun s => set_db (db_of s))
        (section_change c #"daemon" (fun s g =>
           set_log_level (clip_level (cfg_getint s #"log_level"))
             (set_bind_urls (cfg_bind_urls g ++ listed s) g)) g))).

Lemma load_sections (c : F) g :
  let m : stM exn global_cfg_t bool :=
    with_section c #"daemon" daemon_section;;
    with_section c #"db" db_section;;
    with_section c #"sip" sip_section;;
    with_section c #"prometheus" prometheus_section;;
    mret true in
  if complete c then m g = (configured c g, Ret true) else snd (m g) = Undef.
Proof.
  cbn zeta. unfold complete. rewrite <- !andb_assoc.
  eapply guarded_seq; [apply with_section_guarded, daemon_guarded|].
  eapply guarded_seq; [apply with_section_guarded, db_guarded|].
  eapply guarded_seq; [apply with_section_guarded, sip_guarded|].
  pose proof (guarded_seq _ true _ (mret true : stM exn global_cfg_t bool) _
    (section_change c #"sip" (fun s => set_sip (sip_of s))
      (section_change c #"db" (fun s => set_db (db_of s))
        (section_change c #"daemon" (fun s g =>
           set_log_level (clip_level (cfg_getint s #"log_level"))
             (set_bind_urls (cfg_bind_urls g ++ listed s) g)) g)))
    (configured c g, Ret true) (with_section_guarded c #"prometheus" _ _ _ prometheus_guarded)) as Hp.
  rewrite andb_true_r in Hp. apply Hp. reflexivity.
Qed.

(** ** Properties *)

(** Loading the configuration: a file that cannot be read or parsed
    changes nothing and is refused; otherwise the load succeeds exactly when
    every section that is there has all its strings (a missing one is a null
    pointer made a string), the addresses are added in their order, the level
    of the log is brought between errors and debugging, the ports and times
    are 32-bit, and a section that is not there leaves its part as it was. *)
Theorem load_cfg_spec (path : str) (g : global_cfg_t) :
  let '(res, c) := cfg_parse path in
  match res with
  | CFG_FILE_ERROR | CFG_PARSE_ERROR => load_cfg path g = (g, Ret false)
  | _ =>
      if complete c then
        ∃ g', load_cfg path g = (g', Ret true) ∧
          cfg_bind_urls g' = cfg_bind_urls g ++ (match cfg_getsec c #"daemon" with Some s => listed s | None => [] end) ∧
          (if cfg_getsec c #"daemon" is None then log_level g' = log_level g
           else L_ERR ≤ log_level g' ≤ L_DBG)%Z ∧
          (if cfg_getsec c #"db" is None then cfg_db g' = cfg_db g
           else 0 ≤ db_port (cfg_db g') < 2 ^ 32 ∧ 0 ≤ db_check_timeout (cfg_db g') < 2 ^ 32)%Z ∧
          (if cfg_getsec c #"sip" is None then cfg_sip g' = cfg_sip g else True) ∧
          (if cfg_getsec c #"prometheus" is None then cfg_prometheus g' = cfg_prometheus g
           else 0 ≤ prom_port (cfg_prometheus g') < 2 ^ 32)%Z
      else snd (load_cfg path g) = Undef
  end.
Proof.
  destruct (cfg_parse path) as [res c] eqn:E. pose proof (load_sections c g) as Hl.
  destruct res; unfold load_cfg; rewrite E; try done.
  all: destruct (complete c); [|exact Hl]; exists (configured c g); (split; [exact Hl|]);
    unfold configured, section_change;
    destruct (cfg_getsec c #"daemon"), (cfg_getsec c #"db"), (cfg_getsec c #"sip"),
      (cfg_getsec c #"prometheus"); cbn; rewrite ?app_nil_r; split_and!;
    try done; first [apply clip_level_range|apply u32_range].
Qed.
End LoadCfgSpec.
