(* ===== verification/ConfuseScanner.v ===== *)
(** * The scanner of libconfuse (third/confuse/src/lexer.c)

    The automaton flex generated from lexer.l: its tables, the transition with
    its chain of default states, and the search for the longest match with its
    backing up. *)
From S2P Require Import Prelude.
From S2P Require Import CLib.

(** ** The tables *)

(** The rule each state accepts, 0 for none, 48 for the end of the buffer. *)
Definition yy_accept : list nat :=
  [0; 0; 0; 5; 5; 15; 15; 0; 0; 0; 0; 48; 45; 1; 2; 46; 19; 3; 45; 37; 9; 10; 46; 13;
   45; 11; 7; 8; 5; 6; 15; 15; 17; 16; 36; 22; 20; 36; 47; 43; 39; 38; 47; 45; 45; 1;
   3; 0; 12; 45; 14; 4; 5; 15; 15; 0; 16; 16; 18; 0; 35; 23; 24; 25; 31; 29; 32; 30;
   27; 28; 33; 34; 35; 43; 42; 40; 41; 0; 44; 4; 0; 21; 24; 25; 26; 24; 26; 0].

(** The class of each byte. *)
Definition yy_ec : list nat :=
  [0; 1; 1; 1; 1; 1; 1; 1; 1; 2; 3; 1; 1; 4; 1; 1; 1; 1; 1; 1; 1; 1; 1; 1; 1; 1; 1; 1;
   1; 1; 1; 1; 2; 1; 5; 6; 7; 1; 1; 8; 9; 10; 11; 12; 13; 1; 1; 14; 15; 15; 15; 15; 15;
   15; 15; 15; 16; 16; 1; 1; 1; 17; 1; 1; 1; 18; 18; 18; 18; 18; 18; 1; 1; 1; 1; 1; 1;
   1; 1; 1; 1; 1; 1; 1; 1; 1; 1; 1; 1; 1; 1; 1; 19; 1; 1; 1; 1; 20; 21; 18; 18; 22; 23;
   1; 1; 1; 1; 1; 1; 1; 24; 1; 1; 1; 25; 1; 26; 1; 27; 1; 28; 1; 1; 29; 1; 30; 1; 1; 1;
   1; 1; 1; 1; 1; 1; 1; 1; 1; 1; 1; 1; 1; 1; 1; 1; 1; 1; 1; 1; 1; 1; 1; 1; 1; 1; 1; 1;
   1; 1; 1; 1; 1; 1; 1; 1; 1; 1; 1; 1; 1; 1; 1; 1; 1; 1; 1; 1; 1; 1; 1; 1; 1; 1; 1; 1;
   1; 1; 1; 1; 1; 1; 1; 1; 1; 1; 1; 1; 1; 1; 1; 1; 1; 1; 1; 1; 1; 1; 1; 1; 1; 1; 1; 1;
   1; 1; 1; 1; 1; 1; 1; 1; 1; 1; 1; 1; 1; 1; 1; 1; 1; 1; 1; 1; 1; 1; 1; 1; 1; 1; 1; 1;
   1; 1; 1; 1; 1; 1; 1; 1; 1; 1; 1; 1; 1; 1; 1].

(** The class of a class, in a template state. *)
Definition yy_meta : list nat :=
  [0; 1; 2; 3; 2; 2; 2; 1; 4; 2; 2; 5; 2; 2; 1; 6; 6; 2; 6; 7; 6; 6; 6; 6; 1; 1; 1; 1;
   1; 2; 2].

(** Where the row of a state starts. *)
Definition yy_base : list nat :=
  [0; 0; 0; 144; 143; 29; 31; 32; 38; 41; 44; 145; 127; 138; 206; 206; 206; 133; 24;
   206; 206; 206; 121; 206; 44; 206; 206; 206; 0; 206; 0; 48; 206; 50; 206; 206; 206;
   65; 62; 0; 206; 206; 72; 67; 55; 77; 68; 42; 206; 54; 206; 56; 0; 0; 60; 62; 81; 82;
   206; 26; 206; 206; 82; 84; 206; 206; 206; 206; 206; 206; 206; 206; 0; 0; 206; 206;
   206; 24; 206; 90; 18; 206; 87; 90; 0; 92; 206; 206; 108; 115; 122; 129; 136; 143;
   150; 157; 164; 171; 178; 184; 191; 198; 40; 30].

(** The state a state falls back on. *)
Definition yy_def : list nat :=
  [0; 87; 1; 88; 88; 89; 89; 90; 90; 91; 91; 87; 92; 87; 87; 87; 87; 87; 92; 87; 87;
   87; 87; 87; 93; 87; 87; 87; 94; 87; 95; 95; 87; 96; 87; 87; 87; 87; 97; 98; 87; 87;
   99; 92; 93; 87; 87; 100; 87; 92; 87; 93; 94; 95; 95; 87; 96; 96; 87; 101; 87; 87;
   87; 87; 87; 87; 87; 87; 87; 87; 87; 87; 102; 98; 87; 87; 87; 100; 87; 93; 101; 87;
   87; 87; 103; 87; 87; 0; 87; 87; 87; 87; 87; 87; 87; 87; 87; 87; 87; 87; 87; 87; 87;
   87].

(** The next states. *)
Definition yy_nxt : list nat :=
  [0; 12; 13; 14; 15; 16; 17; 18; 19; 20; 21; 15; 22; 23; 24; 12; 12; 25; 12; 12; 12;
   12; 12; 12; 12; 12; 12; 12; 12; 26; 27; 31; 32; 31; 32; 35; 86; 36; 44; 37; 33; 35;
   33; 36; 40; 37; 84; 40; 81; 41; 54; 38; 41; 47; 78; 50; 81; 38; 51; 55; 42; 57; 54;
   42; 58; 61; 87; 87; 44; 44; 79; 55; 78; 55; 46; 75; 58; 62; 63; 45; 76; 44; 64; 65;
   66; 67; 68; 69; 70; 71; 72; 76; 87; 57; 59; 87; 58; 82; 83; 83; 83; 87; 85; 83; 79;
   83; 83; 83; 83; 28; 28; 28; 28; 28; 28; 28; 30; 30; 30; 30; 30; 30; 30; 34; 34; 34;
   34; 34; 34; 34; 39; 39; 39; 39; 39; 39; 39; 43; 48; 46; 45; 44; 43; 43; 49; 87; 29;
   29; 49; 49; 49; 52; 52; 87; 52; 52; 52; 52; 53; 53; 87; 53; 87; 53; 53; 56; 56; 87;
   56; 56; 56; 56; 60; 60; 60; 60; 60; 60; 60; 73; 73; 87; 87; 73; 73; 74; 74; 74; 74;
   74; 74; 74; 77; 77; 77; 77; 77; 77; 77; 80; 80; 80; 80; 80; 80; 80; 11; 87; 87; 87;
   87; 87; 87; 87; 87; 87; 87; 87; 87; 87; 87; 87; 87; 87; 87; 87; 87; 87; 87; 87; 87;
   87; 87; 87; 87; 87; 87].

(** The state each entry of [yy_nxt] belongs to. *)
Definition yy_chk : list nat :=
  [0; 1; 1; 1; 1; 1; 1; 1; 1; 1; 1; 1; 1; 1; 1; 1; 1; 1; 1; 1; 1; 1; 1; 1; 1; 1; 1; 1;
   1; 1; 1; 5; 5; 6; 6; 7; 103; 7; 18; 7; 5; 8; 6; 8; 9; 8; 102; 10; 80; 9; 31; 7; 10;
   18; 77; 24; 59; 8; 24; 31; 9; 33; 54; 10; 33; 38; 44; 51; 49; 44; 51; 54; 47; 55;
   46; 42; 55; 38; 38; 45; 42; 43; 38; 38; 38; 38; 38; 38; 38; 38; 38; 42; 56; 57; 37;
   56; 57; 62; 62; 63; 63; 79; 82; 82; 79; 83; 83; 85; 85; 88; 88; 88; 88; 88; 88; 88;
   89; 89; 89; 89; 89; 89; 89; 90; 90; 90; 90; 90; 90; 90; 91; 91; 91; 91; 91; 91; 91;
   92; 22; 17; 13; 12; 92; 92; 93; 11; 4; 3; 93; 93; 93; 94; 94; 0; 94; 94; 94; 94; 95;
   95; 0; 95; 0; 95; 95; 96; 96; 0; 96; 96; 96; 96; 97; 97; 97; 97; 97; 97; 97; 98; 98;
   0; 0; 98; 98; 99; 99; 99; 99; 99; 99; 99; 100; 100; 100; 100; 100; 100; 100; 101;
   101; 101; 101; 101; 101; 101; 87; 87; 87; 87; 87; 87; 87; 87; 87; 87; 87; 87; 87;
   87; 87; 87; 87; 87; 87; 87; 87; 87; 87; 87; 87; 87; 87; 87; 87; 87; 87].

(** ** The automaton *)

(** A state without outgoing transitions has its row at the end of the table. *)
Definition jam_base : nat := 206.

(** The class of a byte of the text; a NUL of the text is not the end of the
    buffer ([yy_get_previous_state], [yy_try_NUL_trans]). *)
Definition yy_class (c : ascii) : option nat :=
  if Ascii.eqb c NUL then Some 1 else yy_ec !! Z.to_nat (ord c).

(** The inner loop of the transition: follow the default states until an entry
    is of the state; [fuel] bounds the chain. *)
Fixpoint default_chain (fuel s c : nat) : option (nat * nat) :=
  match fuel with
  | O => None
  | S fuel =>
      b ← yy_base !! s;
      owner ← yy_chk !! (b + c);
      if owner =? s then Some (s, c)
      else
        s ← yy_def !! s;
        if 88 <=? s then c ← yy_meta !! c; default_chain fuel s c
        else default_chain fuel s c
  end.

(** One transition; a state has fewer than four defaults in a chain. *)
Definition yy_next (s : nat) (c : ascii) : option nat :=
  c ← yy_class c;
  '(s, c) ← default_chain 4 s c;
  b ← yy_base !! s;
  yy_nxt !! (b + c).

(** [yy_find_action]: the rule of the state, or after backing up that of the
    last accepting state, with the length of the match. *)
Definition yy_find_action (s n : nat) (last : option (nat * nat)) : option (nat * nat) :=
  act ← yy_accept !! s;
  if act =? 0 then last else Some (act, n).

(** [yy_match] to the end of the match or of the text: the state, the bytes
    read, and the last accepting state met, as the rule it accepts and the
    length read then. *)
Fixpoint yy_match (s n : nat) (last : option (nat * nat)) (text : str) : option (nat * nat) :=
  match text with
  | [] => yy_find_action s n last
  | c :: text =>
      act ← yy_accept !! s;
      let last := if act =? 0 then last else Some (act, n) in
      s ← yy_next s c;
      b ← yy_base !! s;
      if b =? jam_base then yy_find_action s (S n) last else yy_match s (S n) last text
  end.

(** The start conditions. *)
Inductive start_condition : Type := INITIAL | olcomment | comment | dq_str | sq_str.

#[export] Instance start_condition_eq_dec : EqDecision start_condition.
Proof. solve_decision. Defined.

(** [BEGIN]: the start state of a condition. *)
Definition yy_start (sc : start_condition) : nat :=
  match sc with INITIAL => 1 | olcomment => 3 | comment => 5 | dq_str => 7 | sq_str => 9 end.

(** The rule and the length of the next token of a text that is not empty. *)
Definition yy_scan (sc : start_condition) (text : str) : option (nat * nat) :=
  yy_match (yy_start sc) 0 None text.
