(* ===== verification/ConfuseRules.v ===== *)
(** * The rules of the scanner (third/confuse/src/lexer.l)

    The patterns of lexer.l as regular expressions, what flex promises of the
    scanner it generates for them (the longest match, and among the rules that
    match it the first), and a proof by partial derivatives and reflection that
    the tables of [ConfuseScanner] keep that promise on every text. *)
From S2P Require Import Prelude.
From S2P Require Import CLib.
From S2P Require Import ConfuseScanner.

(** ** Regular expressions *)

(** [Bytes neg l]: a byte of [l], or with [neg] a byte not in [l]. *)
Inductive re : Type :=
  | Eps
  | Bytes (neg : bool) (l : list ascii)
  | Cat (r s : re)
  | Alt (r s : re)
  | Star (r : re).

#[export] Instance re_eq_dec : EqDecision re.
Proof. solve_decision. Defined.

Definition in_bytes (neg : bool) (l : list ascii) (c : ascii) : bool :=
  xorb neg (existsb (Ascii.eqb c) l).

Inductive matches : re → str → Prop :=
  | matches_eps : matches Eps []
  | matches_bytes neg l c : in_bytes neg l c = true → matches (Bytes neg l) [c]
  | matches_cat r s u v : matches r u → matches s v → matches (Cat r s) (u ++ v)
  | matches_alt_l r s u : matches r u → matches (Alt r s) u
  | matches_alt_r r s u : matches s u → matches (Alt r s) u
  | matches_star_nil r : matches (Star r) []
  | matches_star_cons r c u v : matches r (c :: u) → matches (Star r) v → matches (Star r) (c :: u ++ v).

(** The notations of flex. *)
Definition lit (s : str) : re := foldr (fun c r => Cat (Bytes false [c]) r) Eps s.
Definition plus (r : re) : re := Cat r (Star r).
Definition opt (r : re) : re := Alt r Eps.
Definition bytes_of (s : str) : re := Bytes false s.
Definition bytes_but (s : str) : re := Bytes true s.

Definition NL : ascii := "010".
Definition TAB : ascii := "009".
Definition DQ : ascii := "034".
Definition BS : ascii := "092".
Definition SQ : ascii := "039".

(** [.] *)
Definition dot : re := Bytes true [NL].

(** The bytes that end an unquoted string. *)
Definition string_stops : str :=
  [" "%char; "#"%char; DQ; SQ; TAB; NL; "013"%char; "="%char; "{"%char; "}"%char;
   "("%char; ")"%char; "+"%char; ","%char].

Definition env_pattern : re := Cat (lit #"${") (Cat (Star (bytes_but #"}")) (lit #"}")).

(** The rules of lexer.l in their order, with the start condition each is for
    and the number flex gives it; the last is flex's own default rule. *)
Definition numbered_rules : list (nat * start_condition * re) := [
  (1, INITIAL, plus (bytes_of [" "%char; TAB]));
  (2, INITIAL, lit [NL]);
  (3, INITIAL, plus (lit #"#"));
  (4, INITIAL, Cat (lit #"/") (plus (lit #"/")));
  (5, olcomment, Star dot);
  (6, olcomment, lit [NL]);
  (7, INITIAL, lit #"{");
  (8, INITIAL, lit #"}");
  (9, INITIAL, lit #"(");
  (10, INITIAL, lit #")");
  (11, INITIAL, lit #"=");
  (12, INITIAL, lit #"+=");
  (13, INITIAL, lit #",");
  (14, INITIAL, lit #"/*");
  (15, comment, Star (bytes_but ["*"%char; NL]));
  (16, comment, Cat (plus (lit #"*")) (Star (bytes_but ["*"%char; "/"%char; NL])));
  (17, comment, lit [NL]);
  (18, comment, Cat (Star (bytes_of [" "%char; TAB])) (Cat (plus (lit #"*")) (lit #"/")));
  (19, INITIAL, lit [DQ]);
  (20, dq_str, lit [DQ]);
  (21, dq_str, env_pattern);
  (22, dq_str, lit [NL]);
  (23, dq_str, lit [BS; NL]);
  (24, dq_str, Cat (lit [BS]) (let d := bytes_of #"01234567" in Cat d (opt (Cat d (opt d)))));
  (25, dq_str, Cat (lit [BS]) (plus (bytes_of #"0123456789")));
  (26, dq_str, Cat (lit (BS :: #"x")) (let d := bytes_of #"0123456789ABCDEFabcdef" in Cat d (opt d)));
  (27, dq_str, lit (BS :: #"n"));
  (28, dq_str, lit (BS :: #"r"));
  (29, dq_str, lit (BS :: #"b"));
  (30, dq_str, lit (BS :: #"f"));
  (31, dq_str, lit (BS :: #"a"));
  (32, dq_str, lit (BS :: #"e"));
  (33, dq_str, lit (BS :: #"t"));
  (34, dq_str, lit (BS :: #"v"));
  (35, dq_str, Cat (lit [BS]) dot);
  (36, dq_str, bytes_but [BS; DQ; NL]);
  (37, INITIAL, lit [SQ]);
  (38, sq_str, lit [SQ]);
  (39, sq_str, lit [NL]);
  (40, sq_str, lit [BS; NL]);
  (41, sq_str, Cat (lit [BS]) (bytes_of [BS; SQ]));
  (42, sq_str, Cat (lit [BS]) (bytes_but [BS; SQ]));
  (43, sq_str, plus (bytes_but [BS; SQ; NL]));
  (44, INITIAL, env_pattern);
  (45, INITIAL, plus (Alt (Cat (lit #"/") (bytes_but (string_stops ++ #"/*")))
                          (bytes_but (string_stops ++ #"*"))));
  (46, INITIAL, dot)].

Definition default_rule : re := Alt dot (lit [NL]).

Definition rules (sc : start_condition) : list (nat * re) :=
  omap (fun '(n, sc', r) => if bool_decide (sc = sc') then Some (n, r) else None) numbered_rules
  ++ [(47, default_rule)].

(** What flex promises: the match is not empty, no rule matches more of the
    text, and no earlier rule matches as much. *)
Definition longest_rule (sc : start_condition) (text : str) (act n : nat) : Prop :=
  0 < n ≤ length text ∧
  (∃ r, (act, r) ∈ rules sc ∧ matches r (take n text)) ∧
  (∀ a r m, (a, r) ∈ rules sc → n < m ≤ length text → ¬ matches r (take m text)) ∧
  (∀ a r, (a, r) ∈ rules sc → a < act → ¬ matches r (take n text)).

(** ** Partial derivatives *)

Fixpoint nullable (r : re) : bool :=
  match r with
  | Eps | Star _ => true
  | Bytes _ _ => false
  | Cat r s => nullable r && nullable s
  | Alt r s => nullable r || nullable s
  end.

Definition cat (r s : re) : re := match r with Eps => s | _ => Cat r s end.

(** What is left to match after [c]. *)
Fixpoint derivs (c : ascii) (r : re) : list re :=
  match r with
  | Eps => []
  | Bytes neg l => if in_bytes neg l c then [Eps] else []
  | Cat r s => ((fun d => cat d s) <$> derivs c r) ++ (if nullable r then derivs c s else [])
  | Alt r s => derivs c r ++ derivs c s
  | Star r => (fun d => cat d (Star r)) <$> derivs c r
  end.

(** The rules still possible, each with what is left of it. *)
Definition config : Type := list (nat * re).

Definition derive (c : ascii) (k : config) : config :=
  remove_dups (k ≫= fun '(a, r) => pair a <$> derivs c r).

(** The first rule that matches what was read. *)
Definition first_of (a : nat) (o : option nat) : option nat :=
  Some (match o with Some b => a `min` b | None => a end).

Definition accepts (k : config) : option nat :=
  foldr (fun '(a, r) o => if nullable r then first_of a o else o) None k.

(** The longest match by derivatives, as the rule and the length. *)
Fixpoint best (k : config) (n : nat) (last : option (nat * nat)) (text : str) : option (nat * nat) :=
  let last := if accepts k is Some a then Some (a, n) else last in
  match text with
  | [] => last
  | c :: text => best (derive c k) (S n) last text
  end.

(** ** The states of the automaton and the configurations they stand for *)

Definition all_bytes : list ascii := (fun n => ascii_of_nat n) <$> seq 0 256.

Definition related : Type := list (nat * config).

(** The pairs reached from [todo]. *)
Fixpoint explore (fuel : nat) (todo seen : related) : related :=
  match fuel, todo with
  | S fuel, (s, k) :: todo =>
      if bool_decide ((s, k) ∈ seen) then explore fuel todo seen
      else
        let succ := if yy_base !! s is Some b
                    then if b =? jam_base then []
                         else omap (fun c => (fun s' => (s', derive c k)) <$> yy_next s c) all_bytes
                    else [] in
        explore fuel (remove_dups succ ++ todo) ((s, k) :: seen)
  | _, _ => seen
  end.

Definition start_pairs : related :=
  (fun sc => (yy_start sc, rules sc)) <$> [INITIAL; olcomment; comment; dq_str; sq_str].

Definition simulation : related := explore 1000 start_pairs [].

(** A pair agrees on what is accepted, and its transitions are in [R]; a state
    without transitions has nothing left to match. *)
Definition closed_pair (R : related) (p : nat * config) : bool :=
  let '(s, k) := p in
  bool_decide (yy_accept !! s = Some (default 0 (accepts k)) ∧ accepts k ≠ Some 0) &&
  match yy_base !! s with
  | Some b =>
      forallb (fun c => if b =? jam_base then bool_decide (derive c k = [])
                        else if yy_next s c is Some s' then bool_decide ((s', derive c k) ∈ R)
                             else false) all_bytes
  | None => false
  end.

Definition closed (R : related) : bool := forallb (closed_pair R) R.

(** Every byte makes a first match. *)
Definition begins (sc : start_condition) : bool :=
  forallb (fun c => bool_decide (is_Some (accepts (derive c (rules sc))))) all_bytes.

(** ** Lemmas on derivatives *)

Lemma nullable_spec r : nullable r = true ↔ matches r [].
Proof.
  split.
  - induction r; cbn; intros H; try discriminate; try by constructor.
    + apply andb_true_iff in H as [? ?]. change (@nil ascii) with (@nil ascii ++ []). constructor; auto.
    + apply orb_true_iff in H as [?|?]; [apply matches_alt_l|apply matches_alt_r]; auto.
  - intros H. remember [] as w eqn:E. induction H; cbn; try done.
    + apply app_nil in E as [-> ->]. by rewrite IHmatches1, IHmatches2.
    + by rewrite IHmatches.
    + rewrite IHmatches by done. apply orb_true_r.
Qed.

Lemma matches_cat_inv r s w :
  matches (Cat r s) w ↔ ∃ u v, w = u ++ v ∧ matches r u ∧ matches s v.
Proof.
  split; [|intros (u & v & -> & ? & ?); by constructor].
  inversion 1; subst; eauto.
Qed.

Lemma cat_spec r s w : matches (cat r s) w ↔ matches (Cat r s) w.
Proof.
  destruct r; try done. cbn. rewrite matches_cat_inv. split.
  - intros H. exists [], w. repeat split; [constructor|done].
  - intros (u & v & -> & H & ?). by inversion H.
Qed.

Lemma derivs_spec c r w :
  matches r (c :: w) ↔ ∃ d, d ∈ derivs c r ∧ matches d w.
Proof.
  revert w. induction r as [|neg l|r1 IH1 r2 IH2|r1 IH1 r2 IH2|r IH]; intros w; cbn.
  - split; [by inversion 1|intros (d & [] %elem_of_nil & _)].
  - split.
    + inversion 1; subst. exists Eps. case_match; [split; [left|constructor]|congruence].
    + intros (d & Hd & Hw). case_match; [|by apply elem_of_nil in Hd].
      apply list_elem_of_singleton in Hd as ->. inversion Hw; subst. by constructor.
  - rewrite matches_cat_inv. split.
    + intros ([|c' u] & v & E & H1 & H2).
      * cbn in E. subst v. apply IH2 in H2 as (d & Hd & Hw). apply nullable_spec in H1.
        exists d. rewrite elem_of_app, H1. auto.
      * injection E as -> ->. apply IH1 in H1 as (d & Hd & Hu). exists (cat d r2). split.
        -- apply elem_of_app. left. apply list_elem_of_fmap. eauto.
        -- apply cat_spec. by constructor.
    + intros (d & Hd & Hw). apply elem_of_app in Hd as [Hd|Hd].
      * apply list_elem_of_fmap in Hd as (e & -> & He). apply cat_spec, matches_cat_inv in Hw
          as (u & v & -> & Hu & Hv). exists (c :: u), v. repeat split; [|done]. apply IH1. eauto.
      * destruct (nullable r1) eqn:En; [|by apply elem_of_nil in Hd].
        exists [], (c :: w). repeat split; [by apply nullable_spec|]. apply IH2. eauto.
  - split.
    + inversion 1; subst.
      * match goal with Hm : matches r1 _ |- _ => apply IH1 in Hm as (d & ? & ?) end.
        exists d. rewrite elem_of_app. auto.
      * match goal with Hm : matches r2 _ |- _ => apply IH2 in Hm as (d & ? & ?) end.
        exists d. rewrite elem_of_app. auto.
    + intros (d & Hd & Hw). apply elem_of_app in Hd as [Hd|Hd].
      * apply matches_alt_l, IH1. eauto.
      * apply matches_alt_r, IH2. eauto.
  - split.
    + inversion 1; subst. match goal with Hm : matches r _ |- _ => apply IH in Hm as (d & ? & ?) end.
      exists (cat d (Star r)). split; [apply list_elem_of_fmap; eauto|]. apply cat_spec. by constructor.
    + intros (d & Hd & Hw). apply list_elem_of_fmap in Hd as (e & -> & He).
      apply cat_spec, matches_cat_inv in Hw as (u & v & -> & Hu & Hv).
      apply matches_star_cons; [|done]. apply IH. eauto.
Qed.

(** A rule of a configuration matches a text. *)
Definition may (k : config) (a : nat) (w : str) : Prop := ∃ r, (a, r) ∈ k ∧ matches r w.

Lemma derive_spec k a c w : may k a (c :: w) ↔ may (derive c k) a w.
Proof.
  unfold may, derive. split.
  - intros (r & Hr & Hm). apply derivs_spec in Hm as (d & Hd & Hm). exists d. split; [|done].
    apply elem_of_remove_dups, list_elem_of_bind. exists (a, r). split; [|done].
    apply list_elem_of_fmap. eauto.
  - intros (d & Hd & Hm). apply elem_of_remove_dups, list_elem_of_bind in Hd as ([b r] & Hd & Hr).
    apply list_elem_of_fmap in Hd as (d' & [= -> ->] & Hd). exists r. split; [done|].
    apply derivs_spec. eauto.
Qed.

Lemma accepts_cons b r k :
  accepts ((b, r) :: k) = if nullable r then first_of b (accepts k) else accepts k.
Proof. reflexivity. Qed.

Lemma accepts_None k : accepts k = None ↔ ∀ a, ¬ may k a [].
Proof.
  unfold may. induction k as [|[b r] k IH]; [|rewrite accepts_cons].
  - split; [intros _ a (r & []%elem_of_nil & _)|done].
  - destruct (nullable r) eqn:E.
    + split; [done|]. intros H. exfalso. apply (H b). exists r. split; [left|by apply nullable_spec].
    + rewrite IH. split; intros H a (r' & Hr & Hm).
      * apply elem_of_cons in Hr as [[= -> ->]|Hr]; [|eapply H; eauto].
        apply nullable_spec in Hm. congruence.
      * eapply H. exists r'. split; [by right|done].
Qed.

Lemma accepts_Some k a : accepts k = Some a → may k a [] ∧ ∀ b, b < a → ¬ may k b [].
Proof.
  revert a. induction k as [|[b r] k IH]; intros a; [done|]. rewrite accepts_cons.
  assert (∀ b', may ((b, r) :: k) b' [] ↔ (b' = b ∧ nullable r = true) ∨ may k b' []) as Hcons.
  { intros b'. rewrite nullable_spec. unfold may. split.
    - intros (r' & Hr & Hm). apply elem_of_cons in Hr as [[= -> ->]|Hr]; eauto.
    - intros [[-> Hm]|(r' & Hr & Hm)]; [exists r; split; [left|done]|exists r'; split; [by right|done]]. }
  destruct (nullable r) eqn:E; unfold first_of.
  - destruct (accepts k) as [a'|] eqn:Ea; intros Hmin.
    + assert (a = b `min` a') as -> by congruence. destruct (IH _ eq_refl) as [H1 H2]. split.
      * apply Hcons. destruct (Nat.min_dec b a') as [-> | ->]; auto.
      * intros b' Hb. rewrite Hcons. intros [[-> _]|Hm]; [lia|]. apply (H2 b'); [lia|done].
    + assert (a = b) as -> by congruence. split; [apply Hcons; auto|].
      intros b' Hb. rewrite Hcons. intros [[-> _]|Hm]; [lia|]. rewrite accepts_None in Ea. by eapply Ea.
  - intros Ha. destruct (IH _ Ha) as [H1 H2]. split; [apply Hcons; auto|].
    intros b' Hb. rewrite Hcons. intros [[_ ?]|Hm]; [congruence|]. by eapply H2.
Qed.

Lemma best_empty n last text : best [] n last text = last.
Proof. revert n. induction text; intros n; cbn; auto. Qed.

(** The best match is the longest prefix that is accepted, with the first
    rule that accepts it. *)
Lemma best_spec text : ∀ k n last,
  (best k n last text = last ∧ ∀ a m, m ≤ length text → ¬ may k a (take m text)) ∨
  (∃ a m, best k n last text = Some (a, n + m) ∧ m ≤ length text ∧ may k a (take m text) ∧
    (∀ b m', m < m' ≤ length text → ¬ may k b (take m' text)) ∧
    (∀ b, b < a → ¬ may k b (take m text))).
Proof.
  induction text as [|c text IH]; intros k n last; cbn.
  - destruct (accepts k) as [a|] eqn:E.
    + right. exists a, 0. apply accepts_Some in E as [? ?]. cbn. rewrite Nat.add_0_r.
      repeat split; auto; intros; lia.
    + left. split; [done|]. intros a m _. rewrite take_nil. by apply accepts_None.
  - set (last' := if accepts k is Some a then Some (a, n) else last).
    destruct (IH (derive c k) (S n) last') as [[-> Hno]|(a & m & -> & Hm & Hmay & Hlong & Hfirst)].
    + assert (∀ b m', 0 < m' ≤ S (length text) → ¬ may k b (take m' (c :: text))) as Hno'.
      { intros b [|m'] [? ?]; [lia|]. cbn. rewrite derive_spec. apply Hno. lia. }
      subst last'. destruct (accepts k) as [a|] eqn:E.
      * right. exists a, 0. apply accepts_Some in E as [? ?]. cbn. rewrite Nat.add_0_r.
        repeat split; auto; lia.
      * left. split; [done|]. intros a [|m] ?; [by apply accepts_None|]. apply Hno'. lia.
    + right. exists a, (S m). cbn. repeat split; [f_equal; f_equal; lia|lia|by apply derive_spec| |].
      * intros b [|m'] ?; [lia|]. cbn. rewrite derive_spec. apply Hlong. lia.
      * intros b Hb. rewrite derive_spec. by apply Hfirst.
Qed.

(** ** The automaton follows the configurations *)

Lemma all_bytes_complete c : c ∈ all_bytes.
Proof.
  apply list_elem_of_fmap. exists (nat_of_ascii c). split; [by rewrite ascii_nat_embedding|].
  apply elem_of_seq. pose proof (nat_ascii_bounded c). lia.
Qed.

Lemma all_bytes_forall (f : ascii → bool) c : forallb f all_bytes = true → f c = true.
Proof. rewrite forallb_forall. intros H. apply H, list_elem_of_In, all_bytes_complete. Qed.

Lemma simulation_closed : closed simulation = true.
Proof. vm_compute. reflexivity. Qed.

Lemma simulation_starts sc : (yy_start sc, rules sc) ∈ simulation.
Proof. apply (bool_decide_eq_true_1 _). by destruct sc; vm_compute. Qed.

(** What it means for a pair to be closed under the transitions. *)
Definition follows (R : related) (s : nat) (k : config) : Prop :=
  (yy_accept !! s = Some (default 0 (accepts k)) ∧ accepts k ≠ Some 0) ∧
  ∃ b, yy_base !! s = Some b ∧
    if b =? jam_base then ∀ c, derive c k = []
    else ∀ c, ∃ s', yy_next s c = Some s' ∧ (s', derive c k) ∈ R.

Lemma closed_follows R s k : closed R = true → (s, k) ∈ R → follows R s k.
Proof.
  unfold closed. rewrite forallb_forall. intros Hc Hin.
  apply list_elem_of_In, Hc in Hin. unfold closed_pair in Hin.
  apply andb_true_iff in Hin as [Ha Hb]. apply bool_decide_eq_true in Ha. split; [done|].
  destruct (yy_base !! s) as [b|]; [|done]. exists b. split; [done|].
  destruct (b =? jam_base); intros c; apply (all_bytes_forall _ c) in Hb; cbn beta in Hb.
  - by apply bool_decide_eq_true in Hb.
  - destruct (yy_next s c) as [s'|]; [|done]. exists s'. split; [done|]. by apply bool_decide_eq_true in Hb.
Qed.

Lemma simulation_pair s k : (s, k) ∈ simulation → follows simulation s k.
Proof. apply closed_follows, simulation_closed. Qed.

#[global] Opaque simulation.

(** One reading of [yy_match] and [yy_find_action]. *)
Lemma after_accept s k n last :
  (s, k) ∈ simulation →
  (yy_accept !! s ≫= fun act => if act =? 0 then last else Some (act, n : nat))
    = (if accepts k is Some a then Some (a, n) else last).
Proof.
  intros Hin. apply simulation_pair in Hin as [[-> H0] _]. cbn.
  destruct (accepts k) as [[|a]|]; done.
Qed.

Lemma yy_match_best text : ∀ s k n last,
  (s, k) ∈ simulation → (∃ b, yy_base !! s = Some b ∧ b ≠ jam_base) →
  yy_match s n last text = best k n last text.
Proof.
  induction text as [|c text IH]; intros s k n last Hin (b & Hb & Hj); cbn.
  - by apply after_accept.
  - pose proof (after_accept s k n last Hin) as Ha.
    apply simulation_pair in Hin as [[Hacc H0] (b' & Hb' & Hstep)].
    rewrite Hb in Hb'. injection Hb' as <-. apply Nat.eqb_neq in Hj. rewrite Hj in Hstep.
    destruct (Hstep c) as (s' & Hs' & Hin'). rewrite Hacc in *. cbn in *. rewrite Ha, Hs'. cbn.
    pose proof (simulation_pair _ _ Hin') as [_ (b' & Hb' & Hd)]. rewrite Hb'. cbn.
    destruct (Nat.eqb_spec b' jam_base) as [->|Hn].
    + unfold yy_find_action. rewrite (after_accept s' (derive c k)) by done.
      destruct text as [|c' text]; [done|]. cbn. by rewrite Hd, best_empty.
    + apply IH; eauto.
Qed.

Lemma start_not_jam sc : ∃ b, yy_base !! yy_start sc = Some b ∧ b ≠ jam_base.
Proof. destruct sc; eexists; (split; [reflexivity|done]). Qed.

Lemma begins_spec sc c : begins sc = true → is_Some (accepts (derive c (rules sc))).
Proof.
  unfold begins. intros Hb. apply (all_bytes_forall _ c) in Hb. by apply bool_decide_eq_true in Hb.
Qed.

Lemma begins_each sc : begins sc = true.
Proof. destruct sc; vm_compute; reflexivity. Qed.

Lemma some_rule_begins sc c : ∃ a, may (rules sc) a [c].
Proof.
  destruct (begins_spec sc c (begins_each sc)) as [a Ha].
  apply accepts_Some in Ha as [Ha _]. exists a. by apply derive_spec.
Qed.

Lemma longest_rule_unique sc text a n a' n' :
  longest_rule sc text a n → longest_rule sc text a' n' → a' = a ∧ n' = n.
Proof.
  intros (Hn & (r & Hr & Hm) & Hl & Hf) (Hn' & (r' & Hr' & Hm') & Hl' & Hf').
  assert (n' = n) as ->.
  { destruct (Nat.lt_trichotomy n n') as [?|[?|?]]; [|done|].
    - exfalso. eapply Hl; [apply Hr'| |apply Hm']. lia.
    - exfalso. eapply Hl'; [apply Hr| |apply Hm]. lia. }
  split; [|done]. destruct (Nat.lt_trichotomy a a') as [?|[?|?]]; [|done|].
  - exfalso. by eapply Hf'; [apply Hr| |apply Hm].
  - exfalso. by eapply Hf; [apply Hr'| |apply Hm'].
Qed.

Lemma scan_longest sc text :
  text ≠ [] → ∃ act n, yy_scan sc text = Some (act, n) ∧ longest_rule sc text act n.
Proof.
  intros Hne. unfold yy_scan.
  rewrite (yy_match_best text _ (rules sc)) by (apply simulation_starts || apply start_not_jam).
  destruct text as [|c text]; [done|]. destruct (some_rule_begins sc c) as [a0 Ha0].
  destruct (best_spec (c :: text) (rules sc) 0 None)
    as [[_ Hno]|(a & m & -> & Hm & Hmay & Hlong & Hfirst)].
  { exfalso. apply (Hno a0 1); [cbn; lia|exact Ha0]. }
  exists a, m. split; [done|].
  assert (0 < m) as Hpos.
  { destruct m as [|m]; [|lia]. exfalso. apply (Hlong a0 1); [cbn; lia|exact Ha0]. }
  split; [lia|]. split; [exact Hmay|]. split.
  - intros b r m' Hr ? ?. eapply Hlong; [eassumption|by exists r].
  - intros b r Hr Hb ?. eapply Hfirst; [eassumption|by exists r].
Qed.

(** The match of a scan is that of any rule that can be shown the longest. *)
Lemma scan_is sc text act n : longest_rule sc text act n → yy_scan sc text = Some (act, n).
Proof.
  intros H. destruct (scan_longest sc text) as (a & m & -> & H').
  { destruct H as [[? Hn] _]. intros ->. cbn in Hn. lia. }
  by destruct (longest_rule_unique _ _ _ _ _ _ H H') as [-> ->].
Qed.

(** ** Properties *)

(** C19. The generated tables are the rules: on every text that is not empty and
    in every start condition the scanner stays inside its tables and finds
    the one match that the patterns of lexer.l prescribe, the longest, by the
    first of the rules that match it, and it is never empty. *)
Theorem scanner_implements_rules (sc : start_condition) (text : str) :
  text ≠ [] →
  ∃ act n, yy_scan sc text = Some (act, n) ∧ longest_rule sc text act n ∧
    ∀ act' n', longest_rule sc text act' n' → act' = act ∧ n' = n.
Proof.
  intros Hne. destruct (scan_longest sc text Hne) as (a & m & E & H).
  exists a, m. split; [done|]. split; [done|]. intros a' n'. by apply longest_rule_unique.
Qed.

(** An unquoted string whose matching the comment of lexer.l excludes, as a
    comment begins in it: the second alternative of the rule takes a slash. *)
Example slashes_are_text :
  yy_scan INITIAL #"//commented" = Some (45, 11) ∧ yy_scan INITIAL #"// commented" = Some (4, 2).
Proof. split; reflexivity. Qed.

Lemma scanner_implements_rules_witness :
  ∃ act n, yy_scan INITIAL #"//x = 1" = Some (act, n) ∧ longest_rule INITIAL #"//x = 1" act n ∧
    ∀ act' n', longest_rule INITIAL #"//x = 1" act' n' → act' = act ∧ n' = n.
Proof. apply scanner_implements_rules. discriminate. Defined.
