(* ===== verification/ConfuseLexer.v ===== *)
(** * The lexer of libconfuse (third/confuse/src/lexer.c, from lexer.l)

    [cfg_yylex]: what the rules of the scanner do, the buffer of quoted strings
    and comments, the stack of input buffers and that of included files.  A
    buffer is the text of its file that is left, so the refills of flex are not
    seen; files, the environment and the user data base are the [Host]. *)
From S2P Require Import Prelude.
From S2P Require Import CLib.
From S2P Require Import ConfuseScanner.
From S2P Require Import ConfuseRules.

(** ** The host *)

(** The C library and the file system: the environment, the text of a file that
    can be opened and the message when it cannot, whether a path names a regular
    file, the home directory of the user of the process and of a named user, and
    the byte that [realloc] leaves at the end of a block. *)
Class Host : Type := {
  getenv : str → option str;
  fopen : str → option str;
  open_error : str → str;
  is_regular : str → bool;
  own_home : option str;
  home_of : str → option str;
  junk : ascii
}.

(** ** State *)

(** A buffer of flex: the file it reads and what is left of its text. *)
Record buffer : Type := Buffer { buf_fp : nat; buf_rest : str }.

(** An entry of [cfg_include_stack]: the file, and where the including one was. *)
Record include_entry : Type := Include { inc_fp : nat; inc_filename : option str; inc_line : Z }.

Definition MAX_INCLUDE_DEPTH : nat := 10.
Definition CFG_QSTRING_BUFSIZ : nat := 32.

Definition EINVAL : Z := 22.
Definition ENOENT : Z := 2.
Definition ERANGE : Z := 34.

(** The globals of lexer.l and of flex; stacks have their top first.
    [cfg_qstring] is a block of [qstring_len] bytes and one more. *)
Record lexer : Type := Lexer {
  yy_sc : start_condition;
  buffers : list buffer;
  cfg_qstring : option str;
  qstring_index : nat;
  qstring_len : nat;
  cfg_include_stack : list include_entry;
  cfg_yylval : option str;
  next_fp : nat
}.

(** [filename], [line] and [path] of the section that is being read. *)
Record position : Type := Position { pos_filename : option str; pos_line : Z; pos_path : list str }.

(** [errno], and the messages given to [cfg_error], whichever function prints
    them. *)
Record log : Type := Log { errno : Z; messages : list str }.

Definition set_sc (sc : start_condition) (l : lexer) : lexer :=
  Lexer sc (buffers l) (cfg_qstring l) (qstring_index l) (qstring_len l) (cfg_include_stack l)
    (cfg_yylval l) (next_fp l).
Definition set_buffers (b : list buffer) (l : lexer) : lexer :=
  Lexer (yy_sc l) b (cfg_qstring l) (qstring_index l) (qstring_len l) (cfg_include_stack l)
    (cfg_yylval l) (next_fp l).
Definition set_qstring (q : option str) (i n : nat) (l : lexer) : lexer :=
  Lexer (yy_sc l) (buffers l) q i n (cfg_include_stack l) (cfg_yylval l) (next_fp l).
Definition set_include_stack (st : list include_entry) (l : lexer) : lexer :=
  Lexer (yy_sc l) (buffers l) (cfg_qstring l) (qstring_index l) (qstring_len l) st
    (cfg_yylval l) (next_fp l).
Definition set_yylval (v : option str) (l : lexer) : lexer :=
  Lexer (yy_sc l) (buffers l) (cfg_qstring l) (qstring_index l) (qstring_len l)
    (cfg_include_stack l) v (next_fp l).
Definition set_next_fp (n : nat) (l : lexer) : lexer :=
  Lexer (yy_sc l) (buffers l) (cfg_qstring l) (qstring_index l) (qstring_len l)
    (cfg_include_stack l) (cfg_yylval l) n.

Definition set_errno (e : Z) (g : log) : log := Log e (messages g).
Definition add_message (m : str) (g : log) : log := Log (errno g) (messages g ++ [m]).

(** The globals when the process starts. *)
Definition fresh_lexer : lexer := Lexer INITIAL [] None 0 0 [] None 0.
Definition fresh_log : log := Log 0 [].

(** The tokens: an error, the end of the file, [CFGT_STR], [CFGT_COMMENT] and
    the characters. *)
Definition tok_error : Z := 0.
Definition EOF : Z := -1.
Definition CFGT_STR : Z := 3.
Definition CFGT_COMMENT : Z := 8.

(** ** The files *)

(** [fopen], [fmemopen]: a new stream; [cfg_scan_fp_begin] makes it the current
    buffer. *)
Definition scan_stream (text : str) (l : lexer) : lexer :=
  set_next_fp (S (next_fp l)) (set_buffers (Buffer (next_fp l) text :: buffers l) l).

(** [cfg_scan_fp_end] *)
Definition cfg_scan_fp_end (l : lexer) : lexer :=
  set_buffers (tail (buffers l)) (set_qstring None 0 0 l).

(** ** What an action does besides the lexer *)

(** [cfg->line] goes up, or an included file is left. *)
Inductive movement : Type := Lines (n : Z) | Back (e : include_entry).

(** A token or [None] to go on, the movement, and a message. *)
Record out : Type := Out { out_tok : option Z; out_move : movement; out_message : option str }.

Definition action : Type := lexer → lexer * out.

Definition skip (f : lexer → lexer) : action := fun l => (f l, Out None (Lines 0) None).
Definition skip_line (f : lexer → lexer) : action := fun l => (f l, Out None (Lines 1) None).
Definition give (tok : Z) (f : lexer → lexer) : action := fun l => (f l, Out (Some tok) (Lines 0) None).
Definition refuse (m : str) : action := fun l => (l, Out (Some tok_error) (Lines 0) (Some m)).

(** [cfg_yylval = yytext; return c] *)
Definition token (c : Z) (yytext : str) : action := give c (set_yylval (Some (c_str yytext))).

Section Lexer.
Context `{Host}.

(** ** The buffer of strings and comments *)

(** [qputc]: the block grows when it is full; [memset] clears what is new but
    for the last byte. *)
Definition qputc (ch : ascii) (l : lexer) : lexer :=
  let i := qstring_index l in
  let '(q, n) :=
    if qstring_len l <=? i
    then (take i (default [] (cfg_qstring l)) ++ replicate CFG_QSTRING_BUFSIZ NUL ++ [junk],
          qstring_len l + CFG_QSTRING_BUFSIZ)
    else (default [] (cfg_qstring l), qstring_len l) in
  set_qstring (Some (<[i := ch]> q)) (S i) n l.

(** Every byte of a C string. *)
Definition qputs (s : str) (l : lexer) : lexer := foldl (fun l c => qputc c l) l s.

(** [qput], but for the line it counts. *)
Definition qput (yytext : str) (l : lexer) : lexer := qputs (c_str yytext) l.

(** [qbeg] *)
Definition qbeg (sc : start_condition) (l : lexer) : lexer :=
  let q := (fun b => replicate (qstring_len l) NUL ++ drop (qstring_len l) b) <$> cfg_qstring l in
  set_qstring q 0 (qstring_len l) (set_sc sc l).

(** The loop of [trim_whitespace]: the length without the blanks at the end. *)
Fixpoint trim_length (s : str) (len : nat) : nat :=
  match len with
  | S (S _ as before) =>
      if (Ascii.eqb (nth len s NUL) NUL || is_space (nth len s NUL)) && is_space (nth before s NUL)
      then trim_length s before else len
  | _ => len
  end.

(** [trim_whitespace]: the block, cut, and the string that starts at its first
    byte that is not a blank. *)
Definition trim_whitespace (q : option str) (len : nat) : option str * option str :=
  match q with
  | None => (None, None)
  | Some s =>
      if Ascii.eqb (nth 0 s NUL) NUL then (Some s, Some (c_str s))
      else
        let s := <[trim_length s len := NUL]> s in
        (Some s, Some (c_str (skip_spaces s)))
  end.

(** [qend]; every call trims and counts a line. *)
Definition qend (trim : bool) (ret : Z) : action := fun l =>
  let l := set_sc INITIAL l in
  let l :=
    if trim then
      let '(q, v) := trim_whitespace (cfg_qstring l) (qstring_index l) in
      set_yylval v (set_qstring q (qstring_index l) (qstring_len l) l)
    else let l := qputc NUL l in set_yylval (c_str <$> cfg_qstring l) l in
  (l, Out (Some ret) (Lines 1) None).

(** An opening quote. *)
Definition open_string (sc : start_condition) (l : lexer) : lexer :=
  set_sc sc (set_qstring (cfg_qstring l) 0 (qstring_len l) l).

(** A closing quote. *)
Definition close_string : action :=
  give CFGT_STR (fun l =>
    let l := qputc NUL (set_sc INITIAL l) in set_yylval (c_str <$> cfg_qstring l) l).

(** ** The actions *)

(** The name and the default of [${name:-default}]; [strlen] stops at a NUL of
    the text. *)
Definition env_parts (yytext : str) : str * option str :=
  let s := c_str yytext in
  let body := take (length s - 3) (drop 2 s) in
  match find_char ":" body with
  | Some i =>
      if bool_decide (body !! S i = Some "-"%char) then (take i body, Some (drop (S (S i)) body))
      else (body, None)
  | None => (body, None)
  end.

(** The variable, or else its default. *)
Definition env_value (yytext : str) : option str :=
  let '(name, e) := env_parts yytext in
  match getenv name with Some v => Some (c_str v) | None => e end.

(** The value [sscanf] reads from digits in a base. *)
Definition digit_value (c : ascii) : Z :=
  if is_digit c then ord c - 48 else (ord (tolower c) - 87)%Z.
Definition read_base (b : Z) (s : str) : Z := foldl (fun n c => n * b + digit_value c)%Z 0%Z s.

(** The rules of the condition [INITIAL]. *)
Definition initial_rule (act : nat) (yytext : str) : option action :=
  match act with
  | 1 => Some (skip id)
  | 2 => Some (skip_line id)
  | 3 | 4 => Some (skip (qbeg olcomment))
  | 7 => Some (token (ord "{") yytext)
  | 8 => Some (token (ord "}") yytext)
  | 9 => Some (token (ord "(") yytext)
  | 10 => Some (token (ord ")") yytext)
  | 11 => Some (token (ord "=") yytext)
  | 12 => Some (token (ord "+") yytext)
  | 13 => Some (token (ord ",") yytext)
  | 14 => Some (skip (qbeg comment))
  | 19 => Some (skip (open_string dq_str))
  | 37 => Some (skip (open_string sq_str))
  | 44 => Some (give CFGT_STR (set_yylval (Some (default [] (env_value yytext)))))
  | 45 => Some (token CFGT_STR yytext)
  | 46 => Some (skip id)
  | _ => None
  end.

(** Comments: of one line, and between stars. *)
Definition comment_rule (act : nat) (yytext : str) : option action :=
  match act with
  | 5 | 15 | 16 => Some (skip (qput yytext))
  | 6 | 18 => Some (qend true CFGT_COMMENT)
  | 17 => Some (skip_line (qput yytext))
  | _ => None
  end.

(** Double-quoted strings. *)
Definition dq_rule (act : nat) (yytext : str) : option action :=
  match act with
  | 20 => Some close_string
  | 21 => Some (skip (qputs (default [] (env_value yytext))))
  | 22 => Some (skip_line (qputc NL))
  | 23 => Some (skip_line id)
  | 24 =>
      let result := read_base 8 (drop 1 yytext) in
      Some (if (255 <? result)%Z then refuse (#"invalid octal number '" ++ c_str yytext ++ #"'")
            else skip (qputc (chr result)))
  | 25 => Some (refuse (#"bad escape sequence '" ++ c_str yytext ++ #"'"))
  | 26 => Some (skip (qputc (chr (read_base 16 (drop 2 yytext)))))
  | 27 => Some (skip (qputc NL))
  | 28 => Some (skip (qputc "013"))
  | 29 => Some (skip (qputc "008"))
  | 30 => Some (skip (qputc "012"))
  | 31 => Some (skip (qputc "007"))
  | 32 => Some (skip (qputc "027"))
  | 33 => Some (skip (qputc TAB))
  | 34 => Some (skip (qputc "011"))
  | 35 => Some (skip (qputc (nth 1 yytext NUL)))
  | 36 => Some (skip (qputc (nth 0 yytext NUL)))
  | _ => None
  end.

(** Single-quoted strings. *)
Definition sq_rule (act : nat) (yytext : str) : option action :=
  match act with
  | 38 => Some close_string
  | 39 => Some (skip_line (qputc NL))
  | 40 => Some (skip_line id)
  | 41 => Some (skip (qputc (nth 1 yytext NUL)))
  | 42 => Some (skip (fun l => qputc (nth 1 yytext NUL) (qputc (nth 0 yytext NUL) l)))
  | 43 => Some (skip (qputs (c_str yytext)))
  | _ => None
  end.

(** The action of a rule; rule 47 writes the byte to the standard output. *)
Definition rule_action (sc : start_condition) (act : nat) (yytext : str) : option action :=
  if act =? 47 then Some (skip id)
  else match sc with
       | INITIAL => initial_rule act yytext
       | olcomment | comment => comment_rule act yytext
       | dq_str => dq_rule act yytext
       | sq_str => sq_rule act yytext
       end.

(** The end of an included file: back to the including one. *)
Definition end_of_file : action := fun l =>
  match cfg_include_stack l, buffers l with
  | e :: st, b :: _ =>
      if inc_fp e =? buf_fp b
      then (cfg_scan_fp_end (set_include_stack st l), Out None (Back e) None)
      else (l, Out (Some EOF) (Lines 0) None)
  | _, _ => (l, Out (Some EOF) (Lines 0) None)
  end.

(** The actions at the end of a file. *)
Definition eof_action (sc : start_condition) : action :=
  match sc with
  | olcomment => qend true CFGT_COMMENT
  | sq_str => refuse #"unterminated string constant"
  | INITIAL | comment | dq_str => end_of_file
  end.

(** One turn of the scanner: the action of the end of the file, or that of the
    next rule once its text is read. *)
Definition yylex_turn (l : lexer) : option (lexer * out) :=
  match buffers l with
  | [] => None
  | Buffer _ [] :: _ => Some (eof_action (yy_sc l) l)
  | Buffer fp text :: bs =>
      '(act, n) ← yy_scan (yy_sc l) text;
      a ← rule_action (yy_sc l) act (take n text);
      Some (a (set_buffers (Buffer fp (drop n text) :: bs) l))
  end.

(** The lexer, the position and the log. *)
Record scan : Type := Scan { s_lexer : lexer; s_pos : position; s_log : log }.

Abbreviation LX := (stM Empty_set scan).

Definition move (m : movement) (p : position) : position :=
  match m with
  | Lines n => Position (pos_filename p) (pos_line p + n) (pos_path p)
  | Back e => Position (inc_filename e) (inc_line e) (pos_path p)
  end.

Definition log_message (m : option str) (g : log) : log :=
  match m with Some m => add_message m g | None => g end.

(** [cfg_error], once the message is formatted. *)
Definition cfg_error (m : str) : LX unit :=
  modify (fun s => Scan (s_lexer s) (s_pos s) (add_message m (s_log s))).

(** Turns until a token. *)
Fixpoint yylex_loop (fuel : nat) : LX Z :=
  match fuel with
  | O => lift Undef
  | S fuel => fun s =>
      match yylex_turn (s_lexer s) with
      | None => (s, Undef)
      | Some (l, o) =>
          let s := Scan l (move (out_move o) (s_pos s)) (log_message (out_message o) (s_log s)) in
          match out_tok o with
          | Some tok => (s, Ret tok)
          | None => yylex_loop fuel s
          end
      end
  end.

(** A turn reads a byte or leaves a file. *)
Definition unread (l : lexer) : nat := sum_list_with (fun b => S (length (buf_rest b))) (buffers l).

(** [cfg_yylex] *)
Definition cfg_yylex : LX Z := fun s => yylex_loop (S (unread (s_lexer s))) s.

End Lexer.
