(* ===== verification/ConfuseLexerSpec.v ===== *)
(** * What the lexer of libconfuse gives

    [cfg_yylex] returns from every state that has a buffer; outside of included
    files what it returns depends on the globals of the lexer alone, and a text
    is a finite list of tokens. *)
From S2P Require Import Prelude.
From S2P Require Import CLib.
From S2P Require Import ConfuseScanner.
From S2P Require Import ConfuseRules.
From S2P Require Import ConfuseLexer.

Section LexerSpec.
Context `{Host}.

(** ** A turn *)

Lemma rule_action_total sc act r yytext :
  (act, r) ∈ rules sc → is_Some (rule_action sc act yytext).
Proof.
  intros Hin. assert (act ∈ (rules sc).*1) as Ha by (apply list_elem_of_fmap; by exists (act, r)).
  clear Hin. assert (Forall (fun a => ∀ t, is_Some (rule_action sc a t)) (rules sc).*1) as Hall.
  { clear. destruct sc;
      match goal with |- Forall _ ?l => let l' := eval vm_compute in l in change l with l' end;
      repeat constructor; intros; eexists; reflexivity. }
  by eapply Forall_forall in Hall.
Qed.

(** A turn that reads text. *)
Lemma turn_reads l fp text bs :
  buffers l = Buffer fp text :: bs → text ≠ [] →
  ∃ act n a, yy_scan (yy_sc l) text = Some (act, n) ∧ 0 < n ≤ length text ∧
    rule_action (yy_sc l) act (take n text) = Some a ∧
    yylex_turn l = Some (a (set_buffers (Buffer fp (drop n text) :: bs) l)).
Proof.
  intros Hb Hne. destruct (scan_longest (yy_sc l) text Hne) as (act & n & E & Hl).
  destruct Hl as (Hn & (r & Hr & _) & _).
  destruct (rule_action_total _ _ _ (take n text) Hr) as [a Ha].
  exists act, n, a. split_and!; try done; try lia. unfold yylex_turn. rewrite Hb.
  destruct text as [|c text]; [done|]. by rewrite E; cbn; rewrite Ha.
Qed.

(** ** What the actions leave alone *)

(** The buffers and the included files. *)
Definition same_files (l l' : lexer) : Prop :=
  buffers l' = buffers l ∧ cfg_include_stack l' = cfg_include_stack l.

#[local] Instance same_files_refl : Reflexive same_files.
Proof. by intros l. Qed.

#[local] Instance same_files_trans : Transitive same_files.
Proof. intros l l' l'' [? ?] [? ?]. split; congruence. Qed.

Lemma qputc_files c l : same_files l (qputc c l).
Proof. unfold qputc. by case_match; case_match. Qed.

Lemma qputs_files s l : same_files l (qputs s l).
Proof.
  unfold qputs. revert l. induction s as [|c s IH]; intros l; cbn; [done|].
  etrans; [apply qputc_files|apply IH].
Qed.

Lemma qend_files trim ret l : same_files l (fst (qend trim ret l)).
Proof.
  unfold qend. destruct trim; cbn.
  - by destruct (trim_whitespace _ _).
  - by destruct (qputc_files NUL (set_sc INITIAL l)).
Qed.

(** A rule counts lines at most; one that refuses the text has a message. *)
Definition plain_out (o : out) : Prop :=
  (∃ n, out_move o = Lines n) ∧ (out_tok o = Some tok_error → is_Some (out_message o)) ∧
  out_tok o ≠ Some EOF.

Lemma give_ok tok f l :
  tok ≠ tok_error → tok ≠ EOF → same_files l (f l) →
  same_files l (fst (give tok f l)) ∧ plain_out (snd (give tok f l)).
Proof. intros ? ? ?. split; [done|]. repeat split; cbn; [by eexists|congruence|congruence]. Qed.

Lemma skip_out_ok f l : same_files l (f l) → same_files l (fst (skip f l)) ∧ plain_out (snd (skip f l)).
Proof. intros ?. split; [done|]. repeat split; cbn; [by eexists|done|done]. Qed.

Lemma skip_line_ok f l :
  same_files l (f l) → same_files l (fst (skip_line f l)) ∧ plain_out (snd (skip_line f l)).
Proof. intros ?. split; [done|]. repeat split; cbn; [by eexists|done|done]. Qed.

Lemma refuse_ok m l : same_files l (fst (refuse m l)) ∧ plain_out (snd (refuse m l)).
Proof. split; [done|]. repeat split; cbn; [by eexists|by eexists|done]. Qed.

Lemma qend_ok l :
  same_files l (fst (qend true CFGT_COMMENT l)) ∧ plain_out (snd (qend true CFGT_COMMENT l)).
Proof. split; [apply qend_files|]. repeat split; cbn; [by eexists|done|done]. Qed.

Lemma close_string_ok l : same_files l (fst (close_string l)) ∧ plain_out (snd (close_string l)).
Proof.
  apply give_ok; [done|done|]. destruct (qputc_files NUL (set_sc INITIAL l)). by split.
Qed.

Lemma rule_action_ok sc act yytext a l :
  rule_action sc act yytext = Some a → same_files l (fst (a l)) ∧ plain_out (snd (a l)).
Proof.
  unfold rule_action, initial_rule, comment_rule, dq_rule, sq_rule, token.
  intros E. repeat case_match; simplify_eq;
    first [ apply refuse_ok | apply qend_ok | apply close_string_ok
          | apply give_ok; [done|done|]; (reflexivity || by split)
          | (apply skip_out_ok || apply skip_line_ok); unfold qput;
            first [ done | by split | apply qputc_files | apply qputs_files
                  | etrans; [apply qputc_files|apply qputc_files] ] ].
Qed.

(** ** The lexer without the position and the log *)

Fixpoint lex_loop (fuel : nat) (l : lexer) : option (lexer * Z) :=
  match fuel with
  | O => None
  | S fuel =>
      '(l, o) ← yylex_turn l;
      match out_tok o with
      | Some tok => Some (l, tok)
      | None => lex_loop fuel l
      end
  end.

Definition lex (l : lexer) : option (lexer * Z) := lex_loop (S (unread l)) l.

(** One buffer at least, and no included file. *)
Definition single_file (l : lexer) : Prop := buffers l ≠ [] ∧ cfg_include_stack l = [].

(** The bytes left, and the comment a line still owes at the end of the file. *)
Definition pending (l : lexer) : nat :=
  2 * unread l + (if bool_decide (yy_sc l = olcomment) then 1 else 0).

(** What a turn does. *)
Lemma turn_spec l :
  single_file l →
  ∃ l' o, yylex_turn l = Some (l', o) ∧ single_file l' ∧ length (buffers l') = length (buffers l) ∧
    (∃ n, out_move o = Lines n) ∧ (out_tok o = Some tok_error → is_Some (out_message o)) ∧
    (out_tok o = None → unread l' < unread l) ∧ unread l' ≤ unread l ∧
    (out_tok o = Some EOF → l' = l ∧ o = Out (Some EOF) (Lines 0) None) ∧
    (out_tok o ≠ Some EOF → out_tok o ≠ Some tok_error → pending l' < pending l).
Proof.
  intros [Hb Hi]. destruct (buffers l) as [|[fp text] bs] eqn:E; [done|].
  destruct (decide (text = [])) as [->|Hne].
  - unfold yylex_turn. rewrite E. destruct (yy_sc l) eqn:Esc; cbn.
    1,3,4: unfold end_of_file; rewrite Hi; do 2 eexists; (split; [done|]); unfold single_file;
      rewrite E, Hi; cbn; by repeat split; eauto.
    + destruct (qend_files true CFGT_COMMENT l) as [Hb' Hi'].
      destruct (qend true CFGT_COMMENT l) as [l' o'] eqn:Eq. cbn in *.
      assert (o' = Out (Some CFGT_COMMENT) (Lines 1) None ∧ yy_sc l' = INITIAL) as [-> Hsc].
      { revert Eq. unfold qend. cbn. destruct (trim_whitespace _ _). by intros [= <- <-]. }
      do 2 eexists. split; [done|]. unfold single_file, pending, unread. rewrite Hb', Hi', E, Hi, Hsc, Esc. cbn.
      repeat split; eauto; try done. intros. rewrite bool_decide_false, bool_decide_true by done. lia.
    + do 2 eexists. split; [done|]. unfold single_file. rewrite E, Hi. cbn. by repeat split; eauto.
  - destruct (turn_reads l fp text bs E Hne) as (act & n & a & _ & Hn & Ha & ->).
    destruct (rule_action_ok _ _ _ _ (set_buffers (Buffer fp (drop n text) :: bs) l) Ha) as [Hf Ho].
    destruct (a _) as [l' o]. cbn in *. destruct Hf as [Hb' Hi']. cbn in *.
    do 2 eexists. split; [done|]. unfold single_file, pending, unread in *. rewrite Hb', Hi', E, Hi. cbn.
    rewrite length_drop. destruct Ho as (Hm & Ht & He).
    repeat split; eauto; try done; try lia. intros. do 2 case_bool_decide; lia.
Qed.

Lemma lex_loop_spec fuel l :
  single_file l → unread l < fuel →
  ∃ l' tok, lex_loop fuel l = Some (l', tok) ∧ single_file l' ∧ length (buffers l') = length (buffers l) ∧
    unread l' ≤ unread l ∧
    (tok ≠ EOF → tok ≠ tok_error → pending l' < pending l) ∧ (tok = EOF → yylex_turn l' = Some (l', Out (Some EOF) (Lines 0) None)).
Proof.
  revert l. induction fuel as [|fuel IH]; intros l Hs Hf; [lia|]. cbn.
  destruct (turn_spec l Hs) as (l' & o & E & Hs' & Hl & Hm & _ & Hn & Hu & He & Hp).
  rewrite E. cbn. destruct (out_tok o) as [tok|] eqn:Eo.
  - exists l', tok. split_and!; try done.
    + intros ? ?. apply Hp; congruence.
    + intros ->. by destruct (He eq_refl) as [-> ->].
  - destruct (IH l' Hs' ltac:(specialize (Hn eq_refl); lia)) as (l'' & tok & -> & ? & ? & ? & Hp' & ?).
    exists l'', tok. split_and!; try done; [congruence|lia|].
    intros ? ?. etrans; [by apply Hp'|by apply Hp].
Qed.

Lemma lex_spec l :
  single_file l →
  ∃ l' tok, lex l = Some (l', tok) ∧ single_file l' ∧ length (buffers l') = length (buffers l) ∧
    (tok ≠ EOF → tok ≠ tok_error → pending l' < pending l) ∧ (tok = EOF → lex l' = Some (l', EOF)).
Proof.
  intros Hs. destruct (lex_loop_spec (S (unread l)) l Hs) as (l' & tok & E & ? & ? & _ & ? & He); [lia|].
  exists l', tok. split_and!; try done. intros ->. unfold lex. cbn. by rewrite He.
Qed.

(** [cfg_yylex] returns what [lex] gives, keeps the name and the path of the
    section and [errno], and reports at least one message with an error. *)
Lemma yylex_loop_lex fuel s :
  single_file (s_lexer s) → unread (s_lexer s) < fuel →
  ∃ l tok p g ms, lex_loop fuel (s_lexer s) = Some (l, tok) ∧ yylex_loop fuel s = (Scan l p g, Ret tok) ∧
    pos_filename p = pos_filename (s_pos s) ∧ pos_path p = pos_path (s_pos s) ∧
    errno g = errno (s_log s) ∧ messages g = messages (s_log s) ++ ms ∧ (tok = tok_error → ms ≠ []).
Proof.
  revert s. induction fuel as [|fuel IH]; intros s Hs Hf; [lia|]. cbn.
  destruct (turn_spec (s_lexer s) Hs) as (l & o & E & Hs' & _ & [n Hm] & Hmsg & Hn & Hu & _).
  rewrite E. cbn. rewrite Hm. destruct (out_tok o) as [tok|] eqn:Eo.
  - exists l, tok. do 2 eexists. exists (if out_message o is Some m then [m] else []).
    split_and!; try done; cbn.
    + by destruct (out_message o).
    + destruct (out_message o); [done|]. by rewrite app_nil_r.
    + intros ->. by destruct (Hmsg eq_refl) as [m ->].
  - set (s' := Scan l _ _). destruct (IH s') as (l' & tok & p & g & ms & E1 & E2 & ? & ? & He & Hg & Ht);
      [done|cbn; specialize (Hn eq_refl); lia|].
    cbn in E1. rewrite E1, E2. exists l', tok, p, g, ((if out_message o is Some m then [m] else []) ++ ms).
    split_and!; try done; cbn in *.
    + rewrite He. by destruct (out_message o).
    + rewrite Hg. destruct (out_message o); cbn; [by rewrite <- app_assoc|done].
    + intros Htok. specialize (Ht Htok). by destruct (out_message o).
Qed.

Lemma yylex_lex s :
  single_file (s_lexer s) →
  ∃ l tok p g ms, lex (s_lexer s) = Some (l, tok) ∧ cfg_yylex s = (Scan l p g, Ret tok) ∧
    pos_filename p = pos_filename (s_pos s) ∧ pos_path p = pos_path (s_pos s) ∧
    errno g = errno (s_log s) ∧ messages g = messages (s_log s) ++ ms ∧ (tok = tok_error → ms ≠ []).
Proof. intros Hs. apply yylex_loop_lex; [done|lia]. Qed.

(** ** The tokens of a text *)

Definition stops (tok : Z) : bool := (tok =? EOF)%Z || (tok =? tok_error)%Z.

Fixpoint tokens_loop (fuel : nat) (l : lexer) : list (Z * option str) :=
  match fuel with
  | O => []
  | S fuel =>
      match lex l with
      | Some (l, tok) => (tok, cfg_yylval l) :: (if stops tok then [] else tokens_loop fuel l)
      | None => []
      end
  end.

(** The tokens a lexer gives, with their values, to the end of its file or the
    first error. *)
Definition tokens (l : lexer) : list (Z * option str) := tokens_loop (S (pending l)) l.

Lemma stops_false tok : stops tok = false → tok ≠ EOF ∧ tok ≠ tok_error.
Proof. unfold stops. intros E. by reflect_bool. Qed.

Lemma tokens_loop_fuel n m l :
  single_file l → pending l < n → pending l < m → tokens_loop n l = tokens_loop m l.
Proof.
  revert m l. induction n as [|n IH]; intros [|m] l Hs Hn Hm; try lia. cbn [tokens_loop].
  destruct (lex_spec l Hs) as (l' & tok & -> & Hs' & _ & Hp & _).
  destruct (stops tok) eqn:Et; [done|]. apply stops_false in Et as [? ?]. f_equal.
  specialize (Hp ltac:(done) ltac:(done)). apply IH; [done|lia|lia].
Qed.

Lemma tokens_step l :
  single_file l →
  ∃ l' tok, lex l = Some (l', tok) ∧ single_file l' ∧ length (buffers l') = length (buffers l) ∧
    tokens l = (tok, cfg_yylval l') :: (if stops tok then [] else tokens l') ∧
    (tok = EOF → lex l' = Some (l', EOF)).
Proof.
  intros Hs. destruct (lex_spec l Hs) as (l' & tok & E & Hs' & Hl & Hp & He).
  exists l', tok. split_and!; try done. unfold tokens at 1. cbn [tokens_loop]. rewrite E.
  destruct (stops tok) eqn:Et; [done|]. apply stops_false in Et as [? ?]. f_equal.
  specialize (Hp ltac:(done) ltac:(done)). apply tokens_loop_fuel; [done|lia|lia].
Qed.

Lemma tokens_length l : single_file l → length (tokens l) ≤ S (pending l).
Proof.
  unfold tokens. generalize (S (pending l)) as n. intros n. revert l.
  induction n as [|n IH]; intros l Hs; cbn [tokens_loop]; [cbn; lia|].
  destruct (lex_spec l Hs) as (l' & tok & -> & Hs' & _). cbn.
  destruct (stops tok); cbn; [lia|]. specialize (IH l' Hs'). lia.
Qed.

(** ** The value of a string *)

Lemma qputc_value c l : is_Some (cfg_qstring (qputc c l)).
Proof. unfold qputc. case_match. cbn. by eexists. Qed.

Lemma rule_action_value sc act yytext a l :
  rule_action sc act yytext = Some a → out_tok (snd (a l)) = Some CFGT_STR → is_Some (cfg_yylval (fst (a l))).
Proof.
  unfold rule_action, initial_rule, comment_rule, dq_rule, sq_rule, token.
  intros E. repeat case_match; simplify_eq; intros Ht; try (exfalso; cbn in Ht; discriminate Ht);
    try (revert Ht; unfold qend; cbn; destruct (trim_whitespace _ _); cbn; congruence);
    try (unfold close_string, give; cbn; rewrite fmap_is_Some; apply qputc_value);
    cbn; by eexists.
Qed.

Lemma lex_value l l' : lex l = Some (l', CFGT_STR) → is_Some (cfg_yylval l').
Proof.
  unfold lex. generalize (S (unread l)) as fuel. intros fuel. revert l.
  induction fuel as [|fuel IH]; intros l; cbn; [done|].
  destruct (yylex_turn l) as [[l1 o]|] eqn:E; [|done]. cbn.
  destruct (out_tok o) as [tok|] eqn:Eo; [|apply IH]. intros [= -> ->].
  revert E. unfold yylex_turn. destruct (buffers l) as [|[fp [|c text]] bs]; [done| |].
  - intros [= E]. exfalso. revert E Eo. unfold eof_action, qend, end_of_file, refuse. cbn.
    destruct (yy_sc l); repeat case_match; intros [= <- <-]; cbn; discriminate.
  - destruct (yy_scan _ _) as [[act n]|]; [|done]. cbn.
    destruct (rule_action _ _ _) as [a|] eqn:Ea; [|done]. cbn. intros [= E].
    pose proof (rule_action_value _ _ _ _ (set_buffers (Buffer fp (drop n (c :: text)) :: bs) l) Ea) as Hv.
    rewrite E in Hv. by apply Hv.
Qed.

End LexerSpec.
