(* ===== verification/ConfuseFiles.v ===== *)
(** * Names of files in libconfuse (third/confuse/src/confuse.c and lexer.c)

    Tilde expansion, the search path, and [cfg_lexer_include], which puts the
    text of another file before what is left of the current one. *)
From S2P Require Import Prelude.
From S2P Require Import CLib.
From S2P Require Import ConfuseScanner.
From S2P Require Import ConfuseRules.
From S2P Require Import ConfuseLexer.

Section Files.
Context `{Host}.

Abbreviation LX := (stM Empty_set scan).

(** [cfg_tilde_expand].  The name of [~user] is copied to a block that has no
    room for its end, and [getpwnam] reads beyond it. *)
Definition cfg_tilde_expand (filename : str) : outcome Empty_set str :=
  match c_str filename with
  | "~"%char :: file =>
      match file with
      | [] | "/"%char :: _ =>
          Ret (match own_home with Some dir => c_str dir ++ file | None => "~"%char :: file end)
      | _ => Undef
      end
  | filename => Ret filename
  end.

(** [cfg_make_fullpath] *)
Definition cfg_make_fullpath (dir file : str) : str := c_str dir ++ #"/" ++ c_str file.

(** [cfg_searchpath]: the path is searched from its end. *)
Fixpoint cfg_searchpath (p : list str) (file : str) : option str :=
  match p with
  | [] => None
  | dir :: next =>
      match cfg_searchpath next file with
      | Some fullpath => Some fullpath
      | None =>
          let fullpath := cfg_make_fullpath dir file in
          if is_regular fullpath then Some fullpath else None
      end
  end.

(** [cfg_add_searchpath] *)
Definition cfg_add_searchpath (p : position) (dir : str) : outcome Empty_set position :=
  d ← cfg_tilde_expand dir;
  mret (Position (pos_filename p) (pos_line p) (d :: pos_path p)).

(** The file a name stands for, from the path or by tilde expansion. *)
Definition resolve_name (p : position) (filename : str) : outcome Empty_set (option str) :=
  match pos_path p with
  | [] => f ← cfg_tilde_expand filename; mret (Some f)
  | path => mret (cfg_searchpath path filename)
  end.

Definition CFG_SUCCESS : Z := 0.
Definition CFG_FAIL : Z := -1.
Definition CFG_FILE_ERROR : Z := -1.
Definition CFG_PARSE_ERROR : Z := 1.

(** The file is found: it is opened and becomes the current buffer; its first
    read clears [errno]. *)
Definition include_file (xfilename : str) : LX Z :=
  match fopen xfilename with
  | None => cfg_error (xfilename ++ #": " ++ open_error xfilename);; mret CFG_PARSE_ERROR
  | Some text =>
      modify (fun s =>
        let l := s_lexer s in
        let p := s_pos s in
        let e := Include (next_fp l) (pos_filename p) (pos_line p) in
        Scan (scan_stream text (set_include_stack (e :: cfg_include_stack l) l))
          (Position (Some xfilename) 1 (pos_path p)) (set_errno 0 (s_log s)));;
      mret CFG_SUCCESS
  end.

(** [cfg_lexer_include] *)
Definition cfg_lexer_include (filename : str) : LX Z :=
  s ← get;
  if MAX_INCLUDE_DEPTH <=? length (cfg_include_stack (s_lexer s))
  then cfg_error #"includes nested too deeply";; mret CFG_PARSE_ERROR
  else
    xfilename ← lift (resolve_name (s_pos s) filename);
    match xfilename with
    | None => cfg_error (c_str filename ++ #": Not found in search path");; mret CFG_PARSE_ERROR
    | Some xfilename => include_file xfilename
    end.

End Files.
