(* ===== verification/ConfuseData.v ===== *)
(** * The data of libconfuse (third/confuse/src/confuse.h, confuse.c)

    Options, their values and sections as one tree; the functions that look
    them up, read their values and change them.  The flag [CFGF_RAW] and
    floating point options, which no table of the program has, are outside of
    the model: an operation that meets one is [Undef]. *)
From S2P Require Import Prelude.
From S2P Require Import CLib.
From S2P Require Import ConfuseScanner.
From S2P Require Import ConfuseRules.
From S2P Require Import ConfuseLexer.
From S2P Require Import ConfuseFiles.

(** ** Types *)

(** [enum cfg_type_t] *)
Inductive cfg_type : Type :=
  | TYPE_NONE | TYPE_INT | TYPE_FLOAT | TYPE_STR | TYPE_BOOL | TYPE_SEC | TYPE_FUNC | TYPE_PTR
  | TYPE_COMMENT.

#[export] Instance cfg_type_eq_dec : EqDecision cfg_type.
Proof. solve_decision. Defined.

Definition type_is (t u : cfg_type) : bool := bool_decide (t = u).

(** The flags. *)
Definition CFGF_NONE : Z := 0.
Definition CFGF_MULTI : Z := 1.
Definition CFGF_LIST : Z := 2.
Definition CFGF_NOCASE : Z := 4.
Definition CFGF_TITLE : Z := 8.
Definition CFGF_NODEFAULT : Z := 16.
Definition CFGF_NO_TITLE_DUPES : Z := 32.
Definition CFGF_RESET : Z := 64.
Definition CFGF_DEFINIT : Z := 128.
Definition CFGF_IGNORE_UNKNOWN : Z := 256.
Definition CFGF_DEPRECATED : Z := 512.
Definition CFGF_DROP : Z := 1024.
Definition CFGF_COMMENTS : Z := 2048.
Definition CFGF_RAW : Z := 4096.

Definition is_set (f x : Z) : bool := (Z.land f x =? f)%Z.
Definition set_flag (f x : Z) : Z := Z.lor x f.
Definition clear_flag (f x : Z) : Z := Z.land x (Z.lnot f).

(** [cfg_func_t]: the function of the library, or one of the user. *)
Inductive cfg_func : Type := cfg_include_func | user_func (n : nat).

(** [struct cfg_t], over the type of options. *)
Record section_of (O : Type) : Type := Sec {
  sec_flags : Z;
  sec_name : option str;
  sec_opts : list O;
  sec_title : option str;
  sec_pos : position
}.
Arguments Sec {O}.
Arguments sec_flags {O}.
Arguments sec_name {O}.
Arguments sec_opts {O}.
Arguments sec_title {O}.
Arguments sec_pos {O}.

(** [union cfg_value_t]: all zero as [calloc] leaves it, or the member that
    was written; a string may be null. *)
Inductive value_of (O : Type) : Type :=
  | VZero
  | VInt (n : Z)
  | VBool (b : Z)
  | VStr (s : option str)
  | VSec (sec : section_of O)
  | VPtr (p : Z).
Arguments VZero {O}.
Arguments VInt {O} n.
Arguments VBool {O} b.
Arguments VStr {O} s.
Arguments VSec {O} sec.
Arguments VPtr {O} p.

(** [cfg_defvalue_t] *)
Record defvalue : Type := Def { def_number : Z; def_boolean : Z; def_string : option str; def_parsed : option str }.

Definition no_default : defvalue := Def 0 0 None None.

(** [struct cfg_opt_t].  [nvalues] is the length of the values; the variable a
    simple option points to is kept with the option, which is the only one to
    use it; the callbacks of the user are numbers. *)
Record option_of (O : Type) : Type := OptR {
  opt_name : str;
  opt_comment : option str;
  opt_type : cfg_type;
  opt_values : list (value_of O);
  opt_flags : Z;
  opt_subopts : option (list O);
  opt_def : defvalue;
  opt_func : option cfg_func;
  simple_value : option (value_of O);
  parsecb : option nat;
  validcb : option nat;
  validcb2 : option nat;
  opt_pf : option nat
}.
Arguments OptR {O}.
Arguments opt_name {O}.
Arguments opt_comment {O}.
Arguments opt_type {O}.
Arguments opt_values {O}.
Arguments opt_flags {O}.
Arguments opt_subopts {O}.
Arguments opt_def {O}.
Arguments opt_func {O}.
Arguments simple_value {O}.
Arguments parsecb {O}.
Arguments validcb {O}.
Arguments validcb2 {O}.
Arguments opt_pf {O}.

Inductive cfg_opt_t : Type := Opt (o : option_of cfg_opt_t).

Abbreviation cfg_t := (section_of cfg_opt_t).
Abbreviation cfg_value_t := (value_of cfg_opt_t).

Definition un (o : cfg_opt_t) : option_of cfg_opt_t := match o with Opt r => r end.

(** ** Changing a member *)

Definition with_values (v : list cfg_value_t) (o : cfg_opt_t) : cfg_opt_t :=
  let o := un o in
  Opt (OptR (opt_name o) (opt_comment o) (opt_type o) v (opt_flags o) (opt_subopts o) (opt_def o)
         (opt_func o) (simple_value o) (parsecb o) (validcb o) (validcb2 o) (opt_pf o)).
Definition with_flags (f : Z → Z) (o : cfg_opt_t) : cfg_opt_t :=
  let o := un o in
  Opt (OptR (opt_name o) (opt_comment o) (opt_type o) (opt_values o) (f (opt_flags o)) (opt_subopts o)
         (opt_def o) (opt_func o) (simple_value o) (parsecb o) (validcb o) (validcb2 o) (opt_pf o)).
Definition with_comment (c : option str) (o : cfg_opt_t) : cfg_opt_t :=
  let o := un o in
  Opt (OptR (opt_name o) c (opt_type o) (opt_values o) (opt_flags o) (opt_subopts o) (opt_def o)
         (opt_func o) (simple_value o) (parsecb o) (validcb o) (validcb2 o) (opt_pf o)).
Definition with_simple (v : cfg_value_t) (o : cfg_opt_t) : cfg_opt_t :=
  let o := un o in
  Opt (OptR (opt_name o) (opt_comment o) (opt_type o) (opt_values o) (opt_flags o) (opt_subopts o)
         (opt_def o) (opt_func o) (Some v) (parsecb o) (validcb o) (validcb2 o) (opt_pf o)).
Definition with_validcb (c : option nat) (o : cfg_opt_t) : cfg_opt_t :=
  let o := un o in
  Opt (OptR (opt_name o) (opt_comment o) (opt_type o) (opt_values o) (opt_flags o) (opt_subopts o)
         (opt_def o) (opt_func o) (simple_value o) (parsecb o) c (validcb2 o) (opt_pf o)).
Definition with_validcb2 (c : option nat) (o : cfg_opt_t) : cfg_opt_t :=
  let o := un o in
  Opt (OptR (opt_name o) (opt_comment o) (opt_type o) (opt_values o) (opt_flags o) (opt_subopts o)
         (opt_def o) (opt_func o) (simple_value o) (parsecb o) (validcb o) c (opt_pf o)).
Definition with_pf (c : option nat) (o : cfg_opt_t) : cfg_opt_t :=
  let o := un o in
  Opt (OptR (opt_name o) (opt_comment o) (opt_type o) (opt_values o) (opt_flags o) (opt_subopts o)
         (opt_def o) (opt_func o) (simple_value o) (parsecb o) (validcb o) (validcb2 o) c).

Definition with_opts (l : list cfg_opt_t) (c : cfg_t) : cfg_t :=
  Sec (sec_flags c) (sec_name c) l (sec_title c) (sec_pos c).
Definition with_pos (p : position) (c : cfg_t) : cfg_t :=
  Sec (sec_flags c) (sec_name c) (sec_opts c) (sec_title c) p.

(** ** The macros that make options *)

Definition CFG_INT (name : str) (def flags : Z) : cfg_opt_t :=
  Opt (OptR name None TYPE_INT [] flags None (Def def 0 None None) None None None None None None).
Definition CFG_STR (name : str) (def : option str) (flags : Z) : cfg_opt_t :=
  Opt (OptR name None TYPE_STR [] flags None (Def 0 0 def None) None None None None None None).
Definition CFG_STR_LIST (name : str) (def : option str) (flags : Z) : cfg_opt_t :=
  Opt (OptR name None TYPE_STR [] (set_flag CFGF_LIST flags) None (Def 0 0 None def)
         None None None None None None).
Definition CFG_INT_LIST (name : str) (def : option str) (flags : Z) : cfg_opt_t :=
  Opt (OptR name None TYPE_INT [] (set_flag CFGF_LIST flags) None (Def 0 0 None def)
         None None None None None None).
Definition CFG_BOOL (name : str) (def flags : Z) : cfg_opt_t :=
  Opt (OptR name None TYPE_BOOL [] flags None (Def 0 def None None) None None None None None None).
Definition CFG_BOOL_LIST (name : str) (def : option str) (flags : Z) : cfg_opt_t :=
  Opt (OptR name None TYPE_BOOL [] (set_flag CFGF_LIST flags) None (Def 0 0 None def)
         None None None None None None).
Definition CFG_SEC (name : str) (opts : list cfg_opt_t) (flags : Z) : cfg_opt_t :=
  Opt (OptR name None TYPE_SEC [] flags (Some opts) no_default None None None None None None).
Definition CFG_FUNC (name : str) (func : cfg_func) : cfg_opt_t :=
  Opt (OptR name None TYPE_FUNC [] CFGF_NONE None no_default (Some func) None None None None None).
Definition CFG_SIMPLE_STR (name : str) (svalue : option str) : cfg_opt_t :=
  with_simple (VStr svalue) (CFG_STR name None CFGF_NONE).
Definition CFG_SIMPLE_INT (name : str) (svalue : Z) : cfg_opt_t :=
  with_simple (VInt svalue) (CFG_INT name 0 CFGF_NONE).
Definition CFG_SIMPLE_BOOL (name : str) (svalue : Z) : cfg_opt_t :=
  with_simple (VBool svalue) (CFG_BOOL name 0 CFGF_NONE).

(** ** Paths

    A pointer to an option of a section, possibly of one below it, is the way
    to it: the index of an option and of its value for each section, and the
    index of the option.  Options do not move and the sections on the way are
    not freed while such a pointer is in use. *)
Definition sec_path : Type := list (nat * nat).
Definition opt_path : Type := sec_path * nat.

Definition value_section (v : cfg_value_t) : option cfg_t :=
  match v with VSec s => Some s | _ => None end.

Fixpoint section_at (c : cfg_t) (p : sec_path) : option cfg_t :=
  match p with
  | [] => Some c
  | (i, k) :: p =>
      o ← sec_opts c !! i;
      v ← opt_values (un o) !! k;
      s ← value_section v;
      section_at s p
  end.

Definition opt_at (c : cfg_t) (p : opt_path) : option cfg_opt_t :=
  s ← section_at c (fst p); sec_opts s !! snd p.

Definition alter_value (f : cfg_value_t → cfg_value_t) (k : nat) (o : cfg_opt_t) : cfg_opt_t :=
  with_values (alter f k (opt_values (un o))) o.

Definition alter_opt (f : cfg_opt_t → cfg_opt_t) (i : nat) (c : cfg_t) : cfg_t :=
  with_opts (alter f i (sec_opts c)) c.

Fixpoint alter_section (f : cfg_t → cfg_t) (p : sec_path) (c : cfg_t) : cfg_t :=
  match p with
  | [] => f c
  | (i, k) :: p =>
      alter_opt (alter_value (fun v => match v with VSec s => VSec (alter_section f p s) | v => v end) k) i c
  end.

Definition alter_at (f : cfg_opt_t → cfg_opt_t) (p : opt_path) (c : cfg_t) : cfg_t :=
  alter_section (alter_opt f (snd p)) (fst p) c.

(** ** Lookup *)

(** [strcasecmp(s, t) == 0] *)
Definition strcasecmp_eq (s t : str) : bool := str_eqb (tolower <$> c_str s) (tolower <$> c_str t).

Definition same_name (flags : Z) (s t : str) : bool :=
  if is_set CFGF_NOCASE flags then strcasecmp_eq s t else strcmp_eq s t.

(** The first element that passes a test. *)
Fixpoint find_index {A} (f : A → bool) (l : list A) : option nat :=
  match l with
  | [] => None
  | x :: l => if f x then Some 0 else S <$> find_index f l
  end.

(** Reading the tree may leave a message or [errno]. *)
Abbreviation GM := (stM Empty_set log).

Definition report (m : str) : GM unit := modify (add_message m).
Definition fail_with {A} (e : Z) (a : A) : GM A := modify (set_errno e);; mret a.

Definition no_such_option (name : str) : str := #"no such option '" ++ c_str name ++ #"'".

(** The last loop of [cfg_getopt]: the option of a section, or a message unless
    the flags of [cfg] say to ignore what is not known. *)
Definition lookup_opt (cfg sec : cfg_t) (name : str) : GM (option nat) :=
  match find_index (fun o => same_name (sec_flags sec) (opt_name (un o)) name) (sec_opts sec) with
  | Some i => mret (Some i)
  | None =>
      when (negb (is_set CFGF_IGNORE_UNKNOWN (sec_flags cfg))) (report (no_such_option name));;
      mret None
  end.

(** [cfg_opt_getnsec] *)
Definition cfg_opt_getnsec (opt : option cfg_opt_t) (index : nat) : GM (option cfg_t) :=
  match opt with
  | Some o =>
      if type_is (opt_type (un o)) TYPE_SEC then
        match opt_values (un o) !! index with
        | Some v => mret (value_section v)
        | None => fail_with ENOENT None
        end
      else fail_with EINVAL None
  | None => fail_with EINVAL None
  end.

(** [cfg_getsec] for a name without bars: the option and its section. *)
Definition getsec_plain (sec : cfg_t) (name : str) : GM (option (nat * cfg_t)) :=
  match sec_name sec with
  | None => modify (set_errno EINVAL);; fail_with EINVAL None
  | Some _ =>
      i ← lookup_opt sec sec name;
      s ← cfg_opt_getnsec (i ≫= fun i => sec_opts sec !! i) 0;
      mret (i ← i; s ← s; Some (i, s))
  end.

(** [strspn(name, "|")] dropped *)
Fixpoint skip_bars (name : str) : str :=
  match name with "|"%char :: r => skip_bars r | _ => name end.

(** The loop of [cfg_getopt] over [section|section|option]. *)
Fixpoint getopt_loop (fuel : nat) (cfg sec : cfg_t) (at_ : sec_path) (name : str) : GM (option opt_path) :=
  match fuel with
  | O => lift Undef
  | S fuel =>
      match find_char "|" name with
      | None =>
          i ← lookup_opt cfg sec name;
          mret (pair at_ <$> i)
      | Some O => getopt_loop fuel cfg sec at_ (skip_bars name)
      | Some len =>
          r ← getsec_plain sec (take len name);
          match r with
          | None =>
              when (negb (is_set CFGF_IGNORE_UNKNOWN (sec_flags cfg))) (report (no_such_option (take len name)));;
              mret None
          | Some (i, s) => getopt_loop fuel cfg s (at_ ++ [(i, 0)]) (skip_bars (drop len name))
          end
      end
  end.

(** [cfg_getopt] *)
Definition cfg_getopt (cfg : cfg_t) (name : str) : GM (option opt_path) :=
  match sec_name cfg with
  | None => fail_with EINVAL None
  | Some _ => getopt_loop (S (length name)) cfg cfg [] (c_str name)
  end.

(** The option itself. *)
Definition getopt (cfg : cfg_t) (name : str) : GM (option cfg_opt_t) :=
  p ← cfg_getopt cfg name; mret (p ≫= opt_at cfg).

(** ** Reading values *)

(** The members of the union; reading another one than was written is not
    modelled. *)
Definition value_number {E} (v : cfg_value_t) : outcome E Z :=
  match v with VInt n => Ret n | VZero => Ret 0%Z | _ => Undef end.
Definition value_boolean {E} (v : cfg_value_t) : outcome E Z :=
  match v with VBool b => Ret b | VZero => Ret 0%Z | _ => Undef end.
Definition value_string {E} (v : cfg_value_t) : outcome E (option str) :=
  match v with VStr s => Ret s | VZero => Ret None | _ => Undef end.
Definition value_ptr {E} (v : cfg_value_t) : outcome E Z :=
  match v with VPtr p => Ret p | VZero => Ret 0%Z | _ => Undef end.

(** The shape of the four getters: the value of that index, or else the simple
    value, or else nothing. *)
Definition opt_getn {A} (t : cfg_type) (read : cfg_value_t → outcome Empty_set A) (none : A)
    (opt : option cfg_opt_t) (index : nat) : GM A :=
  match opt with
  | Some o =>
      if type_is (opt_type (un o)) t then
        match opt_values (un o) !! index, simple_value (un o) with
        | Some v, _ => lift (read v)
        | None, Some v => lift (read v)
        | None, None => mret none
        end
      else fail_with EINVAL none
  | None => fail_with EINVAL none
  end.

Definition cfg_opt_getnint : option cfg_opt_t → nat → GM Z := opt_getn TYPE_INT value_number 0%Z.
Definition cfg_opt_getnbool : option cfg_opt_t → nat → GM Z := opt_getn TYPE_BOOL value_boolean 0%Z.
Definition cfg_opt_getnstr : option cfg_opt_t → nat → GM (option str) := opt_getn TYPE_STR value_string None.
Definition cfg_opt_getnptr : option cfg_opt_t → nat → GM Z := opt_getn TYPE_PTR value_ptr 0%Z.

Definition cfg_getnint (cfg : cfg_t) (name : str) (index : nat) : GM Z :=
  o ← getopt cfg name; cfg_opt_getnint o index.
Definition cfg_getint (cfg : cfg_t) (name : str) : GM Z := cfg_getnint cfg name 0.
Definition cfg_getnbool (cfg : cfg_t) (name : str) (index : nat) : GM Z :=
  o ← getopt cfg name; cfg_opt_getnbool o index.
Definition cfg_getbool (cfg : cfg_t) (name : str) : GM Z := cfg_getnbool cfg name 0.
Definition cfg_getnstr (cfg : cfg_t) (name : str) (index : nat) : GM (option str) :=
  o ← getopt cfg name; cfg_opt_getnstr o index.
Definition cfg_getstr (cfg : cfg_t) (name : str) : GM (option str) := cfg_getnstr cfg name 0.
Definition cfg_getnptr (cfg : cfg_t) (name : str) (index : nat) : GM Z :=
  o ← getopt cfg name; cfg_opt_getnptr o index.
Definition cfg_getptr (cfg : cfg_t) (name : str) : GM Z := cfg_getnptr cfg name 0.
Definition cfg_getnsec (cfg : cfg_t) (name : str) (index : nat) : GM (option cfg_t) :=
  o ← getopt cfg name; cfg_opt_getnsec o index.
Definition cfg_getsec (cfg : cfg_t) (name : str) : GM (option cfg_t) := cfg_getnsec cfg name 0.

Definition cfg_opt_size (opt : option cfg_opt_t) : nat :=
  match opt with Some o => length (opt_values (un o)) | None => 0 end.
Definition cfg_size (cfg : cfg_t) (name : str) : GM nat :=
  o ← getopt cfg name; mret (cfg_opt_size o).

Definition cfg_title (cfg : option cfg_t) : option str := c ← cfg; sec_title c.
Definition cfg_name (cfg : option cfg_t) : option str := c ← cfg; sec_name c.
Definition cfg_opt_name (opt : option cfg_opt_t) : option str := (fun o => opt_name (un o)) <$> opt.
Definition cfg_opt_getcomment (opt : option cfg_opt_t) : option str := o ← opt; opt_comment (un o).
Definition cfg_getcomment (cfg : cfg_t) (name : str) : GM (option str) :=
  o ← getopt cfg name; mret (cfg_opt_getcomment o).

(** [cfg_numopts] *)
Definition cfg_numopts (opts : list cfg_opt_t) : nat := length opts.

(** The loop of [cfg_opt_gettsec] and [cfg_opt_rmtsec]: the first section of a
    title, none when a section without one comes before. *)
Fixpoint find_title (flags : Z) (title : str) (vs : list cfg_value_t) (i : nat) : option (option nat) :=
  match vs with
  | [] => Some None
  | v :: vs =>
      s ← value_section v;
      t ← sec_title s;
      if same_name flags title t then Some (Some i) else find_title flags title vs (S i)
  end.

(** [cfg_opt_gettsec] *)
Definition cfg_opt_gettsec (opt : option cfg_opt_t) (title : option str) : GM (option cfg_t) :=
  match opt, title with
  | Some o, Some title =>
      if negb (is_set CFGF_TITLE (opt_flags (un o))) then fail_with EINVAL None
      else
        match find_title (opt_flags (un o)) title (opt_values (un o)) 0 with
        | None => mret None
        | Some None => fail_with ENOENT None
        | Some (Some i) => cfg_opt_getnsec opt i
        end
  | _, _ => fail_with EINVAL None
  end.

Definition cfg_gettsec (cfg : cfg_t) (name : str) (title : option str) : GM (option cfg_t) :=
  o ← getopt cfg name; cfg_opt_gettsec o title.

(** [cfg_parse_boolean] *)
Definition cfg_parse_boolean (s : option str) : GM Z :=
  match s with
  | None => fail_with EINVAL CFG_FAIL
  | Some s =>
      if strcasecmp_eq s #"true" || strcasecmp_eq s #"on" || strcasecmp_eq s #"yes" then mret 1%Z
      else if strcasecmp_eq s #"false" || strcasecmp_eq s #"off" || strcasecmp_eq s #"no" then mret 0%Z
      else mret CFG_FAIL
  end.

(** ** Freeing *)

(** [cfg_free] of a section named root destroys the scanner. *)
Definition yylex_destroy (l : lexer) : lexer := set_sc INITIAL (set_buffers [] l).

Definition named_root (c : cfg_t) : bool :=
  match sec_name c with Some n => strcmp_eq n #"root" | None => false end.

(** Whether a section, or one in its options, is named root. *)
Fixpoint opt_has_root (o : cfg_opt_t) : bool :=
  existsb (fun v => match v with
                    | VSec s => named_root s || existsb opt_has_root (sec_opts s)
                    | _ => false
                    end) (opt_values (un o)).

(** What freeing the values of an option does to the scanner. *)
Definition free_values (o : cfg_opt_t) (l : lexer) : lexer :=
  if type_is (opt_type (un o)) TYPE_SEC && opt_has_root o then yylex_destroy l else l.

(** [cfg_free_value], on the option. *)
Definition cfg_free_value (o : cfg_opt_t) : cfg_opt_t :=
  with_values [] (if is_set CFGF_RESET (opt_flags (un o)) then o else with_comment None o).

(** [cfg_free] *)
Definition cfg_free (c : cfg_t) (l : lexer) : lexer :=
  if named_root c || existsb opt_has_root (sec_opts c) then yylex_destroy l else l.
