(* ===== verification/ConfuseTree.v ===== *)
(** * The tree of options seen through its paths

    What a change at one option does to what every path shows.  A tree is
    compared with another by its views: at each path the option with its
    sections hidden, and at each section its name, flags and title. *)
From S2P Require Import Prelude.
From S2P Require Import CLib.
From S2P Require Import ConfuseScanner.
From S2P Require Import ConfuseRules.
From S2P Require Import ConfuseLexer.
From S2P Require Import ConfuseFiles.
From S2P Require Import ConfuseData.

(** ** Definitions *)

(** A section is hidden, and so is the flag for a pending reset of values. *)
Definition hide (v : cfg_value_t) : cfg_value_t := match v with VSec _ => VZero | v => v end.

Definition mask (o : cfg_opt_t) : cfg_opt_t :=
  with_flags (fun f => if type_is (opt_type (un o)) TYPE_SEC then f else clear_flag CFGF_RESET f)
    (with_values (hide <$> opt_values (un o)) o).

Definition opt_view (c : cfg_t) (q : opt_path) : option cfg_opt_t := mask <$> opt_at c q.

(** Everything of a section but its options and its position. *)
Definition head_of (c : cfg_t) : Z * option str * option str := (sec_flags c, sec_name c, sec_title c).

Definition sec_view (c : cfg_t) (p : sec_path) : option (Z * option str * option str) :=
  head_of <$> section_at c p.

(** No section among the values. *)
Definition no_sections (o : cfg_opt_t) : Prop := ∀ v, v ∈ opt_values (un o) → value_section v = None.

(** ** One step of a path *)

(** The section of a value of an option. *)
Definition child (c : cfg_t) (i k : nat) : option cfg_t :=
  sec_opts c !! i ≫= fun o => opt_values (un o) !! k ≫= value_section.

Lemma section_at_cons c i k p : section_at c ((i, k) :: p) = child c i k ≫= fun s => section_at s p.
Proof.
  unfold child. cbn. destruct (sec_opts c !! i) as [o|]; [|done]. cbn.
  by destruct (opt_values (un o) !! k).
Qed.

Lemma section_at_app c p q : section_at c (p ++ q) = section_at c p ≫= fun s => section_at s q.
Proof.
  revert c. induction p as [|[i k] p IH]; intros c; [done|]. cbn [app]. rewrite !section_at_cons.
  destruct (child c i k); [|done]. cbn. apply IH.
Qed.

Lemma opt_at_app c p r j : opt_at c (p ++ r, j) = section_at c p ≫= fun s => opt_at s (r, j).
Proof. unfold opt_at. cbn. rewrite section_at_app. by destruct (section_at c p). Qed.

Lemma un_with_values v o : un (with_values v o) =
  OptR (opt_name (un o)) (opt_comment (un o)) (opt_type (un o)) v (opt_flags (un o)) (opt_subopts (un o))
    (opt_def (un o)) (opt_func (un o)) (simple_value (un o)) (parsecb (un o)) (validcb (un o))
    (validcb2 (un o)) (opt_pf (un o)).
Proof. done. Qed.

(** The function [alter_section] applies to the value on its way. *)
Definition in_value (f : cfg_t → cfg_t) (v : cfg_value_t) : cfg_value_t :=
  match v with VSec s => VSec (f s) | v => v end.

Lemma alter_section_cons f i k p c :
  alter_section f ((i, k) :: p) c = alter_opt (alter_value (in_value (alter_section f p)) k) i c.
Proof. done. Qed.

Lemma lookup_alter_opt f i c j :
  sec_opts (alter_opt f i c) !! j = if bool_decide (i = j) then f <$> sec_opts c !! j else sec_opts c !! j.
Proof.
  cbn. case_bool_decide as E; [subst; apply list_lookup_alter_eq|by apply list_lookup_alter_ne].
Qed.

Lemma child_in_value f i k c i' k' :
  child (alter_opt (alter_value (in_value f) k) i c) i' k' =
  if bool_decide ((i, k) = (i', k')) then f <$> child c i' k' else child c i' k'.
Proof.
  unfold child. rewrite lookup_alter_opt. destruct (decide (i = i')) as [->|Hi].
  - rewrite bool_decide_true by done. destruct (sec_opts c !! i') as [o|]; [|by case_bool_decide]. cbn.
    destruct (decide (k = k')) as [->|Hk].
    + rewrite list_lookup_alter_eq, bool_decide_true by done. destruct (opt_values (un o) !! k') as [v|]; [|done].
      by destruct v.
    + by rewrite list_lookup_alter_ne, bool_decide_false by congruence.
  - by rewrite !bool_decide_false by congruence.
Qed.

Lemma hide_alter_in_value f k (vs : list cfg_value_t) : hide <$> alter (in_value f) k vs = hide <$> vs.
Proof.
  apply list_eq. intros n. rewrite !list_lookup_fmap.
  destruct (decide (k = n)) as [->|Hk]; [|by rewrite list_lookup_alter_ne].
  rewrite list_lookup_alter_eq. by destruct (vs !! n) as [[]|].
Qed.

Lemma mask_alter_in_value f k o : mask (alter_value (in_value f) k o) = mask o.
Proof.
  destruct o as [o]. unfold mask, alter_value. rewrite un_with_values. cbn [opt_values].
  by rewrite hide_alter_in_value.
Qed.

(** ** Changing a section *)

(** Below the section, its new options show. *)
Lemma section_at_alter_below f p c r :
  section_at (alter_section f p c) (p ++ r) = section_at c p ≫= fun s => section_at (f s) r.
Proof.
  revert c. induction p as [|[i k] p IH]; intros c; [done|]. cbn [app].
  rewrite alter_section_cons, !section_at_cons, child_in_value, bool_decide_true by done.
  destruct (child c i k); [|done]. cbn. apply IH.
Qed.

Lemma opt_at_alter_below f p c r j :
  opt_at (alter_section f p c) (p ++ r, j) = section_at c p ≫= fun s => opt_at (f s) (r, j).
Proof. unfold opt_at. cbn. rewrite section_at_alter_below. by destruct (section_at c p). Qed.

(** Elsewhere nothing shows, when the section keeps its head. *)
Lemma views_alter_elsewhere f p c :
  (∀ s, head_of (f s) = head_of s) →
  (∀ sp, sec_view (alter_section f p c) sp = sec_view c sp ∨ ∃ r, sp = p ++ r) ∧
  (∀ q, opt_view (alter_section f p c) q = opt_view c q ∨ ∃ r, fst q = p ++ r).
Proof.
  intros Hf. revert c. induction p as [|[i k] p IH]; intros c.
  { split; intros x; right; by eexists. }
  rewrite alter_section_cons. set (g := alter_opt _ i).
  assert (∀ j, mask <$> sec_opts (g c) !! j = mask <$> sec_opts c !! j) as Hg.
  { intros j. unfold g. rewrite lookup_alter_opt. case_bool_decide; [|done].
    destruct (sec_opts c !! j); [|done]. cbn. by rewrite mask_alter_in_value. }
  split.
  - intros [|[i' k'] sp]; [by left|]. unfold sec_view. rewrite !section_at_cons. unfold g.
    rewrite child_in_value. case_bool_decide as E; [|by left]. injection E as -> ->.
    destruct (child c i' k') as [s|]; [|by left]. cbn.
    destruct (proj1 (IH s) sp) as [Hv|[r ->]]; [left; exact Hv|right; by eexists].
  - intros [[|[i' k'] sp] j]; [left; apply Hg|]. unfold opt_view, opt_at. cbn [fst snd].
    rewrite !section_at_cons. unfold g. rewrite child_in_value. case_bool_decide as E; [|by left].
    injection E as -> ->. destruct (child c i' k') as [s|]; [|by left]. cbn.
    destruct (proj2 (IH s) (sp, j)) as [Hv|[r Hr]]; [left; exact Hv|right; exists r; cbn in Hr; by rewrite Hr].
Qed.

(** ** Changing an option without sections *)

Lemma opt_at_snoc c p i : opt_at c (p, i) = section_at c p ≫= fun s => sec_opts s !! i.
Proof. done. Qed.

Lemma child_no_sections c i k o : sec_opts c !! i = Some o → no_sections o → child c i k = None.
Proof.
  unfold child. intros -> Ho. cbn. destruct (opt_values (un o) !! k) as [v|] eqn:E; [|done].
  cbn. by eapply Ho, list_elem_of_lookup_2.
Qed.

Lemma opt_at_alter_opt f i s r j :
  (∀ o, sec_opts s !! i = Some o → no_sections o ∧ no_sections (f o)) →
  opt_at (alter_opt f i s) (r, j) = if bool_decide ((r, j) = ([], i)) then f <$> opt_at s ([], i) else opt_at s (r, j).
Proof.
  intros Ho. destruct r as [|[i' k'] r].
  - unfold opt_at. cbn [fst snd section_at]. cbn. destruct (decide (i = j)) as [->|Hi].
    + by rewrite list_lookup_alter_eq, bool_decide_true.
    + by rewrite list_lookup_alter_ne, bool_decide_false by congruence.
  - rewrite bool_decide_false by congruence. unfold opt_at. cbn [fst snd]. rewrite !section_at_cons.
    assert (child (alter_opt f i s) i' k' = child s i' k') as ->; [|done].
    destruct (decide (i = i')) as [->|Hi].
    + destruct (sec_opts s !! i') as [o|] eqn:E.
      * destruct (Ho o eq_refl) as [H1 H2]. rewrite (child_no_sections s i' k' o) by done.
        apply (child_no_sections _ _ _ (f o)); [|done].
        by rewrite lookup_alter_opt, bool_decide_true, E.
      * unfold child. by rewrite lookup_alter_opt, bool_decide_true, E by done.
    + unfold child. by rewrite lookup_alter_opt, bool_decide_false by done.
Qed.

(** Only the option changes. *)
Lemma opt_view_alter_at f p c o :
  opt_at c p = Some o → no_sections o → no_sections (f o) →
  ∀ q, opt_view (alter_at f p c) q = if bool_decide (q = p) then Some (mask (f o)) else opt_view c q.
Proof.
  destruct p as [p i]. intros Hp Ho Hfo [q j]. unfold alter_at. cbn [fst snd].
  rewrite opt_at_snoc in Hp. destruct (section_at c p) as [s|] eqn:Es; [|done]. cbn in Hp.
  destruct (proj2 (views_alter_elsewhere (alter_opt f i) p c ltac:(done)) (q, j)) as [Hv|[r Hr]].
  - destruct (decide ((q, j) = (p, i))) as [E|E].
    + injection E as -> ->. rewrite bool_decide_true by done. unfold opt_view.
      rewrite <- (app_nil_r p) at 2. rewrite opt_at_alter_below, Es. cbn [mbind option_bind].
      rewrite opt_at_alter_opt, bool_decide_true by (done || (intros ? E; rewrite Hp in E; by simplify_eq)).
      unfold opt_at. cbn. by rewrite Hp.
    + by rewrite bool_decide_false.
  - cbn in Hr. subst q. unfold opt_view. rewrite opt_at_alter_below, opt_at_app, Es. cbn [mbind option_bind].
    rewrite opt_at_alter_opt by (intros ? E; rewrite Hp in E; by simplify_eq).
    destruct (decide (r = [] ∧ j = i)) as [[-> ->]|Hn].
    + rewrite app_nil_r, !bool_decide_true by done. unfold opt_at. cbn. by rewrite Hp.
    + rewrite !bool_decide_false; [done| |].
      * intros E. injection E as E ->. apply Hn. split; [|done].
        apply (app_inv_head p). by rewrite app_nil_r.
      * intros E. injection E as -> ->. by apply Hn.
Qed.

Lemma sec_view_alter_at f p c o :
  opt_at c p = Some o → no_sections o → no_sections (f o) →
  ∀ sp, sec_view (alter_at f p c) sp = sec_view c sp.
Proof.
  destruct p as [p i]. intros Hp Ho Hfo sp. unfold alter_at. cbn [fst snd].
  rewrite opt_at_snoc in Hp. destruct (section_at c p) as [s|] eqn:Es; [|done]. cbn in Hp.
  destruct (proj1 (views_alter_elsewhere (alter_opt f i) p c ltac:(done)) sp) as [Hv|[r ->]]; [done|].
  unfold sec_view. rewrite section_at_alter_below, section_at_app, Es. cbn [mbind option_bind].
  destruct r as [|[i' k'] r]; [done|]. rewrite !section_at_cons.
  assert (child (alter_opt f i s) i' k' = child s i' k') as ->; [|done].
  destruct (decide (i = i')) as [->|Hi].
  - rewrite (child_no_sections s i' k' o) by done. apply (child_no_sections _ _ _ (f o)); [|done].
    by rewrite lookup_alter_opt, bool_decide_true, Hp.
  - unfold child. by rewrite lookup_alter_opt, bool_decide_false by done.
Qed.

Lemma opt_at_alter_at f p c o : opt_at c p = Some o → opt_at (alter_at f p c) p = Some (f o).
Proof.
  destruct p as [p i]. intros Hp. unfold alter_at. cbn [fst snd]. rewrite opt_at_snoc in Hp.
  destruct (section_at c p) as [s|] eqn:Es; [|done]. cbn in Hp.
  rewrite <- (app_nil_r p) at 2. rewrite opt_at_alter_below, Es. unfold opt_at. cbn.
  by rewrite list_lookup_alter_eq, Hp.
Qed.
