(* ===== verification/Confuse.v ===== *)
(** * The parser of libconfuse (third/confuse/src/confuse.c)

    [cfg_setopt], [cfg_init_defaults] and the state machine of
    [cfg_parse_internal], which call each other, and the functions that start
    them.  Allocation succeeds. *)
From S2P Require Import Prelude.
From S2P Require Import CLib.
From S2P Require Import ConfuseScanner.
From S2P Require Import ConfuseRules.
From S2P Require Import ConfuseLexer.
From S2P Require Import ConfuseFiles.
From S2P Require Import ConfuseData.

(** ** strtol *)

Definition LONG_MAX : Z := 2 ^ 63 - 1.
Definition LONG_MIN : Z := - 2 ^ 63.

(** The value of a digit below the base. *)
Definition digit_in (b : Z) (c : ascii) : option Z :=
  let c' := tolower c in
  let v := if is_digit c' then (ord c' - 48)%Z
           else if (97 <=? ord c')%Z && (ord c' <=? 122)%Z then (ord c' - 87)%Z else b in
  if (v <? b)%Z then Some v else None.

Fixpoint read_number (b acc : Z) (s : str) : Z * str :=
  match s with
  | c :: r => if digit_in b c is Some d then read_number b (acc * b + d)%Z r else (acc, s)
  | [] => (acc, [])
  end.

(** The prefix of the base 0: [0x] before a hexadecimal digit, or [0]. *)
Definition number_base (s : str) : Z * str :=
  match s with
  | "0"%char :: x :: d :: r =>
      if (Ascii.eqb x "x" || Ascii.eqb x "X") && bool_decide (is_Some (digit_in 16 d))
      then (16%Z, d :: r) else (8%Z, s)
  | "0"%char :: _ => (8%Z, s)
  | _ => (10%Z, s)
  end.

(** [strtol(s, &end, 0)]: the value, what follows the number, and whether it is
    out of range. *)
Definition strtol (s : str) : Z * str * bool :=
  let t := skip_spaces s in
  let '(neg, t) := match t with "-"%char :: r => (true, r) | "+"%char :: r => (false, r) | _ => (false, t) end in
  let '(b, digits) := number_base t in
  let '(v, rest) := read_number b 0 digits in
  if bool_decide (rest = digits) then (0%Z, s, false)
  else
    let v := if neg then (- v)%Z else v in
    if (LONG_MAX <? v)%Z then (LONG_MAX, rest, true)
    else if (v <? LONG_MIN)%Z then (LONG_MIN, rest, true)
    else (v, rest, false).

(** ** Callbacks *)

(** What the callbacks of the user do: a function takes its arguments, changes
    the data [U] of the user, may report messages, and succeeds with 0; the
    parsing callback gives a value or fails; the validating ones give 0 when
    they accept; the printing one gives a text. *)
Class Callbacks (U : Type) : Type := {
  call_user : nat → list str → U → U * list str * Z;
  call_parse : nat → option str → option cfg_value_t;
  call_valid : nat → cfg_opt_t → Z;
  call_valid2 : nat → cfg_value_t → Z;
  call_print : nat → cfg_opt_t → nat → str
}.

(** ** State *)

(** [abort()], after a message on the standard error. *)
Inductive aborted : Type := Abort (message : str).

(** The globals of the lexer, the section that is being read or set, and the
    data of the user. *)
Record parser (U : Type) : Type := Parser { plex : lexer; plog : log; pcfg : cfg_t; puser : U }.
Arguments Parser {U}.
Arguments plex {U}.
Arguments plog {U}.
Arguments pcfg {U}.
Arguments puser {U}.

Section Confuse.
Context {U : Type} `{Host} `{Callbacks U}.

Abbreviation PM := (stM aborted (parser U)).

(** A computation of the lexer on the position of the section. *)
Definition lexing {A} (m : stM Empty_set scan A) : PM A := fun s =>
  let '(x, r) := m (Scan (plex s) (sec_pos (pcfg s)) (plog s)) in
  (Parser (s_lexer x) (s_log x) (with_pos (s_pos x) (pcfg s)) (puser s),
   match r with Ret a => Ret a | Throw e => match e with end | Undef => Undef end).

(** A computation that leaves the tree and the lexer as they are. *)
Definition reading {A} (m : stM Empty_set log A) : PM A := fun s =>
  let '(g, r) := m (plog s) in
  (Parser (plex s) g (pcfg s) (puser s),
   match r with Ret a => Ret a | Throw e => match e with end | Undef => Undef end).

Definition cfg : PM cfg_t := s ← get; mret (pcfg s).
Definition set_cfg (f : cfg_t → cfg_t) : PM unit :=
  modify (fun s => Parser (plex s) (plog s) (f (pcfg s)) (puser s)).
Definition set_lexer (f : lexer → lexer) : PM unit :=
  modify (fun s => Parser (f (plex s)) (plog s) (pcfg s) (puser s)).

(** [cfg_scan_fp_begin] on a new stream; its first read clears [errno]. *)
Definition scan_begin (text : str) : PM unit :=
  set_lexer (scan_stream text);; reading (modify (set_errno 0)).

Definition error_message (m : str) : PM unit := reading (report m).
Definition fails {A} (e : Z) (a : A) : PM A := reading (fail_with e a).

Definition yylval : PM (option str) := s ← get; mret (cfg_yylval (plex s)).

(** A string the code reads through a pointer. *)
Definition pointed (o : option str) : PM str := lift (deref o).

(** The text of a message with a string that may be null. *)
Definition shown (o : option str) : str := default #"(null)" o.

Definition unexpected_token : PM unit :=
  v ← yylval; error_message (#"unexpected token '" ++ shown v ++ #"'").

(** The option a pointer stands for, and a change of it. *)
Definition option_at (p : opt_path) : PM cfg_opt_t := c ← cfg; lift (deref (opt_at c p)).
Definition change_opt (p : opt_path) (f : cfg_opt_t → cfg_opt_t) : PM unit := set_cfg (alter_at f p).

Definition free_opt_values (p : opt_path) : PM unit :=
  o ← option_at p;
  set_lexer (free_values o);;
  change_opt p cfg_free_value.

(** [m] with a section below as the current one. *)
Definition in_section {A} (p : sec_path) (m : PM A) : PM A := fun s =>
  match section_at (pcfg s) p with
  | None => (s, Undef)
  | Some sec =>
      let '(s', r) := m (Parser (plex s) (plog s) sec (puser s)) in
      (Parser (plex s') (plog s') (alter_section (fun _ => pcfg s') p (pcfg s)) (puser s'), r)
  end.

(** ** [cfg_setopt] *)

(** Where a value goes: the simple variable, or an element of the values. *)
Inductive place : Type := Simple | Nth (k : nat).

Definition write (pl : place) (v : cfg_value_t) (o : cfg_opt_t) : cfg_opt_t :=
  match pl with Simple => with_simple v o | Nth k => alter_value (fun _ => v) k o end.

Definition read_place (pl : place) (o : cfg_opt_t) : option cfg_value_t :=
  match pl with Simple => simple_value (un o) | Nth k => opt_values (un o) !! k end.

(** [cfg_addval] *)
Definition cfg_addval (o : cfg_opt_t) : cfg_opt_t := with_values (opt_values (un o) ++ [VZero]) o.

(** The first half of [cfg_setopt]: the value that will be written. *)
Definition setopt_place (p : opt_path) (value : option str) : PM (option place) :=
  o ← option_at p;
  if simple_value (un o) is Some _ then
    if type_is (opt_type (un o)) TYPE_SEC then fails EINVAL None else mret (Some Simple)
  else
    when (is_set CFGF_RESET (opt_flags (un o)))
      (free_opt_values p;; change_opt p (with_flags (clear_flag CFGF_RESET)));;
    o ← option_at p;
    c ← cfg;
    let n := length (opt_values (un o)) in
    if (n =? 0) || is_set CFGF_MULTI (opt_flags (un o)) || is_set CFGF_LIST (opt_flags (un o)) then
      let add := change_opt p cfg_addval;; mret (Some (Nth n)) in
      if type_is (opt_type (un o)) TYPE_SEC && is_set CFGF_TITLE (opt_flags (un o)) then
        if n =? 0 then add
        else
          match value with
          | None => fails EINVAL None
          | Some value =>
              found ← lift (deref (find_title (sec_flags c) value (opt_values (un o)) 0));
              match found with
              | None => add
              | Some k =>
                  if is_set CFGF_NO_TITLE_DUPES (opt_flags (un o))
                  then error_message (#"found duplicate title '" ++ value ++ #"'");; mret None
                  else mret (Some (Nth k))
              end
          end
      else add
    else mret (Some (Nth 0)).

(** The value of an integer option. *)
Definition set_int (p : opt_path) (pl : place) (value : option str) : PM (option place) :=
  o ← option_at p;
  match parsecb (un o), value with
  | Some cb, _ =>
      match call_parse cb value with
      | Some v => change_opt p (write pl v);; mret (Some pl)
      | None => mret None
      end
  | None, None => fails EINVAL None
  | None, Some value =>
      let '(i, endptr, range) := strtol (c_str value) in
      reading (when range (modify (set_errno ERANGE)));;
      s ← get;
      if negb (bool_decide (endptr = [])) then
        error_message (#"invalid integer value for option '" ++ opt_name (un o) ++ #"'");; mret None
      else if (errno (plog s) =? ERANGE)%Z then
        error_message (#"integer value for option '" ++ opt_name (un o) ++ #"' is out of range");; mret None
      else change_opt p (write pl (VInt i));; mret (Some pl)
  end.

Definition set_str (p : opt_path) (pl : place) (value : option str) : PM (option place) :=
  o ← option_at p;
  match parsecb (un o) with
  | Some cb =>
      match call_parse cb value with
      | Some v =>
          s ← lift (value_string v);
          match s with
          | Some s => change_opt p (write pl (VStr (Some (c_str s))));; mret (Some pl)
          | None => fails EINVAL None
          end
      | None => mret None
      end
  | None =>
      match value with
      | Some s => change_opt p (write pl (VStr (Some (c_str s))));; mret (Some pl)
      | None => fails EINVAL None
      end
  end.

Definition set_bool (p : opt_path) (pl : place) (value : option str) : PM (option place) :=
  o ← option_at p;
  match parsecb (un o) with
  | Some cb =>
      match call_parse cb value with
      | Some v => change_opt p (write pl v);; mret (Some pl)
      | None => mret None
      end
  | None =>
      b ← reading (cfg_parse_boolean value);
      if (b =? -1)%Z then
        error_message (#"invalid boolean value for option '" ++ opt_name (un o) ++ #"'");; mret None
      else change_opt p (write pl (VBool b));; mret (Some pl)
  end.

Definition set_ptr (p : opt_path) (pl : place) (value : option str) : PM (option place) :=
  o ← option_at p;
  match parsecb (un o) with
  | None => fails EINVAL None
  | Some cb =>
      match call_parse cb value with
      | Some v => change_opt p (write pl v);; mret (Some pl)
      | None => mret None
      end
  end.

(** [cfg_dupopt_array]: a copy shares nothing with the original, so it is the
    same value; a null array is not tested. *)
Definition cfg_dupopt_array (opts : option (list cfg_opt_t)) : PM (list cfg_opt_t) := lift (deref opts).

(** A new section for an option of a section. *)
Definition new_section (c : cfg_t) (o : cfg_opt_t) (title : option str) (opts : list cfg_opt_t) : cfg_t :=
  let keep f x := if is_set f (opt_flags (un o)) then set_flag f x else x in
  Sec (keep CFGF_IGNORE_UNKNOWN (keep CFGF_RAW (sec_flags c))) (Some (opt_name (un o))) opts title
    (Position (pos_filename (sec_pos c)) (pos_line (sec_pos c)) []).

Definition set_sec (init_defaults : PM unit) (p : opt_path) (pl : place) (value : option str) : PM (option place) :=
  o ← option_at p;
  c ← cfg;
  v ← lift (deref (read_place pl o));
  (if is_set CFGF_MULTI (opt_flags (un o)) || negb (bool_decide (is_Some (value_section v))) then
     (match value_section v with Some s => set_lexer (cfg_free s) | None => mret tt end);;
     opts ← cfg_dupopt_array (opt_subopts (un o));
     change_opt p (write pl (VSec (new_section c o (c_str <$> value) opts)))
   else mret tt);;
  (match pl with
   | Nth k => when (negb (is_set CFGF_DEFINIT (opt_flags (un o))))
                (in_section (fst p ++ [(snd p, k)]) init_defaults)
   | Simple => lift Undef
   end);;
  mret (Some pl).

(** [cfg_setopt], with [cfg_init_defaults] for what it makes. *)
Definition setopt (init_defaults : PM unit) (p : opt_path) (value : option str) : PM (option place) :=
  pl ← setopt_place p value;
  match pl with
  | None => mret None
  | Some pl =>
      o ← option_at p;
      match opt_type (un o) with
      | TYPE_INT => set_int p pl value
      | TYPE_FLOAT => lift Undef
      | TYPE_STR => set_str p pl value
      | TYPE_SEC => set_sec init_defaults p pl value
      | TYPE_BOOL => set_bool p pl value
      | TYPE_PTR => set_ptr p pl value
      | TYPE_NONE | TYPE_FUNC | TYPE_COMMENT =>
          error_message (#"internal error in cfg_setopt(" ++ opt_name (un o) ++ #", "
                         ++ default #"NULL" value ++ #")");;
          mret None
      end
  end.

(** ** Setting values by type *)

(** [cfg_opt_getval]: the option, freed if it was to be reset, and the place. *)
Definition cfg_opt_getval (o : cfg_opt_t) (index : nat) : PM (cfg_opt_t * option place) :=
  if negb (index =? 0) && negb (is_set CFGF_LIST (opt_flags (un o))) && negb (is_set CFGF_MULTI (opt_flags (un o)))
  then fails EINVAL (o, None)
  else if simple_value (un o) is Some _ then mret (o, Some Simple)
  else
    o ← (if is_set CFGF_RESET (opt_flags (un o))
         then set_lexer (free_values o);; mret (with_flags (clear_flag CFGF_RESET) (cfg_free_value o))
         else mret o);
    let n := length (opt_values (un o)) in
    if n <=? index then mret (cfg_addval o, Some (Nth n)) else mret (o, Some (Nth index)).

(** [cfg_opt_setnint], [cfg_opt_setnbool], [cfg_opt_setnstr]: the option and
    the result. *)
Definition opt_setn (t : cfg_type) (v : cfg_value_t) (o : cfg_opt_t) (index : nat) : PM (cfg_opt_t * Z) :=
  if negb (type_is (opt_type (un o)) t) then fails EINVAL (o, CFG_FAIL)
  else
    '(o, pl) ← cfg_opt_getval o index;
    match pl with
    | None => mret (o, CFG_FAIL)
    | Some pl => mret (write pl v o, CFG_SUCCESS)
    end.

Definition cfg_opt_setnint (o : cfg_opt_t) (value : Z) (index : nat) : PM (cfg_opt_t * Z) :=
  opt_setn TYPE_INT (VInt value) o index.
Definition cfg_opt_setnbool (o : cfg_opt_t) (value : Z) (index : nat) : PM (cfg_opt_t * Z) :=
  opt_setn TYPE_BOOL (VBool value) o index.
Definition cfg_opt_setnstr (o : cfg_opt_t) (value : option str) (index : nat) : PM (cfg_opt_t * Z) :=
  opt_setn TYPE_STR (VStr (c_str <$> value)) o index.

(** [cfg_opt_setcomment] *)
Definition cfg_opt_setcomment (p : opt_path) (comment : option str) : PM Z :=
  match comment with
  | None => fails EINVAL CFG_FAIL
  | Some c =>
      change_opt p (fun o => with_flags (set_flag CFGF_COMMENTS) (with_comment (Some c) o));;
      mret CFG_SUCCESS
  end.

(** ** [cfg_init_defaults] *)

Definition STATE_CONTINUE : Z := 0.
Definition STATE_EOF : Z := -1.
Definition STATE_ERROR : Z := 1.

(** A message when an option before has the same name. *)
Definition check_duplicate (c : cfg_t) (i : nat) (o : cfg_opt_t) : PM unit :=
  when (existsb (fun o' => same_name (Z.lor (opt_flags (un o)) (opt_flags (un o'))) (opt_name (un o)) (opt_name (un o')))
          (take i (sec_opts c)))
    (error_message (#"duplicate option '" ++ opt_name (un o) ++ #"' not allowed")).

(** The parser is called again, from state -1, while it returns
    [STATE_CONTINUE]. *)
Fixpoint parse_default (parse : nat → Z → option opt_path → PM Z) (fuel : nat) (xstate : Z) (p : opt_path) : PM Z :=
  match fuel with
  | O => lift Undef
  | S fuel =>
      ret ← parse 1 xstate (Some p);
      if (ret =? STATE_CONTINUE)%Z then parse_default parse fuel (-1) p else mret ret
  end.

(** A default value that is a text. *)
Definition default_text (parse : nat → Z → option opt_path → PM Z) (fuel : nat)
    (p : opt_path) (o : cfg_opt_t) (buf : str) : PM unit :=
  let xstate := if is_set CFGF_LIST (opt_flags (un o)) then 3%Z
                else if type_is (opt_type (un o)) TYPE_FUNC then 0%Z else 2%Z in
  scan_begin buf;;
  ret ← parse_default parse fuel xstate p;
  set_lexer cfg_scan_fp_end;;
  if (ret =? STATE_ERROR)%Z
  then mthrow (Abort (#"Parse error in default value '" ++ buf ++ #"' for option '" ++ opt_name (un o) ++ #"'"))
  else mret tt.

(** A default value of the type of the option. *)
Definition default_value (p : opt_path) (o : cfg_opt_t) : PM unit :=
  let set m := '(o, _) ← m; change_opt p (fun _ => o) in
  match opt_type (un o) with
  | TYPE_INT => set (cfg_opt_setnint o (def_number (opt_def (un o))) 0)
  | TYPE_FLOAT => lift Undef
  | TYPE_BOOL => set (cfg_opt_setnbool o (def_boolean (opt_def (un o))) 0)
  | TYPE_STR => set (cfg_opt_setnstr o (def_string (opt_def (un o))) 0)
  | TYPE_FUNC | TYPE_PTR => mret tt
  | TYPE_NONE | TYPE_SEC | TYPE_COMMENT =>
      error_message (#"internal error in cfg_init_defaults(" ++ opt_name (un o) ++ #")")
  end.

(** One option. *)
Definition init_default (init_defaults : PM unit) (parse : nat → Z → option opt_path → PM Z)
    (fuel i : nat) : PM unit :=
  let p := ([], i) in
  c ← cfg;
  o ← option_at p;
  check_duplicate c i o;;
  if (if simple_value (un o) is Some _ then true else false) || is_set CFGF_NODEFAULT (opt_flags (un o))
  then mret tt
  else if negb (type_is (opt_type (un o)) TYPE_SEC) then
    change_opt p (with_flags (set_flag CFGF_DEFINIT));;
    o ← option_at p;
    let parsed := default [] (c_str <$> def_parsed (opt_def (un o))) in
    if is_set CFGF_LIST (opt_flags (un o)) || (if def_parsed (opt_def (un o)) is Some _ then true else false) then
      if bool_decide (parsed = []) then mret tt
      else default_text parse fuel p o parsed;; change_opt p (with_flags (set_flag CFGF_RESET))
    else default_value p o;; change_opt p (with_flags (set_flag CFGF_RESET))
  else
    when (negb (is_set CFGF_MULTI (opt_flags (un o))))
      (setopt init_defaults p None;; change_opt p (with_flags (set_flag CFGF_DEFINIT))).

(** All the options of the section. *)
Fixpoint init_each (init_defaults : PM unit) (parse : nat → Z → option opt_path → PM Z)
    (fuel i n : nat) : PM unit :=
  match n with
  | O => mret tt
  | S n => init_default init_defaults parse fuel i;; init_each init_defaults parse fuel (S i) n
  end.

Definition init_all (init_defaults : PM unit) (parse : nat → Z → option opt_path → PM Z) (fuel : nat) : PM unit :=
  c ← cfg; init_each init_defaults parse fuel 0 (cfg_numopts (sec_opts c)).

(** ** [cfg_parse_internal] *)

(** Its local variables; [funcopt] is the list of its values. *)
Record locals : Type := Locals {
  state : Z;
  comment_ : option str;
  opttitle : option str;
  opt_ptr : option opt_path;
  funcopt : list str;
  ignore : Z;
  num_values : nat
}.

Definition to_state (n : Z) (x : locals) : locals :=
  Locals n (comment_ x) (opttitle x) (opt_ptr x) (funcopt x) (ignore x) (num_values x).
Definition set_comment (c : option str) (x : locals) : locals :=
  Locals (state x) c (opttitle x) (opt_ptr x) (funcopt x) (ignore x) (num_values x).
Definition set_opttitle (t : option str) (x : locals) : locals :=
  Locals (state x) (comment_ x) t (opt_ptr x) (funcopt x) (ignore x) (num_values x).
Definition set_opt_ptr (o : option opt_path) (x : locals) : locals :=
  Locals (state x) (comment_ x) (opttitle x) o (funcopt x) (ignore x) (num_values x).
Definition set_funcopt (l : list str) (x : locals) : locals :=
  Locals (state x) (comment_ x) (opttitle x) (opt_ptr x) l (ignore x) (num_values x).
Definition set_ignore (i : Z) (x : locals) : locals :=
  Locals (state x) (comment_ x) (opttitle x) (opt_ptr x) (funcopt x) i (num_values x).
Definition set_num_values (n : nat) (x : locals) : locals :=
  Locals (state x) (comment_ x) (opttitle x) (opt_ptr x) (funcopt x) (ignore x) n.

(** The variables at the start. *)
Definition start_locals (force_state : Z) (force_opt : option opt_path) : locals :=
  Locals (if (force_state =? -1)%Z then 0 else force_state) None None force_opt [] 0 0.

(** How a turn of the loop ends: with another turn, a return, or at [error:]. *)
Inductive turn : Type := Again (x : locals) | Return (rc : Z) | Error.

Definition go (n : Z) (x : locals) : PM turn := mret (Again (to_state n x)).

(** A test of the option, which a null one fails. *)
Definition opt_flag (x : locals) (f : Z) : PM bool :=
  match opt_ptr x with
  | None => mret false
  | Some p => o ← option_at p; mret (is_set f (opt_flags (un o)))
  end.

(** A dereference of the option. *)
Definition the_opt (x : locals) : PM opt_path := lift (deref (opt_ptr x)).

Definition opt_name_of (x : locals) : PM str :=
  match opt_ptr x with
  | None => mret []
  | Some p => o ← option_at p; mret (opt_name (un o))
  end.

(** The validating callback of the option, if there is one, does not give 0. *)
Definition refused (x : locals) : PM bool :=
  match opt_ptr x with
  | None => mret false
  | Some p =>
      o ← option_at p;
      mret (match validcb (un o) with Some cb => negb (call_valid cb o =? 0)%Z | None => false end)
  end.

(** [cfg_handle_deprecated], when the flag is set. *)
Definition handle_deprecated (x : locals) : PM unit :=
  match opt_ptr x with
  | None => mret tt
  | Some p =>
      o ← option_at p;
      when (is_set CFGF_DEPRECATED (opt_flags (un o)))
        (if is_set CFGF_DROP (opt_flags (un o)) then
           error_message (#"dropping deprecated configuration option '" ++ opt_name (un o) ++ #"'");;
           free_opt_values p
         else error_message (#"found deprecated option '" ++ opt_name (un o) ++ #"', please update configuration file."))
  end.

Definition tok_is (tok : Z) (c : ascii) : bool := (tok =? ord c)%Z.

(** [cfg_include] *)
Definition cfg_include (argv : list str) : PM Z :=
  c ← cfg;
  if is_set CFGF_RAW (sec_flags c) then lift Undef
  else
    match argv with
    | [filename] => lexing (cfg_lexer_include filename)
    | _ => error_message #"wrong number of arguments to cfg_include()";; mret 1%Z
    end.

(** [call_function] *)
Definition call_function (p : opt_path) (argv : list str) : PM Z :=
  o ← option_at p;
  f ← lift (deref (opt_func (un o)));
  match f with
  | cfg_include_func => cfg_include argv
  | user_func n => fun s =>
      let '(u, msgs, ret) := call_user n argv (puser s) in
      (Parser (plex s) (foldl (fun g m => add_message m g) (plog s) msgs) (pcfg s) u, Ret ret)
  end.

Section Turn.
Context (set_option : opt_path → option str → PM (option place)).
Context (parse : nat → Z → option opt_path → PM Z).

(** State 0: the name of an option, a closing brace or a comment. *)
Definition expect_name (level : nat) (tok : Z) (x : locals) : PM turn :=
  handle_deprecated x;;
  c ← cfg;
  v ← yylval;
  if tok_is tok "}" then
    if level =? 0 then error_message #"unexpected closing brace";; mret Error
    else mret (Return STATE_EOF)
  else if (tok =? CFGT_COMMENT)%Z then
    if is_set CFGF_COMMENTS (sec_flags c)
    then text ← pointed v; go 0 (set_comment (Some text) x)
    else go 0 x
  else if (tok =? CFGT_STR)%Z then
    name ← pointed v;
    p ← reading (cfg_getopt c name);
    match p with
    | None =>
        if is_set CFGF_IGNORE_UNKNOWN (sec_flags c) then go 10 (set_opt_ptr None x) else mret Error
    | Some p =>
        let x := set_opt_ptr (Some p) x in
        o ← option_at p;
        if type_is (opt_type (un o)) TYPE_SEC then
          go (if is_set CFGF_TITLE (opt_flags (un o)) then 6 else 5) x
        else if type_is (opt_type (un o)) TYPE_FUNC then
          if is_set CFGF_RAW (sec_flags c) then lift Undef else go 7 x
        else go 1 x
    end
  else unexpected_token;; mret Error.

(** State 1: [=] or [+=]. *)
Definition expect_equal (tok : Z) (x : locals) : PM turn :=
  match opt_ptr x with
  | None => mret Error
  | Some p =>
      o ← option_at p;
      let is_list := is_set CFGF_LIST (opt_flags (un o)) in
      let next := if is_list then go 3 (set_num_values 0 x) else go 2 x in
      if tok_is tok "+" then
        if is_list then change_opt p (with_flags (clear_flag CFGF_RESET));; next
        else error_message (#"attempt to append to non-list option '" ++ opt_name (un o) ++ #"'");; mret Error
      else if tok_is tok "=" then change_opt p (with_flags (set_flag CFGF_RESET));; next
      else error_message (#"missing equal sign after option '" ++ opt_name (un o) ++ #"'");; mret Error
  end.

(** State 2: a value. *)
Definition expect_value (tok : Z) (x : locals) : PM turn :=
  is_list ← opt_flag x CFGF_LIST;
  reset ← opt_flag x CFGF_RESET;
  if tok_is tok "}" && is_list then
    (if (num_values x =? 0) && reset then p ← the_opt x; free_opt_values p else mret tt);;
    go 0 x
  else if negb (tok =? CFGT_STR)%Z then unexpected_token;; mret Error
  else
    v ← yylval;
    (match opt_ptr x with
     | None => fails EINVAL (Some Error)
     | Some p =>
         val ← set_option p v;
         match val with
         | None => mret (Some Error)
         | Some _ => bad ← refused x; if bad : bool then mret (Some Error) else cfg_opt_setcomment p (comment_ x);; mret None
         end
     end) ≫= fun stop =>
    match stop with
    | Some e => mret e
    | None =>
        let x := set_comment None x in
        is_list ← opt_flag x CFGF_LIST;
        if is_list : bool then go 4 (set_num_values (S (num_values x)) x) else go 0 x
    end.

(** State 3: the brace of a list, or its only value. *)
Definition expect_list (tok : Z) (x : locals) : PM turn :=
  if tok_is tok "{" then go 2 x
  else if negb (tok =? CFGT_STR)%Z then unexpected_token;; mret Error
  else
    v ← yylval;
    match opt_ptr x with
    | None => fails EINVAL Error
    | Some p =>
        val ← set_option p v;
        match val with
        | None => mret Error
        | Some _ =>
            bad ← refused x;
            if bad : bool then mret Error else go 0 (set_num_values (S (num_values x)) x)
        end
    end.

(** State 4: a comma or the end of a list. *)
Definition expect_separator (tok : Z) (x : locals) : PM turn :=
  if tok_is tok "," then go 2 x
  else if tok_is tok "}" then bad ← refused x; if bad : bool then mret Error else go 0 x
  else unexpected_token;; mret Error.

(** State 5: the brace of a section, which is read by a call of the parser. *)
Definition expect_section (level : nat) (tok : Z) (x : locals) : PM turn :=
  if negb (tok_is tok "{") then
    name ← opt_name_of x;
    error_message (#"missing opening brace for section '" ++ name ++ #"'");; mret Error
  else
    match opt_ptr x with
    | None => fails EINVAL Error
    | Some p =>
        val ← set_option p (opttitle x);
        match val with
        | None => mret Error
        | Some Simple => lift Undef
        | Some (Nth k) =>
            let x := set_opttitle None x in
            let inside := fst p ++ [(snd p, k)] in
            c ← cfg;
            rc ← in_section inside
              (set_cfg (fun s => with_pos (Position (pos_filename (sec_pos s)) (pos_line (sec_pos c)) (pos_path (sec_pos c))) s);;
               s ← cfg;
               if is_set CFGF_RAW (sec_flags s) then lift Undef else parse (S level) (-1) None);
            if negb (rc =? STATE_EOF)%Z then mret Error
            else
              c ← cfg;
              s ← lift (deref (section_at c inside));
              set_cfg (fun c => with_pos (Position (pos_filename (sec_pos c)) (pos_line (sec_pos s)) (pos_path (sec_pos c))) c);;
              bad ← refused x;
              if bad : bool then mret Error else go 0 x
        end
    end.

(** State 6: the title of a section. *)
Definition expect_title (tok : Z) (x : locals) : PM turn :=
  if negb (tok =? CFGT_STR)%Z then
    name ← opt_name_of x;
    error_message (#"missing title for section '" ++ name ++ #"'");; mret Error
  else v ← yylval; t ← pointed v; go 5 (set_opttitle (Some t) x).

(** State 7: the parenthesis of a function. *)
Definition expect_paren (tok : Z) (x : locals) : PM turn :=
  if tok_is tok "(" then go 8 x
  else
    name ← opt_name_of x;
    error_message (#"missing parenthesis for function '" ++ name ++ #"'");; mret Error.

(** The call of a function, when its arguments are read. *)
Definition finish_call (x : locals) : PM turn :=
  match opt_ptr x with
  | None => fails EINVAL Error
  | Some p =>
      ret ← call_function p (funcopt x);
      if negb (ret =? 0)%Z then mret Error else go 0 (set_funcopt [] x)
  end.

Definition call_syntax (x : locals) : PM turn :=
  name ← opt_name_of x;
  error_message (#"syntax error in call of function '" ++ name ++ #"'");; mret Error.

(** State 8: an argument or the closing parenthesis. *)
Definition expect_argument (tok : Z) (x : locals) : PM turn :=
  if tok_is tok ")" then finish_call x
  else if (tok =? CFGT_STR)%Z then
    v ← yylval; arg ← pointed v; go 9 (set_funcopt (funcopt x ++ [arg]) x)
  else call_syntax x.

(** State 9: a comma or the closing parenthesis. *)
Definition expect_comma (tok : Z) (x : locals) : PM turn :=
  if tok_is tok ")" then finish_call x
  else if tok_is tok "," then go 8 x
  else call_syntax x.

(** What the states 10 to 15 skip ends here, or goes on inside a section. *)
Definition skipped (force_state : Z) (x : locals) : PM turn := go (if (10 <=? force_state)%Z then 15 else 0) x.
Definition leave_skipped (force_state : Z) : PM turn :=
  mret (Return (if (10 <=? force_state)%Z then STATE_CONTINUE else STATE_EOF)).

(** State 10: what follows the name of an unknown option. *)
Definition skip_option (force_state tok : Z) (x : locals) : PM turn :=
  let x := set_comment None x in
  if tok_is tok "+" then go 13 (set_ignore (ord "=") x)
  else if tok_is tok "=" then go 14 (set_ignore 0 x)
  else if tok_is tok "(" then go 13 (set_ignore (ord ")") x)
  else if tok_is tok "{" then go 12 x
  else if (tok =? CFGT_STR)%Z then go 11 x
  else if tok_is tok "}" then leave_skipped force_state
  else go 10 x.

(** State 11: the brace of an unknown section with a title. *)
Definition skip_title (tok : Z) (x : locals) : PM turn :=
  if tok_is tok "{" then go 12 x else unexpected_token;; mret Error.

(** State 12: the inside of an unknown section. *)
Definition skip_section (level : nat) (force_state tok : Z) (x : locals) : PM turn :=
  if tok_is tok "}" then skipped force_state x
  else
    let inner := if (tok =? CFGT_COMMENT)%Z then 15%Z else 10%Z in
    rc ← parse (S level) inner None;
    if negb (rc =? STATE_CONTINUE)%Z then mret Error else go 15 x.

(** State 13: everything to a token. *)
Definition skip_until (force_state tok : Z) (x : locals) : PM turn :=
  if negb (tok =? ignore x)%Z then go 13 x
  else if (ignore x =? ord "=")%Z then go 14 (set_ignore 0 x)
  else skipped force_state (set_ignore 0 x).

(** State 14: the value of an unknown option. *)
Definition skip_value (force_state tok : Z) (x : locals) : PM turn :=
  if tok_is tok "{" then go 13 (set_ignore (ord "}") x)
  else if negb (tok =? CFGT_STR)%Z then unexpected_token;; mret Error
  else skipped force_state (set_ignore 0 x).

(** State 15: the next option of an unknown section. *)
Definition skip_next (force_state tok : Z) (x : locals) : PM turn :=
  if (tok =? CFGT_COMMENT)%Z then go 15 x
  else if tok_is tok "}" then leave_skipped force_state
  else go 10 x.

(** What a token does in each state. *)
Definition parse_token (level : nat) (force_state tok : Z) (x : locals) : PM turn :=
  match state x with
  | 0 => expect_name level tok x
  | 1 => expect_equal tok x
  | 2 => expect_value tok x
  | 3 => expect_list tok x
  | 4 => expect_separator tok x
  | 5 => expect_section level tok x
  | 6 => expect_title tok x
  | 7 => expect_paren tok x
  | 8 => expect_argument tok x
  | 9 => expect_comma tok x
  | 10 => skip_option force_state tok x
  | 11 => skip_title tok x
  | 12 => skip_section level force_state tok x
  | 13 => skip_until force_state tok x
  | 14 => skip_value force_state tok x
  | 15 => skip_next force_state tok x
  | _ => error_message #"Internal error in cfg_parse_internal(), unknown state";; mret Error
  end%Z.

(** One turn of the loop. *)
Definition parse_turn (level : nat) (force_state : Z) (x : locals) : PM turn :=
  tok ← lexing cfg_yylex;
  if (tok =? tok_error)%Z then mret Error
  else if (tok =? EOF)%Z then
    if negb (state x =? 0)%Z then error_message #"premature end of file";; mret Error
    else handle_deprecated x;; mret (Return STATE_EOF)
  else parse_token level force_state tok x.
End Turn.

(** The loop of [cfg_parse_internal] and [cfg_init_defaults]: an option that is
    a section is set with its defaults, a default that is a text is parsed. *)
Fixpoint parse_loop (fuel level : nat) (force_state : Z) (x : locals) : PM Z :=
  match fuel with
  | O => lift Undef
  | S fuel =>
      r ← parse_turn (setopt (init_defaults fuel))
            (fun level force_state force_opt =>
               parse_loop fuel level force_state (start_locals force_state force_opt))
            level force_state x;
      match r with
      | Again x => parse_loop fuel level force_state x
      | Return rc => mret rc
      | Error => mret STATE_ERROR
      end
  end
with init_defaults (fuel : nat) : PM unit :=
  match fuel with
  | O => lift Undef
  | S fuel =>
      init_all (init_defaults fuel)
        (fun level force_state force_opt =>
           parse_loop fuel level force_state (start_locals force_state force_opt)) fuel
  end.

(** [cfg_parse_internal] *)
Definition cfg_parse_internal (fuel level : nat) (force_state : Z) (force_opt : option opt_path) : PM Z :=
  parse_loop fuel level force_state (start_locals force_state force_opt).

(** [cfg_init_defaults] *)
Definition cfg_init_defaults (fuel : nat) : PM unit := init_defaults fuel.

(** [cfg_setopt] *)
Definition cfg_setopt (fuel : nat) (p : opt_path) (value : option str) : PM (option place) :=
  setopt (cfg_init_defaults fuel) p value.

(** ** The entry points *)

(** [cfg_parse_fp], on the text of the file. *)
Definition cfg_parse_fp (fuel : nat) (text : str) : PM Z :=
  set_cfg (fun c => let p := sec_pos c in
    with_pos (Position (Some (default #"FILE" (pos_filename p))) 1 (pos_path p)) c);;
  scan_begin text;;
  ret ← cfg_parse_internal fuel 0 (-1) None;
  set_lexer cfg_scan_fp_end;;
  mret (if (ret =? STATE_ERROR)%Z then CFG_PARSE_ERROR else CFG_SUCCESS).

(** [cfg_parse] *)
Definition cfg_parse (fuel : nat) (filename : str) : PM Z :=
  c ← cfg;
  fn ← lexing (lift (resolve_name (sec_pos c) filename));
  match fn with
  | None => mret CFG_FILE_ERROR
  | Some fn =>
      set_cfg (fun c => with_pos (Position (Some fn) (pos_line (sec_pos c)) (pos_path (sec_pos c))) c);;
      match fopen fn with
      | None => mret CFG_FILE_ERROR
      | Some text => cfg_parse_fp fuel text
      end
  end.

(** [cfg_parse_buf] *)
Definition cfg_parse_buf (fuel : nat) (buf : option str) : PM Z :=
  match buf with
  | None => mret CFG_SUCCESS
  | Some buf =>
      set_cfg (fun c => with_pos (Position (Some #"[buf]") (pos_line (sec_pos c)) (pos_path (sec_pos c))) c);;
      cfg_parse_fp fuel (c_str buf)
  end.

(** The section that [cfg_init] makes, before the defaults are set. *)
Definition root_section (opts : list cfg_opt_t) (flags : Z) : cfg_t :=
  Sec flags (Some #"root") opts None (Position None 0 []).

(** [cfg_init] *)
Definition cfg_init (fuel : nat) (opts : list cfg_opt_t) (flags : Z) : PM unit :=
  set_cfg (fun _ => root_section opts flags);;
  cfg_init_defaults fuel.

End Confuse.
