(* ===== verification/ConfuseGrammar.v ===== *)
(** * A grammar for configuration files

    What the state machine of [cfg_parse_internal] means: a recursive descent
    over the tokens of a file that gives a list of statements, the assignments
    with the path of their option and the calls of functions, and what a list
    of statements leaves in an option.  The tables of options it is for are the
    [plain] ones: sections that are there once, integers, strings, booleans and
    lists of them, and functions of the user. *)
From S2P Require Import Prelude.
From S2P Require Import CLib.
From S2P Require Import ConfuseScanner.
From S2P Require Import ConfuseRules.
From S2P Require Import ConfuseLexer.
From S2P Require Import ConfuseLexerSpec.
From S2P Require Import ConfuseFiles.
From S2P Require Import ConfuseData.
From S2P Require Import ConfuseTree.
From S2P Require Import Confuse.

(** ** Statements *)

(** [Assign p append vs] is [p = vs] or [p += vs]. *)
Inductive stmt : Type :=
  | Assign (p : opt_path) (append : bool) (vs : list cfg_value_t)
  | Call (n : nat) (args : list str).

(** A statement in a section, seen from above it. *)
Definition under (inside : sec_path) (x : stmt) : stmt :=
  match x with
  | Assign (p, i) append vs => Assign (inside ++ p, i) append vs
  | Call n args => Call n args
  end.

(** The values of the option at [p] after the statements. *)
Definition stored (st : list stmt) (p : opt_path) (old : list cfg_value_t) : list cfg_value_t :=
  foldl (fun vs x =>
    match x with
    | Assign q append new => if bool_decide (q = p) then (if append then vs ++ new else new) else vs
    | Call _ _ => vs
    end) old st.

(** ** The grammar *)

Abbreviation tok := (Z * option str)%type.

(** The value of a text in an option: [None] when the option refuses it. *)
Definition value_of_text (o : cfg_opt_t) (text : str) : option cfg_value_t :=
  match opt_type (un o) with
  | TYPE_INT =>
      let '(i, rest, range) := strtol (c_str text) in
      if bool_decide (rest = []) && negb range then Some (VInt i) else None
  | TYPE_STR => Some (VStr (Some (c_str text)))
  | TYPE_BOOL =>
      match cfg_parse_boolean (Some text) fresh_log with
      | (_, Ret b) => if (b =? -1)%Z then None else Some (VBool b)
      | _ => None
      end
  | _ => None
  end.

(** [text] *)
Definition text_item (o : cfg_opt_t) (t : tok) : option cfg_value_t :=
  if (fst t =? CFGT_STR)%Z then text ← snd t; value_of_text o text else None.

(** [ [text {, text} [,]] } ] *)
Fixpoint list_items (o : cfg_opt_t) (toks : list tok) : option (list cfg_value_t * list tok) :=
  match toks with
  | t :: r =>
      if tok_is (fst t) "}" then Some ([], r)
      else
        v ← text_item o t;
        match r with
        | t :: r =>
            if tok_is (fst t) "," then '(vs, r) ← list_items o r; Some (v :: vs, r)
            else if tok_is (fst t) "}" then Some ([v], r)
            else None
        | [] => None
        end
  | [] => None
  end.

(** What follows the name of an option: [= text], or for a list [= { items },]
    [+= { items }], [= text] and [+= text]. *)
Definition assignment (o : cfg_opt_t) (toks : list tok) : option (bool * list cfg_value_t * list tok) :=
  let is_list := is_set CFGF_LIST (opt_flags (un o)) in
  match toks with
  | op :: t :: r =>
      let append := tok_is (fst op) "+" in
      if negb (append && is_list || tok_is (fst op) "=") then None
      else if is_list && tok_is (fst t) "{" then '(vs, r) ← list_items o r; Some (append, vs, r)
      else v ← text_item o t; Some (append, [v], r)
  | _ => None
  end.

(** [ [text {, text} [,]] ) ] *)
Fixpoint arguments (toks : list tok) : option (list str * list tok) :=
  match toks with
  | t :: r =>
      if tok_is (fst t) ")" then Some ([], r)
      else if (fst t =? CFGT_STR)%Z then
        arg ← snd t;
        match r with
        | t :: r =>
            if tok_is (fst t) "," then '(args, r) ← arguments r; Some (arg :: args, r)
            else if tok_is (fst t) ")" then Some ([arg], r)
            else None
        | [] => None
        end
      else None
  | [] => None
  end.

(** The option of a name in a section. *)
Definition resolve (c : cfg_t) (name : str) : option opt_path :=
  match cfg_getopt c name fresh_log with (_, Ret p) => p | _ => None end.

(** The statements of a section to its closing brace or, at any depth, to the
    end of the file. *)
Fixpoint items (fuel : nat) (c : cfg_t) (level : nat) (toks : list tok) : option (list stmt * list tok) :=
  match fuel, toks with
  | S fuel, t :: r =>
      if (fst t =? EOF)%Z then Some ([], toks)
      else if tok_is (fst t) "}" then if level =? 0 then None else Some ([], r)
      else if (fst t =? CFGT_COMMENT)%Z then items fuel c level r
      else if (fst t =? CFGT_STR)%Z then
        name ← snd t;
        p ← resolve c name;
        o ← opt_at c p;
        '(st, r) ←
          match opt_type (un o), r with
          | TYPE_SEC, b :: r =>
              if tok_is (fst b) "{" then
                let inside := fst p ++ [(snd p, 0)] in
                sec ← section_at c inside;
                '(st, r) ← items fuel sec (S level) r;
                Some (map (under inside) st, r)
              else None
          | TYPE_FUNC, b :: r =>
              if tok_is (fst b) "(" then
                '(args, r) ← arguments r;
                match opt_func (un o) with
                | Some (user_func n) => Some ([Call n args], r)
                | _ => None
                end
              else None
          | _, _ => '(append, vs, r) ← assignment o r; Some ([Assign p append vs], r)
          end;
        '(st', r) ← items fuel c level r;
        Some (st ++ st', r)
      else None
  | _, _ => None
  end.

Section Grammar.
Context {U : Type} `{Callbacks U}.

(** The calls, in their order; one that fails ends the reading. *)
Fixpoint calls (st : list stmt) (u : U) : option U :=
  match st with
  | [] => Some u
  | Call n args :: st => let '(u, _, ret) := call_user n args u in if (ret =? 0)%Z then calls st u else None
  | Assign _ _ _ :: st => calls st u
  end.

(** A file: its statements, and the data of the user after the calls. *)
Definition read_file (c : cfg_t) (toks : list tok) (u : U) : option (list stmt * U) :=
  '(st, _) ← items (length toks) c 0 toks;
  u ← calls st u;
  Some (st, u).
End Grammar.
