(* ===== verification/ConfuseLookup.v ===== *)
(** * Lookup in trees that differ in their values

    [cfg_getopt] depends on the names of options and sections, which the
    parser never changes; what a plain table of options is; the effect of
    statements on the views of a tree. *)
From S2P Require Import Prelude.
From S2P Require Import CLib.
From S2P Require Import ConfuseScanner.
From S2P Require Import ConfuseRules.
From S2P Require Import ConfuseLexer.
From S2P Require Import ConfuseLexerSpec.
From S2P Require Import ConfuseFiles.
From S2P Require Import ConfuseData.
From S2P Require Import ConfuseTree.
From S2P Require Import Confuse.
From S2P Require Import ConfuseGrammar.

(** ** Trees alike but for values *)

(** An option without its values. *)
Definition static (o : cfg_opt_t) : cfg_opt_t := with_values [] (mask o).

Definition alike (c c' : cfg_t) : Prop :=
  (∀ q, static <$> opt_at c q = static <$> opt_at c' q) ∧ (∀ sp, sec_view c sp = sec_view c' sp).

#[export] Instance alike_equiv : Equivalence alike.
Proof.
  split.
  - by intros c.
  - intros c c' [H1 H2]. by split.
  - intros c c' c'' [H1 H2] [H3 H4]. split; intros; etrans; eauto.
Qed.

Arguments static : simpl never.
Arguments mask : simpl never.
Arguments head_of : simpl never.

Lemma static_mask o : static (mask o) = static o.
Proof.
  destruct o as [o]. unfold static, mask, with_flags, with_values. cbn.
  destruct (type_is _ _); [done|]. unfold clear_flag. by rewrite <- Z.land_assoc, Z.land_diag.
Qed.

Lemma static_same o o' : static o = static o' →
  opt_name (un o) = opt_name (un o') ∧ opt_type (un o) = opt_type (un o') ∧
  opt_func (un o) = opt_func (un o').
Proof. destruct o as [o], o' as [o']. unfold static, mask. cbn. by intros [= -> _ -> _ _ _ ->]. Qed.

Lemma alike_views c c' :
  (∀ q, static <$> opt_view c q = static <$> opt_view c' q) → (∀ sp, sec_view c sp = sec_view c' sp) →
  alike c c'.
Proof.
  intros H1 H2. split; [|done]. intros q. specialize (H1 q). unfold opt_view in H1.
  rewrite <- !option_fmap_compose in H1.
  destruct (opt_at c q), (opt_at c' q); cbn in *; try done. by rewrite !static_mask in H1.
Qed.

(** The sections at the same path of trees alike are alike. *)
Lemma alike_section c c' p s :
  alike c c' → section_at c p = Some s → ∃ s', section_at c' p = Some s' ∧ alike s s' ∧ head_of s = head_of s'.
Proof.
  intros [Ho Hs] E. specialize (Hs p) as Hp. unfold sec_view in Hp. rewrite E in Hp.
  destruct (section_at c' p) as [s'|] eqn:E'; [|done]. exists s'. split; [done|].
  apply (inj Some) in Hp. split; [|done].
  split.
  - intros [r j]. specialize (Ho (p ++ r, j)). rewrite !opt_at_app, E, E' in Ho. exact Ho.
  - intros r. specialize (Hs (p ++ r)). unfold sec_view in *. rewrite !section_at_app, E, E' in Hs. exact Hs.
Qed.

(** Their options have the same names. *)
Lemma alike_names c c' :
  alike c c' → (fun o => opt_name (un o)) <$> sec_opts c = (fun o => opt_name (un o)) <$> sec_opts c'.
Proof.
  intros [Ho _]. apply list_eq. intros j. rewrite !list_lookup_fmap. specialize (Ho ([], j)).
  unfold opt_at in Ho. cbn in Ho. destruct (sec_opts c !! j), (sec_opts c' !! j); cbn in *; try done.
  apply (inj Some) in Ho. f_equal. by apply static_same in Ho as [? _].
Qed.

Lemma find_index_fmap {A B} (f : A → B) (P : B → bool) l :
  find_index (fun x => P (f x)) l = find_index P (f <$> l).
Proof. induction l as [|x l IH]; cbn; [done|]. destruct (P (f x)); [done|]. f_equal. apply IH. Qed.

(** ** [cfg_getopt] *)

(** What a lookup does to the log: it may report, and does when it has to, and
    [errno] does not become [ERANGE]. *)
Definition logs (must : bool) (g g' : log) : Prop :=
  (errno g ≠ ERANGE → errno g' ≠ ERANGE) ∧
  ∃ ms, messages g' = messages g ++ ms ∧ (must = true → ms ≠ []).

Lemma logs_refl g : logs false g g.
Proof. split; [done|]. exists []. by rewrite app_nil_r. Qed.

Lemma logs_trans b b' g g' g'' : logs b g g' → logs b' g' g'' → logs (b || b') g g''.
Proof.
  intros [He (ms & Hm & Hb)] [He' (ms' & Hm' & Hb')]. split; [auto|].
  exists (ms ++ ms'). split; [by rewrite Hm', Hm, app_assoc|].
  intros E. apply orb_true_iff in E as [E|E].
  - specialize (Hb E). by destruct ms.
  - specialize (Hb' E). destruct ms, ms'; done.
Qed.

Lemma logs_weaken b g g' : logs b g g' → logs false g g'.
Proof. intros [He (ms & Hm & _)]. split; [done|]. by exists ms. Qed.

Lemma logs_report m g : logs true g (add_message m g).
Proof. split; [done|]. by exists [m]. Qed.

Lemma logs_errno e g : e ≠ ERANGE → logs false g (set_errno e g).
Proof. intros He. split; [done|]. exists []. by rewrite app_nil_r. Qed.

(** A computation that gives [r] whatever the log; a failure is reported when
    unknown names are not ignored. *)
Definition finds {A} (m : GM (option A)) (must : bool) (r : option A) : Prop :=
  ∀ g, ∃ g', m g = (g', Ret r) ∧ logs (must && bool_decide (r = None)) g g'.

Lemma lookup_opt_finds cfg sec name :
  finds (lookup_opt cfg sec name) (negb (is_set CFGF_IGNORE_UNKNOWN (sec_flags cfg)))
    (find_index (fun n => same_name (sec_flags sec) n name) ((fun o => opt_name (un o)) <$> sec_opts sec)).
Proof.
  intros g. unfold lookup_opt. rewrite <- (find_index_fmap _ (fun n => same_name _ n name)).
  destruct (find_index _ _) as [i|].
  - exists g. split; [done|]. rewrite bool_decide_false, andb_false_r by done. apply logs_refl.
  - destruct (negb _); cbn.
    + exists (add_message (no_such_option name) g). split; [done|]. apply logs_report.
    + exists g. split; [done|]. apply logs_refl.
Qed.

Lemma getnsec_finds o :
  finds (cfg_opt_getnsec o 0) false
    (o ← o; if type_is (opt_type (un o)) TYPE_SEC then opt_values (un o) !! 0 ≫= value_section else None).
Proof.
  intros g. unfold cfg_opt_getnsec, fail_with. destruct o as [o|]; cbn.
  - destruct (type_is _ _); cbn.
    + destruct (opt_values (un o) !! 0) as [v|]; cbn.
      * exists g. split; [done|]. apply logs_refl.
      * eexists. split; [done|]. by apply logs_errno.
    + eexists. split; [done|]. by apply logs_errno.
  - eexists. split; [done|]. by apply logs_errno.
Qed.

(** The section of a name, as a step of a path. *)
Definition find_sec (sec : cfg_t) (name : str) : option (nat * cfg_t) :=
  i ← find_index (fun n => same_name (sec_flags sec) n name) ((fun o => opt_name (un o)) <$> sec_opts sec);
  o ← sec_opts sec !! i;
  s ← (if type_is (opt_type (un o)) TYPE_SEC then child sec i 0 else None);
  Some (i, s).

Lemma getsec_plain_finds sec name :
  is_Some (sec_name sec) → finds (getsec_plain sec name) false (find_sec sec name).
Proof.
  intros [n Hn] g. unfold getsec_plain, find_sec. rewrite Hn.
  destruct (lookup_opt_finds sec sec name g) as (g1 & E1 & L1). rewrite stM_bind_eq, E1.
  set (i := find_index _ _) in *.
  destruct (getnsec_finds (i ≫= fun i => sec_opts sec !! i) g1) as (g2 & E2 & L2).
  rewrite stM_bind_eq, E2. exists g2. split.
  - f_equal. f_equal. destruct i as [i|]; [|done]. cbn. unfold child.
    destruct (sec_opts sec !! i) as [o|]; [|done]. cbn. by destruct (type_is _ _).
  - eapply logs_weaken, logs_trans; [exact L1|exact L2].
Qed.

Lemma find_sec_alike sec sec' name :
  alike sec sec' → head_of sec = head_of sec' →
  match find_sec sec name, find_sec sec' name with
  | None, None => True
  | Some (i, s), Some (i', s') => i = i' ∧ alike s s' ∧ head_of s = head_of s'
  | _, _ => False
  end.
Proof.
  intros Ha Hh. unfold find_sec. rewrite <- (alike_names _ _ Ha). injection Hh as -> _ _.
  destruct (find_index _ _) as [i|]; [|done]. cbn.
  pose proof (proj1 Ha ([], i)) as Ho. unfold opt_at in Ho. cbn in Ho.
  destruct (sec_opts sec !! i) as [o|] eqn:E, (sec_opts sec' !! i) as [o'|] eqn:E'; try done. cbn in *.
  apply (inj Some) in Ho. apply static_same in Ho as (_ & -> & _). destruct (type_is _ _); [|done]. cbn.
  assert (∀ c, section_at c [(i, 0)] = child c i 0) as Hc.
  { intros c. rewrite section_at_cons. by destruct (child c i 0). }
  destruct (child sec i 0) as [s|] eqn:Es.
  - destruct (alike_section sec sec' [(i, 0)] s Ha) as (s' & Es' & ? & ?); [by rewrite Hc|].
    rewrite Hc in Es'. by rewrite Es'.
  - destruct (child sec' i 0) as [s'|] eqn:Es'; [|done].
    destruct (alike_section sec' sec [(i, 0)] s') as (s & E2 & _); [by symmetry|by rewrite Hc|].
    rewrite Hc in E2. congruence.
Qed.

(** The names of the sections below are there. *)
Definition named (c : cfg_t) : Prop := ∀ p h, sec_view c p = Some h → is_Some (snd (fst h)).

Lemma named_here c : named c → is_Some (sec_name c).
Proof. intros Hn. by apply (Hn [] (head_of c)). Qed.

Lemma named_section c p s : named c → section_at c p = Some s → named s.
Proof.
  intros Hn E r h Hr. apply (Hn (p ++ r)). unfold sec_view in *. by rewrite section_at_app, E.
Qed.

Lemma named_find_sec c name i s : named c → find_sec c name = Some (i, s) → named s.
Proof.
  unfold find_sec. intros Hn E. destruct (find_index _ _) as [j|]; [|done]. cbn in E.
  destruct (sec_opts c !! j) as [o|]; [|done]. cbn in E. destruct (type_is _ _); [|done].
  destruct (child c j 0) as [s'|] eqn:Es; [|done]. cbn in E. injection E as <- <-.
  apply (named_section c [(j, 0)]); [done|]. rewrite section_at_cons, Es. done.
Qed.

Lemma getopt_loop_finds fuel (cfg sec sec' : cfg_t) at_ name :
  length name < fuel → named sec → alike sec sec' → head_of sec = head_of sec' →
  ∃ r, ∀ cfg' : cfg_t, sec_flags cfg' = sec_flags cfg →
    finds (getopt_loop fuel cfg' sec at_ name) (negb (is_set CFGF_IGNORE_UNKNOWN (sec_flags cfg))) r ∧
    finds (getopt_loop fuel cfg' sec' at_ name) (negb (is_set CFGF_IGNORE_UNKNOWN (sec_flags cfg))) r.
Proof.
  revert sec sec' at_ name. induction fuel as [|fuel IH]; intros sec sec' at_ name Hf Hn Ha Hh; [lia|]. cbn.
  assert (∀ s, length (skip_bars s) ≤ length s) as Hskip.
  { clear. induction s as [|c s IH]; cbn; [lia|]. repeat case_match; cbn in *; lia. }
  destruct (find_char "|" name) as [[|len]|] eqn:Ec.
  - apply find_char_Some in Ec as ([|] & name' & -> & [=] & _). cbn.
    apply IH; [specialize (Hskip name'); cbn in Hf; lia|done..].
  - assert (S len < length name) as Hlen.
    { apply find_char_Some in Ec as (u & r & -> & Hl & _). rewrite length_app. cbn. lia. }
    assert (named sec') as Hn'.
    { intros p h Hp. apply (Hn p). by rewrite (proj2 Ha). }
    pose proof (find_sec_alike sec sec' (take (S len) name) Ha Hh) as Hfs.
    pose proof (getsec_plain_finds sec (take (S len) name) (named_here _ Hn)) as F.
    pose proof (getsec_plain_finds sec' (take (S len) name) (named_here _ Hn')) as F'.
    destruct (find_sec sec _) as [[i s]|] eqn:Es, (find_sec sec' _) as [[i' s']|]; try done.
    + destruct Hfs as (<- & Ha' & Hh').
      destruct (IH s s' (at_ ++ [(i, 0)]) (skip_bars (drop (S len) name))) as [r Hr];
        [specialize (Hskip (drop (S len) name)); rewrite length_drop in *; lia
        |exact (named_find_sec _ _ _ _ Hn Es)|done|done|].
      exists r. intros cfg' Hc. destruct (Hr cfg' Hc) as [R R']. split; intros g; rewrite stM_bind_eq.
      * destruct (F g) as (g1 & -> & L1). destruct (R g1) as (g2 & -> & L2).
        exists g2. split; [done|]. exact (logs_trans _ _ _ _ _ L1 L2).
      * destruct (F' g) as (g1 & -> & L1). destruct (R' g1) as (g2 & -> & L2).
        exists g2. split; [done|]. exact (logs_trans _ _ _ _ _ L1 L2).
    + exists None. intros cfg' Hc. rewrite Hc. unfold finds. rewrite bool_decide_true by done.
      assert (∀ g g1, logs false g g1 → ∃ g', (when (negb (is_set CFGF_IGNORE_UNKNOWN (sec_flags cfg)))
          (report (no_such_option (take (S len) name)));; mret None : GM (option opt_path)) g1 = (g', Ret None) ∧
          logs (negb (is_set CFGF_IGNORE_UNKNOWN (sec_flags cfg)) && true) g g') as Hrep.
      { intros g g1 L. destruct (negb _); cbn; [|by exists g1].
        eexists. split; [done|]. exact (logs_trans _ _ _ _ _ L (logs_report _ _)). }
      split; intros g; rewrite stM_bind_eq.
      * destruct (F g) as (g1 & -> & L1). by apply Hrep, (logs_weaken _ _ _ L1).
      * destruct (F' g) as (g1 & -> & L1). by apply Hrep, (logs_weaken _ _ _ L1).
  - eexists. intros cfg' Hc. rewrite <- Hc.
    assert (∀ sec0 : cfg_t, finds (i ← lookup_opt cfg' sec0 name; mret (pair at_ <$> i))
       (negb (is_set CFGF_IGNORE_UNKNOWN (sec_flags cfg')))
       (pair at_ <$> find_index (fun n => same_name (sec_flags sec0) n name) ((fun o => opt_name (un o)) <$> sec_opts sec0))) as Hl.
    { intros sec0 g. rewrite stM_bind_eq. destruct (lookup_opt_finds cfg' sec0 name g) as (g1 & -> & L1).
      exists g1. split; [done|]. by destruct (find_index _ _). }
    split; [apply Hl|]. pose proof (Hl sec') as Hl'. rewrite <- (alike_names _ _ Ha) in Hl'.
    by replace (sec_flags sec') with (sec_flags sec) in Hl' by (by injection Hh).
Qed.

(** The lookup of a name gives [resolve], whatever the log. *)
Lemma getopt_resolve c name :
  named c → finds (cfg_getopt c name) (negb (is_set CFGF_IGNORE_UNKNOWN (sec_flags c))) (resolve c name).
Proof.
  intros Hn. destruct (getopt_loop_finds (S (length name)) c c c [] (c_str name)) as [r Hr]; try done.
  { clear. induction name as [|a name IH]; cbn; [lia|]. case_match; cbn in *; lia. }
  destruct (Hr c eq_refl) as [F _]. destruct (named_here c Hn) as [n E].
  assert (resolve c name = r) as ->; [|by unfold cfg_getopt; rewrite E].
  unfold resolve, cfg_getopt. rewrite E. by destruct (F fresh_log) as (g & -> & _).
Qed.

Lemma resolve_alike c c' name :
  named c → alike c c' → head_of c = head_of c' → resolve c name = resolve c' name.
Proof.
  intros Hn Ha Hh. destruct (getopt_loop_finds (S (length name)) c c c' [] (c_str name)) as [r Hr]; try done.
  { clear. induction name as [|a name IH]; cbn; [lia|]. case_match; cbn in *; lia. }
  injection Hh as Hf Hm _. destruct (named_here c Hn) as [n E].
  unfold resolve, cfg_getopt. rewrite <- Hm, E.
  destruct (Hr c eq_refl) as [F _]. destruct (Hr c' ltac:(done)) as [_ F'].
  destruct (F fresh_log) as (g & -> & _). by destruct (F' fresh_log) as (g' & -> & _).
Qed.

(** What is found is in the tree. *)
Lemma find_index_Some {A} (f : A → bool) l i : find_index f l = Some i → is_Some (l !! i).
Proof.
  revert i. induction l as [|x l IH]; intros i; cbn; [done|]. destruct (f x); [intros [= <-]; by eexists|].
  destruct (find_index f l) as [j|] eqn:E; [|done]. cbn. intros [= <-]. by apply IH.
Qed.

Lemma getopt_loop_at fuel cfg sec at_ name g g' p :
  named sec → getopt_loop fuel cfg sec at_ name g = (g', Ret (Some p)) →
  ∃ r, fst p = at_ ++ r ∧ is_Some (opt_at sec (r, snd p)).
Proof.
  revert sec at_ name g. induction fuel as [|fuel IH]; intros sec at_ name g Hn; [done|]. cbn.
  destruct (find_char "|" name) as [[|len]|].
  - by apply IH.
  - rewrite stM_bind_eq. destruct (getsec_plain_finds sec (take (S len) name) (named_here _ Hn) g) as (g1 & -> & _).
    destruct (find_sec sec _) as [[i s]|] eqn:Es.
    + intros E. apply IH in E as (r & E & Ho); [|exact (named_find_sec _ _ _ _ Hn Es)].
      exists ((i, 0) :: r). split; [by rewrite E, <- app_assoc|].
      unfold opt_at in *. cbn [fst snd] in *. rewrite section_at_cons.
      unfold find_sec in Es. destruct (find_index _ _) as [j|]; [|done]. cbn in Es.
      destruct (sec_opts sec !! j) as [o|]; [|done]. cbn in Es. destruct (type_is _ _); [|done].
      destruct (child sec j 0) as [s'|] eqn:Ec; [|done]. cbn in Es. injection Es as <- <-. by rewrite Ec.
    + destruct (negb _); by cbn.
  - rewrite stM_bind_eq. destruct (lookup_opt_finds cfg sec name g) as (g1 & -> & _).
    destruct (find_index _ _) as [i|] eqn:E; [|done]. cbn. intros [= <- <-]. exists [].
    split; [by rewrite app_nil_r|]. unfold opt_at. cbn. apply find_index_Some in E.
    rewrite list_lookup_fmap in E. by rewrite fmap_is_Some in E.
Qed.

Lemma resolve_at c name p : named c → resolve c name = Some p → is_Some (opt_at c p).
Proof.
  intros Hn. unfold resolve, cfg_getopt. destruct (named_here c Hn) as [n ->].
  destruct (getopt_loop _ _ _ _ _ _) as [g' []] eqn:E; try done. intros ->.
  apply getopt_loop_at in E as (r & Er & Ho); [|done]. cbn in Er. destruct p as [p j]. cbn in *. by subst.
Qed.

(** ** Plain tables *)

Definition flag_off (f x : Z) : Prop := is_set f x = false.

(** A section whose text is only read, which reports unknown names and ignores
    comments. *)
Definition plain_head (h : Z * option str * option str) : Prop :=
  let '(flags, name, _) := h in
  is_Some name ∧ flag_off CFGF_RAW flags ∧ flag_off CFGF_COMMENTS flags ∧ flag_off CFGF_IGNORE_UNKNOWN flags.

(** An option without callbacks or a simple variable: a section that is there,
    a function of the user, or a value or list of values. *)
Definition plain_opt (o : cfg_opt_t) : Prop :=
  let r := un o in
  simple_value r = None ∧ parsecb r = None ∧ validcb r = None ∧
  flag_off CFGF_MULTI (opt_flags r) ∧ flag_off CFGF_DEPRECATED (opt_flags r) ∧
  match opt_type r with
  | TYPE_SEC => flag_off CFGF_TITLE (opt_flags r) ∧ flag_off CFGF_LIST (opt_flags r) ∧
                flag_off CFGF_RESET (opt_flags r) ∧ is_set CFGF_DEFINIT (opt_flags r) = true ∧
                length (opt_values r) = 1
  | TYPE_FUNC => ∃ n, opt_func r = Some (user_func n)
  | TYPE_INT | TYPE_STR | TYPE_BOOL => is_set CFGF_LIST (opt_flags r) = true ∨ length (opt_values r) ≤ 1
  | _ => False
  end.

(** A section of an option is there for options that are sections, only. *)
Definition plain_at (c : cfg_t) (q : opt_path) (o : cfg_opt_t) : Prop :=
  plain_opt o ∧
  if type_is (opt_type (un o)) TYPE_SEC then is_Some (sec_view c (fst q ++ [(snd q, 0)]))
  else ∀ k, sec_view c (fst q ++ [(snd q, k)]) = None.

Definition plain (c : cfg_t) : Prop :=
  (∀ sp h, sec_view c sp = Some h → plain_head h) ∧
  (∀ q o, opt_view c q = Some o → plain_at c q o).

Lemma plain_named c : plain c → named c.
Proof. intros [Hs _] p [[f n] t] E. apply Hs in E as [? _]. done. Qed.

Lemma sec_view_app c p r : sec_view c (p ++ r) = section_at c p ≫= fun s => sec_view s r.
Proof. unfold sec_view. rewrite section_at_app. by destruct (section_at c p). Qed.

Lemma opt_view_app c p r j : opt_view c (p ++ r, j) = section_at c p ≫= fun s => opt_view s (r, j).
Proof. unfold opt_view. rewrite opt_at_app. by destruct (section_at c p). Qed.

Lemma plain_section c p s : plain c → section_at c p = Some s → plain s.
Proof.
  intros [Hs Ho] E. split.
  - intros r h Hr. apply (Hs (p ++ r)). by rewrite sec_view_app, E.
  - intros [r j] o Hr. specialize (Ho (p ++ r, j) o). rewrite opt_view_app, E in Ho. specialize (Ho Hr).
    unfold plain_at in *. cbn [fst snd] in *. destruct Ho as [Ho Hk]. split; [done|].
    destruct (type_is _ _).
    + by rewrite <- app_assoc, sec_view_app, E in Hk.
    + intros k. specialize (Hk k). by rewrite <- app_assoc, sec_view_app, E in Hk.
Qed.

(** ** Effects *)

(** The views of a tree after the statements. *)
Definition update (st : list stmt) (q : opt_path) (o : cfg_opt_t) : cfg_opt_t :=
  with_values (stored st q (opt_values (un o))) o.

Definition effect (st : list stmt) (c c' : cfg_t) : Prop :=
  (∀ q, opt_view c' q = update st q <$> opt_view c q) ∧ (∀ sp, sec_view c' sp = sec_view c sp).

Lemma with_values_id o : with_values (opt_values (un o)) o = o.
Proof. by destruct o as [[]]. Qed.

Lemma effect_nil c c' : (∀ q, opt_view c' q = opt_view c q) → (∀ sp, sec_view c' sp = sec_view c sp) → effect [] c c'.
Proof.
  intros Ho Hs. split; [|done]. intros q. rewrite Ho. unfold update. cbn.
  destruct (opt_view c q); [|done]. cbn. by rewrite with_values_id.
Qed.

Lemma stored_app st st' q vs : stored (st ++ st') q vs = stored st' q (stored st q vs).
Proof. apply foldl_app. Qed.

Lemma effect_trans st st' c c' c'' : effect st c c' → effect st' c' c'' → effect (st ++ st') c c''.
Proof.
  intros [H1 H2] [H3 H4]. split; [|intros; by rewrite H4].
  intros q. rewrite H3, H1, <- option_fmap_compose. apply option_fmap_ext. intros o. unfold update. cbn.
  by rewrite stored_app.
Qed.

Lemma effect_alike st c c' : effect st c c' → alike c c'.
Proof.
  intros [Ho Hs]. apply alike_views; [|done]. intros q. rewrite Ho, <- option_fmap_compose.
  apply option_fmap_ext. intros o. by unfold update.
Qed.

Lemma effect_head st c c' : effect st c c' → head_of c = head_of c'.
Proof. intros [_ Hs]. specialize (Hs []). by apply (inj Some) in Hs. Qed.

(** A statement of a section touches only what is below it. *)
Lemma stored_under inside st r j vs :
  stored (map (under inside) st) (inside ++ r, j) vs = stored st (r, j) vs.
Proof.
  revert vs. unfold stored. induction st as [|[[p i] append new|n args] st IH]; intros vs; cbn; [done| |apply IH].
  rewrite IH. f_equal. destruct (decide ((p, i) = (r, j))) as [E|E].
  - injection E as -> ->. by rewrite !bool_decide_true.
  - rewrite !bool_decide_false; [done|done|]. intros [= E2 ->]. apply E. by apply app_inv_head in E2 as ->.
Qed.

Lemma stored_elsewhere inside st q vs :
  (∀ r, fst q ≠ inside ++ r) → stored (map (under inside) st) q vs = vs.
Proof.
  intros Hq. revert vs. unfold stored. induction st as [|[[p i] append new|n args] st IH]; intros vs; cbn;
    [done| |apply IH].
  rewrite bool_decide_false; [apply IH|]. intros <-. by apply (Hq p).
Qed.

(** [alter_section] depends on the function at that section only. *)
Lemma alter_section_ext (f g : cfg_t → cfg_t) p (d s : cfg_t) :
  section_at d p = Some s → f s = g s → alter_section f p d = alter_section g p d.
Proof.
  revert d. induction p as [|[i k] p IH]; intros d E Hfg; [cbn in *; by simplify_eq|].
  rewrite !alter_section_cons. unfold alter_opt. f_equal. apply list_eq. intros n.
  destruct (decide (i = n)) as [->|Hi]; [|by rewrite !list_lookup_alter_ne].
  rewrite !list_lookup_alter_eq. rewrite section_at_cons in E. unfold child in E.
  destruct (sec_opts d !! n) as [o|]; [|done]. cbn in *. f_equal.
  unfold alter_value. f_equal. apply list_eq. intros m.
  destruct (decide (k = m)) as [->|Hk]; [|by rewrite !list_lookup_alter_ne].
  rewrite !list_lookup_alter_eq. destruct (opt_values (un o) !! m) as [v|]; [|done]. cbn in *. f_equal.
  destruct v; try done. cbn in *. f_equal. by apply IH.
Qed.

(** The change of a section, seen from above; the section keeps its head. *)
Section ChangeSection.
Context (c sec sec' : cfg_t) (inside : sec_path).
Context (Hin : section_at c inside = Some sec) (Hhead : head_of sec' = head_of sec).

Lemma section_at_change : section_at (alter_section (fun _ => sec') inside c) inside = Some sec'.
Proof. rewrite <- (app_nil_r inside) at 2. by rewrite section_at_alter_below, Hin. Qed.

Lemma opt_view_below r j :
  opt_view (alter_section (fun _ => sec') inside c) (inside ++ r, j) = opt_view sec' (r, j).
Proof. by rewrite opt_view_app, section_at_change. Qed.

Lemma sec_view_below r :
  sec_view (alter_section (fun _ => sec') inside c) (inside ++ r) = sec_view sec' r.
Proof. by rewrite sec_view_app, section_at_change. Qed.

Definition keep_head (s : cfg_t) : cfg_t :=
  Sec (sec_flags s) (sec_name s) (sec_opts sec') (sec_title s) (sec_pos sec').

Lemma change_keeps : alter_section (fun _ => sec') inside c = alter_section keep_head inside c.
Proof.
  apply (alter_section_ext _ _ _ _ sec); [done|]. unfold keep_head.
  injection Hhead as <- <- <-. by destruct sec'.
Qed.

Lemma views_change :
  (∀ sp, sec_view (alter_section (fun _ => sec') inside c) sp = sec_view c sp ∨ ∃ r, sp = inside ++ r) ∧
  (∀ q, opt_view (alter_section (fun _ => sec') inside c) q = opt_view c q ∨ ∃ r, fst q = inside ++ r).
Proof. rewrite change_keeps. by apply views_alter_elsewhere. Qed.

Lemma effect_section st :
  effect st sec sec' → effect (map (under inside) st) c (alter_section (fun _ => sec') inside c).
Proof.
  intros [Ho Hs]. destruct views_change as [Vs Vo]. split.
  - intros [q j]. destruct (decide (inside `prefix_of` q)) as [[r ->]|Hn].
    + rewrite opt_view_below, Ho, opt_view_app, Hin. cbn. apply option_fmap_ext. intros o.
      unfold update. by rewrite stored_under.
    + destruct (Vo (q, j)) as [->|[r Hr]]; [|destruct Hn; by exists r].
      destruct (opt_view c (q, j)) as [o|]; [|done]. cbn. unfold update.
      rewrite stored_elsewhere, with_values_id; [done|]. intros r Hr. apply Hn. by exists r.
  - intros sp. destruct (Vs sp) as [?|[r ->]]; [done|]. by rewrite sec_view_below, Hs, sec_view_app, Hin.
Qed.

Lemma plain_change : plain c → plain sec' → alike sec sec' → plain (alter_section (fun _ => sec') inside c).
Proof.
  intros [Ps Po] [Ps' Po'] Ha. destruct views_change as [Vs Vo].
  assert (∀ sp, sec_view (alter_section (fun _ => sec') inside c) sp = sec_view c sp) as Vs'.
  { intros sp. destruct (Vs sp) as [?|[r ->]]; [done|].
    rewrite sec_view_below, (sec_view_app c), Hin. symmetry. apply (proj2 Ha). }
  split; [intros sp h; rewrite Vs'; apply Ps|].
  intros [q j] o Hq. destruct (decide (inside `prefix_of` q)) as [[r ->]|Hn].
  - rewrite opt_view_below in Hq. apply Po' in Hq as [? Hk]. split; [done|]. cbn [fst snd] in *.
    destruct (type_is _ _); [|intros k; specialize (Hk k)]; by rewrite <- app_assoc, sec_view_below.
  - destruct (Vo (q, j)) as [E|[r Hr]]; [|destruct Hn; by exists r].
    rewrite E in Hq. apply Po in Hq as [? Hk]. split; [done|]. cbn [fst snd] in *.
    destruct (type_is _ _); [|intros k; specialize (Hk k)]; by rewrite Vs'.
Qed.
End ChangeSection.
