(* ===== verification/ConfuseParse.v ===== *)
(** * The parser of libconfuse reads the grammar

    For a plain table of options the state machine of [cfg_parse_internal] is
    the recursive descent of [ConfuseGrammar]: it accepts the files that have
    statements, leaves in each option what they store, calls the functions in
    their order, and refuses any other file with a message. *)
From S2P Require Import Prelude.
From S2P Require Import CLib.
From S2P Require Import ConfuseScanner.
From S2P Require Import ConfuseRules.
From S2P Require Import ConfuseLexer.
From S2P Require Import ConfuseLexerSpec.
From S2P Require Import ConfuseFiles.
From S2P Require Import ConfuseData.
From S2P Require Import ConfuseTree.
From S2P Require Import Confuse.
From S2P Require Import ConfuseGrammar.
From S2P Require Import ConfuseLookup.

(** ** Flags *)

(** A flag apart from another is not touched with it. *)
Definition apart (f g : Z) : Prop := Z.land f g = 0%Z.

Lemma is_set_clear f g x : apart f g → is_set f (clear_flag g x) = is_set f x.
Proof.
  unfold apart, is_set, clear_flag. intros Ha. f_equal.
  rewrite (Z.land_comm x), Z.land_assoc. f_equal. apply Z.bits_inj'. intros n Hn.
  rewrite Z.land_spec, Z.lnot_spec by done. apply (f_equal (fun z => Z.testbit z n)) in Ha.
  rewrite Z.land_spec, Z.bits_0 in Ha. destruct (Z.testbit f n), (Z.testbit g n); done.
Qed.

Lemma is_set_set f g x : apart f g → is_set f (set_flag g x) = is_set f x.
Proof. unfold apart, is_set, set_flag. intros Ha. by rewrite Z.land_lor_distr_r, Ha, Z.lor_0_r. Qed.

Lemma is_set_here f x : is_set f (set_flag f x) = true.
Proof.
  unfold is_set, set_flag. apply Z.eqb_eq. apply Z.bits_inj'. intros n Hn.
  rewrite Z.land_spec, Z.lor_spec. by destruct (Z.testbit f n), (Z.testbit x n).
Qed.

Lemma reset_off x : is_set CFGF_RESET (clear_flag CFGF_RESET x) = false.
Proof.
  unfold is_set, clear_flag. apply Z.eqb_neq. intros E.
  apply (f_equal (fun z => Z.testbit z 6)) in E. rewrite !Z.land_spec, Z.lnot_spec in E by done.
  cbn in E. by rewrite andb_false_r in E.
Qed.

(** ** Options with values *)

(** A value or a list of values, as it is in the tree. *)
Definition scalar_type (t : cfg_type) : bool :=
  match t with TYPE_INT | TYPE_STR | TYPE_BOOL => true | _ => false end.

Definition scalar (o : cfg_opt_t) : Prop :=
  plain_opt o ∧ no_sections o ∧ scalar_type (opt_type (un o)) = true.

Definition is_list (o : cfg_opt_t) : bool := is_set CFGF_LIST (opt_flags (un o)).
Definition resets (o : cfg_opt_t) : bool := is_set CFGF_RESET (opt_flags (un o)).

(** What the flags of a masked option say of the option. *)
Lemma mask_flag f o :
  apart f CFGF_RESET → is_set f (opt_flags (un (mask o))) = is_set f (opt_flags (un o)).
Proof.
  intros Ha. destruct o as [o]. unfold mask, with_flags, with_values. cbn.
  destruct (type_is _ _); [done|]. by apply is_set_clear.
Qed.

Lemma plain_opt_mask o : plain_opt (mask o) ↔ plain_opt o.
Proof.
  assert (is_set CFGF_RESET (opt_flags (un (mask o))) = is_set CFGF_RESET (opt_flags (un o)) ∨
    opt_type (un o) ≠ TYPE_SEC) as Hr.
  { destruct o as [o]. unfold mask, type_is. cbn. destruct (decide (opt_type o = TYPE_SEC)); [left|by right].
    by rewrite bool_decide_true. }
  assert (length (opt_values (un (mask o))) = length (opt_values (un o))) as Hl.
  { destruct o as [o]. unfold mask. cbn. by rewrite length_map. }
  unfold plain_opt, flag_off. rewrite (mask_flag CFGF_MULTI o), (mask_flag CFGF_DEPRECATED o), (mask_flag CFGF_LIST o),
    (mask_flag CFGF_TITLE o), (mask_flag CFGF_DEFINIT o), Hl by done.
  assert (∀ A (f : option_of cfg_opt_t → A), (∀ v g (r : option_of cfg_opt_t), f r = f (un (with_flags g (with_values v (Opt r))))) →
    f (un (mask o)) = f (un o)) as Hm by (intros A f Hf; destruct o; symmetry; apply Hf).
  rewrite (Hm _ simple_value), (Hm _ parsecb), (Hm _ validcb), (Hm _ opt_type), (Hm _ opt_func) by done.
  destruct Hr as [->|Hr]; [reflexivity|]. by destruct (opt_type (un o)).
Qed.

(** In a plain tree. *)
Lemma plain_opt_at c p o : plain c → opt_at c p = Some o → plain_opt o.
Proof.
  intros [_ Po] E. apply plain_opt_mask, (Po p). unfold opt_view. by rewrite E.
Qed.

Lemma plain_scalar c p o :
  plain c → opt_at c p = Some o → opt_type (un o) ≠ TYPE_SEC → opt_type (un o) ≠ TYPE_FUNC → scalar o.
Proof.
  intros Pc E Hs Hf. pose proof (plain_opt_at _ _ _ Pc E) as Hp. split; [done|]. split.
  - intros v [k Hk]%list_elem_of_lookup. destruct Pc as [_ Po].
    destruct (Po p (mask o)) as [_ Hn]; [unfold opt_view; by rewrite E|].
    assert (type_is (opt_type (un (mask o))) TYPE_SEC = false) as Ht.
    { destruct o as [o]. by apply bool_decide_eq_false. }
    rewrite Ht in Hn. specialize (Hn k). destruct p as [p i]. cbn [fst snd] in Hn.
    unfold opt_at in E. cbn [fst snd] in E. unfold sec_view in Hn. rewrite section_at_app in Hn.
    destruct (section_at c p) as [s|]; [|done]. cbn [mbind option_bind] in *.
    rewrite section_at_cons in Hn. unfold child in Hn. rewrite E in Hn. cbn in Hn. rewrite Hk in Hn. cbn in Hn.
    by destruct (value_section v).
  - destruct Hp as (_ & _ & _ & _ & _ & Ht). by destruct (opt_type (un o)).
Qed.

(** The option at [p] becomes [o], and nothing else changes. *)
Definition changed (p : opt_path) (o : cfg_opt_t) (c c' : cfg_t) : Prop :=
  opt_at c' p = Some o ∧
  (∀ q, opt_view c' q = if bool_decide (q = p) then Some (mask o) else opt_view c q) ∧
  (∀ sp, sec_view c' sp = sec_view c sp).

Lemma alter_changed f p c o :
  opt_at c p = Some o → no_sections o → no_sections (f o) → changed p (f o) c (alter_at f p c).
Proof.
  intros E Ho Hf. split; [by apply opt_at_alter_at|]. split.
  - by eapply opt_view_alter_at.
  - by eapply sec_view_alter_at.
Qed.

Lemma changed_refl p o c : opt_at c p = Some o → changed p o c c.
Proof.
  intros E. split; [done|]. split; [|done]. intros q. case_bool_decide; [|done]. subst.
  unfold opt_view. by rewrite E.
Qed.

Lemma changed_trans p o o' c c' c'' : changed p o c c' → changed p o' c' c'' → changed p o' c c''.
Proof.
  intros (_ & H1 & H2) (E & H3 & H4). split; [done|]. split.
  - intros q. rewrite H3, H1. by case_bool_decide.
  - intros sp. by rewrite H4, H2.
Qed.

(** A change of values of an option keeps a tree plain. *)
Lemma plain_changed p o o' c c' :
  plain c → opt_at c p = Some o → static o' = static o → scalar o → plain_opt o' → changed p o' c c' → plain c'.
Proof.
  intros [Ps Po] E Hst (_ & _ & Ht) Hp (_ & H1 & H2).
  split; [intros sp h; rewrite H2; apply Ps|].
  intros q v. rewrite H1. case_bool_decide as Eq.
  - intros [= <-]. subst q. split; [by apply plain_opt_mask|].
    destruct (Po p (mask o)) as [_ Hk]; [unfold opt_view; by rewrite E|].
    assert (opt_type (un (mask o')) = opt_type (un (mask o))) as ->.
    { apply static_same. rewrite !static_mask. done. }
    destruct (type_is _ _) eqn:Es.
    + apply bool_decide_eq_true in Es. assert (opt_type (un (mask o)) = opt_type (un o)) as E' by (by destruct o).
      rewrite E' in Es. by rewrite Es in Ht.
    + intros k. rewrite H2. apply Hk.
  - intros Hv. destruct (Po q v Hv) as [? Hk]. split; [done|].
    destruct (type_is _ _); [|intros k; specialize (Hk k)]; by rewrite H2.
Qed.

(** Changing the values of an option with values. *)
Lemma scalar_values vs o :
  scalar o → (∀ v, v ∈ vs → value_section v = None) → (is_list o = true ∨ length vs ≤ 1) →
  scalar (with_values vs o) ∧ static (with_values vs o) = static o.
Proof.
  intros (Hp & Hn & Ht) Hv Hl. split; [|by destruct o].
  split; [|split; [exact Hv|by destruct o]].
  destruct o as [o]. unfold plain_opt, is_list in *. cbn in *.
  destruct Hp as (? & ? & ? & ? & ? & Hk). repeat split; try done. by destruct (opt_type o).
Qed.

Lemma scalar_flags f o :
  scalar o → f = set_flag CFGF_RESET ∨ f = clear_flag CFGF_RESET →
  scalar (with_flags f o) ∧ static (with_flags f o) = static o.
Proof.
  intros (Hp & Hn & Ht) Hf.
  assert (∀ g x, apart g CFGF_RESET → is_set g (f x) = is_set g x) as Hg.
  { intros g x Ha. destruct Hf as [-> | ->]; [by apply is_set_set|by apply is_set_clear]. }
  assert (∀ x, clear_flag CFGF_RESET (f x) = clear_flag CFGF_RESET x) as Hc.
  { intros x. destruct Hf as [-> | ->]; unfold clear_flag, set_flag.
    - rewrite Z.land_lor_distr_l. by rewrite Z.lor_0_r.
    - by rewrite <- Z.land_assoc, Z.land_diag. }
  destruct o as [o]. unfold scalar, plain_opt, flag_off in *. cbn in *. rewrite !Hg by done. split.
  - split; [|split]; [|exact Hn|done]. destruct Hp as (? & ? & ? & ? & ? & Hk). repeat split; try done.
    by destruct (opt_type o).
  - unfold static, mask, with_flags, with_values, type_is. cbn. case_bool_decide as E; [by rewrite E in Ht|].
    by rewrite Hc.
Qed.

Lemma is_list_static o : is_list (static o) = is_list o.
Proof.
  unfold is_list, static. transitivity (is_set CFGF_LIST (opt_flags (un (mask o)))); [by destruct (mask o)|].
  by apply mask_flag.
Qed.

Lemma is_list_same o o' : static o' = static o → is_list o' = is_list o.
Proof. intros E. by rewrite <- (is_list_static o'), E, is_list_static. Qed.

Section Parse.
Context {U : Type} `{Host} `{Callbacks U}.

Abbreviation PM := (stM aborted (parser U)).

(** ** Steps of the monad *)

Lemma option_at_eq p (s : parser U) o : opt_at (pcfg s) p = Some o → option_at p s = (s, Ret o).
Proof. intros E. transitivity (s, deref (opt_at (pcfg s) p) : outcome aborted cfg_opt_t); [done|]. by rewrite E. Qed.

Lemma change_opt_eq p f (s : parser U) :
  change_opt p f s = (Parser (plex s) (plog s) (alter_at f p (pcfg s)) (puser s), Ret tt).
Proof. done. Qed.

(** The values before a new one: of a list that is not reset. *)
Definition kept (o : cfg_opt_t) : list cfg_value_t :=
  if is_list o then (if resets o then [] else opt_values (un o)) else [].

Lemma free_scalar p o (s : parser U) :
  opt_at (pcfg s) p = Some o → scalar o → resets o = true →
  ∃ c, free_opt_values p s = (Parser (plex s) (plog s) c (puser s), Ret tt) ∧
    changed p (with_values [] o) (pcfg s) c.
Proof.
  intros E Ho Hr. assert (no_sections (with_values [] o)) as Hv by (by intros v ?%elem_of_nil).
  exists (alter_at cfg_free_value p (pcfg s)). unfold free_opt_values.
  rewrite (stM_bind_Ret _ _ _ _ _ (option_at_eq _ _ _ E)). split.
  - unfold set_lexer, modify. cbn. unfold free_values, type_is.
    rewrite bool_decide_false by (destruct Ho as (_ & _ & Ht); by intros Es; rewrite Es in Ht).
    by destruct s.
  - assert (cfg_free_value o = with_values [] o) as <-.
    { unfold cfg_free_value. unfold resets in Hr. by rewrite Hr. }
    apply alter_changed; [done|apply Ho|].
    unfold cfg_free_value. unfold resets in Hr. rewrite Hr. exact Hv.
Qed.

(** What a reset leaves before a value is set. *)
Lemma reset_scalar p o (s : parser U) :
  opt_at (pcfg s) p = Some o → scalar o →
  ∃ c o', (when (is_set CFGF_RESET (opt_flags (un o)))
        (free_opt_values p;; change_opt p (with_flags (clear_flag CFGF_RESET)))) s
      = (Parser (plex s) (plog s) c (puser s), Ret tt) ∧
    changed p o' (pcfg s) c ∧ scalar o' ∧ static o' = static o ∧ resets o' = false ∧
    opt_values (un o') = if resets o then [] else opt_values (un o).
Proof.
  intros E Ho. destruct (resets o) eqn:Hr; unfold resets in Hr; rewrite Hr; cbn.
  - destruct (free_scalar p o s E Ho Hr) as (c & Ef & Hc).
    destruct (scalar_values [] o Ho) as [H1 S1]; [by intros v ?%elem_of_nil|right; cbn; lia|].
    destruct (scalar_flags (clear_flag CFGF_RESET) _ H1) as [H2 S2]; [by right|].
    exists (alter_at (with_flags (clear_flag CFGF_RESET)) p c), (with_flags (clear_flag CFGF_RESET) (with_values [] o)).
    rewrite (stM_bind_Ret _ _ _ _ _ Ef), change_opt_eq. split; [done|]. split_and!.
    + eapply changed_trans; [exact Hc|]. apply alter_changed; [apply Hc|apply H1|apply H2].
    + done.
    + by rewrite S2.
    + destruct o as [o]. apply reset_off.
    + by destruct o.
  - exists (pcfg s), o. split; [by destruct s|]. split_and!; try done. by apply changed_refl.
Qed.

(** The place of a new value. *)
Lemma setopt_place_scalar p v o (s : parser U) :
  opt_at (pcfg s) p = Some o → scalar o →
  ∃ k o' c, setopt_place p v s = (Parser (plex s) (plog s) c (puser s), Ret (Some (Nth k))) ∧
    changed p o' (pcfg s) c ∧ scalar o' ∧ static o' = static o ∧ resets o' = false ∧
    ∀ x, opt_values (un (alter_value (fun _ => x) k o')) = kept o ++ [x].
Proof.
  intros E Ho. destruct (reset_scalar p o s E Ho) as (c & o' & Er & Hc & Ho' & So & Hr & Hv).
  set (s' := Parser (plex s) (plog s) c (puser s)) in *.
  assert (opt_at (pcfg s') p = Some o') as E' by apply Hc.
  assert (is_list o' = is_list o ∧ opt_type (un o') = opt_type (un o)) as [Hl Hty].
  { split; [by apply is_list_same|by apply static_same in So as (_ & ? & _)]. }
  pose proof Ho as (Hp & Hno & Ht). pose proof Ho' as (Hp' & Hno' & Ht').
  assert (simple_value (un o) = None) as Hsim by apply Hp.
  assert (is_set CFGF_MULTI (opt_flags (un o')) = false) as Hm by apply Hp'.
  unfold setopt_place. rewrite (stM_bind_Ret _ _ _ _ _ (option_at_eq _ _ _ E)), Hsim.
  rewrite (stM_bind_Ret _ _ _ _ _ Er), (stM_bind_Ret _ _ _ _ _ (option_at_eq p s' o' E')).
  rewrite (stM_bind_Ret _ _ s' s' (pcfg s') eq_refl). cbn zeta.
  change (is_set CFGF_LIST (opt_flags (un o'))) with (is_list o'). rewrite Hm, Hl, orb_false_r.
  assert (type_is (opt_type (un o')) TYPE_SEC = false) as -> by (rewrite Hty; by destruct (opt_type (un o))).
  cbn [andb]. set (vs := opt_values (un o')) in *.
  destruct ((length vs =? 0) || is_list o) eqn:Eadd.
  - assert (length vs = 0 ∨ is_list o = true) as Ha by (reflect_bool; by destruct Eadd; [left; apply Nat.eqb_eq|right]).
    destruct (scalar_values (vs ++ [VZero]) o' Ho') as [H1 S1].
    { intros v' [Hin|Hin%list_elem_of_singleton]%elem_of_app; [by apply Hno'|by subst]. }
    { rewrite Hl, length_app. cbn. destruct Ha as [-> | ->]; [right; lia|by left]. }
    exists (length vs), (cfg_addval o'), (alter_at cfg_addval p c).
    rewrite (stM_bind_Ret _ _ _ _ _ (change_opt_eq _ _ _)). split; [done|]. split_and!.
    + eapply changed_trans; [exact Hc|]. apply alter_changed; [done|apply Ho'|apply H1].
    + apply H1.
    + exact (eq_trans S1 So).
    + by destruct o'.
    + intros x. unfold cfg_addval, alter_value. rewrite !un_with_values. cbn [opt_values]. fold vs.
      assert (alter (fun _ => x) (length vs) (vs ++ [VZero]) = vs ++ [x]) as ->.
      { clear. induction vs as [|v vs IH]; [done|]. cbn. f_equal. apply IH. }
      f_equal. unfold kept. destruct (is_list o) eqn:El; [done|].
      destruct Ha as [Ha|Ha]; [by destruct vs|done].
  - apply orb_false_iff in Eadd as [En El]. apply Nat.eqb_neq in En.
    exists 0, o', c. split; [done|]. split_and!; try done.
    intros x. unfold kept. rewrite El. unfold alter_value. rewrite un_with_values. cbn [opt_values app].
    destruct Hp' as (_ & _ & _ & _ & _ & Hk). fold vs in Hk. change (is_set CFGF_LIST (opt_flags (un o'))) with (is_list o') in Hk.
    assert (length vs ≤ 1) as Hlen.
    { rewrite Hl, El in Hk. destruct (opt_type (un o')); try done; by destruct Hk. }
    fold vs. destruct vs as [|v1 [|v2 vs]]; cbn in *; [done|done|lia].
Qed.

(** ** Messages *)

(** The functions of the user that fail report it. *)
Definition reports : Prop :=
  ∀ n args u u' ms ret, call_user n args u = (u', ms, ret) → ret ≠ 0%Z → ms ≠ [].

(** A failure has a message. *)
Definition says (g g' : log) : Prop := ∃ ms, messages g' = messages g ++ ms ∧ (reports → ms ≠ []).

Lemma logs_says g g' : logs true g g' → says g g'.
Proof. intros [_ (ms & E & Hm)]. exists ms. auto. Qed.

Lemma logs_says_trans b g g' g'' : logs b g g' → says g' g'' → says g g''.
Proof.
  intros [_ (ms & E & _)] (ms' & E' & Hm). exists (ms ++ ms'). rewrite E', E, app_assoc. split; [done|].
  intros R. specialize (Hm R). by destruct ms, ms'.
Qed.

(** ** [cfg_setopt] on a value *)

Lemma value_of_text_plain o text x : value_of_text o text = Some x → value_section x = None.
Proof.
  unfold value_of_text. destruct (opt_type (un o)); try done.
  - destruct (strtol _) as [[i rest] range]. case_match; [|done]. by intros [= <-].
  - by intros [= <-].
  - destruct (cfg_parse_boolean _ _) as [g []]; try done. case_match; [done|]. by intros [= <-].
Qed.

(** What is left of [cfg_setopt] once there is a place. *)
Definition set_at (init : PM unit) (p : opt_path) (pl : place) (value : option str) : PM (option place) :=
  o ← option_at p;
  match opt_type (un o) with
  | TYPE_INT => set_int p pl value
  | TYPE_FLOAT => lift Undef
  | TYPE_STR => set_str p pl value
  | TYPE_SEC => set_sec init p pl value
  | TYPE_BOOL => set_bool p pl value
  | TYPE_PTR => set_ptr p pl value
  | TYPE_NONE | TYPE_FUNC | TYPE_COMMENT =>
      error_message (#"internal error in cfg_setopt(" ++ opt_name (un o) ++ #", "
                     ++ default #"NULL" value ++ #")");;
      mret None
  end.

Lemma parse_boolean_log text g :
  ∃ b, cfg_parse_boolean (Some text) g = (g, Ret b) ∧ cfg_parse_boolean (Some text) fresh_log = (fresh_log, Ret b).
Proof. unfold cfg_parse_boolean. repeat case_match; eauto. Qed.

Lemma set_at_scalar init p pl o text (s : parser U) :
  opt_at (pcfg s) p = Some o → scalar o → errno (plog s) ≠ ERANGE →
  match value_of_text o text with
  | Some x => set_at init p pl (Some text) s
      = (Parser (plex s) (plog s) (alter_at (write pl x) p (pcfg s)) (puser s), Ret (Some pl))
  | None => ∃ s', set_at init p pl (Some text) s = (s', Ret None) ∧ says (plog s) (plog s')
  end.
Proof.
  intros E Ho He. pose proof Ho as (Hp & _ & Ht). assert (parsecb (un o) = None) as Hcb by apply Hp.
  unfold set_at. rewrite (stM_bind_Ret _ _ _ _ _ (option_at_eq _ _ _ E)). unfold value_of_text.
  destruct (opt_type (un o)); try done.
  - unfold set_int. rewrite (stM_bind_Ret _ _ _ _ _ (option_at_eq _ _ _ E)), Hcb.
    destruct (strtol (c_str text)) as [[i rest] range].
    set (s' := Parser (plex s) (if range then set_errno ERANGE (plog s) else plog s) (pcfg s) (puser s)).
    rewrite (stM_bind_Ret _ _ s s' tt) by (by destruct range; destruct s).
    rewrite (stM_bind_Ret _ _ s' s' s' eq_refl). case_bool_decide; cbn [negb andb].
    + destruct range; cbn [negb].
      * eexists. split; [done|]. by eexists [_].
      * apply Z.eqb_neq in He. cbn. by rewrite He.
    + eexists. split; [done|]. by destruct range; eexists [_].
  - unfold set_str. by rewrite (stM_bind_Ret _ _ _ _ _ (option_at_eq _ _ _ E)), Hcb.
  - unfold set_bool. rewrite (stM_bind_Ret _ _ _ _ _ (option_at_eq _ _ _ E)), Hcb.
    destruct (parse_boolean_log text (plog s)) as (b & Eb & ->).
    rewrite (stM_bind_Ret _ _ s s b) by (unfold reading; rewrite Eb; by destruct s).
    destruct (b =? -1)%Z; [|done]. eexists. split; [done|]. apply logs_says. exact (logs_report _ _).
Qed.

Lemma value_of_text_static o o' text : static o' = static o → value_of_text o' text = value_of_text o text.
Proof. intros (_ & E & _)%static_same. unfold value_of_text. by rewrite E. Qed.

Lemma setopt_scalar init p o text (s : parser U) :
  opt_at (pcfg s) p = Some o → scalar o → errno (plog s) ≠ ERANGE →
  match value_of_text o text with
  | Some x => ∃ pl o' c, setopt init p (Some text) s = (Parser (plex s) (plog s) c (puser s), Ret (Some pl)) ∧
      changed p o' (pcfg s) c ∧ scalar o' ∧ static o' = static o ∧ resets o' = false ∧
      opt_values (un o') = kept o ++ [x]
  | None => ∃ s', setopt init p (Some text) s = (s', Ret None) ∧ says (plog s) (plog s')
  end.
Proof.
  intros E Ho He. destruct (setopt_place_scalar p (Some text) o s E Ho) as (k & o' & c & Ep & Hc & Ho' & So & Hr & Hv).
  set (s' := Parser (plex s) (plog s) c (puser s)) in *.
  assert (setopt init p (Some text) s = set_at init p (Nth k) (Some text) s') as ->.
  { unfold setopt. rewrite (stM_bind_Ret _ _ _ _ _ Ep). reflexivity. }
  pose proof (set_at_scalar init p (Nth k) o' text s' (proj1 Hc) Ho' He) as Hs.
  rewrite (value_of_text_static _ _ _ So) in Hs. destruct (value_of_text o text) as [x|] eqn:Ex; [|done].
  assert (scalar (alter_value (fun _ => x) k o') ∧ static (alter_value (fun _ => x) k o') = static o') as [H1 S1].
  { specialize (Hv x). unfold alter_value in *. rewrite un_with_values in Hv. cbn [opt_values] in Hv.
    rewrite Hv. apply scalar_values; [done| |].
    - intros v [Hin|Hin%list_elem_of_singleton]%elem_of_app.
      + unfold kept in Hin. destruct (is_list o); [|by apply elem_of_nil in Hin].
        destruct (resets o); [by apply elem_of_nil in Hin|]. by apply Ho.
      + subst. by eapply value_of_text_plain.
    - rewrite (is_list_same _ _ So). unfold kept. destruct (is_list o); [by left|right; cbn; lia]. }
  exists (Nth k), (alter_value (fun _ => x) k o'), (alter_at (write (Nth k) x) p c).
  split; [exact Hs|]. split_and!.
  - eapply changed_trans; [exact Hc|]. apply (alter_changed (write (Nth k) x)); [apply Hc|apply Ho'|apply H1].
  - done.
  - by rewrite S1.
  - by destruct o'.
  - apply Hv.
Qed.
End Parse.
