(* ===== verification/ConfuseTurns.v ===== *)
(** * Turns of the parser of libconfuse

    One token at a time: the values of an option, a list, an assignment and the
    arguments of a function, as the grammar has them. *)
From S2P Require Import Prelude.
From S2P Require Import CLib.
From S2P Require Import ConfuseScanner.
From S2P Require Import ConfuseRules.
From S2P Require Import ConfuseLexer.
From S2P Require Import ConfuseLexerSpec.
From S2P Require Import ConfuseFiles.
From S2P Require Import ConfuseData.
From S2P Require Import ConfuseTree.
From S2P Require Import Confuse.
From S2P Require Import ConfuseGrammar.
From S2P Require Import ConfuseLookup.
From S2P Require Import ConfuseParse.

(** The local variables while the option at [p] is read. *)
Abbreviation at_opt n p ig nv := (Locals n None None (Some p) [] ig nv).

(** The local variables while the arguments of a function are read. *)
Abbreviation in_call n p args ig nv := (Locals n None None (Some p) args ig nv).

Section Turns.
Context {U : Type} `{Host} `{Callbacks U}.

Abbreviation PM := (stM aborted (parser U)).

(** ** Tokens *)

(** The tokens to come. *)
Definition ready (s : parser U) (toks : list tok) : Prop := single_file (plex s) ∧ tokens (plex s) = toks.

(** The lexer moves the position and may report. *)
Definition moved (s s' : parser U) : Prop :=
  (∃ pos, pcfg s' = with_pos pos (pcfg s)) ∧ puser s' = puser s ∧ logs false (plog s) (plog s').

Lemma lexing_step s toks :
  ready s toks →
  ∃ t r s', toks = t :: r ∧ lexing cfg_yylex s = (s', Ret (fst t)) ∧ moved s s' ∧
    (fst t = CFGT_STR → is_Some (snd t)) ∧ yylval s' = (s', Ret (snd t)) ∧
    (fst t = tok_error → says (plog s) (plog s')) ∧
    (fst t = EOF → ready s' toks) ∧ (stops (fst t) = false → ready s' r).
Proof.
  intros [Hs <-]. destruct (tokens_step _ Hs) as (l' & tok & E & Hs' & _ & -> & He).
  destruct (yylex_lex (Scan (plex s) (sec_pos (pcfg s)) (plog s)) Hs)
    as (l & tok' & p & g & ms & E1 & E2 & _ & _ & Hg & Hm & Ht).
  cbn [s_lexer] in E1. rewrite E in E1. injection E1 as <- <-.
  eexists _, _, (Parser l' g (with_pos p (pcfg s)) (puser s)). split; [done|].
  unfold lexing. rewrite E2. cbn. split_and!; try done.
  - split_and!; [by eexists|done|]. split; [cbn in *; congruence|]. by exists ms.
  - intros ->. exact (lex_value _ _ E).
  - intros Hk. exists ms. auto.
  - intros ->. split; [done|]. cbn [plex]. destruct (tokens_step _ Hs') as (l2 & tok2 & E3 & _ & _ & -> & _).
    rewrite (He eq_refl) in E3. by injection E3 as <- <-.
  - intros Hst. rewrite Hst. by split.
Qed.

(** ** The loop *)

Abbreviation result := (parser U * outcome aborted Z)%type.

(** What a turn leads to. *)
Definition finish (fuel level : nat) (m : PM turn) : PM Z :=
  r ← m;
  match r with
  | Again x => parse_loop fuel level (-1) x
  | Return rc => mret rc
  | Error => mret STATE_ERROR
  end.

(** The parser fails with a message. *)
Definition wrong (s : parser U) (res : result) : Prop :=
  ∃ s', res = (s', Ret STATE_ERROR) ∧ says (plog s) (plog s').

Lemma wrong_after s s' res : logs false (plog s) (plog s') → wrong s' res → wrong s res.
Proof. intros L (s2 & -> & Hs). exists s2. split; [done|]. by eapply logs_says_trans. Qed.

Definition token_turn (fuel level : nat) (t : tok) (x : locals) : PM turn :=
  parse_token (setopt (init_defaults fuel))
    (fun level force_state force_opt => parse_loop fuel level force_state (start_locals force_state force_opt))
    level (-1) (fst t) x.

(** The next turn of the parser. *)
Lemma next_turn fuel level x s toks :
  ready s toks → length toks < fuel →
  ∃ t r f s', toks = t :: r ∧ fuel = S f ∧ length r < f ∧ moved s s' ∧
    if stops (fst t)
    then if (fst t =? EOF)%Z && (state x =? 0)%Z
         then ready s' toks ∧ parse_loop fuel level (-1) x s = finish f level (handle_deprecated x;; mret (Return STATE_EOF)) s'
         else wrong s (parse_loop fuel level (-1) x s)
    else ready s' r ∧ (fst t = CFGT_STR → is_Some (snd t)) ∧ yylval s' = (s', Ret (snd t)) ∧
         parse_loop fuel level (-1) x s = finish f level (token_turn f level t x) s'.
Proof.
  intros Hr Hf. destruct (lexing_step s toks Hr) as (t & r & s' & -> & E & Hm & Hv & Hy & Hk & He & Hn).
  destruct fuel as [|f]; [lia|]. cbn [length] in Hf.
  exists t, r, f, s'. split; [done|]. split; [done|]. split; [lia|]. split; [done|].
  cbn [parse_loop]. unfold parse_turn, wrong. rewrite stM_bind_eq, (stM_bind_Ret _ _ _ _ _ E).
  unfold stops in *. destruct (fst t =? tok_error)%Z eqn:Ek.
  - apply Z.eqb_eq in Ek. rewrite Ek in *. cbn. exists s'. split; [done|]. by apply Hk.
  - destruct (fst t =? EOF)%Z eqn:Ee; cbn [orb andb].
    + apply Z.eqb_eq in Ee. destruct (state x =? 0)%Z eqn:Es; cbn [negb].
      * split; [by apply He|]. done.
      * eexists. split; [done|]. apply (logs_says_trans false _ (plog s')); [apply Hm|]. by eexists [_].
    + split; [by apply Hn|]. done.
Qed.

Lemma finish_error fuel level m s s1 s' :
  logs false (plog s1) (plog s) → m s = (s', Ret Error) → says (plog s) (plog s') → wrong s1 (finish fuel level m s).
Proof.
  intros L E Hs. exists s'. split; [unfold finish; by rewrite (stM_bind_Ret _ _ _ _ _ E)|]. by eapply logs_says_trans.
Qed.

Lemma finish_again fuel level m s s' x :
  m s = (s', Ret (Again x)) → finish fuel level m s = parse_loop fuel level (-1) x s'.
Proof. intros E. unfold finish. by rewrite (stM_bind_Ret _ _ _ _ _ E). Qed.

(** A turn that reports an error. *)
Lemma error_turn m (s : parser U) :
  ∃ s', (error_message m;; mret Error : PM turn) s = (s', Ret Error) ∧ says (plog s) (plog s').
Proof. eexists. split; [done|]. by exists [m]. Qed.

Lemma unexpected_turn (s : parser U) :
  ∃ s', (unexpected_token;; mret Error : PM turn) s = (s', Ret Error) ∧ says (plog s) (plog s').
Proof. eexists. split; [done|]. by eexists [_]. Qed.

(** ** Values *)

Lemma section_at_pos pos c p : p ≠ [] → section_at (with_pos pos c) p = section_at c p.
Proof. by destruct p as [|[i k] p]. Qed.

Lemma opt_at_pos pos c q : opt_at (with_pos pos c) q = opt_at c q.
Proof. destruct q as [[|x p] i]; [done|]. unfold opt_at. by rewrite section_at_pos. Qed.

Lemma opt_view_pos pos c q : opt_view (with_pos pos c) q = opt_view c q.
Proof. unfold opt_view. by rewrite opt_at_pos. Qed.

Lemma sec_view_pos pos c p : sec_view (with_pos pos c) p = sec_view c p.
Proof. destruct p as [|x p]; [done|]. unfold sec_view. by rewrite section_at_pos. Qed.

(** The option at [p] becomes [o]. *)
Definition writes (p : opt_path) (o : cfg_opt_t) (s s' : parser U) : Prop :=
  changed p o (pcfg s) (pcfg s') ∧ logs false (plog s) (plog s') ∧ puser s' = puser s.

Lemma writes_at p o s s' : writes p o s s' → opt_at (pcfg s') p = Some o.
Proof. by intros [[E _] _]. Qed.

Lemma writes_trans p o o' s s' s'' : writes p o s s' → writes p o' s' s'' → writes p o' s s''.
Proof.
  intros (H1 & H2 & H3) (H4 & H5 & H6). split_and!; [|exact (logs_trans _ _ _ _ _ H2 H5)|congruence].
  by eapply changed_trans.
Qed.

Lemma moved_writes p o s s' : opt_at (pcfg s) p = Some o → moved s s' → writes p o s s'.
Proof.
  intros E ([pos Hp] & Hu & L). split_and!; [|done|done]. rewrite Hp.
  destruct (changed_refl p o _ E) as (H1 & H2 & H3).
  split_and!; [by rewrite opt_at_pos|intros; rewrite opt_view_pos; apply H2|intros; apply sec_view_pos].
Qed.

Lemma moved_opt p s s' : moved s s' → opt_at (pcfg s') p = opt_at (pcfg s) p.
Proof. intros ([pos ->] & _). apply opt_at_pos. Qed.

Lemma logs_range b g g' : logs b g g' → errno g ≠ ERANGE → errno g' ≠ ERANGE.
Proof. by intros []. Qed.

Lemma refused_plain n p ig nv o (s : parser U) :
  opt_at (pcfg s) p = Some o → plain_opt o → refused (at_opt n p ig nv) s = (s, Ret false).
Proof.
  intros E (_ & _ & Hv & _). unfold refused. cbn [opt_ptr].
  rewrite (stM_bind_Ret _ _ _ _ _ (option_at_eq _ _ _ E)). by rewrite Hv.
Qed.

Lemma opt_flag_at n p ig nv o f (s : parser U) :
  opt_at (pcfg s) p = Some o → opt_flag (at_opt n p ig nv) f s = (s, Ret (is_set f (opt_flags (un o)))).
Proof. intros E. unfold opt_flag. cbn [opt_ptr]. by rewrite (stM_bind_Ret _ _ _ _ _ (option_at_eq _ _ _ E)). Qed.

(** What is there after a value of the option. *)
Definition stores (p : opt_path) (o : cfg_opt_t) (v : cfg_value_t) (s s' : parser U) : Prop :=
  ∃ o', plex s' = plex s ∧ writes p o' s s' ∧ scalar o' ∧ static o' = static o ∧ resets o' = false ∧
    opt_values (un o') = kept o ++ [v].

(** A value in the state 2. *)
Lemma value_turn init p o text ig nv (s : parser U) :
  opt_at (pcfg s) p = Some o → scalar o → errno (plog s) ≠ ERANGE → yylval s = (s, Ret (Some text)) →
  match value_of_text o text with
  | Some v => ∃ s', stores p o v s s' ∧ expect_value (setopt init) CFGT_STR (at_opt 2 p ig nv) s
      = (s', Ret (Again (if is_list o then at_opt 4 p ig (S nv) else at_opt 0 p ig nv)))
  | None => ∃ s', expect_value (setopt init) CFGT_STR (at_opt 2 p ig nv) s = (s', Ret Error) ∧ says (plog s) (plog s')
  end.
Proof.
  intros E Ho He Hy. unfold expect_value.
  rewrite (stM_bind_Ret _ _ _ _ _ (opt_flag_at 2 p ig nv o CFGF_LIST s E)).
  rewrite (stM_bind_Ret _ _ _ _ _ (opt_flag_at 2 p ig nv o CFGF_RESET s E)).
  change (tok_is CFGT_STR "}") with false. cbn [andb]. rewrite Z.eqb_refl. cbn [negb].
  rewrite (stM_bind_Ret _ _ _ _ _ Hy). cbn [opt_ptr]. rewrite stM_bind_eq.
  pose proof (setopt_scalar init p o text s E Ho He) as Hs. destruct (value_of_text o text) as [v|].
  - destruct Hs as (pl & o' & c & Es & Hc & Ho' & So & Hr & Hv). rewrite (stM_bind_Ret _ _ _ _ _ Es).
    set (s1 := Parser (plex s) (plog s) c (puser s)).
    rewrite (stM_bind_Ret _ _ _ _ _ (refused_plain 2 p ig nv o' s1 (proj1 Hc) (proj1 Ho'))).
    unfold cfg_opt_setcomment. cbn [comment_]. set (s2 := Parser (plex s) (set_errno EINVAL (plog s)) c (puser s)).
    rewrite (stM_bind_Ret _ _ s1 s2 CFG_FAIL) by done. cbn [mret stM_mret].
    exists s2. split.
    + exists o'. split_and!; try done. split_and!; try done. by apply logs_errno.
    + change (set_comment None (at_opt 2 p ig nv)) with (at_opt 2 p ig nv).
      rewrite (stM_bind_Ret _ _ _ _ _ (opt_flag_at 2 p ig nv o' CFGF_LIST s2 (proj1 Hc))).
      change (is_set CFGF_LIST (opt_flags (un o'))) with (is_list o'). rewrite (is_list_same _ _ So).
      by destruct (is_list o).
  - destruct Hs as (s' & Es & Hs). rewrite (stM_bind_Ret _ _ _ _ _ Es). by exists s'.
Qed.

(** A list of one value, without braces. *)
Lemma single_turn init p o text ig nv (s : parser U) :
  opt_at (pcfg s) p = Some o → scalar o → errno (plog s) ≠ ERANGE → yylval s = (s, Ret (Some text)) →
  match value_of_text o text with
  | Some v => ∃ s', stores p o v s s' ∧
      expect_list (setopt init) CFGT_STR (at_opt 3 p ig nv) s = (s', Ret (Again (at_opt 0 p ig (S nv))))
  | None => ∃ s', expect_list (setopt init) CFGT_STR (at_opt 3 p ig nv) s = (s', Ret Error) ∧ says (plog s) (plog s')
  end.
Proof.
  intros E Ho He Hy. unfold expect_list. change (tok_is CFGT_STR "{") with false. rewrite Z.eqb_refl. cbn [negb].
  rewrite (stM_bind_Ret _ _ _ _ _ Hy). cbn [opt_ptr].
  pose proof (setopt_scalar init p o text s E Ho He) as Hs. destruct (value_of_text o text) as [v|].
  - destruct Hs as (pl & o' & c & Es & Hc & Ho' & So & Hr & Hv). rewrite (stM_bind_Ret _ _ _ _ _ Es).
    set (s1 := Parser (plex s) (plog s) c (puser s)).
    rewrite (stM_bind_Ret _ _ _ _ _ (refused_plain 3 p ig nv o' s1 (proj1 Hc) (proj1 Ho'))).
    exists s1. split; [|done]. exists o'. split_and!; try done. split_and!; try done. apply logs_refl.
  - destruct Hs as (s' & Es & Hs). rewrite (stM_bind_Ret _ _ _ _ _ Es). by exists s'.
Qed.

(** ** Lists *)

(** The parser comes to the next statement with [vs] in the option. *)
Definition comes_to (level : nat) (p : opt_path) (o : cfg_opt_t) (vs : list cfg_value_t) (r : list tok)
    (s : parser U) (res : result) : Prop :=
  ∃ f ig nv s' o', res = parse_loop f level (-1) (at_opt 0 p ig nv) s' ∧ length r < f ∧ ready s' r ∧
    writes p o' s s' ∧ scalar o' ∧ static o' = static o ∧ opt_values (un o') = vs.

Lemma comes_to_after level p o o1 vs r s s1 res :
  writes p o1 s s1 → static o1 = static o → comes_to level p o1 vs r s1 res → comes_to level p o vs r s res.
Proof.
  intros W So (f & ig & nv & s' & o' & -> & Hf & Hr & W' & Ho' & So' & Hv).
  exists f, ig, nv, s', o'. split_and!; try done; [by eapply writes_trans|congruence].
Qed.

Lemma stops_is tk :
  stops tk = true → (tk =? CFGT_STR)%Z = false ∧ ∀ c, ord c ≠ 0%Z → tok_is tk c = false.
Proof.
  unfold stops, tok_is, EOF, tok_error, CFGT_STR. intros Hs.
  apply orb_true_iff in Hs as [Hs|Hs]; apply Z.eqb_eq in Hs; subst; (split; [done|]);
    intros c Hc; pose proof (ord_range c); apply Z.eqb_neq; lia.
Qed.

Lemma stops_list o t r : stops (fst t) = true → list_items o (t :: r) = None.
Proof. intros [E1 E2]%stops_is. cbn. unfold text_item. by rewrite E1, E2. Qed.

(** The end of a list. *)
Lemma brace_turn init p o ig nv (s : parser U) :
  opt_at (pcfg s) p = Some o → scalar o → is_list o = true → nv = 0 ∨ resets o = false →
  ∃ s' o', expect_value (setopt init) (ord "}") (at_opt 2 p ig nv) s = (s', Ret (Again (at_opt 0 p ig nv))) ∧
    plex s' = plex s ∧ writes p o' s s' ∧ scalar o' ∧ static o' = static o ∧
    opt_values (un o') = if resets o then [] else opt_values (un o).
Proof.
  intros E Ho Hl Hn. unfold expect_value.
  rewrite (stM_bind_Ret _ _ _ _ _ (opt_flag_at 2 p ig nv o CFGF_LIST s E)).
  rewrite (stM_bind_Ret _ _ _ _ _ (opt_flag_at 2 p ig nv o CFGF_RESET s E)).
  fold (is_list o) (resets o). rewrite Hl. change (tok_is (ord "}") "}") with true. cbn [andb num_values].
  destruct (resets o) eqn:Hr.
  - destruct Hn as [->|]; [|done]. cbn [Nat.eqb andb]. cbn [the_opt opt_ptr].
    destruct (free_scalar p o s E Ho Hr) as (c & Ef & Hc).
    destruct (scalar_values [] o Ho) as [H1 S1]; [by intros v ?%elem_of_nil|right; cbn; lia|].
    set (s' := Parser (plex s) (plog s) c (puser s)) in *. exists s', (with_values [] o).
    rewrite (stM_bind_Ret _ _ s s' tt) by exact Ef. split_and!; try done. split_and!; [done|apply logs_refl|done].
  - rewrite andb_false_r. exists s, o. split_and!; try done. split_and!; [by apply changed_refl|apply logs_refl|done].
Qed.

Lemma text_item_static o o' t : static o' = static o → text_item o' t = text_item o t.
Proof.
  intros So. unfold text_item. destruct (_ =? _)%Z; [|done]. destruct (snd t) as [text|]; [|done].
  by apply value_of_text_static.
Qed.

Lemma list_items_static o o' toks : static o' = static o → list_items o' toks = list_items o toks.
Proof.
  intros So. induction toks as [toks IH] using (induction_ltof1 _ length). unfold ltof in IH.
  destruct toks as [|t [|t' r]]; cbn [list_items]; rewrite ?(text_item_static _ _ _ So); [done..|].
  rewrite IH by (cbn; lia). done.
Qed.

Lemma token_str (t : tok) : fst t = CFGT_STR → is_Some (snd t) → ∃ text, t = (CFGT_STR, Some text).
Proof. destruct t as [tk v]. cbn. intros -> [text ->]. by exists text. Qed.

Lemma tok_is_eq tk c : tok_is tk c = true → tk = ord c.
Proof. apply Z.eqb_eq. Qed.

Lemma kept_list o : is_list o = true → kept o = if resets o then [] else opt_values (un o).
Proof. unfold kept. by intros ->. Qed.

Lemma stores_ready p o v s s' toks : ready s toks → stores p o v s s' → ready s' toks.
Proof. unfold ready. by intros ? (? & -> & _). Qed.

Lemma list_run k level p ig : ∀ fuel toks s o nv,
  length toks ≤ k → ready s toks → length toks < fuel → opt_at (pcfg s) p = Some o → scalar o →
  is_list o = true → errno (plog s) ≠ ERANGE → nv = 0 ∨ resets o = false →
  match list_items o toks with
  | Some (vs, r) =>
      comes_to level p o ((if resets o then [] else opt_values (un o)) ++ vs) r s
        (parse_loop fuel level (-1) (at_opt 2 p ig nv) s)
  | None => wrong s (parse_loop fuel level (-1) (at_opt 2 p ig nv) s)
  end.
Proof.
  induction k as [k IH] using lt_wf_ind. intros fuel toks s o nv Hk Hr Hf E Ho Hl He Hn.
  destruct (next_turn fuel level (at_opt 2 p ig nv) s toks Hr Hf) as (t & r & f & s1 & -> & -> & Hf1 & Hm & Ht).
  destruct (stops (fst t)) eqn:Hst.
  { rewrite stops_list by done. cbn [state] in Ht. by rewrite andb_false_r in Ht. }
  destruct Ht as (Hr1 & Hv & Hy & ->). pose proof (moved_writes p o s s1 E Hm) as W1.
  pose proof (writes_at _ _ _ _ W1) as E1. assert (errno (plog s1) ≠ ERANGE) as He1 by (eapply logs_range, He; apply Hm).
  cbn [list_items]. destruct (tok_is (fst t) "}") eqn:Eb.
  { apply tok_is_eq in Eb. destruct (brace_turn (init_defaults f) p o ig nv s1 E1 Ho Hl Hn) as (s2 & o2 & E2 & Hx & W2 & Ho2 & S2 & V2).
    rewrite (finish_again _ _ _ _ s2 (at_opt 0 p ig nv)) by (unfold token_turn; by rewrite Eb).
    exists f, ig, nv, s2, o2. rewrite app_nil_r. split_and!; try done; [|by eapply writes_trans].
    unfold ready. by rewrite Hx. }
  unfold text_item. destruct (fst t =? CFGT_STR)%Z eqn:Es; cycle 1.
  { destruct (unexpected_turn s1) as (s2 & E2 & Hs). eapply finish_error; [apply Hm| |exact Hs].
    unfold token_turn, parse_token. cbn [state]. unfold expect_value.
    rewrite (stM_bind_Ret _ _ _ _ _ (opt_flag_at 2 p ig nv o CFGF_LIST s1 E1)).
    rewrite (stM_bind_Ret _ _ _ _ _ (opt_flag_at 2 p ig nv o CFGF_RESET s1 E1)). by rewrite Eb, Es. }
  apply Z.eqb_eq in Es. destruct (token_str t Es (Hv Es)) as [text ->]. cbn [fst snd mbind option_bind] in *.
  pose proof (value_turn (init_defaults f) p o text ig nv s1 E1 Ho He1 Hy) as Hval.
  destruct (value_of_text o text) as [v|]; cycle 1.
  { destruct Hval as (s2 & E2 & Hs). eapply finish_error; [apply Hm|exact E2|exact Hs]. }
  destruct Hval as (s2 & Hst2 & E2). rewrite Hl in E2. rewrite (finish_again _ _ _ _ _ _ E2).
  pose proof (stores_ready _ _ _ _ _ _ Hr1 Hst2) as Hr2.
  destruct Hst2 as (o2 & _ & W2 & Ho2 & S2 & R2 & V2). rewrite (kept_list _ Hl) in V2.
  pose proof (writes_trans _ _ _ _ _ _ W1 W2) as W12.
  destruct (next_turn f level (at_opt 4 p ig (S nv)) s2 r Hr2 Hf1) as (t3 & r3 & f3 & s3 & -> & -> & Hf3 & Hm3 & Ht3).
  pose proof (moved_writes p o2 s2 s3 (writes_at _ _ _ _ W2) Hm3) as W3.
  pose proof (writes_trans _ _ _ _ _ _ W12 W3) as W13.
  assert (errno (plog s3) ≠ ERANGE) as He3 by (eapply logs_range, He; apply W13).
  destruct (stops (fst t3)) eqn:Hst3.
  { cbn [state] in Ht3. rewrite andb_false_r in Ht3.
    apply stops_is in Hst3 as [_ Hst3]. rewrite !Hst3 by done. eapply wrong_after; [apply W12|done]. }
  destruct Ht3 as (Hr3 & _ & _ & ->). unfold token_turn, parse_token. cbn [state]. unfold expect_separator.
  destruct (tok_is (fst t3) ",") eqn:Ec.
  { rewrite (finish_again _ _ _ _ s3 (at_opt 2 p ig (S nv))) by done.
    specialize (IH (length r3) ltac:(cbn in *; lia) f3 r3 s3 o2 (S nv) ltac:(lia) Hr3 Hf3
      (writes_at _ _ _ _ W3) Ho2 ltac:(by rewrite (is_list_same _ _ S2)) He3 ltac:(by right)).
    rewrite (list_items_static _ _ _ S2) in IH. destruct (list_items o r3) as [[vs r']|]; cbn [mbind option_bind].
    - rewrite R2, V2, <- app_assoc in IH. by eapply comes_to_after.
    - by eapply wrong_after; [apply W13|]. }
  destruct (tok_is (fst t3) "}") eqn:Ec2.
  { rewrite (finish_again _ _ _ _ s3 (at_opt 0 p ig (S nv))).
    - exists f3, ig, (S nv), s3, o2. by split_and!.
    - by rewrite (stM_bind_Ret _ _ _ _ _ (refused_plain 4 p ig (S nv) o2 s3 (writes_at _ _ _ _ W3) (proj1 Ho2))). }
  destruct (unexpected_turn s3) as (s4 & E4 & Hs). eapply finish_error; [apply W13|exact E4|exact Hs].
Qed.

(** ** Assignments *)

Lemma tok_differ tk c c' : c ≠ c' → tok_is tk c = true → tok_is tk c' = false.
Proof.
  intros Hc ->%tok_is_eq. apply Z.eqb_neq. intros E. apply Hc. unfold ord in E. apply (inj Z.of_N) in E. by rewrite <- (ascii_N_embedding c), <- (ascii_N_embedding c'), E.
Qed.

Lemma equal_turn tk p o ig nv (s : parser U) :
  opt_at (pcfg s) p = Some o → scalar o →
  if tok_is tk "+" && is_list o || tok_is tk "=" then
    ∃ s' o', expect_equal tk (at_opt 1 p ig nv) s
        = (s', Ret (Again (if is_list o then at_opt 3 p ig 0 else at_opt 2 p ig nv))) ∧
      plex s' = plex s ∧ writes p o' s s' ∧ scalar o' ∧ static o' = static o ∧
      resets o' = negb (tok_is tk "+") ∧ opt_values (un o') = opt_values (un o)
  else ∃ s', expect_equal tk (at_opt 1 p ig nv) s = (s', Ret Error) ∧ says (plog s) (plog s').
Proof.
  intros E Ho. unfold expect_equal. cbn [opt_ptr]. rewrite (stM_bind_Ret _ _ _ _ _ (option_at_eq _ _ _ E)).
  cbn zeta. fold (is_list o).
  assert (∀ f, f = set_flag CFGF_RESET ∨ f = clear_flag CFGF_RESET →
    ∃ s' o', change_opt p (with_flags f) s = (s', Ret tt) ∧ plex s' = plex s ∧ writes p o' s s' ∧ scalar o' ∧
      static o' = static o ∧ resets o' = is_set CFGF_RESET (f (opt_flags (un o))) ∧
      opt_values (un o') = opt_values (un o)) as Hw.
  { intros f Hf. destruct (scalar_flags f o Ho Hf) as [H1 S1]. eexists _, (with_flags f o).
    rewrite change_opt_eq. split; [done|]. split_and!; try done; destruct o as [o]; try done.
    split_and!; [|apply logs_refl|done]. apply alter_changed; [done|apply Ho|apply H1]. }
  destruct (tok_is tk "+") eqn:Ep.
  - rewrite (tok_differ tk "+" "=") by done. rewrite orb_false_r. destruct (is_list o) eqn:Hl; cbn [andb].
    + destruct (Hw (clear_flag CFGF_RESET)) as (s' & o' & E' & ? & ? & ? & ? & R & ?); [by right|].
      rewrite reset_off in R. exists s', o'. by rewrite (stM_bind_Ret _ _ _ _ _ E').
    + apply error_turn.
  - cbn [andb orb]. destruct (tok_is tk "=").
    + destruct (Hw (set_flag CFGF_RESET)) as (s' & o' & E' & ? & ? & ? & ? & R & ?); [by left|].
      rewrite is_set_here in R. exists s', o'. rewrite (stM_bind_Ret _ _ _ _ _ E'). by destruct (is_list o).
    + apply error_turn.
Qed.

Lemma stores_comes f level p o ig nv v r s s' :
  length r < f → ready s' r → stores p o v s s' →
  comes_to level p o (kept o ++ [v]) r s (parse_loop f level (-1) (at_opt 0 p ig nv) s').
Proof. intros Hf Hr (o' & _ & W & Ho & So & _ & Hv). by exists f, ig, nv, s', o'. Qed.

(** What follows [=] and [+=]. *)
Lemma right_side level p ig nv fuel toks s o :
  ready s toks → length toks < fuel → opt_at (pcfg s) p = Some o → scalar o → errno (plog s) ≠ ERANGE →
  let res := parse_loop fuel level (-1) (if is_list o then at_opt 3 p ig 0 else at_opt 2 p ig nv) s in
  match toks with
  | t :: r =>
      match (if is_list o && tok_is (fst t) "{" then list_items o r else v ← text_item o t; Some ([v], r)) with
      | Some (vs, r) => comes_to level p o (kept o ++ vs) r s res
      | None => wrong s res
      end
  | [] => False
  end.
Proof.
  intros Hr Hf E Ho He. cbn zeta.
  destruct (next_turn fuel level (if is_list o then at_opt 3 p ig 0 else at_opt 2 p ig nv) s toks Hr Hf)
    as (t & r & f & s1 & -> & -> & Hf1 & Hm & Ht).
  pose proof (moved_writes p o s s1 E Hm) as W1. pose proof (writes_at _ _ _ _ W1) as E1.
  assert (errno (plog s1) ≠ ERANGE) as He1 by (eapply logs_range, He; apply Hm).
  destruct (stops (fst t)) eqn:Hst.
  { unfold text_item. apply stops_is in Hst as [-> ->]; [|done]. rewrite andb_false_r. cbn [mbind option_bind].
    destruct (is_list o); cbn [state] in Ht; by rewrite andb_false_r in Ht. }
  destruct Ht as (Hr1 & Hv & Hy & ->). destruct (is_list o && tok_is (fst t) "{") eqn:Eb.
  - apply andb_true_iff in Eb as [Hl Eb]. rewrite Hl. rewrite (finish_again _ _ _ _ s1 (at_opt 2 p ig 0))
      by (unfold token_turn, parse_token; cbn [state]; unfold expect_list; by rewrite Eb).
    pose proof (list_run (length r) level p ig f r s1 o 0 ltac:(done) Hr1 Hf1 E1 Ho Hl He1 ltac:(by left)) as Hl1.
    rewrite <- (kept_list _ Hl) in Hl1. destruct (list_items o r) as [[vs r']|].
    + by eapply comes_to_after.
    + eapply wrong_after; [apply Hm|done].
  - unfold text_item. destruct (fst t =? CFGT_STR)%Z eqn:Es; cycle 1.
    { destruct (unexpected_turn s1) as (s2 & E2 & Hs). cbn [mbind option_bind].
      eapply finish_error; [apply Hm| |exact Hs].
      unfold token_turn, parse_token. destruct (is_list o) eqn:Hl; cbn [state].
      - unfold expect_list. cbn [andb] in Eb. by rewrite Eb, Es.
      - unfold expect_value.
        rewrite (stM_bind_Ret _ _ _ _ _ (opt_flag_at 2 p ig nv o CFGF_LIST s1 E1)).
        rewrite (stM_bind_Ret _ _ _ _ _ (opt_flag_at 2 p ig nv o CFGF_RESET s1 E1)).
        fold (is_list o). by rewrite Hl, andb_false_r, Es. }
    apply Z.eqb_eq in Es. destruct (token_str t Es (Hv Es)) as [text ->]. cbn [fst snd mbind option_bind] in *.
    destruct (is_list o) eqn:Hl.
    + pose proof (single_turn (init_defaults f) p o text ig 0 s1 E1 Ho He1 Hy) as Hval.
      destruct (value_of_text o text) as [v|]; destruct Hval as (s2 & Ha & Hb).
      * rewrite (finish_again _ _ _ _ _ _ Hb). eapply comes_to_after; [done|done|].
        apply stores_comes; [done|by eapply stores_ready|done].
      * eapply finish_error; [apply Hm|exact Ha|exact Hb].
    + pose proof (value_turn (init_defaults f) p o text ig nv s1 E1 Ho He1 Hy) as Hval. rewrite Hl in Hval.
      destruct (value_of_text o text) as [v|]; destruct Hval as (s2 & Ha & Hb).
      * rewrite (finish_again _ _ _ _ _ _ Hb). eapply comes_to_after; [done|done|].
        apply stores_comes; [done|by eapply stores_ready|done].
      * eapply finish_error; [apply Hm|exact Ha|exact Hb].
Qed.

Lemma assignment_cons o op t r :
  assignment o (op :: t :: r) =
  if tok_is (fst op) "+" && is_list o || tok_is (fst op) "=" then
    '(vs, r) ← (if is_list o && tok_is (fst t) "{" then list_items o r else v ← text_item o t; Some ([v], r));
    Some (tok_is (fst op) "+", vs, r)
  else None.
Proof.
  unfold assignment. fold (is_list o). destruct (_ || _); [|done]. cbn [negb].
  destruct (_ && tok_is (fst t) "{"); [done|]. by destruct (text_item o t).
Qed.

Lemma kept_reset o a : resets o = negb a → (a = true → is_list o = true) → kept o = if a then opt_values (un o) else [].
Proof. unfold kept. intros -> Hl. destruct a; cbn; [by rewrite Hl|by destruct (is_list o)]. Qed.

Lemma right_side_static o o' t r :
  static o' = static o →
  (if is_list o' && tok_is (fst t) "{" then list_items o' r else v ← text_item o' t; Some ([v], r)) =
  (if is_list o && tok_is (fst t) "{" then list_items o r else v ← text_item o t; Some ([v], r)).
Proof. intros So. by rewrite (is_list_same _ _ So), (list_items_static _ _ _ So), (text_item_static _ _ _ So). Qed.

Lemma assignment_run level p ig nv fuel toks s o :
  ready s toks → length toks < fuel → opt_at (pcfg s) p = Some o → scalar o → errno (plog s) ≠ ERANGE →
  let res := parse_loop fuel level (-1) (at_opt 1 p ig nv) s in
  match assignment o toks with
  | Some (append, vs, r) => comes_to level p o ((if append then opt_values (un o) else []) ++ vs) r s res
  | None => wrong s res
  end.
Proof.
  intros Hr Hf E Ho He. cbn zeta.
  destruct (next_turn fuel level (at_opt 1 p ig nv) s toks Hr Hf) as (op & r & f & s1 & -> & -> & Hf1 & Hm & Ht).
  pose proof (moved_writes p o s s1 E Hm) as W1. pose proof (writes_at _ _ _ _ W1) as E1.
  destruct (stops (fst op)) eqn:Hst.
  { destruct r as [|t r]; [|rewrite assignment_cons; apply stops_is in Hst as [_ Hst]; rewrite !Hst by done];
      cbn [state] in Ht; by rewrite andb_false_r in Ht. }
  destruct Ht as (Hr1 & _ & _ & ->). unfold token_turn, parse_token. cbn [state].
  pose proof (equal_turn (fst op) p o ig nv s1 E1 Ho) as He1.
  destruct (tok_is (fst op) "+" && is_list o || tok_is (fst op) "=") eqn:Eq; cycle 1.
  { destruct He1 as (s2 & E2 & Hs). destruct r as [|t r]; rewrite ?assignment_cons, ?Eq;
      (eapply finish_error; [apply Hm|exact E2|exact Hs]). }
  destruct He1 as (s2 & o2 & E2 & Hx & W2 & Ho2 & S2 & R2 & V2). rewrite (finish_again _ _ _ _ _ _ E2).
  assert (ready s2 r) as Hr2 by (by unfold ready; rewrite Hx).
  pose proof (writes_trans _ _ _ _ _ _ W1 W2) as W12.
  assert (errno (plog s2) ≠ ERANGE) as He2 by (eapply logs_range, He; apply W12).
  pose proof (right_side level p ig nv f r s2 o2 Hr2 Hf1 (writes_at _ _ _ _ W2) Ho2 He2) as Hs.
  cbn zeta in Hs. destruct r as [|t r]; [done|].
  rewrite (right_side_static _ _ _ _ S2), (is_list_same _ _ S2) in Hs. rewrite assignment_cons, Eq.
  destruct (if is_list o && tok_is (fst t) "{" then list_items o r else _) as [[vs r']|]; cbn [mbind option_bind].
  - rewrite (kept_reset o2 _ R2), V2 in Hs; [by eapply comes_to_after|].
    rewrite (is_list_same _ _ S2). intros Hp. rewrite Hp, (tok_differ _ "+" "=") in Eq by done.
    by rewrite orb_false_r in Eq.
  - eapply wrong_after; [apply W12|done].
Qed.

(** The option that changed, as a statement. *)
Lemma changed_effect p o o' append vs c c' :
  opt_at c p = Some o → scalar o → scalar o' → static o' = static o →
  opt_values (un o') = (if append : bool then opt_values (un o) else []) ++ vs →
  changed p o' c c' → effect [Assign p append vs] c c'.
Proof.
  intros E Ho Ho' So Hv (_ & H1 & H2). split; [|done]. intros q. rewrite H1. case_bool_decide as Eq.
  - subst q. unfold opt_view. rewrite E. cbn. f_equal. unfold update, stored. cbn.
    rewrite bool_decide_true by done.
    assert (∀ o, scalar o → mask o = with_values (opt_values (un o)) (static o)) as Hmask.
    { clear. intros o (_ & Hn & _). unfold static. destruct o as [o]. unfold mask, with_values, with_flags. cbn.
      f_equal. f_equal. rewrite <- (list_fmap_id (opt_values o)) at 2. apply list_fmap_ext.
      intros i v Hi%list_elem_of_lookup_2. apply Hn in Hi. by destruct v. }
    rewrite (Hmask _ Ho'), So, Hv, (Hmask _ Ho). by destruct append.
  - unfold update, stored. cbn. rewrite bool_decide_false by congruence.
    destruct (opt_view c q) as [v|]; [|done]. cbn. by rewrite with_values_id.
Qed.

(** ** Calls *)

Lemma moved_trans s s' s'' : moved s s' → moved s' s'' → moved s s''.
Proof.
  intros ([p Hp] & Hu & L) ([p' E] & Hu' & L'). split_and!; [|congruence|exact (logs_trans _ _ _ _ _ L L')].
  exists p'. by rewrite E, Hp.
Qed.

(** The call of a function of the user. *)
Definition called (n : nat) (args : list str) (s s' : parser U) : Prop :=
  (∃ pos, pcfg s' = with_pos pos (pcfg s)) ∧ logs false (plog s) (plog s') ∧
  fst (fst (call_user n args (puser s))) = puser s'.

(** The parser comes to the next statement after it, or the function fails. *)
Definition call_comes_to (level n : nat) (p : opt_path) (args : list str) (r : list tok) (s : parser U)
    (res : result) : Prop :=
  if (snd (call_user n args (puser s)) =? 0)%Z
  then ∃ f ig nv s', res = parse_loop f level (-1) (at_opt 0 p ig nv) s' ∧ length r < f ∧ ready s' r ∧ called n args s s'
  else wrong s res.

Lemma call_after level n p args r s s1 res :
  moved s s1 → call_comes_to level n p args r s1 res → call_comes_to level n p args r s res.
Proof.
  intros ([pos Hp] & Hu & L). unfold call_comes_to. rewrite Hu.
  destruct (_ =? _)%Z; [|by eapply wrong_after].
  intros (f & ig & nv & s' & -> & Hf & Hr & [pos' Hp'] & L' & Hu'). exists f, ig, nv, s'. split_and!; try done.
  split_and!; [|exact (logs_trans _ _ _ _ _ L L')|by rewrite <- Hu', Hu].
  exists pos'. by rewrite Hp', Hp.
Qed.

Lemma foldl_messages ms g :
  messages (foldl (fun g m => add_message m g) g ms) = messages g ++ ms ∧
  errno (foldl (fun g m => add_message m g) g ms) = errno g.
Proof.
  revert g. induction ms as [|m ms IH]; intros g; cbn; [by rewrite app_nil_r|].
  destruct (IH (add_message m g)) as [-> ->]. cbn. by rewrite <- app_assoc.
Qed.

Lemma finish_call_turn f level p o n args ig nv st (s : parser U) r :
  opt_at (pcfg s) p = Some o → opt_func (un o) = Some (user_func n) → ready s r → length r < f →
  call_comes_to level n p args r s (finish f level (finish_call (in_call st p args ig nv)) s).
Proof.
  intros E Hn Hr Hf. unfold call_comes_to. destruct (call_user n args (puser s)) as [[u ms] ret] eqn:Ec. cbn [snd].
  set (g := foldl (fun g m => add_message m g) (plog s) ms). destruct (foldl_messages ms (plog s)) as [Hm He].
  set (s' := Parser (plex s) g (pcfg s) u).
  assert (call_function p args s = (s', Ret ret)) as Ef.
  { unfold call_function. rewrite (stM_bind_Ret _ _ _ _ _ (option_at_eq _ _ _ E)), Hn.
    rewrite (stM_bind_Ret _ _ s s (user_func n)) by done. by rewrite Ec. }
  destruct (ret =? 0)%Z eqn:Er.
  - rewrite (finish_again _ _ _ _ s' (at_opt 0 p ig nv)).
    + exists f, ig, nv, s'. split_and!; try done. unfold called. rewrite Ec. cbn. split_and!; [|split; [unfold g; congruence|by exists ms]|done].
      exists (sec_pos (pcfg s)). by destruct (pcfg s).
    + unfold finish_call. cbn [opt_ptr funcopt]. rewrite (stM_bind_Ret _ _ _ _ _ Ef), Er. done.
  - eapply (finish_error _ _ _ s s s'); [apply logs_refl| |].
    + unfold finish_call. cbn [opt_ptr funcopt]. by rewrite (stM_bind_Ret _ _ _ _ _ Ef), Er.
    + exists ms. split; [done|]. intros R. apply (R _ _ _ _ _ _ Ec). by apply Z.eqb_neq.
Qed.

Lemma call_syntax_turn x (s : parser U) (o : cfg_opt_t) p :
  opt_ptr x = Some p → opt_at (pcfg s) p = Some o →
  ∃ s', call_syntax x s = (s', Ret Error) ∧ says (plog s) (plog s').
Proof.
  intros Hx E. unfold call_syntax, opt_name_of. rewrite Hx. rewrite stM_bind_eq.
  rewrite (stM_bind_Ret _ _ _ _ _ (option_at_eq _ _ _ E)). cbn [mret stM_mret]. apply error_turn.
Qed.

Lemma arguments_run k level p n ig nv : ∀ fuel toks s o args,
  length toks ≤ k → ready s toks → length toks < fuel → opt_at (pcfg s) p = Some o →
  opt_func (un o) = Some (user_func n) →
  let res := parse_loop fuel level (-1) (in_call 8 p args ig nv) s in
  match arguments toks with
  | Some (more, r) => call_comes_to level n p (args ++ more) r s res
  | None => wrong s res
  end.
Proof.
  induction k as [k IH] using lt_wf_ind. intros fuel toks s o args Hk Hr Hf E Hn. cbn zeta.
  destruct (next_turn fuel level (in_call 8 p args ig nv) s toks Hr Hf) as (t & r & f & s1 & -> & -> & Hf1 & Hm & Ht).
  cbn [arguments]. destruct (stops (fst t)) eqn:Hst.
  { apply stops_is in Hst as [-> ->]; [|done]. cbn [state] in Ht. by rewrite andb_false_r in Ht. }
  destruct Ht as (Hr1 & Hv & Hy & ->). pose proof (moved_opt p _ _ Hm) as E1. rewrite E in E1.
  unfold token_turn, parse_token. cbn [state]. unfold expect_argument.
  destruct (tok_is (fst t) ")") eqn:Eb.
  { eapply call_after; [done|]. rewrite app_nil_r. by eapply finish_call_turn. }
  destruct (fst t =? CFGT_STR)%Z eqn:Es; cycle 1.
  { destruct (call_syntax_turn (in_call 8 p args ig nv) s1 o p eq_refl E1) as (s2 & E2 & Hs).
    eapply finish_error; [apply Hm|exact E2|exact Hs]. }
  apply Z.eqb_eq in Es. destruct (token_str t Es (Hv Es)) as [text ->]. cbn [fst snd mbind option_bind] in *.
  rewrite (finish_again _ _ _ _ s1 (in_call 9 p (args ++ [text]) ig nv))
    by (by rewrite (stM_bind_Ret _ _ _ _ _ Hy)).
  destruct (next_turn f level (in_call 9 p (args ++ [text]) ig nv) s1 r Hr1 Hf1) as (t3 & r3 & f3 & s3 & -> & -> & Hf3 & Hm3 & Ht3).
  pose proof (moved_trans _ _ _ Hm Hm3) as M3. pose proof (moved_opt p _ _ Hm3) as E3. rewrite E1 in E3.
  destruct (stops (fst t3)) eqn:Hst3.
  { apply stops_is in Hst3 as [_ Hst3]. rewrite !Hst3 by done. cbn [state] in Ht3. rewrite andb_false_r in Ht3.
    eapply wrong_after; [apply Hm|done]. }
  destruct Ht3 as (Hr3 & _ & _ & ->). unfold token_turn, parse_token. cbn [state]. unfold expect_comma.
  destruct (tok_is (fst t3) ",") eqn:Ec.
  { rewrite (tok_differ _ "," ")") by done. rewrite (finish_again _ _ _ _ s3 (in_call 8 p (args ++ [text]) ig nv)) by done.
    specialize (IH (length r3) ltac:(cbn in *; lia) f3 r3 s3 o (args ++ [text]) ltac:(lia) Hr3 Hf3 E3 Hn).
    cbn zeta in IH. destruct (arguments r3) as [[more r']|]; cbn [mbind option_bind].
    - rewrite <- app_assoc in IH. by eapply call_after.
    - eapply wrong_after; [apply M3|done]. }
  destruct (tok_is (fst t3) ")") eqn:Ec2.
  { eapply call_after; [exact M3|]. by eapply finish_call_turn. }
  destruct (call_syntax_turn (in_call 9 p (args ++ [text]) ig nv) s3 o p eq_refl E3) as (s4 & E4 & Hs).
  eapply finish_error; [apply M3|exact E4|exact Hs].
Qed.
End Turns.
