(* ===== verification/ConfuseParseSpec.v ===== *)
(** * The parser of libconfuse reads the grammar: sections and files

    The state machine of [cfg_parse_internal], its calls for sections included,
    against the recursive descent of [ConfuseGrammar]. *)
From S2P Require Import Prelude.
From S2P Require Import CLib.
From S2P Require Import ConfuseScanner.
From S2P Require Import ConfuseRules.
From S2P Require Import ConfuseLexer.
From S2P Require Import ConfuseLexerSpec.
From S2P Require Import ConfuseFiles.
From S2P Require Import ConfuseData.
From S2P Require Import ConfuseTree.
From S2P Require Import Confuse.
From S2P Require Import ConfuseGrammar.
From S2P Require Import ConfuseLookup.
From S2P Require Import ConfuseParse.
From S2P Require Import ConfuseTurns.

(** ** What the grammar leaves to read *)

Lemma list_items_length o toks vs r : list_items o toks = Some (vs, r) → length r < length toks.
Proof.
  revert vs r. induction toks as [toks IH] using (induction_ltof1 _ length). unfold ltof in IH. intros vs r.
  destruct toks as [|t toks]; [done|]. cbn [list_items]. destruct (tok_is (fst t) "}").
  { intros [= <- <-]. cbn. lia. }
  destruct (text_item o t) as [v|]; [|done]. cbn [mbind option_bind]. destruct toks as [|t' toks]; [done|].
  destruct (tok_is (fst t') ",").
  - destruct (list_items o toks) as [[vs' r']|] eqn:E; [|done]. cbn. intros [= <- <-].
    apply IH in E; cbn in *; lia.
  - destruct (tok_is (fst t') "}"); [|done]. intros [= <- <-]. cbn. lia.
Qed.

Lemma assignment_length o toks a vs r : assignment o toks = Some (a, vs, r) → length r < length toks.
Proof.
  destruct toks as [|op [|t toks]]; [done|done|]. rewrite assignment_cons. destruct (_ || _); [|done].
  destruct (is_list o && tok_is (fst t) "{").
  - destruct (list_items o toks) as [[vs' r']|] eqn:E; [|done]. cbn. intros [= _ _ <-].
    apply list_items_length in E. cbn. lia.
  - destruct (text_item o t) as [v|]; [|done]. cbn. intros [= _ _ <-]. cbn. lia.
Qed.

Lemma arguments_length toks args r : arguments toks = Some (args, r) → length r < length toks.
Proof.
  revert args r. induction toks as [toks IH] using (induction_ltof1 _ length). unfold ltof in IH. intros args r.
  destruct toks as [|t toks]; [done|]. cbn [arguments]. destruct (tok_is (fst t) ")").
  { intros [= <- <-]. cbn. lia. }
  destruct (fst t =? CFGT_STR)%Z; [|done]. destruct (snd t) as [v|]; [|done]. cbn [mbind option_bind].
  destruct toks as [|t' toks]; [done|]. destruct (tok_is (fst t') ",").
  - destruct (arguments toks) as [[more r']|] eqn:E; [|done]. cbn. intros [= <- <-].
    apply IH in E; cbn in *; lia.
  - destruct (tok_is (fst t') ")"); [|done]. intros [= <- <-]. cbn. lia.
Qed.

(** What follows the name of an option [o] at [p], in a section read by [rec]. *)
Definition statement (rec : cfg_t → list tok → option (list stmt * list tok)) (c : cfg_t) (p : opt_path)
    (o : cfg_opt_t) (toks : list tok) : option (list stmt * list tok) :=
  match opt_type (un o), toks with
  | TYPE_SEC, b :: r =>
      if tok_is (fst b) "{" then
        let inside := fst p ++ [(snd p, 0)] in
        sec ← section_at c inside;
        '(st, r) ← rec sec r;
        Some (map (under inside) st, r)
      else None
  | TYPE_FUNC, b :: r =>
      if tok_is (fst b) "(" then
        '(args, r) ← arguments r;
        match opt_func (un o) with
        | Some (user_func n) => Some ([Call n args], r)
        | _ => None
        end
      else None
  | _, _ => '(append, vs, r) ← assignment o toks; Some ([Assign p append vs], r)
  end.

Lemma items_cons n c level t r :
  items (S n) c level (t :: r) =
  if (fst t =? EOF)%Z then Some ([], t :: r)
  else if tok_is (fst t) "}" then if level =? 0 then None else Some ([], r)
  else if (fst t =? CFGT_COMMENT)%Z then items n c level r
  else if (fst t =? CFGT_STR)%Z then
    name ← snd t;
    p ← resolve c name;
    o ← opt_at c p;
    '(st, r) ← statement (fun sec => items n sec (S level)) c p o r;
    '(st', r) ← items n c level r;
    Some (st ++ st', r)
  else None.
Proof. reflexivity. Qed.

Lemma statement_length rec c p o toks st r :
  (∀ sec toks st r, rec sec toks = Some (st, r) → length r ≤ length toks) →
  statement rec c p o toks = Some (st, r) → length r < length toks.
Proof.
  intros Hrec. unfold statement.
  assert (('(append, vs, r0) ← assignment o toks; Some ([Assign p append vs], r0)) = Some (st, r) →
    length r < length toks) as Ha.
  { destruct (assignment o toks) as [[[a vs] r0]|] eqn:E; [|done]. cbn. intros [= _ <-].
    by apply assignment_length in E. }
  destruct (opt_type (un o)); try exact Ha; destruct toks as [|b toks]; try done.
  - destruct (tok_is _ _); [|done]. destruct (section_at _ _) as [sec|]; [|done]. cbn.
    destruct (rec sec toks) as [[st' r']|] eqn:E; [|done]. cbn. intros [= _ <-]. apply Hrec in E. lia.
  - destruct (tok_is _ _); [|done]. destruct (arguments toks) as [[args r']|] eqn:E; [|done]. cbn.
    destruct (opt_func _) as [[|n]|]; try done. intros [= _ <-]. apply arguments_length in E. lia.
Qed.

Lemma items_length n : ∀ c level toks st r, items n c level toks = Some (st, r) → length r ≤ length toks.
Proof.
  induction n as [|n IH]; intros c level toks st r; [by destruct toks|]. destruct toks as [|t toks]; [done|].
  rewrite items_cons. destruct (_ =? EOF)%Z; [intros [= _ <-]; lia|]. destruct (tok_is _ _).
  { destruct (level =? 0); [done|]. intros [= _ <-]. cbn. lia. }
  destruct (_ =? CFGT_COMMENT)%Z. { intros E%IH. cbn. lia. }
  destruct (_ =? CFGT_STR)%Z; [|done]. destruct (snd t) as [name|]; [|done]. cbn [mbind option_bind].
  destruct (resolve c name) as [p|]; [|done]. cbn [mbind option_bind].
  destruct (opt_at c p) as [o|]; [|done]. cbn [mbind option_bind].
  destruct (statement _ _ _ _ _) as [[st1 r1]|] eqn:E; [|done]. cbn [mbind option_bind].
  apply statement_length in E; [|intros sec; apply IH].
  destruct (items n c level r1) as [[st2 r2]|] eqn:E2; [|done]. cbn. intros [= _ <-]. apply IH in E2. lia.
Qed.

(** ** Positions *)

Lemma plain_pos pos c : plain c → plain (with_pos pos c).
Proof.
  intros [Hs Ho]. split; [intros sp h; rewrite sec_view_pos; apply Hs|].
  intros q o. rewrite opt_view_pos. intros E. destruct (Ho q o E) as [? Hk]. split; [done|].
  destruct (type_is _ _); [|intros k; specialize (Hk k)]; by rewrite sec_view_pos.
Qed.

Lemma effect_pos pos c : effect [] c (with_pos pos c).
Proof. apply effect_nil; intros; [by rewrite opt_view_pos|by rewrite sec_view_pos]. Qed.

Lemma effect_pos_from pos st c c' : effect st (with_pos pos c) c' → effect st c c'.
Proof. intros E. exact (effect_trans [] st _ _ _ (effect_pos pos c) E). Qed.

Lemma alike_head c c' : alike c c' → head_of c = head_of c'.
Proof. intros [_ Hs]. by apply (inj Some), (Hs []). Qed.

Section ParseSpec.
Context {U : Type} `{Host} `{Callbacks U}.

Abbreviation PM := (stM aborted (parser U)).
Abbreviation result := (parser U * outcome aborted Z)%type.

(** ** Steps *)

(** The statements have been read. *)
Definition steps (st : list stmt) (s s' : parser U) : Prop :=
  effect st (pcfg s) (pcfg s') ∧ plain (pcfg s') ∧ logs false (plog s) (plog s') ∧
  calls st (puser s) = Some (puser s').

Lemma calls_app st st' (u : U) : calls (st ++ st') u = u' ← calls st u; calls st' u'.
Proof.
  revert u. induction st as [|[p a vs|n args] st IH]; intros u; cbn; [done|apply IH|].
  destruct (call_user n args u) as [[u' ms] ret]. destruct (ret =? 0)%Z; [apply IH|done].
Qed.

Lemma calls_under inside st (u : U) : calls (map (under inside) st) u = calls st u.
Proof.
  revert u. induction st as [|[[p i] a vs|n args] st IH]; intros u; cbn; [done|apply IH|].
  destruct (call_user n args u) as [[u' ms] ret]. by destruct (ret =? 0)%Z.
Qed.

Lemma steps_trans st st' s s' s'' : steps st s s' → steps st' s' s'' → steps (st ++ st') s s''.
Proof.
  intros (E1 & _ & L1 & C1) (E2 & P2 & L2 & C2). split_and!; [by eapply effect_trans|done|exact (logs_trans _ _ _ _ _ L1 L2)|].
  by rewrite calls_app, C1.
Qed.

Lemma steps_moved s s' : plain (pcfg s) → moved s s' → steps [] s s'.
Proof.
  intros Hp ([pos E] & Hu & L). unfold steps. rewrite E, Hu.
  split_and!; [apply effect_pos|by apply plain_pos|done|done].
Qed.

Lemma steps_log st s s' : steps st s s' → logs false (plog s) (plog s').
Proof. by intros (_ & _ & ? & _). Qed.

Lemma steps_plain st s s' : steps st s s' → plain (pcfg s').
Proof. by intros (_ & ? & _). Qed.

Lemma steps_alike c st s s' : alike c (pcfg s) → steps st s s' → alike c (pcfg s').
Proof. intros Ha (E & _). etrans; [exact Ha|]. by eapply effect_alike. Qed.

Lemma steps_range st s s' : steps st s s' → errno (plog s) ≠ ERANGE → errno (plog s') ≠ ERANGE.
Proof. intros (_ & _ & L & _). by eapply logs_range. Qed.

Lemma steps_opt st s s' p : steps st s s' → is_Some (opt_at (pcfg s) p) → is_Some (opt_at (pcfg s') p).
Proof.
  intros ((Ho & _) & _) [o E]. specialize (Ho p). unfold opt_view in Ho. rewrite E in Ho. cbn in Ho.
  destruct (opt_at (pcfg s') p); [by eexists|done].
Qed.

(** ** Outcomes *)

(** The local variables between statements. *)
Definition idle (x : locals) (c : cfg_t) : Prop :=
  ∃ p ig nv, x = Locals 0 None None p [] ig nv ∧ ∀ q, p = Some q → is_Some (opt_at c q).

(** A statement is read, or the parser fails with a message. *)
Definition stmt_outcome (level : nat) (g : option (list stmt * list tok)) (s : parser U) (res : result) : Prop :=
  match g with
  | Some (st, r) =>
      match calls st (puser s) with
      | Some _ => ∃ f x s', res = parse_loop f level (-1) x s' ∧ length r < f ∧ ready s' r ∧ steps st s s' ∧
                   idle x (pcfg s')
      | None => wrong s res
      end
  | None => wrong s res
  end.

(** A section is read to its end. *)
Definition outcome_of (g : option (list stmt * list tok)) (s : parser U) (res : result) : Prop :=
  match g with
  | Some (st, r) =>
      match calls st (puser s) with
      | Some _ => ∃ s', res = (s', Ret STATE_EOF) ∧ ready s' r ∧ steps st s s'
      | None => wrong s res
      end
  | None => wrong s res
  end.

Lemma stmt_outcome_after level g s s1 res : steps [] s s1 → stmt_outcome level g s1 res → stmt_outcome level g s res.
Proof.
  intros St. pose proof (steps_log _ _ _ St) as L. unfold stmt_outcome. destruct g as [[st r]|]; [|by apply wrong_after].
  pose proof St as (_ & _ & _ & [= Hu]). rewrite Hu. destruct (calls st (puser s1)); [|by apply wrong_after].
  intros (f & x & s' & ? & ? & ? & St' & ?). exists f, x, s'. split_and!; try done.
  by apply (steps_trans [] st _ s1).
Qed.

Lemma outcome_after st g s s1 res :
  steps st s s1 → outcome_of g s1 res → outcome_of ('(st', r) ← g; Some (st ++ st', r)) s res.
Proof.
  intros St. pose proof (steps_log _ _ _ St) as L. unfold outcome_of.
  destruct g as [[st' r]|]; cbn [mbind option_bind]; [|by apply wrong_after].
  pose proof St as (_ & _ & _ & Hu). rewrite calls_app, Hu. cbn [mbind option_bind].
  destruct (calls st' (puser s1)); [|by apply wrong_after].
  intros (s' & -> & ? & St'). exists s'. split_and!; try done. by eapply steps_trans.
Qed.

Lemma outcome_after_nil g s s1 res : steps [] s s1 → outcome_of g s1 res → outcome_of g s res.
Proof. intros St Ho. pose proof (outcome_after [] g s s1 res St Ho) as Hc. by destruct g as [[st r]|]. Qed.

(** ** Assignments and calls *)

Lemma assignment_stmt level p ig nv fuel toks s o :
  ready s toks → length toks < fuel → plain (pcfg s) → opt_at (pcfg s) p = Some o → scalar o →
  errno (plog s) ≠ ERANGE →
  stmt_outcome level ('(append, vs, r) ← assignment o toks; Some ([Assign p append vs], r)) s
    (parse_loop fuel level (-1) (at_opt 1 p ig nv) s).
Proof.
  intros Hr Hf Hp E Ho He. pose proof (assignment_run level p ig nv fuel toks s o Hr Hf E Ho He) as Ha.
  cbn zeta in Ha. destruct (assignment o toks) as [[[a vs] r]|]; [|exact Ha]. cbn.
  destruct Ha as (f & ig' & nv' & s' & o' & -> & Hf' & Hr' & (W & L & Hu) & Ho' & So & Hv).
  eexists f, _, s'. split_and!; [done..| |].
  - split_and!; [by eapply changed_effect| |done|cbn; congruence].
    eapply plain_changed; [exact Hp|exact E|exact So|exact Ho|apply Ho'|exact W].
  - eexists (Some p), _, _. split; [done|]. intros q [= <-]. exists o'. apply W.
Qed.

Lemma call_stmt level p ig nv fuel toks s o n :
  ready s toks → length toks < fuel → plain (pcfg s) → opt_at (pcfg s) p = Some o →
  opt_func (un o) = Some (user_func n) → errno (plog s) ≠ ERANGE →
  stmt_outcome level
    (match toks with
     | b :: r => if tok_is (fst b) "(" then '(args, r) ← arguments r; Some ([Call n args], r) else None
     | [] => None
     end) s (parse_loop fuel level (-1) (at_opt 7 p ig nv) s).
Proof.
  intros Hr Hf Hp E Hn He.
  destruct (next_turn fuel level (at_opt 7 p ig nv) s toks Hr Hf) as (b & r & f & s1 & -> & -> & Hf1 & Hm & Ht).
  destruct (stops (fst b)) eqn:Hst.
  { apply stops_is in Hst as [_ ->]; [|done]. cbn [state] in Ht. by rewrite andb_false_r in Ht. }
  destruct Ht as (Hr1 & _ & _ & ->). pose proof (moved_opt p _ _ Hm) as E1. rewrite E in E1.
  eapply stmt_outcome_after; [by apply steps_moved|]. unfold token_turn, parse_token. cbn [state].
  unfold expect_paren. destruct (tok_is (fst b) "("); cycle 1.
  { cbn. unfold opt_name_of. cbn [opt_ptr].
    destruct (error_turn (#"missing parenthesis for function '" ++ opt_name (un o) ++ #"'") s1) as (s2 & E2 & Hs).
    eapply finish_error; [apply logs_refl| |exact Hs]. rewrite stM_bind_eq.
    rewrite (stM_bind_Ret _ _ _ _ _ (option_at_eq _ _ _ E1)). exact E2. }
  rewrite (finish_again _ _ _ _ s1 (at_opt 8 p ig nv)) by done.
  pose proof (arguments_run (length r) level p n ig nv f r s1 o [] ltac:(done) Hr1 Hf1 E1 Hn) as Ha.
  cbn zeta in Ha. destruct (arguments r) as [[args r']|]; [|exact Ha]. cbn [mbind option_bind app] in *.
  unfold call_comes_to in Ha. unfold stmt_outcome. cbn [calls].
  destruct (call_user n args (puser s1)) as [[u ms] ret] eqn:Ec. cbn [snd] in Ha.
  destruct (ret =? 0)%Z eqn:Er; [|exact Ha].
  destruct Ha as (f' & ig' & nv' & s' & -> & Hf' & Hr' & [pos Ep] & L & Hu). rewrite Ec in Hu. cbn in Hu.
  eexists f', _, s'. split_and!; [done..| |].
  - unfold steps. rewrite Ep. split_and!; [|apply plain_pos|done|cbn; rewrite Ec, Er; congruence].
    + split; intros; [rewrite opt_view_pos|apply sec_view_pos]. unfold update, stored. cbn.
      destruct (opt_view _ _) as [o'|]; [|done]. cbn. by rewrite with_values_id.
    + exact (steps_plain _ _ _ (steps_moved _ _ Hp Hm)).
  - eexists (Some p), _, _. split; [done|]. intros q [= <-]. rewrite Ep, opt_at_pos. by exists o.
Qed.

(** ** Sections *)

(** The reading of a section, by the call of the parser for it. *)
Definition reads (n : nat) : Prop := ∀ fuel level toks x c s,
  ready s toks → length toks < fuel → length toks ≤ n → plain (pcfg s) → errno (plog s) ≠ ERANGE →
  alike c (pcfg s) → idle x (pcfg s) →
  outcome_of (items n c level toks) s (parse_loop fuel level (-1) x s).

Lemma plain_section_there c p o :
  plain c → opt_at c p = Some o → opt_type (un o) = TYPE_SEC →
  is_Some (section_at c (fst p ++ [(snd p, 0)])).
Proof.
  intros [_ Po] E Et. destruct (Po p (mask o)) as [_ Hk]; [unfold opt_view; by rewrite E|].
  assert (opt_type (un (mask o)) = TYPE_SEC) as Em by (rewrite <- Et; by destruct o).
  unfold type_is in Hk. rewrite Em, bool_decide_true in Hk by done. unfold sec_view in Hk.
  by rewrite fmap_is_Some in Hk.
Qed.

(** Nothing is made when the section is there. *)
Lemma setopt_section init p o value (s : parser U) :
  plain (pcfg s) → opt_at (pcfg s) p = Some o → opt_type (un o) = TYPE_SEC →
  setopt init p value s = (s, Ret (Some (Nth 0))).
Proof.
  intros Pc E Et. destruct (plain_opt_at _ _ _ Pc E) as (Hsv & _ & _ & Hm & _ & Hk). rewrite Et in Hk.
  destruct Hk as (Ht & Hl & Hr & Hd & Hn). unfold flag_off in *.
  destruct (plain_section_there _ _ _ Pc E Et) as [sec Es]. rewrite section_at_app in Es.
  unfold opt_at in E. destruct (section_at (pcfg s) (fst p)) as [s0|] eqn:E0; [|done]. cbn [mbind option_bind] in *.
  rewrite section_at_cons in Es. unfold child in Es. rewrite E in Es. cbn in Es.
  destruct (opt_values (un o) !! 0) as [v|] eqn:Ev; [|done]. cbn in Es.
  destruct (value_section v) as [sec'|] eqn:Es'; [|done].
  assert (opt_at (pcfg s) p = Some o) as E' by (unfold opt_at; by rewrite E0).
  pose proof (option_at_eq _ _ _ E') as Eo.
  assert (setopt_place p value s = (s, Ret (Some (Nth 0)))) as Ep.
  { unfold setopt_place. rewrite (stM_bind_Ret _ _ _ _ _ Eo), Hsv, Hr. cbn [when].
    rewrite (stM_bind_Ret _ _ s s tt) by done. rewrite (stM_bind_Ret _ _ _ _ _ Eo).
    rewrite (stM_bind_Ret _ _ s s (pcfg s)) by done. cbn zeta. by rewrite Hn, Hm, Hl. }
  unfold setopt. rewrite (stM_bind_Ret _ _ _ _ _ Ep), (stM_bind_Ret _ _ _ _ _ Eo), Et. unfold set_sec.
  rewrite (stM_bind_Ret _ _ _ _ _ Eo), (stM_bind_Ret _ _ s s (pcfg s)) by done. unfold read_place.
  rewrite Ev, (stM_bind_Ret _ _ s s v) by done. rewrite Hm, Es', bool_decide_true by (by eexists). cbn [orb negb].
  by rewrite Hd.
Qed.

(** A computation in a section. *)
Lemma in_section_eq {A} p (m : PM A) s sec :
  section_at (pcfg s) p = Some sec →
  in_section p m s =
    (let '(s', r) := m (Parser (plex s) (plog s) sec (puser s)) in
     (Parser (plex s') (plog s') (alter_section (fun _ => pcfg s') p (pcfg s)) (puser s'), r)).
Proof. intros E. unfold in_section. by rewrite E. Qed.

Lemma alike_opt c c' p o : alike c c' → opt_at c' p = Some o → ∃ o', opt_at c p = Some o' ∧ static o' = static o.
Proof.
  intros [Ho _] E. specialize (Ho p). rewrite E in Ho. destruct (opt_at c p) as [o'|]; [|done].
  exists o'. split; [done|]. by apply (inj Some).
Qed.

(** What the call for a section leaves above it. *)
Lemma steps_section st inside (s s' : parser U) sec :
  plain (pcfg s) → section_at (pcfg s) inside = Some sec →
  steps st (Parser (plex s) (plog s) sec (puser s)) s' →
  steps (map (under inside) st) s
    (Parser (plex s') (plog s') (alter_section (fun _ => pcfg s') inside (pcfg s)) (puser s')).
Proof.
  intros Pc E (Ef & Pc' & L & C). cbn in *. split_and!.
  - apply (effect_section _ sec); [done|symmetry; by eapply effect_head|done].
  - eapply plain_change; [exact E|symmetry; by eapply effect_head|done..|by eapply effect_alike].
  - done.
  - by rewrite calls_under.
Qed.

(** The section as the call for it gets it. *)
Definition section_start (s : parser U) (sec : cfg_t) : parser U :=
  Parser (plex s) (plog s)
    (with_pos (Position (pos_filename (sec_pos sec)) (pos_line (sec_pos (pcfg s))) (pos_path (sec_pos (pcfg s)))) sec)
    (puser s).

(** The turn for the brace of a section. *)
Lemma section_turn set parse level p o ig nv (s : parser U) sec :
  let inside := fst p ++ [(snd p, 0)] in
  plain (pcfg s) → opt_at (pcfg s) p = Some o → section_at (pcfg s) inside = Some sec →
  set p None s = (s, Ret (Some (Nth 0))) →
  match parse (S level) (-1)%Z None (section_start s sec) with
  | (s', Ret rc) =>
      let s2 := Parser (plex s') (plog s') (alter_section (fun _ => pcfg s') inside (pcfg s)) (puser s') in
      if (rc =? STATE_EOF)%Z then
        plain (pcfg s2) → is_Some (opt_at (pcfg s2) p) →
        ∃ s3, moved s2 s3 ∧ plex s3 = plex s2 ∧
          expect_section set parse level (ord "{") (at_opt 5 p ig nv) s = (s3, Ret (Again (at_opt 0 p ig nv)))
      else expect_section set parse level (ord "{") (at_opt 5 p ig nv) s = (s2, Ret Error)
  | _ => True
  end.
Proof.
  intros inside Pc E Es Hset. destruct (parse (S level) (-1)%Z None (section_start s sec)) as [s' [rc|e|]] eqn:Ep; try done.
  set (s2 := Parser (plex s') (plog s') (alter_section (fun _ => pcfg s') inside (pcfg s)) (puser s')).
  assert (is_set CFGF_RAW (sec_flags sec) = false) as Hraw.
  { destruct (proj1 Pc inside (head_of sec)) as (_ & Hr & _); [unfold sec_view; by rewrite Es|exact Hr]. }
  unfold expect_section. change (tok_is (ord "{") "{") with true. cbn [negb opt_ptr opttitle].
  rewrite (stM_bind_Ret _ _ _ _ _ Hset). cbn zeta. fold inside.
  rewrite (stM_bind_Ret _ _ s s (pcfg s)) by done.
  match goal with |- context [in_section ?q ?m] =>
    assert (in_section q m s = (s2, Ret rc)) as Ei end.
  { rewrite (in_section_eq _ _ _ _ Es). rewrite (stM_bind_Ret _ _ _ (section_start s sec) tt) by done.
    rewrite (stM_bind_Ret _ _ _ (section_start s sec) (pcfg (section_start s sec))) by done.
    cbn [section_start pcfg with_pos sec_flags]. rewrite Hraw. by rewrite Ep. }
  destruct (rc =? STATE_EOF)%Z eqn:Erc.
  - intros P2 [o2 E2].
    assert (section_at (pcfg s2) inside = Some (pcfg s')) as Es2.
    { unfold s2. cbn [pcfg]. by eapply section_at_change. }
    set (q := fun c : cfg_t => with_pos (Position (pos_filename (sec_pos c)) (pos_line (sec_pos (pcfg s'))) (pos_path (sec_pos c))) c).
    set (s3 := Parser (plex s2) (plog s2) (q (pcfg s2)) (puser s2)).
    exists s3. split; [split_and!; [by eexists|done|apply logs_refl]|]. split; [done|].
    rewrite (stM_bind_Ret _ _ _ _ _ Ei), Erc. cbn [negb].
    rewrite (stM_bind_Ret _ _ s2 s2 (pcfg s2)) by done.
    rewrite (stM_bind_Ret _ _ s2 s2 (pcfg s')) by (exact (f_equal (fun x => (s2, deref x)) Es2)).
    rewrite (stM_bind_Ret _ _ s2 s3 tt) by done.
    change (set_opttitle None (at_opt 5 p ig nv)) with (at_opt 5 p ig nv).
    assert (opt_at (pcfg s3) p = Some o2) as E3 by (unfold s3, q; cbn [pcfg]; by rewrite opt_at_pos).
    by rewrite (stM_bind_Ret _ _ _ _ _ (refused_plain 5 p ig nv o2 s3 E3 (plain_opt_at _ _ _ P2 E2))).
  - by rewrite (stM_bind_Ret _ _ _ _ _ Ei), Erc.
Qed.

Lemma section_stmt n level p ig nv fuel toks c s o :
  reads n →
  ready s toks → length toks < fuel → length toks ≤ S n → plain (pcfg s) → errno (plog s) ≠ ERANGE →
  opt_at (pcfg s) p = Some o → opt_type (un o) = TYPE_SEC → alike c (pcfg s) →
  stmt_outcome level
    (match toks with
     | b :: r =>
         if tok_is (fst b) "{" then
           let inside := fst p ++ [(snd p, 0)] in
           sec ← section_at c inside; '(st, r) ← items n sec (S level) r; Some (map (under inside) st, r)
         else None
     | [] => None
     end) s (parse_loop fuel level (-1) (at_opt 5 p ig nv) s).
Proof.
  intros IH Hr Hf Hn Hp He E Et Ha. set (inside := fst p ++ [(snd p, 0)]).
  destruct (next_turn fuel level (at_opt 5 p ig nv) s toks Hr Hf) as (b & r & f & s1 & -> & -> & Hf1 & Hm & Ht).
  destruct (stops (fst b)) eqn:Hst.
  { apply stops_is in Hst as [_ ->]; [|done]. cbn [state] in Ht. by rewrite andb_false_r in Ht. }
  destruct Ht as (Hr1 & _ & _ & ->). pose proof (moved_opt p _ _ Hm) as E1. rewrite E in E1.
  pose proof (steps_moved _ _ Hp Hm) as S1. pose proof (steps_plain _ _ _ S1) as P1.
  pose proof (steps_alike _ _ _ _ Ha S1) as A1. pose proof (steps_range _ _ _ S1 He) as R1.
  eapply stmt_outcome_after; [exact S1|]. unfold token_turn, parse_token. cbn [state].
  destruct (tok_is (fst b) "{") eqn:Eb; cycle 1.
  { unfold expect_section. rewrite Eb. cbn [negb]. unfold opt_name_of. cbn [opt_ptr].
    destruct (error_turn (#"missing opening brace for section '" ++ opt_name (un o) ++ #"'") s1) as (s2 & E2 & Hs).
    eapply finish_error; [apply logs_refl| |exact Hs]. rewrite stM_bind_eq.
    rewrite (stM_bind_Ret _ _ _ _ _ (option_at_eq _ _ _ E1)). exact E2. }
  apply tok_is_eq in Eb. rewrite Eb. cbn zeta. destruct (plain_section_there _ _ _ P1 E1 Et) as [sec Es]. fold inside in Es.
  destruct (alike_section (pcfg s1) c inside sec ltac:(by symmetry) Es) as (secc & -> & Asec & _).
  cbn [mbind option_bind].
  pose proof (setopt_section (init_defaults f) p o None s1 P1 E1 Et) as Eset.
  specialize (IH f (S level) r (start_locals (-1) None) secc (section_start s1 sec) Hr1 Hf1 ltac:(cbn in *; lia)
    (plain_pos _ _ (plain_section _ _ _ P1 Es)) R1).
  assert (alike sec (pcfg (section_start s1 sec))) as Apos by (eapply effect_alike, effect_pos).
  specialize (IH ltac:(etrans; [by symmetry|exact Apos]) ltac:(eexists None, _, _; by split)).
  pose proof (section_turn (setopt (init_defaults f))
    (fun level force_state force_opt => parse_loop f level force_state (start_locals force_state force_opt))
    level p o ig nv s1 sec P1 E1 Es Eset) as Hturn.
  cbn zeta beta in Hturn. fold inside in Hturn.
  destruct (items n secc (S level) r) as [[st r']|] eqn:Ei; cbn [mbind option_bind outcome_of stmt_outcome] in *; cycle 1.
  { destruct IH as (s' & Ew & Hs). rewrite Ew in Hturn. eapply finish_error; [apply logs_refl|exact Hturn|exact Hs]. }
  rewrite calls_under. change (puser (section_start s1 sec)) with (puser s1) in IH.
  destruct (calls st (puser s1)) as [u|]; cycle 1.
  { destruct IH as (s' & Ew & Hs). rewrite Ew in Hturn. eapply finish_error; [apply logs_refl|exact Hturn|exact Hs]. }
  destruct IH as (s' & Er & Hr' & St). rewrite Er in Hturn.
  assert (steps st (Parser (plex s1) (plog s1) sec (puser s1)) s') as St'.
  { destruct St as (Ef & ?). split; [exact (effect_pos_from _ _ _ _ Ef)|done]. }
  pose proof (steps_section _ inside _ _ _ P1 Es St') as S2. set (s2 := Parser _ _ _ _) in *.
  destruct Hturn as (s3 & Hm3 & Hx & E3); [exact (steps_plain _ _ _ S2)|by eapply steps_opt; [|exists o]|].
  rewrite (finish_again _ _ _ _ _ _ E3).
  pose proof (steps_trans _ _ _ _ _ S2 (steps_moved _ _ (steps_plain _ _ _ S2) Hm3)) as S3. rewrite app_nil_r in S3.
  eexists f, _, s3. split_and!; [done| |unfold ready; rewrite Hx; exact Hr'|done|].
  - apply items_length in Ei. lia.
  - eexists (Some p), _, _. split; [done|]. intros q [= <-]. eapply steps_opt; [exact S3|by exists o].
Qed.

(** ** Names *)

Lemma handle_idle x (s : parser U) : plain (pcfg s) → idle x (pcfg s) → handle_deprecated x s = (s, Ret tt).
Proof.
  intros Pc (p & ig & nv & -> & Hq). unfold handle_deprecated. cbn [opt_ptr]. destruct p as [p|]; [|done].
  destruct (Hq p eq_refl) as [o E]. rewrite (stM_bind_Ret _ _ _ _ _ (option_at_eq _ _ _ E)).
  destruct (plain_opt_at _ _ _ Pc E) as (_ & _ & _ & _ & Hd & _). unfold flag_off in Hd. by rewrite Hd.
Qed.

Lemma idle_moved x (s s' : parser U) : moved s s' → idle x (pcfg s) → idle x (pcfg s').
Proof.
  intros Hm (p & ig & nv & -> & Hq). exists p, ig, nv. split; [done|]. intros q E.
  rewrite (moved_opt _ _ _ Hm). by apply Hq.
Qed.

(** The state after the name of an option. *)
Definition after_name (o : cfg_opt_t) : Z :=
  match opt_type (un o) with TYPE_SEC => 5 | TYPE_FUNC => 7 | _ => 1 end.

(** The turn for a name. *)
Lemma name_turn level p ig nv name (s : parser U) :
  plain (pcfg s) → idle (Locals 0 None None p [] ig nv) (pcfg s) → yylval s = (s, Ret (Some name)) →
  match resolve (pcfg s) name with
  | Some q => ∃ s' o, opt_at (pcfg s) q = Some o ∧ moved s s' ∧ plex s' = plex s ∧
      expect_name level CFGT_STR (Locals 0 None None p [] ig nv) s
      = (s', Ret (Again (at_opt (after_name o) q ig nv)))
  | None => ∃ s', expect_name level CFGT_STR (Locals 0 None None p [] ig nv) s = (s', Ret Error) ∧
      says (plog s) (plog s')
  end.
Proof.
  intros Pc Hi Hy. pose proof (plain_named _ Pc) as Hn. destruct (proj1 Pc [] (head_of (pcfg s)) eq_refl) as (_ & Hraw & _ & Hig).
  unfold flag_off in *. destruct (getopt_resolve (pcfg s) name Hn (plog s)) as (g & Eg & L).
  set (s' := Parser (plex s) g (pcfg s) (puser s)).
  assert (reading (cfg_getopt (pcfg s) name) s = (s', Ret (resolve (pcfg s) name))) as Er
    by (unfold reading; by rewrite Eg).
  unfold expect_name. rewrite (stM_bind_Ret _ _ _ _ _ (handle_idle _ _ Pc Hi)).
  rewrite (stM_bind_Ret _ _ s s (pcfg s)) by done. rewrite (stM_bind_Ret _ _ _ _ _ Hy).
  change (tok_is CFGT_STR "}") with false. change (CFGT_STR =? CFGT_COMMENT)%Z with false.
  rewrite Z.eqb_refl. cbn [mbind]. rewrite (stM_bind_Ret _ _ s s name) by done.
  rewrite (stM_bind_Ret _ _ _ _ _ Er). rewrite Hig in L |- *. cbn [negb andb] in L.
  destruct (resolve (pcfg s) name) as [q|] eqn:Eq.
  - destruct (resolve_at _ _ _ Hn Eq) as [o Eo]. exists s', o. split; [done|].
    split; [split_and!; [exists (sec_pos (pcfg s)); by destruct (pcfg s)|done|exact L]|]. split; [done|].
    rewrite (stM_bind_Ret _ _ _ _ _ (option_at_eq q s' o Eo)). unfold after_name.
    destruct (plain_opt_at _ _ _ Pc Eo) as (_ & _ & _ & _ & _ & Hk). rewrite Hraw.
    destruct (opt_type (un o)) eqn:Et; try done. destruct Hk as (Ht & _). unfold flag_off in Ht. cbn. by rewrite Ht.
  - exists s'. split; [done|]. by apply logs_says.
Qed.

(** A statement after its name. *)
Lemma statement_outcome n level p ig nv fuel toks c s o oc :
  reads n →
  ready s toks → length toks < fuel → length toks ≤ S n → plain (pcfg s) → errno (plog s) ≠ ERANGE →
  opt_at (pcfg s) p = Some o → static oc = static o → alike c (pcfg s) →
  stmt_outcome level (statement (fun sec => items n sec (S level)) c p oc toks) s
    (parse_loop fuel level (-1) (at_opt (after_name o) p ig nv) s).
Proof.
  intros IH Hr Hf Hn Hp He E So Ha. apply static_same in So as Hso. destruct Hso as (_ & Et & Efn).
  pose proof (plain_opt_at _ _ _ Hp E) as Po. unfold statement, after_name. rewrite Et, Efn.
  assert (opt_type (un o) ≠ TYPE_SEC → opt_type (un o) ≠ TYPE_FUNC →
    stmt_outcome level ('(append, vs, r) ← assignment oc toks; Some ([Assign p append vs], r)) s
      (parse_loop fuel level (-1) (at_opt 1 p ig nv) s)) as Hassign.
  { intros H1 H2. pose proof (plain_scalar _ _ _ Hp E H1 H2) as Ho.
    assert (assignment oc toks = assignment o toks) as ->; [|by apply assignment_stmt].
    destruct toks as [|op [|t r]]; [done|done|]. by rewrite !assignment_cons, (right_side_static _ _ _ _ So), (is_list_same _ _ So). }
  destruct (opt_type (un o)) eqn:Eo; try (by apply Hassign).
  - pose proof (section_stmt n level p ig nv fuel toks c s o IH Hr Hf Hn Hp He E Eo Ha) as Hs.
    by destruct toks as [|b r].
  - destruct Po as (_ & _ & _ & _ & _ & Hk). rewrite Eo in Hk. destruct Hk as [m Em]. rewrite Em.
    pose proof (call_stmt level p ig nv fuel toks s o m Hr Hf Hp E Em He) as Hs. by destruct toks as [|b r].
Qed.

(** ** The parser *)

Lemma parser_reads n : reads n.
Proof.
  induction n as [|n IH]; intros fuel level toks x c s Hr Hf Hn Hp He Ha Hi.
  { destruct (next_turn fuel level x s toks Hr Hf) as (t & r & f & s1 & -> & _). cbn in Hn. lia. }
  destruct (next_turn fuel level x s toks Hr Hf) as (t & r & f & s1 & -> & -> & Hf1 & Hm & Ht).
  pose proof (steps_moved _ _ Hp Hm) as S1. pose proof (idle_moved _ _ _ Hm Hi) as I1.
  pose proof (steps_plain _ _ _ S1) as P1. pose proof (handle_idle _ _ P1 I1) as Hh.
  rewrite items_cons. destruct Hi as (p & ig & nv & -> & Hq). cbn [state] in Ht.
  destruct (stops (fst t)) eqn:Hst.
  { unfold stops in Hst. destruct (fst t =? EOF)%Z eqn:Ee; cbn [andb orb] in *.
    - destruct Ht as [Hr1 ->]. cbn. exists s1. split_and!; [|done|done].
      unfold finish. by rewrite stM_bind_eq, (stM_bind_Ret _ _ _ _ _ Hh).
    - apply Z.eqb_eq in Hst. rewrite Hst. cbn. exact Ht. }
  assert ((fst t =? EOF)%Z = false) as ->. { apply Z.eqb_neq. by apply stops_false in Hst as []. }
  destruct Ht as (Hr1 & Hv & Hy & ->). pose proof (steps_range _ _ _ S1 He) as R1.
  pose proof (steps_alike _ _ _ _ Ha S1) as A1. unfold token_turn, parse_token. cbn [state].
  destruct (tok_is (fst t) "}") eqn:Eb.
  { unfold expect_name. unfold finish. rewrite stM_bind_eq, (stM_bind_Ret _ _ _ _ _ Hh).
    rewrite (stM_bind_Ret _ _ s1 s1 (pcfg s1)) by done. rewrite (stM_bind_Ret _ _ _ _ _ Hy), Eb.
    destruct (level =? 0).
    - eexists. split; [done|]. eapply logs_says_trans; [apply Hm|]. by eexists [_].
    - cbn. by exists s1. }
  destruct (fst t =? CFGT_COMMENT)%Z eqn:Ec.
  { assert (is_set CFGF_COMMENTS (sec_flags (pcfg s1)) = false) as Hc.
    { by destruct (proj1 P1 [] (head_of (pcfg s1)) eq_refl) as (_ & _ & Hc & _). }
    rewrite (finish_again _ _ _ _ s1 (Locals 0 None None p [] ig nv)).
    - eapply outcome_after_nil; [exact S1|]. apply IH; try done. cbn in *. lia.
    - unfold expect_name. rewrite (stM_bind_Ret _ _ _ _ _ Hh).
      rewrite (stM_bind_Ret _ _ s1 s1 (pcfg s1)) by done. by rewrite (stM_bind_Ret _ _ _ _ _ Hy), Eb, Ec, Hc. }
  destruct (fst t =? CFGT_STR)%Z eqn:Es; cycle 1.
  { destruct (unexpected_turn s1) as (s2 & E2 & Hs). eapply finish_error; [apply Hm| |exact Hs].
    unfold expect_name. rewrite (stM_bind_Ret _ _ _ _ _ Hh).
    rewrite (stM_bind_Ret _ _ s1 s1 (pcfg s1)) by done. by rewrite (stM_bind_Ret _ _ _ _ _ Hy), Eb, Ec, Es. }
  apply Z.eqb_eq in Es. destruct (token_str t Es (Hv Es)) as [name ->]. cbn [fst snd mbind option_bind] in *.
  assert (resolve c name = resolve (pcfg s1) name) as ->.
  { symmetry. apply resolve_alike; [by apply plain_named|by symmetry|symmetry; by apply alike_head]. }
  pose proof (name_turn level p ig nv name s1 P1 I1 Hy) as Hname.
  destruct (resolve (pcfg s1) name) as [q|]; cycle 1.
  { destruct Hname as (s2 & E2 & Hs). eapply finish_error; [apply Hm|exact E2|exact Hs]. }
  destruct Hname as (s2 & o & Eo & Hm2 & Hx & E2). rewrite (finish_again _ _ _ _ _ _ E2).
  cbn [mbind option_bind]. destruct (alike_opt _ _ _ _ A1 Eo) as (oc & -> & So). cbn [mbind option_bind].
  pose proof (steps_trans _ _ _ _ _ S1 (steps_moved _ _ P1 Hm2)) as S2. cbn [app] in S2.
  assert (ready s2 r) as Hr2 by (unfold ready; by rewrite Hx).
  pose proof (statement_outcome n level q ig nv f r c s2 o oc IH Hr2 Hf1 ltac:(cbn in *; lia)
    (steps_plain _ _ _ S2) (steps_range _ _ _ S2 He) ltac:(by rewrite (moved_opt _ _ _ Hm2)) So
    (steps_alike _ _ _ _ Ha S2)) as Hst2.
  apply (stmt_outcome_after _ _ _ _ _ S2) in Hst2.
  destruct (statement _ _ _ _ _) as [[st r1]|] eqn:Estmt; [|exact Hst2]. cbn [mbind option_bind stmt_outcome] in *.
  destruct (calls st (puser s)) as [u|] eqn:Ec2.
  - destruct Hst2 as (f2 & x2 & s3 & -> & Hf2 & Hr3 & S3 & I3). eapply outcome_after; [exact S3|].
    apply statement_length in Estmt; [|intros sec; apply items_length].
    apply IH; try done; [cbn in *; lia|exact (steps_plain _ _ _ S3)|exact (steps_range _ _ _ S3 He)
      |exact (steps_alike _ _ _ _ Ha S3)].
  - destruct (items n c level r1) as [[st' r']|]; [|exact Hst2]. cbn. by rewrite calls_app, Ec2.
Qed.

(** ** Files *)

(** The parser on a file, from its start. *)
Lemma parse_file fuel c s :
  single_file (plex s) → length (tokens (plex s)) < fuel → plain (pcfg s) → errno (plog s) ≠ ERANGE →
  alike c (pcfg s) →
  match read_file c (tokens (plex s)) (puser s) with
  | Some (st, u) => ∃ s', cfg_parse_internal fuel 0 (-1) None s = (s', Ret STATE_EOF) ∧ puser s' = u ∧
      effect st (pcfg s) (pcfg s') ∧ plain (pcfg s') ∧ logs false (plog s) (plog s') ∧ single_file (plex s')
  | None => wrong s (cfg_parse_internal fuel 0 (-1) None s)
  end.
Proof.
  intros Hs Hf Hp He Ha.
  pose proof (parser_reads (length (tokens (plex s))) fuel 0 (tokens (plex s)) (start_locals (-1) None) c s
    ltac:(done) Hf ltac:(done) Hp He Ha ltac:(eexists None, _, _; by split)) as Ho.
  unfold read_file, cfg_parse_internal, outcome_of in *.
  destruct (items _ c 0 _) as [[st r]|]; [|exact Ho]. cbn [mbind option_bind].
  destruct (calls st (puser s)) as [u|] eqn:Eu; [|exact Ho]. cbn [mbind option_bind].
  destruct Ho as (s' & E & [Hs' _] & (Ef & Hp' & L & C)). exists s'. split_and!; try done. congruence.
Qed.

(** ** Texts *)

(** The lexer at the start of a text. *)
Definition text_tokens (text : str) (l : lexer) : list tok := tokens (scan_stream text l).

Lemma text_tokens_length text l :
  buffers l = [] → cfg_include_stack l = [] →
  single_file (scan_stream text l) ∧ length (text_tokens text l) ≤ 2 * length text + 4.
Proof.
  intros Hb Hi. assert (single_file (scan_stream text l)) as Hs by (split; cbn; [done|exact Hi]).
  split; [done|]. unfold text_tokens. pose proof (tokens_length _ Hs) as Hl.
  assert (pending (scan_stream text l) ≤ 2 * length text + 3); [|lia].
  unfold pending, unread. cbn. rewrite Hb. cbn. case_bool_decide; lia.
Qed.

(** Reading a text with a table that is like the tree. *)
Lemma parse_text fuel text c (s : parser U) :
  plain (pcfg s) → buffers (plex s) = [] → cfg_include_stack (plex s) = [] → 2 * length text + 4 < fuel →
  alike c (pcfg s) →
  ∃ s' ret, cfg_parse_fp fuel text s = (s', Ret ret) ∧
    match read_file c (text_tokens text (plex s)) (puser s) with
    | Some (st, u) => ret = CFG_SUCCESS ∧ puser s' = u ∧ effect st (pcfg s) (pcfg s') ∧ plain (pcfg s')
    | None => ret = CFG_PARSE_ERROR ∧ ∃ ms, messages (plog s') = messages (plog s) ++ ms ∧ (reports → ms ≠ [])
    end.
Proof.
  intros Hp Hb Hi Hf Ha. destruct (text_tokens_length text (plex s) Hb Hi) as [Hs Hl].
  set (pos := Position (Some (default #"FILE" (pos_filename (sec_pos (pcfg s))))) 1 (pos_path (sec_pos (pcfg s)))).
  set (s1 := Parser (scan_stream text (plex s)) (set_errno 0 (plog s)) (with_pos pos (pcfg s)) (puser s)).
  assert (∀ k : unit → PM Z, (set_cfg (fun c => let p := sec_pos c in
      with_pos (Position (Some (default #"FILE" (pos_filename p))) 1 (pos_path p)) c);;
    scan_begin text ≫= k) s = k tt s1) as Estart by done.
  unfold cfg_parse_fp. rewrite Estart.
  pose proof (parse_file fuel c s1 Hs ltac:(unfold text_tokens in Hl; cbn [plex s1]; lia) (plain_pos _ _ Hp)
    ltac:(done) ltac:(etrans; [exact Ha|eapply effect_alike, effect_pos])) as Hr.
  change (tokens (plex s1)) with (text_tokens text (plex s)) in Hr. change (puser s1) with (puser s) in Hr.
  destruct (read_file c (text_tokens text (plex s)) (puser s)) as [[st u]|].
  - destruct Hr as (s2 & E & Hu & Ef & Hp2 & L & _). rewrite (stM_bind_Ret _ _ _ _ _ E).
    exists (Parser (cfg_scan_fp_end (plex s2)) (plog s2) (pcfg s2) (puser s2)), CFG_SUCCESS.
    split_and!; try done. exact (effect_pos_from _ _ _ _ Ef).
  - destruct Hr as (s2 & E & Hm). rewrite (stM_bind_Ret _ _ _ _ _ E).
    by exists (Parser (cfg_scan_fp_end (plex s2)) (plog s2) (pcfg s2) (puser s2)), CFG_PARSE_ERROR.
Qed.

(** C17. Parsing a text with a plain table of options (sections that are there
    once, integers, strings, booleans, lists of them and functions of the
    user) is reading it with the grammar.  When the tokens of the text are a
    list of statements and no function fails, [cfg_parse_fp] succeeds, each
    option has the values the statements leave ([=] replaces, [+=] appends, the
    last one counts), nothing else of the tree changes, and the functions were
    called in their order.  Otherwise it gives [CFG_PARSE_ERROR], and has
    reported at least one message when the functions that fail report theirs.
    It always returns: two turns for each byte of the text are enough. *)
Theorem cfg_parse_fp_reads fuel text (s : parser U) :
  plain (pcfg s) → buffers (plex s) = [] → cfg_include_stack (plex s) = [] → 2 * length text + 4 < fuel →
  ∃ s' ret, cfg_parse_fp fuel text s = (s', Ret ret) ∧
    match read_file (pcfg s) (text_tokens text (plex s)) (puser s) with
    | Some (st, u) => ret = CFG_SUCCESS ∧ puser s' = u ∧ effect st (pcfg s) (pcfg s') ∧ plain (pcfg s')
    | None => ret = CFG_PARSE_ERROR ∧ ∃ ms, messages (plog s') = messages (plog s) ++ ms ∧ (reports → ms ≠ [])
    end.
Proof. intros. by apply parse_text. Qed.
End ParseSpec.

(** ** A check of tables *)

Definition plain_optb (o : cfg_opt_t) : bool :=
  let r := un o in
  negb (bool_decide (is_Some (simple_value r))) && negb (bool_decide (is_Some (parsecb r)))
  && negb (bool_decide (is_Some (validcb r)))
  && negb (is_set CFGF_MULTI (opt_flags r)) && negb (is_set CFGF_DEPRECATED (opt_flags r))
  && match opt_type r with
     | TYPE_SEC => negb (is_set CFGF_TITLE (opt_flags r)) && negb (is_set CFGF_LIST (opt_flags r))
         && negb (is_set CFGF_RESET (opt_flags r)) && is_set CFGF_DEFINIT (opt_flags r)
         && (length (opt_values r) =? 1)
     | TYPE_FUNC => match opt_func r with Some (user_func _) => true | _ => false end
     | TYPE_INT | TYPE_STR | TYPE_BOOL => is_set CFGF_LIST (opt_flags r) || (length (opt_values r) <=? 1)
     | _ => false
     end.

(** Whether the options of a section are plain, the sections below included. *)
Fixpoint plainb (depth : nat) (c : cfg_t) : bool :=
  match depth with
  | O => false
  | S depth =>
      bool_decide (is_Some (sec_name c)) && negb (is_set CFGF_RAW (sec_flags c))
      && negb (is_set CFGF_COMMENTS (sec_flags c)) && negb (is_set CFGF_IGNORE_UNKNOWN (sec_flags c))
      && forallb (fun o =>
           plain_optb o &&
           if type_is (opt_type (un o)) TYPE_SEC
           then match opt_values (un o) with [VSec s] => plainb depth s | _ => false end
           else forallb (fun v => match v with VSec _ => false | _ => true end) (opt_values (un o)))
         (sec_opts c)
  end.

Lemma plain_optb_plain o : plain_optb o = true → plain_opt o.
Proof.
  unfold plain_optb, plain_opt, flag_off. destruct o as [o]. cbn. intros Hb. reflect_bool.
  repeat match goal with
  | Hn : bool_decide (is_Some ?x) = false |- _ =>
      apply bool_decide_eq_false in Hn; rewrite <- eq_None_not_Some in Hn
  end.
  split_and!; try done. destruct (opt_type o); try done; reflect_bool;
    try (match goal with Hor : _ ∨ _ |- _ =>
           destruct Hor as [Hor|Hor]; [by left|right; by apply Nat.leb_le in Hor] end).
  - by split_and!.
  - destruct (opt_func o) as [[|n]|]; try done. by exists n.
Qed.

Lemma plainb_plain depth c : plainb depth c = true → plain c.
Proof.
  revert c. induction depth as [|depth IH]; intros c; cbn [plainb]; [done|]. intros Hb.
  apply andb_true_iff in Hb as [Hh Ho]. rewrite forallb_forall in Ho.
  assert (∀ i o, sec_opts c !! i = Some o → plain_opt o ∧
    if type_is (opt_type (un o)) TYPE_SEC then ∃ s, opt_values (un o) = [VSec s] ∧ plain s else no_sections o) as Hopt.
  { intros i o E. specialize (Ho o ltac:(by apply list_elem_of_In, list_elem_of_lookup; exists i)).
    apply andb_true_iff in Ho as [Hp Hv]. split; [by apply plain_optb_plain|]. destruct (type_is _ _).
    - destruct (opt_values (un o)) as [|[] [|]]; try done. exists sec. split; [done|by apply IH].
    - intros v Hv'. rewrite forallb_forall in Hv. apply list_elem_of_In in Hv'. specialize (Hv v Hv'). by destruct v. }
  clear Ho IH.
  assert (∀ i k s, child c i k = Some s → k = 0 ∧ plain s) as Hchild.
  { intros i k s. unfold child. destruct (sec_opts c !! i) as [o|] eqn:E; [|done]. cbn.
    destruct (opt_values (un o) !! k) as [v|] eqn:Ev; [|done]. cbn. intros Es.
    destruct (Hopt i o E) as [_ Hk]. destruct (type_is _ _).
    - destruct Hk as (s' & Hl & Hp). rewrite Hl in Ev. destruct k as [|k]; [|by destruct k].
      injection Ev as <-. by injection Es as <-.
    - by rewrite (Hk v) in Es by (by eapply list_elem_of_lookup_2). }
  split.
  - intros [|[i k] sp] h.
    + intros [= <-]. reflect_bool. split_and!; try done.
      by match goal with Hn : bool_decide _ = true |- _ => apply bool_decide_eq_true in Hn end.
    + unfold sec_view. rewrite section_at_cons. destruct (child c i k) as [s|] eqn:Es; [|done].
      apply Hchild in Es as [_ [Hp _]]. apply (Hp sp).
  - intros [[|[i k] sp] j] v.
    + unfold opt_view, opt_at. cbn. destruct (sec_opts c !! j) as [o|] eqn:E; [|done]. intros [= <-].
      destruct (Hopt j o E) as [Hp Hk]. split; [by apply plain_opt_mask|]. cbn [fst snd app].
      assert (opt_type (un (mask o)) = opt_type (un o)) as -> by (by destruct o).
      destruct (type_is _ _).
      * destruct Hk as (s & Hl & _). unfold sec_view. rewrite section_at_cons. unfold child. rewrite E. cbn.
        rewrite Hl. cbn. by eexists.
      * intros k. unfold sec_view. rewrite section_at_cons. by rewrite (child_no_sections _ _ _ _ E Hk).
    + unfold opt_view, opt_at. cbn [fst snd]. rewrite section_at_cons.
      destruct (child c i k) as [s|] eqn:Es; [|done]. specialize (Hchild _ _ _ Es) as [-> [_ Hp]].
      intros Hv. destruct (Hp (sp, j) v Hv) as [? Hk]. split; [done|]. cbn [fst snd] in *.
      assert (∀ r, sec_view c ((i, 0) :: r) = sec_view s r) as Hs
        by (intros r; unfold sec_view; by rewrite section_at_cons, Es).
      cbn [app]. destruct (type_is _ _); [|intros k; specialize (Hk k)]; by rewrite Hs.
Qed.
