(* ===== verification/ConfuseTyped.v ===== *)
(** * The values that statements leave

    The values of the statements of a file have the type of their option, and
    what the getters of libconfuse give after a file was read. *)
From S2P Require Import Prelude.
From S2P Require Import CLib.
From S2P Require Import ConfuseScanner.
From S2P Require Import ConfuseRules.
From S2P Require Import ConfuseLexer.
From S2P Require Import ConfuseLexerSpec.
From S2P Require Import ConfuseFiles.
From S2P Require Import ConfuseData.
From S2P Require Import ConfuseTree.
From S2P Require Import Confuse.
From S2P Require Import ConfuseGrammar.
From S2P Require Import ConfuseLookup.
From S2P Require Import ConfuseParse.
From S2P Require Import ConfuseTurns.
From S2P Require Import ConfuseParseSpec.

(** ** Types *)

Definition value_ok (t : cfg_type) (v : cfg_value_t) : Prop :=
  match t with
  | TYPE_INT => ∃ n, v = VInt n
  | TYPE_BOOL => ∃ b, v = VBool b
  | TYPE_STR => ∃ s, v = VStr (Some (c_str s))
  | _ => False
  end.

Definition stmt_ok (c : cfg_t) (x : stmt) : Prop :=
  match x with
  | Assign p _ vs => ∃ o, opt_at c p = Some o ∧ Forall (value_ok (opt_type (un o))) vs ∧ (is_list o = true ∨ vs ≠ [])
  | Call _ _ => True
  end.

Lemma value_of_text_ok o text v : value_of_text o text = Some v → value_ok (opt_type (un o)) v.
Proof.
  unfold value_of_text. destruct (opt_type (un o)); try done.
  - destruct (strtol _) as [[i rest] range]. destruct (_ && _); [|done]. intros [= <-]. by eexists.
  - intros [= <-]. by eexists.
  - destruct (cfg_parse_boolean (Some text) fresh_log) as [g [b| |]]; try done.
    destruct (b =? -1)%Z; [done|]. intros [= <-]. by eexists.
Qed.

Lemma text_item_ok o t v : text_item o t = Some v → value_ok (opt_type (un o)) v.
Proof.
  unfold text_item. destruct (_ =? _)%Z; [|done]. destruct (snd t); [|done]. apply value_of_text_ok.
Qed.

Lemma list_items_ok o toks vs r : list_items o toks = Some (vs, r) → Forall (value_ok (opt_type (un o))) vs.
Proof.
  revert vs r. induction toks as [toks IH] using (induction_ltof1 _ length). unfold ltof in IH. intros vs r.
  destruct toks as [|t toks]; [done|]. cbn [list_items]. destruct (tok_is (fst t) "}"); [by intros [= <- <-]|].
  destruct (text_item o t) as [v|] eqn:Ev; [|done]. apply text_item_ok in Ev. cbn [mbind option_bind].
  destruct toks as [|t' toks]; [done|]. destruct (tok_is (fst t') ",").
  - destruct (list_items o toks) as [[vs' r']|] eqn:E; [|done]. cbn. intros [= <- <-].
    constructor; [done|]. apply IH in E; [done|cbn; lia].
  - destruct (tok_is (fst t') "}"); [|done]. intros [= <- <-]. by constructor.
Qed.

Lemma assignment_ok o toks a vs r :
  assignment o toks = Some (a, vs, r) → Forall (value_ok (opt_type (un o))) vs ∧ (is_list o = true ∨ vs ≠ []).
Proof.
  destruct toks as [|op [|t toks]]; [done|done|]. rewrite assignment_cons. destruct (_ || _); [|done].
  destruct (is_list o && tok_is (fst t) "{") eqn:El.
  - destruct (list_items o toks) as [[vs' r']|] eqn:E; [|done]. cbn. intros [= _ <- _].
    apply andb_true_iff in El as [El _]. apply list_items_ok in E. by split; [|left].
  - destruct (text_item o t) as [v|] eqn:E; [|done]. cbn. intros [= _ <- _]. apply text_item_ok in E.
    split; [by constructor|by right].
Qed.

(** A check of the values of a table. *)
Definition value_okb (t : cfg_type) (v : cfg_value_t) : bool :=
  match t, v with
  | TYPE_INT, VInt _ | TYPE_BOOL, VBool _ => true
  | TYPE_STR, VStr (Some s) => str_eqb (c_str s) s
  | _, _ => false
  end.

Lemma value_okb_ok t v : value_okb t v = true → value_ok t v.
Proof.
  destruct t, v as [|n|b|[s|]|sec|p]; try done; cbn; intros Hv; [by exists n| |by exists b].
  exists s. by rewrite (proj1 (bool_decide_eq_true _) Hv).
Qed.

Lemma stmt_ok_under c inside sec st :
  section_at c inside = Some sec → Forall (stmt_ok sec) st → Forall (stmt_ok c) (map (under inside) st).
Proof.
  intros E. induction 1 as [|[[p i] a vs|n args] st Hx _ IH]; cbn; constructor; try done.
  destruct Hx as (o & Eo & Hv). exists o. split; [|done]. by rewrite opt_at_app, E.
Qed.

Lemma statement_ok rec c p o toks st r :
  opt_at c p = Some o →
  (∀ sec toks st r, rec sec toks = Some (st, r) → Forall (stmt_ok sec) st) →
  statement rec c p o toks = Some (st, r) → Forall (stmt_ok c) st.
Proof.
  intros Ho Hrec. unfold statement.
  assert (('(append, vs, r0) ← assignment o toks; Some ([Assign p append vs], r0)) = Some (st, r) →
    Forall (stmt_ok c) st) as Ha.
  { destruct (assignment o toks) as [[[a vs] r0]|] eqn:E; [|done]. cbn. intros [= <- _].
    apply assignment_ok in E. constructor; [|done]. by exists o. }
  destruct (opt_type (un o)); try exact Ha; destruct toks as [|b toks]; try done.
  - destruct (tok_is _ _); [|done]. destruct (section_at _ _) as [sec|] eqn:Es; [|done]. cbn.
    destruct (rec sec toks) as [[st' r']|] eqn:E; [|done]. cbn. intros [= <- _]. apply Hrec in E.
    by eapply stmt_ok_under.
  - destruct (tok_is _ _); [|done]. destruct (arguments toks) as [[args r']|]; [|done]. cbn.
    destruct (opt_func _) as [[|n]|]; try done. intros [= <- _]. by constructor.
Qed.

Lemma items_ok n : ∀ c level toks st r, items n c level toks = Some (st, r) → Forall (stmt_ok c) st.
Proof.
  induction n as [|n IH]; intros c level toks st r; [by destruct toks|]. destruct toks as [|t toks]; [done|].
  rewrite items_cons. destruct (_ =? EOF)%Z; [by intros [= <- _]|]. destruct (tok_is _ _).
  { destruct (level =? 0); [done|]. by intros [= <- _]. }
  destruct (_ =? CFGT_COMMENT)%Z; [apply IH|].
  destruct (_ =? CFGT_STR)%Z; [|done]. destruct (snd t) as [name|]; [|done]. cbn [mbind option_bind].
  destruct (resolve c name) as [p|]; [|done]. cbn [mbind option_bind].
  destruct (opt_at c p) as [o|] eqn:Eo; [|done]. cbn [mbind option_bind].
  destruct (statement _ _ _ _ _) as [[st1 r1]|] eqn:E; [|done]. cbn [mbind option_bind].
  apply statement_ok in E; [|done|intros sec; apply IH].
  destruct (items n c level r1) as [[st2 r2]|] eqn:E2; [|done]. cbn. intros [= <- _]. apply IH in E2.
  by apply Forall_app.
Qed.

(** The values of an option with values. *)
Definition values_ok (o : cfg_opt_t) : Prop := Forall (value_ok (opt_type (un o))) (opt_values (un o)).

Lemma values_okb_ok o : forallb (value_okb (opt_type (un o))) (opt_values (un o)) = true → values_ok o.
Proof.
  unfold values_ok. induction (opt_values (un o)) as [|v vs IH]; cbn; [done|].
  intros [Hv Hvs]%andb_true_iff. constructor; [by apply value_okb_ok|by apply IH].
Qed.

(** An option that is not a list keeps a value. *)
Lemma stored_there c st p o vs :
  Forall (stmt_ok c) st → opt_at c p = Some o → is_list o = false → vs ≠ [] → stored st p vs ≠ [].
Proof.
  intros Hst Ho Hl. revert vs. unfold stored. induction Hst as [|[q a new|n args] st Hx _ IH]; intros vs Hvs; cbn;
    [done| |by apply IH].
  apply IH. case_bool_decide as E; [|done]. subst q. destruct Hx as (o' & Eo' & _ & Hnew).
  assert (o' = o) as -> by congruence. destruct Hnew as [Hnew|Hnew]; [congruence|].
  destruct a; [by destruct vs|done].
Qed.

Lemma stored_ok c st p o vs :
  Forall (stmt_ok c) st → opt_at c p = Some o → Forall (value_ok (opt_type (un o))) vs →
  Forall (value_ok (opt_type (un o))) (stored st p vs).
Proof.
  intros Hst Ho. revert vs. unfold stored. induction Hst as [|[q a new|n args] st Hx _ IH]; intros vs Hvs; cbn;
    [done| |by apply IH].
  apply IH. case_bool_decide as E; [|done]. subst q. destruct Hx as (o' & Eo' & Hnew & _).
  assert (o' = o) as -> by congruence. destruct a; [by apply Forall_app|done].
Qed.

Lemma hide_ok t v : value_ok t (hide v) → hide v = v.
Proof. by destruct t, v; cbn; intros Hv; try done; destruct Hv. Qed.

Lemma hide_values t vs : Forall (value_ok t) (hide <$> vs) → hide <$> vs = vs.
Proof.
  induction vs as [|v vs IH]; cbn; [done|]. intros [Hv Hvs]%Forall_cons. rewrite (hide_ok _ _ Hv). f_equal. by apply IH.
Qed.

Lemma ok_hidden t vs : Forall (value_ok t) vs → hide <$> vs = vs.
Proof.
  induction 1 as [|v vs Hv _ IH]; cbn; [done|]. f_equal; [|done].
  destruct v; try done. by destruct t; cbn in Hv; try done; destruct Hv.
Qed.

(** What the statements leave in an option. *)
Lemma effect_values c c' st p o :
  effect st c c' → Forall (stmt_ok c) st → opt_at c p = Some o → values_ok o →
  ∃ o', opt_at c' p = Some o' ∧ static o' = static o ∧ opt_values (un o') = stored st p (opt_values (un o)) ∧
    values_ok o'.
Proof.
  intros Ef Hst Eo Ho. pose proof (effect_alike _ _ _ Ef) as [Ha _]. specialize (Ha p). rewrite Eo in Ha. cbn in Ha.
  destruct (opt_at c' p) as [o'|] eqn:Eo'; [|done]. apply (inj Some) in Ha. exists o'. split; [done|].
  split; [done|]. destruct Ef as [Hv _]. specialize (Hv p). unfold opt_view in Hv. rewrite Eo, Eo' in Hv.
  apply (inj Some) in Hv. apply (f_equal (fun o => opt_values (un o))) in Hv.
  assert (∀ o, opt_values (un (mask o)) = hide <$> opt_values (un o)) as Hm by (by intros [? ]).
  unfold update in Hv. rewrite un_with_values in Hv. cbn [opt_values] in Hv. rewrite !Hm in Hv.
  rewrite (ok_hidden _ _ Ho) in Hv. pose proof (stored_ok _ _ _ _ _ Hst Eo Ho) as Hs.
  rewrite <- Hv in Hs. pose proof (hide_values _ _ Hs) as Eh. rewrite Eh in Hs. split; [congruence|].
  unfold values_ok. apply static_same in Ha as (_ & <- & _). exact Hs.
Qed.

(** ** The getters *)

(** What a getter gives, on a fresh log. *)
Definition got {A} (none : A) (m : stM Empty_set log A) : A :=
  match m fresh_log with (_, Ret a) => a | _ => none end.

(** A getter gives it on every log. *)
Definition gives {A} (m : stM Empty_set log A) (a : A) : Prop := ∀ g, ∃ g', m g = (g', Ret a).

Lemma gives_got {A} (none a : A) m : gives m a → got none m = a.
Proof. intros Hm. unfold got. by destruct (Hm fresh_log) as [g ->]. Qed.

Lemma gives_bind {A B} (m : stM Empty_set log A) (k : A → stM Empty_set log B) a b :
  gives m a → gives (k a) b → gives (m ≫= k) b.
Proof. intros Hm Hk g. rewrite stM_bind_eq. destruct (Hm g) as [g1 ->]. apply Hk. Qed.

Lemma gives_ret {A} (a : A) : gives (mret a) a.
Proof. intros g. by exists g. Qed.

Lemma getopt_gives c name : named c → gives (getopt c name) (resolve c name ≫= opt_at c).
Proof.
  intros Hn. eapply gives_bind; [|apply gives_ret]. intros g.
  destruct (getopt_resolve c name Hn g) as (g' & E & _). by exists g'.
Qed.

Definition texts (vs : list cfg_value_t) : list str :=
  omap (fun v => match v with VStr s => s | _ => None end) vs.
Definition numbers (vs : list cfg_value_t) : list Z :=
  omap (fun v => match v with VInt n => Some n | _ => None end) vs.

Lemma texts_lookup vs i :
  Forall (value_ok TYPE_STR) vs →
  texts vs !! i = vs !! i ≫= (fun v => match v with VStr s => s | _ => None end) ∧ length (texts vs) = length vs.
Proof.
  intros Hv. revert i. induction Hv as [|v vs [s ->] _ IH]; intros i; [done|]. cbn.
  split; [destruct i as [|i]; [done|apply IH]|]. f_equal. by apply (IH 0).
Qed.

Lemma getnstr_gives o i :
  opt_type (un o) = TYPE_STR → simple_value (un o) = None → values_ok o →
  gives (cfg_opt_getnstr (Some o) i) (texts (opt_values (un o)) !! i).
Proof.
  intros Et Es Hv. unfold values_ok in Hv. rewrite Et in Hv. destruct (texts_lookup _ i Hv) as [-> _].
  intros g. unfold cfg_opt_getnstr, opt_getn. rewrite Et, Es. cbn. destruct (opt_values (un o) !! i) as [v|] eqn:E.
  - eapply Forall_lookup_1 in Hv as [s ->]; [|exact E]. by exists g.
  - by exists g.
Qed.

Lemma getint_gives o :
  opt_type (un o) = TYPE_INT → simple_value (un o) = None → values_ok o →
  gives (cfg_opt_getnint (Some o) 0) (default 0%Z (head (numbers (opt_values (un o))))).
Proof.
  intros Et Es Hv g. unfold values_ok in Hv. rewrite Et in Hv. unfold cfg_opt_getnint, opt_getn. rewrite Et, Es. cbn.
  destruct Hv as [|v vs [n ->] _]; by exists g.
Qed.
