(* ===== verification/ConfuseEdit.v ===== *)
(** * Changing a tree from the program (third/confuse/src/confuse.c)

    The functions that set values by name, add to lists, and add and remove
    sections, and those that set the callbacks of an option. *)
From S2P Require Import Prelude.
From S2P Require Import CLib.
From S2P Require Import ConfuseScanner.
From S2P Require Import ConfuseRules.
From S2P Require Import ConfuseLexer.
From S2P Require Import ConfuseFiles.
From S2P Require Import ConfuseData.
From S2P Require Import ConfuseTree.
From S2P Require Import Confuse.
From S2P Require Import ConfuseGrammar.
From S2P Require Import ConfuseLookup.
From S2P Require Import ConfuseParse.
From S2P Require Import ConfuseTyped.

(** ** [cfg_getopt_array] *)
(** An option of a table, or of the tables of its sections: the options of the
    section that is there once, or else those every new one will have. *)
Inductive array_step : Type := There (i : nat) | Subopts (i : nat).
Definition array_path : Type := list array_step * nat.

(** The options after a step. *)
Definition step_opts (opts : list cfg_opt_t) (s : array_step) : option (list cfg_opt_t) :=
  match s with
  | There i => o ← opts !! i; v ← opt_values (un o) !! 0; s ← value_section v; Some (sec_opts s)
  | Subopts i => o ← opts !! i; opt_subopts (un o)
  end.

Fixpoint cfg_getopt_array (fuel : nat) (opts : list cfg_opt_t) (flags : Z) (at_ : list array_step) (name : str)
  : GM (option array_path) :=
  match fuel with
  | O => lift Undef
  | S fuel =>
      match find_char "|" name with
      | None => mret (pair at_ <$> find_index (fun o => same_name flags (opt_name (un o)) name) opts)
      | Some O => cfg_getopt_array fuel opts flags at_ (skip_bars name)
      | Some len =>
          match (i ← find_index (fun o => same_name flags (opt_name (un o)) (take len name)) opts;
                 o ← opts !! i; Some (i, o)) with
          | None => mret None
          | Some (i, o) =>
              if negb (type_is (opt_type (un o)) TYPE_SEC) then mret None
              else
                seccfg ← (if is_set CFGF_MULTI (opt_flags (un o)) then mret None else cfg_opt_getnsec (Some o) 0);
                let s := if seccfg is Some _ then There i else Subopts i in
                match step_opts opts s with
                | None => mret None
                | Some opts => cfg_getopt_array fuel opts flags (at_ ++ [s]) (skip_bars (drop len name))
                end
          end
      end
  end.

Definition with_subopts (l : option (list cfg_opt_t)) (o : cfg_opt_t) : cfg_opt_t :=
  let o := un o in
  Opt (OptR (opt_name o) (opt_comment o) (opt_type o) (opt_values o) (opt_flags o) l (opt_def o)
         (opt_func o) (simple_value o) (parsecb o) (validcb o) (validcb2 o) (opt_pf o)).

(** The option at the end of a path, and the options with a change there. *)
Fixpoint array_at (steps : list array_step) (i : nat) (opts : list cfg_opt_t) : option cfg_opt_t :=
  match steps with
  | [] => opts !! i
  | s :: steps => opts ← step_opts opts s; array_at steps i opts
  end.

Fixpoint alter_array (f : cfg_opt_t → cfg_opt_t) (steps : list array_step) (i : nat) (opts : list cfg_opt_t)
  : list cfg_opt_t :=
  match steps with
  | [] => alter f i opts
  | There k :: steps =>
      alter (alter_value (fun v => match v with VSec s => VSec (with_opts (alter_array f steps i (sec_opts s)) s) | v => v end) 0)
        k opts
  | Subopts k :: steps =>
      alter (fun o => with_subopts (alter_array f steps i <$> opt_subopts (un o)) o) k opts
  end.

Section Edit.
Context {U : Type} `{Host} `{Callbacks U}.

Abbreviation PM := (stM aborted (parser U)).

(** The option of a name, with what the lookup reports. *)
Definition find_opt (name : str) : PM (option opt_path) := c ← cfg; reading (cfg_getopt c name).

(** ** Values by name *)

(** [validcb2] of the option, if there is one, does not give 0. *)
Definition refused_value (o : cfg_opt_t) (v : cfg_value_t) : bool :=
  match validcb2 (un o) with Some cb => negb (call_valid2 cb v =? 0)%Z | None => false end.

(** The shape of the setters: the option of the name, its validation when
    [check] is given, and [set] on it. *)
Definition set_named (check : option cfg_value_t) (set : cfg_opt_t → PM (cfg_opt_t * Z)) (name : str) : PM Z :=
  p ← find_opt name;
  match p with
  | None => fails EINVAL CFG_FAIL
  | Some p =>
      o ← option_at p;
      if (if check is Some v then refused_value o v else false) then mret CFG_FAIL
      else '(o, ret) ← set o; change_opt p (fun _ => o);; mret ret
  end.

Definition cfg_setnint (name : str) (value : Z) (index : nat) : PM Z :=
  set_named (Some (VInt value)) (fun o => cfg_opt_setnint o value index) name.
Definition cfg_setint (name : str) (value : Z) : PM Z := cfg_setnint name value 0.
Definition cfg_setnbool (name : str) (value : Z) (index : nat) : PM Z :=
  set_named None (fun o => cfg_opt_setnbool o value index) name.
Definition cfg_setbool (name : str) (value : Z) : PM Z := cfg_setnbool name value 0.
Definition cfg_setnstr (name : str) (value : option str) (index : nat) : PM Z :=
  set_named (Some (VStr value)) (fun o => cfg_opt_setnstr o value index) name.
Definition cfg_setstr (name : str) (value : option str) : PM Z := cfg_setnstr name value 0.

Definition cfg_setcomment (name : str) (comment : option str) : PM Z :=
  p ← find_opt name;
  match p with
  | None => fails EINVAL CFG_FAIL
  | Some p => cfg_opt_setcomment p comment
  end.

(** ** Lists *)

(** [cfg_addlist_internal]: the arguments after the count, read as the type of
    the option; another one is not modelled. *)
Fixpoint cfg_addlist_internal (o : cfg_opt_t) (values : list cfg_value_t) (result : Z) : PM (cfg_opt_t * Z) :=
  match values with
  | [] => mret (o, result)
  | v :: values =>
      let n := length (opt_values (un o)) in
      '(o, result) ←
        match opt_type (un o), v with
        | TYPE_INT, VInt i => cfg_opt_setnint o i n
        | TYPE_BOOL, VBool b => cfg_opt_setnbool o b n
        | TYPE_STR, VStr s => cfg_opt_setnstr o s n
        | TYPE_INT, _ | TYPE_BOOL, _ | TYPE_STR, _ | TYPE_FLOAT, _ => lift Undef
        | _, _ => mret (o, CFG_SUCCESS)
        end;
      cfg_addlist_internal o values result
  end.

(** [cfg_setlist] and [cfg_addlist]: with [clear] the values are freed first. *)
Definition edit_list (clear : bool) (name : str) (values : list cfg_value_t) : PM Z :=
  p ← find_opt name;
  match p with
  | None => fails EINVAL CFG_FAIL
  | Some p =>
      o ← option_at p;
      if negb (is_set CFGF_LIST (opt_flags (un o))) then fails EINVAL CFG_FAIL
      else
        when clear (free_opt_values p);;
        o ← option_at p;
        '(o, _) ← cfg_addlist_internal o values CFG_FAIL;
        change_opt p (fun _ => o);;
        mret CFG_SUCCESS
  end.

Definition cfg_setlist : str → list cfg_value_t → PM Z := edit_list true.
Definition cfg_addlist : str → list cfg_value_t → PM Z := edit_list false.

(** *** [cfg_opt_setmulti] *)

(** Every value, as a text. *)
Fixpoint set_each (fuel : nat) (p : opt_path) (values : list (option str)) : PM bool :=
  match values with
  | [] => mret true
  | v :: values =>
      val ← cfg_setopt fuel p v;
      if val is Some _ then set_each fuel p values else mret false
  end.

(** The old values are freed, or put back when a new one is refused.  Freeing
    the copy of the option frees the comment they share, and what the option
    is left with is not modelled. *)
Definition cfg_opt_setmulti (fuel : nat) (p : option opt_path) (values : list (option str)) : PM Z :=
  match p, values with
  | Some p, _ :: _ =>
      old ← option_at p;
      change_opt p (with_values []);;
      ok ← set_each fuel p values;
      if ok : bool then
        set_lexer (free_values old);;
        if negb (bool_decide (opt_comment (un old) = None)) && negb (is_set CFGF_RESET (opt_flags (un old)))
        then lift Undef else mret CFG_SUCCESS
      else
        free_opt_values p;;
        change_opt p (with_values (opt_values (un old)));;
        mret CFG_FAIL
  | _, _ => fails EINVAL CFG_FAIL
  end.

Definition cfg_setmulti (fuel : nat) (name : str) (values : list (option str)) : PM Z :=
  p ← find_opt name;
  match p with
  | None => fails ENOENT CFG_FAIL
  | Some p => cfg_opt_setmulti fuel (Some p) values
  end.

(** ** Sections *)

(** [cfg_addtsec]: the place of the new section. *)
Definition cfg_addtsec (fuel : nat) (name : str) (title : option str) : PM (option sec_path) :=
  c ← cfg;
  found ← reading (cfg_gettsec c name title);
  if found is Some _ then mret None
  else
    p ← find_opt name;
    match p with
    | None => error_message (no_such_option name);; mret None
    | Some p =>
        val ← cfg_setopt fuel p title;
        match val with
        | None => mret None
        | Some Simple => lift Undef
        | Some (Nth k) =>
            let inside := fst p ++ [(snd p, k)] in
            c ← cfg;
            in_section inside
              (set_cfg (fun s => with_pos (Position (pos_filename (sec_pos s)) 1 (pos_path (sec_pos c))) s));;
            mret (Some inside)
        end
    end.

(** [cfg_opt_rmnsec].  Freeing a section frees the search path it shares with
    the sections above, which is not modelled. *)
Definition cfg_opt_rmnsec (p : option opt_path) (index : nat) : PM Z :=
  match p with
  | None => fails EINVAL CFG_FAIL
  | Some p =>
      o ← option_at p;
      if negb (type_is (opt_type (un o)) TYPE_SEC) then fails EINVAL CFG_FAIL
      else
        let n := cfg_opt_size (Some o) in
        if n <=? index then mret CFG_FAIL
        else
          '(o', pl) ← cfg_opt_getval o index;
          match pl with
          | None => mret CFG_FAIL
          | Some Simple => lift Undef
          | Some (Nth k) =>
              v ← lift (deref (opt_values (un o') !! k));
              if negb (cfg_opt_size (Some o') =? n) then lift Undef
              else
                change_opt p (fun _ => with_values (delete index (opt_values (un o'))) o');;
                (match value_section v with
                 | Some s =>
                     if bool_decide (pos_path (sec_pos s) = []) then set_lexer (cfg_free s) else lift Undef
                 | None => fails EINVAL tt
                 end);;
                mret CFG_SUCCESS
          end
  end.

Definition cfg_rmnsec (name : str) (index : nat) : PM Z := p ← find_opt name; cfg_opt_rmnsec p index.
Definition cfg_rmsec (name : str) : PM Z := cfg_rmnsec name 0.

(** [cfg_opt_rmtsec] *)
Definition cfg_opt_rmtsec (p : option opt_path) (title : option str) : PM Z :=
  match p, title with
  | Some p, Some title =>
      o ← option_at p;
      if negb (is_set CFGF_TITLE (opt_flags (un o))) then mret CFG_FAIL
      else
        match find_title (opt_flags (un o)) title (opt_values (un o)) 0 with
        | Some (Some i) => cfg_opt_rmnsec (Some p) i
        | _ => mret CFG_FAIL
        end
  | _, _ => fails EINVAL CFG_FAIL
  end.

Definition cfg_rmtsec (name : str) (title : option str) : PM Z := p ← find_opt name; cfg_opt_rmtsec p title.

(** ** Callbacks of an option *)

(** [cfg_opt_set_print_func]: the old callback. *)
Definition cfg_opt_set_print_func (p : option opt_path) (pf : option nat) : PM (option nat) :=
  match p with
  | None => fails EINVAL None
  | Some p => o ← option_at p; change_opt p (with_pf pf);; mret (opt_pf (un o))
  end.

Definition cfg_set_print_func (name : str) (pf : option nat) : PM (option nat) :=
  p ← find_opt name; cfg_opt_set_print_func p pf.

(** [cfg_set_validate_func], [cfg_set_validate_func2]: the callback of an
    option of [cfg_getopt_array], which gives the old one. *)
Definition set_callback (get : option_of cfg_opt_t → option nat) (set : option nat → cfg_opt_t → cfg_opt_t)
    (name : str) (vf : option nat) : PM (option nat) :=
  c ← cfg;
  p ← reading (cfg_getopt_array (S (length name)) (sec_opts c) (sec_flags c) [] (c_str name));
  match p with
  | None => mret None
  | Some (steps, i) =>
      o ← lift (deref (array_at steps i (sec_opts c)));
      set_cfg (fun c => with_opts (alter_array (set vf) steps i (sec_opts c)) c);;
      mret (get (un o))
  end.

Definition cfg_set_validate_func : str → option nat → PM (option nat) := set_callback validcb with_validcb.
Definition cfg_set_validate_func2 : str → option nat → PM (option nat) := set_callback validcb2 with_validcb2.
End Edit.

(** * Theorems *)

Section Setters.
Context {U : Type} `{Host} `{Callbacks U}.

Abbreviation PM := (stM aborted (parser U)).

(** The values the setters start from: none when they are to be reset. *)
Definition base (o : cfg_opt_t) : list cfg_value_t := if resets o then [] else opt_values (un o).

Definition put {A} (index : nat) (x : A) (l : list A) : list A :=
  if length l <=? index then l ++ [x] else <[index := x]> l.

(** Indices the code accepts. *)
Definition index_ok (o : cfg_opt_t) (index : nat) : Prop :=
  index = 0 ∨ is_list o = true ∨ is_set CFGF_MULTI (opt_flags (un o)) = true.

Lemma alter_last (l : list cfg_value_t) v w : alter (fun _ => v) (length l) (l ++ [w]) = l ++ [v].
Proof. induction l as [|x l IH]; cbn; [done|]. f_equal. apply IH. Qed.

Lemma alter_insert (l : list cfg_value_t) i v : alter (fun _ => v) i l = <[i := v]> l.
Proof. revert i. induction l as [|x l IH]; intros [|i]; cbn; try done. f_equal. apply IH. Qed.

(** What a setter may change of an option but its values. *)
Definition same_but_values (o o' : cfg_opt_t) : Prop :=
  static o' = static o ∧ is_list o' = is_list o ∧ (resets o = false → resets o' = false).

(** The option whose pending reset is done. *)
Lemma reset_done o (s : parser U) :
  opt_type (un o) ≠ TYPE_SEC →
  ∃ o', (if resets o then set_lexer (free_values o);; mret (with_flags (clear_flag CFGF_RESET) (cfg_free_value o))
         else mret o : PM cfg_opt_t) s = (s, Ret o') ∧
    opt_values (un o') = base o ∧ same_but_values o o' ∧ resets o' = false ∧ opt_type (un o') = opt_type (un o).
Proof.
  intros Ht. assert (type_is (opt_type (un o)) TYPE_SEC = false) as Hs by by apply bool_decide_eq_false.
  unfold base, same_but_values. destruct (resets o) eqn:Er; [|by eexists].
  eexists. rewrite stM_bind_eq. unfold set_lexer, modify. cbn -[is_set]. unfold free_values. rewrite Hs.
  split; [by destruct s|].
  unfold cfg_free_value. unfold resets in Er. rewrite Er. destruct o as [o]. unfold resets, is_list. cbn in *.
  rewrite reset_off, is_set_clear by done. repeat split.
  unfold static, mask, with_flags, with_values. cbn. rewrite Hs. unfold clear_flag.
  by rewrite <- Z.land_assoc, Z.land_diag.
Qed.

Lemma same_with_values o o' vs :
  same_but_values o o' → same_but_values o (with_values vs o') ∧ resets (with_values vs o') = resets o' ∧
  opt_type (un (with_values vs o')) = opt_type (un o').
Proof. by destruct o' as [o']. Qed.

Lemma same_trans o o' o'' : same_but_values o o' → same_but_values o' o'' → same_but_values o o''.
Proof. intros (H1 & H2 & H3) (H4 & H5 & H6). split; [congruence|]. split; [congruence|auto]. Qed.

(** A setter on a value of the type of the option. *)
Lemma opt_setn_run t v o index (s : parser U) :
  opt_type (un o) = t → t ≠ TYPE_SEC → simple_value (un o) = None → index_ok o index →
  ∃ o', opt_setn t v o index s = (s, Ret (o', CFG_SUCCESS)) ∧ opt_values (un o') = put index v (base o) ∧
    same_but_values o o' ∧ resets o' = false ∧ opt_type (un o') = t.
Proof.
  intros Et Ht Es Hi. unfold opt_setn. assert (type_is (opt_type (un o)) t = true) as -> by by apply bool_decide_eq_true.
  unfold cfg_opt_getval. fold (is_list o) (resets o).
  assert (negb (index =? 0) && negb (is_list o) && negb (is_set CFGF_MULTI (opt_flags (un o))) = false) as ->.
  { destruct Hi as [->|[->| ->]]; [done|..]; by rewrite ?andb_false_r. }
  rewrite Es. destruct (reset_done o s) as (o' & E & Ev & Hsame & Er & Et'); [congruence|].
  cbn [negb]. rewrite !stM_bind_eq, E, <- Ev. unfold put. rewrite Et in Et'.
  destruct (length (opt_values (un o')) <=? index).
  - eexists. split; [done|]. unfold write, alter_value, cfg_addval. rewrite !un_with_values. cbn [opt_values].
    rewrite alter_last. split; [done|].
    destruct (same_with_values o o' (opt_values (un o') ++ [VZero]) Hsame) as (Hs & Hr & Ht').
    destruct (same_with_values o _ (opt_values (un o') ++ [v]) Hs) as (Hs' & Hr' & Ht'').
    split; [exact Hs'|]. split; [by rewrite Hr', Hr|exact Et'].
  - eexists. split; [done|]. unfold write, alter_value. rewrite !un_with_values. cbn [opt_values].
    rewrite alter_insert. split; [done|].
    destruct (same_with_values o o' (<[index:=v]> (opt_values (un o'))) Hsame) as (Hs & Hr & Ht').
    split; [exact Hs|]. split; [by rewrite Hr|exact Et'].
Qed.

(** *** Lists *)

(** The arguments are of the type of the option. *)
Definition arguments_ok (t : cfg_type) (v : cfg_value_t) : Prop :=
  match t with
  | TYPE_INT => ∃ n, v = VInt n
  | TYPE_BOOL => ∃ b, v = VBool b
  | TYPE_STR => ∃ s, v = VStr s
  | _ => False
  end.

(** A text ends at its first null byte. *)
Definition as_stored (v : cfg_value_t) : cfg_value_t := match v with VStr s => VStr (c_str <$> s) | v => v end.

Lemma put_last {A} (x : A) l n : length l ≤ n → put n x l = l ++ [x].
Proof. intros Hn. unfold put. by rewrite (proj2 (Nat.leb_le _ _) Hn). Qed.

Lemma addlist_run o values r (s : parser U) :
  simple_value (un o) = None → is_list o = true → Forall (arguments_ok (opt_type (un o))) values →
  ∃ o' r', cfg_addlist_internal o values r s = (s, Ret (o', r')) ∧ same_but_values o o' ∧
    opt_values (un o') = (if values is [] then opt_values (un o) else base o ++ (as_stored <$> values)).
Proof.
  revert o r. induction values as [|v values IH]; intros o r Es Hl Hv; [by exists o, r|].
  apply Forall_cons in Hv as [Hv Hvs]. cbn [cfg_addlist_internal].
  set (n := length (opt_values (un o))). set (t := opt_type (un o)) in *.
  assert (t ≠ TYPE_SEC) as Ht by (by intros E; rewrite E in Hv).
  destruct (opt_setn_run t (as_stored v) o n s eq_refl Ht Es) as (o1 & E1 & Ev1 & Hs1 & Er1 & Et1); [by right; left|].
  assert (match t, v with
    | TYPE_INT, VInt i => cfg_opt_setnint o i n
    | TYPE_BOOL, VBool b => cfg_opt_setnbool o b n
    | TYPE_STR, VStr s => cfg_opt_setnstr o s n
    | TYPE_INT, _ | TYPE_BOOL, _ | TYPE_STR, _ | TYPE_FLOAT, _ => lift Undef
    | _, _ => mret (o, CFG_SUCCESS)
    end = opt_setn t (as_stored v) o n) as ->.
  { clear - Hv. destruct t; try done; destruct Hv as [? ->]; reflexivity. }
  rewrite stM_bind_eq, E1. destruct (IH o1 CFG_SUCCESS) as (o2 & r2 & E2 & Hs2 & Ev2).
  - clear - Hs1 Es. destruct o as [o], o1 as [o1], Hs1 as [Hst _]. unfold static, mask in Hst. cbn in *. by injection Hst as _ _ _ _ _ _ _ -> _.
  - destruct Hs1 as (_ & -> & _). done.
  - by rewrite Et1.
  - exists o2, r2. split; [exact E2|]. split; [by eapply same_trans|]. rewrite Ev2.
    rewrite put_last in Ev1.
    + unfold base at 1. rewrite Er1. destruct values; [by rewrite Ev1|]. rewrite Ev1, <- app_assoc. done.
    + unfold base, n. destruct (resets o); cbn; lia.
Qed.

(** ** The functions by name *)

Lemma find_opt_run name (s : parser U) p :
  named (pcfg s) → resolve (pcfg s) name = Some p →
  ∃ g, find_opt name s = (Parser (plex s) g (pcfg s) (puser s), Ret (Some p)).
Proof.
  intros Hn Hp. unfold find_opt, cfg. rewrite !stM_bind_eq. cbn. unfold reading.
  destruct (getopt_resolve (pcfg s) name Hn (plog s)) as (g & -> & _). exists g. by rewrite Hp.
Qed.

Lemma option_at_run p (s : parser U) o : opt_at (pcfg s) p = Some o → option_at p s = (s, Ret o).
Proof. intros E. unfold option_at, cfg. rewrite !stM_bind_eq. cbn. by rewrite E. Qed.

Lemma put_no_sections o v index :
  no_sections o → value_section v = None → ∀ w, w ∈ put index v (base o) → value_section w = None.
Proof.
  intros Ho Hv w. unfold put. assert (∀ w, w ∈ base o → value_section w = None) as Hb.
  { intros x. unfold base. destruct (resets o); [by intros ?%not_elem_of_nil|apply Ho]. }
  destruct (_ <=? _).
  - intros [Hw|Hw%list_elem_of_singleton]%elem_of_app; [by apply Hb|by subst].
  - intros [i Hi]%list_elem_of_lookup. apply list_lookup_insert_Some in Hi as [(_ & -> & _)|[_ Hi]]; [done|].
    eapply Hb, list_elem_of_lookup_2, Hi.
Qed.

(** A setter by name changes the option of that name only. *)
Lemma set_named_run t v check name index (s : parser U) p o :
  named (pcfg s) → resolve (pcfg s) name = Some p → opt_at (pcfg s) p = Some o →
  opt_type (un o) = t → t ≠ TYPE_SEC → simple_value (un o) = None → index_ok o index → no_sections o →
  value_section v = None → (check ≠ None → validcb2 (un o) = None) →
  ∃ s' o', set_named check (fun o => opt_setn t v o index) name s = (s', Ret CFG_SUCCESS) ∧
    changed p o' (pcfg s) (pcfg s') ∧ opt_values (un o') = put index v (base o) ∧ same_but_values o o'.
Proof.
  intros Hn Hp Ho Et Ht Es Hi Hns Hv Hc. unfold set_named.
  destruct (find_opt_run name s p Hn Hp) as [g E]. rewrite stM_bind_eq, E.
  rewrite stM_bind_eq, (option_at_run _ _ o) by done.
  assert ((if check is Some v then refused_value o v else false) = false) as ->.
  { destruct check as [w|]; [|done]. unfold refused_value. by rewrite Hc. }
  destruct (opt_setn_run t v o index (Parser (plex s) g (pcfg s) (puser s)) Et Ht Es Hi)
    as (o' & E' & Ev & Hs & _).
  rewrite stM_bind_eq, E'. eexists _, o'. split; [done|]. split; [|done].
  apply (alter_changed (fun _ => o') p (pcfg s) o); [done..|].
  unfold no_sections. rewrite Ev. by apply put_no_sections.
Qed.

(** Such a change is seen by the getters. *)
Lemma getopt_changed c c' name p o o' :
  named c → resolve c name = Some p → opt_at c p = Some o → changed p o' c c' → static o' = static o →
  gives (getopt c' name) (Some o').
Proof.
  intros Hn Hp Ho (E & Hv & Hs) Hst.
  assert (alike c c') as Ha.
  { apply alike_views; [|done]. intros q. rewrite Hv. case_bool_decide as Eq; [subst|done].
    unfold opt_view. rewrite Ho. cbn. by rewrite !static_mask, Hst. }
  assert (resolve c' name = Some p) as Hp'.
  { rewrite <- Hp. symmetry. apply resolve_alike; [done..|]. specialize (Hs []). by apply (inj Some) in Hs. }
  replace (Some o') with (resolve c' name ≫= opt_at c') by (by rewrite Hp').
  apply getopt_gives. intros q h. rewrite Hs. apply Hn.
Qed.

Lemma static_types o o' : static o' = static o →
  opt_type (un o') = opt_type (un o) ∧ simple_value (un o') = simple_value (un o).
Proof. destruct o as [o], o' as [o']. unfold static, mask. cbn. by intros [= _ _ -> _ _ _ _ -> _]. Qed.

(** [cfg_setint] and [cfg_getint]: a value that is set is read back, at any
    index the option takes, and the other options are as before. *)
Theorem cfg_setnint_getnint name n index (s : parser U) p o :
  named (pcfg s) → resolve (pcfg s) name = Some p → opt_at (pcfg s) p = Some o →
  opt_type (un o) = TYPE_INT → simple_value (un o) = None → validcb2 (un o) = None → no_sections o →
  index_ok o index → index ≤ length (base o) →
  ∃ s' o', cfg_setnint name n index s = (s', Ret CFG_SUCCESS) ∧ gives (cfg_getnint (pcfg s') name index) n ∧
    changed p o' (pcfg s) (pcfg s').
Proof.
  intros Hn Hp Ho Et Es Hc Hns Hi Hl.
  destruct (set_named_run TYPE_INT (VInt n) (Some (VInt n)) name index s p o) as (s' & o' & E & Hch & Ev & Hst & _);
    [done..|].
  exists s', o'. split; [exact E|]. split; [|done].
  eapply gives_bind; [by eapply getopt_changed|]. intros g. exists g.
  destruct (static_types _ _ Hst) as [Et' Es']. unfold cfg_opt_getnint, opt_getn. rewrite Et', Et. cbn.
  assert (opt_values (un o') !! index = Some (VInt n)) as ->; [|done]. rewrite Ev. unfold put.
  destruct (length (base o) <=? index) eqn:El.
  - apply Nat.leb_le in El. by rewrite lookup_app_r, (proj2 (Nat.sub_0_le _ _)) by lia.
  - apply Nat.leb_gt in El. by apply list_lookup_insert_eq.
Qed.

(** [cfg_setlist] and [cfg_addlist] on a list of values. *)
Lemma edit_list_run clear name values (s : parser U) p o :
  named (pcfg s) → resolve (pcfg s) name = Some p → opt_at (pcfg s) p = Some o →
  simple_value (un o) = None → is_list o = true → no_sections o → opt_type (un o) ≠ TYPE_SEC →
  Forall (arguments_ok (opt_type (un o))) values → values ≠ [] →
  ∃ s' o', edit_list clear name values s = (s', Ret CFG_SUCCESS) ∧ changed p o' (pcfg s) (pcfg s') ∧
    opt_values (un o') = (if clear then [] else base o) ++ (as_stored <$> values).
Proof.
  intros Hn Hp Ho Es Hl Hns Ht Hv Hne. unfold edit_list.
  destruct (find_opt_run name s p Hn Hp) as [g E]. rewrite stM_bind_eq, E.
  rewrite stM_bind_eq, (option_at_run _ _ o) by done. fold (is_list o). rewrite Hl. cbn [negb].
  set (s0 := Parser (plex s) g (pcfg s) (puser s)).
  assert (∃ s1 o1, (when clear (free_opt_values p) : PM unit) s0 = (s1, Ret tt) ∧ opt_at (pcfg s1) p = Some o1 ∧
    changed p o1 (pcfg s) (pcfg s1) ∧ no_sections o1 ∧ simple_value (un o1) = None ∧ is_list o1 = true ∧
    opt_type (un o1) = opt_type (un o) ∧ base o1 = if clear then [] else base o) as
    (s1 & o1 & E1 & Ho1 & Hch & Hns1 & Es1 & Hl1 & Et1 & Hb).
  { destruct clear; cbn.
    - unfold free_opt_values. rewrite stM_bind_eq, (option_at_run _ _ o) by done.
      assert (type_is (opt_type (un o)) TYPE_SEC = false) as Hs by by apply bool_decide_eq_false.
      rewrite stM_bind_eq. unfold set_lexer, modify. cbn -[cfg_free_value]. unfold free_values. rewrite Hs.
      eexists _, (cfg_free_value o). split; [done|].
      assert (no_sections (cfg_free_value o)) as Hnf.
      { intros w Hw. unfold cfg_free_value in Hw. rewrite un_with_values in Hw. by apply not_elem_of_nil in Hw. }
      pose proof (alter_changed cfg_free_value p (pcfg s) o Ho Hns Hnf) as Hc.
      split; [apply Hc|]. split; [exact Hc|]. split; [done|].
      unfold base, resets, cfg_free_value. destruct o as [o]. unfold is_list in *. cbn in *.
      destruct (is_set CFGF_RESET (opt_flags o)) eqn:Er; cbn; by rewrite ?Er.
    - exists s0, o. repeat split; try done. by apply changed_refl. }
  rewrite stM_bind_eq, E1, stM_bind_eq, (option_at_run _ _ o1) by done.
  destruct (addlist_run o1 values CFG_FAIL s1 Es1 Hl1) as (o2 & r2 & E2 & Hs2 & Ev2); [by rewrite Et1|].
  rewrite stM_bind_eq, E2. eexists _, o2. split; [done|].
  assert (opt_values (un o2) = (if clear then [] else base o) ++ (as_stored <$> values)) as Ev.
  { rewrite Ev2, Hb. by destruct values. }
  split; [|exact Ev]. eapply changed_trans; [exact Hch|].
  apply (alter_changed (fun _ => o2) p (pcfg s1) o1); [done..|].
  intros w. rewrite Ev. intros [Hw|Hw]%elem_of_app.
  - destruct clear; [by apply not_elem_of_nil in Hw|]. unfold base in Hw.
    destruct (resets o); [by apply not_elem_of_nil in Hw|by apply Hns].
  - apply list_elem_of_fmap in Hw as (x & -> & Hx). eapply Forall_forall in Hv; [|exact Hx].
    destruct (opt_type (un o)); try done; destruct Hv as [? ->]; done.
Qed.

(** [cfg_setlist]: the list has the new values only. *)
Theorem cfg_setlist_values name values (s : parser U) p o :
  named (pcfg s) → resolve (pcfg s) name = Some p → opt_at (pcfg s) p = Some o →
  simple_value (un o) = None → is_list o = true → no_sections o → opt_type (un o) ≠ TYPE_SEC →
  Forall (arguments_ok (opt_type (un o))) values → values ≠ [] →
  ∃ s' o', cfg_setlist name values s = (s', Ret CFG_SUCCESS) ∧ changed p o' (pcfg s) (pcfg s') ∧
    opt_values (un o') = as_stored <$> values.
Proof. intros. by apply (edit_list_run true name values s p o). Qed.

(** [cfg_addlist]: they come after those that are there, unless these are the
    defaults: then they take their place. *)
Theorem cfg_addlist_values name values (s : parser U) p o :
  named (pcfg s) → resolve (pcfg s) name = Some p → opt_at (pcfg s) p = Some o →
  simple_value (un o) = None → is_list o = true → no_sections o → opt_type (un o) ≠ TYPE_SEC →
  Forall (arguments_ok (opt_type (un o))) values → values ≠ [] →
  ∃ s' o', cfg_addlist name values s = (s', Ret CFG_SUCCESS) ∧ changed p o' (pcfg s) (pcfg s') ∧
    opt_values (un o') = (if resets o then [] else opt_values (un o)) ++ (as_stored <$> values).
Proof. intros. by apply (edit_list_run false name values s p o). Qed.

(** [cfg_opt_rmnsec]: one section of the option is removed. *)
Theorem cfg_opt_rmnsec_values p index (s : parser U) o sec :
  opt_at (pcfg s) p = Some o → opt_type (un o) = TYPE_SEC → simple_value (un o) = None → resets o = false →
  index_ok o index → opt_values (un o) !! index = Some (VSec sec) → pos_path (sec_pos sec) = [] →
  cfg_opt_rmnsec (Some p) index s =
    (Parser (cfg_free sec (plex s)) (plog s)
       (alter_at (with_values (delete index (opt_values (un o)))) p (pcfg s)) (puser s), Ret CFG_SUCCESS).
Proof.
  intros Ho Et Es Er Hi Hv Hpath. unfold cfg_opt_rmnsec. rewrite stM_bind_eq, (option_at_run _ _ o) by done.
  rewrite Et. cbn [type_is negb]. unfold type_is. rewrite bool_decide_true by done. cbn [negb cfg_opt_size].
  pose proof (lookup_lt_Some _ _ _ Hv) as Hl. rewrite (proj2 (Nat.leb_gt _ _) Hl).
  unfold cfg_opt_getval. fold (is_list o) (resets o).
  assert (negb (index =? 0) && negb (is_list o) && negb (is_set CFGF_MULTI (opt_flags (un o))) = false) as ->.
  { destruct Hi as [->|[->| ->]]; [done|..]; by rewrite ?andb_false_r. }
  rewrite Es, Er, !stM_bind_eq. cbn -[Nat.leb]. rewrite (proj2 (Nat.leb_gt _ _) Hl). cbn. rewrite Hv. cbn.
  rewrite Nat.eqb_refl. cbn. rewrite lift_bind, stM_bind_eq. cbn.
  rewrite Hpath, bool_decide_true, stM_bind_eq by done. cbn. destruct s as [l g c u]. cbn in *. unfold mret, stM_mret, alter_at.
  destruct p as [q i]. cbn. unfold opt_at in Ho. cbn in Ho.
  destruct (section_at c q) as [d|] eqn:Ed; [|done]. cbn in Ho.
  do 2 f_equal. eapply alter_section_ext; [exact Ed|]. unfold alter_opt. f_equal. apply list_alter_ext; [|done].
  intros x Hx. by simplify_eq.
Qed.
End Setters.
