(* ===== verification/ConfusePrint.v ===== *)
(** * Printing a tree (third/confuse/src/confuse.c)

    The functions that write options and sections as a text the parser can
    read.  A stream is the text written to it; the stream, the section and the
    name are not null, and writing does not fail. *)
From S2P Require Import Prelude.
From S2P Require Import CLib.
From S2P Require Import ConfuseScanner.
From S2P Require Import ConfuseRules.
From S2P Require Import ConfuseLexer.
From S2P Require Import ConfuseFiles.
From S2P Require Import ConfuseData.
From S2P Require Import Confuse.

Section Print.
Context {U : Type} `{Callbacks U}.

(** The log and the stream. *)
Abbreviation OUT := (stM Empty_set (log * str)).

Definition fprintf (text : str) : OUT unit := modify (fun '(g, fp) => (g, fp ++ text)).

(** A getter. *)
Definition asking {A} (m : GM A) : OUT A := fun '(g, fp) => let '(g, r) := m g in ((g, fp), r).

(** The bytes of a string, with a backslash before quotes and backslashes. *)
Definition escape (c : ascii) : str :=
  if Ascii.eqb c DQ then [BS; DQ] else if Ascii.eqb c BS then [BS; BS] else [c].

(** [cfg_opt_nprint_var] *)
Definition cfg_opt_nprint_var (opt : option cfg_opt_t) (index : nat) : OUT Z :=
  match opt with
  | None => asking (fail_with EINVAL CFG_FAIL)
  | Some o =>
      match opt_type (un o) with
      | TYPE_INT => n ← asking (cfg_opt_getnint opt index); fprintf (to_string n)
      | TYPE_FLOAT => lift Undef
      | TYPE_STR =>
          s ← asking (cfg_opt_getnstr opt index);
          fprintf [DQ];; fprintf (c_str (default [] s) ≫= escape);; fprintf [DQ]
      | TYPE_BOOL =>
          b ← asking (cfg_opt_getnbool opt index);
          fprintf (if negb (b =? 0)%Z then #"true" else #"false")
      | TYPE_NONE | TYPE_SEC | TYPE_FUNC | TYPE_PTR | TYPE_COMMENT => mret tt
      end;;
      mret CFG_SUCCESS
  end.

(** [cfg_indent] *)
Fixpoint cfg_indent (indent : nat) : OUT unit :=
  match indent with O => mret tt | S indent => fprintf #"  ";; cfg_indent indent end.

(** A value, by the printing callback of the option if there is one. *)
Definition print_option_value (o : cfg_opt_t) (index : nat) : OUT unit :=
  match opt_pf (un o) with
  | Some pf => fprintf (call_print pf o index)
  | None => cfg_opt_nprint_var (Some o) index;; mret tt
  end.

(** The values of a list after the first. *)
Fixpoint print_more (o : cfg_opt_t) (i n : nat) : OUT unit :=
  match n with O => mret tt | S n => fprintf #", ";; print_option_value o i;; print_more o (S i) n end.

(** A list, and a single value, which is commented out when it is not set. *)
Definition print_list (o : cfg_opt_t) (indent : nat) : OUT unit :=
  let n := length (opt_values (un o)) in
  cfg_indent indent;;
  fprintf (opt_name (un o) ++ #" = {");;
  when (negb (n =? 0)) (print_option_value o 0;; print_more o 1 (n - 1));;
  fprintf #"}".

Definition commented_out (o : cfg_opt_t) : outcome Empty_set bool :=
  let is_str := type_is (opt_type (un o)) TYPE_STR in
  match simple_value (un o), opt_values (un o) with
  | Some v, _ => if is_str then s ← value_string v; mret (bool_decide (s = None)) else mret false
  | None, [] => mret true
  | None, v :: _ => if is_str then s ← value_string v; mret (bool_decide (c_str (default [] s) = [])) else mret false
  end.

Definition print_single (o : cfg_opt_t) (indent : nat) : OUT unit :=
  cfg_indent indent;;
  out ← lift (commented_out o);
  when out (fprintf #"# ");;
  fprintf (opt_name (un o) ++ #"=");;
  print_option_value o 0.

Definition print_comment (o : cfg_opt_t) (indent : nat) : OUT unit :=
  match opt_comment (un o) with
  | Some c =>
      when (is_set CFGF_COMMENTS (opt_flags (un o)))
        (cfg_indent indent;; fprintf (#"/* " ++ c_str c ++ #" */" ++ [NL]))
  | None => mret tt
  end.

(** A loop over a list, with the sum of the results. *)
Definition sum_of {A} (f : A → OUT Z) : list A → OUT Z :=
  fix go l := match l with [] => mret 0%Z | x :: l => n ← f x; m ← go l; mret (n + m)%Z end.

(** A section of an option, without its inside; a raw one is not modelled. *)
Definition print_section (o : option_of cfg_opt_t) (indent : nat) (v : cfg_value_t) (inside : OUT Z) : OUT Z :=
  let sec := value_section v in
  cfg_indent indent;;
  fprintf (if is_set CFGF_TITLE (opt_flags o)
           then opt_name o ++ [" "%char; DQ] ++ shown (cfg_title sec) ++ DQ :: #" {" ++ [NL]
           else opt_name o ++ #" {" ++ [NL]);;
  s ← lift (deref sec);
  (if is_set CFGF_RAW (sec_flags s) then lift Undef else inside);;
  cfg_indent indent;;
  fprintf (#"}" ++ [NL]);;
  mret 0%Z.

(** [cfg_opt_print_indent] *)
Fixpoint cfg_opt_print_indent (opt : cfg_opt_t) (indent : nat) : OUT Z :=
  match opt with
  | Opt o =>
      print_comment (Opt o) indent;;
      match opt_type o with
      | TYPE_SEC =>
          sum_of (fun v => print_section o indent v
                    match v with
                    | VSec s => sum_of (fun o => cfg_opt_print_indent o (S indent)) (sec_opts s)
                    | _ => mret 0%Z
                    end) (opt_values o);;
          mret tt
      | TYPE_FUNC | TYPE_NONE =>
          match opt_pf o with
          | Some pf => cfg_indent indent;; fprintf (call_print pf (Opt o) 0);; fprintf [NL]
          | None => mret tt
          end
      | _ =>
          (if is_set CFGF_LIST (opt_flags o) then print_list (Opt o) indent else print_single (Opt o) indent);;
          fprintf [NL]
      end;;
      mret CFG_SUCCESS
  end.

Definition cfg_opt_print (opt : option cfg_opt_t) : OUT Z :=
  match opt with
  | Some o => cfg_opt_print_indent o 0
  | None => asking (fail_with EINVAL CFG_FAIL)
  end.

(** [cfg_print_indent], [cfg_print] *)
Definition cfg_print_indent (cfg : cfg_t) (indent : nat) : OUT Z :=
  sum_of (fun o => cfg_opt_print_indent o indent) (sec_opts cfg).
Definition cfg_print (cfg : cfg_t) : OUT Z := cfg_print_indent cfg 0.

(** The text of a section. *)
Definition printed (cfg : cfg_t) : option str :=
  match cfg_print cfg (fresh_log, []) with ((_, text), Ret _) => Some text | _ => None end.
End Print.
