(* ===== verification/ConfuseTokens.v ===== *)
(** * Texts whose tokens are known

    Words, numbers, quoted strings, blanks and punctuation, read by the scanner
    wherever they stand: what [cfg_yylex] gives for a text made of them. *)
From S2P Require Import Prelude.
From S2P Require Import CLib.
From S2P Require Import ConfuseScanner.
From S2P Require Import ConfuseRules.
From S2P Require Import ConfuseLexer.
From S2P Require Import ConfuseLexerSpec.
From S2P Require Import ConfuseFiles.
From S2P Require Import ConfuseData.
From S2P Require Import Confuse.
From S2P Require Import ConfusePrint.

(** ** Bytes *)

(** Letters, digits, the underscore and the hyphen. *)
Definition is_word (c : ascii) : bool :=
  let v := ord c in
  ((48 <=? v) && (v <=? 57) || (65 <=? v) && (v <=? 90) || (97 <=? v) && (v <=? 122) || (v =? 95) || (v =? 45))%Z.

Definition word (w : str) : bool := negb (bool_decide (w = [])) && forallb is_word w.

Definition is_blank (c : ascii) : bool := Ascii.eqb c " " || Ascii.eqb c TAB.
Definition is_stop (c : ascii) : bool := existsb (Ascii.eqb c) string_stops.

(** A byte that passes a test comes next. *)
Definition ahead (f : ascii → bool) (rest : str) : Prop := ∃ c r, rest = c :: r ∧ f c = true.

(** The table has one next state for the bytes that pass a test. *)
Definition goes_to (s : nat) (f : ascii → bool) (s' : nat) : bool :=
  forallb (fun c => negb (f c) || bool_decide (yy_next s c = Some s')) all_bytes.

Lemma goes_to_spec s f s' c : goes_to s f s' = true → f c = true → yy_next s c = Some s'.
Proof.
  intros Hg Hf. apply (all_bytes_forall _ c) in Hg. cbn beta in Hg. rewrite Hf in Hg. cbn in Hg.
  by apply bool_decide_eq_true in Hg.
Qed.

(** ** Scanning *)

(** A state that accepts and has no way out. *)
Lemma match_jam s n last c r act s' :
  yy_accept !! s = Some act → yy_next s c = Some s' → yy_base !! s' = Some jam_base →
  yy_match s n last (c :: r) = yy_find_action s' (S n) (if act =? 0 then last else Some (act, n)).
Proof. intros Ha Hs Hb. cbn [yy_match]. rewrite Ha. cbn. rewrite Hs. cbn. by rewrite Hb. Qed.

Lemma match_go s n last c r act s' b :
  yy_accept !! s = Some act → yy_next s c = Some s' → yy_base !! s' = Some b → b ≠ jam_base →
  yy_match s n last (c :: r) = yy_match s' (S n) (if act =? 0 then last else Some (act, n)) r.
Proof.
  intros Ha Hs Hb Hj. cbn [yy_match]. rewrite Ha. cbn. rewrite Hs. cbn. rewrite Hb. cbn.
  by apply Nat.eqb_neq in Hj as ->.
Qed.

(** A state that loops on some bytes and accepts before the others. *)
Lemma match_loop s act b inside ends w rest n last :
  yy_accept !! s = Some act → act ≠ 0 → yy_base !! s = Some b → b ≠ jam_base →
  goes_to s inside s = true → goes_to s ends 87 = true →
  forallb inside w = true → (rest = [] ∨ ahead ends rest) →
  yy_match s n last (w ++ rest) = Some (act, n + length w).
Proof.
  intros Ha Hz Hb Hj Hi He Hw Hr. revert n last. induction w as [|c w IH]; intros n last; cbn [app length].
  - rewrite Nat.add_0_r. destruct Hr as [->|(c & r & -> & Hc)].
    + cbn [yy_match]. unfold yy_find_action. rewrite Ha. cbn. by apply Nat.eqb_neq in Hz as ->.
    + rewrite (match_jam s n last c r act 87) by (done || by eapply goes_to_spec). unfold yy_find_action.
      cbn. by apply Nat.eqb_neq in Hz as ->.
  - cbn in Hw. apply andb_true_iff in Hw as [Hc Hw].
    rewrite (match_go s n last c _ act s b) by (done || by eapply goes_to_spec). rewrite IH by done.
    do 2 f_equal. lia.
Qed.

Lemma word_scan w rest :
  word w = true → ahead is_stop rest → yy_scan INITIAL (w ++ rest) = Some (45, length w).
Proof.
  unfold word. intros [Hne Hw]%andb_true_iff Hr. destruct w as [|c w]; [done|]. cbn in Hw.
  apply andb_true_iff in Hw as [Hc Hw]. unfold yy_scan. cbn [yy_start app].
  rewrite (match_go 1 0 None c _ 0 12 127) by (done || by apply (goes_to_spec _ is_word)). cbn [Nat.eqb].
  destruct w as [|d w].
  - destruct Hr as (d & r & -> & Hd). cbn [app].
    rewrite (match_jam 12 1 None d r 45 87) by (done || by apply (goes_to_spec _ is_stop)). done.
  - cbn in Hw. apply andb_true_iff in Hw as [Hd Hw]. cbn [app].
    rewrite (match_go 12 1 None d _ 45 43 67) by (done || by apply (goes_to_spec _ is_word)).
    rewrite (match_loop 43 45 67 is_word is_stop) by (done || by right). done.
Qed.

Lemma blank_scan c w rest :
  is_blank c = true → forallb is_blank w = true → (rest = [] ∨ ahead (fun c => negb (is_blank c)) rest) →
  yy_scan INITIAL (c :: w ++ rest) = Some (1, S (length w)).
Proof.
  intros Hc Hw Hr. unfold yy_scan. cbn [yy_start].
  rewrite (match_go 1 0 None c _ 0 13 138) by (done || by apply (goes_to_spec _ is_blank)). cbn [Nat.eqb].
  destruct w as [|d w].
  - rewrite app_nil_l. destruct Hr as [->|(d & r & -> & Hd)]; [done|].
    rewrite (match_jam 13 1 None d r 1 87) by (done || by apply (goes_to_spec _ (fun c => negb (is_blank c)))). done.
  - cbn in Hw. apply andb_true_iff in Hw as [Hd Hw]. cbn [app].
    rewrite (match_go 13 1 None d _ 1 45 77) by (done || by apply (goes_to_spec _ is_blank)).
    rewrite (match_loop 45 1 77 is_blank (fun c => negb (is_blank c))) by done. done.
Qed.

Definition in_line (c : ascii) : bool := negb (Ascii.eqb c NL).

(** The rest of a line. *)
Lemma line_scan line rest :
  line ≠ [] → forallb in_line line = true → yy_scan olcomment (line ++ NL :: rest) = Some (5, length line).
Proof.
  intros Hne Hl. destruct line as [|c line]; [done|]. cbn in Hl. apply andb_true_iff in Hl as [Hc Hl].
  assert (ahead (Ascii.eqb NL) (NL :: rest)) as Hr by by do 2 eexists.
  unfold yy_scan. cbn [yy_start app].
  rewrite (match_go 3 0 None c _ 5 28 0) by (done || by apply (goes_to_spec _ in_line)). cbn [Nat.eqb].
  destruct line as [|d line].
  - cbn [app]. by rewrite (match_jam 28 1 (Some (5, 0)) NL rest 5 87) by done.
  - cbn in Hl. apply andb_true_iff in Hl as [Hd Hl]. cbn [app].
    rewrite (match_go 28 1 (Some (5, 0)) d _ 5 52 0) by (done || by apply (goes_to_spec _ in_line)).
    rewrite (match_loop 52 5 0 in_line (Ascii.eqb NL)) by (done || by right). done.
Qed.

(** One byte that no longer match begins with. *)
Lemma single_scan sc c rest act s :
  yy_accept !! yy_start sc = Some 0 → yy_next (yy_start sc) c = Some s → yy_base !! s = Some jam_base →
  yy_accept !! s = Some act → act ≠ 0 →
  yy_scan sc (c :: rest) = Some (act, 1).
Proof.
  intros H0 Hs Hb Ha Hz. unfold yy_scan. rewrite (match_jam _ 0 None c rest 0 s) by done.
  unfold yy_find_action. rewrite Ha. cbn. by apply Nat.eqb_neq in Hz as ->.
Qed.

(** ** Turns *)

Section Tokens.
Context `{Host}.

(** The block of strings is as long as its length says. *)
Definition block_ok (l : lexer) : Prop :=
  match cfg_qstring l with Some q => length q = S (qstring_len l) | None => qstring_len l = 0 end.

(** Between tokens, with this text left of the only file. *)
Definition reads_at (text : str) (l : lexer) : Prop :=
  (∃ fp, buffers l = [Buffer fp text]) ∧ cfg_include_stack l = [] ∧ yy_sc l = INITIAL ∧ block_ok l.

Lemma reads_single text l : reads_at text l → single_file l.
Proof. intros ([fp E] & Hi & _). by split; [rewrite E|]. Qed.

Lemma skip_turn l l' mv ms :
  single_file l → yylex_turn l = Some (l', Out None mv ms) → tokens l = tokens l'.
Proof.
  intros Hs E. destruct (turn_spec l Hs) as (l1 & o & E1 & Hs' & _ & _ & _ & Hn & _ & _ & Hp).
  rewrite E in E1. injection E1 as <- <-. specialize (Hn eq_refl).
  assert (lex l = lex l') as El.
  { unfold lex. destruct (lex_loop_spec (S (unread l')) l' Hs' ltac:(lia)) as (l2 & tok & E2 & _).
    replace (lex_loop (S (unread l)) l) with (lex_loop (unread l) l') by (cbn [lex_loop]; by rewrite E).
    assert (∀ n m l2 r, lex_loop n l2 = Some r → n ≤ m → lex_loop m l2 = Some r) as Hmono.
    { clear. induction n as [|n IH]; intros [|m] l2 r Hr Hm; try done; [lia|]. cbn in *.
      destruct (yylex_turn l2) as [[l3 o]|]; [|done]. cbn in *. destruct (out_tok o); [done|].
      apply IH; [done|lia]. }
    rewrite E2. apply (Hmono _ _ _ _ E2). lia. }
  unfold tokens. rewrite (tokens_loop_fuel (S (pending l')) (S (pending l)) l' Hs');
    [|lia|specialize (Hp ltac:(done) ltac:(done)); lia].
  cbn [tokens_loop]. by rewrite El.
Qed.

Lemma token_turn l l' mv ms tok :
  single_file l → yylex_turn l = Some (l', Out (Some tok) mv ms) → stops tok = false →
  tokens l = (tok, cfg_yylval l') :: tokens l'.
Proof.
  intros Hs E Ht. destruct (tokens_step l Hs) as (l1 & tok1 & E1 & _ & _ & -> & _).
  unfold lex in E1. cbn [lex_loop] in E1. rewrite E in E1. cbn in E1. injection E1 as <- <-.
  by rewrite Ht.
Qed.

(** The turn of a rule. *)
Lemma turn_is l fp text bs act n a :
  buffers l = Buffer fp text :: bs → text ≠ [] → yy_scan (yy_sc l) text = Some (act, n) →
  rule_action (yy_sc l) act (take n text) = Some a →
  yylex_turn l = Some (a (set_buffers (Buffer fp (drop n text) :: bs) l)).
Proof.
  intros Hb Hne Hs Ha. unfold yylex_turn. rewrite Hb. destruct text as [|c text]; [done|].
  rewrite Hs. cbn [mbind option_bind]. by rewrite Ha.
Qed.

(** A text whose tokens, before the rest, are these. *)
Definition gives_tokens (text : str) (toks : list (Z * option str)) (rest : str) : Prop :=
  ∀ l, reads_at (text ++ rest) l → ∃ l', reads_at rest l' ∧ tokens l = toks ++ tokens l'.

Lemma gives_nil rest : gives_tokens [] [] rest.
Proof. intros l Hl. by exists l. Qed.

Lemma gives_app text text' toks toks' rest :
  gives_tokens text toks (text' ++ rest) → gives_tokens text' toks' rest →
  gives_tokens (text ++ text') (toks ++ toks') rest.
Proof.
  intros H1 H2 l. rewrite <- app_assoc. intros Hl. destruct (H1 l Hl) as (l1 & Hl1 & ->).
  destruct (H2 l1 Hl1) as (l2 & Hl2 & ->). exists l2. by rewrite app_assoc.
Qed.

(** A token that is its text. *)
Lemma gives_token text rest tok act :
  text ≠ [] → no_nul text → yy_scan INITIAL (text ++ rest) = Some (act, length text) →
  rule_action INITIAL act text = Some (token tok text) → stops tok = false →
  gives_tokens text [(tok, Some text)] rest.
Proof.
  intros Hne Hn Hs Ha Ht l Hl. pose proof (reads_single _ _ Hl) as Hsf. destruct Hl as ([fp Hb] & Hi & Hc & Hk).
  assert (yylex_turn l = Some (token tok text (set_buffers [Buffer fp rest] l))) as E.
  { rewrite (turn_is l fp (text ++ rest) [] act (length text) (token tok text)); try done.
    - by rewrite drop_app_length.
    - by destruct text.
    - by rewrite Hc.
    - by rewrite Hc, take_app_length. }
  exists (set_yylval (Some text) (set_buffers [Buffer fp rest] l)). split; [repeat split; try done; by eexists|].
  unfold token, give in E. rewrite c_str_no_nul in E by done. by rewrite (token_turn _ _ _ _ _ Hsf E Ht).
Qed.

(** A text that is skipped. *)
Lemma gives_skipped text rest act mv :
  text ≠ [] → yy_scan INITIAL (text ++ rest) = Some (act, length text) →
  rule_action INITIAL act text = Some (fun l => (l, Out None mv None)) →
  gives_tokens text [] rest.
Proof.
  intros Hne Hs Ha l Hl. pose proof (reads_single _ _ Hl) as Hsf. destruct Hl as ([fp Hb] & Hi & Hc & Hk).
  assert (yylex_turn l = Some (set_buffers [Buffer fp rest] l, Out None mv None)) as E.
  { rewrite (turn_is l fp (text ++ rest) [] act (length text) (fun l => (l, Out None mv None))); try done.
    - by rewrite drop_app_length.
    - by destruct text.
    - by rewrite Hc.
    - by rewrite Hc, take_app_length. }
  exists (set_buffers [Buffer fp rest] l). split; [repeat split; try done; by eexists|].
  by rewrite (skip_turn _ _ _ _ Hsf E).
Qed.

Lemma word_no_nul w : word w = true → no_nul w.
Proof.
  unfold word. intros [_ Hw]%andb_true_iff Hin. rewrite forallb_forall in Hw.
  apply list_elem_of_In, Hw in Hin. done.
Qed.

Lemma gives_word w rest : word w = true → ahead is_stop rest → gives_tokens w [(CFGT_STR, Some w)] rest.
Proof.
  intros Hw Hr. apply (gives_token _ _ _ 45); try done.
  - by intros ->.
  - by apply word_no_nul.
  - by apply word_scan.
Qed.

(** The punctuation the parser looks at, alone of its byte. *)
Lemma gives_punct c rest :
  c ∈ ["="; "{"; "}"; ","]%char → gives_tokens [c] [(ord c, Some [c])] rest.
Proof.
  intros Hc.
  assert (∃ act s, yy_next 1 c = Some s ∧ yy_base !! s = Some jam_base ∧ yy_accept !! s = Some act ∧ act ≠ 0 ∧
    rule_action INITIAL act [c] = Some (token (ord c) [c]) ∧ stops (ord c) = false ∧ no_nul [c]) as
    (act & s & Hs & Hb & Ha & Hz & Hr & Ht & Hn).
  { repeat (apply elem_of_cons in Hc as [->|Hc];
      [do 2 eexists; split_and!; try reflexivity; [done|by apply no_nul_bool]|]). by apply elem_of_nil in Hc. }
  apply (gives_token _ _ _ act); try done. by apply (single_scan INITIAL c rest act s).
Qed.

Lemma gives_newline rest : gives_tokens [NL] [] rest.
Proof. by apply (gives_skipped _ _ 2 (Lines 1)). Qed.

Lemma gives_blanks w rest :
  forallb is_blank w = true → (rest = [] ∨ ahead (fun c => negb (is_blank c)) rest) → gives_tokens w [] rest.
Proof.
  intros Hw Hr. destruct w as [|c w]; [apply gives_nil|]. cbn in Hw. apply andb_true_iff in Hw as [Hc Hw].
  apply (gives_skipped _ _ 1 (Lines 0)); try done. by apply blank_scan.
Qed.

(** *** Quoted strings *)

(** A string the printed form of which is read back: no null byte, and no
    variable of the environment. *)
Fixpoint safe_text (s : str) : bool :=
  match s with
  | [] => true
  | c :: r =>
      negb (Ascii.eqb c NUL) && negb (Ascii.eqb c "$" && match r with d :: _ => Ascii.eqb d "{" | [] => false end)
      && safe_text r
  end.

(** Inside a string, with [acc] read of it. *)
Definition block_has (acc : str) (l : lexer) : Prop :=
  block_ok l ∧ qstring_index l = length acc ∧ length acc ≤ qstring_len l ∧
  take (length acc) (default [] (cfg_qstring l)) = acc.

Definition string_at (acc text : str) (l : lexer) : Prop :=
  (∃ fp, buffers l = [Buffer fp text]) ∧ cfg_include_stack l = [] ∧ yy_sc l = dq_str ∧ block_has acc l.

Lemma insert_next (q acc : str) c :
  take (length acc) q = acc → length acc < length q → take (S (length acc)) (<[length acc := c]> q) = acc ++ [c].
Proof.
  intros Ht Hl. rewrite (take_S_r _ _ c) by by apply list_lookup_insert_eq.
  by rewrite take_insert_ge, Ht by lia.
Qed.

Lemma qputc_has acc c l :
  block_has acc l → block_has (acc ++ [c]) (qputc c l) ∧ buffers (qputc c l) = buffers l ∧
    cfg_include_stack (qputc c l) = cfg_include_stack l ∧ yy_sc (qputc c l) = yy_sc l.
Proof.
  intros (Hk & Hi & Hl & Ht). unfold qputc, block_has, block_ok in *. rewrite Hi, length_app. cbn [length].
  rewrite Nat.add_1_r.
  destruct (Nat.leb_spec (qstring_len l) (length acc)) as [Hge|Hlt]; cbn.
  - assert (length (take (length acc) (default [] (cfg_qstring l))) = length acc) as Hta by by rewrite Ht.
    rewrite length_insert, !length_app, Hta. cbn. unfold CFG_QSTRING_BUFSIZ.
    split_and!; try done; try lia.
    apply insert_next.
    + by rewrite take_app_le, take_idemp by (rewrite Hta; lia).
    + rewrite !length_app, Hta. cbn. lia.
  - destruct (cfg_qstring l) as [q|]; [|lia]. cbn in *. rewrite length_insert. split_and!; try done; try lia.
    apply insert_next; [done|lia].
Qed.

(** A byte of the printed string. *)
Lemma string_byte acc c text l :
  string_at acc (escape c ++ text) l → (c = "$"%char → ahead (fun d => negb (Ascii.eqb d "{")) text) →
  ∃ l', string_at (acc ++ [c]) text l' ∧ tokens l = tokens l'.
Proof.
  intros ([fp Hb] & Hi & Hc & Hk) Hd.
  assert (∃ act n mv, yy_scan dq_str (escape c ++ text) = Some (act, n) ∧ drop n (escape c ++ text) = text ∧
    rule_action dq_str act (take n (escape c ++ text)) = Some (fun l => (qputc c l, Out None mv None))) as
    (act & n & mv & Hs & Hdr & Ha).
  { unfold escape. destruct (Ascii.eqb_spec c DQ) as [->|HDQ].
    { exists 35, 2, (Lines 0). by split_and!. }
    destruct (Ascii.eqb_spec c BS) as [->|HBS].
    { exists 35, 2, (Lines 0). by split_and!. }
    destruct (Ascii.eqb_spec c NL) as [->|HNL].
    { exists 22, 1, (Lines 1). by split_and!. }
    exists 36, 1, (Lines 0). split; [|done]. cbn [app].
    destruct (Ascii.eqb_spec c "$") as [->|HS].
    - destruct (Hd eq_refl) as (d & r & -> & Hd'). unfold yy_scan. cbn [yy_start].
      rewrite (match_go 7 0 None "$" _ 0 37 65) by done. cbn [Nat.eqb].
      by rewrite (match_jam 37 1 None d r 36 87) by (done || by apply (goes_to_spec _ (fun d => negb (Ascii.eqb d "{")))).
    - apply (single_scan dq_str c text 36 34); try done. cbn [yy_start].
      apply (goes_to_spec 7 (fun c => negb (existsb (Ascii.eqb c) [DQ; BS; NL; "$"%char])) 34); [done|].
      cbn. by rewrite (proj2 (Ascii.eqb_neq _ _) HDQ), (proj2 (Ascii.eqb_neq _ _) HBS),
        (proj2 (Ascii.eqb_neq _ _) HNL), (proj2 (Ascii.eqb_neq _ _) HS). }
  assert (single_file l) as Hsf by (by split; [rewrite Hb|]).
  assert (escape c ++ text ≠ []) as Hne by (unfold escape; by repeat case_match).
  rewrite <- Hc in Hs, Ha. pose proof (turn_is _ _ _ _ _ _ _ Hb Hne Hs Ha) as E. rewrite Hdr in E.
  destruct (qputc_has acc c (set_buffers [Buffer fp text] l)) as (Hk' & Hb' & Hi' & Hc'); [exact Hk|].
  eexists. split; [|exact (skip_turn _ _ _ _ Hsf E)].
  split; [exists fp; by rewrite Hb'|]. by rewrite Hi', Hc'.
Qed.

(** The closing quote. *)
Lemma string_end acc text l :
  no_nul acc → string_at acc (DQ :: text) l →
  ∃ l', reads_at text l' ∧ tokens l = (CFGT_STR, Some acc) :: tokens l'.
Proof.
  intros Hn ([fp Hb] & Hi & Hc & Hk). assert (single_file l) as Hsf by (by split; [rewrite Hb|]).
  assert (yylex_turn l = Some (close_string (set_buffers [Buffer fp text] l))) as E.
  { unfold yylex_turn. rewrite Hb, Hc. by rewrite (single_scan dq_str DQ text 20 36) by done. }
  unfold close_string, give in E. cbn beta in E.
  set (l0 := set_sc INITIAL (set_buffers [Buffer fp text] l)) in *.
  destruct (qputc_has acc NUL l0) as (Hk' & Hb' & Hi' & Hc'); [exact Hk|].
  assert (c_str <$> cfg_qstring (qputc NUL l0) = Some acc) as Ev.
  { destruct Hk' as (_ & _ & _ & Ht). destruct (qputc_value NUL l0) as [q Hq]. rewrite Hq in *. cbn in *. f_equal.
    rewrite <- (take_drop (length (acc ++ [NUL])) q), Ht. generalize (drop (length (acc ++ [NUL])) q) as z. clear - Hn. intros z.
    induction acc as [|c acc IH]; cbn; [done|]. apply not_elem_of_cons in Hn as [Hc Hn].
    destruct (Ascii.eqb_spec c NUL) as [->|]; [done|]. f_equal. by apply IH. }
  rewrite Ev in E. exists (set_yylval (Some acc) (qputc NUL l0)).
  split; [|exact (token_turn _ _ _ _ _ Hsf E eq_refl)].
  split; [exists fp; cbn; by rewrite Hb'|]. cbn. rewrite Hi', Hc'. split_and!; try done. apply Hk'.
Qed.

Lemma string_rest s acc text l :
  safe_text s = true → no_nul acc → string_at acc ((s ≫= escape) ++ DQ :: text) l →
  ∃ l', reads_at text l' ∧ tokens l = (CFGT_STR, Some (acc ++ s)) :: tokens l'.
Proof.
  revert acc l. induction s as [|c s IH]; intros acc l Hs Hn Hl.
  { rewrite app_nil_r. by apply string_end. }
  cbn in Hs. apply andb_true_iff in Hs as [[Hc Hd]%andb_true_iff Hs].
  change ((c :: s) ≫= escape) with (escape c ++ (s ≫= escape)) in Hl. rewrite <- app_assoc in Hl.
  destruct (string_byte _ _ _ _ Hl) as (l1 & Hl1 & ->).
  { intros ->. cbn in Hd. destruct s as [|d s]; [by exists DQ, text|]. cbn.
    unfold escape at 1. unfold ahead. destruct (Ascii.eqb_spec d DQ) as [->|]; [by do 2 eexists|].
    destruct (Ascii.eqb_spec d BS) as [->|]; [by do 2 eexists|]. cbn. by exists d, ((s ≫= escape) ++ DQ :: text). }
  destruct (IH (acc ++ [c]) l1 Hs) as (l2 & Hl2 & ->); [|done|].
  - unfold no_nul in *. intros [?|E%list_elem_of_singleton]%elem_of_app; [done|]. by subst c.
  - exists l2. split; [done|]. by rewrite <- app_assoc.
Qed.

Lemma gives_string s rest :
  safe_text s = true → gives_tokens (DQ :: (s ≫= escape) ++ [DQ]) [(CFGT_STR, Some s)] rest.
Proof.
  intros Hs l Hl. pose proof (reads_single _ _ Hl) as Hsf. destruct Hl as ([fp Hb] & Hi & Hc & Hk).
  cbn in Hb. rewrite <- app_assoc in Hb. cbn in Hb.
  set (text := (s ≫= escape) ++ DQ :: rest) in *.
  assert (yylex_turn l = Some (open_string dq_str (set_buffers [Buffer fp text] l), Out None (Lines 0) None)) as E.
  { unfold yylex_turn. rewrite Hb, Hc. by rewrite (single_scan INITIAL DQ text 19 16) by done. }
  rewrite (skip_turn _ _ _ _ Hsf E).
  destruct (string_rest s [] rest (open_string dq_str (set_buffers [Buffer fp text] l)) Hs) as (l' & Hl' & ->).
  - apply not_elem_of_nil.
  - split; [by exists fp|]. split; [done|]. split; [done|]. split; [exact Hk|]. split; [done|].
    split; [apply Nat.le_0_l|done].
  - by exists l'.
Qed.

(** *** Comments *)

Lemma qputs_has acc s l :
  block_has acc l → block_has (acc ++ s) (qputs s l) ∧ buffers (qputs s l) = buffers l ∧
    cfg_include_stack (qputs s l) = cfg_include_stack l ∧ yy_sc (qputs s l) = yy_sc l.
Proof.
  unfold qputs. revert acc l. induction s as [|c s IH]; intros acc l Hl; cbn [foldl]; [by rewrite app_nil_r|].
  destruct (qputc_has acc c l Hl) as (Hk & Hb & Hi & Hc). destruct (IH _ _ Hk) as (Hk' & Hb' & Hi' & Hc').
  rewrite <- app_assoc in Hk'. split_and!; try congruence. exact Hk'.
Qed.

Lemma qbeg_has sc l : block_ok l → block_has [] (qbeg sc l).
Proof.
  intros Hk. unfold block_has, block_ok, qbeg in *. cbn. destruct (cfg_qstring l) as [q|]; cbn.
  - rewrite length_app, length_replicate, length_drop. split_and!; try done; lia.
  - split_and!; try done. lia.
Qed.

Lemma trim_block l :
  block_ok l → let '(q, v) := trim_whitespace (cfg_qstring l) (qstring_index l) in
    block_ok (set_yylval v (set_qstring q (qstring_index l) (qstring_len l) l)).
Proof.
  unfold block_ok, trim_whitespace. intros Hk. destruct (cfg_qstring l) as [q|]; [|done].
  destruct (Ascii.eqb _ _); cbn; [done|]. by rewrite length_insert.
Qed.

(** A line that is a comment, with its end: one token, whose value the parser
    does not look at. *)
Lemma gives_comment line rest l :
  reads_at ("#"%char :: " "%char :: line ++ NL :: rest) l → forallb in_line line = true → no_nul line →
  ∃ l' v, reads_at rest l' ∧ tokens l = (CFGT_COMMENT, v) :: tokens l'.
Proof.
  intros Hl Hin Hnn. pose proof (reads_single _ _ Hl) as Hsf. destruct Hl as ([fp Hb] & Hi & Hc & Hk).
  set (text := " "%char :: line ++ NL :: rest) in *.
  set (l1 := qbeg olcomment (set_buffers [Buffer fp text] l)).
  assert (yylex_turn l = Some (l1, Out None (Lines 0) None)) as E1.
  { unfold yylex_turn. rewrite Hb, Hc. unfold yy_scan. cbn [yy_start].
    rewrite (match_go 1 0 None "#" _ 0 17 133) by done. unfold text. cbn [Nat.eqb].
    by rewrite (match_jam 17 1 None " " _ 3 87) by done. }
  assert (block_has [] l1) as Hk1 by by apply qbeg_has.
  assert (buffers l1 = [Buffer fp text] ∧ cfg_include_stack l1 = [] ∧ yy_sc l1 = olcomment) as (Hb1 & Hi1 & Hc1) by done.
  set (l2 := qputs (" "%char :: line) (set_buffers [Buffer fp (NL :: rest)] l1)).
  assert (yylex_turn l1 = Some (l2, Out None (Lines 0) None)) as E2.
  { pose proof (turn_is l1 fp text [] 5 (length (" "%char :: line)) (skip (qput (" "%char :: line))) Hb1 ltac:(done)) as E.
    rewrite Hc1 in E. unfold text in E.
    change (" "%char :: line ++ NL :: rest) with ((" "%char :: line) ++ NL :: rest) in E.
    rewrite line_scan, take_app_length, drop_app_length in E by done. rewrite (E eq_refl eq_refl).
    unfold skip, qput. rewrite c_str_no_nul; [done|]. by apply not_elem_of_cons. }
  destruct (qputs_has [] (" "%char :: line) (set_buffers [Buffer fp (NL :: rest)] l1)) as (Hk2 & Hb2 & Hi2 & Hc2); [exact Hk1|].
  fold l2 in Hk2, Hb2, Hi2, Hc2.
  assert (buffers l2 = [Buffer fp (NL :: rest)] ∧ cfg_include_stack l2 = [] ∧ yy_sc l2 = olcomment) as (Hb2' & Hi2' & Hc2').
  { rewrite Hb2, Hi2, Hc2. split; [done|]. by split; [exact Hi1|exact Hc1]. }
  set (l3 := set_sc INITIAL (set_buffers [Buffer fp rest] l2)).
  assert (block_ok l3) as Hk3 by apply Hk2.
  pose proof (trim_block l3 Hk3) as Hk4.
  assert (qend true CFGT_COMMENT (set_buffers [Buffer fp rest] l2) =
    let '(q, v) := trim_whitespace (cfg_qstring l3) (qstring_index l3) in
    (set_yylval v (set_qstring q (qstring_index l3) (qstring_len l3) l3), Out (Some CFGT_COMMENT) (Lines 1) None)) as Eq.
  { unfold qend. fold l3. by destruct (trim_whitespace _ _). }
  destruct (trim_whitespace _ _) as [q v].
  set (l4 := set_yylval v (set_qstring q (qstring_index l3) (qstring_len l3) l3)) in *.
  assert (yylex_turn l2 = Some (l4, Out (Some CFGT_COMMENT) (Lines 1) None)) as E3.
  { assert (yy_scan olcomment (NL :: rest) = Some (6, 1)) as Es.
    { unfold yy_scan. cbn [yy_start]. by rewrite (match_jam 3 0 None NL rest 5 29). }
    unfold yylex_turn. rewrite Hb2', Hc2', Es.
    cbn [mbind option_bind].
    change (rule_action olcomment 6 (take 1 (NL :: rest))) with (Some (qend true CFGT_COMMENT)).
    cbn [mbind option_bind]. change (drop 1 (NL :: rest)) with rest. by rewrite Eq. }
  exists l4, v. split.
  - split; [by exists fp|]. split; [exact Hi2'|]. split; [done|exact Hk4].
  - rewrite (skip_turn _ _ _ _ Hsf E1).
    rewrite (skip_turn l1 l2 _ _) by (done || (split; [by rewrite Hb1|done])).
    rewrite (token_turn l2 l4 _ _ _) by (done || (split; [by rewrite Hb2'|done])). done.
Qed.
End Tokens.
