(* ===== verification/ConfusePrintSpec.v ===== *)
(** * What [cfg_print] writes, [cfg_parse_fp] reads

    The tokens of a printed tree, the statements they are, and the values they
    leave in a tree with the same options. *)
From S2P Require Import Prelude.
From S2P Require Import CLib.
From S2P Require Import ConfuseScanner.
From S2P Require Import ConfuseRules.
From S2P Require Import ConfuseLexer.
From S2P Require Import ConfuseLexerSpec.
From S2P Require Import ConfuseFiles.
From S2P Require Import ConfuseData.
From S2P Require Import ConfuseTree.
From S2P Require Import Confuse.
From S2P Require Import ConfuseGrammar.
From S2P Require Import ConfuseLookup.
From S2P Require Import ConfuseParse.
From S2P Require Import ConfuseTurns.
From S2P Require Import ConfuseParseSpec.
From S2P Require Import ConfusePrint.
From S2P Require Import ConfuseTokens.

(** ** Trees that can be printed *)

Definition printable_value (t : cfg_type) (v : cfg_value_t) : bool :=
  match t, v with
  | TYPE_INT, VInt n => ((LONG_MIN <=? n) && (n <=? LONG_MAX))%Z
  | TYPE_BOOL, VBool b => ((b =? 0) || (b =? 1))%Z
  | TYPE_STR, VStr (Some s) => safe_text s
  | _, _ => false
  end.

(** An option that is not commented out. *)
Definition set_value (v : cfg_value_t) : bool :=
  match v with VStr (Some []) => false | _ => true end.

Definition shown_option (o : cfg_opt_t) : bool :=
  is_list o || match opt_values (un o) with [v] => set_value v | _ => false end.

(** The option of each name is the one that has it. *)
Definition distinct_names (c : cfg_t) : bool :=
  forallb (fun '(i, o) => bool_decide
    (find_index (fun n => same_name (sec_flags c) n (opt_name (un o))) ((fun o => opt_name (un o)) <$> sec_opts c) = Some i))
    (imap pair (sec_opts c)).

Fixpoint printable_opt (o : cfg_opt_t) : bool :=
  match o with
  | Opt r =>
      word (opt_name r) && bool_decide (simple_value r = None) && bool_decide (opt_pf r = None)
      && (bool_decide (opt_comment r = None) || negb (is_set CFGF_COMMENTS (opt_flags r)))
      && match opt_type r with
         | TYPE_SEC =>
             negb (is_set CFGF_TITLE (opt_flags r))
             && match opt_values r with
                | [VSec s] =>
                    negb (is_set CFGF_RAW (sec_flags s)) && bool_decide (is_Some (sec_name s)) && distinct_names s
                    && forallb printable_opt (sec_opts s)
                | _ => false
                end
         | TYPE_FUNC => bool_decide (opt_values r = [])
         | TYPE_INT | TYPE_STR | TYPE_BOOL =>
             forallb (printable_value (opt_type r)) (opt_values r)
             && (is_set CFGF_LIST (opt_flags r) || (length (opt_values r) <=? 1))
         | _ => false
         end
  end.

(** Words for names, no two alike, in every section; integers of a [long],
    strings without null bytes and variables; no callbacks and no comments. *)
Definition printable (c : cfg_t) : bool :=
  bool_decide (is_Some (sec_name c)) && distinct_names c && forallb printable_opt (sec_opts c).

(** ** Numbers *)

Lemma to_string_word n : word (to_string n) = true.
Proof.
  assert (∀ m, (0 ≤ m)%Z → digits m ≠ [] ∧ forallb is_word (digits m) = true) as Hd.
  { intros m Hm. destruct (digits_spec m Hm) as (Hne & HF & _). split; [done|].
    apply forallb_forall. intros c Hc. apply list_elem_of_In in Hc. eapply Forall_forall in HF; [|exact Hc].
    unfold is_digit in HF. unfold is_word. by rewrite HF. }
  unfold word, to_string. destruct (Z.ltb_spec n 0) as [Hn|Hn].
  - destruct (Hd (- n)%Z ltac:(lia)) as [_ E]. apply andb_true_iff. by split.
  - destruct (Hd n Hn) as [Hne E]. rewrite E. by rewrite bool_decide_false.
Qed.

Lemma digit_in_10 c : is_digit c = true → digit_in 10 c = Some (ord c - 48)%Z.
Proof.
  intros Hc. unfold digit_in. assert (tolower c = c) as ->.
  { unfold tolower. unfold is_digit in Hc. apply andb_true_iff in Hc as [H1 H2]. apply Z.leb_le in H1, H2.
    destruct (Z.leb_spec 65 (ord c)); [lia|]. done. }
  rewrite Hc. unfold is_digit in Hc. apply andb_true_iff in Hc as [H1 H2]. apply Z.leb_le in H1, H2.
  destruct (Z.ltb_spec (ord c - 48) 10); [done|lia].
Qed.

Lemma read_number_digits acc s :
  Forall (fun c => is_digit c = true) s → read_number 10 acc s = read_digits acc s.
Proof.
  intros Hs. revert acc. induction Hs as [|c s Hc Hs IH]; intros acc; cbn; [done|].
  by rewrite digit_in_10, Hc.
Qed.

Lemma digits_aux_head fuel n acc :
  (0 < n < 2 ^ Z.of_nat fuel)%Z → ∃ c D, digits_aux fuel n acc = c :: D ∧ c ≠ "0"%char.
Proof.
  revert n acc. induction fuel as [|fuel IH]; intros n acc Hn; [cbn in Hn; lia|]. cbn [digits_aux].
  destruct (Z.eqb_spec (n / 10) 0) as [E|E].
  - eexists _, _. split; [done|]. assert (n < 10)%Z as Hl.
    { destruct (Z.lt_ge_cases n 10) as [|Hge]; [done|]. pose proof (Z.div_le_lower_bound n 10 1). lia. }
    intros Hc. apply (f_equal ord) in Hc. rewrite ord_chr, (Z.mod_small n 10), Z.mod_small in Hc by lia.
    change (ord "0") with 48%Z in Hc. lia.
  - apply IH. pose proof (Z.div_pos n 10 ltac:(lia) ltac:(lia)). split; [lia|].
    apply Z.div_lt_upper_bound; [lia|]. rewrite Nat2Z.inj_succ, Z.pow_succ_r in Hn by lia. lia.
Qed.

(** [strtol] reads back what [%ld] writes. *)
Lemma strtol_digits n :
  (0 ≤ n)%Z → let '(b, digs) := number_base (digits n) in read_number b 0 digs = (n, []) ∧ digs ≠ [].
Proof.
  intros Hn. destruct (decide (n = 0)%Z) as [->|Hz]; [by vm_compute|].
  destruct (digits_aux_head (S (Z.to_nat (Z.log2 n))) n []) as (c & D & E & Hc).
  { split; [lia|]. rewrite Nat2Z.inj_succ, Z2Nat.id by apply Z.log2_nonneg. apply Z.log2_spec. lia. }
  assert (number_base (digits n) = (10%Z, digits n)) as ->.
  { unfold digits. rewrite E. unfold number_base. destruct (Ascii.eqb_spec c "0") as [|Hne]; [done|].
    clear - Hne. destruct c as [[] [] [] [] [] [] [] []]; try done. }
  destruct (digits_spec n Hn) as (Hne & HF & _). split; [|done].
  rewrite read_number_digits by done. pose proof (read_digits_digits n [] Hn) as HR. by rewrite app_nil_r in HR.
Qed.

Lemma strtol_to_string n :
  (LONG_MIN <= n <= LONG_MAX)%Z → strtol (to_string n) = (n, [], false).
Proof.
  intros Hn. unfold strtol, to_string.
  assert (∀ m, (0 ≤ m)%Z → ∃ c D, digits m = c :: D ∧ is_space c = false ∧ c ≠ "-"%char ∧ c ≠ "+"%char) as Hd.
  { intros m Hm. destruct (digits_spec m Hm) as (Hne & HF & _). destruct (digits m) as [|c D]; [done|].
    apply Forall_cons in HF as [Hc _]. destruct (digit_facts c Hc) as (Hs & Ha & Hb). exists c, D.
    split_and!; try done; by apply Ascii.eqb_neq. }
  destruct (Z.ltb_spec n 0) as [Hneg|Hpos].
  - cbn [skip_spaces]. change (is_space "-") with false. cbn beta iota.
    pose proof (strtol_digits (- n) ltac:(lia)) as Hs. destruct (number_base (digits (- n))) as [b digs].
    destruct Hs as [-> Hne]. rewrite bool_decide_false by done.
    rewrite Z.opp_involutive. destruct (Z.ltb_spec LONG_MAX n); [lia|]. by destruct (Z.ltb_spec n LONG_MIN); [lia|].
  - destruct (Hd n Hpos) as (c & D & E & Hsp & Hm & Hp). pose proof (strtol_digits n Hpos) as Hs.
    assert (skip_spaces (digits n) = digits n) as ->.
    { rewrite E. cbn. by rewrite Hsp. }
    assert (match digits n with "-"%char :: r => (true, r) | "+"%char :: r => (false, r) | _ => (false, digits n) end
            = (false, digits n)) as ->.
    { rewrite E. clear - Hm Hp. destruct c as [[] [] [] [] [] [] [] []]; done. }
    destruct (number_base (digits n)) as [b digs]. destruct Hs as [-> Hne]. rewrite bool_decide_false by done.
    destruct (Z.ltb_spec LONG_MAX n); [lia|]. by destruct (Z.ltb_spec n LONG_MIN); [lia|].
Qed.

(** ** Values *)

(** A value as a token, and as it is printed. *)
Definition value_word (v : cfg_value_t) : str :=
  match v with
  | VInt n => to_string n
  | VBool b => if (b =? 0)%Z then #"false" else #"true"
  | VStr (Some s) => s
  | _ => []
  end.

Definition value_text (v : cfg_value_t) : str :=
  match v with VStr (Some s) => DQ :: (s ≫= escape) ++ [DQ] | v => value_word v end.

Definition value_token (v : cfg_value_t) : tok := (CFGT_STR, Some (value_word v)).

Lemma safe_no_nul s : safe_text s = true → no_nul s.
Proof.
  induction s as [|c s IH]; cbn; [intros _; apply not_elem_of_nil|].
  intros [[Hc _]%andb_true_iff Hs]%andb_true_iff. apply not_elem_of_cons. split; [|by apply IH].
  intros <-. done.
Qed.

Lemma value_of_word o v : printable_value (opt_type (un o)) v = true → value_of_text o (value_word v) = Some v.
Proof.
  unfold value_of_text. destruct (opt_type (un o)), v as [|n|b|[s|]| |]; cbn [printable_value]; try done; intros Hv.
  - apply andb_true_iff in Hv as [H1 H2]. apply Z.leb_le in H1, H2. cbn [value_word].
    rewrite c_str_no_nul by (apply word_no_nul, to_string_word). rewrite strtol_to_string by lia. done.
  - cbn [value_word]. by rewrite c_str_no_nul by by apply safe_no_nul.
  - apply orb_true_iff in Hv as [Hb|Hb]; apply Z.eqb_eq in Hb; by subst b.
Qed.

Section Spec.
Context {U : Type} `{Host} `{Callbacks U}.

Abbreviation OUT := (stM Empty_set (log * str)).

Lemma gives_value t v rest :
  printable_value t v = true → ahead is_stop rest → gives_tokens (value_text v) [value_token v] rest.
Proof.
  destruct t, v as [|n|b|[s|]| |]; cbn [printable_value]; try done; intros Hv Hr.
  - apply gives_word; [apply to_string_word|done].
  - by apply gives_string.
  - apply orb_true_iff in Hv as [Hb|Hb]; apply Z.eqb_eq in Hb; subst b; by apply gives_word.
Qed.

(** ** What is printed *)

(** A computation appends a text to the stream and gives a result. *)
Definition prints {A} (m : OUT A) (text : str) (a : A) : Prop :=
  ∀ g fp, ∃ g', m (g, fp) = ((g', fp ++ text), Ret a).

Lemma prints_ret {A} (a : A) : prints (mret a) [] a.
Proof. intros g fp. exists g. by rewrite app_nil_r. Qed.

Lemma prints_bind {A B} (m : OUT A) (k : A → OUT B) text text' a b :
  prints m text a → prints (k a) text' b → prints (m ≫= k) (text ++ text') b.
Proof.
  intros Hm Hk g fp. rewrite stM_bind_eq. destruct (Hm g fp) as [g1 ->]. destruct (Hk g1 (fp ++ text)) as [g2 ->].
  exists g2. by rewrite app_assoc.
Qed.

Lemma prints_fprintf text : prints (fprintf text) text tt.
Proof. intros g fp. by exists g. Qed.

Lemma prints_asking {A} (m : GM A) a : (∀ g, ∃ g', m g = (g', Ret a)) → prints (asking m) [] a.
Proof. intros Hm g fp. destruct (Hm g) as [g' E]. exists g'. unfold asking. by rewrite E, app_nil_r. Qed.

(** The same text in another shape. *)
Lemma prints_text {A} (m : OUT A) text text' a : prints m text a → text = text' → prints m text' a.
Proof. by intros ? <-. Qed.

Definition indentation (n : nat) : str := replicate (2 * n) " "%char.

Lemma prints_indent n : prints (cfg_indent n) (indentation n) tt.
Proof.
  induction n as [|n IH]; cbn [cfg_indent]; [apply prints_ret|].
  eapply prints_text; [eapply prints_bind; [apply prints_fprintf|exact IH]|].
  unfold indentation. by replace (2 * S n) with (2 + 2 * n) by lia.
Qed.

Lemma getn_at {A} t (read : cfg_value_t → outcome Empty_set A) none o i v a :
  opt_type (un o) = t → opt_values (un o) !! i = Some v → read v = Ret a →
  prints (asking (opt_getn t read none (Some o) i)) [] a.
Proof.
  intros Ht Hv Ha. apply prints_asking. intros g. exists g. unfold opt_getn, type_is.
  rewrite bool_decide_true, Hv by done. unfold lift. by rewrite Ha.
Qed.

Lemma prints_value o i v :
  opt_pf (un o) = None → opt_values (un o) !! i = Some v → printable_value (opt_type (un o)) v = true →
  prints (print_option_value o i) (value_text v) tt.
Proof.
  intros Hp Hv Hok. unfold print_option_value, cfg_opt_nprint_var. rewrite Hp.
  eapply prints_text; [eapply prints_bind; [eapply prints_bind; [|apply prints_ret]|apply prints_ret]|
    by rewrite !app_nil_r].
  destruct (opt_type (un o)) eqn:Et, v as [|n|b|[s|]| |]; cbn [printable_value] in Hok; try done.
  - eapply (prints_bind _ _ []); [by eapply getn_at|]. apply prints_fprintf.
  - eapply (prints_bind _ _ []); [by eapply getn_at|]. cbn [default]. rewrite c_str_no_nul by by apply safe_no_nul.
    eapply prints_text; [eapply prints_bind; [apply prints_fprintf|eapply prints_bind; apply prints_fprintf]|done].
  - eapply (prints_bind _ _ []); [by eapply getn_at|].
    eapply prints_text; [apply prints_fprintf|]. cbn. by destruct (b =? 0)%Z.
Qed.

(** *** Lists *)

Lemma value_ahead t v rest :
  printable_value t v = true → ahead (fun c => negb (is_blank c)) (value_text v ++ rest).
Proof.
  assert (∀ w, word w = true → ahead (fun c => negb (is_blank c)) (w ++ rest)) as Hw.
  { intros [|c w]; [done|]. unfold word. cbn. intros [Hc _]%andb_true_iff. exists c, (w ++ rest). split; [done|].
    assert (negb (is_word c) || negb (is_blank c) = true) as Hb; [|by rewrite Hc in Hb].
    apply (all_bytes_forall (fun c => negb (is_word c) || negb (is_blank c))). by vm_compute. }
  destruct t, v as [|n|b|[s|]| |]; cbn [printable_value]; try done; intros Hv.
  - apply Hw, to_string_word.
  - by exists DQ, (((s ≫= escape) ++ [DQ]) ++ rest).
  - apply Hw. cbn. by destruct (b =? 0)%Z.
Qed.

(** The values after the first, and their tokens. *)
Definition more_text (vs : list cfg_value_t) : str := vs ≫= fun v => #", " ++ value_text v.
Definition more_tokens (vs : list cfg_value_t) : list tok :=
  vs ≫= fun v => [(ord ",", Some #","); value_token v].

Lemma prints_more o vs i :
  opt_pf (un o) = None → drop i (opt_values (un o)) = vs →
  forallb (printable_value (opt_type (un o))) vs = true →
  prints (print_more o i (length vs)) (more_text vs) tt.
Proof.
  intros Hp. revert i. induction vs as [|v vs IH]; intros i Hd Hv; cbn [print_more length]; [apply prints_ret|].
  cbn in Hv. apply andb_true_iff in Hv as [Hv Hvs].
  assert (opt_values (un o) !! i = Some v) as Hl.
  { rewrite <- (Nat.add_0_r i), <- lookup_drop, Hd. done. }
  eapply prints_text.
  - eapply prints_bind; [apply prints_fprintf|]. eapply prints_bind; [by eapply prints_value|].
    apply (IH (S i)); [|done]. by rewrite <- Nat.add_1_r, <- drop_drop, Hd.
  - cbn [more_text mbind list_bind]. by rewrite <- app_assoc.
Qed.

Lemma gives_more t vs rest :
  forallb (printable_value t) vs = true → ahead is_stop rest → gives_tokens (more_text vs) (more_tokens vs) rest.
Proof.
  intros Hv Hr. induction vs as [|v vs IH]; [apply gives_nil|]. cbn in Hv. apply andb_true_iff in Hv as [Hv Hvs].
  change (more_text (v :: vs)) with ([","%char] ++ [" "%char] ++ (value_text v ++ more_text vs)).
  change (more_tokens (v :: vs)) with ([(ord ",", Some #",")] ++ [] ++ [value_token v] ++ more_tokens vs).
  apply gives_app; [apply gives_punct; set_solver|]. apply gives_app.
  - apply gives_blanks; [done|]. right. rewrite <- app_assoc. by eapply value_ahead.
  - apply gives_app; [|by apply IH]. eapply gives_value; [done|].
    destruct vs as [|w vs]; [done|]. by do 2 eexists.
Qed.

Lemma text_item_value o v : printable_value (opt_type (un o)) v = true → text_item o (value_token v) = Some v.
Proof. intros Hv. unfold text_item, value_token. cbn. by apply value_of_word. Qed.

Lemma list_items_values o v vs r :
  forallb (printable_value (opt_type (un o))) (v :: vs) = true →
  list_items o (value_token v :: more_tokens vs ++ (ord "}", Some #"}") :: r) = Some (v :: vs, r).
Proof.
  revert v. induction vs as [|w vs IH]; intros v; cbn [forallb]; intros [Hv Hvs]%andb_true_iff.
  - cbn [more_tokens mbind list_bind app list_items]. change (tok_is (fst (value_token v)) "}") with false.
    cbn iota. by rewrite (text_item_value o v Hv).
  - change (more_tokens (w :: vs)) with ((ord ",", Some #",") :: value_token w :: more_tokens vs).
    specialize (IH w Hvs). cbn [app]. cbn [list_items].
    change (tok_is (fst (value_token v)) "}") with false. cbn iota. rewrite (text_item_value o v Hv).
    cbn [mbind option_bind]. cbn [list_items] in IH. change (tok_is (fst (value_token w)) "}") with false in *.
    cbn [fst] in *. change (tok_is (ord ",") ",") with true. cbn iota in *. by rewrite IH.
Qed.

(** ** A line *)

Definition name_token (o : cfg_opt_t) : tok := (CFGT_STR, Some (opt_name (un o))).

Definition equals : tok := (ord "=", Some #"=").
Definition opening : tok := (ord "{", Some #"{").
Definition closing : tok := (ord "}", Some #"}").

Lemma gives_text text text' toks toks' rest :
  gives_tokens text toks rest → text = text' → toks = toks' → gives_tokens text' toks' rest.
Proof. by intros ? <- <-. Qed.

Lemma gives_indent n rest :
  ahead (fun c => negb (is_blank c)) rest → gives_tokens (indentation n) [] rest.
Proof.
  intros Hr. apply gives_blanks; [|by right]. unfold indentation.
  induction (2 * n) as [|k IH]; [done|]. exact IH.
Qed.

Lemma word_ahead w rest : word w = true → ahead (fun c => negb (is_blank c)) (w ++ rest).
Proof.
  destruct w as [|c w]; [done|]. unfold word. cbn. intros [Hc _]%andb_true_iff. exists c, (w ++ rest). split; [done|].
  assert (negb (is_word c) || negb (is_blank c) = true) as Hb; [|by rewrite Hc in Hb].
  apply (all_bytes_forall (fun c => negb (is_word c) || negb (is_blank c))). by vm_compute.
Qed.

(** The values of a list between its braces. *)
Definition inside_text (vs : list cfg_value_t) : str :=
  match vs with [] => [] | v :: vs => value_text v ++ more_text vs end.
Definition inside_tokens (vs : list cfg_value_t) : list tok :=
  match vs with [] => [] | v :: vs => value_token v :: more_tokens vs end.

Lemma prints_list o n :
  opt_pf (un o) = None → forallb (printable_value (opt_type (un o))) (opt_values (un o)) = true →
  prints (print_list o n)
    (indentation n ++ opt_name (un o) ++ [" "; "="; " "; "{"]%char ++ inside_text (opt_values (un o)) ++ ["}"%char]) tt.
Proof.
  intros Hp Hv. unfold print_list. eapply prints_text.
  - eapply prints_bind; [apply prints_indent|]. eapply prints_bind; [apply prints_fprintf|].
    eapply (prints_bind _ _ (inside_text (opt_values (un o)))); [|apply prints_fprintf].
    destruct (opt_values (un o)) as [|v vs] eqn:E; [apply prints_ret|]. cbn in Hv.
    apply andb_true_iff in Hv as [Hv Hvs]. cbn [length Nat.eqb negb when inside_text].
    eapply prints_bind; [eapply prints_value; [done|by rewrite E|done]|].
    replace (S (length vs) - 1) with (length vs) by lia. apply prints_more; [done|by rewrite E|done].
  - by rewrite <- !app_assoc.
Qed.

Lemma gives_list o n rest :
  word (opt_name (un o)) = true → forallb (printable_value (opt_type (un o))) (opt_values (un o)) = true →
  gives_tokens
    (indentation n ++ opt_name (un o) ++ [" "; "="; " "; "{"]%char ++ inside_text (opt_values (un o)) ++ ["}"%char])
    (name_token o :: equals :: opening :: inside_tokens (opt_values (un o)) ++ [closing]) rest.
Proof.
  intros Hw Hv.
  apply (gives_app _ _ [] _); [apply gives_indent; rewrite <- app_assoc; by apply word_ahead|].
  apply (gives_app _ _ [_] _); [apply gives_word; [done|by do 2 eexists]|].
  apply (gives_app [" "%char] (["="; " "; "{"]%char ++ _) [] _).
  { apply gives_blanks; [done|]. right. by do 2 eexists. }
  apply (gives_app ["="%char] ([" "; "{"]%char ++ _) [_] _); [apply gives_punct; set_solver|].
  apply (gives_app [" "%char] (["{"]%char ++ _) [] _).
  { apply gives_blanks; [done|]. right. by do 2 eexists. }
  apply (gives_app ["{"%char] _ [_] _); [apply gives_punct; set_solver|].
  apply gives_app; [|apply gives_punct; set_solver].
  destruct (opt_values (un o)) as [|v vs]; [apply gives_nil|]. cbn in Hv. apply andb_true_iff in Hv as [Hv Hvs].
  apply (gives_app _ _ [_] _).
  - eapply gives_value; [done|]. destruct vs as [|w vs]; by do 2 eexists.
  - eapply gives_more; [done|]. by do 2 eexists.
Qed.

(** What stands after the equal sign of a single value. *)
Definition single_text (o : cfg_opt_t) : str :=
  match opt_values (un o) with
  | v :: _ => value_text v
  | [] => match opt_type (un o) with TYPE_INT => #"0" | TYPE_STR => [DQ; DQ] | _ => #"false" end
  end.

Lemma getn_none {A} t (read : cfg_value_t → outcome Empty_set A) none o i :
  opt_type (un o) = t → opt_values (un o) = [] → simple_value (un o) = None →
  prints (asking (opt_getn t read none (Some o) i)) [] none.
Proof.
  intros Ht Hv Hs. apply prints_asking. intros g. exists g. unfold opt_getn, type_is.
  by rewrite bool_decide_true, Hv, Hs by done.
Qed.

Lemma prints_single_value o :
  simple_value (un o) = None → opt_pf (un o) = None → scalar_type (opt_type (un o)) = true →
  forallb (printable_value (opt_type (un o))) (opt_values (un o)) = true →
  prints (print_option_value o 0) (single_text o) tt.
Proof.
  intros Hs Hp Ht Hv. unfold single_text. destruct (opt_values (un o)) as [|v vs] eqn:E.
  - unfold print_option_value, cfg_opt_nprint_var. rewrite Hp.
    eapply prints_text; [eapply prints_bind; [eapply prints_bind; [|apply prints_ret]|apply prints_ret]|
      by rewrite !app_nil_r].
    destruct (opt_type (un o)) eqn:Et; try done.
    + eapply (prints_bind _ _ []); [by apply getn_none|]. apply prints_fprintf.
    + eapply (prints_bind _ _ []); [by apply getn_none|].
      eapply prints_text; [eapply prints_bind; [apply prints_fprintf|eapply prints_bind; apply prints_fprintf]|done].
    + eapply (prints_bind _ _ []); [by apply getn_none|]. apply prints_fprintf.
  - cbn in Hv. apply andb_true_iff in Hv as [Hv _]. eapply prints_value; [done|by rewrite E|done].
Qed.

Lemma prints_single o n :
  simple_value (un o) = None → opt_pf (un o) = None → scalar_type (opt_type (un o)) = true → is_list o = false →
  forallb (printable_value (opt_type (un o))) (opt_values (un o)) = true → length (opt_values (un o)) ≤ 1 →
  prints (print_single o n)
    (indentation n ++ (if shown_option o then [] else #"# ") ++ (opt_name (un o) ++ ["="%char]) ++ single_text o) tt.
Proof.
  intros Hs Hp Ht Hnl Hv Hlen. unfold print_single.
  assert (commented_out o = Ret (negb (shown_option o))) as Ec.
  { unfold commented_out, shown_option. rewrite Hs, Hnl. cbn [orb].
    destruct (opt_values (un o)) as [|v [|]]; [done| |cbn in Hlen; lia]. cbn in Hv. rewrite andb_true_r in Hv.
    unfold type_is. case_bool_decide as Et.
    - rewrite Et in Hv. destruct v as [|m|b|[s|]| |]; try done. cbn in *.
      rewrite c_str_no_nul by by apply safe_no_nul. by destruct s.
    - destruct (opt_type (un o)), v as [|m|b|[s|]| |]; done. }
  eapply prints_bind; [apply prints_indent|]. rewrite Ec.
  eapply (prints_bind _ _ [] _ (negb (shown_option o))); [intros g fp; exists g; by rewrite app_nil_r|].
  eapply prints_bind; [|eapply prints_bind; [apply prints_fprintf|by apply prints_single_value]].
  destruct (shown_option o); [apply prints_ret|apply prints_fprintf].
Qed.

Lemma gives_single o n v rest :
  word (opt_name (un o)) = true → printable_value (opt_type (un o)) v = true → ahead is_stop rest →
  gives_tokens (indentation n ++ (opt_name (un o) ++ ["="%char]) ++ value_text v)
    [name_token o; equals; value_token v] rest.
Proof.
  intros Hw Hv Hr. rewrite <- app_assoc.
  apply (gives_app _ _ [] _); [apply gives_indent; rewrite <- app_assoc; by apply word_ahead|].
  apply (gives_app _ _ [_] _); [apply gives_word; [done|by do 2 eexists]|].
  apply (gives_app ["="%char] _ [_] _); [apply gives_punct; set_solver|]. by eapply gives_value.
Qed.

(** A single value that is commented out. *)
Lemma gives_unset o n rest l :
  word (opt_name (un o)) = true → forallb (printable_value (opt_type (un o))) (opt_values (un o)) = true →
  length (opt_values (un o)) ≤ 1 → shown_option o = false →
  reads_at ((indentation n ++ #"# " ++ (opt_name (un o) ++ ["="%char]) ++ single_text o) ++ NL :: rest) l →
  ∃ l' v, reads_at rest l' ∧ tokens l = (CFGT_COMMENT, v) :: tokens l'.
Proof.
  intros Hw Hv Hlen Hsh Hl.
  assert (forallb in_line (single_text o) = true ∧ no_nul (single_text o)) as [Hsl Hsn].
  { unfold single_text. unfold shown_option in Hsh. destruct (is_list o); [done|]. cbn [orb] in Hsh.
    destruct (opt_values (un o)) as [|v [|]]; [|destruct v as [| | |[[|]|]| |]; try done|cbn in Hlen; lia].
    - destruct (opt_type (un o)); split; try done; by apply no_nul_bool.
    - split; [done|by apply no_nul_bool]. }
  set (line := opt_name (un o) ++ ["="%char] ++ single_text o).
  assert ((indentation n ++ #"# " ++ (opt_name (un o) ++ ["="%char]) ++ single_text o) ++ NL :: rest =
    indentation n ++ ("#"%char :: " "%char :: line ++ NL :: rest)) as E.
  { unfold line. by rewrite <- !app_assoc. }
  rewrite E in Hl.
  destruct (gives_indent n ("#"%char :: " "%char :: line ++ NL :: rest) ltac:(by do 2 eexists) l Hl) as (l1 & Hl1 & ->).
  cbn [app]. apply (gives_comment line); [done| |].
  - unfold line. rewrite !forallb_app, Hsl. cbn. rewrite andb_true_r. unfold word in Hw.
    apply andb_true_iff in Hw as [_ Hw]. rewrite forallb_forall in Hw |- *. intros c Hc.
    specialize (Hw c Hc). assert (negb (is_word c) || in_line c = true) as Hb; [|by rewrite Hw in Hb].
    apply (all_bytes_forall (fun c => negb (is_word c) || in_line c)). by vm_compute.
  - unfold line, no_nul in *. intros [Hin|[Hin|Hin]%elem_of_app]%elem_of_app; [| |done].
    + by apply (word_no_nul _ Hw).
    + by apply list_elem_of_singleton in Hin.
Qed.

(** ** What the statements leave *)

(** The option at a way through the [i]-th option. *)
Definition here (i : nat) (o : cfg_opt_t) (q : opt_path) : option cfg_opt_t :=
  match q with
  | ([], j) => if bool_decide (i = j) then Some o else None
  | ((j, k) :: p, m) =>
      if bool_decide (i = j) then v ← opt_values (un o) !! k; s ← value_section v; opt_at s (p, m) else None
  end.

(** The same through the options of a list, the first of which is the [i]-th. *)
Fixpoint shown_from (i : nat) (opts : list cfg_opt_t) (q : opt_path) : option cfg_opt_t :=
  match opts with
  | [] => None
  | o :: opts => match here i o q with Some x => Some x | None => shown_from (S i) opts q end
  end.

(** The index a way starts with. *)
Definition start (q : opt_path) : nat := match q with ([], j) => j | ((j, _) :: _, _) => j end.

Lemma here_start i o q x : here i o q = Some x → start q = i.
Proof. destruct q as [[|[j k] p] m]; cbn; by case_bool_decide. Qed.

Lemma shown_from_start i opts q x : shown_from i opts q = Some x → i ≤ start q.
Proof.
  revert i. induction opts as [|o opts IH]; intros i; cbn; [done|].
  destruct (here i o q) eqn:E; [|intros ?%IH; lia]. apply here_start in E. lia.
Qed.

Lemma shown_from_at opts q : ∀ i,
  shown_from i opts q =
    if i <=? start q then opts !! (start q - i) ≫= fun o => here (start q) o q else None.
Proof.
  induction opts as [|o opts IH]; intros i; cbn [shown_from]; [by destruct (_ <=? _)|]. rewrite IH. clear IH.
  destruct (decide (i = start q)) as [->|Hne].
  - rewrite Nat.leb_refl, Nat.sub_diag, (proj2 (Nat.leb_gt (S (start q)) (start q)) ltac:(lia)). cbn.
    by destruct (here (start q) o q).
  - destruct (here i o q) as [x|] eqn:E; [apply here_start in E; congruence|].
    destruct (Nat.leb_spec (S i) (start q)), (Nat.leb_spec i (start q)); try lia; [|done].
    by replace (start q - i) with (S (start q - S i)) by lia.
Qed.

Lemma shown_here c q : shown_from 0 (sec_opts c) q = opt_at c q.
Proof.
  rewrite shown_from_at. cbn [Nat.leb]. rewrite Nat.sub_0_r. destruct q as [[|[j k] p] m]; cbn [start].
  - unfold opt_at. cbn. destruct (sec_opts c !! m); [|done]. cbn. by rewrite bool_decide_true.
  - change (opt_at c ((j, k) :: p, m)) with (section_at c ((j, k) :: p) ≫= fun s => sec_opts s !! m).
    rewrite section_at_cons. unfold child.
    destruct (sec_opts c !! j) as [o|]; [|done]. cbn. rewrite bool_decide_true by done.
    destruct (opt_values (un o) !! k) as [v|]; [|done]. cbn. by destruct (value_section v).
Qed.

(** The values of that option, if it has values of its own. *)
Definition left_in (x : option cfg_opt_t) (vs : list cfg_value_t) : list cfg_value_t :=
  match x with
  | Some o => if scalar_type (opt_type (un o)) && shown_option o then opt_values (un o) else vs
  | None => vs
  end.

(** Statements that only assign. *)
Definition assigns (st : list stmt) : Prop := Forall (fun x => match x with Assign _ _ _ => True | Call _ _ => False end) st.

Lemma assigns_under inside st : assigns st → assigns (map (under inside) st).
Proof. induction 1 as [|[[p i] a vs|n args] st Hx _ IH]; cbn; constructor; done. Qed.

Lemma calls_assigns (st : list stmt) (u : U) : assigns st → calls st u = Some u.
Proof. induction 1 as [|[q a vs|n args] st Hx _ IH]; cbn; done. Qed.

(** ** The grammar on more fuel *)

Lemma statement_more rec rec' c p o toks st r :
  (∀ sec toks x, rec sec toks = Some x → rec' sec toks = Some x) →
  statement rec c p o toks = Some (st, r) → statement rec' c p o toks = Some (st, r).
Proof.
  intros Hr. unfold statement. destruct (opt_type (un o)); try done. destruct toks as [|b toks]; [done|].
  destruct (tok_is _ _); [|done]. destruct (section_at _ _) as [sec|]; [|done]. cbn.
  destruct (rec sec toks) as [x|] eqn:E; [|done]. by rewrite (Hr _ _ _ E).
Qed.

Lemma items_more n : ∀ m c level toks x, n ≤ m → items n c level toks = Some x → items m c level toks = Some x.
Proof.
  induction n as [|n IH]; intros m c level toks x Hm; [by destruct toks|]. destruct m as [|m]; [lia|].
  destruct toks as [|t toks]; [done|]. rewrite !items_cons. destruct (_ =? EOF)%Z; [done|].
  destruct (tok_is _ _); [done|]. destruct (_ =? CFGT_COMMENT)%Z; [apply IH; lia|].
  destruct (_ =? CFGT_STR)%Z; [|done]. destruct (snd t) as [name|]; [|done]. cbn [mbind option_bind].
  destruct (resolve c name) as [p|]; [|done]. cbn [mbind option_bind].
  destruct (opt_at c p) as [o|]; [|done]. cbn [mbind option_bind].
  destruct (statement _ _ _ _ _) as [[st1 r1]|] eqn:E; [|done].
  rewrite (statement_more _ (fun sec => items m sec (S level)) _ _ _ _ _ _ (fun sec toks x Hx => IH m sec _ _ _ ltac:(lia) Hx) E).
  cbn [mbind option_bind]. destruct (items n c level r1) as [[st2 r2]|] eqn:E2; [|done].
  by rewrite (IH m _ _ _ _ ltac:(lia) E2).
Qed.

(** ** Names *)

Definition like (c0 c : cfg_t) : Prop := alike c0 c ∧ named c0.

Lemma like_named c0 c : like c0 c → named c.
Proof. intros [[_ Hs] Hn] p h E. apply (Hn p). by rewrite Hs. Qed.

Lemma word_no_bar w : word w = true → find_char "|" w = None.
Proof.
  unfold word. intros [_ Hw]%andb_true_iff. induction w as [|c w IH]; [done|]. cbn in Hw.
  apply andb_true_iff in Hw as [Hc Hw]. cbn [find_char]. destruct (Ascii.eqb_spec c "|") as [->|]; [done|].
  by rewrite IH.
Qed.

Lemma resolve_word c i o :
  is_Some (sec_name c) → distinct_names c = true → sec_opts c !! i = Some o → word (opt_name (un o)) = true →
  resolve c (opt_name (un o)) = Some ([], i).
Proof.
  intros [n Hn] Hd Ho Hw. unfold resolve, cfg_getopt. rewrite Hn. cbn [getopt_loop].
  rewrite c_str_no_nul by by apply word_no_nul. rewrite word_no_bar by done.
  unfold lookup_opt. rewrite (find_index_fmap _ (fun m => same_name _ m _)).
  unfold distinct_names in Hd. rewrite forallb_forall in Hd.
  specialize (Hd (i, o)). rewrite bool_decide_eq_true in Hd. rewrite Hd; [done|].
  apply list_elem_of_In, list_elem_of_lookup. exists i. by rewrite list_lookup_imap, Ho.
Qed.

Lemma like_resolve c0 c i o :
  like c0 c → distinct_names c = true → sec_opts c !! i = Some o → word (opt_name (un o)) = true →
  resolve c0 (opt_name (un o)) = Some ([], i) ∧ ∃ o0, opt_at c0 ([], i) = Some o0 ∧ static o0 = static o.
Proof.
  intros Hl Hd Ho Hw. pose proof (like_named _ _ Hl) as Hn. destruct Hl as [Ha Hn0]. split.
  - rewrite (resolve_alike c0 c); [|done|done|by apply alike_head]. apply resolve_word; try done. by apply named_here.
  - destruct (alike_opt c0 c ([], i) o Ha) as (o0 & E & Hs); [by unfold opt_at; cbn|]. by exists o0.
Qed.

(** A statement of the [i]-th option. *)
Lemma items_named m c0 c i o level r :
  like c0 c → distinct_names c = true → sec_opts c !! i = Some o → word (opt_name (un o)) = true →
  ∃ o0, static o0 = static o ∧
    items (S m) c0 level (name_token o :: r) =
      '(st, r) ← statement (fun sec => items m sec (S level)) c0 ([], i) o0 r;
      '(st', r) ← items m c0 level r;
      Some (st ++ st', r).
Proof.
  intros Hl Hd Ho Hw. destruct (like_resolve c0 c i o Hl Hd Ho Hw) as [E (o0 & Eo & Hs)]. exists o0. split; [done|].
  rewrite items_cons. change (snd (name_token o)) with (Some (opt_name (un o))). cbn [mbind option_bind].
  rewrite E. cbn [mbind option_bind]. by rewrite Eo.
Qed.

Lemma assignment_static o o' toks : static o' = static o → assignment o' toks = assignment o toks.
Proof.
  intros Hs. destruct toks as [|op [|t r]]; [done|done|]. rewrite !assignment_cons, (is_list_same _ _ Hs).
  by rewrite (list_items_static _ _ _ Hs), (text_item_static _ _ _ Hs).
Qed.

(** ** Printing and reading *)

(** The grammar reads the tokens, in a section like [c], as these statements. *)
Definition parses (c : cfg_t) (st : list stmt) (toks : list tok) : Prop :=
  ∀ c0 level n r st' r' m', like c0 c → items n c0 level r = Some (st', r') → n + length toks ≤ m' →
    items m' c0 level (toks ++ r) = Some (st ++ st', r').

(** A text whose tokens have a property. *)
Definition gives_some (text : str) (P : list tok → Prop) : Prop :=
  ∀ rest l, reads_at (text ++ rest) l → ∃ l' toks, reads_at rest l' ∧ tokens l = toks ++ tokens l' ∧ P toks.

Lemma gives_some_app text text' (P Q R : list tok → Prop) :
  gives_some text P → gives_some text' Q → (∀ t t', P t → Q t' → R (t ++ t')) → gives_some (text ++ text') R.
Proof.
  intros H1 H2 HR rest l. rewrite <- app_assoc. intros Hl. destruct (H1 _ l Hl) as (l1 & t1 & Hl1 & -> & HP).
  destruct (H2 _ l1 Hl1) as (l2 & t2 & Hl2 & -> & HQ). exists l2, (t1 ++ t2). rewrite app_assoc. eauto.
Qed.

Lemma gives_some_of text toks (P : list tok → Prop) :
  (∀ rest, gives_tokens text toks rest) → P toks → gives_some text P.
Proof. intros Hg HP rest l Hl. destruct (Hg rest l Hl) as (l' & Hl' & E). by exists l', toks. Qed.

Lemma parses_app c st st' toks toks' : parses c st toks → parses c st' toks' → parses c (st ++ st') (toks ++ toks').
Proof.
  intros H1 H2 c0 level n r st2 r2 m' Hl Hr Hm. rewrite length_app in Hm. rewrite <- !app_assoc.
  eapply (H1 c0 level (n + length toks')); [done| |lia]. eapply H2; [done|exact Hr|lia].
Qed.

Lemma parses_nil c : parses c [] [].
Proof. intros c0 level n r st' r' m' _ Hr Hm'. cbn in *. eapply items_more; [|exact Hr]. lia. Qed.

Lemma parses_comment c v : parses c [] [(CFGT_COMMENT, v)].
Proof.
  intros c0 level n r st' r' m' _ Hr Hm'. cbn [length] in Hm'. destruct m' as [|m']; [lia|].
  cbn [app]. rewrite items_cons. eapply items_more; [|exact Hr]. lia.
Qed.

(** What is printed for options of a section is, for the grammar, a list of
    assignments, and it leaves the values they show. *)
Definition writes (m : OUT Z) (c : cfg_t) (shown_at : opt_path → option cfg_opt_t) : Prop :=
  ∃ text st, prints m text 0%Z ∧ gives_some text (parses c st) ∧ assigns st ∧
    (∀ q vs, stored st q vs = left_in (shown_at q) vs).

Lemma writes_nothing (m : OUT Z) c shown_at :
  prints m [] 0%Z → (∀ q vs, left_in (shown_at q) vs = vs) → writes m c shown_at.
Proof.
  intros Hm Hs. exists [], []. split; [done|]. split; [by eapply gives_some_of; [apply gives_nil|apply parses_nil]|].
  split; [constructor|]. intros q vs. by rewrite Hs.
Qed.

Lemma writes_sum (pr : cfg_opt_t → OUT Z) c opts : ∀ i,
  (∀ j o, opts !! j = Some o → writes (pr o) c (here (i + j) o)) → writes (sum_of pr opts) c (shown_from i opts).
Proof.
  induction opts as [|o opts IH]; intros i Hw; [apply writes_nothing; [apply prints_ret|done]|].
  destruct (Hw 0 o eq_refl) as (text & st & Hp & Hg & Ha & Hs). rewrite Nat.add_0_r in Hs.
  destruct (IH (S i)) as (text' & st' & Hp' & Hg' & Ha' & Hs').
  { intros j o' Hj. replace (S i + j) with (i + S j) by lia. by apply Hw. }
  exists (text ++ text'), (st ++ st'). split.
  { cbn [sum_of]. eapply prints_text.
    - eapply prints_bind; [exact Hp|]. eapply prints_bind; [exact Hp'|]. apply prints_ret.
    - by rewrite app_nil_r. }
  split; [eapply gives_some_app; [done|done|by intros; apply parses_app]|]. split; [by apply Forall_app|].
  intros q vs. rewrite stored_app, Hs, Hs'. cbn [shown_from].
  destruct (here i o q) as [x|] eqn:E; [|done].
  destruct (shown_from (S i) opts q) as [y|] eqn:E2; [|done].
  apply here_start in E. apply shown_from_start in E2. lia.
Qed.

Lemma prints_no_comment o n :
  opt_comment (un o) = None ∨ is_set CFGF_COMMENTS (opt_flags (un o)) = false → prints (print_comment o n) [] tt.
Proof.
  intros Hc. unfold print_comment. destruct (opt_comment (un o)) as [c|]; [|apply prints_ret].
  destruct Hc as [?| ->]; [done|]. apply prints_ret.
Qed.

(** Every option of the sections of an option. *)
Lemma opt_ind (P : cfg_opt_t → Prop) :
  (∀ r, Forall (fun v => match v with VSec s => Forall P (sec_opts s) | _ => True end) (opt_values r) → P (Opt r)) →
  ∀ o, P o.
Proof.
  intros HP. fix IH 1. intros [r]. apply HP. destruct r as [? ? ? vs ? ? ? ? ? ? ? ? ?]. cbn.
  induction vs as [|v vs IHv]; constructor; [|exact IHv].
  destruct v as [| | | |s|]; try exact I. destruct s as [? ? opts ? ?]. cbn.
  induction opts as [|o opts IHo]; constructor; [apply IH|exact IHo].
Qed.

(** The line of an option that is not commented out. *)
Lemma line_given o n :
  word (opt_name (un o)) = true → forallb (printable_value (opt_type (un o))) (opt_values (un o)) = true →
  shown_option o = true →
  ∃ toks,
    (∀ rest, ahead is_stop rest →
       gives_tokens (if is_list o then
           indentation n ++ opt_name (un o) ++ [" "; "="; " "; "{"]%char ++ inside_text (opt_values (un o)) ++ ["}"%char]
         else indentation n ++ [] ++ (opt_name (un o) ++ ["="%char]) ++ single_text o) (name_token o :: toks) rest) ∧
    (∀ r, assignment o (toks ++ r) = Some (false, opt_values (un o), r)).
Proof.
  intros Hw Hv Hl. unfold shown_option in Hl. destruct (is_list o) eqn:El.
  - exists (equals :: opening :: inside_tokens (opt_values (un o)) ++ [closing]).
    split; [intros rest _; by apply gives_list|]. intros r.
    cbn [app]. rewrite assignment_cons, El. cbn. rewrite <- app_assoc. cbn [app].
    destruct (opt_values (un o)) as [|v vs] eqn:E; [done|]. unfold closing.
    cbn [inside_tokens app]. by rewrite list_items_values.
  - cbn [orb] in Hl. unfold single_text. destruct (opt_values (un o)) as [|v [|]] eqn:E; try done.
    cbn in Hv. rewrite andb_true_r in Hv.
    exists [equals; value_token v]. split; [intros rest Hr; by apply gives_single|].
    intros r. cbn [app]. rewrite assignment_cons, El. change (tok_is (fst equals) "+") with false.
    change (tok_is (fst equals) "=") with true. cbn [andb orb]. by rewrite text_item_value.
Qed.

(** What [printable_opt] says of an option. *)
Lemma printable_opt_facts o :
  printable_opt o = true →
  word (opt_name (un o)) = true ∧ simple_value (un o) = None ∧ opt_pf (un o) = None ∧
  (opt_comment (un o) = None ∨ is_set CFGF_COMMENTS (opt_flags (un o)) = false).
Proof.
  destruct o as [o]. cbn [printable_opt un]. intros [[[[Hw Hs]%andb_true_iff Hp]%andb_true_iff Hc]%andb_true_iff _]%andb_true_iff.
  apply bool_decide_eq_true in Hs, Hp. split_and!; try done. apply orb_true_iff in Hc as [Hc|Hc].
  - left. by apply bool_decide_eq_true in Hc.
  - right. by apply negb_true_iff in Hc.
Qed.

Lemma printable_values o :
  printable_opt o = true → scalar_type (opt_type (un o)) = true →
  forallb (printable_value (opt_type (un o))) (opt_values (un o)) = true ∧
  (is_list o = true ∨ length (opt_values (un o)) ≤ 1).
Proof.
  destruct o as [o]. cbn [printable_opt un] in *. intros [_ Hpr]%andb_true_iff Ht. unfold is_list. cbn [un].
  assert (forallb (printable_value (opt_type o)) (opt_values o)
    && (is_set CFGF_LIST (opt_flags o) || (length (opt_values o) <=? 1)) = true) as [Hv Hl]%andb_true_iff
    by by destruct (opt_type o).
  split; [done|]. apply orb_true_iff in Hl as [?|Hl]; [by left|right; by apply Nat.leb_le].
Qed.

Lemma here_value i o q :
  (∀ v, v ∈ opt_values (un o) → value_section v = None) →
  here i o q = if bool_decide (([], i) = q) then Some o else None.
Proof.
  intros Hv. destruct q as [[|[j k] p] m]; cbn.
  - by repeat case_bool_decide; simplify_eq.
  - rewrite (bool_decide_false (([], i) = _)) by done. case_bool_decide; [|done].
    destruct (opt_values (un o) !! k) as [v|] eqn:E; [|done]. cbn. by rewrite Hv by by eapply list_elem_of_lookup_2.
Qed.

Lemma printable_no_section t v : printable_value t v = true → value_section v = None.
Proof. by destruct t, v. Qed.

(** The statement of an option with values. *)
Lemma parses_value c i o toks :
  distinct_names c = true → sec_opts c !! i = Some o → word (opt_name (un o)) = true →
  scalar_type (opt_type (un o)) = true → (∀ r, assignment o (toks ++ r) = Some (false, opt_values (un o), r)) →
  parses c [Assign ([], i) false (opt_values (un o))] (name_token o :: toks).
Proof.
  intros Hd Ho Hw Ht Ha c0 level k r st' r' m' Hlk Hr Hm. cbn [length] in Hm. destruct m' as [|m]; [lia|]. cbn [app].
  destruct (items_named m c0 c i o level (toks ++ r) Hlk Hd Ho Hw) as (o0 & Hst & ->).
  assert (statement (fun sec => items m sec (S level)) c0 ([], i) o0 (toks ++ r) =
    '(append, vs, r) ← assignment o0 (toks ++ r); Some ([Assign ([], i) append vs], r)) as ->.
  { unfold statement. apply static_same in Hst as (_ & -> & _). by destruct (opt_type (un o)). }
  rewrite (assignment_static _ _ _ Hst), Ha. cbn [mbind option_bind].
  rewrite (items_more k m c0 level r _ ltac:(lia) Hr). done.
Qed.

Lemma prints_line o n :
  printable_opt o = true → scalar_type (opt_type (un o)) = true →
  prints (cfg_opt_print_indent o n)
    ((if is_list o then
        indentation n ++ opt_name (un o) ++ [" "; "="; " "; "{"]%char ++ inside_text (opt_values (un o)) ++ ["}"%char]
      else indentation n ++ (if shown_option o then [] else #"# ") ++ (opt_name (un o) ++ ["="%char]) ++ single_text o)
     ++ [NL]) 0%Z.
Proof.
  intros Hpr Ht. destruct (printable_opt_facts o Hpr) as (_ & Hs & Hp & Hc).
  destruct (printable_values o Hpr Ht) as [Hv Hl].
  assert (cfg_opt_print_indent o n =
    (print_comment o n;; ((if is_list o then print_list o n else print_single o n);; fprintf [NL]);; mret CFG_SUCCESS)) as ->.
  { destruct o as [o]. cbn [cfg_opt_print_indent un] in *. unfold is_list. cbn [un]. by destruct (opt_type o). }
  assert (prints (if is_list o then print_list o n else print_single o n)
    (if is_list o then
        indentation n ++ opt_name (un o) ++ [" "; "="; " "; "{"]%char ++ inside_text (opt_values (un o)) ++ ["}"%char]
      else indentation n ++ (if shown_option o then [] else #"# ") ++ (opt_name (un o) ++ ["="%char]) ++ single_text o)
    tt) as Hline.
  { destruct (is_list o) eqn:El; [by apply prints_list|apply prints_single; try done]. by destruct Hl. }
  eapply prints_text; [eapply prints_bind; [by apply prints_no_comment|]|].
  - eapply prints_bind; [|apply prints_ret]. eapply prints_bind; [exact Hline|apply prints_fprintf].
  - by rewrite app_nil_r.
Qed.

Lemma writes_value c i o n :
  distinct_names c = true → sec_opts c !! i = Some o → printable_opt o = true →
  scalar_type (opt_type (un o)) = true → writes (cfg_opt_print_indent o n) c (here i o).
Proof.
  intros Hd Ho Hpr Ht. destruct (printable_opt_facts o Hpr) as (Hw & _ & _ & _).
  destruct (printable_values o Hpr Ht) as [Hv Hl].
  assert (∀ v, v ∈ opt_values (un o) → value_section v = None) as Hns.
  { intros v Hin. rewrite forallb_forall in Hv. apply list_elem_of_In in Hin. by eapply printable_no_section, Hv. }
  pose proof (prints_line o n Hpr Ht) as Hpt. destruct (shown_option o) eqn:Hsh.
  - destruct (line_given o n Hw Hv Hsh) as (toks & Hg & Ha).
    eexists _, [Assign ([], i) false (opt_values (un o))]. split; [exact Hpt|]. split.
    { eapply (gives_some_of _ ((name_token o :: toks) ++ [])).
      - intros rest. apply gives_app; [apply Hg; by do 2 eexists|apply gives_newline].
      - rewrite app_nil_r. by apply parses_value. }
    split; [by constructor|]. intros q vs. rewrite here_value by done. unfold stored. cbn [foldl].
    destruct (decide (([], i) = q)) as [E|E].
    + rewrite !bool_decide_true by done. cbn [left_in]. by rewrite Ht, Hsh.
    + by rewrite !bool_decide_false.
  - eexists _, []. split; [exact Hpt|]. split.
    { intros rest l Hrd. rewrite <- app_assoc in Hrd.
      assert (is_list o = false) as El by (unfold shown_option in Hsh; by destruct (is_list o)).
      rewrite El in Hrd. destruct Hl as [Hl|Hl]; [congruence|].
      destruct (gives_unset o n rest l Hw Hv Hl Hsh Hrd) as (l' & v & Hl' & E).
      exists l', [(CFGT_COMMENT, v)]. split; [done|]. split; [done|apply parses_comment]. }
    split; [constructor|]. intros q vs. rewrite here_value by done.
    case_bool_decide; [|done]. cbn [left_in]. by rewrite Hsh, andb_false_r.
Qed.

(** A section, once its inside is. *)
Lemma parses_section c i o s st toks :
  distinct_names c = true → sec_opts c !! i = Some o → word (opt_name (un o)) = true →
  opt_type (un o) = TYPE_SEC → opt_values (un o) = [VSec s] → parses s st toks →
  parses c (map (under [(i, 0)]) st) ([name_token o; opening] ++ toks ++ [closing]).
Proof.
  intros Hd Ho Hw Ht Ev Hi c0 level k r st' r' m' Hlk Hr Hm.
  rewrite !length_app in Hm. cbn [length] in Hm. destruct m' as [|m]; [lia|]. cbn [app].
  destruct (items_named m c0 c i o level (opening :: (toks ++ [closing]) ++ r) Hlk Hd Ho Hw) as (o0 & Hst & ->).
  unfold statement. apply static_same in Hst as (_ & -> & _). rewrite Ht. cbn [fst snd app].
  change (tok_is (fst opening) "{") with true. cbn iota.
  assert (section_at c [(i, 0)] = Some s) as Es.
  { rewrite section_at_cons. unfold child. rewrite Ho. cbn. by rewrite Ev. }
  destruct Hlk as [Hal Hn]. destruct (alike_section c c0 [(i, 0)] s ltac:(by symmetry) Es) as (s0 & Es0 & Ha0 & _).
  rewrite Es0. cbn [mbind option_bind].
  assert (like s0 s) as Hls by (split; [by symmetry|by eapply named_section]).
  rewrite <- app_assoc. cbn [app].
  assert (items m s0 (S level) (toks ++ closing :: r) = Some (st, r)) as ->.
  { rewrite <- (app_nil_r st). apply (Hi s0 (S level) 1 (closing :: r)); [done|done|lia]. }
  cbn [mbind option_bind]. by rewrite (items_more k m c0 level r _ ltac:(lia) Hr).
Qed.

Lemma writes_section c i o s n :
  distinct_names c = true → sec_opts c !! i = Some o → printable_opt o = true →
  opt_type (un o) = TYPE_SEC → opt_values (un o) = [VSec s] → is_set CFGF_TITLE (opt_flags (un o)) = false →
  is_set CFGF_RAW (sec_flags s) = false →
  writes (sum_of (fun o => cfg_opt_print_indent o (S n)) (sec_opts s)) s (shown_from 0 (sec_opts s)) →
  writes (cfg_opt_print_indent o n) c (here i o).
Proof.
  intros Hd Ho Hpr Ht Ev Hti Hraw (text & st & Hp & Hg & Ha & Hs).
  destruct (printable_opt_facts o Hpr) as (Hw & _ & _ & Hc).
  exists ((indentation n ++ opt_name (un o) ++ [" "; "{"; "010"]%char) ++ text ++ indentation n ++ ["}"; "010"]%char),
    (map (under [(i, 0)]) st). split.
  { destruct o as [o]. cbn [un] in *. cbn [cfg_opt_print_indent]. rewrite Ht, Ev.
    eapply prints_text; [eapply prints_bind; [by apply prints_no_comment|]; eapply prints_bind; [|apply prints_ret];
      eapply prints_bind; [|apply prints_ret]; cbn [sum_of]; eapply prints_bind; [|apply prints_ret];
      unfold print_section; rewrite Hti; cbn [value_section];
      eapply prints_bind; [apply prints_indent|]; eapply prints_bind; [apply prints_fprintf|];
      eapply (prints_bind _ _ [] _ s); [intros g fp; exists g; by rewrite app_nil_r|]; rewrite Hraw;
      eapply prints_bind; [exact Hp|]; eapply prints_bind; [apply prints_indent|];
      eapply prints_bind; [apply prints_fprintf|apply prints_ret]|].
    cbn [app]. rewrite !app_nil_r, <- !app_assoc. done. }
  split.
  { eapply (gives_some_app _ _ (eq [name_token o; opening])).
    - eapply gives_some_of; [|reflexivity]. intros rest.
      apply (gives_app _ _ [] _); [apply gives_indent; rewrite <- !app_assoc; by apply word_ahead|].
      apply (gives_app _ _ [_] _); [apply gives_word; [exact Hw|by do 2 eexists]|].
      apply (gives_app [" "%char] ["{"; "010"]%char [] _).
      { apply gives_blanks; [done|]. right. by do 2 eexists. }
      apply (gives_app ["{"%char] ["010"%char] [_] []); [apply gives_punct; set_solver|apply gives_newline].
    - apply (gives_some_app _ _ (parses s st) (eq [closing]) (fun t => ∃ t0, t = t0 ++ [closing] ∧ parses s st t0)).
      + exact Hg.
      + eapply gives_some_of; [|reflexivity]. intros rest.
        apply (gives_app _ _ [] _); [apply gives_indent; by do 2 eexists|].
        apply (gives_app ["}"%char] ["010"%char] [_] []); [apply gives_punct; set_solver|apply gives_newline].
      + intros t t' HP <-. by exists t.
    - intros t t' <- (t0 & -> & HP). by eapply parses_section. }
  split; [by apply assigns_under|].
  intros q vs. destruct q as [[|[j k] p] m]; cbn [here].
  - rewrite stored_elsewhere by (intros r; cbn; done). case_bool_decide; [|done]. cbn [left_in]. by rewrite Ht.
  - case_bool_decide as Ej; [subst j|].
    + rewrite Ev. destruct k as [|k].
      * change (stored (map (under [(i, 0)]) st) ((i, 0) :: p, m) vs = left_in (opt_at s (p, m)) vs).
        rewrite <- shown_here, <- Hs. apply (stored_under [(i, 0)] st p m).
      * change (stored (map (under [(i, 0)]) st) ((i, S k) :: p, m) vs = vs).
        apply stored_elsewhere. intros r. cbn. congruence.
    + cbn [left_in]. apply stored_elsewhere. intros r. cbn. congruence.
Qed.

Lemma writes_option o : ∀ c i n,
  distinct_names c = true → sec_opts c !! i = Some o → printable_opt o = true →
  writes (cfg_opt_print_indent o n) c (here i o).
Proof.
  induction o as [o IH] using opt_ind. intros c i n Hd Ho Hpr.
  destruct (scalar_type (opt_type o)) eqn:Et; [by apply writes_value|].
  pose proof (printable_opt_facts _ Hpr) as (_ & _ & Hp & Hc). cbn [un] in *.
  assert (Hpr' := Hpr). cbn [printable_opt] in Hpr'. apply andb_true_iff in Hpr' as [_ Hpr'].
  destruct (opt_type o) eqn:Ety; try done.
  - apply andb_true_iff in Hpr' as [Hti Hv]. apply negb_true_iff in Hti.
    destruct (opt_values o) as [|[| | | |s|] [|]] eqn:Ev; try done.
    apply andb_true_iff in Hv as [[[Hraw Hnm]%andb_true_iff Hds]%andb_true_iff Hopts]. apply negb_true_iff in Hraw.
    apply (writes_section c i (Opt o) s n); try done.
    apply writes_sum. intros j o' Hj. cbn [Nat.add]. apply Forall_cons in IH as [IH _].
    eapply Forall_lookup_1 in IH; [|exact Hj]. apply IH; [done|done|].
    rewrite forallb_forall in Hopts. by eapply Hopts, list_elem_of_In, list_elem_of_lookup_2.
  - apply bool_decide_eq_true in Hpr'. apply writes_nothing.
    + cbn [cfg_opt_print_indent]. rewrite Ety, Hp. eapply (prints_bind _ _ []); [by apply prints_no_comment|].
      eapply (prints_bind _ _ []); apply prints_ret.
    + intros q vs. rewrite here_value by (cbn; rewrite Hpr'; intros v Hin; by apply not_elem_of_nil in Hin).
      case_bool_decide; [|done]. cbn. by rewrite Ety.
Qed.

(** ** The round trip *)

Lemma tokens_end l : reads_at [] l → ∃ v, tokens l = [(EOF, v)].
Proof.
  intros Hl. pose proof (reads_single _ _ Hl) as Hs. destruct Hl as ([fp Hb] & Hi & Hc & _).
  destruct (tokens_step l Hs) as (l' & tok & E & _ & _ & -> & _).
  assert (yylex_turn l = Some (l, Out (Some EOF) (Lines 0) None)) as Et.
  { unfold yylex_turn. rewrite Hb, Hc. cbn. unfold end_of_file. by rewrite Hi. }
  unfold lex in E. cbn [lex_loop] in E. rewrite Et in E. cbn in E. injection E as _ <-. by eexists.
Qed.

(** A lexer between two files. *)
Definition rested (l : lexer) : Prop :=
  buffers l = [] ∧ cfg_include_stack l = [] ∧ yy_sc l = INITIAL ∧ block_ok l.

Lemma unhidden (vs : list cfg_value_t) : (∀ v : cfg_value_t, v ∈ vs → value_section v = None) → hide <$> vs = vs.
Proof.
  induction vs as [|v vs IH]; intros Hv; [done|]. cbn. rewrite IH by (intros w Hw; apply Hv; by right).
  f_equal. specialize (Hv v ltac:(by left)). by destruct v.
Qed.

(** The values of an option after the statements. *)
Lemma effect_left c st c' p o0 :
  effect st c c' → plain c → plain c' → opt_at c p = Some o0 → scalar_type (opt_type (un o0)) = true →
  ∃ o', opt_at c' p = Some o' ∧ opt_values (un o') = stored st p (opt_values (un o0)).
Proof.
  intros Ef Hp0 Hp Ho Ht.
  pose proof (proj1 Ef p) as Hv. unfold opt_view in Hv. rewrite Ho in Hv. cbn in Hv. unfold update in Hv.
  destruct (opt_at c' p) as [o'|] eqn:Eo'; [|done]. apply (inj Some) in Hv. exists o'. split; [done|].
  destruct (alike_opt c' c p o0) as (o1 & E1 & Hst1); [symmetry; by eapply effect_alike|done|].
  assert (o1 = o') as -> by congruence. pose proof (static_same _ _ Hst1) as (_ & Ety & _).
  destruct (plain_scalar c p o0 Hp0 Ho) as (_ & Hn0 & _); [by intros E; rewrite E in Ht..|].
  destruct (plain_scalar c' p o' Hp Eo') as (_ & Hn & _); [by intros E; rewrite <- Ety, E in Ht..|].
  apply (f_equal (fun x => opt_values (un x))) in Hv.
  change (opt_values (un (mask o'))) with (hide <$> opt_values (un o')) in Hv. rewrite unhidden in Hv by exact Hn.
  change (opt_values (un (mask o0))) with (hide <$> opt_values (un o0)) in Hv. rewrite unhidden in Hv by exact Hn0.
  exact Hv.
Qed.

(** C18. The text [cfg_print] writes for a tree of words, integers, strings and
    booleans, with sections and lists, is accepted by [cfg_parse_fp] with the
    same table of options, whatever values these had before.  Afterwards every
    option has the values of the printed tree, but for those that are printed
    as comments, without a value or with an empty string: they keep the values
    they had.  A string may have any bytes but NUL and no variable [${]. *)
Theorem configuration_roundtrip c :
  printable c = true →
  ∃ text, printed c = Some text ∧
    ∀ fuel (s : parser U),
      plain (pcfg s) → alike (pcfg s) c → rested (plex s) → 2 * length text + 4 < fuel →
      ∃ s', cfg_parse_fp fuel text s = (s', Ret CFG_SUCCESS) ∧ puser s' = puser s ∧ alike (pcfg s') c ∧
        ∀ p o, opt_at c p = Some o → scalar_type (opt_type (un o)) = true →
          ∃ before after, opt_at (pcfg s) p = Some before ∧ opt_at (pcfg s') p = Some after ∧
            opt_values (un after) = opt_values (un (if shown_option o then o else before)).
Proof.
  intros Hpr. unfold printable in Hpr. apply andb_true_iff in Hpr as [[Hnm Hd]%andb_true_iff Hopts].
  destruct (writes_sum (fun o => cfg_opt_print_indent o 0) c (sec_opts c) 0) as (text & st & Hp & Hg & Ha & Hst).
  { intros j o Hj. cbn [Nat.add]. apply writes_option; [done|done|]. rewrite forallb_forall in Hopts.
    by eapply Hopts, list_elem_of_In, list_elem_of_lookup_2. }
  exists text. split.
  { unfold printed, cfg_print, cfg_print_indent. by destruct (Hp fresh_log []) as [g' ->]. }
  intros fuel s Hpl Hal (Hb & Hin & Hsc & Hk) Hf.
  destruct (parse_text fuel text (pcfg s) s Hpl Hb Hin Hf ltac:(reflexivity)) as (s' & ret & E & Hr).
  assert (reads_at (text ++ []) (scan_stream text (plex s))) as Hl.
  { rewrite app_nil_r. split; [|done]. exists (next_fp (plex s)). cbn. by rewrite Hb. }
  destruct (Hg [] _ Hl) as (l' & toks & Hl' & Etok & Hi). destruct (tokens_end l' Hl') as [v Ev].
  assert (read_file (pcfg s) (text_tokens text (plex s)) (puser s) = Some (st, puser s)) as Erd.
  { unfold read_file, text_tokens. rewrite Etok, Ev.
    rewrite (Hi (pcfg s) 0 1 [(EOF, v)] [] [(EOF, v)]);
      [|split; [done|by apply plain_named]|done|rewrite length_app; cbn; lia].
    cbn [mbind option_bind]. rewrite app_nil_r. by rewrite calls_assigns. }
  rewrite Erd in Hr. destruct Hr as (-> & Hu & Hef & Hpl'). exists s'. split; [done|]. split; [done|].
  split; [etrans; [symmetry; by eapply effect_alike|done]|].
  intros p o Ho Ht. destruct (alike_opt (pcfg s) c p o Hal Ho) as (o0 & Eo & Hst0).
  destruct (effect_left (pcfg s) st (pcfg s') p o0 Hef Hpl Hpl' Eo) as (o' & Eo' & Ev').
  { by pose proof (static_same _ _ Hst0) as (_ & -> & _). }
  exists o0, o'. split; [done|]. split; [done|]. rewrite Ev', Hst, shown_here, Ho. cbn [left_in]. rewrite Ht.
  by destruct (shown_option o).
Qed.
End Spec.
