(* ===== verification/Metrics.v ===== *)
(** * Metrics exporter (src/statistics/prometheus/prometheus_exporter.cpp)

    [PrometheusExporter]: four families of counters in a registry of the
    Prometheus client library, which is an interface; the static labels of
    the configuration; and what the calls of the drivers do to the
    counters.  Registering a family throws when the name of a label is not
    valid. *)
From S2P Require Import Prelude.
From S2P Require Import CLib.
From S2P Require Import Exceptions.
From S2P Require Import EventLoop.
From S2P Require Import Transport.
From S2P Require Import Protocol.
From S2P Require Import Driver.
From S2P Require Import Resolver.
From S2P Require Import Config.

(** ** Definitions *)

(** The families of the exporter. *)
Definition COUNT : str := #"yeti_lnp_resolver_driver_requests_count".
Definition FAILED : str := #"yeti_lnp_resolver_driver_requests_failed".
Definition FINISHED : str := #"yeti_lnp_resolver_driver_requests_finished".
Definition TIME : str := #"yeti_lnp_resolver_driver_requests_time".

Definition families : list str := [COUNT; FAILED; FINISHED; TIME].

(** *** The client library *)

(** [::prometheus::Labels] *)
Abbreviation Labels := (gmap str str).

(** A state [R] of the library: the exposers and registries that exist.
    Families are named in the current registry; [counter_add] is
    [Family::Add], [counter_increment] is [Add(...).Increment(x)].  [register]
    is [BuildCounter()...Register(registry)], which throws when the name of a
    constant label is not valid; which names are is the library's. *)
Class Prometheus (R : Type) : Type := {
  make_exposer : str → stM exn R unit;
  drop_exposer : R → R;
  make_registry : R → R;
  drop_registry : R → R;
  register : str → str → Labels → stM exn R unit;
  label_name_valid : str → bool;
  register_collectable : R → R;
  counter_add : str → Labels → stM exn R unit;
  counter_increment : str → Labels → Z → stM exn R unit;
  counter_value : str → Labels → R → option Z;
  family_labels : str → R → option Labels
}.

(** A [double] counts integers exactly up to this. *)
Definition exact_limit : Z := 2 ^ 53.

(** The names of all the labels are valid. *)
Definition labels_valid (R : Type) `{Prometheus R} (fl : Labels) : bool :=
  forallb (label_name_valid (R:=R)) (map_to_list fl).*1.

(** The documented behaviour of the registration, which throws on invalid
    names of labels and else makes the family, and of the counters of a registered family: a
    series is made at zero and found again, and grows by each amount that is
    not negative.  The labels of a series must not repeat a constant label of
    the family. *)
Class PrometheusLaws (R : Type) `{Prometheus R} : Prop := {
  add_series name l fl (r : R) :
    family_labels name r = Some fl → fl ##ₘ l →
    ∃ r', counter_add name l r = (r', Ret tt) ∧
      (∀ n, family_labels n r' = family_labels n r) ∧
      counter_value name l r' = Some (default 0%Z (counter_value name l r)) ∧
      ∀ n k, (n, k) ≠ (name, l) → counter_value n k r' = counter_value n k r;
  increment_series name l x fl v (r : R) :
    family_labels name r = Some fl → fl ##ₘ l →
    default 0%Z (counter_value name l r) = v → (0 ≤ v ≤ v + Z.max 0 x ≤ exact_limit)%Z →
    ∃ r', counter_increment name l x r = (r', Ret tt) ∧
      (∀ n, family_labels n r' = family_labels n r) ∧
      counter_value name l r' = Some (v + Z.max 0 x)%Z ∧
      ∀ n k, (n, k) ≠ (name, l) → counter_value n k r' = counter_value n k r;
  registry_empty n k r :
    family_labels n (make_registry r) = None ∧ counter_value n k (make_registry r) = None;
  register_family name help fl r :
    name ∈ families → labels_valid R fl = true →
    ∃ r', register name help fl r = (r', Ret tt) ∧
      ∀ n k, family_labels n r' = (if str_eqb n name then Some fl else family_labels n r) ∧
             counter_value n k r' = counter_value n k r;
  register_refused name help fl r :
    name ∈ families → labels_valid R fl = false →
    ∃ r' x, register name help fl r = (r', Throw x);
  collectable_same n k r :
    family_labels n (register_collectable r) = family_labels n r ∧
    counter_value n k (register_collectable r) = counter_value n k r
}.

(** *** The exporter *)

(** [static_labels.emplace]: the first value of a label is kept. *)
Definition emplace_label (k v : str) (m : Labels) : Labels :=
  match m !! k with Some _ => m | None => <[k := v]> m end.

(** [label_func]: the value it returns, and the labels. *)
Definition label_func (argv : list str) (static_labels : Labels) : Labels * Z :=
  match argv with
  | [option; value] => (emplace_label (c_str option) (c_str value) static_labels, 0%Z)
  | _ => (static_labels, 1%Z)
  end.

(** A member [Family<Counter>*]: null, a family of the registry, or one of a
    registry that is gone. *)
Inductive family_ptr : Type := NoFamily | Registered | DanglingFamily.

Record PrometheusExporter : Type := {
  exposer : bool;
  registry : bool;
  driver_requests_count : family_ptr;
  driver_requests_failed : family_ptr;
  driver_requests_finished : family_ptr;
  driver_requests_time : family_ptr
}.

(** A new singleton is zero-initialised. *)
Definition new_exporter : PrometheusExporter :=
  {| exposer := false; registry := false; driver_requests_count := NoFamily;
     driver_requests_failed := NoFamily; driver_requests_finished := NoFamily;
     driver_requests_time := NoFamily |}.

Section Exporter.
Context {R : Type} `{Prometheus R}.

Abbreviation E := (stM exn (PrometheusExporter * R)).

Definition library (f : R → R) : E unit := on_snd (modify f).

(** [PrometheusExporter::stop]: [driver_requests_finished] is not reset. *)
Definition exporter_stop : E unit :=
  library drop_exposer;;
  library drop_registry;;
  on_fst (modify (fun e => {|
    exposer := false; registry := false; driver_requests_count := NoFamily;
    driver_requests_failed := NoFamily;
    driver_requests_finished :=
      match driver_requests_finished e with NoFamily => NoFamily | _ => DanglingFamily end;
    driver_requests_time := NoFamily |})).

(** A member is set. *)
Definition set_exporter (f : PrometheusExporter → PrometheusExporter) : E unit := on_fst (modify f).

Definition with_server (e : PrometheusExporter) : PrometheusExporter :=
  {| exposer := true; registry := registry e; driver_requests_count := driver_requests_count e;
     driver_requests_failed := driver_requests_failed e;
     driver_requests_finished := driver_requests_finished e;
     driver_requests_time := driver_requests_time e |}.
Definition with_registry (e : PrometheusExporter) : PrometheusExporter :=
  {| exposer := exposer e; registry := true; driver_requests_count := driver_requests_count e;
     driver_requests_failed := driver_requests_failed e;
     driver_requests_finished := driver_requests_finished e;
     driver_requests_time := driver_requests_time e |}.
Definition with_count (e : PrometheusExporter) : PrometheusExporter :=
  {| exposer := exposer e; registry := registry e; driver_requests_count := Registered;
     driver_requests_failed := driver_requests_failed e;
     driver_requests_finished := driver_requests_finished e;
     driver_requests_time := driver_requests_time e |}.
Definition with_failed (e : PrometheusExporter) : PrometheusExporter :=
  {| exposer := exposer e; registry := registry e; driver_requests_count := driver_requests_count e;
     driver_requests_failed := Registered;
     driver_requests_finished := driver_requests_finished e;
     driver_requests_time := driver_requests_time e |}.
Definition with_finished (e : PrometheusExporter) : PrometheusExporter :=
  {| exposer := exposer e; registry := registry e; driver_requests_count := driver_requests_count e;
     driver_requests_failed := driver_requests_failed e; driver_requests_finished := Registered;
     driver_requests_time := driver_requests_time e |}.
Definition with_time (e : PrometheusExporter) : PrometheusExporter :=
  {| exposer := exposer e; registry := registry e; driver_requests_count := driver_requests_count e;
     driver_requests_failed := driver_requests_failed e;
     driver_requests_finished := driver_requests_finished e; driver_requests_time := Registered |}.

(** A family built, and its pointer stored; when [Register] throws it is
    not. *)
Definition build_counter (name help : str) (static_labels : Labels)
  (store : PrometheusExporter → PrometheusExporter) : E unit :=
  on_snd (register name help static_labels);; set_exporter store.

(** [PrometheusExporter::start]: only the exposer is made in the [try]. *)
Definition exporter_start (static_labels : Labels) (c : prometheus_cfg) : E unit :=
  exporter_stop;;
  let bind_address := prom_host c ++ #":" ++ to_string (prom_port c) in
  started ← stM_catch (on_snd (make_exposer bind_address);; set_exporter with_server;; mret true)
              (fun _ => mret false);
  match started with
  | false => mret tt
  | true =>
      library make_registry;;
      set_exporter with_registry;;
      build_counter COUNT #"The total number of requests attempts" static_labels with_count;;
      build_counter FAILED #"Failed requests count" static_labels with_failed;;
      build_counter FINISHED #"Finished requests count" static_labels with_finished;;
      build_counter TIME #"Accumulated request processing time in ms" static_labels with_time;;
      library register_collectable
  end.

(** [if (family != nullptr) family->...] *)
Definition through (member : PrometheusExporter → family_ptr) (m : stM exn R unit) : E unit :=
  '(e, _) ← get;
  match member e with
  | NoFamily => mret tt
  | Registered => on_snd m
  | DanglingFamily => lift Undef
  end.

Definition driver_labels (type : str) (i : Z) : Labels :=
  {[ #"type" := type; #"id" := to_string i ]}.

Definition driver_requests_count_increment (type : str) (i : Z) : E unit :=
  through driver_requests_count (counter_increment COUNT (driver_labels type i) 1).

Definition driver_requests_failed_increment (type : str) (i : Z) : E unit :=
  through driver_requests_failed (counter_increment FAILED (driver_labels type i) 1).

Definition driver_requests_finished_increment (type : str) (i time_consumed : Z) : E unit :=
  through driver_requests_finished (counter_increment FINISHED (driver_labels type i) 1);;
  through driver_requests_time (counter_increment TIME (driver_labels type i) time_consumed).

Definition driver_init_metrics (type : str) (i : Z) : E unit :=
  let l := driver_labels type i in
  through driver_requests_count (counter_add COUNT l);;
  through driver_requests_failed (counter_add FAILED l);;
  through driver_requests_finished (counter_add FINISHED l);;
  through driver_requests_time (counter_add TIME l).

(** The calls of the drivers. *)
Definition exporter_call (m : metric_call) : E unit :=
  match m with
  | init_metrics type i => driver_init_metrics type i
  | requests_count_increment type i => driver_requests_count_increment type i
  | requests_failed_increment type i => driver_requests_failed_increment type i
  | requests_finished_increment type i t => driver_requests_finished_increment type i t
  end.

Fixpoint exporter_calls (l : list metric_call) : E unit :=
  match l with [] => mret tt | m :: r => exporter_call m;; exporter_calls r end.

End Exporter.

(** What a list of calls adds to a series of a family. *)
Definition added (name type : str) (i : Z) (m : metric_call) : option Z :=
  match m with
  | init_metrics t j => if bool_decide (name ∈ families ∧ t = type ∧ j = i) then Some 0%Z else None
  | requests_count_increment t j => if bool_decide (name = COUNT ∧ t = type ∧ j = i) then Some 1%Z else None
  | requests_failed_increment t j => if bool_decide (name = FAILED ∧ t = type ∧ j = i) then Some 1%Z else None
  | requests_finished_increment t j x =>
      if bool_decide (t = type ∧ j = i) then
        if bool_decide (name = FINISHED) then Some 1%Z
        else if bool_decide (name = TIME) then Some (Z.max 0 x) else None
      else None
  end.

Definition total (l : list Z) : Z := foldr Z.add 0%Z l.

(** The value the series has after the calls: none if no call made it. *)
Definition series (name type : str) (i : Z) (l : list metric_call) : option Z :=
  match omap (added name type i) l with [] => None | xs => Some (total xs) end.

(** ** Lemmas *)

Lemma digits_inj i j : (0 ≤ i)%Z → (0 ≤ j)%Z → digits i = digits j → i = j.
Proof.
  intros Hi Hj E. pose proof (read_digits_digits i [] Hi) as Ri.
  pose proof (read_digits_digits j [] Hj) as Rj. rewrite E, Rj in Ri. cbn in Ri. congruence.
Qed.

Lemma to_string_inj i j : to_string i = to_string j → i = j.
Proof.
  assert (Hm : ∀ n s, (0 ≤ n)%Z → "-"%char :: s ≠ digits n).
  { intros n s Hn E. apply (digits_not_in n "-"%char Hn); [done|]. rewrite <- E. by left. }
  unfold to_string. destruct (Z.ltb_spec i 0), (Z.ltb_spec j 0); intros E.
  - injection E as E. apply digits_inj in E; lia.
  - by apply Hm in E.
  - symmetry in E. by apply Hm in E.
  - apply digits_inj in E; lia.
Qed.

Lemma driver_labels_inj t i t' i' : driver_labels t i = driver_labels t' i' → t = t' ∧ i = i'.
Proof.
  intros E. unfold driver_labels in E.
  pose proof (f_equal (fun m => m !! #"type") E) as Et.
  pose proof (f_equal (fun m => m !! #"id") E) as Ei. cbv beta in Et, Ei.
  rewrite !lookup_insert_eq in Et. rewrite !lookup_insert_ne, !lookup_singleton_eq in Ei by done.
  split; [congruence|]. apply to_string_inj. congruence.
Qed.

Lemma total_app l1 l2 : total (l1 ++ l2) = (total l1 + total l2)%Z.
Proof. induction l1 as [|x l IH]; cbn; [done|]. unfold total in *. lia. Qed.

(** One more call. *)
Lemma series_snoc name t i l m :
  series name t i (l ++ [m])
  = match added name t i m with
    | None => series name t i l
    | Some x => Some (default 0%Z (series name t i l) + x)%Z
    end.
Proof.
  unfold series. rewrite omap_app. cbn. destruct (added name t i m) as [x|].
  - destruct (omap _ l) as [|y ys]; [cbn; f_equal; lia|].
    pose proof (total_app ys [x]) as Ht. cbn in *. f_equal. unfold total in *. lia.
  - by rewrite app_nil_r.
Qed.

(** How much a call may add to a series. *)
Definition weight (m : metric_call) : Z :=
  match m with
  | init_metrics _ _ => 0
  | requests_finished_increment _ _ x => 1 + Z.max 0 x
  | _ => 1
  end.

Definition weights (l : list metric_call) : Z := total (weight <$> l).

Lemma added_weight name t i m x : added name t i m = Some x → (0 ≤ x ≤ weight m)%Z.
Proof.
  destruct m; cbn; repeat case_bool_decide; intros [= <-]; lia.
Qed.

Lemma weight_pos m : (0 ≤ weight m)%Z.
Proof. destruct m; unfold weight; lia. Qed.

Lemma weights_app l1 l2 : weights (l1 ++ l2) = (weights l1 + weights l2)%Z.
Proof. unfold weights. by rewrite fmap_app, total_app. Qed.

Lemma weights_cons m l : weights (m :: l) = (weight m + weights l)%Z.
Proof. done. Qed.

Lemma weights_one m : weights [m] = weight m.
Proof. rewrite weights_cons. unfold weights. cbn. lia. Qed.

Lemma weights_nonneg l : (0 ≤ weights l)%Z.
Proof. induction l as [|m l IH]; [done|]. rewrite weights_cons. pose proof (weight_pos m). lia. Qed.

Lemma series_weights name t i l : (0 ≤ default 0 (series name t i l) ≤ weights l)%Z.
Proof.
  induction l as [|m l IH] using rev_ind; [done|].
  rewrite series_snoc, weights_app, weights_one. pose proof (weight_pos m).
  destruct (added name t i m) as [x|] eqn:E; [|lia].
  apply added_weight in E. cbn [from_option id]. lia.
Qed.

Section Counters.
Context {R : Type} `{PrometheusLaws R}.

(** The families, with their labels, and the value of every series. *)
Definition exported (fl : Labels) (l : list metric_call) (r : R) : Prop :=
  Forall (fun n => family_labels n r = Some fl) families ∧
  ∀ name t i, counter_value name (driver_labels t i) r = series name t i l.

(** One increment through a family that is there. *)
Lemma through_increment member name t j x fl (e : PrometheusExporter) (r : R) :
  member e = Registered → family_labels name r = Some fl → fl ##ₘ driver_labels t j →
  let v := default 0%Z (counter_value name (driver_labels t j) r) in
  (0 ≤ v ≤ v + Z.max 0 x ≤ exact_limit)%Z →
  ∃ r', through member (counter_increment name (driver_labels t j) x) (e, r) = ((e, r'), Ret tt) ∧
    (∀ n, family_labels n r' = family_labels n r) ∧
    ∀ n t' i, counter_value n (driver_labels t' i) r'
      = if bool_decide (n = name ∧ t = t' ∧ j = i) then Some (v + Z.max 0 x)%Z
        else counter_value n (driver_labels t' i) r.
Proof.
  intros Hm Hf Hd v Hv.
  destruct (increment_series name _ x fl v r Hf Hd eq_refl Hv) as (r' & Hi & Hl & Hs & Ho).
  exists r'. split_and!; [|done|].
  - unfold through. erewrite stM_bind_Ret by reflexivity. cbv beta iota. by rewrite Hm, on_snd_eq, Hi.
  - intros n t' i. case_bool_decide as Hc.
    + destruct Hc as (-> & -> & ->). exact Hs.
    + apply Ho. intros [-> E]%pair_equal_spec. apply driver_labels_inj in E as [-> ->]. by apply Hc.
Qed.

Definition families_up (e : PrometheusExporter) : Prop :=
  driver_requests_count e = Registered ∧ driver_requests_failed e = Registered ∧
  driver_requests_finished e = Registered ∧ driver_requests_time e = Registered.

(** The labels of a series repeat no static label. *)
Definition labels_free (fl : Labels) : Prop := fl !! #"type" = None ∧ fl !! #"id" = None.

Lemma labels_free_disjoint fl t i : labels_free fl → fl ##ₘ driver_labels t i.
Proof.
  intros [Ht Hi]. unfold driver_labels. apply map_disjoint_insert_r. split; [done|].
  by apply map_disjoint_singleton_r.
Qed.

(** A call of one increment. *)
Lemma single_call member name t j fl l m (e : PrometheusExporter) (r : R) :
  member e = Registered → name ∈ families → labels_free fl →
  exported fl l r → (weights (l ++ [m]) ≤ exact_limit)%Z → weight m = 1%Z →
  (∀ n t' i, added n t' i m = if bool_decide (n = name ∧ t = t' ∧ j = i) then Some 1%Z else None) →
  ∃ r', through member (counter_increment name (driver_labels t j) 1) (e, r) = ((e, r'), Ret tt) ∧
    exported fl (l ++ [m]) r'.
Proof.
  intros Hm Hn Hfree [Hf Hs] Hw Hw1 Ha.
  destruct (through_increment member name t j 1 fl e r Hm) as (r' & Hr' & Hl & Hv).
  - by apply (proj1 (Forall_forall _ _) Hf).
  - by apply labels_free_disjoint.
  - rewrite Hs. pose proof (series_weights name t j l).
    rewrite weights_app, weights_one in Hw. lia.
  - exists r'. split; [done|]. split.
    + eapply Forall_impl; [exact Hf|]. intros n <-. apply Hl.
    + intros n t' i. rewrite Hv, series_snoc, Ha. rewrite !Hs.
      case_bool_decide as Hc; [|done]. by destruct Hc as (-> & -> & ->).
Qed.

(** The call for a finished request: both increments. *)
Lemma finished_call t j x fl l (e : PrometheusExporter) (r : R) :
  let m := requests_finished_increment t j x in
  families_up e → labels_free fl → exported fl l r → (weights (l ++ [m]) ≤ exact_limit)%Z →
  ∃ r', exporter_call m (e, r) = ((e, r'), Ret tt) ∧ exported fl (l ++ [m]) r'.
Proof.
  intros m (_ & _ & Hfin & Htime) Hfree [Hf Hs] Hw. subst m.
  rewrite weights_app, weights_one in Hw. cbn [weight] in Hw.
  assert (Hfam : ∀ n, n ∈ [FINISHED; TIME] → family_labels n r = Some fl).
  { intros n Hn. apply (proj1 (Forall_forall _ _) Hf). set_solver. }
  destruct (through_increment _ FINISHED t j 1 fl e r Hfin) as (r1 & Hr1 & Hl1 & Hv1).
  { apply Hfam. set_solver. }
  { by apply labels_free_disjoint. }
  { rewrite Hs. pose proof (series_weights FINISHED t j l). lia. }
  destruct (through_increment _ TIME t j x fl e r1 Htime) as (r2 & Hr2 & Hl2 & Hv2).
  { rewrite Hl1. apply Hfam. set_solver. }
  { by apply labels_free_disjoint. }
  { rewrite Hv1, bool_decide_eq_false_2 by (by intros [? _]). rewrite Hs.
    pose proof (series_weights TIME t j l). lia. }
  exists r2. split.
  - cbn. unfold driver_requests_finished_increment. by rewrite (stM_bind_Ret _ _ _ _ _ Hr1).
  - split.
    + eapply Forall_impl; [exact Hf|]. intros n <-. by rewrite Hl2, Hl1.
    + intros n t' i. rewrite Hv2, !Hv1, series_snoc, !Hs. cbn [added].
      repeat case_bool_decide; naive_solver.
Qed.

(** A series made, or found again. *)
Lemma through_add member name t j fl (e : PrometheusExporter) (r : R) :
  member e = Registered → family_labels name r = Some fl → fl ##ₘ driver_labels t j →
  ∃ r', through member (counter_add name (driver_labels t j)) (e, r) = ((e, r'), Ret tt) ∧
    (∀ n, family_labels n r' = family_labels n r) ∧
    ∀ n t' i, counter_value n (driver_labels t' i) r'
      = if bool_decide (n = name ∧ t = t' ∧ j = i) then Some (default 0%Z (counter_value n (driver_labels t' i) r))
        else counter_value n (driver_labels t' i) r.
Proof.
  intros Hm Hf Hd. destruct (add_series name _ fl r Hf Hd) as (r' & Ha & Hl & Hs & Ho).
  exists r'. split_and!; [|done|].
  - unfold through. erewrite stM_bind_Ret by reflexivity. cbv beta iota. by rewrite Hm, on_snd_eq, Ha.
  - intros n t' i. case_bool_decide as Hc.
    + destruct Hc as (-> & -> & ->). exact Hs.
    + apply Ho. intros [-> E]%pair_equal_spec. apply driver_labels_inj in E as [-> ->]. by apply Hc.
Qed.

(** The call of a new driver: a series in each family. *)
Lemma init_call t j fl l (e : PrometheusExporter) (r : R) :
  let m := init_metrics t j in
  families_up e → labels_free fl → exported fl l r →
  ∃ r', exporter_call m (e, r) = ((e, r'), Ret tt) ∧ exported fl (l ++ [m]) r'.
Proof.
  intros m (Hc & Hfl & Hfin & Htime) Hfree [Hf Hs]. subst m.
  pose proof (labels_free_disjoint fl t j Hfree) as Hd.
  assert (Hfam : ∀ n, n ∈ families → family_labels n r = Some fl) by (by apply Forall_forall).
  destruct (through_add _ COUNT t j fl e r Hc) as (r1 & Hr1 & Hl1 & Hv1); [apply Hfam; set_solver|done|].
  destruct (through_add _ FAILED t j fl e r1 Hfl) as (r2 & Hr2 & Hl2 & Hv2); [rewrite Hl1; apply Hfam; set_solver|done|].
  destruct (through_add _ FINISHED t j fl e r2 Hfin) as (r3 & Hr3 & Hl3 & Hv3); [rewrite Hl2, Hl1; apply Hfam; set_solver|done|].
  destruct (through_add _ TIME t j fl e r3 Htime) as (r4 & Hr4 & Hl4 & Hv4); [rewrite Hl3, Hl2, Hl1; apply Hfam; set_solver|done|].
  exists r4. split.
  - cbn. unfold driver_init_metrics.
    by rewrite (stM_bind_Ret _ _ _ _ _ Hr1), (stM_bind_Ret _ _ _ _ _ Hr2), (stM_bind_Ret _ _ _ _ _ Hr3).
  - split; [eapply Forall_impl; [exact Hf|]; intros n <-; by rewrite Hl4, Hl3, Hl2, Hl1|].
    intros n t' i. rewrite Hv4, !Hv3, !Hv2, !Hv1, series_snoc, !Hs. cbn [added].
    destruct (decide (t = t' ∧ j = i)) as [[-> ->]|Hne];
      [|rewrite !bool_decide_false by tauto; done].
    destruct (decide (n ∈ families)) as [Hn|Hn].
    + rewrite (bool_decide_true (n ∈ families ∧ _ ∧ _)) by done. rewrite Z.add_0_r.
      unfold families in Hn. repeat (apply elem_of_cons in Hn as [->|Hn]); [..|by apply elem_of_nil in Hn];
        repeat ((rewrite (bool_decide_true (_ = _ ∧ _ ∧ _)) by done) || rewrite (bool_decide_false (_ = _ ∧ _ ∧ _)) by (intros [Hx _]; vm_compute in Hx; discriminate Hx));
        done.
    + rewrite !bool_decide_false; [done|..]; intros [Hx _]; apply Hn; [done|..]; rewrite Hx; set_solver.
Qed.

Lemma call_exported m fl l (e : PrometheusExporter) (r : R) :
  families_up e → labels_free fl → exported fl l r → (weights (l ++ [m]) ≤ exact_limit)%Z →
  ∃ r', exporter_call m (e, r) = ((e, r'), Ret tt) ∧ exported fl (l ++ [m]) r'.
Proof.
  intros Hup Hfree He Hw. destruct m as [t j|t j|t j|t j x]; [by apply init_call| | |by apply finished_call];
    destruct Hup as (Hc & Hfl & _); (eapply single_call; try done; try set_solver);
    intros n t' i; cbn [added]; by apply (f_equal (fun b : bool => if b then _ else _)), bool_decide_ext; naive_solver.
Qed.

Lemma calls_exported fl l1 (e : PrometheusExporter) : ∀ l (r : R),
  families_up e → labels_free fl → exported fl l r → (weights (l ++ l1) ≤ exact_limit)%Z →
  ∃ r', exporter_calls l1 (e, r) = ((e, r'), Ret tt) ∧ exported fl (l ++ l1) r'.
Proof.
  induction l1 as [|m l1 IH]; intros l r Hup Hfree He Hw.
  - exists r. by rewrite app_nil_r.
  - destruct (call_exported m fl l e r) as (r1 & Hr1 & He1); try done.
    { rewrite weights_app, weights_one. rewrite weights_app, weights_cons in Hw.
      pose proof (weights_nonneg l1). lia. }
    destruct (IH (l ++ [m]) r1) as (r2 & Hr2 & He2); [done|done|done|by rewrite <- app_assoc|].
    exists r2. rewrite <- app_assoc in He2. split; [|done]. cbn. by rewrite (stM_bind_Ret _ _ _ _ _ Hr1).
Qed.

(** *** Starting *)

(** What the library does before the address is bound. *)
Definition unbound (r : R) : R := drop_registry (drop_exposer r).

(** The exporter when a registration threw: it has its server and its
    registry, and no family. *)
Definition half_started : PrometheusExporter :=
  {| exposer := true; registry := true; driver_requests_count := NoFamily;
     driver_requests_failed := NoFamily; driver_requests_finished := NoFamily;
     driver_requests_time := NoFamily |}.
Definition started_exporter : PrometheusExporter :=
  with_time (with_finished (with_failed (with_count half_started))).

Lemma build_counter_runs name help fl store (e : PrometheusExporter) (r : R) :
  name ∈ families → labels_valid R fl = true →
  ∃ r', build_counter name help fl store (e, r) = ((store e, r'), Ret tt) ∧
    ∀ n k, family_labels n r' = (if str_eqb n name then Some fl else family_labels n r) ∧
           counter_value n k r' = counter_value n k r.
Proof.
  intros Hn Hv. destruct (register_family name help fl r Hn Hv) as (r' & E & Hr).
  exists r'. split; [|done]. unfold build_counter. by rewrite stM_bind_eq, on_snd_eq, E.
Qed.

(** The part of [start] after its [try]. *)
Lemma families_built fl (r : R) :
  labels_valid R fl = true →
  ∃ r', (build_counter COUNT #"The total number of requests attempts" fl with_count;;
         build_counter FAILED #"Failed requests count" fl with_failed;;
         build_counter FINISHED #"Finished requests count" fl with_finished;;
         build_counter TIME #"Accumulated request processing time in ms" fl with_time;;
         library register_collectable) (half_started, make_registry r) = ((started_exporter, r'), Ret tt) ∧
    exported fl [] r'.
Proof.
  intros Hv.
  destruct (build_counter_runs COUNT #"The total number of requests attempts" fl with_count half_started
              (make_registry r) ltac:(set_solver) Hv) as (r1 & E1 & H1).
  destruct (build_counter_runs FAILED #"Failed requests count" fl with_failed (with_count half_started)
              r1 ltac:(set_solver) Hv) as (r2 & E2 & H2).
  destruct (build_counter_runs FINISHED #"Finished requests count" fl with_finished
              (with_failed (with_count half_started)) r2 ltac:(set_solver) Hv) as (r3 & E3 & H3).
  destruct (build_counter_runs TIME #"Accumulated request processing time in ms" fl with_time
              (with_finished (with_failed (with_count half_started))) r3 ltac:(set_solver) Hv) as (r4 & E4 & H4).
  exists (register_collectable r4). split.
  - rewrite (stM_bind_Ret _ _ _ _ _ E1), (stM_bind_Ret _ _ _ _ _ E2), (stM_bind_Ret _ _ _ _ _ E3).
    by rewrite (stM_bind_Ret _ _ _ _ _ E4).
  - split.
    + repeat constructor; rewrite (proj1 (collectable_same _ ∅ _)), (proj1 (H4 _ ∅)), (proj1 (H3 _ ∅)),
        (proj1 (H2 _ ∅)), (proj1 (H1 _ ∅)); reflexivity.
    + intros name t i. rewrite (proj2 (collectable_same name _ _)), (proj2 (H4 name _)), (proj2 (H3 name _)),
        (proj2 (H2 name _)), (proj2 (H1 name _)). apply registry_empty.
Qed.

(** How a start ends. *)
Lemma start_cases fl c (r : R) :
  match make_exposer (prom_host c ++ #":" ++ to_string (prom_port c)) (unbound r) with
  | (_, Ret _) =>
      if labels_valid R fl
      then ∃ r1, exporter_start fl c (new_exporter, r) = ((started_exporter, r1), Ret tt) ∧ exported fl [] r1
      else ∃ r1 x, exporter_start fl c (new_exporter, r) = ((half_started, r1), Throw x)
  | (r1, Throw _) => exporter_start fl c (new_exporter, r) = ((new_exporter, r1), Ret tt)
  | (_, Undef) => snd (exporter_start fl c (new_exporter, r)) = Undef
  end.
Proof.
  unfold exporter_start. erewrite stM_bind_Ret by reflexivity. cbv zeta.
  rewrite stM_bind_eq. unfold stM_catch. rewrite stM_bind_eq, on_snd_eq.
  change (drop_registry (drop_exposer r)) with (unbound r).
  destruct (make_exposer _ _) as [r1 [[]|x|]]; [|reflexivity..].
  cbn [fst snd]. erewrite stM_bind_Ret by reflexivity. cbn [mret stM_mret].
  erewrite !(stM_bind_Ret (library _)), !(stM_bind_Ret (set_exporter _)) by reflexivity.
  cbn [fst snd]. change (with_registry _) with half_started. destruct (labels_valid R fl) eqn:Hv.
  - exact (families_built fl r1 Hv).
  - destruct (register_refused COUNT #"The total number of requests attempts" fl (make_registry r1)
      ltac:(set_solver) Hv) as (r2 & x & E).
    exists r2, x. rewrite stM_bind_eq. unfold build_counter. by rewrite stM_bind_eq, on_snd_eq, E.
Qed.

(** A start that made the exporter serve made all its families. *)
Lemma started_up fl c (r r1 : R) e :
  exporter_start fl c (new_exporter, r) = ((e, r1), Ret tt) → exposer e = true →
  families_up e ∧ exported fl [] r1.
Proof.
  intros Hs He. pose proof (start_cases fl c r) as Hc. rewrite Hs in Hc.
  destruct (make_exposer _ _) as [r2 [[]|x|]].
  - destruct (labels_valid R fl).
    + destruct Hc as (r3 & [= -> ->] & Hex). by split; [split_and!|].
    + by destruct Hc as (r3 & x & [=]).
  - by injection Hc as -> ->.
  - done.
Qed.

(** ** Properties *)

(** C38. The exporter tells the truth, or says that it does not start.  When
    its address can be bound and the names of the static labels are valid it
    starts, and then, with no static label called type or id, the calls of the
    drivers all succeed and every series of its four families has the number
    of calls made for its type and number (or the sum of the times), as long
    as the sums are exact in a double; a series no call was made for does not
    exist.  When the address cannot be bound, [start] returns and the calls do
    nothing.  When the name of a static label is not valid, the exception of
    the first registration leaves [start], with the server running and no
    family. *)
Theorem exporter_counts (fl : Labels) (c : prometheus_cfg) (r : R) (l : list metric_call) :
  match make_exposer (prom_host c ++ #":" ++ to_string (prom_port c)) (unbound r) with
  | (_, Ret _) =>
      if labels_valid R fl then
        labels_free fl → (weights l ≤ exact_limit)%Z →
        ∃ e r1 r2, exporter_start fl c (new_exporter, r) = ((e, r1), Ret tt) ∧
          exporter_calls l (e, r1) = ((e, r2), Ret tt) ∧
          ∀ name t i, counter_value name (driver_labels t i) r2 = series name t i l
      else ∃ r1 x, exporter_start fl c (new_exporter, r) = ((half_started, r1), Throw x)
  | (r1, Throw _) =>
      exporter_start fl c (new_exporter, r) = ((new_exporter, r1), Ret tt) ∧
      exporter_calls l (new_exporter, r1) = ((new_exporter, r1), Ret tt)
  | (_, Undef) => True
  end.
Proof.
  pose proof (start_cases fl c r) as Hst. destruct (make_exposer _ _) as [r1 [[]|x|]]; [| |done].
  - destruct (labels_valid R fl); [|done]. intros Hfree Hw. destruct Hst as (r2 & Hst & Hex).
    destruct (calls_exported fl l started_exporter [] r2 ltac:(by split_and!) Hfree Hex Hw)
      as (r3 & Hr3 & [_ Hs]).
    eexists _, _, r3. split; [exact Hst|]. by split.
  - split; [exact Hst|]. clear. induction l as [|m l IH]; [done|].
    cbn. rewrite stM_bind_eq. destruct m; exact IH.
Qed.
End Counters.

(** Stopping leaves the family of the finished requests behind: the next one
    that finishes goes through a dangling pointer. *)
Lemma stop_dangles {R} `{Prometheus R} (e : PrometheusExporter) (r : R) t i x :
  families_up e →
  let er := fst (exporter_stop (e, r)) in
  snd (driver_requests_count_increment t i er) = Ret tt ∧
  snd (driver_requests_failed_increment t i er) = Ret tt ∧
  snd (driver_requests_finished_increment t i x er) = Undef.
Proof.
  intros (_ & _ & Hf & _). destruct e as [? ? ? ? fin ?]. cbn in Hf. subst fin.
  split_and!; reflexivity.
Qed.

(** *** A small registry *)

(** Counters by family and labels, and the families; it refuses the address
    it is told to. *)
Record ToyProm : Type := {
  toy_busy : str;
  toy_families : gmap str (gmap str str);
  toy_series : gmap (str * gmap str str) Z
}.

(** Letters, digits and underscores, no digit first. *)
Definition toy_name (s : str) : bool :=
  let letter (c : ascii) := ((65 <=? nat_of_ascii c) && (nat_of_ascii c <=? 90)
    || (97 <=? nat_of_ascii c) && (nat_of_ascii c <=? 122) || (nat_of_ascii c =? 95))%nat in
  let digit (c : ascii) := ((48 <=? nat_of_ascii c) && (nat_of_ascii c <=? 57))%nat in
  match s with [] => false | c :: r => letter c && forallb (fun c => letter c || digit c) r end.

#[export] Instance toy_prometheus : Prometheus ToyProm := {
  make_exposer := fun a r => if str_eqb a (toy_busy r) then (r, Throw (RuntimeError #"null context"))
                             else (r, Ret tt);
  drop_exposer := id;
  make_registry := fun r => {| toy_busy := toy_busy r; toy_families := ∅; toy_series := ∅ |};
  drop_registry := fun r => {| toy_busy := toy_busy r; toy_families := ∅; toy_series := ∅ |};
  register := fun n _ fl r =>
    if forallb toy_name (map_to_list fl).*1
    then ({| toy_busy := toy_busy r; toy_families := <[n := fl]> (toy_families r);
             toy_series := toy_series r |}, Ret tt)
    else (r, Throw (RuntimeError #"Invalid label name"));
  label_name_valid := toy_name;
  register_collectable := id;
  counter_add := fun n l => modify (fun r =>
    {| toy_busy := toy_busy r; toy_families := toy_families r;
       toy_series := <[(n, l) := default 0%Z (toy_series r !! (n, l))]> (toy_series r) |});
  counter_increment := fun n l x => modify (fun r =>
    {| toy_busy := toy_busy r; toy_families := toy_families r;
       toy_series := <[(n, l) := (default 0 (toy_series r !! (n, l)) + Z.max 0 x)%Z]> (toy_series r) |});
  counter_value := fun n l r => toy_series r !! (n, l);
  family_labels := fun n r => toy_families r !! n
}.

#[export] Instance toy_prometheus_laws : PrometheusLaws ToyProm.
Proof.
  split; cbn.
  - intros name l fl r Hf Hd. eexists. split; [reflexivity|]. cbn. split_and!; [done| |].
    + by rewrite lookup_insert_eq.
    + intros n k Hne. by rewrite lookup_insert_ne.
  - intros name l x fl v r Hf Hd Hv Hr. eexists. split; [reflexivity|]. cbn. split_and!; [done| |].
    + by rewrite lookup_insert_eq, Hv.
    + intros n k Hne. by rewrite lookup_insert_ne.
  - done.
  - intros name help fl r _ Hv. unfold labels_valid in Hv. cbn in Hv. rewrite Hv. eexists. split; [done|].
    intros n k. split; [|done]. cbn. unfold str_eqb. case_bool_decide as E.
    + subst. by rewrite lookup_insert_eq.
    + by rewrite lookup_insert_ne.
  - intros name help fl r _ Hv. unfold labels_valid in Hv. cbn in Hv. rewrite Hv. by eexists _, _.
  - done.
Qed.

Definition toy_registry : ToyProm := {| toy_busy := #"0.0.0.0:1"; toy_families := ∅; toy_series := ∅ |}.

Definition some_calls : list metric_call :=
  [requests_count_increment #"sip" 1; requests_finished_increment #"sip" 1 25;
   requests_count_increment #"sip" 1; requests_failed_increment #"sip" 1].

Lemma exporter_counts_witness :
  ∃ e r1 r2,
    exporter_start {[ #"host" := #"a" ]} {| prom_host := #"127.0.0.1"; prom_port := 9091 |}
      (new_exporter, toy_registry) = ((e, r1), Ret tt) ∧
    exporter_calls some_calls (e, r1) = ((e, r2), Ret tt) ∧
    ∀ name t i, counter_value name (driver_labels t i) r2 = series name t i some_calls.
Proof.
  pose proof (exporter_counts {[ #"host" := #"a" ]} {| prom_host := #"127.0.0.1"; prom_port := 9091 |}
    toy_registry some_calls) as Hc.
  replace (make_exposer _ _) with (unbound toy_registry, Ret tt : M unit) in Hc by (vm_compute; reflexivity).
  replace (labels_valid _ _) with true in Hc by (vm_compute; reflexivity).
  apply Hc; [split; vm_compute; reflexivity|vm_compute; discriminate].
Defined.
