(* ===== verification/ConfuseLoad.v ===== *)
(** * The configuration file, from its text (src/cfg_reader.cpp)

    The option tables of cfg_reader.cpp for libconfuse, and [load_cfg] on the
    text of a file: [cfg_init], [cfg_parse] with [label_func], and the sections
    of [Config] read with the getters of libconfuse. *)
From S2P Require Import Prelude.
From S2P Require Import CLib.
From S2P Require Import Exceptions.
From S2P Require Import Config.
From S2P Require Import Metrics.
From S2P Require Import ConfuseScanner.
From S2P Require Import ConfuseRules.
From S2P Require Import ConfuseLexer.
From S2P Require Import ConfuseLexerSpec.
From S2P Require Import ConfuseFiles.
From S2P Require Import ConfuseData.
From S2P Require Import ConfuseTree.
From S2P Require Import Confuse.
From S2P Require Import ConfuseGrammar.
From S2P Require Import ConfuseLookup.
From S2P Require Import ConfuseParse.
From S2P Require Import ConfuseTurns.
From S2P Require Import ConfuseParseSpec.
From S2P Require Import ConfuseTyped.
From S2P Require Import ConfusePrint.
From S2P Require Import ConfuseTokens.
From S2P Require Import ConfusePrintSpec.

(** ** Definitions *)

(** *** The tables *)

Definition L_INFO : Z := 2.

Definition daemon_section_opts : list cfg_opt_t := [
  CFG_STR_LIST #"listen" (Some #"{tcp://127.0.0.1:4444}") CFGF_NODEFAULT;
  CFG_INT #"log_level" L_INFO CFGF_NODEFAULT ].

Definition lnp_section_db_opts : list cfg_opt_t := [
  CFG_INT #"port" 0 CFGF_NODEFAULT;
  CFG_STR #"host" None CFGF_NODEFAULT;
  CFG_STR #"name" None CFGF_NODEFAULT;
  CFG_STR #"user" None CFGF_NODEFAULT;
  CFG_STR #"pass" None CFGF_NODEFAULT;
  CFG_INT #"conn_timeout" 0 CFGF_NODEFAULT;
  CFG_INT #"check_interval" 0 CFGF_NODEFAULT;
  CFG_STR #"schema" None CFGF_NODEFAULT ].

Definition lnp_section_sip_opts : list cfg_opt_t := [
  CFG_STR #"contact_user" (Some #"yeti-lnp-resolver") CFGF_NONE;
  CFG_STR #"from_uri" (Some #"sip:yeti-lnp-resolver@localhost") CFGF_NONE;
  CFG_STR #"from_name" (Some #"yeti-lnp-resolver") CFGF_NONE ].

(** [label_func] is the function 0 of the user. *)
Definition prometheus_section_opts : list cfg_opt_t := [
  CFG_INT #"port" 9091 CFGF_NONE;
  CFG_STR #"host" (Some #"127.0.0.1") CFGF_NONE;
  CFG_FUNC #"label" (user_func 0) ].

Definition opts : list cfg_opt_t := [
  CFG_INT #"node_id" 0 CFGF_NODEFAULT;
  CFG_SEC #"daemon" daemon_section_opts CFGF_NONE;
  CFG_SEC #"db" lnp_section_db_opts CFGF_NONE;
  CFG_SEC #"sip" lnp_section_sip_opts CFGF_NONE;
  CFG_SEC #"prometheus" prometheus_section_opts CFGF_NONE ].

(** The callbacks of the tables: [label_func], with the message it reports. *)
#[export] Instance label_callbacks : Callbacks Labels := {
  call_user _ argv u :=
    let '(u, ret) := label_func argv u in
    (u, if (ret =? 0)%Z then [] else [ #"label must have 2 arguments"], ret);
  call_parse _ _ := None;
  call_valid _ _ := 0%Z;
  call_valid2 _ _ := 0%Z;
  call_print _ _ _ := []
}.

(** *** Loading *)

(** The result of [cfg_parse] in the [switch] of [load_cfg]. *)
Definition parse_result (rc : Z) : cfg_parse_result :=
  if (rc =? ConfuseFiles.CFG_SUCCESS)%Z then Config.CFG_SUCCESS
  else if (rc =? ConfuseFiles.CFG_FILE_ERROR)%Z then Config.CFG_FILE_ERROR
  else if (rc =? ConfuseFiles.CFG_PARSE_ERROR)%Z then Config.CFG_PARSE_ERROR
  else CFG_OTHER.

(** A parsed tree, for [Config]. *)
Definition tree_confuse (rc : Z) (c : cfg_t) : Config.Confuse cfg_t cfg_t := {|
  Config.cfg_parse := fun _ => (parse_result rc, c);
  Config.cfg_getsec := fun s name => got None (ConfuseData.cfg_getsec s name);
  Config.cfg_size := fun s name => got 0 (ConfuseData.cfg_size s name);
  Config.cfg_getnstr := fun s name i => got None (ConfuseData.cfg_getnstr s name i);
  Config.cfg_getint := fun s name => got 0%Z (ConfuseData.cfg_getint s name);
  Config.cfg_getstr := fun s name => got None (ConfuseData.cfg_getstr s name)
|}.

Section Load.
Context `{Host}.

(** [load_cfg] in a new process: [cfg_init], [cfg_parse], the sections and
    [cfg_free]; the labels are those of the exporter. *)
Definition load_file (fuel : nat) (path : str) (labels : Labels) (g : global_cfg_t)
  : parser Labels * (global_cfg_t * outcome exn bool) :=
  let start := Parser fresh_lexer fresh_log (root_section [] CFGF_NONE) labels in
  match (cfg_init fuel opts CFGF_NONE;; Confuse.cfg_parse fuel path) start with
  | (s, Ret rc) =>
      let '(g, r) := @load_cfg cfg_t cfg_t (tree_confuse rc (pcfg s)) path g in
      (Parser (cfg_free (pcfg s) (plex s)) (plog s) (pcfg s) (puser s), (g, r))
  | (s, _) => (s, (g, Undef))
  end.

(** The tree after [cfg_init]. *)
Definition table : cfg_t :=
  Eval vm_compute in
    pcfg (fst (cfg_init 4 opts CFGF_NONE
      (Parser fresh_lexer fresh_log (root_section [] CFGF_NONE) (∅ : Labels)))).
End Load.

(** The values a file gives to an option, by the name of its section and its
    own. *)
Definition given (st : list stmt) (name : str) : list cfg_value_t :=
  match resolve table name with
  | Some p => stored st p (match opt_at table p with Some o => opt_values (un o) | None => [] end)
  | None => []
  end.

(** The first string, and the first number. *)
Definition text_of (st : list stmt) (name : str) : str := default [] (head (texts (given st name))).
Definition number_of (st : list stmt) (name : str) : Z := default 0%Z (head (numbers (given st name))).

(** The strings without a default. *)
Definition required : list str := [ #"db|host"; #"db|user"; #"db|pass"; #"db|name"; #"db|schema"].

(** The configuration after a file. *)
Definition loaded (st : list stmt) (g : global_cfg_t) : global_cfg_t := {|
  cfg_bind_urls := cfg_bind_urls g ++ texts (given st #"daemon|listen");
  cfg_db := {|
    db_host := text_of st #"db|host"; db_user := text_of st #"db|user"; db_pass := text_of st #"db|pass";
    db_database := text_of st #"db|name"; db_schema := text_of st #"db|schema";
    db_port := u32 (number_of st #"db|port"); db_timeout := u32 (number_of st #"db|conn_timeout");
    db_check_timeout := u32 (number_of st #"db|check_interval") |};
  cfg_sip := {|
    sip_contact := text_of st #"sip|contact_user"; sip_from_uri := text_of st #"sip|from_uri";
    sip_from_name := text_of st #"sip|from_name" |};
  cfg_prometheus := {|
    prom_host := text_of st #"prometheus|host"; prom_port := u32 (number_of st #"prometheus|port") |};
  log_level := clip_level (number_of st #"daemon|log_level")
|}.

(** ** Lemmas *)

Lemma plain_table : plain table.
Proof. apply (plainb_plain 3). by vm_compute. Qed.

(** A section of the tree a file leaves. *)
Record read_section (st : list stmt) (c : cfg_t) (k : nat) (s0 s : cfg_t) : Prop := {
  read_effect : effect st table c;
  read_typed : Forall (stmt_ok table) st;
  read_there : section_at table [(k, 0)] = Some s0;
  read_at : section_at c [(k, 0)] = Some s
}.

Lemma table_section st c name k s0 o :
  effect st table c → Forall (stmt_ok table) st →
  resolve table name = Some ([], k) → opt_at table ([], k) = Some o → opt_type (un o) = TYPE_SEC →
  section_at table [(k, 0)] = Some s0 →
  ∃ s, got None (ConfuseData.cfg_getsec c name) = Some s ∧ read_section st c k s0 s.
Proof.
  intros Ef Hst Hr Ho Et Hs0. pose proof (effect_alike _ _ _ Ef) as Ha. pose proof (plain_named _ plain_table) as Hn.
  assert (named c) as Hnc. { intros p h. rewrite <- (proj2 Ha). apply Hn. }
  destruct (alike_section _ _ _ _ Ha Hs0) as (s & Es & _ & _). exists s. split; [|by split].
  apply gives_got. unfold ConfuseData.cfg_getsec, cfg_getnsec. eapply gives_bind; [by apply getopt_gives|].
  rewrite <- (resolve_alike _ _ _ Hn Ha (effect_head _ _ _ Ef)), Hr. cbn [mbind option_bind].
  pose proof (proj1 Ha ([], k)) as Hk. rewrite Ho in Hk. destruct (opt_at c ([], k)) as [o'|] eqn:Eo'; [|done].
  apply (inj Some), static_same in Hk as (_ & Ht & _). rewrite Et in Ht.
  rewrite section_at_cons in Es. unfold child in Es. unfold opt_at in Eo'. cbn in Eo', Es. rewrite Eo' in Es. cbn in Es.
  intros g. unfold cfg_opt_getnsec, type_is. rewrite <- Ht, bool_decide_true by done.
  destruct (opt_values (un o') !! 0) as [v|]; [|done]. cbn in Es. destruct (value_section v) as [s'|] eqn:E; [|done].
  cbn in Es. injection Es as ->. by exists g.
Qed.

(** An option of the section. *)
Lemma table_option st c k s0 s name j o :
  read_section st c k s0 s → resolve s0 name = Some ([], j) → opt_at table ([(k, 0)], j) = Some o → values_ok o →
  ∃ o', gives (getopt s name) (Some o') ∧ static o' = static o ∧ values_ok o' ∧
    opt_values (un o') = stored st ([(k, 0)], j) (opt_values (un o)).
Proof.
  intros [Ef Hst Hs0 Hs] Hr Ho Hv. pose proof (effect_alike _ _ _ Ef) as Ha.
  pose proof (plain_named _ plain_table) as Hn.
  destruct (alike_section _ _ _ _ Ha Hs0) as (s' & Es & Has & Hh). assert (s' = s) as -> by congruence.
  assert (named s0) as Hn0 by exact (named_section _ _ _ Hn Hs0).
  assert (named s) as Hns. { intros p h. rewrite <- (proj2 Has). apply Hn0. }
  destruct (effect_values _ _ _ _ _ Ef Hst Ho Hv) as (o' & Eo' & So & Hvals & Hok). exists o'.
  split; [|done]. pose proof (getopt_gives s name Hns) as Hg.
  rewrite <- (resolve_alike _ _ _ Hn0 Has Hh), Hr in Hg. cbn [mbind option_bind] in Hg.
  assert (opt_at c ([(k, 0)], j) = opt_at s ([], j)) as Ec by (unfold opt_at; cbn [fst snd]; by rewrite Hs).
  by rewrite <- Ec, Eo' in Hg.
Qed.

(** The three getters on it. *)
Lemma static_simple o o' : static o' = static o → simple_value (un o') = simple_value (un o).
Proof. destruct o as [o], o' as [o']. unfold static, mask. by intros [= ]. Qed.

Section Getters.
Context (st : list stmt) (c s0 s : cfg_t) (k j : nat) (name : str) (o : cfg_opt_t).
Context (Hs : read_section st c k s0 s) (Hr : resolve s0 name = Some ([], j)).
Context (Ho : opt_at table ([(k, 0)], j) = Some o) (Hv : values_ok o) (Hsim : simple_value (un o) = None).

Let vs := stored st ([(k, 0)], j) (opt_values (un o)).

Lemma table_string i : opt_type (un o) = TYPE_STR → got None (ConfuseData.cfg_getnstr s name i) = texts vs !! i.
Proof.
  intros Et. destruct (table_option _ _ _ _ _ _ _ _ Hs Hr Ho Hv) as (o' & Hg & So & Hok & Hvals). apply gives_got.
  eapply gives_bind; [exact Hg|]. unfold vs. rewrite <- Hvals.
  apply getnstr_gives; [|by rewrite (static_simple _ _ So)|done].
  by apply static_same in So as (_ & -> & _).
Qed.

Lemma table_number : opt_type (un o) = TYPE_INT →
  got 0%Z (ConfuseData.cfg_getint s name) = default 0%Z (head (numbers vs)).
Proof.
  intros Et. destruct (table_option _ _ _ _ _ _ _ _ Hs Hr Ho Hv) as (o' & Hg & So & Hok & Hvals). apply gives_got.
  eapply gives_bind; [exact Hg|]. unfold vs. rewrite <- Hvals.
  apply getint_gives; [|by rewrite (static_simple _ _ So)|done].
  by apply static_same in So as (_ & -> & _).
Qed.

Lemma table_size : opt_type (un o) = TYPE_STR → got 0 (ConfuseData.cfg_size s name) = length (texts vs).
Proof.
  intros Et. destruct (table_option _ _ _ _ _ _ _ _ Hs Hr Ho Hv) as (o' & Hg & So & Hok & Hvals). apply gives_got.
  eapply gives_bind; [exact Hg|]. cbn [cfg_opt_size]. unfold vs. rewrite <- Hvals. unfold values_ok in Hok.
  assert (opt_type (un o') = TYPE_STR) as Et' by (by apply static_same in So as (_ & -> & _)).
  rewrite Et' in Hok. destruct (texts_lookup _ 0 Hok) as [_ ->]. apply gives_ret.
Qed.

(** By the full name. *)
Context (full : str) (Hfull : resolve table full = Some ([(k, 0)], j)).

Lemma given_at : given st full = vs.
Proof. unfold given. by rewrite Hfull, Ho. Qed.

Lemma texts_plain ws : Forall (value_ok TYPE_STR) ws → Forall (fun x => c_str x = x) (texts ws).
Proof. induction 1 as [|v ws [x ->] _ IH]; cbn; constructor; [apply c_str_idemp|done]. Qed.

Lemma table_texts i :
  opt_type (un o) = TYPE_STR → got None (ConfuseData.cfg_getnstr s name i) = texts (given st full) !! i.
Proof. rewrite given_at. apply table_string. Qed.

Lemma table_count :
  opt_type (un o) = TYPE_STR → got 0 (ConfuseData.cfg_size s name) = length (texts (given st full)).
Proof. rewrite given_at. apply table_size. Qed.

Lemma table_values : opt_type (un o) = TYPE_STR → Forall (value_ok TYPE_STR) (given st full).
Proof.
  intros Et. rewrite given_at. pose proof (stored_ok _ _ _ _ _ (read_typed _ _ _ _ _ Hs) Ho Hv) as Hok.
  by rewrite Et in Hok.
Qed.

Lemma table_cut : opt_type (un o) = TYPE_STR → Forall (fun x => c_str x = x) (texts (given st full)).
Proof. intros Et. by apply texts_plain, table_values. Qed.

Lemma table_text :
  opt_type (un o) = TYPE_STR →
  bool_decide (is_Some (got None (ConfuseData.cfg_getnstr s name 0))) = negb (bool_decide (given st full = [])) ∧
  c_str (default [] (got None (ConfuseData.cfg_getnstr s name 0))) = text_of st full.
Proof.
  intros Et. rewrite (table_texts 0 Et). unfold text_of. pose proof (table_cut Et) as Hp.
  destruct (texts_lookup _ 0 (table_values Et)) as [_ Hl].
  destruct (given st full) as [|v vs']; destruct (texts _) as [|x xs]; try done. split; [done|].
  by apply Forall_cons in Hp as [? _].
Qed.

Lemma table_int : opt_type (un o) = TYPE_INT → got 0%Z (ConfuseData.cfg_getint s name) = number_of st full.
Proof. intros Et. unfold number_of. rewrite given_at. by apply table_number. Qed.
End Getters.

(** The facts about the tables are computed. *)
Ltac by_table := first [ done | by vm_compute | by (apply values_okb_ok; vm_compute) ].

Section Loading.
Context (rc : Z) (st : list stmt) (c : cfg_t).
Context (Hef : effect st table c) (Hst : Forall (stmt_ok table) st).

#[local] Instance loaded_tree : Config.Confuse cfg_t cfg_t := tree_confuse rc c.

(** The strings of a section. *)
Definition string_at (s : cfg_t) (name full : str) : Prop :=
  bool_decide (is_Some (Config.cfg_getstr s name)) = negb (bool_decide (given st full = [])) ∧
  c_str (default [] (Config.cfg_getstr s name)) = text_of st full.

Lemma db_tree : ∃ s, Config.cfg_getsec c #"db" = Some s ∧
  string_at s #"host" #"db|host" ∧ string_at s #"user" #"db|user" ∧ string_at s #"pass" #"db|pass" ∧
  string_at s #"name" #"db|name" ∧ string_at s #"schema" #"db|schema" ∧
  Config.cfg_getint s #"port" = number_of st #"db|port" ∧
  Config.cfg_getint s #"conn_timeout" = number_of st #"db|conn_timeout" ∧
  Config.cfg_getint s #"check_interval" = number_of st #"db|check_interval".
Proof.
  destruct (table_section st c #"db" 2 _ _ Hef Hst ltac:(by vm_compute) ltac:(done) ltac:(done) ltac:(done)) as (s & Es & Hs).
  exists s. split; [exact Es|].
  split_and!; try (eapply (table_int st c _ s 2); by_table);
    (eapply (table_text st c _ s 2); by_table).
Qed.

Lemma sip_tree : ∃ s, Config.cfg_getsec c #"sip" = Some s ∧
  string_at s #"contact_user" #"sip|contact_user" ∧ string_at s #"from_uri" #"sip|from_uri" ∧
  string_at s #"from_name" #"sip|from_name".
Proof.
  destruct (table_section st c #"sip" 3 _ _ Hef Hst ltac:(by vm_compute) ltac:(done) ltac:(done) ltac:(done)) as (s & Es & Hs).
  exists s. split; [exact Es|]. split_and!; (eapply (table_text st c _ s 3); by_table).
Qed.

Lemma prometheus_tree : ∃ s, Config.cfg_getsec c #"prometheus" = Some s ∧
  string_at s #"host" #"prometheus|host" ∧ Config.cfg_getint s #"port" = number_of st #"prometheus|port".
Proof.
  destruct (table_section st c #"prometheus" 4 _ _ Hef Hst ltac:(by vm_compute) ltac:(done) ltac:(done) ltac:(done)) as (s & Es & Hs).
  exists s. split; [exact Es|].
  split_and!; try (eapply (table_int st c _ s 4); by_table); (eapply (table_text st c _ s 4); by_table).
Qed.

Lemma daemon_tree : ∃ s, Config.cfg_getsec c #"daemon" = Some s ∧
  (∀ i, Config.cfg_getnstr s #"listen" i = texts (given st #"daemon|listen") !! i) ∧
  Config.cfg_size s #"listen" = length (texts (given st #"daemon|listen")) ∧
  Forall (fun x => c_str x = x) (texts (given st #"daemon|listen")) ∧
  Config.cfg_getint s #"log_level" = number_of st #"daemon|log_level".
Proof.
  destruct (table_section st c #"daemon" 1 _ _ Hef Hst ltac:(by vm_compute) ltac:(done) ltac:(done) ltac:(done)) as (s & Es & Hs).
  exists s. split; [exact Es|].
  split_and!; [intros i| | |].
  - eapply (table_texts st c _ s 1); by_table.
  - eapply (table_count st c _ s 1); by_table.
  - eapply (table_cut st c _ s 1 0); by_table.
  - eapply (table_int st c _ s 1); by_table.
Qed.

(** An option with a default keeps a value. *)
Lemma default_there name p o :
  resolve table name = Some p → opt_at table p = Some o → is_list o = false → opt_values (un o) ≠ [] →
  bool_decide (given st name = []) = false.
Proof.
  intros Hr Ho Hl Hn. apply bool_decide_eq_false. unfold given. rewrite Hr, Ho. by eapply stored_there.
Qed.

(** The sections are complete when the strings of the database are given. *)
Lemma complete_tree : complete c = forallb (fun n => negb (bool_decide (given st n = []))) required.
Proof.
  destruct db_tree as (sd & Ed & [H1 _] & [H2 _] & [H3 _] & [H4 _] & [H5 _] & _).
  destruct sip_tree as (ss & Ess & [K1 _] & [K2 _] & [K3 _]). destruct prometheus_tree as (sp & Ep & [P1 _] & _).
  destruct daemon_tree as (sa & Ea & Hi & Hn & _ & _).
  unfold complete, complete_section, has_strings, listen_complete, required. rewrite Ed, Ess, Ep, Ea. cbn [forallb].
  rewrite H1, H2, H3, H4, H5, K1, K2, K3, P1, Hn.
  rewrite !(default_there #"sip|contact_user" ([(3, 0)], 0) _ ltac:(by vm_compute) eq_refl) by done.
  rewrite !(default_there #"sip|from_uri" ([(3, 0)], 1) _ ltac:(by vm_compute) eq_refl) by done.
  rewrite !(default_there #"sip|from_name" ([(3, 0)], 2) _ ltac:(by vm_compute) eq_refl) by done.
  rewrite !(default_there #"prometheus|host" ([(4, 0)], 1) _ ltac:(by vm_compute) eq_refl) by done.
  cbn [negb andb]. rewrite !andb_true_r.
  assert (forallb (fun i => bool_decide (is_Some (Config.cfg_getnstr sa #"listen" i)))
    (seq 0 (length (texts (given st #"daemon|listen")))) = true) as ->; [|done].
  apply forallb_forall. intros i Hin. apply in_seq in Hin as [_ Hin]. apply bool_decide_eq_true. rewrite Hi.
  apply lookup_lt_is_Some. lia.
Qed.

Lemma omap_all (f : nat → option str) l :
  (∀ i, f i = l !! i) → Forall (fun x => c_str x = x) l → omap (fun i => c_str <$> f i) (seq 0 (length l)) = l.
Proof.
  intros Hi Hc.
  assert (∀ m j, drop j l = m → omap (fun i => c_str <$> f i) (seq j (length m)) = m) as Hm; [|by apply Hm].
  induction m as [|x m IH]; intros j E; [done|]. cbn.
  assert (l !! j = Some x) as Ej by (by rewrite <- (Nat.add_0_r j), <- lookup_drop, E).
  rewrite Hi, Ej. cbn. rewrite (proj1 (Forall_lookup _ _) Hc _ _ Ej). f_equal. apply IH.
  by rewrite <- Nat.add_1_r, <- drop_drop, E.
Qed.

(** The configuration is the one the statements give. *)
Lemma configured_tree g : configured c g = loaded st g.
Proof.
  destruct db_tree as (sd & Ed & [_ H1] & [_ H2] & [_ H3] & [_ H4] & [_ H5] & H6 & H7 & H8).
  destruct sip_tree as (ss & Ess & [_ K1] & [_ K2] & [_ K3]). destruct prometheus_tree as (sp & Ep & [_ P1] & P2).
  destruct daemon_tree as (sa & Ea & Hi & Hn & Hc & Hlog).
  unfold configured, section_change, db_of, sip_of, prometheus_of. rewrite Ed, Ess, Ep, Ea.
  rewrite H1, H2, H3, H4, H5, H6, H7, H8, K1, K2, K3, P1, P2, Hlog. unfold listed. rewrite Hn, (omap_all (Config.cfg_getnstr sa #"listen")) by done. done.
Qed.
End Loading.

(** A file that was parsed. *)
Lemma load_parsed {F Sec} `{Config.Confuse F Sec} path c g :
  Config.cfg_parse path = (Config.CFG_SUCCESS, c) →
  if complete c then load_cfg path g = (configured c g, Ret true) else snd (load_cfg path g) = Undef.
Proof. intros E. unfold load_cfg. rewrite E. apply load_sections. Qed.

(** ** Properties *)

Section LoadSpec.
Context `{Host}.

Lemma init_table (fuel : nat) (s : parser Labels) :
  4 ≤ fuel → cfg_init fuel opts CFGF_NONE s = (Parser (plex s) (plog s) table (puser s), Ret tt).
Proof.
  intros Hf. destruct fuel as [|[|[|[|n]]]]; try lia. destruct s as [l g c u]. by vm_compute.
Qed.

Lemma label_reports : reports (U := Labels).
Proof.
  intros n args u u' ms ret. cbn. destruct (label_func args u) as [u1 r]. intros [= _ <- <-] Hr.
  apply Z.eqb_neq in Hr. by rewrite Hr.
Qed.

(** The bytes of a file. *)
Definition file_length (path : str) : nat := match fopen path with Some text => length text | None => 0 end.

(** C16. Loading the configuration from the text of its file.  A file that is
    not there, or whose text is not a list of statements of the option tables,
    or in which a label does not have two arguments, is refused with the
    configuration as it was, and in the last two cases with a message.
    Otherwise the labels of the file are added, and the load succeeds exactly
    when the file gives the five strings of the section [db] that have no
    default (a missing one is a null pointer made a string: the sections
    are there even when the file does not name them); each member has then the
    last value the file gives, or its default. *)
Theorem load_file_spec fuel path fn labels g :
  cfg_tilde_expand path = Ret fn → 2 * file_length fn + 4 < fuel →
  let '(s, (g', r)) := load_file fuel path labels g in
  match fopen fn with
  | None => g' = g ∧ r = Ret false ∧ puser s = labels
  | Some text =>
      match read_file table (text_tokens text fresh_lexer) labels with
      | None => g' = g ∧ r = Ret false ∧ messages (plog s) ≠ []
      | Some (st, labels') =>
          puser s = labels' ∧
          if forallb (fun n => negb (bool_decide (given st n = []))) required
          then g' = loaded st g ∧ r = Ret true
          else r = Undef
      end
  end.
Proof.
  intros Hfn Hf. unfold load_file. rewrite (stM_bind_Ret _ _ _ _ _ (init_table fuel _ ltac:(lia))).
  cbn [plex plog puser]. set (s0 := Parser fresh_lexer fresh_log table labels).
  assert (Confuse.cfg_parse fuel path s0 =
    match fopen fn with
    | None => (Parser fresh_lexer fresh_log (with_pos (Position (Some fn) 0 []) table) labels, Ret ConfuseFiles.CFG_FILE_ERROR)
    | Some text => cfg_parse_fp fuel text (Parser fresh_lexer fresh_log (with_pos (Position (Some fn) 0 []) table) labels)
    end) as ->.
  { unfold Confuse.cfg_parse. rewrite (stM_bind_Ret _ _ s0 s0 table) by done.
    rewrite (stM_bind_Ret _ _ s0 s0 (Some fn)) by (unfold lexing, resolve_name; cbn; by rewrite Hfn).
    rewrite stM_bind_eq. cbn. by destruct (fopen fn). }
  unfold file_length in Hf. destruct (fopen fn) as [text|]; [|done].
  set (s1 := Parser fresh_lexer fresh_log (with_pos (Position (Some fn) 0 []) table) labels).
  destruct (parse_text fuel text table s1 (plain_pos _ _ plain_table) eq_refl eq_refl Hf
    ltac:(eapply effect_alike, effect_pos)) as (s & ret & -> & Hs). cbn [plex puser s1] in Hs.
  destruct (read_file table (text_tokens text fresh_lexer) labels) as [[st u]|] eqn:Er.
  - destruct Hs as (-> & Hu & Ef & _). apply effect_pos_from in Ef.
    assert (Forall (stmt_ok table) st) as Hst.
    { unfold read_file in Er. destruct (items _ table 0 _) as [[st' r]|] eqn:Ei; [|done]. cbn in Er.
      destruct (calls st' labels); [|done]. injection Er as -> _. by eapply items_ok. }
    pose proof (@load_parsed cfg_t cfg_t (tree_confuse ConfuseFiles.CFG_SUCCESS (pcfg s)) path (pcfg s) g eq_refl) as Hl.
    rewrite (complete_tree _ _ _ Ef Hst), (configured_tree _ _ _ Ef Hst) in Hl.
    destruct (@load_cfg _ _ _ path g) as [g' r]. split; [exact Hu|]. destruct (forallb _ required).
    + by injection Hl as -> ->.
    + exact Hl.
  - destruct Hs as (-> & ms & Hm & Hms). unfold load_cfg. cbn. split_and!; [done..|].
    rewrite Hm. cbn. by apply Hms, label_reports.
Qed.
End LoadSpec.

(** ** The file of the repository *)

(** etc/lnp_resolver.cfg.dist, with its quotation marks as apostrophes. *)
Definition dist_cfg : str := quoted #"daemon {
    listen = {
        'tcp://127.0.0.1:4444'
    }
    log_level = 2
}

db {
    host = 127.0.0.1
    port = 5434
    name = yeti
    user = yeti
    pass = yeti
    schema = lnp
    conn_timeout = 0
    check_interval = 5000
}

sip {
    contact_user = yeti-lnp-resolver
    from_uri = sip:yeti-lnp-resolver@localhost
    from_name = yeti-lnp-resolver
}

prometheus {
    host = 127.0.0.1
    port = 9091
    #label(host,localhost)
}
".

(** A host with one file. *)
Definition dist_path : str := #"/etc/yeti/lnp_resolver.cfg".

Definition one_file (text : str) : Host := {|
  getenv _ := None;
  fopen path := if str_eqb path dist_path then Some text else None;
  open_error _ := #"No such file or directory";
  is_regular path := str_eqb path dist_path;
  own_home := None;
  home_of _ := None;
  junk := NUL
|}.

(** The configuration before it is loaded. *)
Definition no_cfg : global_cfg_t := {|
  cfg_bind_urls := [];
  cfg_db := {| db_host := []; db_user := []; db_pass := []; db_database := []; db_schema := [];
               db_port := 0; db_timeout := 0; db_check_timeout := 0 |};
  cfg_sip := {| sip_contact := []; sip_from_uri := []; sip_from_name := [] |};
  cfg_prometheus := {| prom_host := []; prom_port := 0 |};
  log_level := 0
|}.

Definition dist_cfg_loaded : global_cfg_t := {|
  cfg_bind_urls := [ #"tcp://127.0.0.1:4444"];
  cfg_db := {| db_host := #"127.0.0.1"; db_user := #"yeti"; db_pass := #"yeti"; db_database := #"yeti";
               db_schema := #"lnp"; db_port := 5434; db_timeout := 0; db_check_timeout := 5000 |};
  cfg_sip := {| sip_contact := #"yeti-lnp-resolver"; sip_from_uri := #"sip:yeti-lnp-resolver@localhost";
                sip_from_name := #"yeti-lnp-resolver" |};
  cfg_prometheus := {| prom_host := #"127.0.0.1"; prom_port := 9091 |};
  log_level := 2
|}.

(** The statements of the file. *)
Definition dist_statements : option (list stmt * Labels) :=
  read_file table (@text_tokens (one_file dist_cfg) dist_cfg fresh_lexer) ∅.

Definition dist_st : list stmt := match dist_statements with Some (st, _) => st | None => [] end.

Lemma dist_reads :
  read_file table (@text_tokens (one_file dist_cfg) dist_cfg fresh_lexer) ∅ = Some (dist_st, ∅).
Proof. vm_compute. reflexivity. Qed.

Lemma dist_loaded :
  loaded dist_st no_cfg = dist_cfg_loaded ∧
  forallb (fun n => negb (bool_decide (given dist_st n = []))) required = true.
Proof. split; vm_compute; reflexivity. Qed.

Lemma load_file_spec_witness :
  let H := one_file dist_cfg in
  let '(s, (g', r)) := load_file 2000 dist_path (∅ : Labels) no_cfg in
  g' = dist_cfg_loaded ∧ r = Ret true ∧ puser s = ∅.
Proof.
  cbv zeta. pose proof (@load_file_spec (one_file dist_cfg) 2000 dist_path dist_path ∅ no_cfg eq_refl
    ltac:(apply Nat.ltb_lt; vm_compute; reflexivity)) as Hl.
  destruct (load_file _ _ _ _) as [s [g' r]].
  assert (@fopen (one_file dist_cfg) dist_path = Some dist_cfg) as Ef by (vm_compute; reflexivity).
  rewrite Ef in Hl. cbv beta iota in Hl. rewrite dist_reads in Hl. cbv beta iota in Hl.
  destruct dist_loaded as [E1 E2]. rewrite E2, E1 in Hl.
  destruct Hl as (Hu & Hg & Hr). split_and!; assumption.
Defined.

Lemma cfg_parse_fp_reads_witness :
  let H := one_file dist_cfg in
  ∃ s, cfg_parse_fp 2000 dist_cfg (Parser fresh_lexer fresh_log table (∅ : Labels)) = (s, Ret ConfuseFiles.CFG_SUCCESS) ∧
    effect dist_st table (pcfg s) ∧ puser s = ∅.
Proof.
  cbv zeta. destruct (@cfg_parse_fp_reads Labels (one_file dist_cfg) _ 2000 dist_cfg
    (Parser fresh_lexer fresh_log table ∅) plain_table eq_refl eq_refl
    ltac:(apply Nat.ltb_lt; vm_compute; reflexivity)) as (s & ret & E & Hs).
  cbn [pcfg plex puser] in Hs. rewrite dist_reads in Hs. cbv beta iota in Hs.
  destruct Hs as (Er & Hu & Ef & _). exists s. rewrite E, Er. split_and!; [reflexivity|assumption..].
Defined.

(** A file without the strings of the database: the sections are there, and
    their null pointers are made strings. *)
Example empty_file_undefined :
  snd (snd (@load_file (one_file #"daemon { log_level = 1 }") 100 dist_path (∅ : Labels) no_cfg)) = Undef.
Proof. vm_compute. reflexivity. Qed.

(** The level without a statement is 0, not the default of its table. *)
Example log_level_without_default : clip_level (number_of [] #"daemon|log_level") = L_ERR.
Proof. vm_compute. reflexivity. Qed.

(** A file may end inside of a section, and inside of a comment. *)
Example unclosed_section_accepted :
  let c := #"db { host = h name = n user = u pass = p schema = s /* no end" in
  snd (snd (@load_file (one_file c) 300 dist_path (∅ : Labels) no_cfg)) = Ret true.
Proof. vm_compute. reflexivity. Qed.

(** A comment inside of a list is refused. *)
Example comment_in_list_refused :
  let c := #"daemon { listen = { a, # comment
    b } }" in
  let '(s, (_, r)) := @load_file (one_file c) 300 dist_path (∅ : Labels) no_cfg in
  r = Ret false ∧ length (messages (plog s)) = 1.
Proof. vm_compute. split; reflexivity. Qed.

(** Statements of several sections and functions. *)
Example appended_and_called :
  let c := #"daemon { listen = { a, b } } db|host = h daemon { listen += c } prometheus { label(x, y) }" in
  fmap (fun '(st, labels) => (texts (given st #"daemon|listen"), text_of st #"db|host", labels !! #"x"))
    (read_file table (@text_tokens (one_file c) c fresh_lexer) (∅ : Labels))
  = Some ([ #"a"; #"b"; #"c"], #"h", Some #"y").
Proof. vm_compute. reflexivity. Qed.

(** ** Printing what was read *)

(** The tree the file of the repository gives. *)
Definition dist_tree : cfg_t :=
  Eval vm_compute in
    pcfg (fst (@cfg_parse_fp Labels (one_file dist_cfg) _ 2000 dist_cfg (Parser fresh_lexer fresh_log table ∅))).

Definition dist_printed : str := quoted #"node_id=0
daemon {
  listen = {'tcp://127.0.0.1:4444'}
  log_level=2
}
db {
  port=5434
  host='127.0.0.1'
  name='yeti'
  user='yeti'
  pass='yeti'
  conn_timeout=0
  check_interval=5000
  schema='lnp'
}
sip {
  contact_user='yeti-lnp-resolver'
  from_uri='sip:yeti-lnp-resolver@localhost'
  from_name='yeti-lnp-resolver'
}
prometheus {
  port=9091
  host='127.0.0.1'
}
".

(** An integer that was never set is printed as a comment. *)
Lemma dist_tree_printed : printed dist_tree = Some (#"# " ++ dist_printed).
Proof. vm_compute. reflexivity. Qed.

(** The table and the tree have the same options. *)
Lemma table_dist : alike table dist_tree.
Proof.
  destruct (@parse_text Labels (one_file dist_cfg) _ 2000 dist_cfg table (Parser fresh_lexer fresh_log table ∅)
    plain_table eq_refl eq_refl ltac:(apply Nat.ltb_lt; vm_compute; reflexivity) ltac:(reflexivity)) as (s & ret & E & Hs).
  cbn [pcfg plex puser] in Hs. rewrite dist_reads in Hs. destruct Hs as (_ & _ & Ef & _). apply effect_alike in Ef.
  replace dist_tree with (pcfg s); [exact Ef|]. apply (f_equal (fun x => pcfg (fst x))) in E. cbn [fst] in E.
  rewrite <- E. vm_compute. reflexivity.
Qed.

Lemma configuration_roundtrip_witness :
  let H := one_file dist_cfg in
  ∃ s, cfg_parse_fp 2000 (#"# " ++ dist_printed) (Parser fresh_lexer fresh_log table (∅ : Labels))
         = (s, Ret ConfuseFiles.CFG_SUCCESS) ∧
    (∃ o, opt_at (pcfg s) ([(2, 0)], 1) = Some o ∧ opt_values (un o) = [VStr (Some #"127.0.0.1")]) ∧
    (∃ o, opt_at (pcfg s) ([], 0) = Some o ∧ opt_values (un o) = []).
Proof.
  cbv zeta. destruct (@configuration_roundtrip Labels (one_file dist_cfg) _ dist_tree ltac:(vm_compute; reflexivity))
    as (text & Ep & Hr).
  rewrite dist_tree_printed in Ep. injection Ep as <-.
  destruct (Hr 2000 (Parser fresh_lexer fresh_log table ∅) plain_table) as (s & E & _ & _ & Ho).
  - apply table_dist.
  - split; [reflexivity|]. split; [reflexivity|]. split; reflexivity.
  - apply Nat.ltb_lt. vm_compute. reflexivity.
  - exists s. split; [exact E|]. split.
    + destruct (Ho ([(2, 0)], 1) (default (CFG_INT [] 0 0) (opt_at dist_tree ([(2, 0)], 1))) ltac:(vm_compute; reflexivity)
        ltac:(vm_compute; reflexivity)) as (o0 & o & E0 & E1 & Ev).
      exists o. split; [exact E1|]. rewrite Ev. vm_compute. reflexivity.
    + destruct (Ho ([], 0) (default (CFG_INT [] 0 0) (opt_at dist_tree ([], 0))) ltac:(vm_compute; reflexivity)
        ltac:(vm_compute; reflexivity)) as (o0 & o & E0 & E1 & Ev).
      exists o. split; [exact E1|]. rewrite Ev. vm_compute in E0. injection E0 as <-. vm_compute. reflexivity.
Defined.
