(* ===== verification/Cache.v ===== *)
(** * Result cache (src/cache.cpp, src/cache.h)

    The dispatcher's thread hands an entry to [_cache::sync]; a thread of its
    own, [_cache::run], writes the entries to the database one by one; a
    signal handler stops it through [_cache::on_stop].  The three share the
    queue under [q_m], the condition [q_run], the flag [gotostop] and the
    condition [stopped].  Every access to a shared object is a step of its
    own, so that the steps interleave as the mutexes allow; the database is
    an interface. *)
From S2P Require Import Prelude.
From S2P Require Import CLib.
From S2P Require Import Exceptions.
From S2P Require Import EventLoop.
From S2P Require Import Transport.
From S2P Require Import Protocol.
From S2P Require Import Driver.
From S2P Require Import Resolver.

(** ** Definitions *)

(** *** The database *)

(** How an attempt to connect ends: the constructor and the preparation of
    the query may throw. *)
Inductive connect_result : Type :=
  | Connected
  | NotOpen                (* no exception, but is_open() says no *)
  | ConstructorBroken      (* broken_connection from the constructor *)
  | PreparingBroken        (* broken_connection from prepare_queries *)
  | NoFunction             (* undefined_function from prepare_queries *)
  | ConstructorFailed      (* any other exception of the constructor *)
  | PreparingFailed.       (* any other exception of prepare_queries *)

(** How the write of an entry ends. *)
Inductive update_result : Type :=
  | Written
  | NoStatement            (* the prepared statement does not exist *)
  | SqlError.              (* pqxx_exception *)

Class CacheDb (B : Type) : Type := {
  db_connect : B → B * connect_result;
  db_check : B → B * bool;                 (* an empty transaction commits *)
  db_update : cache_entry → B → B * update_result;
  db_disconnect : B → B
}.

(** The member [c]: null, a connection, or one that was deleted. *)
Inductive conn_ptr : Type := Null | Live | Dangling.

(** [_cache::_connect_db]: the pointer it stores and the value it returns. *)
Definition connect_db {B} `{CacheDb B} : stM exn B (conn_ptr * bool) := fun b =>
  let '(b, r) := db_connect b in
  match r with
  | Connected => (b, Ret (Live, true))
  | NotOpen => (b, Ret (Live, false))
  | ConstructorBroken => (b, Ret (Null, false))
  | PreparingBroken => (b, Ret (Dangling, false))
  | NoFunction => (db_disconnect b, Throw (RuntimeError #"lnp cache exception"))
  | ConstructorFailed => (b, Ret (Null, false))
  | PreparingFailed => (b, Ret (Live, false))
  end.

(** *** The state *)

(** Where [run] is.  [Clearing] holds [q_m]. *)
Inductive run_pc : Type :=
  | Starting
  | Waiting
  | Woken (qrun : bool)
  | Checking (qrun : bool)
  | Taking
  | Clearing (taken : option cache_entry)
  | Updating (e : cache_entry)
  | Returned
  | Terminated             (* an exception left the thread *)
  | Undefined.             (* undefined behaviour *)

(** Where [on_stop] is. *)
Inductive stop_pc : Type := NotStopping | Flagged | Awaiting | Stopped.

Section Cache.
Context {B : Type} `{CacheDb B}.

(** [attempted] are the entries [update_cache] was called with, and whether
    they were written; [synced] all the entries [sync] was given.
    [unsignalled] counts the calls of [sync] between the two locks. *)
Record cache : Type := {
  q : list cache_entry;
  q_run : bool;
  gotostop : bool;
  stopped : bool;
  c : conn_ptr;
  db_err : bool;
  db : B;
  pc : run_pc;
  stop : stop_pc;
  unsignalled : nat;
  synced : list cache_entry;
  attempted : list (cache_entry * bool)
}.

Definition with_pc (p : run_pc) (s : cache) : cache :=
  {| q := q s; q_run := q_run s; gotostop := gotostop s; stopped := stopped s; c := c s;
     db_err := db_err s; db := db s; pc := p; stop := stop s; unsignalled := unsignalled s;
     synced := synced s; attempted := attempted s |}.
Definition with_q (l : list cache_entry) (s : cache) : cache :=
  {| q := l; q_run := q_run s; gotostop := gotostop s; stopped := stopped s; c := c s;
     db_err := db_err s; db := db s; pc := pc s; stop := stop s; unsignalled := unsignalled s;
     synced := synced s; attempted := attempted s |}.
Definition with_q_run (b : bool) (s : cache) : cache :=
  {| q := q s; q_run := b; gotostop := gotostop s; stopped := stopped s; c := c s;
     db_err := db_err s; db := db s; pc := pc s; stop := stop s; unsignalled := unsignalled s;
     synced := synced s; attempted := attempted s |}.
Definition with_stop (g st : bool) (p : stop_pc) (s : cache) : cache :=
  {| q := q s; q_run := q_run s; gotostop := g; stopped := st; c := c s;
     db_err := db_err s; db := db s; pc := pc s; stop := p; unsignalled := unsignalled s;
     synced := synced s; attempted := attempted s |}.
Definition with_db (p : conn_ptr) (e : bool) (b : B) (s : cache) : cache :=
  {| q := q s; q_run := q_run s; gotostop := gotostop s; stopped := stopped s; c := p;
     db_err := e; db := b; pc := pc s; stop := stop s; unsignalled := unsignalled s;
     synced := synced s; attempted := attempted s |}.
Definition with_unsignalled (n : nat) (s : cache) : cache :=
  {| q := q s; q_run := q_run s; gotostop := gotostop s; stopped := stopped s; c := c s;
     db_err := db_err s; db := db s; pc := pc s; stop := stop s; unsignalled := n;
     synced := synced s; attempted := attempted s |}.
Definition with_synced (l : list cache_entry) (s : cache) : cache :=
  {| q := q s; q_run := q_run s; gotostop := gotostop s; stopped := stopped s; c := c s;
     db_err := db_err s; db := db s; pc := pc s; stop := stop s; unsignalled := unsignalled s;
     synced := l; attempted := attempted s |}.
Definition with_attempted (l : list (cache_entry * bool)) (s : cache) : cache :=
  {| q := q s; q_run := q_run s; gotostop := gotostop s; stopped := stopped s; c := c s;
     db_err := db_err s; db := db s; pc := pc s; stop := stop s; unsignalled := unsignalled s;
     synced := synced s; attempted := l |}.

(** [_cache()], with its thread started. *)
Definition new_cache (b : B) : cache :=
  {| q := []; q_run := false; gotostop := false; stopped := false; c := Null; db_err := false;
     db := b; pc := Starting; stop := NotStopping; unsignalled := 0; synced := []; attempted := [] |}.

(** *** [run] *)

(** [connect_db()] before the loop. *)
Definition run_start (s : cache) : cache :=
  match connect_db (db s) with
  | (b, Ret (p, true)) => with_pc Waiting (with_db p (db_err s) b s)
  | (b, Ret (p, false)) => with_pc Terminated (with_db p (db_err s) b s)
  | (b, Throw _) => with_pc Terminated (with_db (c s) (db_err s) b s)
  | (b, Undef) => with_pc Undefined (with_db (c s) (db_err s) b s)
  end.

(** [_connect_db(&c, ...)] in the loop; [err] is [db_err] when it fails. *)
Definition reconnect (err : bool) (b : B) (s : cache) : cache :=
  match connect_db b with
  | (b, Ret (p, ok)) => with_db p (if ok then false else err) b s
  | (b, Throw _) => with_pc Terminated (with_db Dangling err b s)
  | (b, Undef) => with_pc Undefined (with_db Dangling err b s)
  end.

(** The check of the connection. *)
Definition check_connection (s : cache) : cache :=
  match c s with
  | Null => reconnect (db_err s) (db s) s
  | Live =>
      let '(b, ok) := db_check (db s) in
      if (ok : bool) then with_db Live false b s
      else reconnect true b s
  | Dangling => with_pc Undefined s
  end.

Definition run_check (qrun : bool) (s : cache) : cache :=
  let s := if db_err s || negb qrun then check_connection s else s in
  match pc s with
  | Checking _ => with_pc (if db_err s then Waiting else Taking) s
  | _ => s
  end.

(** The queue under [q_m], up to [q_run.set(false)] if it is left empty. *)
Definition run_take (s : cache) : cache :=
  match q s with
  | [] => with_pc (Clearing None) s
  | [e] => with_pc (Clearing (Some e)) (with_q [] s)
  | e :: rest => with_pc (Updating e) (with_q rest s)
  end.

Definition run_clear (taken : option cache_entry) (s : cache) : cache :=
  with_pc (match taken with None => Waiting | Some e => Updating e end) (with_q_run false s).

(** [update_cache] and what the loop does with its value. *)
Definition update_cache (e : cache_entry) (s : cache) : cache :=
  match c s with
  | Live =>
      let '(b, r) := db_update e (db s) in
      match r with
      | Written => with_attempted (attempted s ++ [(e, true)]) (with_db Live (db_err s) b s)
      | NoStatement => with_attempted (attempted s ++ [(e, false)]) (with_db Live true b s)
      | SqlError => with_attempted (attempted s ++ [(e, false)]) (with_db Live true (db_disconnect b) s)
      end
  | _ => with_pc Undefined s
  end.

Definition run_update (e : cache_entry) (s : cache) : cache :=
  let s := update_cache e s in
  match pc s with Updating _ => with_pc Waiting s | _ => s end.

(** One step of the thread; [timeout]: a wait may end without the
    condition. *)
Definition run_step (timeout : bool) (s : cache) : option cache :=
  match pc s with
  | Starting => Some (run_start s)
  | Waiting => if q_run s || timeout then Some (with_pc (Woken (q_run s)) s) else None
  | Woken qrun =>
      Some (if gotostop s then with_pc Returned (with_stop (gotostop s) true (stop s) s)
            else with_pc (Checking qrun) s)
  | Checking qrun => Some (run_check qrun s)
  | Taking => Some (run_take s)
  | Clearing taken => Some (run_clear taken s)
  | Updating e => Some (run_update e s)
  | Returned | Terminated | Undefined => None
  end.

(** *** [sync] *)

(** [q_m] is free. *)
Definition unlocked (s : cache) : bool := match pc s with Clearing _ => false | _ => true end.

Definition sync_push (e : cache_entry) (s : cache) : option cache :=
  if unlocked s
  then Some (with_synced (synced s ++ [e]) (with_unsignalled (S (unsignalled s)) (with_q (q s ++ [e]) s)))
  else None.

Definition sync_signal (s : cache) : option cache :=
  match unsignalled s with
  | O => None
  | S n => Some (with_unsignalled n (with_q_run true s))
  end.

(** *** [on_stop] *)

Definition on_stop_step (s : cache) : option cache :=
  match stop s with
  | NotStopping => Some (with_stop true (stopped s) Flagged s)
  | Flagged => Some (with_stop (gotostop s) (stopped s) Awaiting (with_q_run true s))
  | Awaiting =>
      if stopped s then
        let s := with_stop (gotostop s) (stopped s) Stopped s in
        Some match c s with
             | Null => s
             | Live => with_db Live (db_err s) (db_disconnect (db s)) s
             | Dangling => with_pc Undefined s
             end
      else None
  | Stopped => None
  end.

(** *** The process *)

Inductive step_of : Type :=
  | Run (timeout : bool)
  | Push (e : cache_entry)
  | Signal
  | Stop.

(** After [std::terminate] or undefined behaviour nothing runs. *)
Definition cache_step (a : step_of) (s : cache) : option cache :=
  match pc s with
  | Terminated | Undefined => None
  | _ => match a with
         | Run timeout => run_step timeout s
         | Push e => sync_push e s
         | Signal => sync_signal s
         | Stop => on_stop_step s
         end
  end.

Fixpoint cache_run (l : list step_of) (s : cache) : option cache :=
  match l with
  | [] => Some s
  | a :: r => s ← cache_step a s; cache_run r s
  end.

(** The states of a process whose thread was started. *)
Definition reached (b : B) (s : cache) : Prop := ∃ l, cache_run l (new_cache b) = Some s.

(** The entry the thread holds. *)
Definition held (s : cache) : list cache_entry :=
  match pc s with Clearing (Some e) | Updating e => [e] | _ => [] end.

End Cache.
