(* ===== verification/CacheSpec.v ===== *)
(** * Result cache: invariants

    What holds in every state the dispatcher's thread, the thread of the
    cache and the signal handler reach, however their steps interleave. *)
From S2P Require Import Prelude.
From S2P Require Import CLib.
From S2P Require Import Exceptions.
From S2P Require Import EventLoop.
From S2P Require Import Transport.
From S2P Require Import Protocol.
From S2P Require Import Driver.
From S2P Require Import Resolver.
From S2P Require Import Cache.

(** ** Definitions *)

(** The calls the cache makes of the database, with their outcomes. *)
Inductive db_call : Type :=
  | DbConnect (r : connect_result)
  | DbCheck (ok : bool)
  | DbUpdate (e : cache_entry) (r : update_result)
  | DbDisconnect.

(** The call takes the database from one state to the next. *)
Definition makes {B} `{CacheDb B} (x : db_call) (b b' : B) : Prop :=
  match x with
  | DbConnect r => db_connect b = (b', r)
  | DbCheck ok => db_check b = (b', ok)
  | DbUpdate e r => db_update e b = (b', r)
  | DbDisconnect => b' = db_disconnect b
  end.

(** All the calls that take it from one state to another, in order. *)
Inductive db_calls {B} `{CacheDb B} (b : B) : list db_call → B → Prop :=
  | db_calls_nil : db_calls b [] b
  | db_calls_snoc l x b1 b2 : db_calls b l b1 → makes x b1 b2 → db_calls b (l ++ [x]) b2.

Definition written (r : update_result) : bool := match r with Written => true | _ => false end.

(** The statements among the calls: the entry each writes, and whether the
    database acknowledged it. *)
Definition statements (l : list db_call) : list (cache_entry * bool) :=
  omap (fun x => match x with DbUpdate e r => Some (e, written r) | _ => None end) l.

Section Spec.
Context {B : Type} `{CacheDb B}.

(** What the connection has no part in. *)
Definition same_shared (s s' : @cache B) : Prop :=
  q s' = q s ∧ q_run s' = q_run s ∧ gotostop s' = gotostop s ∧ stopped s' = stopped s ∧
  stop s' = stop s ∧ unsignalled s' = unsignalled s ∧ synced s' = synced s.

(** Nobody sleeps over a queued entry. *)
Record awake (s : @cache B) : Prop := {
  entry_signalled : q s ≠ [] → q_run s = true ∨ 0 < unsignalled s;
  cleared_empty : unlocked s = false → q s = []
}.

(** Every entry is somewhere, in order. *)
Definition in_order (s : @cache B) : Prop :=
  pc s ≠ Undefined → synced s = (attempted s).*1 ++ held s ++ q s.

(** The connection between the steps of [run]. *)
Definition conn_ok (s : @cache B) : Prop :=
  match pc s with
  | Starting => c s = Null ∧ db_err s = false
  | Terminated => True
  | Undefined => False
  | Taking | Clearing _ | Updating _ => c s = Live ∧ db_err s = false
  | _ => c s = Live ∨ c s = Null ∧ db_err s = true
  end.

(** [stopped] is set when [run] returns, and awaited by [on_stop]. *)
Definition stop_ok (s : @cache B) : Prop :=
  match pc s with
  | Returned => stopped s = true
  | Terminated | Undefined => True
  | _ => stopped s = false ∧ stop s ≠ Stopped
  end.

(** The connection is not lost between its construction and the preparation
    of the query. *)
Definition prepares : Prop := ∀ b b', db_connect b ≠ (b', PreparingBroken).
End Spec.

(** ** Lemmas *)

Lemma statements_app l1 l2 : statements (l1 ++ l2) = statements l1 ++ statements l2.
Proof. apply omap_app. Qed.

Section Steps.
Context {B : Type} `{CacheDb B}.

(** An invariant of the steps holds in every state reached. *)
Lemma reached_invariant (I : @cache B → Prop) b s :
  I (new_cache b) → (∀ a s s', I s → cache_step a s = Some s' → I s') → reached b s → I s.
Proof.
  intros H0 Hstep [l Hl]. revert H0 Hl. generalize (new_cache b). induction l as [|a l IH]; intros s0 H0.
  - by intros [= <-].
  - cbn. destruct (cache_step a s0) as [s1|] eqn:E; [|done]. cbn. by apply IH, (Hstep a s0).
Qed.

#[local] Hint Extern 1 (same_shared _ _) => (repeat split; reflexivity) : core.

(** The parts of the state a reconnection leaves alone. *)
Lemma reconnect_keeps err (b : B) s :
  let s' := reconnect err b s in
  same_shared s s' ∧
  attempted s' = attempted s ∧
  (pc s' = pc s ∨ pc s' = Terminated).
Proof.
  unfold reconnect, connect_db. destruct (db_connect b) as [b' []]; cbn; split_and!; auto.
Qed.

Lemma check_connection_keeps (s : @cache B) :
  let s' := check_connection s in
  same_shared s s' ∧
  attempted s' = attempted s ∧
  (pc s' = pc s ∨ pc s' = Terminated ∨ pc s' = Undefined).
Proof.
  unfold check_connection. destruct (c s).
  - destruct (reconnect_keeps (db_err s) (db s) s) as (?&?&[?|?]); cbn; split_and!; auto.
  - destruct (db_check (db s)) as [b []]; [cbn; split_and!; auto|].
    destruct (reconnect_keeps true b s) as (?&?&[?|?]); cbn; split_and!; auto.
  - cbn; split_and!; auto.
Qed.

Lemma run_check_keeps qrun (s : @cache B) : pc s = Checking qrun →
  let s' := run_check qrun s in
  same_shared s s' ∧
  attempted s' = attempted s ∧
  (pc s' = Waiting ∨ pc s' = Taking ∨ pc s' = Terminated ∨ pc s' = Undefined).
Proof.
  intros Hp. unfold run_check. destruct (db_err s || negb qrun).
  - destruct (check_connection_keeps s) as (?&?&[Hp'|[Hp'|Hp']]).
    + rewrite Hp', Hp. cbn. destruct (db_err _); cbn; split_and!; auto.
    + rewrite Hp'. cbn; split_and!; auto.
    + rewrite Hp'. cbn; split_and!; auto.
  - rewrite Hp. cbn. destruct (db_err s); cbn; split_and!; auto.
Qed.

Lemma run_start_keeps (s : @cache B) :
  let s' := run_start s in
  same_shared s s' ∧
  attempted s' = attempted s ∧
  (pc s' = Waiting ∨ pc s' = Terminated ∨ pc s' = Undefined).
Proof.
  unfold run_start, connect_db. destruct (db_connect (db s)) as [b []]; cbn; split_and!; auto.
Qed.

Lemma run_update_keeps e (s : @cache B) : pc s = Updating e →
  let s' := run_update e s in
  same_shared s s' ∧
  ((pc s' = Waiting ∧ ∃ ok, attempted s' = attempted s ++ [(e, ok)]) ∨
   (c s ≠ Live ∧ pc s' = Undefined ∧ attempted s' = attempted s)).
Proof.
  intros Hp. unfold run_update, update_cache. destruct (c s); cbn.
  - cbn; split_and!; auto.
  - destruct (db_update e (db s)) as [b []]; cbn; rewrite Hp; cbn; split_and!; eauto.
  - cbn; split_and!; auto.
Qed.

(** A step of the thread that talks to the database. *)
Definition db_action (s : @cache B) : @cache B :=
  match pc s with
  | Starting => run_start s
  | Checking r => run_check r s
  | Updating e => run_update e s
  | _ => s
  end.

Definition db_step (s s' : @cache B) : Prop :=
  s' = db_action s ∧ same_shared s s' ∧
  match pc s with
  | Starting => attempted s' = attempted s ∧ pc s' ∈ [Waiting; Terminated; Undefined]
  | Checking _ => attempted s' = attempted s ∧ pc s' ∈ [Waiting; Taking; Terminated; Undefined]
  | Updating e => pc s' = Waiting ∧ (∃ ok, attempted s' = attempted s ++ [(e, ok)]) ∨
                  pc s' = Undefined ∧ attempted s' = attempted s
  | _ => False
  end.

(** Every step is one of a few: of the database, or of the shared state. *)
Lemma cache_step_cases a (s s' : @cache B) :
  cache_step a s = Some s' →
  db_step s s' ∨
  (∃ t, pc s = Waiting ∧ s' = with_pc (Woken (q_run s)) s ∧ (q_run s = true ∨ t = true)) ∨
  (∃ r, pc s = Woken r ∧ gotostop s = true ∧ s' = with_pc Returned (with_stop true true (stop s) s)) ∨
  (∃ r, pc s = Woken r ∧ gotostop s = false ∧ s' = with_pc (Checking r) s) ∨
  (pc s = Taking ∧ s' = run_take s) ∨
  (∃ o, pc s = Clearing o ∧ s' = run_clear o s) ∨
  (∃ e, unlocked s = true ∧ pc s ≠ Terminated ∧ pc s ≠ Undefined ∧
     s' = with_synced (synced s ++ [e]) (with_unsignalled (S (unsignalled s)) (with_q (q s ++ [e]) s))) ∨
  (∃ n, unsignalled s = S n ∧ s' = with_unsignalled n (with_q_run true s)) ∨
  (pc s ≠ Terminated ∧ pc s ≠ Undefined ∧ on_stop_step s = Some s').
Proof.
  intros Hs. unfold cache_step in Hs.
  assert (pc s ≠ Terminated ∧ pc s ≠ Undefined) as [Ht Hu] by (by destruct (pc s)).
  assert (Hs' : match a with Run t => run_step t s | Push e => sync_push e s
                | Signal => sync_signal s | Stop => on_stop_step s end = Some s')
    by (by destruct (pc s)). clear Hs.
  destruct a as [t|e| |].
  - unfold run_step in Hs'. destruct (pc s) eqn:E; try done.
    + injection Hs' as <-. left. destruct (run_start_keeps s) as (?&?&Hp).
      split; [unfold db_action; by rewrite E|]. split; [done|]. rewrite E. split; [done|]. set_solver.
    + destruct (q_run s || t) eqn:Ew; [|done]. injection Hs' as <-. right; left. exists t.
      apply orb_true_iff in Ew. done.
    + destruct (gotostop s) eqn:Eg; injection Hs' as <-; right; right; [left|right; left]; by exists qrun.
    + injection Hs' as <-. left. destruct (run_check_keeps qrun s E) as (?&?&Hp).
      split; [unfold db_action; by rewrite E|]. split; [done|]. rewrite E. split; [done|]. set_solver.
    + injection Hs' as <-. do 4 right. by left.
    + injection Hs' as <-. do 5 right. left. by exists taken.
    + injection Hs' as <-. left. destruct (run_update_keeps e s E) as (?&[[? ?]|(?&?&?)]);
        (split; [unfold db_action; by rewrite E|]; split; [done|]; rewrite E; auto).
  - unfold sync_push in Hs'. destruct (unlocked s) eqn:E; [|done]. injection Hs' as <-.
    do 6 right. left. exists e. done.
  - unfold sync_signal in Hs'. destruct (unsignalled s) as [|n]; [done|]. injection Hs' as <-.
    do 7 right. left. by exists n.
  - by do 8 right.
Qed.

(** A stopping step does not move the thread, unless it is undefined. *)
Lemma on_stop_step_cases (s s' : @cache B) :
  on_stop_step s = Some s' →
  q s' = q s ∧ unsignalled s' = unsignalled s ∧ synced s' = synced s ∧ attempted s' = attempted s ∧
  stopped s' = stopped s ∧ (q_run s = true → q_run s' = true) ∧ db_err s' = db_err s ∧ c s' = c s ∧
  (pc s' = pc s ∨ pc s' = Undefined ∧ c s = Dangling) ∧
  (stop s' = Stopped → stopped s = true).
Proof.
  unfold on_stop_step. destruct (stop s) eqn:E; try done.
  - intros [= <-]. cbn. repeat split; auto. done.
  - intros [= <-]. cbn. repeat split; auto. done.
  - destruct (stopped s) eqn:Es; [|done]. intros [= <-]. destruct (c s) eqn:Ec; cbn; repeat split; auto.
Qed.

Lemma step_awake a (s s' : @cache B) : awake s → cache_step a s = Some s' → awake s'.
Proof.
  intros [Hw Hc] Hs. apply cache_step_cases in Hs as [Hd|[(t & Hp & -> & _)|[(r & Hp & _ & ->)|
    [(r & Hp & _ & ->)|[(Hp & ->)|[(o & Hp & ->)|[(e & Hu & _ & _ & ->)|[(n & Hn & ->)|(Hpt & Hpu & Hs)]]]]]]]].
  - destruct Hd as (_ & (Hq & Hr & _ & _ & _ & Hu & _) & Hd). split; rewrite ?Hq, ?Hr, ?Hu; [done|].
    unfold unlocked. intros Hl. exfalso.
    destruct (pc s); try done; destruct (pc s'); try done; set_solver.
  - split; [exact Hw|done].
  - split; [exact Hw|done].
  - split; [exact Hw|done].
  - unfold run_take. destruct (q s) as [|e [|e' l]] eqn:E; split; cbn; rewrite ?E; try done; auto.
  - unfold unlocked in Hc. rewrite Hp in Hc. unfold run_clear. split; cbn; rewrite Hc; try done.
  - split; cbn; [right; lia|]. intros Hl. unfold unlocked in *. cbn in Hl. congruence.
  - split; cbn; [by left|exact Hc].
  - apply on_stop_step_cases in Hs as (Hq & Hu & _ & _ & _ & Hr & _ & _ & Hp & _).
    split; rewrite ?Hq, ?Hu; [intros Hne; destruct (Hw Hne); auto|].
    unfold unlocked in *. destruct Hp as [->|[-> _]]; done.
Qed.

Lemma step_in_order a (s s' : @cache B) : in_order s → cache_step a s = Some s' → in_order s'.
Proof.
  unfold in_order. intros Ho Hs Hdef. apply cache_step_cases in Hs as [Hd|[(t & Hp & -> & _)|[(r & Hp & _ & ->)|
    [(r & Hp & _ & ->)|[(Hp & ->)|[(o & Hp & ->)|[(e & Hu & _ & Hpd & ->)|[(n & Hn & ->)|(Hpt & Hpu & Hs)]]]]]]]];
    unfold held in *.
  - destruct Hd as (_ & (Hq & _ & _ & _ & _ & _ & Hsy) & Hd). rewrite Hq, Hsy.
    destruct (pc s) eqn:E; try done; specialize (Ho ltac:(done)); rewrite Ho.
    1,2: destruct Hd as [-> Hp]; destruct (pc s'); try done; set_solver.
    destruct Hd as [[-> [ok ->]]|[? _]]; [|done]. by rewrite fmap_app, <- app_assoc.
  - rewrite Hp in Ho. by apply Ho.
  - rewrite Hp in Ho. by apply Ho.
  - rewrite Hp in Ho. by apply Ho.
  - rewrite Hp in Ho. specialize (Ho ltac:(done)). unfold run_take.
    destruct (q s) as [|e [|e' l]] eqn:E; cbn; rewrite ?E; done.
  - rewrite Hp in Ho. specialize (Ho ltac:(done)). cbn. by destruct o.
  - specialize (Ho Hpd). cbn. by rewrite Ho, !app_assoc.
  - by apply Ho.
  - apply on_stop_step_cases in Hs as (Hq & _ & Hsy & Ha & _ & _ & _ & _ & [Hp|[? _]] & _); [|done].
    rewrite Hq, Hsy, Ha. rewrite Hp in *. by apply Ho.
Qed.

(** *** The connection *)

Lemma connect_db_prepared (b : B) : prepares (B:=B) →
  ∃ b' p ok, connect_db b = (b', Throw (RuntimeError #"lnp cache exception")) ∨
    connect_db b = (b', Ret (p, ok)) ∧ p ≠ Dangling ∧ (ok = true → p = Live).
Proof.
  intros Hp. unfold connect_db. destruct (db_connect b) as [b' []] eqn:E; [| | |by apply Hp in E| | |];
    eexists _, _, _; first [by left|by right].
  Unshelve. all: first [exact Null|exact false].
Qed.

Lemma reconnect_conn err (b : B) s : prepares (B:=B) →
  pc (reconnect err b s) = Terminated ∨
  pc (reconnect err b s) = pc s ∧
  (c (reconnect err b s) = Live ∧ (db_err (reconnect err b s) = false ∨ db_err (reconnect err b s) = err) ∨
   c (reconnect err b s) = Null ∧ db_err (reconnect err b s) = err).
Proof.
  intros Hp. unfold reconnect. destruct (connect_db_prepared b Hp) as (b' & p & ok & [->|(-> & Hd & Hl)]); cbn.
  - by left.
  - right. split; [done|]. destruct ok; [rewrite Hl by done; auto|]. destruct p; auto. done.
Qed.

Lemma db_action_conn (s : @cache B) : prepares (B:=B) → conn_ok s → conn_ok (db_action s).
Proof.
  intros Hp Hc. unfold conn_ok, db_action in *. destruct (pc s) eqn:E; rewrite ?E; try done.
  - destruct Hc as [Hn He]. unfold run_start.
    destruct (connect_db_prepared (db s) Hp) as (b' & p & ok & [->|(-> & Hd & Hl)]); cbn; [done|].
    destruct ok; cbn; [|done]. left. by apply Hl.
  - assert (Hck : pc (check_connection s) = Terminated ∨
      pc (check_connection s) = Checking qrun ∧
      (c (check_connection s) = Live ∨ c (check_connection s) = Null ∧ db_err (check_connection s) = true)).
    { unfold check_connection. destruct Hc as [Hl|[Hn He]].
      - rewrite Hl. destruct (db_check (db s)) as [b []]; [by auto|].
        destruct (reconnect_conn true b s Hp) as [?|(Hpc & Hor)]; [auto|]. rewrite Hpc, E. tauto.
      - rewrite Hn. destruct (reconnect_conn (db_err s) (db s) s Hp) as [?|(Hpc & Hor)]; [auto|].
        rewrite Hpc, E. rewrite He in *. tauto. }
    unfold run_check. destruct (db_err s || negb qrun) eqn:Eo.
    + destruct Hck as [Ht|[Hc' Hl]]; [rewrite Ht; cbn; by rewrite Ht|]. rewrite Hc'. cbn.
      destruct (db_err (check_connection s)) eqn:Ed; cbn; [tauto|]. destruct Hl as [Hl|[_ Hl]]; [done|congruence].
    + apply orb_false_iff in Eo as [Eo _]. rewrite E, Eo. cbn. destruct Hc as [Hl|[_ ?]]; [done|congruence].
  - destruct Hc as [Hl He]. unfold run_update, update_cache. rewrite Hl.
    destruct (db_update e (db s)) as [b []]; cbn; rewrite E; cbn; auto.
Qed.

Lemma step_conn a (s s' : @cache B) :
  prepares (B:=B) → conn_ok s → stop_ok s → cache_step a s = Some s' → conn_ok s' ∧ stop_ok s'.
Proof.
  intros Hprep Hc Hs Ha.
  apply cache_step_cases in Ha as [Hd|[(t & Hp & -> & _)|[(r & Hp & Hg & ->)|
    [(r & Hp & _ & ->)|[(Hp & ->)|[(o & Hp & ->)|[(e & Hu & _ & Hpd & ->)|[(n & Hn & ->)|(Hpt & Hpu & Ha)]]]]]]]].
  - split; [destruct Hd as [-> _]; by apply db_action_conn|].
    destruct Hd as (_ & (_ & _ & _ & Hst & Hsp & _) & Hd). unfold stop_ok in *. rewrite Hst, Hsp.
    destruct (pc s); try done; destruct (pc s'); try done; set_solver.
  - unfold conn_ok, stop_ok in *. rewrite Hp in *. done.
  - unfold conn_ok, stop_ok in *. rewrite Hp in *. done.
  - unfold conn_ok, stop_ok in *. rewrite Hp in *. done.
  - unfold conn_ok, stop_ok, run_take in *. rewrite Hp in *. by destruct (q s) as [|e [|e' l]].
  - unfold conn_ok, stop_ok, run_clear in *. rewrite Hp in *. cbn. destruct o; [done|]. tauto.
  - by split.
  - by split.
  - apply on_stop_step_cases in Ha as (_ & _ & _ & _ & Hst & _ & He & Hcc & Hp & Hf).
    unfold conn_ok, stop_ok in *.
    destruct Hp as [Hp|[Hp Hd]]; rewrite Hp; [|exfalso].
    + rewrite He, Hcc. split; [done|]. rewrite Hst. destruct (pc s); try done; destruct Hs as [Hs ?];
        (split; [done|]); intros Heq%Hf; congruence.
    + destruct (pc s); intuition congruence.
Qed.

(** *** The statements *)

(** Calls that write nothing. *)
Definition idle_calls (b b' : B) : Prop := ∃ l, db_calls b l b' ∧ statements l = [].

Lemma idle_refl (b : B) : idle_calls b b.
Proof. exists []. by split; [constructor|]. Qed.

Lemma idle_snoc x (b b1 b2 : B) :
  idle_calls b b1 → makes x b1 b2 → statements [x] = [] → idle_calls b b2.
Proof.
  intros (l & Hl & Hs) Hm Hx. exists (l ++ [x]). split; [by econstructor|]. by rewrite statements_app, Hs, Hx.
Qed.

(** The database made exactly the statements attempted. *)
Definition statements_ok (b : B) (s : @cache B) : Prop :=
  ∃ l, db_calls b l (db s) ∧ statements l = attempted s.

Lemma db_calls_app (b b1 b2 : B) l1 l2 : db_calls b l1 b1 → db_calls b1 l2 b2 → db_calls b (l1 ++ l2) b2.
Proof.
  intros H1. induction 1 as [|l x b3 b4 _ IH Hm]; [by rewrite app_nil_r|]. rewrite app_assoc. by econstructor.
Qed.

Lemma statements_idle b (s s' : @cache B) :
  statements_ok b s → attempted s' = attempted s → idle_calls (db s) (db s') → statements_ok b s'.
Proof.
  intros (l & Hl & Hs) Ha (l' & Hl' & Hs'). exists (l ++ l'). split; [by eapply db_calls_app|].
  by rewrite statements_app, Hs, Hs', app_nil_r.
Qed.

Lemma idle_connect_db (b : B) : idle_calls b (fst (connect_db b)).
Proof.
  unfold connect_db. destruct (db_connect b) as [b' r] eqn:E.
  assert (Hc : idle_calls b b') by (apply (idle_snoc (DbConnect r) b b); [apply idle_refl|exact E|done]).
  destruct r; cbn; try exact Hc. by apply (idle_snoc DbDisconnect b b').
Qed.

Lemma idle_trans (b b1 b2 : B) : idle_calls b b1 → idle_calls b1 b2 → idle_calls b b2.
Proof.
  intros (l & Hl & Hs) (l' & Hl' & Hs'). exists (l ++ l').
  split; [by eapply db_calls_app|]. by rewrite statements_app, Hs, Hs'.
Qed.

Lemma idle_reconnect err (b : B) s : idle_calls b (db (reconnect err b s)).
Proof.
  unfold reconnect. pose proof (idle_connect_db b) as Hr. by destruct (connect_db b) as [b' [[p ok]|e|]].
Qed.

Lemma idle_check_connection (s : @cache B) : idle_calls (db s) (db (check_connection s)).
Proof.
  unfold check_connection. destruct (c s); [apply idle_reconnect| |apply idle_refl].
  destruct (db_check (db s)) as [b ok] eqn:E.
  assert (Hc : idle_calls (db s) b) by (apply (idle_snoc (DbCheck ok) _ (db s)); [apply idle_refl|exact E|done]).
  destruct ok; [exact Hc|]. eapply idle_trans; [exact Hc|apply idle_reconnect].
Qed.

Lemma idle_run_start (s : @cache B) : idle_calls (db s) (db (run_start s)).
Proof.
  unfold run_start. pose proof (idle_connect_db (db s)) as Hr.
  by destruct (connect_db (db s)) as [b' [[p []]|e|]].
Qed.

Lemma idle_run_check qrun (s : @cache B) : idle_calls (db s) (db (run_check qrun s)).
Proof.
  unfold run_check. pose proof (idle_check_connection s) as Hc. destruct (db_err s || negb qrun).
  - by destruct (pc (check_connection s)).
  - destruct (pc s); apply idle_refl.
Qed.

Lemma statements_run_update b e (s : @cache B) : statements_ok b s → statements_ok b (run_update e s).
Proof.
  intros (l & Hl & Hs). unfold run_update, update_cache. destruct (c s); [by exists l| |by exists l].
  destruct (db_update e (db s)) as [b' r] eqn:E.
  assert (Hu : db_calls b (l ++ [DbUpdate e r]) b') by by econstructor.
  assert (Hst : statements (l ++ [DbUpdate e r]) = attempted s ++ [(e, written r)]) by by rewrite statements_app, Hs.
  destruct r; cbn; destruct (pc s); first
    [ by exists (l ++ [DbUpdate e Written]) | by exists (l ++ [DbUpdate e NoStatement])
    | exists ((l ++ [DbUpdate e SqlError]) ++ [DbDisconnect]);
      split; [by econstructor|by rewrite statements_app, app_nil_r] ].
Qed.

Lemma step_statements b a (s s' : @cache B) :
  statements_ok b s → cache_step a s = Some s' → statements_ok b s'.
Proof.
  intros Hr Ha.
  apply cache_step_cases in Ha as [Hd|[(t & Hp & -> & _)|[(r & Hp & Hg & ->)|
    [(r & Hp & _ & ->)|[(Hp & ->)|[(o & Hp & ->)|[(e & Hu & _ & Hpd & ->)|[(n & Hn & ->)|(_ & _ & Ha)]]]]]]]];
    try exact Hr.
  - destruct Hd as (-> & _ & Hd). unfold db_action in *. destruct (pc s); try done.
    + destruct Hd as [Hat _]. by eapply statements_idle; [exact Hr|exact Hat|apply idle_run_start].
    + destruct Hd as [Hat _]. by eapply statements_idle; [exact Hr|exact Hat|apply idle_run_check].
    + by apply statements_run_update.
  - unfold run_take. by destruct (q s) as [|e [|e' l]].
  - unfold on_stop_step in Ha. destruct (stop s); try done; try (by injection Ha as <-).
    destruct (stopped s); [|done]. injection Ha as <-.
    destruct (c s); cbn; [exact Hr| |exact Hr]. eapply statements_idle; [exact Hr|done|].
    by apply (idle_snoc DbDisconnect _ (db s)); [apply idle_refl|..].
Qed.

(** The cache is a queue: in every interleaving without undefined
    behaviour the entries given to [sync] are, in their order, those
    [update_cache] was called with, the one the thread holds and those
    queued; and the database executed exactly one statement for each of the
    first, in that order, with the outcome noted. *)
Lemma cache_in_order (b : B) (s : @cache B) :
  reached b s → pc s ≠ Undefined →
  synced s = (attempted s).*1 ++ held s ++ q s ∧
  ∃ calls, db_calls b calls (db s) ∧ statements calls = attempted s.
Proof.
  intros Hr Hp. split.
  - revert Hp. apply (reached_invariant in_order b); [done|exact step_in_order|done].
  - apply (reached_invariant (statements_ok b) b); [|apply step_statements|done].
    exists []. split; [constructor|done].
Qed.

(** *** What was given to [sync] *)

(** The entries a run of steps gives to [sync], in order. *)
Definition pushes (l : list step_of) : list cache_entry :=
  omap (fun a => match a with Push e => Some e | _ => None end) l.

Lemma step_synced a (s s' : @cache B) : cache_step a s = Some s' → synced s' = synced s ++ pushes [a].
Proof.
  intros Hs. unfold cache_step in Hs.
  assert (Hs' : match a with Run t => run_step t s | Push e => sync_push e s
                | Signal => sync_signal s | Stop => on_stop_step s end = Some s')
    by (by destruct (pc s)). clear Hs.
  destruct a as [t|e| |]; cbn [pushes omap list_omap]; rewrite ?app_nil_r.
  - unfold run_step in Hs'. destruct (pc s) eqn:E; try done.
    + injection Hs' as <-. apply (run_start_keeps s).
    + destruct (q_run s || t); [|done]. by injection Hs' as <-.
    + destruct (gotostop s); by injection Hs' as <-.
    + injection Hs' as <-. apply (run_check_keeps qrun s E).
    + injection Hs' as <-. unfold run_take. by destruct (q s) as [|e [|e' l]].
    + injection Hs' as <-. by destruct taken.
    + injection Hs' as <-. apply (run_update_keeps e s E).
  - unfold sync_push in Hs'. destruct (unlocked s); [|done]. by injection Hs' as <-.
  - unfold sync_signal in Hs'. destruct (unsignalled s); [done|]. by injection Hs' as <-.
  - by apply on_stop_step_cases in Hs' as (_ & _ & ? & _).
Qed.

Lemma run_synced l : ∀ s s' : @cache B, cache_run l s = Some s' → synced s' = synced s ++ pushes l.
Proof.
  induction l as [|a l IH]; intros s s'; cbn [cache_run].
  - intros [= <-]. by rewrite app_nil_r.
  - destruct (cache_step a s) as [s1|] eqn:E; [|done]. intros Hr. rewrite (IH s1 s' Hr), (step_synced a s s1 E), <- app_assoc.
    f_equal. unfold pushes. by rewrite <- omap_app.
Qed.

(** ** Properties *)

(** C12. No entry is slept over: in every interleaving of the dispatcher, the
    thread of the cache and the signal handler, while an entry is queued the
    condition is set or the caller of [sync] is about to set it.  And a thread
    that waits with an entry queued whose signal was given takes the first
    entry and has the database execute its statement, once, in at most six
    steps of its own and without a timeout, whatever the outcome of the
    statement, provided that no stop was asked for (else the entry is dropped,
    see [stop_drops_entries]), that the connection is there and that the last
    statement did not fail. *)
Theorem cache_no_lost_wakeup (b : B) (s : @cache B) :
  reached b s →
  (q s ≠ [] → q_run s = true ∨ 0 < unsignalled s) ∧
  ∀ e rest b' r, q s = e :: rest → unsignalled s = 0 → pc s = Waiting → gotostop s = false →
    c s = Live → db_err s = false → db_update e (db s) = (b', r) →
    ∃ n s', n ≤ 6 ∧ cache_run (replicate n (Run false)) s = Some s' ∧ pc s' = Waiting ∧
      q s' = rest ∧ attempted s' = attempted s ++ [(e, written r)].
Proof.
  intros Hr. assert (Ha : awake s).
  { apply (reached_invariant awake b); [|exact step_awake|done]. by split. }
  split; [apply Ha|]. intros e rest b' r Hq Hu Hp Hg Hc He Hd.
  destruct (entry_signalled _ Ha) as [Hw|?]; [by rewrite Hq| |lia].
  destruct s; cbn in *; subst. destruct rest as [|e' rest]; [exists 6|exists 5];
    cbn; unfold run_update, update_cache; cbn; rewrite Hd; destruct r; cbn; eexists;
    (split; [lia|split_and!; reflexivity]).
Qed.

(** C14. Stopping is safe: when no connection is lost between its
    construction and the preparation of its query, no interleaving has
    undefined behaviour (the connection is never used when it is null or was
    deleted), and [on_stop] takes the connection only after [run] has
    returned. *)
Theorem cache_stop_safe (b : B) (s : @cache B) :
  prepares (B:=B) → reached b s →
  pc s ≠ Undefined ∧ (stop s = Stopped → pc s = Returned ∨ pc s = Terminated) ∧
  (∀ e, pc s = Updating e → c s = Live).
Proof.
  intros Hp Hr. assert (Hi : conn_ok s ∧ stop_ok s).
  { apply (reached_invariant (fun s => conn_ok s ∧ stop_ok s) b); [done| |done].
    intros a s1 s2 [Hc Hs] Ha. by apply (step_conn a s1). }
  destruct Hi as [Hc Hs]. unfold conn_ok, stop_ok in *.
  destruct (pc s); repeat split; try done; try tauto; intros ? [= ]; tauto.
Qed.
End Steps.

(** ** A small database *)

(** It answers the attempts to connect as told, and takes every entry. *)
Record ToyDb : Type := { answers : list connect_result; table : list cache_entry }.

#[export] Instance toy_db : CacheDb ToyDb := {
  db_connect := fun b => match answers b with
                         | [] => (b, Connected)
                         | r :: l => ({| answers := l; table := table b |}, r)
                         end;
  db_check := fun b => (b, bool_decide (answers b = []));
  db_update := fun e b => ({| answers := answers b; table := table b ++ [e] |}, Written);
  db_disconnect := fun b => b
}.

Definition entry (i : Z) : cache_entry :=
  {| database_id := i; dst := #"730"; lrn := #"901"; ce_data := []; tag := [] |}.

Definition good_db : ToyDb := {| answers := []; table := [] |}.

(** A database that never loses a connection. *)
Record SteadyDb : Type := { steady_table : list cache_entry }.

#[export] Instance steady_db : CacheDb SteadyDb := {
  db_connect := fun b => (b, Connected);
  db_check := fun b => (b, true);
  db_update := fun e b => ({| steady_table := steady_table b ++ [e] |}, Written);
  db_disconnect := fun b => b
}.

Lemma steady_prepares : prepares (B:=SteadyDb).
Proof. by intros b b' [= ]. Qed.

(** ** Witnesses *)

(** The state after a run. *)
Definition after {B} `{CacheDb B} (l : list step_of) (b : B) : cache :=
  default (new_cache b) (cache_run l (new_cache b)).

(** The connection is made, two entries are queued and signalled. *)
Definition two_queued : list step_of := [Run false; Push (entry 1); Push (entry 2); Signal; Signal].

Lemma cache_no_lost_wakeup_witness : let s := after two_queued good_db in
  q s = [entry 1; entry 2] ∧
  ∃ n s', n ≤ 6 ∧ cache_run (replicate n (Run false)) s = Some s' ∧ pc s' = Waiting ∧
    q s' = [entry 2] ∧ attempted s' = attempted s ++ [(entry 1, true)].
Proof.
  intros s. split; [reflexivity|].
  assert (Hr : reached good_db s) by (exists two_queued; vm_compute; reflexivity).
  apply (proj2 (cache_no_lost_wakeup good_db s Hr) (entry 1) [entry 2]
           {| answers := []; table := [entry 1] |} Written); vm_compute; reflexivity.
Defined.

(** A third entry comes while the first is written; the thread holds the
    second at the end. *)
Definition three_entries : list step_of :=
  two_queued ++ [Run false; Run false; Run false; Run false; Push (entry 3); Run false;
                 Signal; Run false; Run false; Run false; Run false].

Lemma cache_in_order_witness : let s := after three_entries good_db in
  pc s = Updating (entry 2) ∧ attempted s = [(entry 1, true)] ∧ q s = [entry 3] ∧
  synced s = (attempted s).*1 ++ held s ++ q s ∧
  ∃ calls, db_calls good_db calls (db s) ∧ statements calls = attempted s.
Proof.
  intros s. split; [vm_compute; reflexivity|]. split; [vm_compute; reflexivity|]. split; [vm_compute; reflexivity|].
  apply (cache_in_order good_db s); [exists three_entries; vm_compute; reflexivity|vm_compute; discriminate].
Defined.

(** A stop while the thread waits. *)
Definition stopped_run : list step_of := [Run false; Stop; Stop; Run false; Run false; Stop].

Lemma cache_stop_safe_witness : let s := after stopped_run {| steady_table := [] |} in
  stop s = Stopped ∧ pc s ≠ Undefined ∧ (stop s = Stopped → pc s = Returned ∨ pc s = Terminated) ∧
  (∀ e, pc s = Updating e → c s = Live).
Proof.
  intros s. split; [vm_compute; reflexivity|].
  apply (cache_stop_safe {| steady_table := [] |} s); [exact steady_prepares|].
  exists stopped_run. vm_compute. reflexivity.
Defined.

(** *** Where the promises end *)

(** A stop signal that comes while the thread clears the condition is lost:
    the thread waits with [gotostop] set until its wait times out. *)
Lemma stop_signal_lost : ∃ l s, cache_run l (new_cache good_db) = Some s ∧
  gotostop s = true ∧ stop s = Awaiting ∧ pc s = Waiting ∧ q_run s = false ∧
  cache_step (Run false) s = None ∧ cache_step Stop s = None.
Proof.
  exists [Run false; Run true; Run false; Run false; Run false; Stop; Stop; Run false].
  eexists. split; [vm_compute; reflexivity|]. by split_and!.
Qed.

(** A connection lost while its query is prepared is deleted but stored: the
    next check uses it. *)
Lemma broken_connection_reused : ∃ l s,
  cache_run l (new_cache {| answers := [Connected; PreparingBroken]; table := [] |}) = Some s ∧
  pc s = Undefined.
Proof.
  exists [Run false; Run true; Run false; Run false; Run true; Run false; Run false].
  eexists. by split; [vm_compute; reflexivity|].
Qed.

(** Entries queued when the thread is told to stop are never written. *)
Lemma stop_drops_entries : ∃ l s, cache_run l (new_cache good_db) = Some s ∧
  stop s = Stopped ∧ pc s = Returned ∧ q s = [entry 1] ∧ attempted s = [].
Proof.
  exists [Run false; Push (entry 1); Stop; Stop; Run false; Run false; Stop].
  eexists. split; [vm_compute; reflexivity|]. by split_and!.
Qed.

(** An entry whose write fails is gone: the thread deletes it. *)
Lemma failed_write_drops_entry {B} `{CacheDb B} e (s : @cache B) b :
  c s = Live → pc s = Updating e → db_update e (db s) = (b, SqlError) →
  let s' := run_update e s in q s' = q s ∧ held s' = [] ∧ db_err s' = true.
Proof.
  intros Hc Hp Hd. unfold run_update, update_cache. rewrite Hc, Hd. cbn. rewrite Hp. done.
Qed.
