(* ===== verification/Outputs.v ===== *)
(** * What the program puts out: counters and the statements of the cache

    The resolver with the exporter of Metrics.v and the cache of Cache.v, which
    take what its trace holds for them: the counters that are scraped and the
    statements the database executes, related to the requests that came in.
    What a statement does to the tables is the business of the database. *)
From S2P Require Import Prelude.
From S2P Require Import CLib.
From S2P Require Import Exceptions.
From S2P Require Import EventLoop.
From S2P Require Import Transport.
From S2P Require Import Protocol.
From S2P Require Import Driver.
From S2P Require Import Resolver.
From S2P Require Import ResolverExec.
From S2P Require Import ResolverSpec.
From S2P Require Import ResolverMetrics.
From S2P Require Import Config.
From S2P Require Import Metrics.
From S2P Require Import Cache.
From S2P Require Import CacheSpec.

(** ** Definitions *)

(** The calls of the exporter and of [sync] in a trace. *)
Definition metric_calls (l : list effect) : list metric_call :=
  omap (fun e => match e with Metric m => Some m | _ => None end) l.
Definition cache_entries (l : list effect) : list cache_entry :=
  omap (fun e => match e with CacheSync c => Some c | _ => None end) l.

(** ** Lemmas: counters *)

Lemma metric_calls_app l1 l2 : metric_calls (l1 ++ l2) = metric_calls l1 ++ metric_calls l2.
Proof. apply omap_app. Qed.

(** A series that was made exists. *)
Lemma series_is_made name t u l : name ∈ families → init_metrics t u ∈ l → is_Some (series name t u l).
Proof.
  intros Hn Hi. apply list_elem_of_split in Hi as (l1 & l2 & ->). unfold series. rewrite omap_app. cbn.
  rewrite bool_decide_true by done. destruct (omap _ l1); by eexists.
Qed.

(** The number of effects that [p] picks is what a family of ones adds up
    to, when the calls it picks are of the type [t]. *)
Lemma series_counts name t u (p : effect → bool) l :
  (∀ e, e ∈ l → match e with
                | Metric m => (if p e then added name t u m = Some 1%Z else default 0%Z (added name t u m) = 0%Z)
                | _ => p e = false
                end) →
  default 0%Z (series name t u (metric_calls l)) = Z.of_nat (count p l).
Proof.
  induction l as [|e l IH] using rev_ind; intros Hp; [done|].
  assert (IH' : default 0%Z (series name t u (metric_calls l)) = Z.of_nat (count p l)) by (apply IH; set_solver).
  specialize (Hp e ltac:(set_solver)). rewrite metric_calls_app, count_app.
  assert (He : count p [e] = if p e then 1 else 0) by (unfold count; cbn; by destruct (p e)).
  rewrite He. destruct e as [m|d|c]; cbn [metric_calls omap list_omap]; [|rewrite Hp, app_nil_r; lia..].
  rewrite series_snoc. destruct (p (Metric m)).
  - rewrite Hp. cbn. lia.
  - destruct (added name t u m); cbn in *; lia.
Qed.

Section Outputs.
Context {D H Row C : Type}.
Context `{!CDriver D, !CDriverLaws D, !HttpClient H, !HttpClientLaws H, !DriverFactory D Row C}.
Abbreviation St := (@Resolver D H C).

(** The three families of a driver in use count its calls in the trace. *)
Lemma series_of_driver (m : gmap Z D) u d l :
  m !! u = Some d → Forall (named m) l →
  let value name := default 0%Z (series name (getName d) u (metric_calls l)) in
  value COUNT = Z.of_nat (count (counts u) l) ∧ value FAILED = Z.of_nat (count (fails u) l) ∧
  value FINISHED = Z.of_nat (count (finishes u) l).
Proof.
  intros Hd Hn value.
  assert (Hi : ∀ t (i : Z), (∃ d', m !! i = Some d' ∧ t = getName d') → i = u → t = getName d)
    by (intros t i (d' & Hd' & ->) ->; congruence).
  split_and!; apply series_counts; intros e He; pose proof (proj1 (Forall_forall _ _) Hn e He) as Hne;
    destruct e as [[t i|t i|t i|t i x]|dg|c]; try done; cbn [named counts fails finishes added] in *;
    try (destruct (Z.eqb_spec i u) as [E|E]); try (specialize (Hi t i Hne E));
    repeat case_bool_decide; try done; exfalso; intuition congruence.
Qed.

(** ** Lemmas: the cache *)

Lemma cache_entries_app l1 l2 : cache_entries (l1 ++ l2) = cache_entries l1 ++ cache_entries l2.
Proof. apply omap_app. Qed.

(** Every entry of the trace is the result of a request of a tagged driver,
    and the reply with that result follows. *)
Definition entries_replied (l : list effect) : Prop :=
  ∀ l1 e l2, l = l1 ++ CacheSync e :: l2 →
    ∃ (d : D) r l3, getDriverType d = DriverTypeTagged ∧ l2 = (Send <$> send_reply r) ++ l3 ∧
      e = new_cache_entry (getUniqueId d) (req_data r) (req_result r).

Lemma replied_none l : Forall (fun e => match e with CacheSync _ => False | _ => True end) l → entries_replied l.
Proof. intros Hl l1 e l2 ->. apply Forall_app in Hl as [_ Hl]. by apply Forall_inv in Hl. Qed.

Lemma replied_app l l' : entries_replied l → entries_replied l' → entries_replied (l ++ l').
Proof.
  intros Hl Hl' l1 e l2 E. apply app_eq_app in E as (k & [[-> E]|[-> E]]).
  - destruct k as [|x k]; cbn in E.
    + destruct (Hl' [] e l2) as (d & r & l3 & ? & ? & ?); [done|]. by exists d, r, l3.
    + injection E as <- ->. destruct (Hl l1 e k eq_refl) as (d & r & l3 & Ht & -> & He).
      exists d, r, (l3 ++ l'). by rewrite app_assoc.
  - by apply (Hl' k e l2).
Qed.

Lemma replied_sends l : entries_replied (Send <$> l).
Proof. apply replied_none, Forall_fmap, Forall_forall. by intros x _. Qed.

Lemma replied_metric m l : entries_replied l → entries_replied (Metric m :: l).
Proof. apply (replied_app [_]), replied_none. by repeat constructor. Qed.

Lemma replied_done now (d : D) r : entries_replied (done_effects now d r).
Proof.
  apply replied_metric. destruct (Z.eqb_spec (getDriverType d) DriverTypeTagged) as [Ht|]; [|apply replied_sends].
  intros [|x l1] e l2 E; cbn in E.
  - injection E as <- <-. exists d, r, []. by rewrite app_nil_r.
  - injection E as _ E. by apply (replied_sends (send_reply r) l1 e l2) in E.
Qed.

Lemma stepped_replied (s : St) (e : @event H Row) l P : stepped s e l P → entries_replied l.
Proof.
  intros Hs. destruct Hs as [|start now d j l Hj Ha Han Hsends|start now d j r l P Hj Ha Hr Hc Hs
                 | |now resp r s1 l Er Hm1 Hf|db l Hl|]; try (apply replied_none; by constructor).
  - apply replied_none. eapply Forall_impl; [exact Hsends|]. by intros ? [x ->].
  - apply replied_app; [apply replied_sends|].
    inversion Hs; subst; repeat first [apply replied_done|apply replied_sends|apply replied_metric].
    apply replied_none; by constructor.
  - inversion Hf; subst; repeat first [apply replied_done|apply replied_sends|apply replied_metric].
  - apply replied_none. eapply Forall_impl; [exact Hl|]. by intros ? (t & i & ->).
Qed.

Lemma run_replied (s0 s : St) (es : list (@event H Row)) :
  entries_replied (trace s0) → run s0 es s → entries_replied (trace s).
Proof.
  intros H0. induction 1 as [|es e s s' Hr IH Hst]; [done|].
  destruct (step_stepped s s' e Hst) as (l & P & -> & _ & _ & Hs). apply replied_app; [done|by eapply stepped_replied].
Qed.

(** ** Properties *)

(** C7. The counters that are scraped balance: when the exporter has started
    and serves, the drivers are configured and the resolver then runs without
    a reload, the exporter takes every call the resolver makes, and for each
    driver in use its three series exist, and the requests counted are the
    failed ones, the finished ones and those that wait.  This holds when the
    HTTP client refuses no request (a refused one is counted as failed and
    waits, see [refused_request_misdelivers]), when no number is received
    twice, when no static label is called type or id, and when the sums are
    exact in a double. *)
Theorem exported_balance {R} `{PrometheusLaws R} fl c (r r2 : R) e db (s0 s1 s : St) (es : list (@event H Row)) :
  ¬ may_refuse (H:=H) → waiting_requests (waiting s0) = ∅ → inits (trace s0) →
  configure db s0 = (s1, Ret true) → run s1 es s →
  Forall (fun e => is_reconfigured e = false) es → (∀ i, requests i es ≤ 1) →
  labels_free fl → (weights (metric_calls (trace s)) ≤ exact_limit)%Z →
  exporter_start fl c (new_exporter, r) = ((e, r2), Ret tt) → exposer e = true →
  ∃ r3, exporter_calls (metric_calls (trace s)) (e, r2) = ((e, r3), Ret tt) ∧
    ∀ u d, mDriversMap s1 !! u = Some d →
      ∃ n f k, counter_value COUNT (driver_labels (getName d) u) r3 = Some n ∧
        counter_value FAILED (driver_labels (getName d) u) r3 = Some f ∧
        counter_value FINISHED (driver_labels (getName d) u) r3 = Some k ∧
        n = (f + k + Z.of_nat (pending_for u (waiting_requests (waiting s))))%Z.
Proof.
  intros Hno Hempty Ht0 Hc Hr He Hle Hfree Hw Hstart Hserves.
  destruct (configure_cases _ _ _ _ Hc) as (Hwait & _ & Hcfg & _).
  destruct (Hcfg eq_refl) as (rows & l & _ & _ & Hok & Htr & Hdrv).
  assert (Hin : inits (trace s1)).
  { rewrite Htr. apply Forall_app. split; [done|]. apply Forall_fmap, Forall_forall. intros d _. by eexists _, _. }
  destruct (run_named s1 s es Hok Hr He) as (l' & Ht & Hn & Hm).
  assert (Hna : Forall (named (mDriversMap s1)) (trace s)).
  { rewrite Ht. apply Forall_app. split; [|done]. eapply Forall_impl; [exact Hin|]. by intros ? (t & i & ->). }
  destruct (started_up fl c r r2 e Hstart Hserves) as [Hup Hex].
  destruct (calls_exported fl (metric_calls (trace s)) e [] r2 Hup Hfree Hex Hw) as (r3 & Hr3 & [_ Hs]).
  exists r3. split; [exact Hr3|]. intros u d Hd.
  destruct (series_of_driver (mDriversMap s1) u d (trace s) Hd Hna) as (E1 & E2 & E3).
  assert (Hmade : init_metrics (getName d) u ∈ metric_calls (trace s)).
  { assert (Hd' : d ∈ omap id l ∧ getUniqueId d = u).
    { rewrite Hdrv in Hd. apply List.find_some in Hd as [Hd Hu]. split; [by apply list_elem_of_In|by apply Z.eqb_eq]. }
    destruct Hd' as [Hd' <-]. rewrite Ht, Htr, !metric_calls_app. apply elem_of_app. left. apply elem_of_app. right.
    apply list_elem_of_omap. exists (init_metric d). split; [by apply list_elem_of_fmap_2|done]. }
  destruct (series_is_made COUNT _ _ _ ltac:(unfold families; set_solver) Hmade) as [n Hn1].
  destruct (series_is_made FAILED _ _ _ ltac:(unfold families; set_solver) Hmade) as [f Hf1].
  destruct (series_is_made FINISHED _ _ _ ltac:(unfold families; set_solver) Hmade) as [k Hk1].
  exists n, f, k. cbn [app] in Hs. rewrite !Hs. split_and!; [done..|]. rewrite Hn1 in E1. rewrite Hf1 in E2. rewrite Hk1 in E3. cbn in *.
  assert (Hw0 : waiting_requests (waiting s1) = ∅) by (by rewrite Hwait).
  pose proof (metrics_balance s1 s es u Hno Hok Hw0 Hin Hr He Hle). lia.
Qed.

(** C13. What the database is asked to write: however the thread of the cache,
    the calls of [sync] and a stop interleave while the resolver gives its
    entries, in order, and as long as nothing undefined is done, the entries
    given are those whose statement was executed, the one the thread holds and
    those queued; all the calls made of the database, from its state at the
    start to its state now, have exactly one statement for each of the first,
    in that order, with the outcome noted; and each of them is the result of a
    request that a tagged driver settled, of which the client got the
    reply. *)
Theorem cached_results `{CacheDb B} (b : B) (k : @cache B) steps (s0 s : St) (es : list (@event H Row)) :
  trace s0 = [] → run s0 es s →
  cache_run steps (new_cache b) = Some k → pc k ≠ Undefined → pushes steps `prefix_of` cache_entries (trace s) →
  pushes steps = (attempted k).*1 ++ held k ++ q k ∧
  (∃ calls, db_calls b calls (Cache.db k) ∧ statements calls = attempted k) ∧
  Forall (fun e => ∃ (d : D) r l1 l2, getDriverType d = DriverTypeTagged ∧
    e = new_cache_entry (getUniqueId d) (req_data r) (req_result r) ∧
    trace s = l1 ++ CacheSync e :: (Send <$> send_reply r) ++ l2) (attempted k).*1.
Proof.
  intros Htr0 Hr Hk Hp [more Hpre].
  destruct (cache_in_order b k ltac:(by exists steps) Hp) as (Hs & Hcalls).
  rewrite (run_synced steps _ _ Hk) in Hs. cbn [synced new_cache app] in Hs. split; [done|].
  split; [done|]. apply Forall_forall. intros e He.
  assert (Hin : e ∈ cache_entries (trace s)) by (rewrite Hpre, Hs; set_solver).
  apply list_elem_of_omap in Hin as (x & Hx & Ex). destruct x as [|?|e']; try done. injection Ex as <-.
  apply list_elem_of_split in Hx as (l1 & l2 & Ht).
  assert (Hrep : entries_replied (trace s)) by (apply (run_replied s0 s es); [rewrite Htr0; by apply replied_none|done]).
  destruct (Hrep l1 e' l2 Ht) as (d & rq & l3 & Htag & -> & He'). by exists d, rq, l1, l3.
Qed.
End Outputs.
