(* ===== verification/Process.v ===== *)
(** * The running process

    The parts put together: the resolver with its HTTP client, the transport
    and the terminator are the handlers of one dispatcher, over one kernel;
    signals come between the waits.  [boot] builds the process as [main]
    does, [run] is what happens to it then. *)
From S2P Require Import Prelude.
From S2P Require Import CLib.
From S2P Require Import Exceptions.
From S2P Require Import UriParser.
From S2P Require Import EventLoop.
From S2P Require Import Transport.
From S2P Require Import Protocol.
From S2P Require Import Driver.
From S2P Require Import Resolver.
From S2P Require Import ResolverExec.
From S2P Require Import ResolverSpec.
From S2P Require Import AsyncHttp.
From S2P Require Import AsyncHttpSpec.

(** ** Definitions *)

(** The handlers in the order they register: the HTTP client is a member of
    the resolver, which [main] makes first; the terminator is made by
    [Dispatcher::loop]. *)
Definition http_handler : nat := 0.
Definition transport_handler : nat := 1.
Definition terminator_handler : nat := 2.
Definition registered_handlers : list nat := [http_handler; transport_handler; terminator_handler].

(** Libcurl after [curl_multi_init]. *)
Definition empty_view : View :=
  {| easies := ∅; slists := ∅; transfers := ∅; sockets := ∅; messages := [] |}.

(** [EventHandler()]: the base class registers with the dispatcher. *)
Definition registered_EventHandler (ep : Z) : EventHandler := set_epoll ep new_EventHandler.

(** The members of [AsyncHttpClient] before the body of its constructor. *)
Definition new_AsyncHttpClient (ep : Z) : AsyncHttpClient := {|
  base := registered_EventHandler ep; response_queue := []; respose_notifier_fd := -1;
  timer_fd := -1; still_running := 0; conns := ∅; socks := ∅; next_address := 1
|}.

Section Process.
Context {D Row C K U : Type}.
Context `{!CDriver D, !DriverFactory D Row C, !Epoll K, !KernelFds K, !Sockets K}.
Context `{!Curl U, !CurlView U, !CurlLaws U}.

(** The system clock, read by read. *)
Variable clock : nat → Z.

Abbreviation HttpClient := (@Client K U _).
Abbreviation Ev := (@event HttpClient Row).

(** [calls] records what the resolver was called with, and the states of the
    HTTP client between the calls, [receptions] what [recvfrom] returned to
    the transport; nothing depends on them. *)
Record Process : Type := {
  resolver : @Resolver D HttpClient C;
  transport : EventHandler;
  has_handler : bool;
  loop_terminator : LoopTerminator;
  clock_reads : nat;
  calls : list Ev;
  receptions : list Z
}.

Definition set_resolver (s : @Resolver D HttpClient C) (p : Process) : Process :=
  {| resolver := s; transport := transport p; has_handler := has_handler p;
     loop_terminator := loop_terminator p; clock_reads := clock_reads p; calls := calls p;
     receptions := receptions p |}.
Definition set_terminator (t : LoopTerminator) (p : Process) : Process :=
  {| resolver := resolver p; transport := transport p; has_handler := has_handler p;
     loop_terminator := t; clock_reads := clock_reads p; calls := calls p;
     receptions := receptions p |}.
Definition read_clock (n : nat) (p : Process) : Process :=
  {| resolver := resolver p; transport := transport p; has_handler := has_handler p;
     loop_terminator := loop_terminator p; clock_reads := clock_reads p + n; calls := calls p;
     receptions := receptions p |}.
Definition log_call (e : Ev) (p : Process) : Process :=
  {| resolver := resolver p; transport := transport p; has_handler := has_handler p;
     loop_terminator := loop_terminator p; clock_reads := clock_reads p;
     calls := calls p ++ [e]; receptions := receptions p |}.
Definition log_reception (ret : Z) (p : Process) : Process :=
  {| resolver := resolver p; transport := transport p; has_handler := has_handler p;
     loop_terminator := loop_terminator p; clock_reads := clock_reads p; calls := calls p;
     receptions := receptions p ++ [ret] |}.

(** The HTTP client of the resolver. *)
Definition http (p : Process) : HttpClient := http_client (waiting (resolver p)).
Definition world (p : Process) : World K U := proj1_sig (http p).

Definition put_http (c : HttpClient) (p : Process) : Process :=
  log_call (Progressed c) (set_resolver (set_client c (resolver p)) p).

(** *** The handlers *)

(** A call of the resolver. *)
Definition call_resolver (e : Ev) : stM exn Process unit := fun p =>
  let '(s, o) := run_event e (resolver p) in (log_call e (set_resolver s p), o).

(** The transport and the terminator reach the kernel. *)
Definition put_kernel (k : K) (p : Process) : Process :=
  put_http (exist _ {| client := client (world p); kernel := k; curl := curl (world p) |}
              (world_ok_kernel k (world p) (proj2_sig (http p)))) p.

#[export] Instance process_kernel : HasKernel Process K := {
  kernel_of p := kernel (world p);
  set_kernel := put_kernel
}.

(** [Resolver::on_data_received]; the clock is read when the request is made
    and when it is done. *)
#[export] Instance process_transport : TransportHandler Process := {
  on_data_received rd := fun p =>
    call_resolver (Received (clock (clock_reads p)) (clock (1 + clock_reads p)) rd) (read_clock 2 p)
}.

(** [Resolver::on_http_response_received] *)
Definition http_callback (r : HttpResponse) : stM exn Process unit := fun p =>
  call_resolver (Responded (clock (clock_reads p)) r) (read_clock 1 p).

(** [AsyncHttpClient::handle_event]; the resolver does not touch its client
    while it takes a response. *)
Definition http_event (fd events : Z) : stM exn Process bool := fun p =>
  let x := http_handle_event http_callback fd events (world p, p) in
  (put_http (exist _ (fst (fst x))
               (http_event_world http_callback fd events (world p) p (proj2_sig (http p))))
     (snd (fst x)),
   snd x ≫= fun _ => Ret false).

(** What [recvfrom] returns to [Transport::recv_data], noted. *)
Definition note_reception (fd : Z) (p : Process) : Process :=
  if (fd <? 0)%Z then p else
  let '(_, (ret, _, _, _)) := sys_recvfrom fd MSG_SZ (kernel_of p) in log_reception ret p.

(** [Transport::handle_event] *)
Definition transport_event (fd : Z) : stM exn Process bool := fun p =>
  ('(_, stop) ← Transport.handle_event (has_handler p) fd; mret stop) (note_reception fd p).

(** [LoopTerminator::handle_event] *)
Definition terminator_event : stM exn Process bool := fun p =>
  let '(k, _, stop) := terminator_handle_event eventfd_read (loop_terminator p) (kernel_of p) in
  (put_kernel k p, Ret stop).

(** *** The loop *)

(** A process, and what has left the loop by an exception, if anything. *)
Abbreviation Running := (Process * M unit)%type.

Definition can_handle (h : nat) (fd events : Z) (x : Running) : bool :=
  is_can_handle fd events
    (if (h =? http_handler)%nat then base (client (world (fst x)))
     else if (h =? transport_handler)%nat then transport (fst x)
     else lt_handler (loop_terminator (fst x))).

Definition handler_event (h : nat) (fd events : Z) : stM exn Process bool :=
  if (h =? http_handler)%nat then http_event fd events
  else if (h =? transport_handler)%nat then transport_event fd
  else terminator_event.

(** The virtual [handle_event]: an exception ends the loop as well. *)
Definition dispatch (h : nat) (fd events : Z) (x : Running) : Running * bool :=
  match handler_event h fd events (fst x) with
  | (p, Ret stop) => ((p, Ret tt), stop)
  | (p, Throw e) => ((p, Throw e), true)
  | (p, Undef) => ((p, Undef), true)
  end.

(** The loop of [Dispatcher::loop], after the terminator is made. *)
Definition dispatcher_loop (waits : list wait_result) (p : Process) : Running * bool :=
  let '(x, stopped, _) :=
    loop can_handle dispatch registered_handlers waits (p, Ret tt) in (x, stopped).

(** *** Signals *)

(** SIGHUP: [resolver::instance()->configure()]. *)
Definition on_sighup (db : M (list Row)) : stM exn Process unit := call_resolver (Reconfigured db).

(** SIGINT, SIGTERM: [dispatcher::instance()->stop()]; the cache is stopped
    by its own thread. *)
Definition dispatcher_stop : Process → Process := fun p =>
  put_kernel (fst (fire eventfd_write (loop_terminator p) (kernel_of p))) p.

(** What happens to the process while it runs: a wait of the loop ends, or a
    signal comes. *)
Inductive occurrence : Type :=
  | Woken (w : wait_result)
  | Hangup (db : M (list Row))
  | Terminate.

(** The process after a sequence of occurrences: how its loop ended, if it
    did. *)
Fixpoint run_process (l : list occurrence) (p : Process) : Running * bool :=
  match l with
  | [] => ((p, Ret tt), false)
  | o :: l =>
      match o with
      | Woken w =>
          match dispatcher_loop [w] p with
          | ((p, _), false) => run_process l p
          | x => x
          end
      | Hangup db =>
          match on_sighup db p with
          | (p, Ret _) => run_process l p
          | (p, o) => ((p, o), true)
          end
      | Terminate => run_process l (dispatcher_stop p)
      end
  end.

(** *** Start-up *)

(** The [AsyncHttpClient] of the resolver: registered, with its timer and
    its notifier, over a multi handle just made. *)
Definition make_world (ep : Z) (k : K) (u : U) : World K U :=
  fst (init_descriptors {| client := new_AsyncHttpClient ep; kernel := k; curl := u |}).

Lemma make_world_ok ep k u : view u = empty_view → world_ok (make_world ep k u).
Proof.
  intros Hu. unfold make_world.
  assert (Hw : wp init_descriptors {| client := new_AsyncHttpClient ep; kernel := k; curl := u |}
            (fun _ w => curl w = u ∧ conns (client w) = ∅ ∧ socks (client w) = ∅) (fun _ _ => False)).
  { unfold init_descriptors, init_timer, init_respose_notifier.
    apply wp_bind, wp_bind, wp_syscall. intros k1 t. apply wp_bind, wp_update, wp_bind, wp_when; intros _;
      [apply wp_bind, wp_handler_call; intros h1 k2 r1; apply wp_ret|]; apply wp_ret;
      apply wp_bind, wp_bind, wp_syscall; intros k3 n; apply wp_bind, wp_update, wp_bind, wp_when; intros _;
      try (apply wp_bind, wp_handler_call; intros h2 k4 r2; apply wp_ret); apply wp_ret; by apply wp_ret. }
  unfold wp in Hw. destruct (init_descriptors _) as [w [[]|e|]]; try done. cbn [fst].
  destruct Hw as (Hc & Hco & Hso). unfold world_ok. rewrite Hc, Hu. split; [split|split]; cbn.
  - by intros easy ?%elem_of_empty.
  - intros p i easy. unfold flights. by rewrite Hco, fmap_empty, lookup_empty.
  - by intros easy ?%elem_of_empty.
  - intros fd p. by rewrite lookup_empty.
  - intros p. rewrite Hco, Hso, !lookup_empty. by intros [[? ?]|[? ?]].
  - unfold lists_ok, header_lists. rewrite Hco, omap_empty. by split.
  - constructor.
  - constructor.
Qed.

(** [curl_multi_init] gives a handle without transfers. *)
Definition multi_handle : Type := { u : U | view u = empty_view }.

Definition make_client (ep : Z) (k : K) (u : multi_handle) : HttpClient :=
  exist _ (make_world ep k (proj1_sig u)) (make_world_ok ep k (proj1_sig u) (proj2_sig u)).

(** [resolver::instance()], the first time. *)
Definition new_Process (ep : Z) (k : K) (u : multi_handle) (c : C) : Process := {|
  resolver := new_Resolver (make_client ep k u) c; transport := new_EventHandler;
  has_handler := false; loop_terminator := {| lt_handler := new_EventHandler; event_fd := -1 |};
  clock_reads := 0; calls := []; receptions := []
|}.

(** [resolver::instance()->configure()] *)
Definition process_configure (db : M (list Row)) : stM exn Process bool := fun p =>
  let '(s, o) := configure db (resolver p) in (log_call (Reconfigured db) (set_resolver s p), o).

(** [Transport()]; [uri_c] is what the stack holds. *)
Definition make_transport (ep : Z) (bind_urls : list str) (uri_c : UriComponents)
  : stM exn Process unit := fun p =>
  match bind_endpoints bind_urls uri_c (registered_EventHandler ep) (kernel_of p) with
  | Ret (h, k, _) =>
      (put_kernel k {| resolver := resolver p; transport := h; has_handler := has_handler p;
                       loop_terminator := loop_terminator p; clock_reads := clock_reads p;
                       calls := calls p; receptions := receptions p |}, Ret tt)
  | Throw e => (p, Throw e)
  | Undef => (p, Undef)
  end.

(** [set_handler(resolver::instance())] *)
Definition set_handler (p : Process) : Process :=
  {| resolver := resolver p; transport := transport p; has_handler := true;
     loop_terminator := loop_terminator p; clock_reads := clock_reads p; calls := calls p;
     receptions := receptions p |}.

(** [LoopTerminator()], in [Dispatcher::loop]. *)
Definition make_terminator (ep : Z) (p : Process) : Process :=
  let '(t, k, _) := init_event eventfd {| lt_handler := registered_EventHandler ep; event_fd := -1 |}
                      (kernel_of p) in
  set_terminator t (put_kernel k p).

(** What [main] does with these parts before the loop waits. *)
Definition boot (ep : Z) (db : M (list Row)) (bind_urls : list str) (uri_c : UriComponents)
  : stM exn Process unit :=
  configured ← process_configure db;
  when (negb configured) (mthrow (StringExn #"can't init resolvers"));;
  make_transport ep bind_urls uri_c;;
  modify set_handler;;
  modify (make_terminator ep).
End Process.
