(* ===== verification/ProcessSpec.v ===== *)
(** * The running process: what holds of it

    The theorems of the resolver, of the HTTP client and of the loop put
    together: whatever the loop is woken for, unless a datagram fills the
    buffer of the transport, the process stays in it, its resolver is in a
    state of Resolver.v, and whoever waits there is waited for by libcurl. *)
From S2P Require Import Prelude.
From S2P Require Import CLib.
From S2P Require Import Exceptions.
From S2P Require Import UriParser.
From S2P Require Import EventLoop.
From S2P Require Import Transport.
From S2P Require Import Protocol.
From S2P Require Import Driver.
From S2P Require Import Resolver.
From S2P Require Import ResolverExec.
From S2P Require Import ResolverSpec.
From S2P Require Import AsyncHttp.
From S2P Require Import AsyncHttpSpec.
From S2P Require Import Process.

(** ** Definitions *)

(** A call of the resolver with a response of the size it is proved for. *)
Definition fits_call {H Row} (e : @event H Row) : Prop :=
  match e with Responded _ r => response_fits (resp_data r) | _ => True end.

Section Spec.
Context {D Row C K U : Type}.
Context `{!CDriver D, !CDriverLaws D, !DriverFactory D Row C}.
Context `{!Epoll K, !KernelFds K, !Sockets K, !SocketsLaws K}.
Context `{!Curl U, !CurlView U, !CurlLaws U}.
Variable clock : nat → Z.

Abbreviation HttpClient := (@Client K U _).
Abbreviation Proc := (@Process D Row C K U _).
Abbreviation St := (@Resolver D HttpClient C).

(** The HTTP client takes every request. *)
Definition always_takes : Prop :=
  ∀ hr (c : HttpClient), snd (make_request hr c) = Ret 0%Z.

(** The responses delivered so far fit. *)
Definition delivered_fit (p : Proc) : Prop := Forall fits_call (calls p).

(** The numbers a transfer is in flight for or a response is queued for. *)
Definition awaited (c : HttpClient) : list Z :=
  in_flight (client (`c)) ++ (resp_id <$> response_queue (client (`c))).

(** Who waits is waited for. *)
Definition attended (p : Proc) : Prop :=
  ∀ i, is_Some (waiting_requests (waiting (resolver p)) !! i) → i ∈ awaited (http p).

(** The calls made so far are a run of the resolver that leads to its
    state. *)
Definition sound (s0 : St) (p : Proc) : Prop :=
  run (Row:=Row) s0 (calls p) (resolver p) ∧ (always_takes → attended p).

(** A datagram filled the buffer of the transport. *)
Definition full (p : Proc) : Prop := Z.of_nat MSG_SZ ∈ receptions p.

(** No datagram filled it, and the resolver is where its calls led it. *)
Definition safe (s0 : St) (p : Proc) : Prop := sound s0 p ∧ ¬ full p.

(** In the loop, with nothing thrown, as far as the responses delivered
    fit. *)
Definition going (s0 : St) (x : Proc * M unit) : Prop :=
  delivered_fit (fst x) → safe s0 (fst x) ∧ snd x = Ret tt.

(** The same, or a datagram filled the buffer and the transport wrote
    outside of it. *)
Definition settled (s0 : St) (x : Proc * M unit) : Prop :=
  delivered_fit (fst x) → safe s0 (fst x) ∧ snd x = Ret tt ∨ full (fst x) ∧ snd x = Undef.

(** A query and its rows do nothing undefined. *)
Definition reload_defined (o : @occurrence Row) : Prop :=
  match o with
  | Hangup db => ∀ c : C, defined (snd (loadResolveDrivers (D:=D) db (c, [])))
  | _ => True
  end.

(** ** Lemmas *)

(** *** Calls and the client *)

Lemma delivered_prefix (p p' : Proc) :
  calls p `prefix_of` calls p' → delivered_fit p' → delivered_fit p.
Proof. intros [l Hl]. unfold delivered_fit. rewrite Hl, Forall_app. tauto. Qed.

Lemma world_put_http (c : HttpClient) (p : Proc) : http (put_http c p) = c.
Proof. done. Qed.

(** The client may do what keeps the numbers it owes. *)
Lemma sound_put_http s0 (c : HttpClient) (p : Proc) :
  (∀ i, i ∈ awaited (http p) → i ∈ awaited c) → sound s0 p → sound s0 (put_http c p).
Proof.
  intros Hsub [Hr Ha]. split.
  - eapply run_snoc; [exact Hr|]. by apply step_event.
  - intros Ht i Hi. rewrite world_put_http. apply Hsub, Ha; done.
Qed.

Lemma sound_put_kernel s0 k (p : Proc) : sound s0 p → sound s0 (put_kernel k p).
Proof. by apply sound_put_http. Qed.

(** A call of the resolver that returns. *)
Lemma sound_call s0 e (p p' : Proc) :
  wf_event e → call_resolver e p = (p', Ret tt) →
  sound s0 p → (always_takes → attended p → attended p') → sound s0 p'.
Proof.
  intros Hw Hc [Hr Ha] Hat. split; [|by eauto]. unfold call_resolver in Hc.
  destruct (run_event e (resolver p)) as [s o] eqn:E. injection Hc as <- ->. cbn.
  eapply run_snoc; [exact Hr|]. by apply step_event.
Qed.

Lemma call_resolver_calls e (p : Proc) : calls (fst (call_resolver e p)) = calls p ++ [e].
Proof. unfold call_resolver. by destruct (run_event e (resolver p)). Qed.

Lemma sound_read_clock s0 n (p : Proc) : sound s0 p → sound s0 (read_clock n p).
Proof. done. Qed.

(** *** Reception *)

Lemma awaited_taken hr (c c' : HttpClient) o :
  make_request hr c = (c', o) → o = Ret 0%Z →
  ∀ i, i ∈ awaited c' ↔ i = hr_id hr ∨ i ∈ awaited c.
Proof.
  intros Hm ->. unfold make_request, async_http_client in Hm. injection Hm as <- Ho.
  unfold awaited. cbn [proj1_sig]. pose proof (make_request_runs hr (`c) (proj2_sig c)) as Hr.
  unfold wp in Hr. destruct (http_make_request hr (`c)) as [w' o']. cbn [fst snd] in *. subst o'.
  destruct Hr as ((_ & Hq & _) & Ht). cbn in Ht. rewrite Hq. intros i.
  rewrite !elem_of_app, (in_flight_taken _ _ _ _ Ht), elem_of_cons. tauto.
Qed.

Lemma attended_handled (w w' : @Waiting HttpClient) :
  always_takes → handled w w' →
  (∀ i, is_Some (waiting_requests w !! i) → i ∈ awaited (http_client w)) →
  ∀ i, is_Some (waiting_requests w' !! i) → i ∈ awaited (http_client w').
Proof.
  intros Ht Hh Ha i. destruct Hh as [|r hr h o Hm Hi]; [by apply Ha|]. cbn.
  rewrite (awaited_taken hr (http_client w) h o Hm); [|by rewrite <- (Ht hr (http_client w)), Hm].
  rewrite Hi. unfold emplace. destruct (waiting_requests w !! req_id r) eqn:E; [by eauto|].
  destruct (decide (i = req_id r)) as [->|Hne]; [by left|]. rewrite lookup_insert_ne by done. eauto.
Qed.

(** A reception, with what was noted of it. *)
Lemma recv_data_noted fd (p : Proc) (k' : K) o :
  recv_data fd new_RecvData (kernel_of p) = (k', o) →
  let p1 := note_reception fd p in
  (∃ ret rd, o = Ret (ret, rd) ∧ (¬ full p → ¬ full p1) ∧
    ((0 ≤ ret)%Z → wf_RecvData rd ∧ (0 ≤ recv_fd (client_info rd))%Z))
  ∨ o = Undef ∧ full p1.
Proof.
  intros Hr. unfold note_reception. destruct (Z.ltb_spec fd 0) as [Hfd|Hfd].
  { unfold recv_data in Hr. rewrite (proj2 (Z.ltb_lt _ _) Hfd) in Hr. injection Hr as <- <-.
    left. eexists _, _. split; [done|]. split; [done|]. lia. }
  destruct (sys_recvfrom fd MSG_SZ (kernel_of p)) as [k1 [[[ret bytes] peer] sz]] eqn:E.
  assert (Hf : ∀ q, full (log_reception ret q) ↔ full q ∨ ret = Z.of_nat MSG_SZ).
  { intros q. unfold full, log_reception. cbn. rewrite elem_of_app, list_elem_of_singleton.
    split; intros [?|?]; auto. }
  destruct (Z.ltb_spec ret 0) as [Hret|Hret].
  { unfold recv_data in Hr. rewrite (proj2 (Z.ltb_ge _ _) Hfd), E in Hr.
    rewrite (proj2 (Z.ltb_ge 0 ret)) in Hr by lia. injection Hr as <- <-.
    left. eexists _, _. split; [done|]. split; [|lia]. rewrite Hf. unfold MSG_SZ. intros ? [?|?]; [done|lia]. }
  destruct (recvfrom_bound _ _ _ _ _ _ _ _ E Hret) as [-> Hlen].
  destruct (recv_data_received fd new_RecvData (kernel_of p) k1 bytes peer sz Hfd Hlen E)
    as [(Hl & rd & Hrd & Hw & _ & _ & Hci)|[Hl Hrd]]; rewrite Hrd in Hr; injection Hr as <- <-.
  - left. eexists _, _. split; [done|]. split; [rewrite Hf; intros ? [?|?]; [done|lia]|]. intros _. split; [done|]. by rewrite Hci.
  - right. split; [done|]. rewrite Hf. right. by rewrite Hl.
Qed.

Lemma call_resolver_runs e (p : Proc) :
  wf_event e → is_reconfigured e = false → ∃ p', call_resolver e p = (p', Ret tt).
Proof.
  intros Hw He. destruct (entry_point_returns (resolver p) e Hw He) as (s' & E & _).
  unfold call_resolver. rewrite E. eauto.
Qed.

Lemma received_call s0 start now rd (p : Proc) :
  wf_RecvData rd → (0 ≤ recv_fd (client_info rd))%Z →
  ∃ p', call_resolver (Received start now rd) p = (p', Ret tt) ∧ (sound s0 p → sound s0 p').
Proof.
  intros Hw Hfd. destruct (call_resolver_runs (Received start now rd) p) as [p' E]; [done..|].
  exists p'. split; [exact E|]. intros Hs. eapply sound_call; [|exact E|exact Hs|]; [done|].
  intros Ht. unfold call_resolver in E.
  destruct (wf_valid_bytes rd Hw) as [Hd Hl].
  pose proof (received_handled start now rd _ _ (resolver p) Hd Hl) as Hh. cbn [run_event] in E.
  destruct (resolver_on_data_received start now rd (resolver p)) as [s o]. injection E as <- ->.
  exact (attended_handled _ _ Ht Hh).
Qed.

Lemma call_resolver_receptions e (p : Proc) : receptions (fst (call_resolver e p)) = receptions p.
Proof. unfold call_resolver. by destruct (run_event e (resolver p)). Qed.

Lemma safe_keeps s0 (p p' : Proc) :
  receptions p' = receptions p → (sound s0 p → sound s0 p') → safe s0 p → safe s0 p'.
Proof. intros Hr Hs [Hp Hn]. split; [by apply Hs|]. unfold full in *. by rewrite Hr. Qed.

(** What an event of one handler does. *)
Definition goes_well (s0 : St) (p p' : Proc) (o : M bool) : Prop :=
  calls p `prefix_of` calls p' ∧
  (delivered_fit p' → safe s0 p →
   safe s0 p' ∧ (∃ stop, o = Ret stop) ∨ full p' ∧ o = Undef).

Lemma goes_well_ret s0 (p p' : Proc) stop :
  calls p `prefix_of` calls p' → (safe s0 p → safe s0 p') → goes_well s0 p p' (Ret stop).
Proof. intros Hc Hs. split; [done|]. intros _ Hp. left. split; [by apply Hs|by eexists]. Qed.

Lemma noted fd (p : Proc) :
  calls (note_reception fd p) = calls p ∧ resolver (note_reception fd p) = resolver p.
Proof. unfold note_reception. destruct (fd <? 0)%Z; [done|]. by destruct (sys_recvfrom _ _ _) as [? [[[? ?] ?] ?]]. Qed.

Lemma transport_event_goes_well s0 fd (p p' : Proc) o :
  transport_event clock fd p = (p', o) → goes_well s0 p p' o.
Proof.
  unfold transport_event. rewrite stM_bind_eq. unfold Transport.handle_event.
  destruct (noted fd p) as [Hcalls Hres]. cbn [kernel_of process_kernel].
  assert (Hker : kernel (world (note_reception fd p)) = kernel (world p)) by (unfold world, http; by rewrite Hres).
  rewrite Hker. destruct (recv_data fd new_RecvData (kernel (world p))) as [k r] eqn:Er.
  pose proof (recv_data_noted fd p _ _ Er) as Hn. cbn zeta in Hn.
  set (p1 := note_reception fd p) in *. set (pk := set_kernel k p1).
  assert (Hc : calls p `prefix_of` calls pk) by (cbn; rewrite Hcalls; by apply prefix_app_r).
  assert (Hsound : sound s0 p → sound s0 pk).
  { intros Hs. apply sound_put_kernel. unfold sound, attended, http in *. by rewrite Hcalls, Hres. }
  destruct Hn as [(ret & rd & -> & Hfull & Hrd)|[-> Hfull]].
  2: { intros [= <- <-]. split; [done|]. intros _ _. right. by split. }
  assert (Hsafe : safe s0 p → safe s0 pk) by (intros [Hs Hnf]; split; [by apply Hsound|by apply Hfull]).
  destruct (Z.ltb_spec ret 0) as [Hneg|Hpos].
  { destruct (_ =? EINTR)%Z; [|destruct (_ =? EBADF)%Z]; intros [= <- <-]; by apply goes_well_ret. }
  destruct (has_handler p); [|intros [= <- <-]; by apply goes_well_ret].
  destruct (Hrd Hpos) as [Hw Hfd]. rewrite stM_bind_eq. cbn [on_data_received process_transport].
  set (e := Received _ _ rd). set (p2 := read_clock 2 pk).
  destruct (received_call s0 (clock (clock_reads pk)) (clock (1 + clock_reads pk)) rd p2 Hw Hfd) as (p3 & E & Hs3).
  fold e in E. rewrite E. intros [= <- <-].
  pose proof (call_resolver_calls e p2) as Hc3. pose proof (call_resolver_receptions e p2) as Hr3.
  rewrite E in Hc3, Hr3. cbn [fst] in Hc3, Hr3. apply goes_well_ret.
  - rewrite Hc3. etrans; [exact Hc|]. by apply prefix_app_r.
  - intros Hp. apply (safe_keeps s0 pk); [exact Hr3|exact Hs3|by apply Hsafe].
Qed.

Lemma terminator_event_goes_well s0 (p p' : Proc) o :
  terminator_event p = (p', o) → goes_well s0 p p' o.
Proof.
  unfold terminator_event, terminator_handle_event. destruct (eventfd_read _ _) as [k res].
  intros [= <- <-]. apply goes_well_ret; [by apply prefix_app_r|].
  apply safe_keeps; [done|]. apply sound_put_kernel.
Qed.

(** *** Delivery *)

Lemma response_call now r (p : Proc) :
  response_fits (resp_data r) →
  ∃ p', call_resolver (Responded now r) p = (p', Ret tt) ∧ http p' = http p ∧
    waiting_requests (waiting (resolver p')) = delete (resp_id r) (waiting_requests (waiting (resolver p))).
Proof.
  intros Hf. destruct (call_resolver_runs (Responded now r) p) as [p' E]; [done..|].
  exists p'. split; [exact E|]. unfold call_resolver in E. cbn [run_event] in E.
  pose proof (response_waiting now r (resolver p) Hf) as Hw.
  destruct (on_http_response_received now r (resolver p)) as [s o]. injection E as <- ->.
  unfold http. cbn in *. by rewrite Hw.
Qed.

(** The callback, for a response that fits. *)
Definition delivered (r : HttpResponse) (p : Proc) : Proc := fst (http_callback clock r p).

Lemma callback_takes r : response_fits (resp_data r) → takes (http_callback clock) delivered r.
Proof.
  intros Hf p. unfold delivered, http_callback.
  destruct (response_call (clock (clock_reads p)) r (read_clock 1 p) Hf) as (p' & -> & _). done.
Qed.

Lemma callback_calls r (p : Proc) :
  calls (fst (http_callback clock r p)) = calls p ++ [Responded (clock (clock_reads p)) r].
Proof. unfold http_callback. by rewrite call_resolver_calls. Qed.

(** The queue, delivered: the resolver ran, and its client did not. *)
Lemma deliver_queue s0 queue (p : Proc) :
  Forall (fun r => response_fits (resp_data r)) queue →
  let p' := foldl (fun p r => delivered r p) p queue in
  http p' = http p ∧
  (run (Row:=Row) s0 (calls p) (resolver p) → run (Row:=Row) s0 (calls p') (resolver p')) ∧
  (∀ i, is_Some (waiting_requests (waiting (resolver p')) !! i) →
     is_Some (waiting_requests (waiting (resolver p)) !! i) ∧ i ∉ resp_id <$> queue).
Proof.
  intros HF. revert p. induction HF as [|r queue Hr _ IH]; intros p; cbn [foldl].
  { split; [done|]. split; [done|]. intros i Hi. split; [done|]. by apply not_elem_of_nil. }
  set (now := clock (clock_reads p)).
  destruct (response_call now r (read_clock 1 p) Hr) as (p1 & E & Hh & Hw).
  assert (Hd : delivered r p = p1) by (unfold delivered, http_callback; fold now; by rewrite E).
  destruct (IH p1) as (Hh' & Hrun & Hwait). rewrite Hd. split; [by rewrite Hh', Hh|]. split.
  - intros Hr0. apply Hrun. unfold call_resolver in E.
    destruct (run_event (Responded now r) (resolver (read_clock 1 p))) as [s o] eqn:Es.
    injection E as <- ->. cbn. eapply run_snoc; [exact Hr0|]. by apply step_event.
  - intros i Hi. destruct (Hwait i Hi) as [Hi1 Hni]. rewrite Hw, lookup_delete_is_Some in Hi1.
    destruct Hi1 as [Hne Hi1]. split; [done|]. cbn. rewrite not_elem_of_cons. done.
Qed.

(** Only what was delivered was called, and it was called. *)
Lemma deliver_logged queue (w : World K U) (p : Proc) :
  let p' := snd (fst (deliver (http_callback clock) queue (w, p))) in
  calls p `prefix_of` calls p' ∧
  (delivered_fit p' → Forall (fun r => response_fits (resp_data r)) queue).
Proof.
  revert w p. induction queue as [|r queue IH]; intros w p; cbn [deliver]; [by split; [|constructor]|].
  rewrite stM_bind_eq. unfold on_fst. cbn [fst snd update modify]. rewrite stM_bind_eq, on_snd_eq.
  pose proof (callback_calls r p) as Hc.
  assert (Hfr : ∀ p', calls (fst (http_callback clock r p)) `prefix_of` calls p' →
            delivered_fit p' → response_fits (resp_data r)).
  { intros p' Hp Hf. apply (delivered_prefix _ _ Hp) in Hf. unfold delivered_fit in Hf.
    rewrite Hc in Hf. apply Forall_app in Hf as [_ Hf]. by apply Forall_inv in Hf. }
  assert (Hpre : calls p `prefix_of` calls (fst (http_callback clock r p)))
    by (rewrite Hc; by apply prefix_app_r).
  pose proof (callback_takes r) as Ht.
  destruct (http_callback clock r p) as [p1 [[]|e|]] eqn:E; cbn [fst snd] in *.
  - destruct (IH {| client := set_response_queue queue (client w); kernel := kernel w; curl := curl w |} p1)
      as [Hp Hf]. split; [by etrans|]. intros Hfit. constructor; [by eapply Hfr|by apply Hf].
  - split; [done|]. intros Hfit. specialize (Ht (Hfr _ ltac:(done) Hfit) p). congruence.
  - split; [done|]. intros Hfit. specialize (Ht (Hfr _ ltac:(done) Hfit) p). congruence.
Qed.

Lemma http_handle_event_logged fd events (w : World K U) (p : Proc) :
  let p' := snd (fst (http_handle_event (http_callback clock) fd events (w, p))) in
  calls p `prefix_of` calls p' ∧
  (delivered_fit p' → delivers fd (client w) →
   Forall (fun r => response_fits (resp_data r)) (response_queue (client w))).
Proof.
  intros p'. set (P := fun q : Proc => calls p `prefix_of` calls q ∧
    (delivered_fit q → delivers fd (client w) →
     Forall (fun r => response_fits (resp_data r)) (response_queue (client w)))).
  enough (P p') as HP by exact HP. unfold p'. clear p'.
  unfold http_handle_event. rewrite !stM_bind_eq. unfold on_fst at 1. cbn [gets fst snd].
  rewrite !stM_bind_eq. unfold on_fst at 1. cbn [gets fst snd]. rewrite stM_bind_eq.
  assert (Hrun : ∀ m : stM exn (World K U) unit,
    snd (fst (let '(ws, o) := on_fst m (w, p) in
      match o with Ret a => (mret 0%Z : stM exn (World K U * Proc) Z) ws
                 | Throw e => (ws, Throw e) | Undef => (ws, Undef) end)) = p).
  { intros m. rewrite on_fst_eq. by destruct (m w) as [w' [[]|e|]]. }
  destruct (Z.eqb_spec fd (timer_fd (client w))) as [Hnt|Hnt].
  { rewrite Hrun. split; [done|]. intros _ [? _]. done. }
  destruct (Z.eqb_spec fd (respose_notifier_fd (client w))) as [Hn|Hn].
  2: { rewrite Hrun. split; [done|]. intros _ (_ & ? & _). done. }
  unfold respose_notifier_event_handler. rewrite stM_bind_eq. unfold on_fst at 1. cbn [gets fst snd].
  destruct (Z.ltb_spec (respose_notifier_fd (client w)) 0) as [Hneg|Hpos].
  { cbn. split; [done|]. intros _ (_ & -> & ?). lia. }
  rewrite stM_bind_eq. unfold on_fst at 1, syscall. cbn [fst snd].
  destruct (eventfd_read _ _) as [k a]. rewrite stM_bind_eq. unfold on_fst at 1. cbn [gets fst snd].
  pose proof (deliver_logged (response_queue (client w))
    {| client := client w; kernel := k; curl := curl w |} p) as Hd. cbn [client kernel curl] in *.
  destruct (deliver _ _ _) as [ws [[]|e|]]; cbn [fst snd] in *;
    (split; [apply Hd|intros Hf _; exact (proj2 Hd Hf)]).
Qed.

(** Neither the callback nor the client receives datagrams. *)
Lemma deliver_receptions queue (w : World K U) (p : Proc) :
  receptions (snd (fst (deliver (http_callback clock) queue (w, p)))) = receptions p.
Proof.
  revert w p. induction queue as [|r queue IH]; intros w p; cbn [deliver]; [done|].
  rewrite stM_bind_eq. unfold on_fst. cbn [fst snd update modify]. rewrite stM_bind_eq, on_snd_eq.
  pose proof (call_resolver_receptions (Responded (clock (clock_reads p)) r) (read_clock 1 p)) as Hc.
  change (call_resolver _ _) with (http_callback clock r p) in Hc.
  destruct (http_callback clock r p) as [p1 [[]|e|]]; cbn [fst snd] in *; [by rewrite IH|done..].
Qed.

Lemma http_handle_event_receptions fd events (w : World K U) (p : Proc) :
  receptions (snd (fst (http_handle_event (http_callback clock) fd events (w, p)))) = receptions p.
Proof.
  unfold http_handle_event. rewrite !stM_bind_eq. unfold on_fst at 1. cbn [gets fst snd].
  rewrite !stM_bind_eq. unfold on_fst at 1. cbn [gets fst snd]. rewrite stM_bind_eq.
  assert (Hrun : ∀ m : stM exn (World K U) unit,
    snd (fst (let '(ws, o) := on_fst m (w, p) in
      match o with Ret a => (mret 0%Z : stM exn (World K U * Proc) Z) ws
                 | Throw e => (ws, Throw e) | Undef => (ws, Undef) end)) = p).
  { intros m. rewrite on_fst_eq. by destruct (m w) as [w' [[]|e|]]. }
  destruct (fd =? timer_fd (client w))%Z; [by rewrite Hrun|].
  destruct (fd =? respose_notifier_fd (client w))%Z; [|by rewrite Hrun].
  unfold respose_notifier_event_handler. rewrite stM_bind_eq. unfold on_fst at 1. cbn [gets fst snd].
  destruct (respose_notifier_fd (client w) <? 0)%Z; [done|].
  rewrite stM_bind_eq. unfold on_fst at 1, syscall. cbn [fst snd].
  destruct (eventfd_read _ _) as [k a]. rewrite stM_bind_eq. unfold on_fst at 1. cbn [gets fst snd].
  pose proof (deliver_receptions (response_queue (client w))
    {| client := client w; kernel := k; curl := curl w |} p) as Hd. cbn [client kernel curl] in *.
  by destruct (deliver _ _ _) as [ws [[]|e|]].
Qed.

Lemma http_event_goes_well s0 fd events (p p' : Proc) o :
  http_event clock fd events p = (p', o) → goes_well s0 p p' o.
Proof.
  unfold http_event. destruct (http_handle_event_logged fd events (world p) p) as [Hpre Hfits].
  pose proof (http_handle_event_receptions fd events (world p) p) as Hrec.
  set (Hok := http_event_world _ _ _ _ _ _). clearbody Hok.
  set (x := http_handle_event (http_callback clock) fd events (world p, p)) in *.
  intros [= <- <-]. split; [etrans; [exact Hpre|by apply prefix_app_r]|]. intros Hf [[Hr Ha] Hnf].
  assert (Hf' : delivered_fit (snd (fst x))) by (eapply delivered_prefix; [|exact Hf]; by apply prefix_app_r).
  assert (Htk : delivers fd (client (world p)) →
            Forall (takes (http_callback clock) delivered) (response_queue (client (world p)))).
  { intros Hd. eapply Forall_impl; [by apply Hfits|]. apply callback_takes. }
  pose proof (handle_event_runs (http_callback clock) delivered fd events (world p) p
                (fun _ _ => False) (proj2_sig (http p)) Htk) as Hrun.
  unfold wp in Hrun. fold x in Hrun. destruct x as [[w' q] [r|e|]]; try done. cbn [fst snd] in *.
  destruct Hrun as (_ & _ & Hcase). left. split; [|by exists false].
  split; [|unfold full in *; cbn; by rewrite Hrec].
  destruct Hcase as [[-> (_ & rs & Hq & Hperm & _)]|(Hd & Hfl & Hq & ->)].
  - apply sound_put_http; [|done]. intros i. unfold awaited. cbn [proj1_sig].
    fold (world p). rewrite Hq, fmap_app, !elem_of_app, <- Hperm, elem_of_app. tauto.
  - destruct (deliver_queue s0 (response_queue (client (world p))) p (Hfits Hf' Hd)) as (Hh & Hrun & Hw).
    set (q := foldl _ _ _) in *. split.
    + cbn. eapply run_snoc; [by apply Hrun|]. by apply step_event.
    + intros Ht i Hi. unfold awaited. cbn [proj1_sig http put_http log_call set_resolver resolver
        set_client waiting set_waiting http_client]. cbn in Hi.
      destruct (Hw i Hi) as [Hi0 Hni]. specialize (Ha Ht i Hi0). unfold awaited in Ha. fold (world p) in Ha.
      rewrite Hq. unfold in_flight in *. rewrite Hfl. rewrite !elem_of_app in *. tauto.
Qed.

Lemma handler_event_goes_well s0 h fd events (p p' : Proc) o :
  handler_event clock h fd events p = (p', o) → goes_well s0 p p' o.
Proof.
  unfold handler_event. destruct (h =? http_handler)%nat; [by apply http_event_goes_well|].
  destruct (h =? transport_handler)%nat; [by apply transport_event_goes_well|].
  by apply terminator_event_goes_well.
Qed.

Lemma dispatch_keeps s0 h fd events (x : Proc * M unit) :
  going s0 x → kept (going s0) (settled s0) (dispatch clock h fd events x).
Proof.
  intros Hx. unfold dispatch. destruct (handler_event clock h fd events (fst x)) as [p' o] eqn:E.
  destruct (handler_event_goes_well s0 _ _ _ _ _ _ E) as [Hp Hg].
  assert (Hs : delivered_fit p' → safe s0 p' ∧ (∃ stop, o = Ret stop) ∨ full p' ∧ o = Undef).
  { intros Hf. apply Hg; [done|]. apply Hx. by eapply delivered_prefix. }
  destruct o as [[|]|e|]; unfold kept; cbn [fst snd]; intros Hf; destruct (Hs Hf) as [[? [? ?]]|[? ?]]; try done;
    first [by split|by left|by right].
Qed.

Lemma dispatcher_loop_keeps s0 waits (p : Proc) :
  going s0 (p, Ret tt) → kept (going s0) (settled s0) (dispatcher_loop clock waits p).
Proof.
  intros Hp. unfold dispatcher_loop.
  pose proof (loop_keeps can_handle (dispatch clock) (going s0) (settled s0) (dispatch_keeps s0)
                registered_handlers waits (p, Ret tt) Hp) as Hl.
  by destruct (loop _ _ _ _ _) as [[x stopped] rest].
Qed.

(** *** Signals *)

Lemma going_call s0 (p p' : Proc) e :
  calls p' = calls p ++ [e] → receptions p' = receptions p → (sound s0 p → sound s0 p') →
  going s0 (p, Ret tt) → going s0 (p', Ret tt).
Proof.
  intros Hc Hr Hs Hp Hf. split; [|done]. apply (safe_keeps s0 p); [done|exact Hs|].
  apply Hp. cbn in *. eapply delivered_prefix; [|exact Hf]. rewrite Hc. by apply prefix_app_r.
Qed.

Lemma on_sighup_keeps s0 db (p p' : Proc) o :
  reload_defined (Hangup db) → on_sighup db p = (p', o) →
  o = Ret tt ∧ (going s0 (p, Ret tt) → going s0 (p', Ret tt)).
Proof.
  unfold on_sighup, call_resolver. cbn [run_event reload_defined]. intros Hd.
  specialize (Hd (statics (resolver p))). rewrite stM_bind_eq. unfold configure.
  assert (Hno : ∀ e, snd (loadResolveDrivers (D:=D) db (statics (resolver p), [])) ≠ Throw e).
  { intros e. unfold loadResolveDrivers, stM_catch. by case_match; case_match. }
  destruct (loadResolveDrivers db (statics (resolver p), [])) as [[c l] [m|e|]] eqn:E; [|by destruct (Hno e)|done].
  assert (Hstep : ∀ s, run_event (Row:=Row) (Reconfigured db) (resolver p) = (s, Ret tt) →
    waiting s = waiting (resolver p) →
    going s0 (p, Ret tt) → going s0 (log_call (Reconfigured db) (set_resolver s p), Ret tt)).
  { intros s Hs Hw. eapply going_call; [done..|]. intros [Hr Ha]. split.
    - cbn. eapply run_snoc; [exact Hr|]. by apply step_event.
    - intros Ht i. unfold http. cbn. rewrite Hw. by apply Ha. }
  destruct m as [dbMap|]; intros [= <- <-]; (split; [done|]); apply Hstep; try done;
    cbn [run_event]; rewrite stM_bind_eq; unfold configure; by rewrite E.
Qed.

Lemma dispatcher_stop_keeps s0 (p : Proc) : going s0 (p, Ret tt) → going s0 (dispatcher_stop p, Ret tt).
Proof. eapply going_call; [done..|]. apply sound_put_kernel. Qed.

(** A whole run. *)
Lemma run_process_settles s0 l (p : Proc) :
  Forall reload_defined l → going s0 (p, Ret tt) → settled s0 (fst (run_process clock l p)).
Proof.
  intros Hd. revert p. induction Hd as [|o l Ho _ IH]; intros p Hp; cbn [run_process].
  { intros Hf. left. by apply Hp. }
  destruct o as [w|db|].
  - pose proof (dispatcher_loop_keeps s0 [w] p Hp) as Hl.
    destruct (dispatcher_loop clock [w] p) as [[p' o] [|]]; [done|].
    apply IH. intros Hf. split; [by apply Hl|done].
  - destruct (on_sighup db p) as [p' o] eqn:E.
    destruct (on_sighup_keeps s0 db p p' o Ho E) as [-> Hk]. by apply IH, Hk.
  - by apply IH, dispatcher_stop_keeps.
Qed.

(** *** Start-up *)

Lemma new_process_sound ep k u c : sound (new_Resolver (make_client ep k u) c) (new_Process ep k u c).
Proof. split; [apply run_nil|]. intros _ i. cbn. rewrite lookup_empty. by intros [? ?]. Qed.

Lemma process_configure_sound s0 db (p p' : Proc) b :
  process_configure db p = (p', Ret b) → sound s0 p → sound s0 p'.
Proof.
  unfold process_configure. destruct (configure db (resolver p)) as [s o] eqn:E. intros [= <- ->] [Hr Ha].
  pose proof (configure_waiting db (resolver p)) as Hw. rewrite E in Hw. cbn [fst] in Hw. split.
  - cbn. eapply run_snoc; [exact Hr|]. apply step_event; [done|]. cbn. by rewrite stM_bind_eq, E.
  - intros Ht i. unfold http. cbn. rewrite Hw. by apply Ha.
Qed.

Lemma make_transport_sound s0 ep urls uri_c (p p' : Proc) :
  make_transport ep urls uri_c p = (p', Ret tt) → sound s0 p → sound s0 p'.
Proof.
  unfold make_transport. destruct (bind_endpoints _ _ _ _) as [[[h k] r]|e|]; [|done..].
  intros [= <-] Hs. by apply sound_put_kernel.
Qed.

Lemma make_terminator_sound s0 ep (p : Proc) : sound s0 p → sound s0 (make_terminator ep p).
Proof. intros Hs. unfold make_terminator. destruct (init_event _ _ _) as [[t k] r]. by apply (sound_put_kernel s0 k p). Qed.

Lemma boot_sound s0 ep db urls uri_c (p p' : Proc) :
  boot ep db urls uri_c p = (p', Ret tt) → sound s0 p → sound s0 p'.
Proof.
  unfold boot. rewrite stM_bind_eq. destruct (process_configure db p) as [p1 [b|e|]] eqn:E1; [|done..].
  rewrite stM_bind_eq. destruct b; [|done]. cbn [when negb mret stM_mret]. rewrite stM_bind_eq.
  destruct (make_transport ep urls uri_c p1) as [p2 [[]|e|]] eqn:E2; [|done..].
  rewrite stM_bind_eq. cbn. intros [= <-] Hs.
  apply make_terminator_sound. eapply (make_transport_sound s0 _ _ _ _ _ E2), process_configure_sound; eauto.
Qed.

(** Nothing is received before the loop. *)
Lemma boot_receptions ep db urls uri_c (p p' : Proc) :
  boot ep db urls uri_c p = (p', Ret tt) → receptions p' = receptions p.
Proof.
  unfold boot, process_configure, make_transport. rewrite stM_bind_eq.
  destruct (configure db (resolver p)) as [s [[|]|e|]]; [|done..].
  rewrite stM_bind_eq. cbn [when negb mret stM_mret]. rewrite stM_bind_eq.
  destruct (bind_endpoints _ _ _ _) as [[[h k] r]|e|]; [|done..].
  rewrite stM_bind_eq. cbn. intros [= <-]. unfold make_terminator. by destruct (init_event _ _ _) as [[t k'] r'].
Qed.

(** The process, started by [main] on a kernel and run. *)
Definition executes (ep : Z) (k : K) (u : multi_handle) (c : C) (db : M (list Row)) (urls : list str)
  (uri_c : UriComponents) (l : list (@occurrence Row)) (x : Proc * M unit * bool) : Prop :=
  ∃ p0, boot ep db urls uri_c (new_Process ep k u c) = (p0, Ret tt) ∧ run_process clock l p0 = x.

Lemma executes_settled ep k u c db urls uri_c l p o stopped :
  executes ep k u c db urls uri_c l (p, o, stopped) → Forall reload_defined l →
  settled (new_Resolver (make_client ep k u) c) (p, o).
Proof.
  intros (p0 & Hb & Hr) Hl. set (s0 := new_Resolver _ _).
  pose proof (run_process_settles s0 l p0 Hl) as Hs. rewrite Hr in Hs. apply Hs.
  intros _. split; [|done]. split.
  - eapply boot_sound; [exact Hb|]. apply new_process_sound.
  - unfold full. cbn. rewrite (boot_receptions _ _ _ _ _ _ Hb). by apply not_elem_of_nil.
Qed.

Lemma always_takes_no_refusal : always_takes → ¬ may_refuse (H:=HttpClient).
Proof. intros Ht (hr & h & h' & w & E). specialize (Ht hr h). by rewrite E in Ht. Qed.

(** ** Properties *)

(** C2. The process stays up: once started, whatever the loop is woken for
    (datagrams, the sockets, the timer and the notifications of the HTTP
    client, the terminator), whatever libcurl does within its contract, and
    whenever a signal comes between two waits, nothing is thrown out of the
    loop and nothing undefined is done, and the calls the dispatcher made are
    a run of the resolver, of which all the theorems on runs speak; except
    that the run ends in undefined behaviour exactly when a datagram fills the
    2048 bytes of the transport's buffer.  This holds when every response
    delivered has less than 8 MiB and the rows of every reload make their
    drivers without undefined behaviour (a row of a type the program does not
    know does not, see [getID_defined_iff]). *)
Theorem process_stays_up ep k u c db urls uri_c l p o stopped :
  executes ep k u c db urls uri_c l (p, o, stopped) → Forall reload_defined l → delivered_fit p →
  (full p → o = Undef) ∧
  (¬ full p → o = Ret tt ∧ run (Row:=Row) (new_Resolver (make_client ep k u) c) (calls p) (resolver p)).
Proof.
  intros Hx Hl Hf.
  destruct (executes_settled ep k u c db urls uri_c l p o stopped Hx Hl Hf) as [[[[? _] ?] ?]|[? ?]]; by split.
Qed.

(** C1. End to end: when the HTTP client takes every request, no number is
    received twice and no datagram filled the transport's buffer, a request
    received by the process is answered exactly once or is waited for:
    libcurl has its transfer in flight or its response is in the queue.  So
    when the HTTP client is idle, every request received has been answered,
    once.  As for [process_stays_up], the responses delivered have less than
    8 MiB and the rows of the reloads do nothing undefined. *)
Theorem process_answers_every_request ep k u c db urls uri_c l p o stopped i :
  executes ep k u c db urls uri_c l (p, o, stopped) → Forall reload_defined l → delivered_fit p →
  ¬ full p → always_takes → (0 ≤ i < 2 ^ 32)%Z → requests i (calls p) ≤ 1 →
  answers i (trace (resolver p)) + pending i (waiting_requests (waiting (resolver p)))
    = requests i (calls p) ∧
  (pending i (waiting_requests (waiting (resolver p))) = 1 → i ∈ awaited (http p)) ∧
  (idle (world p) → answers i (trace (resolver p)) = requests i (calls p)).
Proof.
  intros Hx Hl Hf Hnf Ht Hi Hle.
  destruct (executes_settled ep k u c db urls uri_c l p o stopped Hx Hl Hf) as [[[[Hrun Ha] _] _]|[? _]]; [|done].
  pose proof (run_answers i _ _ _ Hi (always_takes_no_refusal Ht)
    (eq_refl : waiting_requests (waiting (new_Resolver (make_client ep k u) c)) = ∅) eq_refl Hrun Hle) as Hans.
  assert (Hp : pending i (waiting_requests (waiting (resolver p))) = 1 → i ∈ awaited (http p)).
  { intros Hp. apply (Ha Ht). unfold pending in Hp. cbn [fst] in *. by destruct (_ !! i). }
  cbn [fst] in *. split; [exact Hans|]. split; [exact Hp|]. intros [Hfl Hq].
  assert (Hz : pending i (waiting_requests (waiting (resolver p))) = 0).
  { unfold pending in *. destruct (_ !! i); [|done]. exfalso. specialize (Hp eq_refl).
    unfold awaited in Hp. fold (world p) in Hp. rewrite Hfl, Hq in Hp. by apply elem_of_nil in Hp. }
  lia.
Qed.

End Spec.
