(* ===== verification/System.v ===== *)
(** * The program (src/yeti_lnp_resolver.cpp, src/sig.cpp)

    [main] and the signal handler, over the entry points of the components:
    what is started in which order, what a failure leaves, and what a signal
    does. *)
From S2P Require Import Prelude.
From S2P Require Import CLib.
From S2P Require Import Exceptions.

(** ** Definitions *)

(** The entry points [main] and the signal handler call, on the state [S] of
    the process. *)
Class Program (S : Type) : Type := {
  load_config : str → stM exn S bool;         (* load_cfg *)
  metrics_start : stM exn S unit;             (* prometheus_exporter::start *)
  resolver_instance : stM exn S unit;         (* Resolver::Resolver, the first time *)
  resolver_configure : stM exn S bool;        (* Resolver::configure *)
  transport_instance : stM exn S unit;        (* Transport::Transport, the first time *)
  transport_set_handler : stM exn S unit;     (* Transport::set_handler *)
  cache_start : stM exn S unit;               (* thread::start of the cache *)
  dispatcher_loop : stM exn S unit;           (* Dispatcher::loop *)
  cache_stop : stM exn S unit;                (* thread::stop of the cache *)
  dispatcher_stop : stM exn S unit            (* Dispatcher::stop *)
}.

(** [SIGHUP], [SIGINT], [SIGTERM]; the disposition of a signal. *)
Definition SIGHUP : Z := 1.
Definition SIGINT : Z := 2.
Definition SIGTERM : Z := 15.

Inductive disposition : Type := SIG_DFL | SIG_IGN | Handled.

#[export] Instance disposition_eq_dec : EqDecision disposition.
Proof. solve_decision. Defined.

(** [set_sighandlers]: the array of signals ends with a zero; a signal that
    was ignored goes on being ignored. *)
Fixpoint set_handlers (sigs : list Z) (m : gmap Z disposition) : gmap Z disposition :=
  match sigs with
  | [] => m
  | sig :: r =>
      if (sig =? 0)%Z then m else
      let was := default SIG_DFL (m !! sig) in
      let m := <[sig := Handled]> m in
      set_handlers r (if bool_decide (was = SIG_IGN) then <[sig := SIG_IGN]> m else m)
  end.

Definition sigs : list Z := [SIGTERM; SIGINT; SIGHUP; 0%Z].

Definition set_sighandlers : gmap Z disposition → gmap Z disposition := set_handlers sigs.

Section System.
Context {S : Type} `{Program S}.

(** [sig_handler] *)
Definition sig_handler (sig : Z) : stM exn S unit :=
  if (SIGHUP =? sig)%Z then
    resolver_instance;;
    resolver_configure;;
    mret tt
  else
    cache_stop;;
    dispatcher_stop.

Definition EXIT_SUCCESS : Z := 0.
Definition EXIT_FAILURE : Z := 1.

(** The block of [main]. *)
Definition startup (cfg_path : str) : stM exn S unit :=
  loaded ← load_config cfg_path;
  when (negb loaded) (mthrow (StringExn #"can't load config"));;
  metrics_start;;
  resolver_instance;;
  configured ← resolver_configure;
  when (negb configured) (mthrow (StringExn #"can't init resolvers"));;
  transport_instance;;
  transport_set_handler;;
  cache_start;;
  dispatcher_loop.

(** [main]: strings and the exceptions of the standard library are caught;
    every class the program throws is one of them. *)
Definition main (cfg_path : str) : stM exn S Z :=
  stM_catch (startup cfg_path;; mret EXIT_SUCCESS) (fun _ => mret EXIT_FAILURE).

(** The parts of [startup], in order; each says whether the next may run. *)
Definition require_true (m : stM exn S bool) (what : str) : stM exn S unit :=
  b ← m; when (negb b) (mthrow (StringExn what)).

Definition parts (cfg_path : str) : list (stM exn S unit) :=
  [require_true (load_config cfg_path) #"can't load config"; metrics_start; resolver_instance;
   require_true resolver_configure #"can't init resolvers"; transport_instance;
   transport_set_handler; cache_start; dispatcher_loop].

(** The parts run up to the first that fails: how many returned, the state,
    and how the last one ended. *)
Fixpoint run_parts (l : list (stM exn S unit)) (s : S) : nat * S * M unit :=
  match l with
  | [] => (0, s, Ret tt)
  | m :: r =>
      match m s with
      | (s, Ret _) => let '(n, s, o) := run_parts r s in (1 + n, s, o)
      | (s, o) => (0, s, o)
      end
  end.

(** ** Lemmas *)

Fixpoint sequence (l : list (stM exn S unit)) : stM exn S unit :=
  match l with [] => mret tt | m :: r => m;; sequence r end.

Lemma sequence_run_parts l s :
  sequence l s = (snd (fst (run_parts l s)), snd (run_parts l s)).
Proof.
  revert s. induction l as [|m l IH]; intros s; cbn; [done|]. rewrite stM_bind_eq.
  destruct (m s) as [s' [[]|e|]]; [|done|done]. rewrite IH. by destruct (run_parts l s') as [[n s''] o].
Qed.

Lemma run_parts_length l s n s' o : run_parts l s = (n, s', o) →
  n ≤ length l ∧ (o = Ret tt ↔ n = length l).
Proof.
  revert s n. induction l as [|m l IH]; intros s n; cbn; [by intros [= <- <- <-]|].
  destruct (m s) as [s1 [[]|e|]]; [|intros [= <- <- <-]; split; [lia|by split]..].
  destruct (run_parts l s1) as [[k s2] o2] eqn:E. intros [= <- -> ->].
  destruct (IH _ _ E) as [Hn Ho]. split; [lia|]. rewrite Ho. lia.
Qed.

Lemma bind_unit_ret (m : stM exn S unit) s : (m;; mret tt) s = m s.
Proof. rewrite stM_bind_eq. by destruct (m s) as [s' [[]|e|]]. Qed.

Lemma require_true_bind {A} (m : stM exn S bool) what (k : stM exn S A) s :
  (b ← m; when (negb b) (mthrow (StringExn what));; k) s = (require_true m what;; k) s.
Proof.
  unfold require_true. rewrite !stM_bind_eq. by destruct (m s) as [s' [[]|e|]].
Qed.

Lemma stM_bind_ext {A B} (m : stM exn S A) (f g : A → stM exn S B) s :
  (∀ a s', f a s' = g a s') → (m ≫= f) s = (m ≫= g) s.
Proof. intros E. rewrite !stM_bind_eq. destruct (m s) as [s' [a|e|]]; [apply E|done|done]. Qed.

Lemma startup_sequence path s : startup path s = sequence (parts path) s.
Proof.
  unfold startup, parts. rewrite require_true_bind. cbn [sequence].
  apply stM_bind_ext. intros _ s1. apply stM_bind_ext. intros _ s2. apply stM_bind_ext. intros _ s3.
  rewrite require_true_bind. repeat (apply stM_bind_ext; intros _ ?). by rewrite bind_unit_ret.
Qed.

End System.
