(* ===== verification/Scenario.v ===== *)
(** * A concrete run of the resolver

    Rows of texts, the drivers of Drivers.v made from them, an HTTP client
    that takes every request, another that may refuse one, and a short sequence of events: the theorems
    of the resolver at work on closed inputs. *)
From stdpp Require Import vector.
From S2P Require Import Prelude.
From S2P Require Import CLib.
From S2P Require Import Exceptions.
From S2P Require Import EventLoop.
From S2P Require Import Transport.
From S2P Require Import Protocol.
From S2P Require Import Driver.
From S2P Require Import Resolver.
From S2P Require Import ResolverExec.
From S2P Require Import ResolverSpec.
From S2P Require Import ResolverMetrics.
From S2P Require Import CFloat.
From S2P Require Import CJson.
From S2P Require Import CsvClient.
From S2P Require Import DriverConfig.
From S2P Require Import Thread.
From S2P Require Import SipClient.
From S2P Require Import Drivers.
From S2P Require Import DriversSpec.

(** ** Definitions *)

(** *** The parts outside the program *)

(** libre answers every call; no SIP server does. *)
Definition re_ok (c : re_call) (l : unit) : unit * Z := (l, 0%Z).
Definition no_sip (r : ResolverRequest) (i : CSipClient) (uri : str)
  : option (list (option sip_msg)) := Some [].
Definition idle_client : CSipClient := {|
  mContactField := None; mFromName := None; mFromUri := None; mTimeout := sDefTimeout;
  mUserAgent := [] |}.
Definition sample_file (path : str) : option str := Some sample_csv.
Definition no_settings : sip_settings := {| from_name := []; from_uri := []; contact_data := [] |}.

#[export] Instance sample_driver : CDriver driver := driver_CDriver idle_client no_sip.
#[export] Instance sample_driver_laws : CDriverLaws driver := driver_laws idle_client no_sip.
#[export] Instance sample_factory : DriverFactory driver text_row (driver_statics (L:=unit)) :=
  driver_instantiate re_ok sample_file no_settings.

(** An HTTP client that takes every request, and one that refuses all. *)
Record Taking : Type := { taken : list HttpRequest }.
#[export] Instance taking_client : HttpClient Taking :=
  fun hr h => ({| taken := taken h ++ [hr] |}, Ret 0%Z).
#[export] Instance taking_laws : HttpClientLaws Taking.
Proof. by split. Qed.

Inductive Refusing : Type := Build_Refusing.
#[export] Instance refusing_client : HttpClient Refusing :=
  fun _ h => (h, Throw (HttpError #"URL processing error")).
#[export] Instance refusing_laws : HttpClientLaws Refusing.
Proof. split; [done|]. intros hr h e [= <-]. by eexists. Qed.

(** *** The run *)

Definition csv_text : text_row := list_to_map [
  (#"parameters", Some (quoted #"{'csv_file_path': '/lnp.csv'}"));
  (#"database_type", Some #"Lnp::DatabaseCsv"); (#"id", Some #"1"); (#"name", Some #"table") ].

Definition thinq_text : text_row := list_to_map [
  (#"parameters", Some (quoted
     #"{'host': 'h', 'username': 'u', 'token': 't', 'port': 0, 'timeout': 900}"));
  (#"database_type", Some #"Lnp::DatabaseThinq"); (#"id", Some #"2"); (#"name", Some #"thinq") ].

Definition peer : ClientInfo :=
  {| addr := {| sin_addr := 1; sin_port := 5060 |}; addr_size := 16; recv_fd := 7 |}.
Definition other_peer : ClientInfo :=
  {| addr := {| sin_addr := 2; sin_port := 5060 |}; addr_size := 16; recv_fd := 7 |}.

Definition asks {H} (ci : ClientInfo) (i db : Z) (number : str) : @event H text_row :=
  Received 100 140 (recv_of ci (encode_tagged i db number)).
Definition loads {H} : @event H text_row := Reconfigured (Ret [csv_text; thinq_text]).
Definition replies {H} (i : Z) (text : str) : @event H text_row :=
  Responded 150 {| resp_id := i; is_success := true; resp_data := text |}.

Definition no_statics : driver_statics (L:=unit) := {|
  sConfigType := ECONFIG_DATA_INVALID; sip_static := None;
  sip_client := {| sInstance := None; sip_thread := new_thread; pointers := null_statics; library := tt |} |}.

(** The resolver of these parts, over an HTTP client. *)
Definition Resolver_of (H : Type) : Type := @Resolver driver H (driver_statics (L:=unit)).

Definition start_taking : Resolver_of Taking := new_Resolver {| taken := [] |} no_statics.
Definition start_refusing : Resolver_of Refusing := new_Resolver Build_Refusing no_statics.

(** Running a sequence of events. *)
Fixpoint exec {H} `{HttpClient H} (es : list (@event H text_row)) (s : Resolver_of H)
  : Resolver_of H :=
  match es with [] => s | e :: es => exec es (fst (run_event e s)) end.

Fixpoint exec_ok {H} `{HttpClient H} (es : list (@event H text_row)) (s : Resolver_of H)
  : bool :=
  match es with
  | [] => true
  | e :: es => match snd (run_event e s) with Ret tt => exec_ok es (fst (run_event e s)) | _ => false end
  end.

(** ** Lemmas *)

Lemma run_exec_app {H} `{HttpClient H} es es0 (s0 s : Resolver_of H) :
  run s0 es0 s → Forall wf_event es → exec_ok es s = true → run s0 (es0 ++ es) (exec es s).
Proof.
  revert es0 s. induction es as [|e es IH]; intros es0 s Hr Hw Hok; [by rewrite app_nil_r|].
  apply Forall_cons in Hw as [Hwe Hw]. cbn [exec exec_ok] in *.
  destruct (run_event e s) as [s1 [[]|x|]] eqn:E; try done. cbn [fst snd] in *.
  replace (es0 ++ e :: es) with ((es0 ++ [e]) ++ es) by (by rewrite <- app_assoc).
  apply IH; [|done|done]. apply (run_snoc _ _ _ s); [done|]. by apply step_event.
Qed.

Lemma step_exec {H} `{HttpClient H} e (s s' : Resolver_of H) : step s e s' → s' = exec [e] s.
Proof. intros Hs. destruct Hs as [s0 e0 s1 _ E]. cbn [exec]. by rewrite E. Qed.

Lemma run_exec {H} `{HttpClient H} es (s0 : Resolver_of H) :
  Forall wf_event es → exec_ok es s0 = true → run s0 es (exec es s0).
Proof. intros. by apply (run_exec_app es [] s0 s0); [apply run_nil|..]. Qed.

Lemma asks_wf {H} ci i db number :
  length number < 1000 → (0 ≤ recv_fd ci)%Z → wf_event (H:=H) (asks ci i db number).
Proof.
  intros Hl Hfd. split; [|done]. unfold wf_RecvData, recv_of, encode_tagged.
  cbn [data length_]. rewrite !length_app, length_replicate. rewrite Nat2Z.id.
  change (length (le32 i)) with 4. cbn [length]. unfold MSG_SZ.
  split; [lia|]. split; [lia|].
  rewrite lookup_app_r by (rewrite !length_app; cbn; lia).
  apply lookup_replicate_2. rewrite !length_app. cbn. lia.
Qed.

Lemma replies_wf {H} i text : response_fits text → wf_event (H:=H) (replies i text).
Proof. done. Qed.

Lemma taking_never_refuses : ¬ may_refuse (H:=Taking).
Proof. intros (hr & h & h' & w & [=]). Qed.

(** *** Events of the witnesses *)

Definition reply_text : str := quoted #"{'lrn':'777'}".
Definition before {H} : list (@event H text_row) := [loads; asks peer 9 1 #"0730"; asks peer 10 2 #"555"].
Definition reply {H} : @event H text_row := replies 10 reply_text.

Lemma reply_wf {H} : wf_event (H:=H) reply.
Proof. apply replies_wf. by vm_compute. Qed.

Ltac wf_events :=
  repeat (apply Forall_cons_2; [first [exact I | apply reply_wf | apply asks_wf; [cbn; lia|done]]|]);
  apply Forall_nil_2.

Lemma before_wf {H} : Forall (wf_event (H:=H)) before.
Proof. wf_events. Qed.

Lemma before_run : run start_taking before (exec before start_taking).
Proof. apply run_exec; [apply before_wf|by vm_compute]. Qed.

Lemma all_run : run start_taking (before ++ [reply]) (exec (before ++ [reply]) start_taking).
Proof.
  apply run_exec; [|by vm_compute].
  apply Forall_app. split; [apply before_wf|]. constructor; [apply reply_wf|constructor].
Qed.

(** ** Properties at work *)

Lemma resolver_refines_contract_witness :
  ∃ l, trace (exec (before ++ [reply]) start_taking) = trace (exec before start_taking) ++ l ∧
    contract (may_refuse (H:=Taking)) (owed (exec before start_taking)) (reply (H:=Taking)) (sent l)
      (owed (exec (before ++ [reply]) start_taking)).
Proof.
  apply (resolver_refines_contract {| taken := [] |} no_statics before).
  - apply before_run.
  - apply step_event; [apply reply_wf|]. vm_compute. reflexivity.
Defined.

Lemma answered_exactly_once_witness :
  answers 10 (trace (exec (before ++ [reply]) start_taking))
  + pending 10 (waiting_requests (waiting (exec (before ++ [reply]) start_taking))) = 1.
Proof.
  rewrite (answered_exactly_once {| taken := [] |} no_statics 10 (before ++ [reply])).
  - vm_compute. reflexivity.
  - lia.
  - apply taking_never_refuses.
  - apply all_run.
  - vm_compute. lia.
Defined.

Lemma handlers_return_witness :
  ∃ s', run_event reply (exec before start_taking) = (s', Ret tt) ∧
    mDriversMap s' = mDriversMap (exec before start_taking) ∧
    statics s' = statics (exec before start_taking) ∧
    trace (exec before start_taking) `prefix_of` trace s'.
Proof. apply (handlers_return _ reply); [apply reply_wf|reflexivity]. Defined.

Lemma waiting_invariant_witness :
  waiting_ok (exec before start_taking) ∧
  pending 10 (waiting_requests (waiting (exec before start_taking))) = 1.
Proof.
  split; [|vm_compute; reflexivity].
  apply (waiting_invariant {| taken := [] |} no_statics before), before_run.
Defined.

(** The same number from another client, while the first one waits. *)
Definition again {H} : @event H text_row := asks other_peer 10 2 #"556".

Lemma number_in_use_keeps_first_witness :
  ∃ r1, req_client_info r1 = peer ∧
    waiting_requests (waiting (exec (before ++ [again]) start_taking)) !! 10%Z = Some r1 ∧
    waiting_requests (waiting (exec (before ++ [again; reply]) start_taking)) !! 10%Z = None ∧
    ∃ l, trace (exec (before ++ [again; reply]) start_taking)
         = trace (exec (before ++ [again]) start_taking) ++ l ∧
         answer 10 (req_client_info r1) (sent l).
Proof.
  eexists. split; [|eapply (number_in_use_keeps_first (exec before start_taking)
    (exec (before ++ [again]) start_taking) (exec (before ++ [again; reply]) start_taking) 10 _
    100 140 (recv_of other_peer (encode_tagged 10 2 #"556")) 150
    {| resp_id := 10; is_success := true; resp_data := reply_text |})].
  - shelve.
  - apply (run_waiting_ok start_taking _ before); [apply map_Forall_empty|apply before_run].
  - vm_compute. reflexivity.
  - apply step_event; [by apply asks_wf; [cbn; lia|]|]. vm_compute. reflexivity.
  - reflexivity.
  - apply step_event; [apply reply_wf|]. vm_compute. reflexivity.
  Unshelve. vm_compute. reflexivity.
Defined.

(** The events after the drivers were loaded. *)
Definition later {H} : list (@event H text_row) := [asks peer 9 1 #"0730"; asks peer 10 2 #"555"; reply].

Lemma later_run : run (exec [loads] start_taking) later (exec later (exec [loads] start_taking)).
Proof.
  apply run_exec; [|by vm_compute]. wf_events.
Qed.

Lemma later_once {H} i : requests (H:=H) i later ≤ 1.
Proof.
  unfold requests, count, later. cbn [List.filter requests_to asks reply replies].
  replace (request_id (decode (valid_bytes (recv_of peer (encode_tagged 9 1 #"0730")))))
    with (Some 9%Z) by (vm_compute; reflexivity).
  replace (request_id (decode (valid_bytes (recv_of peer (encode_tagged 10 2 #"555")))))
    with (Some 10%Z) by (vm_compute; reflexivity).
  repeat case_bool_decide; simplify_eq; cbn; lia.
Qed.

Lemma loaded_ok : drivers_ok (mDriversMap (exec [loads] start_taking)).
Proof.
  apply (bool_decide_unpack (map_Forall (fun u d => getUniqueId d = u) _)).
  vm_compute. exact I.
Qed.

Lemma configure_spec_witness :
  let s := exec [loads] start_taking in
  drivers_ok (mDriversMap s) ∧ size (mDriversMap s) = 2.
Proof.
  split; [|vm_compute; reflexivity].
  assert (H : configure (Ret [csv_text; thinq_text]) start_taking
              = (exec [loads] start_taking, Ret true)) by (vm_compute; reflexivity).
  destruct (configure_spec _ _ _ _ H) as (_ & _ & Ht & _).
  destruct (Ht eq_refl) as (rows & l & _ & _ & Hok & _). exact Hok.
Defined.

Lemma drivers_keep_interface_witness :
  let d := CHttpThinqDriver {| thinq_base := {| mUniqId := 2; mLabel := #"t" |}; thinq_host := #"h";
      thinq_port := 0; thinq_user := #"u"; thinq_token := #"t"; thinq_timeout := 900 |} #"p" #"s" in
  let r := new_ResolverRequest 0 in
  let s := {| waiting_requests := ∅; http_client := {| taken := [] |} |} in
  resolve_shape r s (driver_do_resolve idle_client no_sip d (r, s)) ∧
  defined (snd (driver_do_parse d reply_text r)).
Proof.
  intros d r s. destruct (drivers_keep_interface idle_client no_sip d r s) as [[H _] Hp].
  split; [exact H|]. apply (Hp reply_text). vm_compute. reflexivity.
Defined.

(** *** A refused request *)

(** A client that refuses its first request and takes the others. *)
Record Moody : Type := { refused_one : bool }.
#[export] Instance moody_client : HttpClient Moody :=
  fun _ h => if refused_one h then (h, Ret 0%Z)
             else ({| refused_one := true |}, Throw (HttpError #"URL processing error")).

#[export] Instance moody_laws : HttpClientLaws Moody.
Proof.
  split; intros hr h; unfold make_request, moody_client; destruct (refused_one h); [done..|done|].
  intros e [= <-]. by eexists.
Qed.

Definition start_moody : Resolver_of Moody := new_Resolver {| refused_one := false |} no_statics.

(** The request of the first client, and the driver it asks for. *)
Definition first_request : ResolverRequest :=
  fst (parsed peer (new_ResolverRequest 100) (decode (valid_bytes (recv_of peer (encode_tagged 10 2 #"555"))))).
Definition loaded_moody : Resolver_of Moody := exec [loads] start_moody.
Definition thinq_driver : driver :=
  Eval vm_compute in default (CSipDriver {| sip_base := {| mUniqId := 0; mLabel := [] |}; sip_host := [];
      sip_port := 0; sip_timeout := 0 |} [] [])
    (mDriversMap loaded_moody !! 2%Z).
Definition first_http_request : HttpRequest :=
  match thinq_driver with CHttpThinqDriver cfg p s => thinq_request cfg p s first_request | _ => {|
    hr_id := 0; hr_url := None; hr_auth_type := AUTH_NONE; hr_login := None; hr_pass := None;
    hr_verify_ssl := false; hr_timeout_ms := 0; hr_headers := [] |} end.

Lemma first_refused :
  refuses first_request loaded_moody thinq_driver first_http_request {| refused_one := true |}
    #"URL processing error".
Proof. split_and!; vm_compute; reflexivity. Qed.

(** The second client asks under the number of the first, and the reply to
    its request goes to the first. *)
Lemma refused_request_misdelivers_witness :
  let s1 := exec [asks peer 10 2 #"555"] loaded_moody in
  let s2 := exec [asks other_peer 10 2 #"556"] s1 in
  let s3 := exec [reply] s2 in
  is_Some (waiting_requests (waiting s1) !! 10%Z) ∧
  (dg_addr <$> sent (trace s3)) = [addr peer; addr peer; addr other_peer; addr peer] ∧
  waiting_requests (waiting s3) !! 10%Z = None ∧
  ∃ l, trace s3 = trace s2 ++ l ∧ answer 10 peer (sent l).
Proof.
  intros s1 s2 s3. split; [vm_compute; by eexists|]. split; [vm_compute; reflexivity|].
  assert (Hw : wf_event (H:=Moody) (asks peer 10 2 #"555")) by (apply asks_wf; [cbn; lia|done]).
  destruct (refused_request_misdelivers loaded_moody 100 140 (recv_of peer (encode_tagged 10 2 #"555")) 10
    first_request thinq_driver first_http_request {| refused_one := true |} #"URL processing error")
    as (s1' & Hst & _ & _ & Hlater).
  - apply map_Forall_empty.
  - reflexivity.
  - exact Hw.
  - vm_compute. reflexivity.
  - vm_compute. reflexivity.
  - exact first_refused.
  - pose proof (step_exec _ _ _ Hst : s1' = s1) as ->.
    destruct (Hlater [asks other_peer 10 2 #"556"] s2) as [_ Hreply].
    + apply run_exec; [wf_events|vm_compute; reflexivity].
    + repeat constructor.
    + apply (Hreply 150%Z {| resp_id := 10; is_success := true; resp_data := reply_text |} s3); [done|].
      apply step_event; [apply reply_wf|]. vm_compute. reflexivity.
Defined.
