(* ===== verification/OutputsExample.v ===== *)
(** * Counters and statements of a concrete run

    The run of Scenario.v with a registry of counters and a database: the
    theorems of Outputs.v at work on closed inputs. *)
From stdpp Require Import vector.
From S2P Require Import Prelude.
From S2P Require Import CLib.
From S2P Require Import Exceptions.
From S2P Require Import EventLoop.
From S2P Require Import Transport.
From S2P Require Import Protocol.
From S2P Require Import Driver.
From S2P Require Import Resolver.
From S2P Require Import ResolverExec.
From S2P Require Import ResolverSpec.
From S2P Require Import ResolverMetrics.
From S2P Require Import Config.
From S2P Require Import Metrics.
From S2P Require Import Cache.
From S2P Require Import CacheSpec.
From S2P Require Import Outputs.
From S2P Require Import Drivers.
From S2P Require Import Scenario.

(** ** Definitions *)

Definition served : Resolver_of Taking := exec later (exec [loads] start_taking).

Definition listen_on : prometheus_cfg := {| prom_host := #"127.0.0.1"; prom_port := 9091 |}.

(** The cache thread takes the first entry and writes it. *)
Definition cache_steps : list step_of :=
  Run false :: flat_map (fun e => [Push e; Signal]) (cache_entries (trace served)) ++ replicate 5 (Run false).

(** ** Lemmas *)

Lemma exec_cons {H} `{HttpClient H} e es (s : Resolver_of H) : exec (e :: es) s = exec es (exec [e] s).
Proof. done. Qed.

Lemma served_run : run start_taking (loads :: later) served.
Proof. unfold served. rewrite <- exec_cons. apply run_exec; [wf_events|by vm_compute]. Qed.

(** ** Witnesses *)

Definition started := exporter_start ∅ listen_on (new_exporter, toy_registry).

Lemma exported_balance_witness :
  snd started = Ret tt ∧ exposer (fst (fst started)) = true ∧
  ∃ r3, exporter_calls (metric_calls (trace served)) (fst started) = ((fst (fst started), r3), Ret tt) ∧
    ∀ u d, mDriversMap (exec [loads] start_taking) !! u = Some d →
      ∃ n f k, counter_value COUNT (driver_labels (getName d) u) r3 = Some n ∧
        counter_value FAILED (driver_labels (getName d) u) r3 = Some f ∧
        counter_value FINISHED (driver_labels (getName d) u) r3 = Some k ∧
        n = (f + k + Z.of_nat (pending_for u (waiting_requests (waiting served))))%Z.
Proof.
  assert (Ho : snd started = Ret tt) by (vm_compute; reflexivity).
  assert (He : exposer (fst (fst started)) = true) by (vm_compute; reflexivity).
  split; [exact Ho|]. split; [exact He|].
  assert (Hs : started = (fst started, Ret tt)) by (rewrite <- Ho; by destruct started).
  unfold started in Hs at 1. destruct started as [[e r2] o]. cbn [fst snd] in *.
  apply (exported_balance ∅ listen_on toy_registry r2 e (Ret [csv_text; thinq_text])
           start_taking (exec [loads] start_taking) served later).
  - apply taking_never_refuses.
  - done.
  - by constructor.
  - vm_compute. reflexivity.
  - apply later_run.
  - repeat constructor.
  - apply later_once.
  - done.
  - vm_compute. discriminate.
  - exact Hs.
  - exact He.
Defined.

Lemma cached_results_witness :
  let k := after cache_steps good_db in
  (attempted k).*2 = [true] ∧
  pushes cache_steps = (attempted k).*1 ++ held k ++ q k ∧
  (∃ calls, db_calls good_db calls (Cache.db k) ∧ statements calls = attempted k) ∧
  Forall (fun e => ∃ (d : driver) r l1 l2, getDriverType d = DriverTypeTagged ∧
    e = new_cache_entry (getUniqueId d) (req_data r) (req_result r) ∧
    trace served = l1 ++ CacheSync e :: (Send <$> send_reply r) ++ l2) (attempted k).*1.
Proof.
  intros k. split; [vm_compute; reflexivity|].
  apply (cached_results good_db k cache_steps start_taking served (loads :: later)).
  - done.
  - exact served_run.
  - vm_compute. reflexivity.
  - vm_compute. discriminate.
  - exists []. vm_compute. reflexivity.
Defined.
