(* ===== verification/ProcessExample.v ===== *)
(** * A concrete run of the process

    Real drivers, a small libcurl and a small kernel: two clients ask, one
    is answered from a file, the other one over HTTP, and the process is
    reloaded and terminated by signals. *)
From S2P Require Import Prelude.
From S2P Require Import CLib.
From S2P Require Import Exceptions.
From S2P Require Import UriParser.
From S2P Require Import EventLoop.
From S2P Require Import Transport.
From S2P Require Import Protocol.
From S2P Require Import Driver.
From S2P Require Import CurlExample.
From S2P Require Import Resolver.
From S2P Require Import ResolverSpec.
From S2P Require Import CsvClient.
From S2P Require Import DriverConfig.
From S2P Require Import SipClient.
From S2P Require Import Drivers.
From S2P Require Import DriversSpec.
From S2P Require Import AsyncHttp.
From S2P Require Import AsyncHttpSpec.
From S2P Require Import Process.
From S2P Require Import ProcessSpec.
From S2P Require Import Scenario.

(** ** Definitions *)

(** A kernel: the next free descriptor and the datagrams that wait. *)
Record sim : Type := { next_fd : Z; inbox : list str }.

Definition open_fd (k : sim) : sim * Z := ({| next_fd := next_fd k + 1; inbox := inbox k |}, next_fd k).

#[export] Instance sim_epoll : Epoll sim := {
  epoll_ctl := fun _ _ _ _ k => (k, 0%Z);
  interest := fun _ _ => ∅
}.

#[export] Instance sim_fds : KernelFds sim := {
  timerfd_create := open_fd;
  timerfd_settime := fun _ _ k => k;
  timerfd_read := fun _ k => (k, (8%Z, false));
  eventfd := open_fd;
  eventfd_write := fun _ _ k => (k, 0%Z);
  eventfd_read := fun _ k => (k, 0%Z);
  close_fd := fun _ k => k
}.

(** A datagram is cut to the size asked for. *)
#[export] Instance sim_sockets : Sockets sim := {
  sys_socket := open_fd;
  sys_bind _ _ k := (k, 0%Z);
  sys_close _ k := k;
  sys_recvfrom _ n k :=
    match inbox k with
    | [] => (k, (-1, [], zero_sockaddr, 0)%Z)
    | d :: q => let d := take n d in
                ({| next_fd := next_fd k; inbox := q |}, (Z.of_nat (length d), d, peer0, 16%Z))
    end;
  sys_errno _ := 11%Z;
  inet_addr _ := 0%Z
}.

#[export] Instance sim_sockets_laws : SocketsLaws sim.
Proof.
  split. cbn. intros fd n k k' ret bytes peer sz.
  destruct (inbox k) as [|d q]; intros [= <- <- <- <- <-]; [lia|].
  intros _. split; [done|]. rewrite length_take. lia.
Qed.

(** The clock advances by one at every read. *)
Definition ticks (n : nat) : Z := 100 + Z.of_nat n.

Definition fresh_multi : multi_handle (U:=View) := exist _ empty_view eq_refl.

Definition kernel_start : sim :=
  {| next_fd := 10; inbox := [encode_tagged 9 1 #"0730"; encode_tagged 10 2 #"555"] |}.

(** The process as it is started, on descriptor 9 for the epoll instance. *)
Definition rows : M (list text_row) := Ret [csv_text; thinq_text].

Definition booted :=
  boot 9 rows [ #"127.0.0.1:3333"] zero_components (new_Process 9 kernel_start fresh_multi no_statics).

Definition timer : Z := 10.
Definition notifier : Z := 11.
Definition udp : Z := 12.
Definition terminator : Z := 13.

Definition wakes (fd : Z) : @occurrence text_row := Woken (WaitEvents [(fd, EPOLLIN)]).

Definition asked : list (@occurrence text_row) := [wakes udp; wakes udp].
Definition served : list (@occurrence text_row) :=
  asked ++ [wakes timer; Hangup rows; wakes toy_socket; wakes notifier].
Definition ended : list (@occurrence text_row) := served ++ [Terminate; wakes terminator].

Definition after_of (l : list occurrence) := run_process ticks l (fst booted).

(** ** Lemmas *)

Lemma executed l : executes ticks 9 kernel_start fresh_multi no_statics rows [ #"127.0.0.1:3333"]
  zero_components l (after_of l).
Proof.
  exists (fst booted). split; [|done].
  assert (E : snd booted = Ret tt) by (vm_compute; reflexivity).
  change (booted = (fst booted, Ret tt)). rewrite <- E. apply surjective_pairing.
Qed.

(** Whether a datagram filled the buffer. *)
Lemma not_full l : forallb (fun r => negb (r =? Z.of_nat MSG_SZ)%Z) (receptions (fst (fst (after_of l)))) = true →
  ¬ full (fst (fst (after_of l))).
Proof.
  intros Hl Hf. rewrite forallb_forall in Hl. specialize (Hl _ (proj1 (list_elem_of_In _ _) Hf)). discriminate Hl.
Qed.

(** Whether the responses of a list of calls fit. *)
Definition fits_callb {H Row} (e : @event H Row) : bool :=
  match e with Responded _ r => (Z.of_nat (length (resp_data r)) <? MAX_RESPONSE)%Z | _ => true end.

Lemma fits_calls {H Row} (l : list (@event H Row)) : forallb fits_callb l = true → Forall fits_call l.
Proof.
  intros Hl. apply Forall_forall. intros e He. rewrite forallb_forall in Hl.
  specialize (Hl e (proj1 (list_elem_of_In _ _) He)). destruct e; try done.
  by apply Z.ltb_lt in Hl.
Qed.

Lemma rows_defined (c : driver_statics (L:=unit)) : defined (snd (loadResolveDrivers (D:=driver) rows (c, []))).
Proof. destruct c as [[] st cl]; vm_compute; discriminate. Qed.

Lemma ended_defined : Forall (reload_defined (D:=driver) (C:=driver_statics (L:=unit))) ended.
Proof. repeat (apply Forall_cons_2; [first [exact I|exact rows_defined]|]). apply Forall_nil_2. Qed.

Lemma served_defined : Forall (reload_defined (D:=driver) (C:=driver_statics (L:=unit))) served.
Proof. repeat (apply Forall_cons_2; [first [exact I|exact rows_defined]|]). apply Forall_nil_2. Qed.

(** ** Witnesses *)

(** The process ran until the signal, and left its loop in order. *)
Lemma process_stays_up_witness :
  let '(p, o, stopped) := after_of ended in
  o = Ret tt ∧ stopped = true ∧ length (calls p) = 14.
Proof.
  destruct (after_of ended) as [[p o] stopped] eqn:E.
  assert (Hf : forallb fits_callb (calls (fst (fst (after_of ended)))) = true) by (vm_compute; reflexivity).
  assert (Hs : snd (after_of ended) = true) by (vm_compute; reflexivity).
  assert (Hn : length (calls (fst (fst (after_of ended)))) = 14) by (vm_compute; reflexivity).
  assert (Hb : ¬ full (fst (fst (after_of ended)))) by (apply not_full; vm_compute; reflexivity).
  rewrite E in Hf, Hs, Hn, Hb. split; [|by split].
  pose proof (executed ended) as Hx. rewrite E in Hx.
  exact (proj1 (proj2 (process_stays_up ticks _ _ _ _ _ _ _ _ _ _ _ Hx ended_defined (fits_calls _ Hf)) Hb)).
Defined.

(** A datagram of 2048 bytes ends the same process in undefined behaviour. *)
Definition kernel_flooded : sim := {| next_fd := 10; inbox := [replicate 3000 "0"%char] |}.
Lemma full_datagram_undefined :
  let '(p, o, stopped) := run_process ticks asked
    (fst (boot 9 rows [ #"127.0.0.1:3333"] zero_components (new_Process 9 kernel_flooded fresh_multi no_statics))) in
  receptions p = [2048%Z] ∧ o = Undef ∧ stopped = true.
Proof. vm_compute. repeat split. Qed.

(** Both clients are answered once the HTTP client is idle again. *)
Lemma process_answers_every_request_witness :
  let p := fst (fst (after_of served)) in
  requests 10 (calls p) = 1 ∧ answers 10 (trace (resolver p)) = 1.
Proof.
  destruct (after_of served) as [[p o] stopped] eqn:E. cbn [fst].
  assert (Hf : forallb fits_callb (calls (fst (fst (after_of served)))) = true) by (vm_compute; reflexivity).
  assert (Hr : requests 10 (calls (fst (fst (after_of served)))) = 1) by (vm_compute; reflexivity).
  assert (Hi : in_flight (client (world (fst (fst (after_of served))))) = []) by (vm_compute; reflexivity).
  assert (Hq : response_queue (client (world (fst (fst (after_of served))))) = []) by (vm_compute; reflexivity).
  assert (Hb : ¬ full (fst (fst (after_of served)))) by (apply not_full; vm_compute; reflexivity).
  rewrite E in Hf, Hr, Hi, Hq, Hb. cbn [fst] in *.
  pose proof (executed served) as Hx. rewrite E in Hx. split; [exact Hr|]. rewrite <- Hr.
  apply (process_answers_every_request ticks _ _ _ _ _ _ _ _ _ _ _ 10 Hx served_defined (fits_calls _ Hf) Hb).
  - intros hr c. apply toy_takes.
  - lia.
  - rewrite Hr. done.
  - split; [exact Hi|exact Hq].
Defined.
